(* ===== verification/_CoqProject ===== *)
-Q . S2P
Prelude.v
Strs.v
Common.v
Net.v
NetText.v
AddressPolicy.v
Authorization.v
Credentials.v
Grants.v
Json.v
Contract.v
Render.v
Provisioning.v
Deployment.v
StaticRevision.v
Server.v
ServerPolicy.v
ServerDoctor.v
Store.v
ConfigApply.v
TomlEdit.v
AdminApply.v
AdminSteps.v
Archive.v
LeasePool.v
AdminReconcile.v
AdminUsers.v
AdminRevocation.v
AdminRevision.v
AdminRotate.v
AdminRestore.v
AdminEgress.v
AdminPairing.v
LeaseEndToEnd.v
ExternalAuth.v
OpDedup.v
ReportQueue.v
Jobs.v
ProtocolProbe.v
Pacing.v
WorkerClient.v
AgentLoop.v
AdminDoctor.v
RateLimit.v
Subscription.v
