(* ===== verification/Prelude.v ===== *)
(** * singbox-vpn: verification library

    singbox-vpn runs VPN exit and relay nodes.  vpn-admin (src/apps/admin)
    owns a node: it keeps the user store, renders the sing-box server
    configuration, checks and reloads it, rotates keys, applies revisions and
    restores backups.  A provisioning agent (src/apps/provisioning-agent)
    talks to a control plane: it keeps a pool of short-lived native credentials
    (lease slots), reconciles the control plane's authorizations and executes
    jobs, by handing documents to vpn-admin.  The subscription service
    (src/services/subscription) serves client configurations to token holders.
    They share the data model, policies and renderers of
    src/crates/compat-config, the document format of
    src/crates/provisioning-contract and the wire framing of
    src/crates/common.

    ** Files

    Foundations:
    - [Prelude.v]: results with [let?], machine integers, stable sorting,
      loops with early return, the [b2p]/[case_if]/[inv_bind] tactics.
    - [Strs.v]: Rust strings as byte strings; [trim], [split], formatting,
      byte order and [BTreeSet<&str>].
    - [Json.v]: [serde_json] values as type classes with laws ([JsonOps],
      [JsonTree], [JsonEq]) and one executable instance.
    - [Net.v], [NetText.v]: IP addresses, the standard library's predicates,
      CIDR blocks, and the text forms of addresses and networks.

    Shared crates:
    - [Common.v]: src/crates/common (time helpers, destination framing).
    - [AddressPolicy.v]: ssrf_guard.rs, the relay-target check of
      deployment.rs, the resolver check of static_revision.rs and the C-16
      deny lists of model.rs.
    - [Authorization.v] (module [Authz]), [Credentials.v] (module [Creds]):
      authorization.rs, credentials.rs.
    - [Grants.v]: [CredentialGrant] and [CompatUser] of model.rs, and
      credential_policy.rs.
    - [Contract.v]: src/crates/provisioning-contract.
    - [Render.v], [Provisioning.v]: render.rs and contract.rs, client
      configurations, share links and provisioning documents.
    - [Deployment.v]: deployment.rs, the data model, its validation and what
      is derived from it.
    - [StaticRevision.v]: static_revision.rs.
    - [Server.v]: server.rs, the sing-box server configuration of both roles;
      [ServerPolicy.v]: what it routes; [ServerDoctor.v]: whom it accepts, and
      the checks doctor makes of a document.
    - [TomlEdit.v]: the textual edits of deployment.toml in deployment.rs
      (schema migration, hairpin, egress and spoof sections) and pairing.rs
      (peer endpoints).
    - [Store.v]: store.rs, migrate.rs and ownership.rs over a file system in
      which every system call may fail; [ConfigApply.v]: the checked atomic
      write of server.rs.

    vpn-admin:
    - [AdminReconcile.v]: lease_pool.rs and external_authorization.rs.
    - [AdminApply.v]: applying a configuration to the running server (main.rs
      and service.rs); [AdminSteps.v]: the monad of the larger commands.
    - [AdminUsers.v], [AdminRevocation.v]: the user commands, and what a
      revocation or rotation means for the running server.
    - [AdminRevision.v]: revisions and static_apply.rs.
    - [AdminRotate.v]: init, REALITY and obfuscation rotation.
    - [Archive.v], [AdminRestore.v]: backup archives and restore.
    - [AdminEgress.v]: the egress, TLS-spoof and hairpin commands, and the
      systemd drop-in of systemd_dropin.rs.
    - [AdminPairing.v]: the bundles of compat-config's pairing.rs and the
      commands of the admin's pairing.rs that issue and accept them.
    - [AdminDoctor.v]: what doctor and its report decide: redaction, the public
      surface, release_identity.rs and the smaller classifiers.

    provisioning-agent:
    - [LeasePool.v]: lease_pool.rs, up to and including [tick];
      [LeaseEndToEnd.v]: the agent's document as vpn-admin's input.
    - [ExternalAuth.v]: external_authorization.rs.
    - [OpDedup.v], [ReportQueue.v], [Jobs.v]: op_dedup.rs, report_queue.rs,
      dispatch.rs and the job pipeline of main.rs.
    - [Pacing.v]: pacing.rs and events.rs; [WorkerClient.v]: worker_client.rs
      and the tasks that share its gate.
    - [ProtocolProbe.v]: protocol_probe.rs.
    - [AgentLoop.v]: the main loop of main.rs over these components, with
      health_probe.rs and stats.rs.

    Subscription service:
    - [RateLimit.v], [Subscription.v]: src/services/subscription.

    ** How code becomes definitions

    A struct is a record and an enum an inductive type with the source's
    names; a method is a function on the record; [Result] is [result], with
    [let? x := e in k] for [let x = e?; k]; a [for] loop that returns early is
    [for_each] or a fixpoint.  Integers are [Z]: checked and saturating
    operations are written as such, and where the code adds or subtracts
    unchecked the model wraps ([wrap_i64]), with the range in which it cannot
    wrap stated by the theorems.  A sort is a stable insertion sort, which is
    what [sort_by_key] promises; the rate limiter computes with IEEE doubles.

    File-system code lives in the monad [io] of [Store.v]: a map of files with
    mode, owner and group, and a list of faults that decides for each system
    call whether it fails, partial writes included; a theorem without a
    hypothesis on the list holds for every pattern of failures, and [calm]
    runs are those without any.  [aio] and [rio] add the service manager: a
    list of [systemctl] answers, each with what the process did meanwhile
    (nothing, stopped, loaded the file in place), and the configuration the
    process has loaded.  The agent's reconcilers pass a [World] (state file,
    proven live configuration, requests sent) and an [Env] with the outcome of
    each effect of a tick.  Concurrency is modelled where code shares state:
    the report queue's file ([qstep]), the wake-up flags, and the gate, which
    the calls of four tasks reach in any order ([cstep], operations of the gate
    in the order of the clock).

    What is not in the repository is an argument: random bytes ([Draws]),
    clocks and host observations ([Host]), RFC 3339 and RFC 2822 parsing,
    hashing, base64 and X25519, DNS, the derived serde decoders and the TOML
    crate, [sing-box check] and its key generator, the tar crate, HTTP.  Its
    documented behaviour appears as named hypotheses: [JsonLaws],
    [JsonTreeLaws], [JsonEqLaws] and [JsonViewLaws] on JSON values,
    [SingBoxLaws] on route matching, the round trips of the serialisers, and
    the hypotheses on [hex_encode] and time parsing; each is instantiated by a
    witness.

    Fuel: whitespace trimming is bounded by the string's length, decimal
    formatting by the twenty digits of a 64-bit number, hexadecimal groups by
    four digits, the chain of first hops by the number of paths, the service
    polls by the source's ten attempts; a fresh id is drawn from a list of
    draws, and [draw_id_total] shows that one more draw than there are users
    is enough.  Retry and delivery loops are structural in their bounds.

    ** What the theorems show

    - Running server: "applied" means loaded by the process, or that the file
      in place and its stamp already say so; in a [trusted] state (no apply
      since the last known point ended unreloaded or with an unverified
      recovery) it means loaded in both cases; a change the server does not
      survive is undone; [users.json] follows the server; in a trusted state a
      revoked or rotated credential is rejected by the running configuration.
    - User commands: when the store can be examined, each does to the stored
      list exactly what its edit says, or nothing.
    - Revisions: applied revisions strictly increase over the life of a node,
      a static revision leaves the old or the new deployment file, says which,
      keeps the old one to go back to until its stamp is written, and changes
      nothing outside its allowlist.
    - Rotation and restore are all or nothing on every failure path of the
      checker and the service; a rotation never tears a key file even when file
      operations fail; an archive is confined to the manifest.
    - Files: saves and configuration swaps never leave a torn or an unchecked
      file behind.
    - Server policy: a relay forwards to declared exits only, an exit denies
      reserved destinations and its declared addresses, probes are confined, the inbounds accept exactly
      the credentials authorized now, and doctor accepts what is rendered.
    - Documents: validation decides its specification; a relayed endpoint is
      dialled through its hop; assembled documents agree with their embedded
      configuration; a valid deployment can always be rendered.
    - Subscription service: credentials are served to their holder only, dead
      tokens are indistinguishable, share links never skip the relay.
    - Lease pool and external authorizations: what is reported or acknowledged
      was proven live, after any pattern of failures and restarts; a change
      under the same revision only takes access away; vpn-admin's reconcilers
      implement the desired set, leave other users alone and are idempotent.
    - Main loop: no expired lease survives an iteration in which the local
      operations work, whatever the control plane does; a network step is due
      exactly when there is something to do or the reconcile interval is over.
    - Jobs and pacing: under redelivery a job id succeeds at most once, and at
      most once more for each delivery in which the dedup log failed; the
      report queue is bounded, never sends for an expired lease and drains;
      the gate always reopens; while no call of the node succeeds a failing
      control plane gets at most two gated requests per half backoff step, and
      a Retry-After holds back every gated call of every task.
    - Prober: health is hysteretic as documented, and only addresses the guard
      permits are dialled.
    - Deployment file and egress settings: an edit changes its own section or
      nothing; a change of egress settings is a transaction over the text of
      the file, the credential and the running server.
    - Pairing: the route a relay accepts is the endpoint the exit publishes,
      and the deployment with it is valid; a bundle that is not delivered
      leaves no account behind without saying so; accepting one is a
      transaction.
    - Doctor: the report is the original with the credential-shaped words, and
      only those, replaced; the public-surface check fails exactly on the
      listeners [acceptable] excludes, the SSH port being exempt.
    - Addresses, identifiers, grants and framing: classifiers are the block
      lists they describe, dead grants stay dead, framing round-trips.

    Lemmas named in the files also show where the code does not do what its
    comments say, or what an operator would expect: in the agent
    [restart_acks_partial_snapshot], [failed_apply_forgotten],
    [enqueue_during_pass_lost], [unsaved_pass_repeats_at_once],
    [unsaved_slots_can_go_live], [lookup_ignores_retention],
    [loopback_self_probe_never_runs], [prober_ignores_gate],
    [capped_wait_is_half_the_cap]; in the shared
    crates [skew_grace_admits_three], [path_named_direct_skips_target_check],
    [non_relay_path_loads_and_never_renders],
    [hairpin_probe_escapes_confinement], [doctor_counts_target_rules],
    [unexaminable_store_is_empty], [c16_extends_ssrf_guard],
    [undeclared_own_address_reachable]; in vpn-admin
    [lease_id_clash_accepted], [stale_stamp_after_failed_recovery],
    [unavailable_after_write_is_published],
    [create_after_failed_stat_drops_users],
    [renew_native_locks_out_own_secrets], [rotation_ignored_with_grants],
    [cleared_expiry_breaks_rendering], [incomplete_rollback_drops_backup],
    [leftover_backup_undoes_revision], [unrecorded_revision_stays_live],
    [failed_backup_blocks_rotation], [missed_stat_deletes_live_key],
    [unapplied_restore_succeeds], [failed_stat_skips_node_check],
    [rollback_makes_config_private], [hairpin_success_without_reload],
    [clear_reports_failed_rollback], [failed_restore_deletes_credential],
    [foreign_dropin_overwritten], [declared_route_not_applied],
    [issue_after_failed_stat_drops_users], [ssh_port_hides_conflict],
    [letters_only_key_shown], [unreadable_running_executable_matches]; in the
    subscription service [missing_peer_credential_breaks_subscription].

    ** What is not modelled

    - Running other programs: spawning, killing and reaping processes, the
      handshake self-tests and the measurements of the prober, which are inputs
      of the models that read their results.
    - HTTP servers and clients below the request and its answer, TLS, DNS.
    - Measurements of the host: telemetry.rs computes with floating-point
      numbers read from /proc, and the performance and status commands of
      vpn-admin print what they measure; no state depends on them.
    - Loading the agent's configuration file: a derived decoder with defaults.
    - Printed output, error messages and the command-line parser; a message is
      modelled as the case that produces it.
    - The advisory lock of vpn-admin (lock.rs) and the bounded reads of
      safe_io.rs: commands are modelled one at a time, as the lock makes them
      run.
    - Writing the archive file of a backup: the tar crate.
    - The commands [config validate] and [config migrate] as sequences; the two
      operations by which [config migrate] rewrites files are modelled on
      their own ([migrate_deployment_toml] of TomlEdit.v, [migrate_users] of
      Store.v). *)

From stdpp Require Export base list strings gmap sorting.
From Stdlib Require Export ZArith Lia Permutation.

#[global] Open Scope Z_scope.

Declare Scope vpn_scope.
Delimit Scope vpn_scope with vpn.
#[global] Open Scope vpn_scope.

(** ** Fallible code: Rust's [Result] *)

Inductive result (A E : Type) : Type :=
| Ok (a : A)
| Err (e : E).
Arguments Ok {A E} a.
Arguments Err {A E} e.

Definition result_bind {A B E} (r : result A E) (k : A -> result B E) : result B E :=
  match r with
  | Ok a => k a
  | Err e => Err e
  end.

(** [let? x := e in k] is Rust's [let x = e?; k]. *)
Notation "'let?' x := e 'in' k" := (result_bind e (fun x => k))
  (at level 10, x binder, e at level 100, k at level 200) : vpn_scope.

Definition is_ok {A E} (r : result A E) : bool :=
  match r with Ok _ => true | Err _ => false end.

Definition ok_or {A E} (o : option A) (e : E) : result A E :=
  match o with Some a => Ok a | None => Err e end.

Definition map_err {A E F} (f : E -> F) (r : result A E) : result A F :=
  match r with Ok a => Ok a | Err e => Err (f e) end.

(** ** Machine integers

    Rust integers are modelled as [Z] with the width written out where the
    code can reach it.  Release builds wrap ([wrap_i64]); the [checked_*] and
    [saturating_*] operations are the ones the sources call. *)

Definition i64_min : Z := - 2 ^ 63.
Definition i64_max : Z := 2 ^ 63 - 1.
Definition u8_max : Z := 2 ^ 8 - 1.
Definition u16_max : Z := 2 ^ 16 - 1.
Definition u32_max : Z := 2 ^ 32 - 1.
Definition u64_max : Z := 2 ^ 64 - 1.

Definition in_i64 (z : Z) : bool := (i64_min <=? z) && (z <=? i64_max).
Definition in_u64 (z : Z) : bool := (0 <=? z) && (z <=? u64_max).
Definition in_u32 (z : Z) : bool := (0 <=? z) && (z <=? u32_max).

Definition wrap_i64 (z : Z) : Z := (z + 2 ^ 63) mod 2 ^ 64 - 2 ^ 63.

Definition checked_add_i64 (a b : Z) : option Z :=
  if in_i64 (a + b) then Some (a + b) else None.
Definition checked_sub_i64 (a b : Z) : option Z :=
  if in_i64 (a - b) then Some (a - b) else None.

Definition saturating_add (max a b : Z) : Z := Z.min max (a + b).
Definition saturating_sub (a b : Z) : Z := Z.max 0 (a - b).

(** Rust's [Ord::clamp] (for [lo <= hi]). *)
Definition clamp (lo hi z : Z) : Z := Z.min hi (Z.max lo z).

(** ** Proof automation *)

Create HintDb vpn discriminated.
Create Rewrite HintDb boolprop.

#[export] Hint Rewrite andb_true_iff andb_false_iff orb_true_iff orb_false_iff
  negb_true_iff negb_false_iff Z.leb_le Z.leb_gt Z.ltb_lt Z.ltb_ge
  Z.eqb_eq Z.eqb_neq : boolprop.

(** Turn boolean tests in the hypotheses and the goal into propositions. *)
Ltac b2p :=
  autorewrite with boolprop in *;
  repeat (match goal with
          | H : _ /\ _ |- _ => destruct H
          | H : String.eqb _ _ = true |- _ => apply String.eqb_eq in H
          | H : String.eqb _ _ = false |- _ => apply String.eqb_neq in H
          | H : Nat.leb _ _ = true |- _ => apply Nat.leb_le in H
          | H : Nat.leb _ _ = false |- _ => apply Nat.leb_gt in H
          | H : Nat.ltb _ _ = true |- _ => apply Nat.ltb_lt in H
          | H : Nat.ltb _ _ = false |- _ => apply Nat.ltb_ge in H
          | H : Nat.eqb _ _ = true |- _ => apply Nat.eqb_eq in H
          | H : Nat.eqb _ _ = false |- _ => apply Nat.eqb_neq in H
          | H : Bool.eqb _ _ = true |- _ => apply Bool.eqb_prop in H
          end; autorewrite with boolprop in *).

(** Case analysis on the first [if] or [match] scrutinee of a goal or an
    equation in the context. *)
Ltac case_if :=
  match goal with
  | |- context [if ?b then _ else _] => destruct b eqn:?
  | H : context [if ?b then _ else _] |- _ => destruct b eqn:?
  end.
Ltac case_scrut :=
  match goal with
  | H : context [match ?x with _ => _ end] |- _ =>
      lazymatch type of x with
      | _ => destruct x eqn:?
      end
  | |- context [match ?x with _ => _ end] => destruct x eqn:?
  end.

(** Invert a successful [let?] chain one bind at a time. *)
Ltac inv_bind :=
  repeat match goal with
  | H : result_bind ?r _ = Ok _ |- _ =>
      let E := fresh "Hb" in destruct r eqn:E; simpl in H; [| discriminate H]
  | H : Ok _ = Ok _ |- _ => injection H as H; subst
  | H : Err _ = Ok _ |- _ => discriminate H
  | H : Ok _ = Err _ |- _ => discriminate H
  end.

(** ** Integer lemmas *)

Lemma wrap_i64_id z : in_i64 z = true -> wrap_i64 z = z.
Proof.
  unfold in_i64, i64_min, i64_max, wrap_i64; intros; b2p.
  rewrite Z.mod_small by lia. lia.
Qed.

Lemma checked_sub_i64_Some a b c :
  checked_sub_i64 a b = Some c <-> c = a - b /\ in_i64 c = true.
Proof.
  unfold checked_sub_i64. destruct (in_i64 (a - b)) eqn:E; split.
  - intros [= <-]; auto.
  - intros [-> _]; reflexivity.
  - discriminate.
  - intros [-> H]; congruence.
Qed.

Lemma checked_add_i64_Some a b c :
  checked_add_i64 a b = Some c <-> c = a + b /\ in_i64 c = true.
Proof.
  unfold checked_add_i64. destruct (in_i64 (a + b)) eqn:E; split.
  - intros [= <-]; auto.
  - intros [-> _]; reflexivity.
  - discriminate.
  - intros [-> H]; congruence.
Qed.

Lemma clamp_bounds lo hi z : lo <= hi -> lo <= clamp lo hi z <= hi.
Proof. unfold clamp; lia. Qed.
#[export] Hint Resolve clamp_bounds : vpn.

(** ** Lists *)

Section ListLib.
Context {A : Type}.

(** Stable insertion sort: what [slice::sort_by_key] and [sort_by] promise (a
    stable sort); [leb x y] is "x's key is not greater than y's". *)
Fixpoint insert_stable (leb : A -> A -> bool) (x : A) (l : list A) : list A :=
  match l with
  | [] => [x]
  | y :: l' => if leb x y then x :: y :: l' else y :: insert_stable leb x l'
  end.

Fixpoint sort_stable (leb : A -> A -> bool) (l : list A) : list A :=
  match l with
  | [] => []
  | x :: l' => insert_stable leb x (sort_stable leb l')
  end.

Lemma insert_stable_perm leb x l : Permutation (x :: l) (insert_stable leb x l).
Proof.
  induction l as [|y l IH]; simpl; [reflexivity|].
  destruct (leb x y); [reflexivity|].
  rewrite perm_swap. by apply perm_skip.
Qed.

Lemma sort_stable_perm leb l : Permutation l (sort_stable leb l).
Proof.
  induction l as [|x l IH]; simpl; [reflexivity|].
  rewrite <- insert_stable_perm. by apply perm_skip.
Qed.

Lemma sort_stable_length leb l : length (sort_stable leb l) = length l.
Proof. symmetry. apply Permutation_length, sort_stable_perm. Qed.

Lemma In_sort_stable leb x l : In x (sort_stable leb l) <-> In x l.
Proof.
  split; apply Permutation_in; [symmetry|]; apply sort_stable_perm.
Qed.

(** Sorted output for a total, transitive boolean order. *)
Lemma insert_stable_sorted (leb : A -> A -> bool) x l :
  (forall a b, leb a b = false -> leb b a = true) ->
  (forall a b c, leb a b = true -> leb b c = true -> leb a c = true) ->
  StronglySorted (fun a b => leb a b = true) l ->
  StronglySorted (fun a b => leb a b = true) (insert_stable leb x l).
Proof.
  intros Htot Htr. induction 1 as [|y l Hs IH Hy]; simpl; [repeat constructor|].
  destruct (leb x y) eqn:E.
  - constructor; [by constructor|]. constructor; [done|].
    eapply Forall_impl; [exact Hy|]. simpl; eauto.
  - constructor; [done|]. rewrite List.Forall_forall in Hy |- *. intros z Hz.
    apply (Permutation_in _ (symmetry (insert_stable_perm _ x l))) in Hz.
    destruct Hz as [<-|Hz]; auto.
Qed.

Lemma sort_stable_sorted (leb : A -> A -> bool) l :
  (forall a b, leb a b = false -> leb b a = true) ->
  (forall a b c, leb a b = true -> leb b c = true -> leb a c = true) ->
  StronglySorted (fun a b => leb a b = true) (sort_stable leb l).
Proof.
  intros. induction l; simpl; [constructor|]. by apply insert_stable_sorted.
Qed.

(** [sort_by_key] with an integer key. *)
Definition key_leb (key : A -> Z) (a b : A) : bool := key a <=? key b.
Definition sort_by_key (key : A -> Z) (l : list A) : list A := sort_stable (key_leb key) l.

Lemma sort_by_key_sorted (key : A -> Z) l :
  StronglySorted (fun a b => key a <= key b) (sort_by_key key l).
Proof.
  assert (H : StronglySorted (fun a b => key_leb key a b = true) (sort_by_key key l)).
  { apply sort_stable_sorted; unfold key_leb; intros; lia. }
  induction H as [|y k Hs IH Hy]; constructor; [done|].
  eapply Forall_impl; [exact Hy|]. unfold key_leb; simpl; intros; lia.
Qed.

(** Sorting a list that is already sorted changes nothing. *)
Lemma sort_by_key_id (key : A -> Z) l :
  StronglySorted (fun a b => key a <= key b) l -> sort_by_key key l = l.
Proof.
  unfold sort_by_key. induction 1 as [|y l Hs IH Hy]; simpl; [done|]. rewrite IH.
  destruct l as [|z l]; simpl; [done|]. unfold key_leb at 1.
  inversion Hy; subst. destruct (key y <=? key z) eqn:E; b2p; [done|lia].
Qed.

(** [filter] with a boolean test (Rust's [Iterator::filter] / [Vec::retain]). *)
Lemma In_filterb (f : A -> bool) x l :
  In x (List.filter f l) <-> In x l /\ f x = true.
Proof. apply filter_In. Qed.

Lemma In_drop n (x : A) l : In x (drop n l) -> In x l.
Proof. intros H. rewrite <- (take_drop n l). apply in_app_iff. by right. Qed.

(** A filter that loses no length loses nothing. *)
Lemma filter_all_length (f : A -> bool) l :
  length (List.filter f l) = length l -> List.filter f l = l.
Proof.
  induction l as [|x l IH]; simpl; [done|]. pose proof (List.filter_length_le f l).
  destruct (f x); simpl; intros; [f_equal; apply IH; lia|lia].
Qed.

Lemma find_none_iff (f : A -> bool) l :
  List.find f l = None <-> forall x, In x l -> f x = false.
Proof.
  split; [by apply find_none|].
  induction l as [|y l IH]; simpl; intros H; [done|].
  rewrite (H y (or_introl eq_refl)). apply IH. auto.
Qed.

Lemma forallb_false_iff (f : A -> bool) l :
  forallb f l = false <-> exists x, In x l /\ f x = false.
Proof.
  induction l as [|y l IH]; simpl; [split; [discriminate|intros (?&[]&?)]|].
  rewrite andb_false_iff, IH. split.
  - intros [H|(x&?&?)]; eauto.
  - intros (x&[<-|?]&?); eauto.
Qed.

Lemma existsb_false_iff (f : A -> bool) l :
  existsb f l = false <-> forall x, In x l -> f x = false.
Proof.
  induction l as [|y l IH]; simpl; [split; [intros _ ? []|done]|].
  rewrite orb_false_iff, IH. split.
  - intros [? ?] x [<-|?]; auto.
  - intros H; split; auto.
Qed.

(** Early-return loops: [for x in l { f(x)?; }]. *)
Fixpoint for_each {E} (f : A -> result unit E) (l : list A) : result unit E :=
  match l with
  | [] => Ok tt
  | x :: l' => let? _ := f x in for_each f l'
  end.

Lemma for_each_ok {E} (f : A -> result unit E) l :
  for_each f l = Ok tt <-> forall x, In x l -> f x = Ok tt.
Proof.
  induction l as [|y l IH]; simpl; [split; [intros _ ? []|done]|].
  destruct (f y) as [[]|e] eqn:E0; simpl.
  - rewrite IH. split; [intros H x [<-|?]; auto|auto].
  - split; [discriminate|]. intros H. rewrite H in E0; [discriminate|auto].
Qed.

(** The error of a [for] loop is the error of its first failing element. *)
Lemma for_each_err {E} (f : A -> result unit E) l e :
  for_each f l = Err e ->
  exists pre x post, l = pre ++ x :: post /\ f x = Err e /\
    forall y, In y pre -> f y = Ok tt.
Proof.
  induction l as [|y l IH]; simpl; [discriminate|].
  destruct (f y) as [[]|e0] eqn:E0; simpl; intros H.
  - destruct (IH H) as (pre&x&post&->&?&?). exists (y :: pre), x, post.
    repeat split; auto. intros z [<-|?]; auto.
  - injection H as <-. exists [], y, l. repeat split; auto. intros ? [].
Qed.

End ListLib.

Lemma In_filter_map {A B} (f : A -> option B) (l : list A) b :
  In b (omap f l) <-> exists a, In a l /\ f a = Some b.
Proof.
  rewrite <- list_elem_of_In, list_elem_of_omap. setoid_rewrite list_elem_of_In.
  done.
Qed.

(** Keys of a list that agree on all elements are the same list. *)
Lemma NoDup_map_inj {A B} (f : A -> B) l x y :
  List.NoDup (map f l) -> In x l -> In y l -> f x = f y -> x = y.
Proof.
  induction l as [|z l IH]; simpl; [intros _ []|].
  intros Hnd [<-|Hx] [<-|Hy] E; inversion Hnd; subst; auto.
  - exfalso. apply H1. rewrite E. by apply in_map.
  - exfalso. apply H1. rewrite <- E. by apply in_map.
Qed.

Lemma omap_length_le {A B} (f : A -> option B) (l : list A) : (length (omap f l) <= length l)%nat.
Proof. induction l as [|x l IH]; csimpl; [lia|]. destruct (f x); csimpl; lia. Qed.

(** Distinct results of a partial map come from distinct elements. *)
Lemma NoDup_omap_inj {A B} (f : A -> option B) l x y k :
  List.NoDup (omap f l) -> In x l -> In y l -> f x = Some k -> f y = Some k -> x = y.
Proof.
  induction l as [|z l IH]; [intros _ []|]. csimpl. intros Hnd Hx Hy Ex Ey.
  assert (Hz : forall w, f z = Some k -> In w l -> f w = Some k -> w = z).
  { intros w Ez Hw Ew. rewrite Ez in Hnd. inversion Hnd as [|? ? Hk]; subst. destruct Hk.
    apply In_filter_map. eauto. }
  destruct Hx as [<-|Hx], Hy as [<-|Hy]; [done|symmetry; by apply Hz|by apply Hz|].
  destruct (f z); [inversion Hnd; subst|]; auto.
Qed.

Lemma NoDup_omap_filter {A B} (g : A -> option B) (f : A -> bool) l :
  List.NoDup (omap g l) -> (forall x, f x = true -> g x <> None) -> List.NoDup (List.filter f l).
Proof.
  intros Hnd Hf. induction l as [|x l IH]; [constructor|]. csimpl in Hnd.
  assert (IH' : List.NoDup (List.filter f l)) by (destruct (g x); [inversion Hnd; subst|]; auto).
  simpl. destruct (f x) eqn:E; [|done]. constructor; [|done]. intros Hin. apply In_filterb in Hin as [Hin _].
  specialize (Hf x E). destruct (g x) as [k|] eqn:Eg; [|done]. inversion Hnd as [|? ? Hk]; subst.
  destruct Hk. apply In_filter_map. eauto.
Qed.

Lemma filter_nil_iff {A} (f : A -> bool) l :
  List.filter f l = [] <-> forall x, In x l -> f x = false.
Proof.
  induction l as [|y l IH]; simpl; [split; [intros _ ? []|done]|].
  destruct (f y) eqn:E.
  - split; [discriminate|]. intros Hx. rewrite Hx in E; [done|by left].
  - rewrite IH. split; [intros Hx x [<-|?]; auto|auto].
Qed.
