(* ===== verification/Strs.v ===== *)
(** * Byte strings: the parts of Rust's [str] and [char] the sources use.

    A Rust [String] is a sequence of UTF-8 bytes; it is modelled as a Standard
    Library [string], whose characters are exactly the bytes.  [slen] is
    [str::len] (bytes).  Predicates such as [chars().all(is_ascii_hexdigit)]
    become [str_all] over bytes: a non-ASCII [char] is encoded by bytes above
    127 only, and every ASCII test refuses those, so the two agree. *)

From S2P Require Import Prelude.
From Stdlib Require Import Ascii.

(** ** Bytes *)

Definition byte_val (c : ascii) : Z := Z.of_N (N_of_ascii c).

Definition in_range (lo hi : Z) (c : ascii) : bool :=
  (lo <=? byte_val c) && (byte_val c <=? hi).

Definition is_ascii_digit (c : ascii) : bool := in_range 48 57 c.
Definition is_ascii_lowercase (c : ascii) : bool := in_range 97 122 c.
Definition is_ascii_uppercase (c : ascii) : bool := in_range 65 90 c.
Definition is_ascii_alphanumeric (c : ascii) : bool :=
  is_ascii_digit c || is_ascii_lowercase c || is_ascii_uppercase c.
Definition is_ascii_hexdigit (c : ascii) : bool :=
  is_ascii_digit c || in_range 97 102 c || in_range 65 70 c.
Definition is_char (d c : ascii) : bool := Ascii.eqb d c.

Definition ascii_to_lower (c : ascii) : ascii :=
  if is_ascii_uppercase c then ascii_of_N (N_of_ascii c + 32) else c.

(** ** Strings *)

Definition bytes_of (s : string) : list ascii := String.list_ascii_of_string s.
Definition slen (s : string) : Z := Z.of_nat (String.length s).
Definition str_all (f : ascii -> bool) (s : string) : bool := forallb f (bytes_of s).
Definition str_any (f : ascii -> bool) (s : string) : bool := existsb f (bytes_of s).
Definition str_is_empty (s : string) : bool := String.eqb s EmptyString.
Definition starts_with (p s : string) : bool := String.prefix p s.

Fixpoint to_ascii_lowercase (s : string) : string :=
  match s with
  | EmptyString => EmptyString
  | String c s' => String (ascii_to_lower c) (to_ascii_lowercase s')
  end.

(** [str::contains] for a non-empty or empty needle. *)
Fixpoint str_contains (needle s : string) : bool :=
  String.prefix needle s ||
  match s with
  | EmptyString => false
  | String _ s' => str_contains needle s'
  end.

(** [str::strip_prefix]. *)
Fixpoint strip_prefix (p s : string) : option string :=
  match p, s with
  | EmptyString, _ => Some s
  | String a p', String b s' => if Ascii.eqb a b then strip_prefix p' s' else None
  | String _ _, EmptyString => None
  end.

(** [str::split] on a one-byte separator: always at least one piece. *)
Fixpoint split_on (d : ascii) (s : string) : list string :=
  match s with
  | EmptyString => [EmptyString]
  | String c s' =>
      if Ascii.eqb c d then EmptyString :: split_on d s'
      else match split_on d s' with
           | [] => [String c EmptyString]
           | w :: ws => String c w :: ws
           end
  end.

(** Length in bytes of a leading Unicode [White_Space] character, if any.  The
    byte patterns are the UTF-8 encodings of U+0009..U+000D, U+0020, U+0085,
    U+00A0, U+1680, U+2000..U+200A, U+2028, U+2029, U+202F, U+205F, U+3000. *)
Definition ws_prefix (s : string) : nat :=
  match s with
  | EmptyString => 0%nat
  | String a s1 =>
      if in_range 9 13 a || in_range 32 32 a then 1%nat else
      match s1 with
      | EmptyString => 0%nat
      | String b s2 =>
          if in_range 194 194 a && (in_range 133 133 b || in_range 160 160 b) then 2%nat else
          match s2 with
          | EmptyString => 0%nat
          | String c _ =>
              if (in_range 225 225 a && in_range 154 154 b && in_range 128 128 c)
                 || (in_range 226 226 a && in_range 128 128 b
                     && (in_range 128 138 c || in_range 168 169 c || in_range 175 175 c))
                 || (in_range 226 226 a && in_range 129 129 b && in_range 159 159 c)
                 || (in_range 227 227 a && in_range 128 128 b && in_range 128 128 c)
              then 3%nat else 0%nat
          end
      end
  end.

(** [s.trim().is_empty()]: the string is whitespace only.  Each step consumes
    at least one byte, so the length bounds the number of steps. *)
Fixpoint blank_fuel (n : nat) (s : string) : bool :=
  match s with
  | EmptyString => true
  | String _ _ =>
      match n, ws_prefix s with
      | S n', S k => blank_fuel n' (String.substring (S k) (String.length s) s)
      | _, _ => false
      end
  end.
Definition is_blank (s : string) : bool := blank_fuel (String.length s) s.

(** [s.chars().any(char::is_whitespace)]: on well-formed UTF-8 the byte
    patterns of [ws_prefix] can only match at character boundaries. *)
Fixpoint has_whitespace (s : string) : bool :=
  match s with
  | EmptyString => false
  | String _ s' => negb (Nat.eqb (ws_prefix s) 0) || has_whitespace s'
  end.

(** ** Lemmas *)

Lemma starts_with_app p s : starts_with p (p +:+ s) = true.
Proof.
  unfold starts_with. induction p as [|c p IH]; simpl; [by destruct s|].
  destruct (ascii_dec c c); [exact IH|done].
Qed.

Lemma starts_with_spec p s :
  starts_with p s = true <-> exists t, s = p +:+ t.
Proof.
  split; [|intros [t ->]; apply starts_with_app].
  unfold starts_with. revert s; induction p as [|c p IH]; intros s H.
  - by exists s.
  - destruct s as [|d s]; simpl in H; [discriminate|].
    destruct (ascii_dec c d) as [<-|]; [|discriminate].
    destruct (IH _ H) as [t ->]. by exists t.
Qed.

Lemma strip_prefix_Some p s t : strip_prefix p s = Some t <-> s = p +:+ t.
Proof.
  revert s; induction p as [|c p IH]; intros s; simpl.
  - split; [by intros [= ->]|by intros ->].
  - destruct s as [|d s]; [split; discriminate|].
    destruct (Ascii.eqb c d) eqn:E.
    + apply Ascii.eqb_eq in E as ->. rewrite IH. split; [by intros ->|by intros [= ->]].
    + apply Ascii.eqb_neq in E. split; [discriminate|]. intros [= ? ?]; congruence.
Qed.

Lemma bytes_of_app s t : bytes_of (s +:+ t) = (bytes_of s ++ bytes_of t)%list.
Proof.
  unfold bytes_of. induction s as [|c s IH]; [done|].
  change (String c s +:+ t) with (String c (s +:+ t)). simpl. by rewrite IH.
Qed.

Lemma str_all_app f s t : str_all f (s +:+ t) = str_all f s && str_all f t.
Proof. unfold str_all. rewrite bytes_of_app. apply forallb_app. Qed.

Lemma str_all_cons f c s : str_all f (String c s) = f c && str_all f s.
Proof. done. Qed.

Lemma length_bytes_of s : length (bytes_of s) = String.length s.
Proof. unfold bytes_of. induction s; simpl; congruence. Qed.

Lemma slen_app s t : slen (s +:+ t) = slen s + slen t.
Proof.
  unfold slen. rewrite <- !length_bytes_of, bytes_of_app, length_app. lia.
Qed.

Lemma slen_nonneg s : 0 <= slen s.
Proof. unfold slen; lia. Qed.
#[export] Hint Resolve slen_nonneg : vpn.

Lemma str_all_impl (f g : ascii -> bool) s :
  (forall c, f c = true -> g c = true) -> str_all f s = true -> str_all g s = true.
Proof.
  unfold str_all. rewrite !forallb_forall. auto.
Qed.

(** Byte predicates are decided by enumerating the 256 bytes. *)
Fixpoint all_bytes_from (n : nat) : list ascii :=
  match n with
  | O => []
  | S n' => ascii_of_nat n' :: all_bytes_from n'
  end.

Lemma all_bytes_complete c : In c (all_bytes_from 256).
Proof.
  assert (H : forall n m, (m < n)%nat -> In (ascii_of_nat m) (all_bytes_from n)).
  { induction n; intros m Hm; [lia|]. simpl.
    destruct (Nat.eq_dec m n) as [->|]; [by left|right; apply IHn; lia]. }
  rewrite <- (ascii_nat_embedding c). apply H. apply nat_ascii_bounded.
Qed.

Lemma byte_ind_b (P : ascii -> bool) :
  forallb P (all_bytes_from 256) = true -> forall c, P c = true.
Proof. rewrite forallb_forall. eauto using all_bytes_complete. Qed.

Ltac by_bytes f :=
  intros; apply (byte_ind_b f); vm_compute; reflexivity.

Lemma hexdigit_alphanumeric c :
  is_ascii_hexdigit c = true -> is_ascii_alphanumeric c = true.
Proof.
  assert (H : implb (is_ascii_hexdigit c) (is_ascii_alphanumeric c) = true)
    by (by_bytes (fun c => implb (is_ascii_hexdigit c) (is_ascii_alphanumeric c))).
  intros E. by rewrite E in H.
Qed.

Lemma to_ascii_lowercase_idemp s :
  to_ascii_lowercase (to_ascii_lowercase s) = to_ascii_lowercase s.
Proof.
  induction s as [|c s IH]; simpl; [done|]. rewrite IH. f_equal.
  apply Ascii.eqb_eq.
  by_bytes (fun c => Ascii.eqb (ascii_to_lower (ascii_to_lower c)) (ascii_to_lower c)).
Qed.

(** ** [split_on] inverts joining with the separator *)

Lemma split_on_no_sep d s :
  str_all (fun c => negb (Ascii.eqb c d)) s = true -> split_on d s = [s].
Proof.
  unfold str_all. induction s as [|c s IH]; simpl; [done|].
  intros H. b2p. rewrite H, (IH H0). done.
Qed.

Lemma split_on_app d s t :
  str_all (fun c => negb (Ascii.eqb c d)) s = true ->
  split_on d (s +:+ String d t) = s :: split_on d t.
Proof.
  unfold str_all. induction s as [|c s IH]; simpl.
  - intros _. by rewrite Ascii.eqb_refl.
  - intros H. b2p. rewrite H, (IH H0). done.
Qed.

(** ** Byte order and [BTreeSet<&str>] *)

Definition str_leb (a b : string) : bool := String.leb a b.

Lemma str_leb_cases a b : str_leb a b = true <-> String.compare a b <> Gt.
Proof. unfold str_leb, String.leb. by destruct (String.compare a b). Qed.

Lemma str_leb_total a b : str_leb a b = false -> str_leb b a = true.
Proof. unfold str_leb. destruct (String.leb_total a b); congruence. Qed.

Lemma str_leb_antisym a b : str_leb a b = true -> str_leb b a = true -> a = b.
Proof. apply String.leb_antisym. Qed.

Lemma str_leb_trans a b c : str_leb a b = true -> str_leb b c = true -> str_leb a c = true.
Proof.
  rewrite !str_leb_cases. revert b c; induction a as [|x a IH]; intros [|y b] [|z c]; simpl; try done.
  unfold Ascii.compare.
  destruct (N.compare_spec (N_of_ascii x) (N_of_ascii y)),
    (N.compare_spec (N_of_ascii y) (N_of_ascii z)),
    (N.compare_spec (N_of_ascii x) (N_of_ascii z)); try done; try lia; eauto.
Qed.

#[export] Instance str_leb_anti : AntiSymm eq (fun x y : string => str_leb x y = true).
Proof. intros x y. apply str_leb_antisym. Qed.

(** Sorted lists of strings are equal exactly for permutations. *)
Lemma sort_str_perm (a b : list string) :
  sort_stable str_leb a = sort_stable str_leb b <-> Permutation a b.
Proof.
  split.
  - intros E. rewrite (sort_stable_perm str_leb a), (sort_stable_perm str_leb b). by rewrite E.
  - intros Hp. assert (Hs : forall l : list string,
      StronglySorted (fun x y => str_leb x y = true) (sort_stable str_leb l))
      by (intros l; apply sort_stable_sorted; [apply str_leb_total|apply str_leb_trans]).
    apply (StronglySorted_unique (fun x y => str_leb x y = true)); [apply Hs..|].
    by rewrite <- !sort_stable_perm.
Qed.

(** The distinct strings of a list, in byte order. *)
Fixpoint dedup_str (l : list string) : list string :=
  match l with
  | [] => []
  | x :: l' => if existsb (String.eqb x) l' then dedup_str l' else x :: dedup_str l'
  end.
Definition btree_set (l : list string) : list string := sort_stable str_leb (dedup_str l).

Lemma In_dedup_str x l : In x (dedup_str l) <-> In x l.
Proof.
  induction l as [|y l IH]; simpl; [done|].
  destruct (existsb (String.eqb y) l) eqn:E; simpl; rewrite IH; [|done].
  split; [auto|]. intros [<-|?]; [|done].
  apply existsb_exists in E as (z & Hz & Heq). apply String.eqb_eq in Heq. by subst.
Qed.

Lemma In_btree_set x l : In x (btree_set l) <-> In x l.
Proof. unfold btree_set. by rewrite In_sort_stable, In_dedup_str. Qed.

(** ** Trimming, joining, replacing *)

(** [str::trim_end]: the shortest prefix whose remainder is whitespace.  A
    suffix that starts inside a character never matches [ws_prefix]. *)
Fixpoint trim_end (s : string) : string :=
  match s with
  | EmptyString => EmptyString
  | String c s' => if is_blank s then EmptyString else String c (trim_end s')
  end.

Fixpoint trim_start_fuel (n : nat) (s : string) : string :=
  match n, ws_prefix s with
  | S n', S k => trim_start_fuel n' (String.substring (S k) (String.length s) s)
  | _, _ => s
  end.
Definition trim (s : string) : string := trim_end (trim_start_fuel (String.length s) s).
Definition trim_start (s : string) : string := trim_start_fuel (String.length s) s.

(** [Iterator::find_map]. *)
Fixpoint find_map {A B} (f : A -> option B) (l : list A) : option B :=
  match l with [] => None | x :: l => match f x with Some y => Some y | None => find_map f l end end.

(** [str::split_once] on a one-byte separator. *)
Fixpoint split_once (d : ascii) (s : string) : option (string * string) :=
  match s with
  | EmptyString => None
  | String c s' => if Ascii.eqb c d then Some (EmptyString, s') else option_map (fun '(a, b) => (String c a, b)) (split_once d s')
  end.

(** [str::lines]: the last line may end without a terminator, and then keeps
    a carriage return. *)
Definition newline : ascii := ascii_of_nat 10.
Fixpoint strip_cr (s : string) : string :=
  match s with
  | EmptyString => EmptyString
  | String c EmptyString => if Ascii.eqb c (ascii_of_nat 13) then EmptyString else s
  | String c s' => String c (strip_cr s')
  end.
Fixpoint terminated (pieces : list string) : list string :=
  match pieces with
  | [] => []
  | [last] => if str_is_empty last then [] else [last]
  | piece :: pieces => strip_cr piece :: terminated pieces
  end.
Definition lines (s : string) : list string := terminated (split_on newline s).

(** [str::replace(d, "")] for a one-byte pattern. *)
Fixpoint remove_char (d : ascii) (s : string) : string :=
  match s with
  | EmptyString => EmptyString
  | String c s' => if Ascii.eqb c d then remove_char d s' else String c (remove_char d s')
  end.

Lemma remove_char_app d s t : remove_char d (s +:+ t) = remove_char d s +:+ remove_char d t.
Proof.
  induction s as [|c s IH]; [done|]. change (String c s +:+ t) with (String c (s +:+ t)). simpl.
  destruct (Ascii.eqb c d); [done|]. by rewrite IH.
Qed.

Lemma remove_char_id d s :
  str_all (fun c => negb (Ascii.eqb c d)) s = true -> remove_char d s = s.
Proof.
  unfold str_all. induction s as [|c s IH]; simpl; [done|]. intros H. b2p. by rewrite H, (IH H0).
Qed.

Fixpoint join_on (d : ascii) (l : list string) : string :=
  match l with
  | [] => EmptyString
  | [w] => w
  | w :: ws => w +:+ String d (join_on d ws)
  end.

Lemma split_on_ne d s : split_on d s <> [].
Proof. destruct s as [|c s]; simpl; [done|]. destruct (Ascii.eqb c d); [done|]. by destruct (split_on d s). Qed.

Lemma join_split d s : join_on d (split_on d s) = s.
Proof.
  induction s as [|c s IH]; simpl; [done|].
  destruct (Ascii.eqb c d) eqn:E.
  - apply Ascii.eqb_eq in E as ->. pose proof (split_on_ne d s).
    destruct (split_on d s) as [|w ws]; [done|]. by rewrite <- IH.
  - pose proof (split_on_ne d s). destruct (split_on d s) as [|w [|w' ws]]; [done| |]; simpl in *;
      by rewrite <- IH.
Qed.

(** Cut a string at a byte offset. *)
Lemma str_cut n s : (n <= String.length s)%nat ->
  exists a b, s = a +:+ b /\ String.length a = n.
Proof.
  revert s; induction n as [|n IH]; intros s Hn; [by exists EmptyString, s|].
  destruct s as [|c s]; simpl in Hn; [lia|]. destruct (IH s) as (a & b & -> & <-); [lia|].
  by exists (String c a), b.
Qed.

Lemma str_app_length s t : String.length (s +:+ t) = (String.length s + String.length t)%nat.
Proof. pose proof (slen_app s t) as H. unfold slen in H. lia. Qed.

Lemma str_app_assoc (a b c : string) : (a +:+ b) +:+ c = a +:+ (b +:+ c).
Proof. induction a as [|x a IH]; [done|]. change (String x ((a +:+ b) +:+ c) = String x (a +:+ (b +:+ c))). by f_equal. Qed.

Lemma str_app_nil_r s : s +:+ EmptyString = s.
Proof. induction s as [|x s IH]; [done|]. change (String x (s +:+ EmptyString) = String x s). by f_equal. Qed.

(** ** Decimal formatting of machine integers

    Twenty digits are enough for any [u64] or [i64]. *)

Definition digit (n : Z) : string := String (ascii_of_N (Z.to_N (48 + n))) EmptyString.
Fixpoint decimal_fuel (fuel : nat) (n : Z) : string :=
  match fuel with
  | O => EmptyString
  | S f => if n <? 10 then digit n else decimal_fuel f (n / 10) +:+ digit (n mod 10)
  end.
Definition u64_to_string (n : Z) : string := decimal_fuel 20 n.
Definition i64_to_string (n : Z) : string :=
  if n <? 0 then String "-" (u64_to_string (- n)) else u64_to_string n.
