(* ===== verification/Common.v ===== *)
(** * crates/common: time helpers and the destination-framing codec.

    Models [crates/common/src/lib.rs] ([UnixSeconds], [DurationBucket]) and
    [crates/common/src/framing.rs] (encoder, in-memory decoder, and the two
    asynchronous variants over a byte stream).  Bytes are [Z] in [0, 255];
    slice indexing is modelled with its panic, so "never panics" is a theorem
    and not a consequence of the encoding. *)

From S2P Require Import Prelude.

(** ** lib.rs *)

Definition saturating_add_secs (self secs : Z) : Z := saturating_add u64_max self secs.

Inductive DurationBucket :=
| Under100Ms | Under500Ms | Under2s | Under10s | Over10s.

Definition from_millis (ms : Z) : DurationBucket :=
  if (0 <=? ms) && (ms <=? 99) then Under100Ms
  else if (100 <=? ms) && (ms <=? 499) then Under500Ms
  else if (500 <=? ms) && (ms <=? 1999) then Under2s
  else if (2000 <=? ms) && (ms <=? 9999) then Under10s
  else Over10s.

(** ** Panicking slice access *)

Inductive outcome (A : Type) : Type :=
| Ret (a : A)
| Panics.
Arguments Ret {A} a.
Arguments Panics {A}.

Definition outcome_bind {A B} (o : outcome A) (k : A -> outcome B) : outcome B :=
  match o with Ret a => k a | Panics => Panics end.
Notation "'let!' x := e 'in' k" := (outcome_bind e (fun x => k))
  (at level 10, x binder, e at level 100, k at level 200) : vpn_scope.

Definition index (buf : list Z) (i : nat) : outcome Z :=
  match buf !! i with Some b => Ret b | None => Panics end.

(** [&buf[from..to]]: panics when [from > to] or [to > len]. *)
Definition slice (buf : list Z) (from to : nat) : outcome (list Z) :=
  if (from <=? to)%nat && (to <=? length buf)%nat
  then Ret (take (to - from) (drop from buf)) else Panics.

(** ** UTF-8 well-formedness ([std::str::from_utf8]) *)

Definition is_byte (b : Z) : bool := (0 <=? b) && (b <=? 255).
Definition within (lo hi b : Z) : bool := (lo <=? b) && (b <=? hi).
Definition cont (b : Z) : bool := within 128 191 b.

Fixpoint utf8_valid (l : list Z) : bool :=
  match l with
  | [] => true
  | a :: l1 =>
      if within 0 127 a then utf8_valid l1
      else match l1 with
      | [] => false
      | b :: l2 =>
          if within 194 223 a then cont b && utf8_valid l2
          else match l2 with
          | [] => false
          | c :: l3 =>
              if within 224 224 a then within 160 191 b && cont c && utf8_valid l3
              else if within 225 236 a || within 238 239 a
              then cont b && cont c && utf8_valid l3
              else if within 237 237 a then within 128 159 b && cont c && utf8_valid l3
              else match l3 with
              | [] => false
              | d :: l4 =>
                  if within 240 240 a
                  then within 144 191 b && cont c && cont d && utf8_valid l4
                  else if within 241 243 a
                  then cont b && cont c && cont d && utf8_valid l4
                  else if within 244 244 a
                  then within 128 143 b && cont c && cont d && utf8_valid l4
                  else false
              end
          end
      end
  end.

(** ** framing.rs *)

Definition VERSION : Z := 1.
Definition MAX_HOST_LEN : nat := 255.

Inductive FramingError :=
| UnsupportedVersion (v : Z)
| HostTooLong (n : nat)
| InvalidUtf8.

Definition to_be_bytes (n : Z) : list Z := [n / 256 mod 256; n mod 256].
Definition from_be_bytes (hi lo : Z) : Z := hi * 256 + lo.

(** [host] is the byte view of a Rust [&str]; [as u16] truncates. *)
Definition encode_destination (host : list Z) (port : Z) : result (list Z) FramingError :=
  if (MAX_HOST_LEN <? length host)%nat then Err (HostTooLong (length host))
  else Ok ([VERSION] ++ to_be_bytes (Z.of_nat (length host) mod 2 ^ 16)
             ++ host ++ to_be_bytes port).

Definition decode_destination (buf : list Z)
  : outcome (result (option (list Z * Z * nat)) FramingError) :=
  if (length buf =? 0)%nat then Ret (Ok None) else
  let! version := index buf 0 in
  if negb (version =? VERSION) then Ret (Err (UnsupportedVersion version)) else
  if (length buf <? 3)%nat then Ret (Ok None) else
  let! h := index buf 1 in
  let! l := index buf 2 in
  let host_len := Z.to_nat (from_be_bytes h l) in
  if (MAX_HOST_LEN <? host_len)%nat then Ret (Err (HostTooLong host_len)) else
  let needed := (3 + host_len + 2)%nat in
  if (length buf <? needed)%nat then Ret (Ok None) else
  let! host_bytes := slice buf 3 (3 + host_len) in
  if negb (utf8_valid host_bytes) then Ret (Err InvalidUtf8) else
  let! p1 := index buf (3 + host_len) in
  let! p2 := index buf (3 + host_len + 1) in
  Ret (Ok (Some (host_bytes, from_be_bytes p1 p2, needed))).

(** The asynchronous reader and writer over a byte stream: the stream is the
    list of bytes still to come; a read past its end is [UnexpectedEof]. *)
Inductive io_error := UnexpectedEof | InvalidInput (e : FramingError) | InvalidData (e : FramingError).

Definition read_exact (n : nat) (r : list Z) : result (list Z * list Z) io_error :=
  if (length r <? n)%nat then Err UnexpectedEof else Ok (take n r, drop n r).

Definition read_u8 (r : list Z) : result (Z * list Z) io_error :=
  match r with b :: r' => Ok (b, r') | [] => Err UnexpectedEof end.

Definition read_u16 (r : list Z) : result (Z * list Z) io_error :=
  match r with
  | a :: b :: r' => Ok (from_be_bytes a b, r')
  | _ => Err UnexpectedEof
  end.

Definition read_destination (r : list Z) : result ((list Z * Z) * list Z) io_error :=
  let? '(version, r) := read_u8 r in
  if negb (version =? VERSION) then Err (InvalidData (UnsupportedVersion version)) else
  let? '(hl, r) := read_u16 r in
  let host_len := Z.to_nat hl in
  if (MAX_HOST_LEN <? host_len)%nat then Err (InvalidData (HostTooLong host_len)) else
  let? '(host_buf, r) := read_exact host_len r in
  if negb (utf8_valid host_buf) then Err (InvalidData InvalidUtf8) else
  let? '(port, r) := read_u16 r in
  Ok ((host_buf, port), r).

Definition write_destination (w host : list Z) (port : Z) : result (list Z) io_error :=
  let? buf := map_err InvalidInput (encode_destination host port) in
  Ok (w ++ buf).

(** ** Lemmas *)

Lemma be_bytes_roundtrip n :
  0 <= n < 65536 ->
  from_be_bytes (n / 256 mod 256) (n mod 256) = n.
Proof.
  intros. unfold from_be_bytes. rewrite (Z.mod_small (n / 256)).
  - pose proof (Z.div_mod n 256). lia.
  - split; [apply Z.div_pos; lia|]. apply Z.div_lt_upper_bound; lia.
Qed.

Lemma be_bytes_unique h l :
  is_byte h = true -> is_byte l = true ->
  to_be_bytes (from_be_bytes h l) = [h; l].
Proof.
  unfold is_byte, to_be_bytes, from_be_bytes; intros; b2p.
  rewrite Z.div_add_l, (Z.div_small l), Z.add_0_r, Z.mod_small by lia.
  rewrite Z.add_comm, Z_mod_plus_full, Z.mod_small by lia. done.
Qed.

(** One equation for the decoder on a buffer that starts with a whole header
    prefix; the callers only have to discharge lengths. *)
Lemma decode_header h l rest :
  decode_destination (VERSION :: h :: l :: rest) =
  let host_len := Z.to_nat (from_be_bytes h l) in
  if (MAX_HOST_LEN <? host_len)%nat then Ret (Err (HostTooLong host_len)) else
  if (length rest <? host_len + 2)%nat then Ret (Ok None) else
  if negb (utf8_valid (take host_len rest)) then Ret (Err InvalidUtf8) else
  let! p1 := index rest host_len in
  let! p2 := index rest (host_len + 1) in
  Ret (Ok (Some (take host_len rest, from_be_bytes p1 p2, (host_len + 5)%nat))).
Proof.
  unfold decode_destination. cbn [length]. cbn -[slice MAX_HOST_LEN from_be_bytes Nat.ltb].
  set (n := Z.to_nat (from_be_bytes h l)).
  change (3 <? _)%nat with false.
  replace (S (S (S (length rest))) <? 3)%nat with false
    by (symmetry; apply Nat.ltb_ge; lia).
  destruct (MAX_HOST_LEN <? n)%nat; [done|].
  replace (S (S (S (length rest))) <? S (S (S (n + 2))))%nat
    with (length rest <? n + 2)%nat by (apply eq_true_iff_eq; rewrite !Nat.ltb_lt; lia).
  destruct (length rest <? n + 2)%nat eqn:E; [done|].
  apply Nat.ltb_ge in E. unfold slice. cbn [length].
  replace ((3 <=? S (S (S n))) && (S (S (S n)) <=? S (S (S (length rest)))))%nat with true
    by (symmetry; apply andb_true_iff; rewrite !Nat.leb_le; lia).
  replace (S (S (S n)) - 3)%nat with n by lia. cbn [drop outcome_bind].
  rewrite drop_0. destruct (utf8_valid (take n rest)); [|done].
  unfold index. simpl. replace (n + 5)%nat with (S (S (S (n + 2)))) by lia. done.
Qed.

Lemma decode_bad_version v rest :
  v <> VERSION -> decode_destination (v :: rest) = Ret (Err (UnsupportedVersion v)).
Proof.
  intros H. unfold decode_destination, index. cbn [length Nat.eqb lookup list_lookup outcome_bind].
  apply Z.eqb_neq in H. by rewrite H.
Qed.

(** Split a buffer by how much of the fixed header it holds. *)
Lemma decode_cases (P : outcome (result (option (list Z * Z * nat)) FramingError) -> Prop) buf :
  P (Ret (Ok None)) ->
  (forall v, P (Ret (Err (UnsupportedVersion v)))) ->
  (forall h l rest, buf = VERSION :: h :: l :: rest -> P (decode_destination buf)) ->
  P (decode_destination buf).
Proof.
  intros H0 H1 H2. destruct buf as [|v rest]; [exact H0|].
  destruct (Z.eq_dec v VERSION) as [->|Hv]; [|rewrite decode_bad_version; auto].
  destruct rest as [|h [|l rest]]; [exact H0..|]. by apply (H2 h l rest).
Qed.

Lemma index_lt (l : list Z) i : (i < length l)%nat -> exists b, index l i = Ret b.
Proof.
  intros H. unfold index. destruct (lookup_lt_is_Some_2 l i H) as [b ->]. eauto.
Qed.

(** Every byte buffer decodes without a panic. *)
Lemma decode_no_panic buf : exists r, decode_destination buf = Ret r.
Proof.
  apply decode_cases; [eauto..|]. intros h l rest ->.
  rewrite decode_header. cbv zeta.
  destruct (_ <? _)%nat; [eauto|].
  destruct (_ <? _)%nat eqn:E; [eauto|]. apply Nat.ltb_ge in E.
  destruct (negb _); [eauto|].
  destruct (index_lt rest (Z.to_nat (from_be_bytes h l))) as [p1 ->]; [lia|].
  destruct (index_lt rest (Z.to_nat (from_be_bytes h l) + 1)) as [p2 ->]; [lia|].
  cbn; eauto.
Qed.

(** What a successful in-memory decode says about the buffer. *)
Lemma decode_Some_inv buf h p n :
  decode_destination buf = Ret (Ok (Some (h, p, n))) ->
  exists hi lo p1 p2 rest,
    buf = VERSION :: hi :: lo :: h ++ p1 :: p2 :: rest
    /\ length h = Z.to_nat (from_be_bytes hi lo)
    /\ (length h <= MAX_HOST_LEN)%nat
    /\ utf8_valid h = true
    /\ p = from_be_bytes p1 p2 /\ n = (length h + 5)%nat.
Proof.
  apply decode_cases; [congruence..|]. intros hi lo rest ->.
  rewrite decode_header. cbv zeta. set (k := Z.to_nat _).
  destruct (MAX_HOST_LEN <? k)%nat eqn:E1; [congruence|].
  destruct (length rest <? k + 2)%nat eqn:E2; [congruence|].
  destruct (utf8_valid (take k rest)) eqn:E3; cbn [negb]; [|congruence].
  apply Nat.ltb_ge in E1, E2. unfold index.
  destruct (lookup_lt_is_Some_2 rest k) as [p1 H1]; [lia|].
  destruct (lookup_lt_is_Some_2 rest (k + 1)) as [p2 H2]; [lia|].
  rewrite H1, H2. cbn. intros [= <- <- <-].
  exists hi, lo, p1, p2, (drop (k + 2) rest).
  assert (Hl : length (take k rest) = k) by (rewrite length_take; lia).
  rewrite Hl. repeat split; auto.
  do 3 f_equal. rewrite <- (take_drop k rest) at 1. f_equal.
  rewrite (drop_S rest p1 k H1). f_equal.
  replace (k + 1)%nat with (S k) in H2 by lia.
  rewrite (drop_S rest p2 (S k) H2). f_equal. f_equal. lia.
Qed.

Lemma encode_ok_inv host port frame :
  encode_destination host port = Ok frame ->
  (length host <= MAX_HOST_LEN)%nat /\
  frame = VERSION :: to_be_bytes (Z.of_nat (length host)) ++ host ++ to_be_bytes port.
Proof.
  unfold encode_destination. destruct (_ <? _)%nat eqn:E; [discriminate|].
  apply Nat.ltb_ge in E. intros [= <-]. split; [lia|].
  rewrite (Z.mod_small (Z.of_nat (length host)) (2 ^ 16)); [done|].
  unfold MAX_HOST_LEN in E. change (2 ^ 16) with 65536. lia.
Qed.

Lemma length_encoded host port frame :
  encode_destination host port = Ok frame -> length frame = (length host + 5)%nat.
Proof.
  intros [_ ->]%encode_ok_inv. cbn. rewrite !length_app. cbn. lia.
Qed.

Lemma host_len_decoded (host : list Z) :
  (length host <= MAX_HOST_LEN)%nat ->
  from_be_bytes (Z.of_nat (length host) / 256 mod 256) (Z.of_nat (length host) mod 256)
  = Z.of_nat (length host).
Proof. intros. apply be_bytes_roundtrip. unfold MAX_HOST_LEN in *. lia. Qed.

(** Decoding an encoded header, whatever follows it in the buffer. *)
Lemma decode_encoded host port frame rest :
  encode_destination host port = Ok frame ->
  utf8_valid host = true -> 0 <= port <= u16_max ->
  decode_destination (frame ++ rest) = Ret (Ok (Some (host, port, length frame))).
Proof.
  intros He Hu Hp. rewrite (length_encoded _ _ _ He).
  apply encode_ok_inv in He as [Hl ->]. unfold to_be_bytes at 1.
  cbn [app]. rewrite decode_header. cbv zeta.
  rewrite host_len_decoded, Nat2Z.id by done.
  replace (MAX_HOST_LEN <? length host)%nat with false
    by (symmetry; apply Nat.ltb_ge; lia).
  rewrite <- !(assoc_L (++)), take_app_length, Hu. cbn [negb].
  replace (_ <? _)%nat with false
    by (symmetry; apply Nat.ltb_ge; rewrite !length_app; cbn; lia).
  unfold index, to_be_bytes. cbn [app].
  rewrite list_lookup_middle by done. cbn [outcome_bind].
  rewrite lookup_app_r by lia.
  replace (length host + 1 - length host)%nat with 1%nat by lia. cbn.
  rewrite be_bytes_roundtrip; [done|]. unfold u16_max in Hp. lia.
Qed.

Lemma decode_incomplete host port frame k :
  encode_destination host port = Ok frame -> (k < length frame)%nat ->
  decode_destination (take k frame) = Ret (Ok None).
Proof.
  intros He Hk. rewrite (length_encoded _ _ _ He) in Hk.
  apply encode_ok_inv in He as [Hl ->]. unfold to_be_bytes at 1.
  cbn [app]. destruct k as [|[|[|k]]]; try reflexivity.
  cbn [take]. rewrite decode_header. cbv zeta.
  rewrite host_len_decoded, Nat2Z.id by done.
  replace (MAX_HOST_LEN <? length host)%nat with false
    by (symmetry; apply Nat.ltb_ge; lia).
  replace (_ <? _)%nat with true; [done|].
  symmetry; apply Nat.ltb_lt. rewrite length_take. lia.
Qed.

(** The stream reader accepts exactly what the in-memory decoder accepts. *)
Lemma read_destination_ok_iff r h p rest :
  read_destination r = Ok ((h, p), rest) <->
  exists n, decode_destination r = Ret (Ok (Some (h, p, n))) /\ rest = drop n r.
Proof.
  unfold read_destination.
  destruct r as [|v r]; [split; [discriminate|intros (?&?&?); discriminate]|].
  cbn [read_u8 result_bind]. destruct (Z.eq_dec v VERSION) as [->|Hv].
  2:{ rewrite decode_bad_version by done. apply Z.eqb_neq in Hv. rewrite Hv.
      split; [discriminate|intros (?&?&?); discriminate]. }
  cbn [Z.eqb VERSION negb].
  destruct r as [|hi [|lo r]]; [split; [discriminate|intros (?&?&?); discriminate]..|].
  cbn [read_u16 result_bind]. rewrite decode_header. cbv zeta.
  set (k := Z.to_nat _). destruct (MAX_HOST_LEN <? k)%nat.
  { split; [discriminate|intros (?&?&?); discriminate]. }
  unfold read_exact. destruct (length r <? k)%nat eqn:E1.
  { apply Nat.ltb_lt in E1. replace (length r <? k + 2)%nat with true
      by (symmetry; apply Nat.ltb_lt; lia).
    split; [discriminate|intros (?&?&?); discriminate]. }
  apply Nat.ltb_ge in E1. cbn [result_bind].
  destruct (length r <? k + 2)%nat eqn:E2.
  { apply Nat.ltb_lt in E2. destruct (utf8_valid (take k r)); cbn [negb].
    - destruct (drop k r) as [|a [|b d]] eqn:Ed; cbn [read_u16 result_bind];
        try (split; [discriminate|intros (?&?&?); discriminate]).
      apply (f_equal length) in Ed. rewrite length_drop in Ed. cbn in Ed. lia.
    - split; [discriminate|intros (?&?&?); discriminate]. }
  apply Nat.ltb_ge in E2.
  destruct (utf8_valid (take k r)); cbn [negb];
    [|split; [discriminate|intros (?&?&?); discriminate]].
  destruct (drop k r) as [|a [|b d]] eqn:Ed;
    [apply (f_equal length) in Ed; rewrite length_drop in Ed; cbn in Ed; lia..|].
  assert (Ha : index r k = Ret a).
  { unfold index. replace k with (k + 0)%nat by lia.
    rewrite <- lookup_drop, Ed. done. }
  assert (Hb : index r (k + 1) = Ret b).
  { unfold index. rewrite <- lookup_drop, Ed. done. }
  rewrite Ha, Hb. cbn [read_u16 result_bind outcome_bind].
  assert (Hd : drop (k + 5) (VERSION :: hi :: lo :: r) = d).
  { replace (k + 5)%nat with (S (S (S (k + 2)))) by lia. cbn [drop].
    rewrite <- drop_drop, Ed. done. }
  split.
  - intros [= <- <- <-]. exists (k + 5)%nat. auto.
  - intros (n & [= <- <- <-] & ->). by rewrite Hd.
Qed.

(** ** Properties *)

(** C40: the framing header round-trips.  For every UTF-8 host of at most 255
    bytes and every 16-bit port the encoder succeeds; the in-memory decoder
    recovers host, port and frame length whatever bytes follow the frame; the
    stream reader recovers them from what [write_destination] put on the wire
    and leaves exactly the following bytes unread; and every strict prefix of
    a frame is answered with "need more bytes", never with an error. *)
Theorem framing_roundtrip (host : list Z) (port : Z) (rest : list Z) :
  utf8_valid host = true -> (length host <= MAX_HOST_LEN)%nat -> 0 <= port <= u16_max ->
  exists frame,
    encode_destination host port = Ok frame
    /\ decode_destination (frame ++ rest) = Ret (Ok (Some (host, port, length frame)))
    /\ write_destination [] host port = Ok frame
    /\ read_destination (frame ++ rest) = Ok ((host, port), rest)
    /\ forall k, (k < length frame)%nat -> decode_destination (take k frame) = Ret (Ok None).
Proof.
  intros Hu Hl Hp.
  assert (exists frame, encode_destination host port = Ok frame) as [frame He].
  { unfold encode_destination. replace (_ <? _)%nat with false; [eauto|].
    symmetry; apply Nat.ltb_ge; lia. }
  exists frame. pose proof (decode_encoded _ _ _ rest He Hu Hp) as Hd.
  repeat split; auto.
  - unfold write_destination. by rewrite He.
  - apply read_destination_ok_iff. exists (length frame). split; [done|].
    by rewrite drop_app_length.
  - intros. by eapply decode_incomplete.
Qed.

Lemma framing_roundtrip_witness :
  exists frame,
    encode_destination [195; 169; 46; 99] 443 = Ok frame
    /\ decode_destination (frame ++ [7; 8]) = Ret (Ok (Some ([195; 169; 46; 99], 443, 9%nat)))
    /\ length frame = 9%nat.
Proof.
  destruct (framing_roundtrip [195; 169; 46; 99] 443 [7; 8]) as (f & He & Hd & _).
  - reflexivity.
  - vm_compute; lia.
  - vm_compute; split; discriminate.
  - exists f. rewrite (length_encoded _ _ _ He) in Hd. repeat split; auto.
    exact (length_encoded _ _ _ He).
Defined.

(** Decoding is total and canonical.  No byte buffer makes the decoder
    index out of range; a successful decode consumes a prefix of the buffer
    that is exactly the encoding of what it returned (so two different frames
    never decode to the same destination), never more bytes than it was
    given, and only with a host that is valid UTF-8 of at most 255 bytes. *)
Theorem framing_decode_canonical (buf : list Z) :
  Forall (fun b => is_byte b = true) buf ->
  exists r, decode_destination buf = Ret r /\
  forall h p n, r = Ok (Some (h, p, n)) ->
    (n <= length buf)%nat /\ utf8_valid h = true /\ (length h <= MAX_HOST_LEN)%nat /\
    0 <= p <= u16_max /\ encode_destination h p = Ok (take n buf).
Proof.
  intros Hb. destruct (decode_no_panic buf) as [r Hr]. exists r. split; [done|].
  intros h p n ->. destruct (decode_Some_inv _ _ _ _ Hr)
    as (hi & lo & p1 & p2 & rest & -> & Hlen & Hmax & Hu & -> & ->).
  assert (Hbytes : is_byte hi = true /\ is_byte lo = true /\ is_byte p1 = true /\ is_byte p2 = true).
  { rewrite !Forall_cons, Forall_app, !Forall_cons in Hb.
    destruct Hb as (_ & ? & ? & _ & ? & ? & _). auto. }
  destruct Hbytes as (Hhi & Hlo & Hp1 & Hp2).
  assert (Hnl : from_be_bytes hi lo = Z.of_nat (length h)).
  { rewrite Hlen, Z2Nat.id; [done|]. unfold is_byte, from_be_bytes in *; b2p; lia. }
  repeat split; auto.
  - cbn. rewrite length_app. cbn. lia.
  - unfold is_byte, from_be_bytes in *; b2p; lia.
  - unfold is_byte, from_be_bytes, u16_max in *; b2p; lia.
  - unfold encode_destination. replace (_ <? _)%nat with false
      by (symmetry; apply Nat.ltb_ge; lia).
    rewrite (Z.mod_small (Z.of_nat (length h)) (2 ^ 16))
      by (unfold MAX_HOST_LEN in Hmax; change (2 ^ 16) with 65536; lia).
    rewrite <- Hnl, !be_bytes_unique by done.
    replace (length h + 5)%nat with (S (S (S (length h + 2)))) by lia. cbn [take app].
    rewrite take_app_add. done.
Qed.

Lemma framing_decode_canonical_witness :
  exists r, decode_destination [1; 0; 1; 97; 1; 187; 9] = Ret r
    /\ r = Ok (Some ([97], 443, 6%nat)).
Proof.
  destruct (framing_decode_canonical [1; 0; 1; 97; 1; 187; 9]) as (r & Hr & _).
  - repeat constructor.
  - exists r. split; [exact Hr|]. vm_compute in Hr. injection Hr as <-. reflexivity.
Defined.
