(* ===== verification/Net.v ===== *)
(** * IP addresses: the parts of [std::net] the address policies use.

    An IPv4 address is its four octets, an IPv6 address its eight 16-bit
    segments.  The predicates are the documented definitions of the standard
    library.  [cidr4]/[cidr6] give the reference meaning of a CIDR block on the
    32- and 128-bit value of an address; the lemmas relate the octet and
    segment tests of the sources to blocks. *)

From S2P Require Import Prelude.

Record Ipv4Addr := ipv4 { o0 : Z; o1 : Z; o2 : Z; o3 : Z }.
Record Ipv6Addr := ipv6 { s0 : Z; s1 : Z; s2 : Z; s3 : Z; s4 : Z; s5 : Z; s6 : Z; s7 : Z }.

Inductive IpAddr := V4 (a : Ipv4Addr) | V6 (a : Ipv6Addr).

#[global] Instance Ipv4Addr_eq_dec : EqDecision Ipv4Addr.
Proof. solve_decision. Defined.
#[global] Instance Ipv6Addr_eq_dec : EqDecision Ipv6Addr.
Proof. solve_decision. Defined.
#[global] Instance IpAddr_eq_dec : EqDecision IpAddr.
Proof. solve_decision. Defined.

Definition octet (z : Z) : Prop := 0 <= z <= 255.
Definition segment (z : Z) : Prop := 0 <= z <= 65535.

Definition wf4 (a : Ipv4Addr) : Prop :=
  octet (o0 a) /\ octet (o1 a) /\ octet (o2 a) /\ octet (o3 a).
Definition wf6 (a : Ipv6Addr) : Prop :=
  segment (s0 a) /\ segment (s1 a) /\ segment (s2 a) /\ segment (s3 a) /\
  segment (s4 a) /\ segment (s5 a) /\ segment (s6 a) /\ segment (s7 a).
Definition wf_ip (ip : IpAddr) : Prop :=
  match ip with V4 a => wf4 a | V6 a => wf6 a end.

(** ** [std::net::Ipv4Addr] *)

Definition v4_eq (a b : Ipv4Addr) : bool :=
  (o0 a =? o0 b) && (o1 a =? o1 b) && (o2 a =? o2 b) && (o3 a =? o3 b).
Definition v4_is_loopback (a : Ipv4Addr) : bool := o0 a =? 127.
Definition v4_is_unspecified (a : Ipv4Addr) : bool := v4_eq a (ipv4 0 0 0 0).
Definition v4_is_broadcast (a : Ipv4Addr) : bool := v4_eq a (ipv4 255 255 255 255).
Definition v4_is_private (a : Ipv4Addr) : bool :=
  (o0 a =? 10) || ((o0 a =? 172) && (16 <=? o1 a) && (o1 a <=? 31))
  || ((o0 a =? 192) && (o1 a =? 168)).
Definition v4_is_link_local (a : Ipv4Addr) : bool := (o0 a =? 169) && (o1 a =? 254).
Definition v4_is_multicast (a : Ipv4Addr) : bool := (224 <=? o0 a) && (o0 a <=? 239).
Definition v4_is_documentation (a : Ipv4Addr) : bool :=
  ((o0 a =? 192) && (o1 a =? 0) && (o2 a =? 2))
  || ((o0 a =? 198) && (o1 a =? 51) && (o2 a =? 100))
  || ((o0 a =? 203) && (o1 a =? 0) && (o2 a =? 113)).

(** ** [std::net::Ipv6Addr] *)

Definition v6_high_zero (a : Ipv6Addr) : bool :=
  (s0 a =? 0) && (s1 a =? 0) && (s2 a =? 0) && (s3 a =? 0) && (s4 a =? 0).
Definition v6_is_loopback (a : Ipv6Addr) : bool :=
  v6_high_zero a && (s5 a =? 0) && (s6 a =? 0) && (s7 a =? 1).
Definition v6_is_unspecified (a : Ipv6Addr) : bool :=
  v6_high_zero a && (s5 a =? 0) && (s6 a =? 0) && (s7 a =? 0).
Definition v6_is_multicast (a : Ipv6Addr) : bool := Z.land (s0 a) 0xff00 =? 0xff00.
Definition to_ipv4_mapped (a : Ipv6Addr) : option Ipv4Addr :=
  if v6_high_zero a && (s5 a =? 0xffff)
  then Some (ipv4 (s6 a / 256) (s6 a mod 256) (s7 a / 256) (s7 a mod 256))
  else None.

(** ** CIDR blocks as number ranges *)

Definition v4_num (a : Ipv4Addr) : Z := o0 a * 2 ^ 24 + o1 a * 2 ^ 16 + o2 a * 2 ^ 8 + o3 a.
Definition v6_num (a : Ipv6Addr) : Z :=
  s0 a * 2 ^ 112 + s1 a * 2 ^ 96 + s2 a * 2 ^ 80 + s3 a * 2 ^ 64
  + s4 a * 2 ^ 48 + s5 a * 2 ^ 32 + s6 a * 2 ^ 16 + s7 a.

Definition cidr4 (base : Ipv4Addr) (len : Z) (a : Ipv4Addr) : bool :=
  v4_num a / 2 ^ (32 - len) =? v4_num base / 2 ^ (32 - len).
Definition cidr6 (base : Ipv6Addr) (len : Z) (a : Ipv6Addr) : bool :=
  v6_num a / 2 ^ (128 - len) =? v6_num base / 2 ^ (128 - len).

Definition in_blocks4 (l : list (Ipv4Addr * Z)) (a : Ipv4Addr) : bool :=
  existsb (fun b => cidr4 b.1 b.2 a) l.
Definition in_blocks6 (l : list (Ipv6Addr * Z)) (a : Ipv6Addr) : bool :=
  existsb (fun b => cidr6 b.1 b.2 a) l.

(** ** Block lemmas

    A block whose prefix ends inside octet (or segment) [i] is a test on the
    octets before [i] and a division of octet [i].  *)

Lemma div_shift q r m k :
  0 < m -> 0 < k -> 0 <= r < m -> (q * m + r) / (m * k) = q / k.
Proof.
  intros. rewrite <- Z.div_div by lia. f_equal.
  rewrite Z.div_add_l by lia. rewrite Z.div_small; lia.
Qed.

Lemma digits_eq q r q' r' m :
  0 < m -> 0 <= r < m -> 0 <= r' < m -> q * m + r = q' * m + r' -> q = q' /\ r = r'.
Proof. intros. assert (q = q') by nia. split; [done|]. subst. lia. Qed.

Lemma cidr4_8 b0 a :
  wf4 a -> cidr4 (ipv4 b0 0 0 0) 8 a = (o0 a =? b0).
Proof.
  unfold wf4, octet, cidr4, v4_num; simpl o0; simpl o1; simpl o2; simpl o3; intros.
  change (2 ^ (32 - 8)) with (2 ^ 24 * 1).
  replace (b0 * 2 ^ 24 + _ + _ + 0) with (b0 * 2 ^ 24 + 0) by lia.
  rewrite <- !(Z.add_assoc (o0 a * 2 ^ 24)), <- !Z.add_assoc.
  rewrite !div_shift by lia. by rewrite !Z.div_1_r.
Qed.

Lemma cidr4_sub b0 len a k :
  wf4 a -> 0 < k -> 2 ^ (32 - len) = 2 ^ 24 * k ->
  cidr4 (ipv4 b0 0 0 0) len a = (o0 a / k =? b0 / k).
Proof.
  unfold wf4, octet, cidr4, v4_num; simpl o0; simpl o1; simpl o2; simpl o3; intros Hw Hk E.
  rewrite E.
  replace (b0 * 2 ^ 24 + _ + _ + 0) with (b0 * 2 ^ 24 + 0) by lia.
  rewrite <- !(Z.add_assoc (o0 a * 2 ^ 24)), <- !Z.add_assoc.
  rewrite !div_shift by lia. done.
Qed.

Lemma cidr4_16 b0 b1 len a k :
  wf4 a -> octet b1 -> 0 < k -> 256 mod k = 0 -> 2 ^ (32 - len) = 2 ^ 16 * k ->
  cidr4 (ipv4 b0 b1 0 0) len a = (o0 a =? b0) && (o1 a / k =? b1 / k).
Proof.
  unfold wf4, octet, cidr4, v4_num; simpl o0; simpl o1; simpl o2; simpl o3.
  intros Hw Hb Hk Hm E. rewrite E.
  replace (b0 * 2 ^ 24 + b1 * 2 ^ 16 + _ + 0) with ((b0 * 256 + b1) * 2 ^ 16 + 0) by lia.
  replace (o0 a * 2 ^ 24 + o1 a * 2 ^ 16 + o2 a * 2 ^ 8 + o3 a)
    with ((o0 a * 256 + o1 a) * 2 ^ 16 + (o2 a * 256 + o3 a)) by lia.
  rewrite !div_shift by lia.
  apply Z.mod_divide in Hm as [j Hj]; [|lia].
  replace (o0 a * 256 + o1 a) with (o0 a * j * k + o1 a) by (rewrite Hj; ring).
  replace (b0 * 256 + b1) with (b0 * j * k + b1) by (rewrite Hj; ring).
  rewrite !Z.div_add_l by lia.
  assert (0 <= o1 a / k < j) by (split; [apply Z.div_pos; lia|apply Z.div_lt_upper_bound; nia]).
  assert (0 <= b1 / k < j) by (split; [apply Z.div_pos; lia|apply Z.div_lt_upper_bound; nia]).
  apply eq_true_iff_eq. rewrite andb_true_iff, !Z.eqb_eq. split.
  - intros Hq. apply (digits_eq _ _ _ _ j) in Hq; lia.
  - intros [-> ->]. done.
Qed.

Lemma cidr4_24 b0 b1 b2 a :
  wf4 a -> octet b1 -> octet b2 ->
  cidr4 (ipv4 b0 b1 b2 0) 24 a = (o0 a =? b0) && (o1 a =? b1) && (o2 a =? b2).
Proof.
  unfold wf4, octet, cidr4, v4_num; simpl o0; simpl o1; simpl o2; simpl o3; intros.
  change (2 ^ (32 - 24)) with (2 ^ 8 * 1).
  replace (b0 * 2 ^ 24 + b1 * 2 ^ 16 + b2 * 2 ^ 8 + 0)
    with ((b0 * 65536 + b1 * 256 + b2) * 2 ^ 8 + 0) by lia.
  replace (o0 a * 2 ^ 24 + o1 a * 2 ^ 16 + o2 a * 2 ^ 8 + o3 a)
    with ((o0 a * 65536 + o1 a * 256 + o2 a) * 2 ^ 8 + o3 a) by lia.
  rewrite !div_shift, !Z.div_1_r by lia.
  apply eq_true_iff_eq. rewrite !andb_true_iff, !Z.eqb_eq. lia.
Qed.

Lemma cidr4_32 b a :
  wf4 a -> wf4 b -> cidr4 b 32 a = v4_eq a b.
Proof.
  unfold wf4, octet, cidr4, v4_num, v4_eq; intros.
  change (2 ^ (32 - 32)) with 1. rewrite !Z.div_1_r.
  apply eq_true_iff_eq. rewrite !andb_true_iff, !Z.eqb_eq. lia.
Qed.

(** IPv6: low part of the value below segment 0. *)
Definition v6_low (a : Ipv6Addr) : Z :=
  s1 a * 2 ^ 96 + s2 a * 2 ^ 80 + s3 a * 2 ^ 64
  + s4 a * 2 ^ 48 + s5 a * 2 ^ 32 + s6 a * 2 ^ 16 + s7 a.

Lemma v6_num_low a : v6_num a = s0 a * 2 ^ 112 + v6_low a.
Proof. unfold v6_num, v6_low. lia. Qed.

Lemma v6_num_horner a :
  v6_num a = ((((((s0 a * 65536 + s1 a) * 65536 + s2 a) * 65536 + s3 a) * 65536 + s4 a)
              * 65536 + s5 a) * 65536 + s6 a) * 65536 + s7 a.
Proof. unfold v6_num. lia. Qed.

Lemma v6_low_bound a : wf6 a -> 0 <= v6_low a < 2 ^ 112.
Proof. unfold wf6, segment, v6_low. intros. lia. Qed.

Lemma cidr6_seg0 b0 len a k :
  wf6 a -> 0 < k -> 2 ^ (128 - len) = 2 ^ 112 * k ->
  cidr6 (ipv6 b0 0 0 0 0 0 0 0) len a = (s0 a / k =? b0 / k).
Proof.
  intros Hw Hk E. unfold cidr6. rewrite E, !v6_num_low.
  pose proof (v6_low_bound a Hw).
  change (s0 (ipv6 b0 0 0 0 0 0 0 0)) with b0.
  change (v6_low (ipv6 b0 0 0 0 0 0 0 0)) with 0.
  rewrite !div_shift by lia. done.
Qed.

(** Segment masks, decided on all 65536 segment values. *)
Fixpoint all_from (f : Z -> bool) (k : nat) (z : Z) : bool :=
  match k with
  | O => true
  | S k' => f z && all_from f k' (z + 1)
  end.
Definition seg_all (f : Z -> bool) : bool := all_from f (Z.to_nat 65536) 0.

Lemma all_from_spec f k z s :
  all_from f k z = true -> z <= s < z + Z.of_nat k -> f s = true.
Proof.
  revert z; induction k as [|k IH]; simpl; intros z H Hs; [lia|].
  apply andb_true_iff in H as [H1 H2].
  destruct (Z.eq_dec s z) as [->|]; [done|]. apply (IH (z + 1)); [done|lia].
Qed.

Lemma seg_all_spec f s : seg_all f = true -> segment s -> f s = true.
Proof.
  unfold seg_all, segment. intros H Hs. apply (all_from_spec _ _ _ _ H).
  rewrite Z2Nat.id; lia.
Qed.

Lemma mask_div m b k s :
  seg_all (fun s => Bool.eqb (Z.land s m =? b) (s / k =? b / k)) = true ->
  segment s -> (Z.land s m =? b) = (s / k =? b / k).
Proof. intros H Hs. by apply Bool.eqb_prop, (seg_all_spec _ _ H). Qed.

Lemma mask_ff00 s : segment s -> (Z.land s 0xff00 =? 0xff00) = (s / 256 =? 0xff00 / 256).
Proof. apply mask_div. vm_compute. reflexivity. Qed.
Lemma mask_ffc0 s : segment s -> (Z.land s 0xffc0 =? 0xfe80) = (s / 64 =? 0xfe80 / 64).
Proof. apply mask_div. vm_compute. reflexivity. Qed.
Lemma mask_fe00 s : segment s -> (Z.land s 0xfe00 =? 0xfc00) = (s / 512 =? 0xfc00 / 512).
Proof. apply mask_div. vm_compute. reflexivity. Qed.

Lemma wf_mapped a v4 : wf6 a -> to_ipv4_mapped a = Some v4 -> wf4 v4.
Proof.
  unfold wf6, segment, to_ipv4_mapped. intros Hw. case_if; [|discriminate].
  intros [= <-]. unfold wf4, octet; simpl.
  repeat match goal with |- _ /\ _ => split end;
    try (apply Z.div_pos; lia);
    try (apply Zlt_succ_le, Z.div_lt_upper_bound; lia);
    pose proof (Z.mod_pos_bound (s6 a) 256); pose proof (Z.mod_pos_bound (s7 a) 256); lia.
Qed.
