(* ===== verification/NetText.v ===== *)
(** * Addresses as text

    [IpAddr::from_str] and [Display] of the standard library: the recursive
    descent parser of [core::net::parser] (decimal octets without leading
    zeros, up to four hexadecimal digits per group, one [::], a trailing dotted
    quad) and the canonical printing (mapped addresses with a dotted quad, the
    first longest run of two or more zero groups as [::]). *)

From S2P Require Import Prelude Strs Net.
From Stdlib Require Import Ascii.

(** ** Parsing *)

(** [char::to_digit]. *)
Definition to_digit (radix : Z) (c : ascii) : option Z :=
  let v := if is_ascii_digit c then byte_val c - 48
           else if in_range 97 122 c then byte_val c - 87
           else if in_range 65 90 c then byte_val c - 55
           else radix in
  if v <? radix then Some v else None.

Definition read_char (d : ascii) (s : string) : option string :=
  match s with String c s' => if Ascii.eqb c d then Some s' else None | EmptyString => None end.

(** The digits of a number: value, number of digits, rest. *)
Fixpoint read_digits (radix bound : Z) (max count : nat) (acc : Z) (s : string) : option (Z * nat * string) :=
  match s with
  | EmptyString => Some (acc, count, s)
  | String c s' =>
      match to_digit radix c with
      | None => Some (acc, count, s)
      | Some d =>
          let acc := acc * radix + d in
          if bound <? acc then None else
          if (max <? S count)%nat then None else
          read_digits radix bound max (S count) acc s'
      end
  end.

Definition starts_with_zero (s : string) : bool :=
  match s with String c _ => is_char "0" c | EmptyString => false end.

Definition read_number (radix : Z) (max : nat) (allow_zero_prefix : bool) (bound : Z) (s : string)
  : option (Z * string) :=
  match read_digits radix bound max 0 0 s with
  | None => None
  | Some (v, n, rest) =>
      if (n =? 0)%nat then None else
      if negb allow_zero_prefix && starts_with_zero s && (1 <? n)%nat then None else
      Some (v, rest)
  end.

Definition read_octet (s : string) : option (Z * string) := read_number 10 3 false 255 s.
Definition read_group (s : string) : option (Z * string) := read_number 16 4 true 65535 s.

Definition read_ipv4_addr (s : string) : option (Ipv4Addr * string) :=
  '(a, s) ← read_octet s; s ← read_char "." s;
  '(b, s) ← read_octet s; s ← read_char "." s;
  '(c, s) ← read_octet s; s ← read_char "." s;
  '(d, s) ← read_octet s; Some (ipv4 a b c d, s).

(** [read_separator(':', i, _)]. *)
Definition read_separator (i : nat) (s : string) : option string :=
  if (i =? 0)%nat then Some s else read_char ":" s.

(** [read_groups] with [rem] groups of room left: the groups, whether they end
    in a dotted quad, the rest. *)
Fixpoint read_groups (i rem : nat) (s : string) : list Z * bool * string :=
  match rem with
  | O => ([], false, s)
  | S rem' =>
      match (if (rem' =? 0)%nat then None else s1 ← read_separator i s; read_ipv4_addr s1) with
      | Some (a, s2) => ([o0 a * 256 + o1 a; o2 a * 256 + o3 a], true, s2)
      | None =>
          match s1 ← read_separator i s; read_group s1 with
          | Some (g, s2) =>
              let '(gs, v4, s3) := read_groups (S i) rem' s2 in (g :: gs, v4, s3)
          | None => ([], false, s)
          end
      end
  end.

Definition v6_of_groups (l : list Z) : Ipv6Addr :=
  let g i := nth i l 0 in
  ipv6 (g 0%nat) (g 1%nat) (g 2%nat) (g 3%nat) (g 4%nat) (g 5%nat) (g 6%nat) (g 7%nat).

Definition read_ipv6_addr (s : string) : option (Ipv6Addr * string) :=
  let '(head, head_ipv4, s) := read_groups 0 8 s in
  if (length head =? 8)%nat then Some (v6_of_groups head, s) else
  if head_ipv4 then None else
  s ← read_char ":" s; s ← read_char ":" s;
  let '(tail, _, s) := read_groups 0 (8 - (length head + 1)) s in
  Some (v6_of_groups (head ++ repeat 0 (8 - length head - length tail) ++ tail), s).

Definition parse_ip (s : string) : option IpAddr :=
  match read_ipv4_addr s with
  | Some (a, rest) => if str_is_empty rest then Some (V4 a) else None
  | None =>
      match read_ipv6_addr s with
      | Some (a, rest) => if str_is_empty rest then Some (V6 a) else None
      | None => None
      end
  end.

(** ** Printing *)

Definition show_ipv4 (a : Ipv4Addr) : string :=
  u64_to_string (o0 a) +:+ "." +:+ u64_to_string (o1 a) +:+ "." +:+ u64_to_string (o2 a) +:+ "."
    +:+ u64_to_string (o3 a).

Definition hex_digit (n : Z) : ascii := ascii_of_N (Z.to_N (if n <? 10 then 48 + n else 87 + n)).
(** [{:x}]; a group has at most four digits. *)
Fixpoint hex_fuel (fuel : nat) (n : Z) : string :=
  match fuel with
  | O => EmptyString
  | S f => if n <? 16 then String (hex_digit n) EmptyString
           else hex_fuel f (n / 16) +:+ String (hex_digit (n mod 16)) EmptyString
  end.

Definition segments (a : Ipv6Addr) : list Z := [s0 a; s1 a; s2 a; s3 a; s4 a; s5 a; s6 a; s7 a].

(** The scan for the longest run of zero groups: current and longest run as
    (start, length). *)
Fixpoint zero_run (i : nat) (cur best : nat * nat) (l : list Z) : nat * nat :=
  match l with
  | [] => best
  | g :: l' =>
      if g =? 0 then
        let cur := (if (snd cur =? 0)%nat then i else fst cur, S (snd cur)) in
        zero_run (S i) cur (if (snd best <? snd cur)%nat then cur else best) l'
      else zero_run (S i) (0%nat, 0%nat) best l'
  end.

Definition show_groups (l : list Z) : string := join_on ":" (map (hex_fuel 4) l).

Definition show_ipv6 (a : Ipv6Addr) : string :=
  match to_ipv4_mapped a with
  | Some v4 => "::ffff:" +:+ show_ipv4 v4
  | None =>
      let segs := segments a in
      let '(start, len) := zero_run 0 (0%nat, 0%nat) (0%nat, 0%nat) segs in
      if (1 <? len)%nat
      then show_groups (firstn start segs) +:+ "::" +:+ show_groups (skipn (start + len) segs)
      else show_groups segs
  end.

Definition show_ip (ip : IpAddr) : string :=
  match ip with V4 a => show_ipv4 a | V6 a => show_ipv6 a end.

(** A block in CIDR notation. *)
Definition show_cidr (ip : IpAddr) (len : Z) : string := show_ip ip +:+ "/" +:+ u64_to_string len.

(** ** What parses is an address *)

Lemma to_digit_bound radix c d : 0 < radix -> to_digit radix c = Some d -> 0 <= d < radix.
Proof.
  unfold to_digit, is_ascii_digit, in_range. intros Hr.
  repeat case_if; intros [= <-]; b2p; lia.
Qed.

Lemma read_digits_bound radix bound max count acc s v n rest :
  0 < radix -> 0 <= acc <= bound -> read_digits radix bound max count acc s = Some (v, n, rest) ->
  0 <= v <= bound.
Proof.
  intros Hr. revert count acc. induction s as [|c s IH]; simpl; intros count acc Ha Hx.
  - by injection Hx as <- _ _.
  - destruct (to_digit radix c) as [d|] eqn:Ed; [|by injection Hx as <- _ _].
    apply to_digit_bound in Ed; [|done].
    destruct (bound <? acc * radix + d) eqn:Eb; [done|]. destruct (max <? S count)%nat; [done|].
    b2p. apply IH in Hx; [done|nia].
Qed.

Lemma read_number_bound radix max az bound s v rest :
  0 < radix -> 0 <= bound -> read_number radix max az bound s = Some (v, rest) -> 0 <= v <= bound.
Proof.
  unfold read_number. intros Hr Hb. destruct (read_digits _ _ _ _ _ _) as [[[v' n] r]|] eqn:E; [|done].
  repeat case_if; try done. intros [= <- <-]. by eapply read_digits_bound in E.
Qed.

Lemma read_ipv4_wf s a rest : read_ipv4_addr s = Some (a, rest) -> wf4 a.
Proof.
  unfold read_ipv4_addr. intros H.
  repeat match type of H with
  | context [read_octet ?x] => destruct (read_octet x) as [[? ?]|] eqn:?; simpl in H; [|done]
  | context [read_char ?d ?x] => destruct (read_char d x) eqn:?; simpl in H; [|done]
  end.
  injection H as <- <-. unfold wf4, octet. simpl.
  repeat split; match goal with E : read_octet _ = Some (?x, _) |- context [?x] =>
    apply read_number_bound in E; lia end.
Qed.

Lemma read_groups_wf i rem s gs v4 rest :
  read_groups i rem s = (gs, v4, rest) -> Forall segment gs.
Proof.
  revert i s gs v4 rest. induction rem as [|rem IH]; simpl; intros i s gs v4 rest H.
  - injection H as <- _ _. constructor.
  - destruct (if (rem =? 0)%nat then None else _) as [[a s2]|] eqn:E4.
    + injection H as <- _ _. destruct (rem =? 0)%nat; [done|].
      destruct (read_separator i s); simpl in E4; [|done]. apply read_ipv4_wf in E4.
      unfold wf4, octet in E4. repeat constructor; lia.
    + destruct (s1 ← read_separator i s; read_group s1) as [[g s2]|] eqn:Eg;
        [|injection H as <- _ _; constructor].
      destruct (read_groups (S i) rem s2) as [[gs' v'] s3] eqn:Er. injection H as <- _ _.
      constructor; [|by eapply IH].
      destruct (read_separator i s); simpl in Eg; [|done]. apply read_number_bound in Eg; unfold segment; lia.
Qed.

Lemma v6_of_groups_wf l : Forall segment l -> wf6 (v6_of_groups l).
Proof.
  intros Hl. assert (Hn : forall i, segment (nth i l 0)).
  { intros i. destruct (nth_in_or_default i l 0) as [Hin|E]; [|rewrite E; unfold segment; lia].
    by eapply (proj1 (List.Forall_forall _ _)) in Hl. }
  unfold wf6, v6_of_groups. simpl. auto 10.
Qed.

(** Everything that parses has octets and segments in range, so the address
    policies apply to it. *)
Lemma parse_ip_wf s ip : parse_ip s = Some ip -> wf_ip ip.
Proof.
  unfold parse_ip. destruct (read_ipv4_addr s) as [[a rest]|] eqn:E4.
  - case_if; [|done]. intros [= <-]. by apply read_ipv4_wf in E4.
  - destruct (read_ipv6_addr s) as [[a rest]|] eqn:E6; [|done]. case_if; [|done]. intros [= <-]. simpl.
    unfold read_ipv6_addr in E6. destruct (read_groups 0 8 s) as [[head hv4] s1] eqn:Eh.
    apply read_groups_wf in Eh. case_if; [injection E6 as <- <-; by apply v6_of_groups_wf|].
    destruct hv4; [done|].
    destruct (read_char ":" s1) as [s2|]; simpl in E6; [|done]. destruct (read_char ":" s2) as [s3|]; simpl in E6; [|done].
    destruct (read_groups 0 (8 - (length head + 1)) s3) as [[tl tv4] s4] eqn:Et. apply read_groups_wf in Et.
    injection E6 as <- <-. apply v6_of_groups_wf, Forall_app. split; [done|]. apply Forall_app. split; [|done].
    apply List.Forall_forall. intros x Hx. apply repeat_spec in Hx as ->. unfold segment. lia.
Qed.

(** *** Printing an IPv4 address and reading it back *)

Definition ends_octet (s : string) : Prop := s = EmptyString \/ exists s', s = String "." s'.

Lemma read_octet_show o rest :
  octet o -> ends_octet rest -> read_octet (u64_to_string o +:+ rest) = Some (o, rest).
Proof.
  intros Ho He.
  assert (H : forall n, (n < 256)%nat -> read_octet (u64_to_string (Z.of_nat n) +:+ rest) = Some (Z.of_nat n, rest)).
  { intros n Hn. do 256 (destruct n as [|n]; [destruct He as [-> | [s' ->]]; reflexivity|]). lia. }
  unfold octet in Ho. rewrite <- (Z2Nat.id o) by lia. apply H. lia.
Qed.

#[local] Opaque u64_to_string.
Lemma parse_show_ipv4 a : wf4 a -> parse_ip (show_ipv4 a) = Some (V4 a).
Proof.
  intros (H0 & H1 & H2 & H3). unfold parse_ip, read_ipv4_addr, show_ipv4.
  assert (Hd : forall s, ends_octet ("." +:+ s)) by (intros s; right; by exists s).
  assert (Hn : forall s, EmptyString +:+ s = s) by done.
  rewrite (read_octet_show (o0 a)) by auto. simpl. rewrite Hn.
  rewrite (read_octet_show (o1 a)) by auto. simpl. rewrite Hn.
  rewrite (read_octet_show (o2 a)) by auto. simpl. rewrite Hn.
  rewrite <- (str_app_nil_r (u64_to_string (o3 a))).
  rewrite (read_octet_show (o3 a)) by (try done; by left). simpl. by destruct a.
Qed.
#[local] Transparent u64_to_string.

Example parse_ip_samples :
  parse_ip "1.2.3.4" = Some (V4 (ipv4 1 2 3 4)) /\ parse_ip "1.2.3.04" = None /\ parse_ip "1.2.3.256" = None /\
  parse_ip "2001:db8::1" = Some (V6 (ipv6 0x2001 0xdb8 0 0 0 0 0 1)) /\
  parse_ip "::ffff:10.0.0.1" = Some (V6 (ipv6 0 0 0 0 0 0xffff 0xa00 1)) /\ parse_ip "1::2::3" = None /\
  parse_ip "::" = Some (V6 (ipv6 0 0 0 0 0 0 0 0)) /\ parse_ip "de1.example.test" = None /\
  parse_ip "1:2:3:4:5:6:7:8:9" = None /\ parse_ip "::1.2.3.4:5" = None.
Proof. vm_compute. auto 12. Qed.

Example show_ip_samples :
  show_ip (V6 (ipv6 0x2001 0xdb8 0 0 0 0 0 1)) = "2001:db8::1" /\
  show_ip (V6 (ipv6 0 0 0 0 0 0xffff 0xa00 1)) = "::ffff:10.0.0.1" /\
  show_ip (V6 (ipv6 1 0 0 2 0 0 0 3)) = "1:0:0:2::3" /\ show_ip (V6 (ipv6 0 0 0 0 0 0 0 0)) = "::" /\
  show_ip (V6 (ipv6 1 0 2 3 4 5 6 7)) = "1:0:2:3:4:5:6:7" /\ show_ip (V4 (ipv4 203 0 113 7)) = "203.0.113.7".
Proof. vm_compute. auto 12. Qed.
