(* ===== verification/AddressPolicy.v ===== *)
(** * Address policies: which resolved addresses the node may dial.

    Four places in the sources decide whether an IP address is an ordinary
    public address:
    - [apps/provisioning-agent/src/ssrf_guard.rs] ([classify_denied],
      [resolve_and_validate]): destinations of the protocol prober;
    - [crates/compat-config/src/deployment.rs] ([classify_relay_target_denied]):
      IP-literal relay targets;
    - [crates/compat-config/src/static_revision.rs]
      ([is_public_resolver_address], [validate_handshake_server_addresses]):
      resolvers and REALITY handshake servers of a static revision;
    - [crates/compat-config/src/model.rs] (the C-16 deny lists): exit egress.
    The theorems relate each to CIDR blocks and to one another. *)

From S2P Require Import Prelude Strs Net.

(** ** ssrf_guard.rs *)

Module SsrfGuard.

Inductive DenyReason :=
| Loopback | LinkLocal | PrivateUseIpv4 | CarrierGradeNat | UniqueLocalIpv6
| Multicast | Unspecified | Broadcast | Documentation | Benchmarking
| MetadataService | Ipv4MappedDenied | Reserved.

Definition METADATA_V4 : Ipv4Addr := ipv4 169 254 169 254.

Definition classify_v4 (v4 : Ipv4Addr) : option DenyReason :=
  if v4_eq v4 METADATA_V4 then Some MetadataService else
  if v4_is_loopback v4 then Some Loopback else
  if v4_is_unspecified v4 then Some Unspecified else
  if v4_is_broadcast v4 then Some Broadcast else
  if v4_is_private v4 then Some PrivateUseIpv4 else
  if v4_is_link_local v4 then Some LinkLocal else
  if v4_is_multicast v4 then Some Multicast else
  if v4_is_documentation v4 then Some Documentation else
  if (o0 v4 =? 100) && ((64 <=? o1 v4) && (o1 v4 <=? 127)) then Some CarrierGradeNat else
  if (o0 v4 =? 198) && ((o1 v4 =? 18) || (o1 v4 =? 19)) then Some Benchmarking else
  if o0 v4 =? 0 then Some Reserved else
  None.

Definition classify_v6 (v6 : Ipv6Addr) : option DenyReason :=
  if v6_is_loopback v6 then Some Loopback else
  if v6_is_unspecified v6 then Some Unspecified else
  if v6_is_multicast v6 then Some Multicast else
  if Z.land (s0 v6) 0xffc0 =? 0xfe80 then Some LinkLocal else
  if Z.land (s0 v6) 0xfe00 =? 0xfc00 then Some UniqueLocalIpv6 else
  if (s0 v6 =? 0x2001) && (s1 v6 =? 0x0db8) then Some Documentation else
  None.

Definition classify_denied (ip : IpAddr) : option DenyReason :=
  match ip with
  | V4 v4 => classify_v4 v4
  | V6 v6 =>
      match to_ipv4_mapped v6 with
      | Some mapped =>
          match classify_v4 mapped with
          | Some _ => Some Ipv4MappedDenied
          | None => None
          end
      | None => classify_v6 v6
      end
  end.

(** Why a destination was refused, in place of the formatted message. *)
Inductive resolve_error :=
| EmptyHost
| DeniedLiteral (r : DenyReason)
| ResolutionFailed
| NoAddresses
| DeniedResolved (ip : IpAddr) (r : DenyReason).

Record ResolvedTarget := { rt_ip : IpAddr; rt_port : Z }.

Section Resolve.
(** [host.parse::<IpAddr>()] and the system resolver
    ([ToSocketAddrs::to_socket_addrs]). *)
Context (parse_ip : string -> option IpAddr)
        (to_socket_addrs : string -> Z -> option (list (IpAddr * Z))).

Fixpoint first_denied (addrs : list (IpAddr * Z)) : option (IpAddr * DenyReason) :=
  match addrs with
  | [] => None
  | a :: rest =>
      match classify_denied a.1 with
      | Some reason => Some (a.1, reason)
      | None => first_denied rest
      end
  end.

Definition resolve_and_validate (host : string) (port : Z)
  : result ResolvedTarget resolve_error :=
  if str_is_empty host then Err EmptyHost else
  match parse_ip host with
  | Some ip =>
      match classify_denied ip with
      | Some reason => Err (DeniedLiteral reason)
      | None => Ok {| rt_ip := ip; rt_port := port |}
      end
  | None =>
      match to_socket_addrs host port with
      | None => Err ResolutionFailed
      | Some addrs =>
          match addrs with
          | [] => Err NoAddresses
          | a :: _ =>
              match first_denied addrs with
              | Some (ip, reason) => Err (DeniedResolved ip reason)
              | None => Ok {| rt_ip := a.1; rt_port := port |}
              end
          end
      end
  end.

Lemma first_denied_None addrs :
  first_denied addrs = None <-> forall a, In a addrs -> classify_denied a.1 = None.
Proof.
  induction addrs as [|a addrs IH]; simpl; [split; [intros _ ? []|done]|].
  destruct (classify_denied a.1) eqn:E.
  - split; [discriminate|]. intros H. rewrite H in E; [discriminate|auto].
  - rewrite IH. split; [intros H b [<-|?]; auto|auto].
Qed.

Lemma first_denied_Some addrs ip r :
  first_denied addrs = Some (ip, r) ->
  exists p, In (ip, p) addrs /\ classify_denied ip = Some r.
Proof.
  induction addrs as [|[i p] addrs IH]; simpl; [discriminate|].
  destruct (classify_denied i) eqn:E.
  - intros [= -> ->]. eauto.
  - intros H. destruct (IH H) as (q & ? & ?). eauto.
Qed.
End Resolve.

End SsrfGuard.

(** ** deployment.rs: relay targets *)

Module RelayTarget.

Inductive why_denied :=
| metadata_service | unspecified | broadcast | loopback | private_use | link_local
| multicast | documentation | carrier_grade_nat | benchmarking | reserved | unique_local.

Definition v4 (addr : Ipv4Addr) : option why_denied :=
  if v4_eq addr (ipv4 169 254 169 254) then Some metadata_service else
  if v4_is_unspecified addr then Some unspecified else
  if v4_is_broadcast addr then Some broadcast else
  if v4_is_loopback addr then Some loopback else
  if v4_is_private addr then Some private_use else
  if v4_is_link_local addr then Some link_local else
  if v4_is_multicast addr then Some multicast else
  if v4_is_documentation addr then Some documentation else
  if (o0 addr =? 100) && ((64 <=? o1 addr) && (o1 addr <=? 127)) then Some carrier_grade_nat else
  if (o0 addr =? 198) && ((o1 addr =? 18) || (o1 addr =? 19)) then Some benchmarking else
  if o0 addr =? 0 then Some reserved else
  None.

Definition v6 (addr : Ipv6Addr) : option why_denied :=
  if v6_is_unspecified addr then Some unspecified else
  if v6_is_loopback addr then Some loopback else
  if v6_is_multicast addr then Some multicast else
  if Z.land (s0 addr) 0xffc0 =? 0xfe80 then Some link_local else
  if Z.land (s0 addr) 0xfe00 =? 0xfc00 then Some unique_local else
  if (s0 addr =? 0x2001) && (s1 addr =? 0x0db8) then Some documentation else
  None.

Definition classify_relay_target_denied (ip : IpAddr) : option why_denied :=
  match ip with
  | V4 addr => v4 addr
  | V6 addr =>
      match (to_ipv4_mapped addr ≫= v4) with
      | Some r => Some r
      | None => v6 addr
      end
  end.

End RelayTarget.

(** ** static_revision.rs: resolvers and handshake servers *)

Module PublicResolver.

Definition public_v4 (v4 : Ipv4Addr) : bool :=
  negb (v4_is_loopback v4 || v4_is_private v4 || v4_is_link_local v4
        || v4_is_unspecified v4 || v4_is_broadcast v4 || v4_is_multicast v4
        || v4_is_documentation v4 || (o0 v4 =? 0)
        || ((o0 v4 =? 100) && ((64 <=? o1 v4) && (o1 v4 <=? 127)))
        || ((o0 v4 =? 198) && ((o1 v4 =? 18) || (o1 v4 =? 19)))
        || (240 <=? o0 v4)).

Definition is_public_resolver_address (ip : IpAddr) : bool :=
  match ip with
  | V4 v4 => public_v4 v4
  | V6 v6 =>
      match to_ipv4_mapped v6 with
      | Some mapped => public_v4 mapped
      | None =>
          negb (v6_is_loopback v6 || v6_is_unspecified v6 || v6_is_multicast v6
                || (Z.land (s0 v6) 0xfe00 =? 0xfc00)
                || (Z.land (s0 v6) 0xffc0 =? 0xfe80)
                || ((s0 v6 =? 0x2001) && (s1 v6 =? 0x0db8)))
      end
  end.

Inductive handshake_error := ResolvedToNothing | ResolvedToForbidden (ip : IpAddr).

Definition validate_handshake_server_addresses (answers : list IpAddr)
  : result unit handshake_error :=
  match answers with
  | [] => Err ResolvedToNothing
  | _ =>
      match List.find (fun a => negb (is_public_resolver_address a)) answers with
      | Some unsafe_ip => Err (ResolvedToForbidden unsafe_ip)
      | None => Ok tt
      end
  end.

End PublicResolver.

(** ** model.rs: the exit's C-16 deny lists *)

Module C16.

Definition C16_DENY_IPV4_CIDRS : list (Ipv4Addr * Z) :=
  [(ipv4 0 0 0 0, 8); (ipv4 10 0 0 0, 8); (ipv4 100 64 0 0, 10); (ipv4 127 0 0 0, 8);
   (ipv4 169 254 0 0, 16); (ipv4 172 16 0 0, 12); (ipv4 192 0 0 0, 24); (ipv4 192 0 2 0, 24);
   (ipv4 192 168 0 0, 16); (ipv4 198 18 0 0, 15); (ipv4 198 51 100 0, 24);
   (ipv4 203 0 113 0, 24); (ipv4 224 0 0 0, 4); (ipv4 240 0 0 0, 4)].

Definition C16_DENY_IPV6_CIDRS : list (Ipv6Addr * Z) :=
  [(ipv6 0 0 0 0 0 0 0 0, 128); (ipv6 0 0 0 0 0 0 0 1, 128);
   (ipv6 0 0 0 0 0 0xffff 0 0, 96); (ipv6 0x64 0xff9b 0 0 0 0 0 0, 96);
   (ipv6 0x100 0 0 0 0 0 0 0, 64); (ipv6 0x2001 0xdb8 0 0 0 0 0 0, 32);
   (ipv6 0xfc00 0 0 0 0 0 0 0, 7); (ipv6 0xfe80 0 0 0 0 0 0 0, 10);
   (ipv6 0xff00 0 0 0 0 0 0 0, 8); (ipv6 0xfd00 0xec2 0 0 0 0 0 0x254, 128)].

Definition denied (ip : IpAddr) : bool :=
  match ip with
  | V4 a => in_blocks4 C16_DENY_IPV4_CIDRS a
  | V6 a => in_blocks6 C16_DENY_IPV6_CIDRS a
  end.

End C16.

(** ** Block form of every policy *)

Import SsrfGuard.

(** The blocks the SSRF guard stands for. *)
Definition guard_blocks4 : list (Ipv4Addr * Z) :=
  [(ipv4 0 0 0 0, 8); (ipv4 10 0 0 0, 8); (ipv4 100 64 0 0, 10); (ipv4 127 0 0 0, 8);
   (ipv4 169 254 0 0, 16); (ipv4 172 16 0 0, 12); (ipv4 192 0 2 0, 24);
   (ipv4 192 168 0 0, 16); (ipv4 198 18 0 0, 15); (ipv4 198 51 100 0, 24);
   (ipv4 203 0 113 0, 24); (ipv4 224 0 0 0, 4); (ipv4 255 255 255 255, 32)].
Definition guard_blocks6 : list (Ipv6Addr * Z) :=
  [(ipv6 0 0 0 0 0 0 0 0, 128); (ipv6 0 0 0 0 0 0 0 1, 128);
   (ipv6 0x2001 0xdb8 0 0 0 0 0 0, 32); (ipv6 0xfc00 0 0 0 0 0 0 0, 7);
   (ipv6 0xfe80 0 0 0 0 0 0 0, 10); (ipv6 0xff00 0 0 0 0 0 0 0, 8)].

(** An IPv4-mapped address is judged by the address it embeds. *)
Definition guard_blocked (ip : IpAddr) : bool :=
  match ip with
  | V4 a => in_blocks4 guard_blocks4 a
  | V6 a => match to_ipv4_mapped a with
            | Some m => in_blocks4 guard_blocks4 m
            | None => in_blocks6 guard_blocks6 a
            end
  end.

Lemma octet_small z : 0 <= z <= 255 -> octet z.
Proof. done. Qed.

(** Rewrite every IPv4 block of the lists into its octet test. *)
Ltac blocks4 H :=
  rewrite ?(cidr4_16 100 64 10 _ 64), ?(cidr4_16 169 254 16 _ 1), ?(cidr4_16 172 16 12 _ 16),
    ?(cidr4_16 192 168 16 _ 1), ?(cidr4_16 198 18 15 _ 2),
    ?(cidr4_sub 224 4 _ 16), ?(cidr4_sub 240 4 _ 16),
    ?cidr4_8, ?cidr4_24, ?cidr4_32
    by first [exact H | reflexivity | (unfold octet, wf4; simpl; unfold octet; lia)].

#[local] Ltac Zify.zify_post_hook ::= Z.to_euclidean_division_equations.

Lemma rng_12 x : (x / 16 =? 16 / 16) = (16 <=? x) && (x <=? 31).
Proof. apply eq_true_iff_eq. rewrite andb_true_iff, Z.eqb_eq, !Z.leb_le. lia. Qed.
Lemma rng_10 x : (x / 64 =? 64 / 64) = (64 <=? x) && (x <=? 127).
Proof. apply eq_true_iff_eq. rewrite andb_true_iff, Z.eqb_eq, !Z.leb_le. lia. Qed.
Lemma rng_15 x : (x / 2 =? 18 / 2) = (x =? 18) || (x =? 19).
Proof. apply eq_true_iff_eq. rewrite orb_true_iff, !Z.eqb_eq. lia. Qed.
Lemma rng_224 x : (x / 16 =? 224 / 16) = (224 <=? x) && (x <=? 239).
Proof. apply eq_true_iff_eq. rewrite andb_true_iff, Z.eqb_eq, !Z.leb_le. lia. Qed.
Lemma rng_240 x : octet x -> (x / 16 =? 240 / 16) = (240 <=? x).
Proof. unfold octet. intros. apply eq_true_iff_eq. rewrite Z.eqb_eq, !Z.leb_le. lia. Qed.

#[local] Ltac Zify.zify_post_hook ::= idtac.

(** The guard's IPv4 verdict as one disjunction of its tests. *)
Definition v4_tests (v4 : Ipv4Addr) : bool :=
  v4_is_loopback v4 || v4_is_broadcast v4 || v4_is_private v4 || v4_is_link_local v4
  || v4_is_multicast v4 || v4_is_documentation v4
  || ((o0 v4 =? 100) && ((64 <=? o1 v4) && (o1 v4 <=? 127)))
  || ((o0 v4 =? 198) && ((o1 v4 =? 18) || (o1 v4 =? 19)))
  || (o0 v4 =? 0).

Lemma metadata_link_local a : v4_eq a METADATA_V4 = true -> v4_is_link_local a = true.
Proof. unfold v4_eq, METADATA_V4, v4_is_link_local; simpl. intros; b2p. split; lia. Qed.
Lemma unspecified_this_network a : v4_is_unspecified a = true -> (o0 a =? 0) = true.
Proof. unfold v4_is_unspecified, v4_eq; simpl. intros; b2p. lia. Qed.

Lemma classify_v4_None a : classify_v4 a = None <-> v4_tests a = false.
Proof.
  unfold classify_v4, v4_tests.
  destruct (v4_eq a METADATA_V4) eqn:E1.
  { apply metadata_link_local in E1. rewrite E1.
    split; [discriminate|]. rewrite !orb_true_r, ?orb_true_l. discriminate. }
  destruct (v4_is_unspecified a) eqn:E2.
  { apply unspecified_this_network in E2. rewrite E2.
    destruct (v4_is_loopback a); (split; [discriminate|]);
      rewrite !orb_true_r; discriminate. }
  destruct (v4_is_loopback a), (v4_is_broadcast a), (v4_is_private a), (v4_is_link_local a),
    (v4_is_multicast a), (v4_is_documentation a); simpl; try (split; discriminate).
  repeat (case_if; simpl; [split; discriminate|]). done.
Qed.

Lemma relay_v4_None a : RelayTarget.v4 a = None <-> v4_tests a = false.
Proof.
  unfold RelayTarget.v4, v4_tests. fold METADATA_V4.
  destruct (v4_eq a METADATA_V4) eqn:E1.
  { apply metadata_link_local in E1. rewrite E1.
    split; [discriminate|]. rewrite !orb_true_r, ?orb_true_l. discriminate. }
  destruct (v4_is_unspecified a) eqn:E2.
  { apply unspecified_this_network in E2. rewrite E2.
    split; [discriminate|]. rewrite !orb_true_r. discriminate. }
  destruct (v4_is_loopback a), (v4_is_broadcast a), (v4_is_private a), (v4_is_link_local a),
    (v4_is_multicast a), (v4_is_documentation a); simpl; try (split; discriminate).
  repeat (case_if; simpl; [split; discriminate|]). done.
Qed.

(** Class E plus the broadcast address is the only IPv4 space the resolver
    policy refuses and the guard does not. *)
Lemma public_v4_spec a : octet (o0 a) ->
  PublicResolver.public_v4 a = negb (v4_tests a) && negb (240 <=? o0 a).
Proof.
  intros Ho. unfold PublicResolver.public_v4, v4_tests.
  destruct (v4_is_unspecified a) eqn:E2;
    [apply unspecified_this_network in E2; rewrite E2; by rewrite !orb_true_r|].
  destruct (v4_is_broadcast a) eqn:E3.
  { unfold v4_is_broadcast, v4_eq in E3. simpl in E3. b2p.
    replace (240 <=? o0 a) with true by lia. by rewrite !orb_true_r, andb_false_r. }
  rewrite <- negb_orb. f_equal. rewrite !orb_false_r.
  destruct (o0 a =? 0), (240 <=? o0 a), (v4_is_loopback a), (v4_is_private a),
    (v4_is_link_local a), (v4_is_multicast a), (v4_is_documentation a); simpl;
    rewrite ?orb_true_r, ?orb_false_r; done.
Qed.

Lemma guard4_spec a : wf4 a -> in_blocks4 guard_blocks4 a = v4_tests a.
Proof.
  intros H. unfold in_blocks4, guard_blocks4. cbn [existsb fst snd]. blocks4 H.
  rewrite !Z.div_1_r, rng_12, rng_10, rng_15, rng_224.
  unfold v4_tests, v4_is_loopback, v4_is_broadcast, v4_is_private,
    v4_is_link_local, v4_is_multicast, v4_is_documentation, v4_eq.
  simpl o0; simpl o1; simpl o2; simpl o3.
  rewrite orb_false_r.
  apply eq_true_iff_eq. rewrite !orb_true_iff, !andb_true_iff, !orb_true_iff. tauto.
Qed.

(** *** IPv6 *)

Lemma cidr6_32 b0 b1 a : wf6 a -> segment b1 ->
  cidr6 (ipv6 b0 b1 0 0 0 0 0 0) 32 a = (s0 a =? b0) && (s1 a =? b1).
Proof.
  unfold wf6, segment. intros H Hb. unfold cidr6. change (2 ^ (128 - 32)) with (2 ^ 96 * 1).
  replace (v6_num a) with ((s0 a * 65536 + s1 a) * 2 ^ 96 +
    (s2 a * 2 ^ 80 + s3 a * 2 ^ 64 + s4 a * 2 ^ 48 + s5 a * 2 ^ 32 + s6 a * 2 ^ 16 + s7 a))
    by (unfold v6_num; lia).
  replace (v6_num (ipv6 b0 b1 0 0 0 0 0 0)) with ((b0 * 65536 + b1) * 2 ^ 96 + 0)
    by (unfold v6_num; simpl; lia).
  rewrite !div_shift, !Z.div_1_r by lia.
  apply eq_true_iff_eq. rewrite andb_true_iff, !Z.eqb_eq. lia.
Qed.

Lemma cidr6_64 b0 b1 b2 b3 a : wf6 a -> segment b1 -> segment b2 -> segment b3 ->
  cidr6 (ipv6 b0 b1 b2 b3 0 0 0 0) 64 a
  = (s0 a =? b0) && (s1 a =? b1) && (s2 a =? b2) && (s3 a =? b3).
Proof.
  unfold wf6, segment. intros H Hb1 Hb2 Hb3. unfold cidr6.
  change (2 ^ (128 - 64)) with (2 ^ 64 * 1).
  replace (v6_num a) with ((s0 a * 2 ^ 48 + s1 a * 2 ^ 32 + s2 a * 2 ^ 16 + s3 a) * 2 ^ 64 +
    (s4 a * 2 ^ 48 + s5 a * 2 ^ 32 + s6 a * 2 ^ 16 + s7 a)) by (unfold v6_num; lia).
  replace (v6_num (ipv6 b0 b1 b2 b3 0 0 0 0))
    with ((b0 * 2 ^ 48 + b1 * 2 ^ 32 + b2 * 2 ^ 16 + b3) * 2 ^ 64 + 0)
    by (unfold v6_num; simpl; lia).
  rewrite !div_shift, !Z.div_1_r by lia.
  apply eq_true_iff_eq. rewrite !andb_true_iff, !Z.eqb_eq. lia.
Qed.

Lemma cidr6_96 b0 b1 b5 a : wf6 a -> segment b1 -> segment b5 ->
  cidr6 (ipv6 b0 b1 0 0 0 b5 0 0) 96 a
  = (s0 a =? b0) && (s1 a =? b1) && (s2 a =? 0) && (s3 a =? 0) && (s4 a =? 0) && (s5 a =? b5).
Proof.
  unfold wf6, segment. intros H Hb1 Hb5. unfold cidr6.
  change (2 ^ (128 - 96)) with (2 ^ 32 * 1).
  replace (v6_num a) with ((s0 a * 2 ^ 80 + s1 a * 2 ^ 64 + s2 a * 2 ^ 48 + s3 a * 2 ^ 32
    + s4 a * 2 ^ 16 + s5 a) * 2 ^ 32 + (s6 a * 2 ^ 16 + s7 a)) by (unfold v6_num; lia).
  replace (v6_num (ipv6 b0 b1 0 0 0 b5 0 0))
    with ((b0 * 2 ^ 80 + b1 * 2 ^ 64 + b5) * 2 ^ 32 + 0) by (unfold v6_num; simpl; lia).
  rewrite !div_shift, !Z.div_1_r by lia.
  apply eq_true_iff_eq. rewrite !andb_true_iff, !Z.eqb_eq. lia.
Qed.

Lemma cidr6_128 b0 b1 b7 a : wf6 a -> segment b1 -> segment b7 ->
  cidr6 (ipv6 b0 b1 0 0 0 0 0 b7) 128 a
  = (s0 a =? b0) && (s1 a =? b1) && (s2 a =? 0) && (s3 a =? 0) && (s4 a =? 0)
    && (s5 a =? 0) && (s6 a =? 0) && (s7 a =? b7).
Proof.
  unfold wf6, segment. intros H Hb1 Hb7. unfold cidr6.
  change (2 ^ (128 - 128)) with 1. rewrite !Z.div_1_r.
  rewrite !v6_num_horner. simpl s0; simpl s1; simpl s2; simpl s3; simpl s4; simpl s5;
    simpl s6; simpl s7.
  apply eq_true_iff_eq. rewrite !andb_true_iff, !Z.eqb_eq. split.
  - intros E. do 7 (apply (digits_eq _ _ _ _ 65536) in E as [E ?]; [|lia..]). tauto.
  - intros H0. destruct_and!. congruence.
Qed.

Definition v6_tests (a : Ipv6Addr) : bool :=
  v6_is_loopback a || v6_is_unspecified a || v6_is_multicast a
  || (Z.land (s0 a) 0xffc0 =? 0xfe80) || (Z.land (s0 a) 0xfe00 =? 0xfc00)
  || ((s0 a =? 0x2001) && (s1 a =? 0x0db8)).

Lemma classify_v6_None a : classify_v6 a = None <-> v6_tests a = false.
Proof.
  unfold classify_v6, v6_tests. repeat (case_if; simpl; [split; discriminate|]). done.
Qed.

Lemma relay_v6_None a : RelayTarget.v6 a = None <-> v6_tests a = false.
Proof.
  unfold RelayTarget.v6, v6_tests.
  destruct (v6_is_loopback a), (v6_is_unspecified a); simpl; try (split; discriminate).
  repeat (case_if; simpl; [split; discriminate|]). done.
Qed.

Ltac blocks6 H :=
  rewrite ?(cidr6_seg0 0xfc00 7 _ 512), ?(cidr6_seg0 0xfe80 10 _ 64), ?(cidr6_seg0 0xff00 8 _ 256),
    ?cidr6_32, ?cidr6_64, ?cidr6_96, ?cidr6_128
    by first [exact H | reflexivity | (unfold segment; lia)].

Lemma guard6_spec a : wf6 a -> in_blocks6 guard_blocks6 a = v6_tests a.
Proof.
  intros H. assert (Hs : segment (s0 a)) by apply H.
  unfold in_blocks6, guard_blocks6. cbn [existsb fst snd]. blocks6 H.
  unfold v6_tests, v6_is_multicast, v6_is_loopback, v6_is_unspecified, v6_high_zero.
  rewrite <- mask_ff00, <- mask_ffc0, <- mask_fe00, orb_false_r by done.
  apply eq_true_iff_eq. rewrite !orb_true_iff, !andb_true_iff. tauto.
Qed.

(** A mapped address is none of the IPv6 special cases. *)
Lemma mapped_not_special a m : to_ipv4_mapped a = Some m -> v6_tests a = false.
Proof.
  unfold to_ipv4_mapped, v6_high_zero. destruct (_ && _) eqn:E; [|discriminate]. intros _.
  rewrite !andb_true_iff, !Z.eqb_eq in E. destruct a; simpl in E.
  destruct_and!. subst. reflexivity.
Qed.


(** ** Properties *)

(** The SSRF guard is exactly a CIDR deny list.  For every well-formed
    address, [classify_denied] lets it through if and only if it lies in none
    of the listed blocks, IPv4-mapped IPv6 addresses being judged by the IPv4
    address they embed (so the mapped form cannot bypass the IPv4 list). *)
Theorem ssrf_guard_is_block_list (ip : IpAddr) :
  wf_ip ip -> (classify_denied ip = None <-> guard_blocked ip = false).
Proof.
  destruct ip as [a|a]; cbn [wf_ip classify_denied guard_blocked]; intros Hw.
  - by rewrite guard4_spec, classify_v4_None.
  - destruct (to_ipv4_mapped a) as [m|] eqn:E.
    + rewrite guard4_spec by (by eapply wf_mapped). rewrite <- classify_v4_None.
      destruct (classify_v4 m); split; done.
    + by rewrite guard6_spec, classify_v6_None.
Qed.

Lemma ssrf_guard_is_block_list_witness :
  classify_denied (V6 (ipv6 0 0 0 0 0 0xffff 0x7f00 1)) = Some Ipv4MappedDenied
  /\ classify_denied (V4 (ipv4 100 127 255 255)) <> None
  /\ classify_denied (V4 (ipv4 100 128 0 0)) = None.
Proof.
  split; [reflexivity|]. split.
  - rewrite ssrf_guard_is_block_list; [discriminate|].
    unfold wf_ip, wf4, octet; simpl; lia.
  - rewrite ssrf_guard_is_block_list; [reflexivity|].
    unfold wf_ip, wf4, octet; simpl; lia.
Defined.

(** The two copies of the deny-range policy that the sources ask to be
    kept in sync do agree.  The relay-target classifier refuses an address if
    and only if the SSRF guard does, for every address; and the resolver
    policy of static revisions accepts an address if and only if the guard
    does and its (embedded) IPv4 form is outside 240.0.0.0/4. *)
Theorem address_policies_agree (ip : IpAddr) :
  wf_ip ip ->
  (RelayTarget.classify_relay_target_denied ip = None <-> classify_denied ip = None)
  /\ (PublicResolver.is_public_resolver_address ip = true <->
      classify_denied ip = None
      /\ match ip with
         | V4 a => o0 a < 240
         | V6 a => match to_ipv4_mapped a with Some m => o0 m < 240 | None => True end
         end).
Proof.
  destruct ip as [a|a]; simpl; intros Hw.
  - split; [by rewrite relay_v4_None, classify_v4_None|].
    rewrite classify_v4_None, public_v4_spec by apply Hw.
    rewrite andb_true_iff, !negb_true_iff, Z.leb_gt. done.
  - destruct (to_ipv4_mapped a) as [m|] eqn:E; simpl.
    + pose proof (wf_mapped _ _ Hw E) as Hm.
      pose proof (relay_v4_None m) as Hr. pose proof (classify_v4_None m) as Hc.
      rewrite public_v4_spec by apply Hm. rewrite andb_true_iff, !negb_true_iff, Z.leb_gt.
      rewrite <- Hc. split; [|destruct (classify_v4 m); intuition congruence].
      rewrite <- Hc in Hr. apply mapped_not_special in E. rewrite <- relay_v6_None in E.
      destruct (RelayTarget.v4 m), (classify_v4 m); rewrite ?E; intuition congruence.
    + rewrite relay_v6_None, classify_v6_None. split; [done|]. unfold v6_tests.
      rewrite negb_true_iff, !orb_false_iff. tauto.
Qed.

Lemma address_policies_agree_witness :
  RelayTarget.classify_relay_target_denied (V4 (ipv4 8 8 8 8)) = None
  /\ PublicResolver.is_public_resolver_address (V4 (ipv4 240 0 0 1)) <> true.
Proof.
  split.
  - apply (address_policies_agree (V4 (ipv4 8 8 8 8))); [|reflexivity].
    unfold wf_ip, wf4, octet; simpl; lia.
  - intros H. apply (address_policies_agree (V4 (ipv4 240 0 0 1))) in H as [_ H];
      [simpl in H; lia|]. unfold wf_ip, wf4, octet; simpl; lia.
Defined.

(** What the exit's C-16 lists deny beyond the guard. *)
Definition c16_extra (ip : IpAddr) : bool :=
  match ip with
  | V4 a => in_blocks4 [(ipv4 192 0 0 0, 24); (ipv4 240 0 0 0, 4)] a
  | V6 a => in_blocks6 [(ipv6 0 0 0 0 0 0xffff 0 0, 96); (ipv6 0x64 0xff9b 0 0 0 0 0 0, 96);
                        (ipv6 0x100 0 0 0 0 0 0 0, 64)] a
  end.

Lemma c16_v4_spec a : wf4 a ->
  C16.denied (V4 a) = v4_tests a || c16_extra (V4 a).
Proof.
  intros H. rewrite <- guard4_spec by done.
  unfold C16.denied, c16_extra, in_blocks4, C16.C16_DENY_IPV4_CIDRS, guard_blocks4.
  cbn [existsb fst snd].
  assert (Hb : cidr4 (ipv4 255 255 255 255) 32 a = true -> cidr4 (ipv4 240 0 0 0) 4 a = true).
  { blocks4 H. rewrite rng_240 by apply H. unfold v4_eq; simpl.
    rewrite !andb_true_iff, !Z.eqb_eq, Z.leb_le. lia. }
  apply eq_true_iff_eq. rewrite !orb_true_iff. tauto.
Qed.

Lemma c16_v6_spec a : wf6 a ->
  C16.denied (V6 a) = v6_tests a || c16_extra (V6 a).
Proof.
  intros H. rewrite <- guard6_spec by done.
  unfold C16.denied, c16_extra, in_blocks6, C16.C16_DENY_IPV6_CIDRS, guard_blocks6.
  cbn [existsb fst snd].
  assert (Hb : cidr6 (ipv6 0xfd00 0xec2 0 0 0 0 0 0x254) 128 a = true ->
               cidr6 (ipv6 0xfc00 0 0 0 0 0 0 0) 7 a = true).
  { blocks6 H. rewrite !andb_true_iff, !Z.eqb_eq. intros Hx. destruct_and!.
    replace (s0 a) with 0xfd00 by lia. reflexivity. }
  apply eq_true_iff_eq. rewrite !orb_true_iff. tauto.
Qed.

(** The exit's egress policy is at least as strict as the SSRF guard, and
    the difference is known exactly: C-16 denies an address if and only if the
    guard denies it or it is in 192.0.0.0/24, 240.0.0.0/4, the IPv4-mapped
    block, the NAT64 block 64:ff9b::/96 or the discard block 100::/64. *)
Theorem c16_extends_ssrf_guard (ip : IpAddr) :
  wf_ip ip ->
  (C16.denied ip = true <-> classify_denied ip <> None \/ c16_extra ip = true).
Proof.
  destruct ip as [a|a]; intros Hw; cbn [wf_ip] in Hw.
  - rewrite c16_v4_spec, orb_true_iff by done. cbn [classify_denied].
    pose proof (classify_v4_None a). destruct (v4_tests a), (classify_v4 a); intuition congruence.
  - rewrite c16_v6_spec, orb_true_iff by done. cbn [classify_denied].
    destruct (to_ipv4_mapped a) as [m|] eqn:E.
    + rewrite (mapped_not_special _ _ E).
      assert (Hx : c16_extra (V6 a) = true).
      { unfold c16_extra, in_blocks6. cbn [existsb fst snd]. blocks6 Hw.
        unfold to_ipv4_mapped, v6_high_zero in E.
        by destruct (_ && _) eqn:E2; [|discriminate]. }
      rewrite Hx. tauto.
    + pose proof (classify_v6_None a).
      destruct (v6_tests a), (classify_v6 a); intuition congruence.
Qed.

Lemma c16_extends_ssrf_guard_witness :
  C16.denied (V6 (ipv6 0x64 0xff9b 0 0 0 0 0x7f00 1)) = true
  /\ classify_denied (V6 (ipv6 0x64 0xff9b 0 0 0 0 0x7f00 1)) = None.
Proof.
  split; [|reflexivity].
  apply c16_extends_ssrf_guard; [unfold wf_ip, wf6, segment; simpl; lia|].
  right. reflexivity.
Defined.

(** A probe destination that the guard accepts can be dialled safely.
    Whatever the literal parser and the system resolver answer, an accepted
    destination has a permitted address and the requested port; for a host
    name every resolved address was permitted (a name that also resolves to a
    private address is refused) and the pinned one is the first of them. *)
Theorem resolve_and_validate_pins_permitted
  (parse_ip : string -> option IpAddr) (to_socket_addrs : string -> Z -> option (list (IpAddr * Z)))
  (host : string) (port : Z) (t : ResolvedTarget) :
  resolve_and_validate parse_ip to_socket_addrs host port = Ok t ->
  host <> EmptyString /\ rt_port t = port /\ classify_denied (rt_ip t) = None
  /\ (parse_ip host = Some (rt_ip t)
      \/ exists p rest, to_socket_addrs host port = Some ((rt_ip t, p) :: rest)
           /\ forall ip q, In (ip, q) ((rt_ip t, p) :: rest) -> classify_denied ip = None).
Proof.
  unfold resolve_and_validate, str_is_empty.
  destruct (String.eqb host EmptyString) eqn:Eh; [discriminate|]. apply String.eqb_neq in Eh.
  destruct (parse_ip host) as [ip|].
  - destruct (classify_denied ip) eqn:Ed; [discriminate|]. intros [= <-]. simpl. auto.
  - destruct (to_socket_addrs host port) as [[|[ip p] rest]|]; try discriminate.
    destruct (first_denied ((ip, p) :: rest)) as [[??]|] eqn:Ef; [discriminate|].
    intros [= <-]. rewrite first_denied_None in Ef. simpl rt_ip. simpl rt_port.
    split; [done|]. split; [done|]. split; [apply (Ef (ip, p)); by left|].
    right. exists p, rest. split; [done|]. intros i q Hi. by apply (Ef (i, q)).
Qed.

Definition demo_resolver (h : string) (p : Z) : option (list (IpAddr * Z)) :=
  if String.eqb h "exit.example" then Some [(V4 (ipv4 203 0 114 7), p); (V4 (ipv4 9 9 9 9), p)]
  else Some [(V4 (ipv4 9 9 9 9), p); (V4 (ipv4 10 0 0 1), p)].

Lemma resolve_and_validate_pins_permitted_witness :
  classify_denied (V4 (ipv4 203 0 114 7)) = None
  /\ is_ok (resolve_and_validate (fun _ => None) demo_resolver "rebind.example" 443) = false.
Proof.
  split; [|reflexivity].
  apply (resolve_and_validate_pins_permitted (fun _ => None) demo_resolver "exit.example" 443
           {| rt_ip := V4 (ipv4 203 0 114 7); rt_port := 443 |}).
  reflexivity.
Defined.
