(* ===== verification/Authorization.v ===== *)
(** * crates/compat-config/src/authorization.rs

    Time-bounded authorization records: item validation, the set-level rules
    (per-principal overlap and simultaneity, checked by a sweep over start and
    end events), the active view every render uses, and native renewal.

    Timestamps are [i64]; the one subtraction the code leaves unchecked (the
    overlap of two windows) is modelled with wrap-around, and [sane] is the
    range in which it cannot wrap. *)

From S2P Require Import Prelude Strs.
From Stdlib Require Import Ascii.

Module Authz.

Definition NATIVE_LEASE_SECS : Z := 30 * 60.
Definition NATIVE_RENEW_AFTER_SECS : Z := 15 * 60.
Definition COMPAT_MAX_LIFETIME_SECS : Z := 30 * 24 * 60 * 60.
Definition MAX_OVERLAP_SECS : Z := 48 * 60 * 60.

Inductive CredentialClass := Native | Compatibility.

#[global] Instance CredentialClass_eq_dec : EqDecision CredentialClass.
Proof. solve_decision. Defined.

Definition class_eqb (a b : CredentialClass) : bool :=
  match a, b with
  | Native, Native | Compatibility, Compatibility => true
  | _, _ => false
  end.

Record Authorization := {
  principal_id : string;
  credential_id : string;
  class : CredentialClass;
  valid_from : Z;
  valid_until : Z;
  revoked : bool;
  vless_uuid : option string;
  hysteria2_password : option string }.

#[global] Instance Authorization_eq_dec : EqDecision Authorization.
Proof. solve_decision. Defined.

(** The refusals of [validate_item], [validate] and [validate_set]. *)
Inductive auth_error :=
| InvalidIdentifier (field : string)
| NativeNeedsNativePrincipal
| CompatNeedsExtPrincipal
| InvalidValidityRange
| EmptyInterval (credential : string)
| NoProtocolSecret (credential : string)
| MalformedUuid
| MalformedPassword
| ExceedsNativeLease (credential : string)
| LifetimeOutsidePolicy (credential : string)
| DuplicateCredential (credential : string)
| OverlapExceeded (principal : string)
| TooManySimultaneous (principal : string)
| CredentialNotFound
| NotActiveNativeLease
| RenewalOverflow.

Definition id_char (b : ascii) : bool :=
  is_ascii_alphanumeric b || is_char "_" b || is_char "-" b.

Definition validate_id (value : string) (prefixes : list string) (field : string)
  : result unit auth_error :=
  if negb (existsb (fun p => starts_with p value) prefixes)
     || (slen value <? 12) || (96 <? slen value)
     || negb (str_all id_char value)
  then Err (InvalidIdentifier field)
  else Ok tt.

Definition validate_principal_id (value : string) : result unit auth_error :=
  validate_id value ["native_"; "ext_"] "principal_id".
Definition validate_credential_id (value : string) : result unit auth_error :=
  validate_id value ["cred_"] "credential_id".

(** [char_indices().all(..)]: [i] is the byte index of the head. *)
Fixpoint uuid_chars (i : Z) (s : string) : bool :=
  match s with
  | EmptyString => true
  | String c s' =>
      (if (i =? 8) || (i =? 13) || (i =? 18) || (i =? 23) then is_char "-" c
       else is_ascii_hexdigit c)
      && uuid_chars (i + 1) s'
  end.

Definition valid_vless_uuid (value : string) : bool :=
  (slen value =? 36) && uuid_chars 0 value.

Definition valid_hysteria2_password (value : string) : bool :=
  (16 <=? slen value) && (slen value <=? 128) && str_all (in_range 0x21 0x7e) value.

Definition opt_bad (ok : string -> bool) (o : option string) : bool :=
  match o with Some s => negb (ok s) | None => false end.

Definition validate_item (self : Authorization) : result unit auth_error :=
  let? _ := validate_principal_id (principal_id self) in
  let? _ := validate_credential_id (credential_id self) in
  let? _ :=
    match class self with
    | Native => if negb (starts_with "native_" (principal_id self))
                then Err NativeNeedsNativePrincipal else Ok tt
    | Compatibility => if negb (starts_with "ext_" (principal_id self))
                       then Err CompatNeedsExtPrincipal else Ok tt
    end in
  let? lifetime := ok_or (checked_sub_i64 (valid_until self) (valid_from self))
                         InvalidValidityRange in
  if revoked self then Ok tt else
  if lifetime <=? 0 then Err (EmptyInterval (credential_id self)) else
  if match vless_uuid self, hysteria2_password self with None, None => true | _, _ => false end
  then Err (NoProtocolSecret (credential_id self)) else
  if opt_bad valid_vless_uuid (vless_uuid self) then Err MalformedUuid else
  if opt_bad valid_hysteria2_password (hysteria2_password self) then Err MalformedPassword else
  match class self with
  | Native => if NATIVE_LEASE_SECS <? lifetime
              then Err (ExceedsNativeLease (credential_id self)) else Ok tt
  | Compatibility => if COMPAT_MAX_LIFETIME_SECS <? lifetime
                     then Err (LifetimeOutsidePolicy (credential_id self)) else Ok tt
  end.

Definition is_active_at (self : Authorization) (now : Z) : bool :=
  negb (revoked self) && (valid_from self <=? now) && (now <? valid_until self).

(** ** AuthorizationSet *)

Definition AuthorizationSet := list Authorization.

Definition overlap (a b : Authorization) : Z :=
  wrap_i64 (Z.min (valid_until a) (valid_until b) - Z.max (valid_from a) (valid_from b)).

Fixpoint check_overlaps (credentials : list Authorization) : result unit auth_error :=
  match credentials with
  | [] => Ok tt
  | a :: rest =>
      let? _ := for_each (fun b => if MAX_OVERLAP_SECS <? overlap a b
                                   then Err (OverlapExceeded (principal_id a)) else Ok tt) rest in
      check_overlaps rest
  end.

Definition event := (Z * Z)%type.
Definition ev_leb (a b : event) : bool :=
  (a.1 <? b.1) || ((a.1 =? b.1) && (a.2 <=? b.2)).

Definition events_of (credentials : list Authorization) : list event :=
  flat_map (fun c => [(valid_from c, 1); (valid_until c, -1)]) credentials.

Fixpoint sweep (active : Z) (events : list event) : bool :=
  match events with
  | [] => true
  | (_, delta) :: rest =>
      let active := active + delta in
      if 2 <? active then false else sweep active rest
  end.

Definition of_principal (s : AuthorizationSet) (principal : string) : list Authorization :=
  List.filter (fun a => String.eqb (principal_id a) principal && negb (revoked a)) s.

Definition validate_set (self : AuthorizationSet) : result unit auth_error :=
  for_each (fun principal =>
    let credentials := of_principal self principal in
    let? _ := check_overlaps credentials in
    if sweep 0 (sort_stable ev_leb (events_of credentials)) then Ok tt
    else Err (TooManySimultaneous principal))
  (btree_set (map principal_id self)).

Fixpoint validate_items (ids : list string) (items : list Authorization)
  : result unit auth_error :=
  match items with
  | [] => Ok tt
  | item :: rest =>
      let? _ := validate_item item in
      if existsb (String.eqb (credential_id item)) ids
      then Err (DuplicateCredential (credential_id item))
      else validate_items (credential_id item :: ids) rest
  end.

Definition validate (self : AuthorizationSet) : result unit auth_error :=
  let? _ := validate_items [] self in
  validate_set self.

(** [(&a.principal_id, &a.credential_id).cmp(..)] *)
Definition auth_leb (a b : Authorization) : bool :=
  if String.eqb (principal_id a) (principal_id b)
  then str_leb (credential_id a) (credential_id b)
  else str_leb (principal_id a) (principal_id b).

Definition active_at (self : AuthorizationSet) (now : Z) : list Authorization :=
  sort_stable auth_leb (List.filter (fun a => is_active_at a now) self).

(** The first item with the id is mutated in place; [valid_from] is already
    overwritten when the [checked_add] of the new end fails. *)
Definition with_window (item : Authorization) (from until : Z) : Authorization :=
  {| principal_id := principal_id item; credential_id := credential_id item;
     class := class item; valid_from := from; valid_until := until;
     revoked := revoked item; vless_uuid := vless_uuid item;
     hysteria2_password := hysteria2_password item |}.

Fixpoint renew_native (self : AuthorizationSet) (cid : string) (now : Z)
  : AuthorizationSet * result unit auth_error :=
  match self with
  | [] => ([], Err CredentialNotFound)
  | item :: rest =>
      if String.eqb (credential_id item) cid then
        if negb (class_eqb (class item) Native) || revoked item || negb (is_active_at item now)
        then (item :: rest, Err NotActiveNativeLease)
        else
          match checked_add_i64 now NATIVE_LEASE_SECS with
          | None => (with_window item now (valid_until item) :: rest, Err RenewalOverflow)
          | Some until => (with_window item now until :: rest, Ok tt)
          end
      else
        let '(rest', r) := renew_native rest cid now in
        (item :: rest', r)
  end.

(** ** Item-level lemmas *)

(** Everything [validate_item] guarantees about a live credential. *)
Record item_ok (a : Authorization) : Prop := {
  iok_principal : validate_principal_id (principal_id a) = Ok tt;
  iok_credential : validate_credential_id (credential_id a) = Ok tt;
  iok_prefix : starts_with (match class a with Native => "native_" | Compatibility => "ext_" end)
                 (principal_id a) = true;
  iok_range : in_i64 (valid_until a - valid_from a) = true;
  iok_live : revoked a = false ->
    valid_from a < valid_until a
    /\ (vless_uuid a <> None \/ hysteria2_password a <> None)
    /\ (forall u, vless_uuid a = Some u -> valid_vless_uuid u = true)
    /\ (forall p, hysteria2_password a = Some p -> valid_hysteria2_password p = true)
    /\ valid_until a - valid_from a
       <= match class a with Native => NATIVE_LEASE_SECS | Compatibility => COMPAT_MAX_LIFETIME_SECS end }.

Lemma opt_bad_false ok o :
  opt_bad ok o = false <-> forall s, o = Some s -> ok s = true.
Proof.
  destruct o as [s|]; simpl; [rewrite negb_false_iff|].
  - split; [by intros H ? [= <-]|auto].
  - split; [discriminate|done].
Qed.

Lemma class_check_ok (a : Authorization) (e1 e2 : auth_error) :
  match class a with
  | Native => if negb (starts_with "native_" (principal_id a)) then Err e1 else Ok tt
  | Compatibility => if negb (starts_with "ext_" (principal_id a)) then Err e2 else Ok tt
  end = Ok tt <->
  starts_with (match class a with Native => "native_" | Compatibility => "ext_" end)
    (principal_id a) = true.
Proof. by destruct (class a), (starts_with _ _). Qed.

Lemma validate_item_ok a : validate_item a = Ok tt <-> item_ok a.
Proof.
  unfold validate_item. split.
  - intros H.
    destruct (validate_principal_id _) as [[]|] eqn:E1; cbn [result_bind] in H; [|discriminate].
    destruct (validate_credential_id _) as [[]|] eqn:E2; cbn [result_bind] in H; [|discriminate].
    match type of H with result_bind ?r _ = _ => destruct r as [[]|] eqn:E3 end;
      cbn [result_bind] in H; [|discriminate].
    apply class_check_ok in E3.
    destruct (checked_sub_i64 _ _) as [lt|] eqn:E4; cbn [ok_or result_bind] in H; [|discriminate].
    apply checked_sub_i64_Some in E4 as [-> E4].
    split; auto. intros Er. rewrite Er in H.
    destruct (_ <=? 0) eqn:E5; [discriminate|].
    destruct (match vless_uuid a with Some _ => _ | None => _ end) eqn:E6; [discriminate|].
    destruct (opt_bad valid_vless_uuid _) eqn:E7; [discriminate|].
    destruct (opt_bad valid_hysteria2_password _) eqn:E8; [discriminate|].
    rewrite opt_bad_false in E7, E8. apply Z.leb_gt in E5.
    split; [lia|]. split; [|split; [done|split; [done|]]].
    + destruct (vless_uuid a), (hysteria2_password a); try discriminate; auto.
    + destruct (class a); case_if; try discriminate; apply Z.ltb_ge; done.
  - intros [H1 H2 H3 H4 H5]. rewrite H1, H2. cbn [result_bind].
    rewrite (proj2 (class_check_ok a NativeNeedsNativePrincipal CompatNeedsExtPrincipal) H3).
    cbn [result_bind]. unfold checked_sub_i64. rewrite H4. cbn [ok_or result_bind].
    destruct (revoked a); [done|]. destruct (H5 eq_refl) as (Ha & Hb & Hc & Hd & He).
    replace (_ <=? 0) with false by lia.
    replace (match vless_uuid a with Some _ => _ | None => _ end) with false
      by (destruct (vless_uuid a), (hysteria2_password a), Hb; done).
    rewrite <- opt_bad_false in Hc, Hd. rewrite Hc, Hd.
    destruct (class a); by replace (_ <? _) with false by lia.
Qed.

Lemma validate_items_ok ids s :
  validate_items ids s = Ok tt <->
  (forall a, In a s -> item_ok a) /\ List.NoDup (map credential_id s)
  /\ forall a, In a s -> ~ In (credential_id a) ids.
Proof.
  revert ids; induction s as [|a s IH]; intros ids; simpl.
  - split; [|done]. intros _. split; [by intros ? []|]. split; [constructor|by intros ? []].
  - destruct (validate_item a) as [[]|] eqn:E; simpl.
    2:{ split; [discriminate|]. intros (H & _). specialize (H a (or_introl eq_refl)).
        apply validate_item_ok in H. congruence. }
    apply validate_item_ok in E.
    destruct (existsb _ ids) eqn:Ex.
    + split; [discriminate|]. intros (_ & _ & H). exfalso.
      apply existsb_exists in Ex as (x & Hx & Heq). apply String.eqb_eq in Heq. subst.
      by apply (H a (or_introl eq_refl)).
    + rewrite existsb_false_iff in Ex. rewrite IH. split.
      * intros (H1 & H2 & H3). split; [intros b [<-|?]; auto|]. split.
        -- constructor; [|done]. rewrite in_map_iff. intros (b & Hb & Hin).
           apply (H3 b Hin). left. done.
        -- intros b [<-|Hb] Hin.
           ++ specialize (Ex _ Hin). by rewrite String.eqb_refl in Ex.
           ++ apply (H3 b Hb). by right.
      * intros (H1 & H2 & H3). inversion H2; subst. split; [auto|]. split; [done|].
        intros b Hb [Heq|Hin]; [|by apply (H3 b (or_intror Hb))].
        apply H4. rewrite Heq. by apply in_map.
Qed.

Lemma validate_items_of s : validate s = Ok tt ->
  (forall a, In a s -> item_ok a) /\ List.NoDup (map credential_id s).
Proof.
  unfold validate. intros H. destruct (validate_items [] s) as [[]|] eqn:E; [|discriminate].
  apply validate_items_ok in E. tauto.
Qed.

Lemma validate_id_prefix v p f : validate_id v [p] f = Ok tt -> starts_with p v = true.
Proof.
  unfold validate_id. simpl. intros H. destruct (starts_with p v); [done|]. discriminate.
Qed.

(** ** The sweep decides simultaneity *)

(** Credentials of the list active at [t]. *)
Definition active_count (t : Z) (l : list Authorization) : Z :=
  Z.of_nat (length (List.filter (fun a => is_active_at a t) l)).

(** The net number of starts over ends up to and including [t]. *)
Definition net (t : Z) (evs : list event) : Z :=
  foldr (fun e acc => (if e.1 <=? t then e.2 else 0) + acc) 0 evs.

Lemma net_perm t e1 e2 : Permutation e1 e2 -> net t e1 = net t e2.
Proof. unfold net. induction 1; simpl; lia. Qed.

Lemma net_events t l :
  (forall a, In a l -> revoked a = false /\ valid_from a < valid_until a) ->
  net t (events_of l) = active_count t l.
Proof.
  unfold active_count. induction l as [|a l IH]; intros H; [done|].
  assert (IH' := IH (fun b Hb => H b (or_intror Hb))). clear IH.
  destruct (H a (or_introl eq_refl)) as [Hr Hlt].
  cbn [events_of flat_map app net foldr List.filter fst snd].
  fold (events_of l). fold (net t (events_of l)). rewrite IH'.
  unfold is_active_at at 2. rewrite Hr. cbn [negb andb].
  destruct (valid_from a <=? t) eqn:E1, (t <? valid_until a) eqn:E2,
    (valid_until a <=? t) eqn:E3; cbn [andb length]; b2p; lia.
Qed.

Lemma ev_leb_total a b : ev_leb a b = false -> ev_leb b a = true.
Proof. unfold ev_leb; destruct a, b; simpl. lia. Qed.
Lemma ev_leb_trans a b c : ev_leb a b = true -> ev_leb b c = true -> ev_leb a c = true.
Proof. unfold ev_leb; destruct a, b, c; simpl. lia. Qed.

Lemma net_before t x d rest :
  Forall (fun b => ev_leb (x, d) b = true) rest -> t < x -> net t rest = 0.
Proof.
  induction 1 as [|[y e] rest Hy _ IH]; intros Ht; [done|]. cbn [net foldr fst snd].
  fold (net t rest). rewrite IH by done. unfold ev_leb in Hy; simpl in Hy.
  replace (y <=? t) with false by lia. lia.
Qed.

Lemma net_at_start x rest :
  Forall (fun b => ev_leb (x, 1) b = true) rest -> 0 <= net x rest.
Proof.
  induction 1 as [|[y e] rest Hy _ IH]; [done|]. cbn [net foldr fst snd].
  fold (net x rest). unfold ev_leb in Hy; simpl in Hy.
  destruct (y <=? x) eqn:E; lia.
Qed.

Lemma sweep_spec evs : forall a,
  StronglySorted (fun a b => ev_leb a b = true) evs ->
  (forall e, In e evs -> e.2 = 1 \/ e.2 = -1) -> a <= 2 ->
  sweep a evs = true <-> forall t, a + net t evs <= 2.
Proof.
  induction evs as [|[x d] rest IH]; intros a Hs Hd Ha.
  - split; [intros _ t; simpl; lia|done].
  - inversion Hs as [|? ? Hs' Hx]; subst. assert (Hd' := Hd _ (or_introl eq_refl)). simpl in Hd'.
    assert (Hrest : forall e, In e rest -> e.2 = 1 \/ e.2 = -1) by (intros; apply Hd; by right).
    assert (Hnet : forall t, net t ((x, d) :: rest) = (if x <=? t then d else 0) + net t rest) by done.
    cbn [sweep]. destruct (2 <? a + d) eqn:E; b2p.
    + split; [done|]. intros H. specialize (H x). rewrite Hnet, Z.leb_refl in H.
      replace d with 1 in * by lia. pose proof (net_at_start _ _ Hx). lia.
    + rewrite IH by (done || lia). split; intros H t; specialize (H t); rewrite Hnet in *;
        destruct (x <=? t) eqn:Et; try lia;
        apply Z.leb_gt in Et; pose proof (net_before t x d rest Hx Et); lia.
Qed.

Lemma events_delta l e : In e (events_of l) -> e.2 = 1 \/ e.2 = -1.
Proof.
  unfold events_of. rewrite in_flat_map. intros (a & _ & [<-|[<-|[]]]); simpl; auto.
Qed.

(** The sorted-event sweep accepts a principal's credentials exactly when no
    instant has three of them active. *)
Lemma sweep_decides_simultaneity l :
  (forall a, In a l -> revoked a = false /\ valid_from a < valid_until a) ->
  sweep 0 (sort_stable ev_leb (events_of l)) = true <-> forall t, active_count t l <= 2.
Proof.
  intros H. rewrite sweep_spec; [|by apply sort_stable_sorted; [apply ev_leb_total|apply ev_leb_trans]| |lia].
  - setoid_rewrite <- (net_perm _ _ _ (sort_stable_perm ev_leb (events_of l))).
    setoid_rewrite (net_events _ _ H). done.
  - intros e He. apply In_sort_stable in He. by apply events_delta in He.
Qed.

(** ** Set-level specification *)

(** Timestamps for which no window arithmetic leaves [i64]. *)
Definition sane (a : Authorization) : Prop :=
  - 2 ^ 61 <= valid_from a <= 2 ^ 61 /\ - 2 ^ 61 <= valid_until a <= 2 ^ 61.

Definition true_overlap (a b : Authorization) : Z :=
  Z.min (valid_until a) (valid_until b) - Z.max (valid_from a) (valid_from b).

Lemma overlap_true a b : sane a -> sane b -> overlap a b = true_overlap a b.
Proof.
  intros [] []. unfold overlap. apply wrap_i64_id.
  unfold in_i64, i64_min, i64_max, true_overlap. apply andb_true_iff; split; apply Z.leb_le; lia.
Qed.

Lemma true_overlap_comm a b : true_overlap a b = true_overlap b a.
Proof. unfold true_overlap. lia. Qed.

Lemma check_overlaps_ok l :
  (forall a, In a l -> sane a) -> List.NoDup (map credential_id l) ->
  check_overlaps l = Ok tt <->
  forall a b, In a l -> In b l -> credential_id a <> credential_id b ->
    true_overlap a b <= MAX_OVERLAP_SECS.
Proof.
  induction l as [|x l IH]; intros Hs Hnd; simpl; [split; [intros _ ? ? []|done]|].
  inversion Hnd as [|? ? Hx Hnd']; subst. assert (Hsx := Hs x (or_introl eq_refl)).
  assert (Hsl : forall a, In a l -> sane a) by (intros a Ha; apply Hs; by right).
  assert (Hl : forall b, In b l -> credential_id x <> credential_id b).
  { intros b Hb E. apply Hx. rewrite E. by apply in_map. }
  match goal with |- context [for_each ?f l] => pose proof (for_each_ok f l) as Hf;
    destruct (for_each f l) as [[]|e] end; cbn [result_bind].
  - rewrite IH by auto. destruct Hf as [Hf _]. specialize (Hf eq_refl). split; [|auto].
    assert (Hxb : forall b, In b l -> true_overlap x b <= MAX_OVERLAP_SECS).
    { intros b Hb. specialize (Hf b Hb). case_if; [discriminate|].
      rewrite overlap_true in * by auto. b2p. lia. }
    intros H a b [<-|Ha] [<-|Hb] Hne; auto; [done|]. rewrite true_overlap_comm. auto.
  - split; [discriminate|]. intros H. enough (Err e = Ok tt) by done. apply Hf.
    intros b Hb. rewrite overlap_true by auto. specialize (H x b (or_introl eq_refl) (or_intror Hb)).
    destruct (_ <? _) eqn:E; [|done]. b2p. specialize (H (Hl b Hb)). lia.
Qed.

Lemma of_principal_In s p a :
  In a (of_principal s p) <-> In a s /\ principal_id a = p /\ revoked a = false.
Proof.
  unfold of_principal. rewrite In_filterb, andb_true_iff, String.eqb_eq, negb_true_iff. done.
Qed.

Lemma NoDup_map_filter {A B} (f : A -> B) (g : A -> bool) l :
  List.NoDup (map f l) -> List.NoDup (map f (List.filter g l)).
Proof.
  induction l as [|x l IH]; simpl; [done|]. intros H; inversion H; subst.
  destruct (g x); simpl; [|auto]. constructor; [|auto].
  rewrite in_map_iff. intros (y & E & Hy). apply In_filterb in Hy as [Hy _].
  apply H2. rewrite <- E. by apply in_map.
Qed.

(** What [validate_set] and [validate] promise of a snapshot. *)
Record snapshot_ok (s : AuthorizationSet) : Prop := {
  sok_items : forall a, In a s -> item_ok a;
  sok_unique : List.NoDup (map credential_id s);
  sok_overlap : forall a b, In a s -> In b s -> credential_id a <> credential_id b ->
    principal_id a = principal_id b -> revoked a = false -> revoked b = false ->
    true_overlap a b <= MAX_OVERLAP_SECS;
  sok_simultaneous : forall p t, active_count t (of_principal s p) <= 2 }.

Lemma active_count_nil t : active_count t [] = 0.
Proof. done. Qed.

Lemma of_principal_absent s p : ~ In p (map principal_id s) -> of_principal s p = [].
Proof.
  intros H. destruct (of_principal s p) as [|a l] eqn:E; [done|].
  assert (Ha : In a (of_principal s p)) by (rewrite E; by left).
  apply of_principal_In in Ha as (Hin & Hp & _). exfalso. apply H. rewrite <- Hp. by apply in_map.
Qed.

Lemma validate_snapshot s :
  (forall a, In a s -> sane a) ->
  validate s = Ok tt <-> snapshot_ok s.
Proof.
  intros Hsane. unfold validate.
  assert (Hin : forall p a, In a (of_principal s p) -> In a s)
    by (intros p a Ha; apply of_principal_In in Ha; tauto).
  assert (Hnd : List.NoDup (map credential_id s) ->
    forall p, List.NoDup (map credential_id (of_principal s p)))
    by (intros H p; by apply NoDup_map_filter).
  assert (Hlive : (forall a, In a s -> item_ok a) -> forall p a, In a (of_principal s p) ->
    revoked a = false /\ valid_from a < valid_until a).
  { intros H p a Ha. apply of_principal_In in Ha as (Ha & _ & Hr). split; [done|].
    by apply (iok_live _ (H a Ha)). }
  split.
  - intros H. destruct (validate_items [] s) as [[]|] eqn:E; cbn [result_bind] in H; [|discriminate].
    apply validate_items_ok in E as (H1 & H2 & _). unfold validate_set in H. rewrite for_each_ok in H.
    assert (Hp : forall p, In p (map principal_id s) -> check_overlaps (of_principal s p) = Ok tt
      /\ sweep 0 (sort_stable ev_leb (events_of (of_principal s p))) = true).
    { intros p Hp. apply In_btree_set in Hp. specialize (H p Hp). simpl in H.
      destruct (check_overlaps _) as [[]|]; simpl in H; [|discriminate]. by destruct (sweep _ _). }
    split; [done|done| |].
    + intros a b Ha Hb Hne Hpr Hra Hrb. destruct (Hp (principal_id a) (in_map _ _ _ Ha)) as [Hc _].
      rewrite check_overlaps_ok in Hc by eauto. apply Hc; auto; apply of_principal_In; auto.
    + intros p t. destruct (in_dec String.string_dec p (map principal_id s)) as [Hi|Hi].
      * destruct (Hp p Hi) as [_ Hw]. rewrite sweep_decides_simultaneity in Hw by eauto. done.
      * by rewrite of_principal_absent.
  - intros [H1 H2 H3 H4].
    rewrite (proj2 (validate_items_ok [] s)) by (split; [done|split; [done|by intros ? ? []]]).
    cbn [result_bind]. apply for_each_ok. intros p _. cbv zeta.
    rewrite (proj2 (check_overlaps_ok (of_principal s p) ltac:(eauto) ltac:(eauto))).
    + cbn [result_bind]. by rewrite (proj2 (sweep_decides_simultaneity _ (Hlive H1 p))).
    + intros a b Ha Hb Hne. apply of_principal_In in Ha as (? & ? & ?), Hb as (? & ? & ?).
      apply H3; auto; congruence.
Qed.

(** C19: [AuthorizationSet::validate] accepts a snapshot exactly when every
    item is individually valid, credential ids are unique, no two live
    credentials of one principal overlap by more than 48 hours, and at no
    instant are more than two credentials of one principal active: the
    pairwise loops and the sorted start/end sweep decide that specification. *)
Theorem validate_iff_snapshot_ok s :
  (forall a, In a s -> sane a) ->
  validate s = Ok tt <-> snapshot_ok s.
Proof. apply validate_snapshot. Qed.

(** ** The active view *)

Lemma auth_leb_total a b : auth_leb a b = false -> auth_leb b a = true.
Proof.
  unfold auth_leb. rewrite (String.eqb_sym (principal_id b)).
  destruct (String.eqb _ _); apply str_leb_total.
Qed.

Lemma auth_leb_trans a b c :
  auth_leb a b = true -> auth_leb b c = true -> auth_leb a c = true.
Proof.
  unfold auth_leb.
  destruct (String.eqb_spec (principal_id a) (principal_id b)) as [E1|N1],
    (String.eqb_spec (principal_id b) (principal_id c)) as [E2|N2]; intros H1 H2.
  - rewrite E1, E2, String.eqb_refl. by eapply str_leb_trans.
  - rewrite E1. by destruct (String.eqb_spec (principal_id b) (principal_id c)).
  - rewrite <- E2. by destruct (String.eqb_spec (principal_id a) (principal_id b)).
  - destruct (String.eqb_spec (principal_id a) (principal_id c)) as [E|N].
    + exfalso. apply N1. apply str_leb_antisym; [done|]. by rewrite E.
    + by eapply str_leb_trans.
Qed.

Lemma auth_leb_antisym a b :
  auth_leb a b = true -> auth_leb b a = true -> credential_id a = credential_id b.
Proof.
  unfold auth_leb. rewrite (String.eqb_sym (principal_id b)).
  destruct (String.eqb_spec (principal_id a) (principal_id b)) as [E|N]; intros H1 H2.
  - by apply str_leb_antisym.
  - destruct N. by apply str_leb_antisym.
Qed.

Lemma In_active_at s now a :
  In a (active_at s now) <->
  In a s /\ revoked a = false /\ valid_from a <= now < valid_until a.
Proof.
  unfold active_at. rewrite In_sort_stable, In_filterb. unfold is_active_at.
  rewrite !andb_true_iff, negb_true_iff, Z.leb_le, Z.ltb_lt. tauto.
Qed.

Lemma Permutation_filterb {A} (f : A -> bool) l l' :
  Permutation l l' -> Permutation (List.filter f l) (List.filter f l').
Proof.
  induction 1; simpl; repeat case_if; eauto using Permutation.
Qed.

(** The view every render and restart uses is exactly the credentials that
    are not revoked and whose half-open window [[valid_from, valid_until)]
    contains the instant, and it does not depend on the order in which the
    snapshot lists them. *)
Theorem active_at_exact s s' now :
  List.NoDup (map credential_id s) -> Permutation s s' ->
  active_at s now = active_at s' now
  /\ (forall a, In a (active_at s now) <->
       In a s /\ revoked a = false /\ valid_from a <= now < valid_until a).
Proof.
  intros Hnd Hp. split; [|intros; apply In_active_at].
  eapply StronglySorted_unique_strong.
  2,3: apply sort_stable_sorted; [apply auth_leb_total|apply auth_leb_trans].
  - intros x y Hx Hy H1 H2. rewrite list_elem_of_In in Hx, Hy.
    apply In_active_at in Hx as [Hx _], Hy as [Hy _].
    eapply NoDup_map_inj; [exact Hnd|done| |by apply auth_leb_antisym].
    by eapply Permutation_in; [symmetry; exact Hp|].
  - unfold active_at. rewrite <- !sort_stable_perm. by apply Permutation_filterb.
Qed.

(** ** Native renewal *)

(** The record [find] selects: the first with the id. *)
Definition lookup_cred (s : AuthorizationSet) (cid : string) : option Authorization :=
  List.find (fun a => String.eqb (credential_id a) cid) s.

Lemma renew_native_cases s cid now :
  match lookup_cred s cid with
  | None => renew_native s cid now = (s, Err CredentialNotFound)
  | Some item =>
      exists pre post, s = pre ++ item :: post /\
      renew_native s cid now =
        if negb (class_eqb (class item) Native) || revoked item || negb (is_active_at item now)
        then (s, Err NotActiveNativeLease)
        else match checked_add_i64 now NATIVE_LEASE_SECS with
             | None => (pre ++ with_window item now (valid_until item) :: post, Err RenewalOverflow)
             | Some until => (pre ++ with_window item now until :: post, Ok tt)
             end
  end.
Proof.
  unfold lookup_cred. induction s as [|a s IH]; simpl; [done|].
  destruct (String.eqb (credential_id a) cid) eqn:E.
  - exists [], s. split; [done|]. by repeat case_scrut.
  - destruct (List.find _ s) as [item|].
    + destruct IH as (pre & post & -> & Hr). exists (a :: pre), post. split; [done|].
      rewrite Hr. by repeat case_scrut.
    + by rewrite IH.
Qed.

Lemma renewed_item_ok a now until :
  item_ok a -> class a = Native -> until = now + NATIVE_LEASE_SECS ->
  is_active_at a now = true -> item_ok (with_window a now until).
Proof.
  intros [H1 H2 H3 H4 H5] Hc -> Ha. unfold is_active_at in Ha. b2p.
  destruct H5 as (_ & Hs & Hu & Hp & _); [done|].
  split; cbn [with_window principal_id credential_id class valid_from valid_until revoked vless_uuid
    hysteria2_password]; auto.
  - unfold NATIVE_LEASE_SECS. replace (now + 30 * 60 - now) with 1800 by lia. done.
  - intros _. rewrite Hc. unfold NATIVE_LEASE_SECS. repeat split; auto; lia.
Qed.

(** A successful [renew_native] moves the window of one credential, a live
    native lease that was active at [now], to exactly [[now, now + 30 min)]
    and changes nothing else: every secret, id and other record stays as it
    was, every item stays individually valid, and the credential is active
    after the renewal. *)
Theorem renew_native_ok s cid now s' :
  (forall a, In a s -> item_ok a) -> renew_native s cid now = (s', Ok tt) ->
  exists pre item post,
    s = pre ++ item :: post /\ credential_id item = cid /\ class item = Native
    /\ is_active_at item now = true
    /\ s' = pre ++ with_window item now (now + NATIVE_LEASE_SECS) :: post
    /\ is_active_at (with_window item now (now + NATIVE_LEASE_SECS)) now = true
    /\ (forall a, In a s' -> item_ok a)
    /\ map credential_id s' = map credential_id s.
Proof.
  intros Hok H. pose proof (renew_native_cases s cid now) as Hc.
  destruct (lookup_cred s cid) as [item|] eqn:El; [|congruence].
  destruct Hc as (pre & post & -> & Hr). rewrite Hr in H. clear Hr.
  apply List.find_some in El as [Hin Hcid]. apply String.eqb_eq in Hcid.
  destruct (_ || negb (is_active_at item now)) eqn:E; [discriminate|].
  apply orb_false_iff in E as [E Eact]. apply orb_false_iff in E as [Ecl Erev].
  apply negb_false_iff in Eact, Ecl. assert (Hcls : class item = Native) by (by destruct (class item)).
  destruct (checked_add_i64 _ _) as [u|] eqn:Eadd; [|discriminate]. injection H as <-.
  apply checked_add_i64_Some in Eadd as [-> _].
  exists pre, item, post. repeat (split; [done|]). split; [|split].
  - unfold is_active_at, NATIVE_LEASE_SECS. simpl. rewrite Erev. simpl. lia.
  - intros a Ha. apply in_app_iff in Ha as [Ha|[<-|Ha]].
    + apply Hok, in_app_iff; auto.
    + by apply renewed_item_ok; auto.
    + apply Hok, in_app_iff. right. by right.
  - by rewrite !map_app.
Qed.

(** ** Witnesses *)

Definition ex_auth (cid : string) (cls : CredentialClass) (from until : Z) : Authorization :=
  {| principal_id := match cls with Native => "native_opaque001" | Compatibility => "ext_opaque001" end;
     credential_id := cid; class := cls; valid_from := from; valid_until := until; revoked := false;
     vless_uuid := Some "00000000-0000-4000-8000-000000000001"; hysteria2_password := None |}.
Definition ex_set : AuthorizationSet :=
  [ex_auth "cred_opaque002" Compatibility 100 200000; ex_auth "cred_opaque001" Compatibility 100 170000;
   ex_auth "cred_opaque003" Native 1000 2000].

Lemma validate_iff_snapshot_ok_witness :
  (validate ex_set = Ok tt -> snapshot_ok ex_set) /\ validate ex_set = Ok tt.
Proof.
  split; [|vm_compute; reflexivity]. apply validate_iff_snapshot_ok.
  intros a [<-|[<-|[<-|[]]]]; unfold sane; simpl; lia.
Defined.

Lemma active_at_exact_witness :
  active_at ex_set 1500 = active_at (rev ex_set) 1500
  /\ map credential_id (active_at ex_set 1500) = ["cred_opaque001"; "cred_opaque002"; "cred_opaque003"].
Proof.
  split; [|vm_compute; reflexivity]. apply active_at_exact.
  - repeat constructor; simpl; intuition discriminate.
  - apply Permutation_rev.
Defined.

Lemma renew_native_ok_witness :
  exists pre item post, ex_set = pre ++ item :: post /\ credential_id item = "cred_opaque003".
Proof.
  destruct (renew_native_ok ex_set "cred_opaque003" 1500
    (firstn 2 ex_set ++ [ex_auth "cred_opaque003" Native 1500 3300])) as (pre & item & post & H1 & H2 & _).
  - intros a [<-|[<-|[<-|[]]]]; apply validate_item_ok; vm_compute; reflexivity.
  - vm_compute. reflexivity.
  - exists pre, item, post. auto.
Defined.

End Authz.
