(* ===== verification/Credentials.v ===== *)
(** * crates/compat-config/src/credentials.rs

    Generation and shape checks of credential material.  The operating-system
    random generator is an argument (the bytes it filled in); [hex::encode],
    [base64], SHA-256 and X25519 are parameters. *)

From S2P Require Import Prelude Strs Authorization.
From Stdlib Require Import Ascii.

Module Creds.

(** [model::CredentialClass] *)
Inductive CredentialClass := Native | Compatibility.

#[global] Instance CredentialClass_eq_dec : EqDecision CredentialClass.
Proof. solve_decision. Defined.

Definition class_eqb (a b : CredentialClass) : bool := bool_decide (a = b).

Definition principal_prefix (self : CredentialClass) : string :=
  match self with Native => "native_" | Compatibility => "ext_" end.

(** ** [format!("{:02x}")] *)

Definition hex_digit (n : Z) : ascii :=
  ascii_of_N (Z.to_N (if n <? 10 then 48 + n else 87 + n)).
Definition hex2 (b : Z) : string :=
  String (hex_digit (b / 16)) (String (hex_digit (b mod 16)) EmptyString).
Definition hex_bytes (l : list Z) : string := foldr (fun b s => hex2 b +:+ s) EmptyString l.

(** ** Generators *)

(** [bytes] is what [OsRng.fill_bytes] left in the 16-byte buffer. *)
Definition mask_version (bytes : list Z) : list Z :=
  let bytes := <[6%nat := Z.lor (Z.land (nth 6 bytes 0) 0x0f) 0x40]> bytes in
  <[8%nat := Z.lor (Z.land (nth 8 bytes 0) 0x3f) 0x80]> bytes.

Definition slice (l : list Z) (a n : nat) : list Z := take n (drop a l).

Definition generate_uuid_v4 (bytes : list Z) : string :=
  let bytes := mask_version bytes in
  hex_bytes (slice bytes 0 4) +:+ String "-" (hex_bytes (slice bytes 4 2) +:+
  String "-" (hex_bytes (slice bytes 6 2) +:+ String "-" (hex_bytes (slice bytes 8 2) +:+
  String "-" (hex_bytes (slice bytes 10 6))))).

Definition generate_user_id (bytes : list Z) : string := "user_" +:+ generate_uuid_v4 bytes.
Definition generate_native_principal_id (bytes : list Z) : string :=
  "native_" +:+ remove_char "-" (generate_uuid_v4 bytes).
Definition generate_credential_id (bytes : list Z) : string :=
  "cred_" +:+ remove_char "-" (generate_uuid_v4 bytes).

Section Generators.
Context (hex_encode : list Z -> string).

(** 12 random bytes. *)
Definition generate_principal_id (class : CredentialClass) (bytes : list Z) : string :=
  principal_prefix class +:+ hex_encode bytes.
(** 24 random bytes each. *)
Definition generate_hysteria2_password (bytes : list Z) : string := hex_encode bytes.
Definition generate_hysteria2_obfs_password (bytes : list Z) : string := hex_encode bytes.
(** 4 random bytes. *)
Definition generate_short_id (bytes : list Z) : string := hex_encode bytes.
End Generators.

(** ** Shape checks *)

Inductive cred_error :=
| WrongPrefix (principal : string) (prefix : string)
| WrongSuffixLength (principal : string) (len : Z)
| NotHexadecimal (principal : string)
| ShortIdEmpty | ShortIdTooLong (len : Z) | ShortIdNotHex
| PublicKeyEmpty | PublicKeyNotBase64 | PublicKeyLength (len : Z)
| PrivateKeyNotBase64 | PrivateKeyLength (len : Z)
| KeypairMismatch.

Definition validate_principal_id (principal_id : string) (class : CredentialClass)
  : result unit cred_error :=
  let prefix := principal_prefix class in
  match strip_prefix prefix principal_id with
  | None => Err (WrongPrefix principal_id prefix)
  | Some suffix =>
      if negb (slen suffix =? 24) then Err (WrongSuffixLength principal_id (slen suffix)) else
      if negb (str_all is_ascii_hexdigit suffix) then Err (NotHexadecimal principal_id) else Ok tt
  end.

(** [zip] stops at the shorter list; the length test comes first. *)
Definition is_uuid_v4_shaped (value : string) : bool :=
  let groups := split_on "-" value in
  (length groups =? 5)%nat
  && forallb (fun '(g, len) => (slen g =? len) && str_all is_ascii_hexdigit g)
       (zip groups [8; 4; 4; 4; 12]).

Definition validate_reality_short_id (short_id : string) : result unit cred_error :=
  let trimmed := trim short_id in
  if str_is_empty trimmed then Err ShortIdEmpty else
  if 8 <? slen trimmed then Err (ShortIdTooLong (slen trimmed)) else
  if negb (str_all is_ascii_hexdigit trimmed) then Err ShortIdNotHex else Ok tt.

(** Constant-time comparison: equal lengths, then equal bytes. *)
Definition token_hash_eq (computed stored : string) : bool :=
  if negb (slen computed =? slen stored) then false else String.eqb computed stored.

Section Keys.
(** [URL_SAFE_NO_PAD] decoding and encoding, SHA-256 + hex, and the clamped
    X25519 base-point multiplication. *)
Context (b64_decode : string -> option (list Z)) (b64_encode : list Z -> string).
Context (sha256_hex : string -> string) (mul_base_clamped : list Z -> list Z).

Definition generate_subscription_token (bytes : list Z) : string := b64_encode bytes.
Definition hash_token (token : string) : string := sha256_hex token.
Definition verify_token (token stored : string) : bool := token_hash_eq (hash_token token) stored.

Definition derive_reality_public_key (private_key : string) : result string cred_error :=
  let? decoded := ok_or (b64_decode (trim private_key)) PrivateKeyNotBase64 in
  if negb (Z.of_nat (length decoded) =? 32) then Err (PrivateKeyLength (Z.of_nat (length decoded)))
  else Ok (b64_encode (mul_base_clamped decoded)).

Definition validate_reality_public_key_shape (public_key : string) : result unit cred_error :=
  if str_is_empty (trim public_key) then Err PublicKeyEmpty else
  let? decoded := ok_or (b64_decode (trim public_key)) PublicKeyNotBase64 in
  if negb (Z.of_nat (length decoded) =? 32) then Err (PublicKeyLength (Z.of_nat (length decoded)))
  else Ok tt.

Definition validate_reality_keypair (private_key public_key : string) : result unit cred_error :=
  let? _ := validate_reality_public_key_shape public_key in
  let? derived := derive_reality_public_key private_key in
  if String.eqb derived (trim public_key) then Ok tt else Err KeypairMismatch.
End Keys.

(** ** Hex output *)

Definition is_bytes (l : list Z) : Prop := Forall (fun b => 0 <= b < 256) l.

(** Lower-case hexadecimal characters. *)
Definition is_lower_hex (c : ascii) : bool := is_ascii_digit c || in_range 97 102 c.

Lemma hex_digit_lower n : 0 <= n < 16 -> is_lower_hex (hex_digit n) = true.
Proof.
  intros H. assert (Hn : In n (map Z.of_nat (seq 0 16))).
  { apply in_map_iff. exists (Z.to_nat n). rewrite in_seq. lia. }
  refine (proj1 (forallb_forall (fun n => is_lower_hex (hex_digit n)) _) _ n Hn). reflexivity.
Qed.

Lemma hex_bytes_spec l : is_bytes l ->
  str_all is_lower_hex (hex_bytes l) = true /\ slen (hex_bytes l) = 2 * Z.of_nat (length l).
Proof.
  induction 1 as [|b l Hb _ [IH1 IH2]]; [done|]. cbn [hex_bytes foldr]. fold (hex_bytes l).
  rewrite str_all_app, slen_app, IH1, IH2, andb_true_r. split.
  - unfold hex2, str_all. simpl. rewrite !hex_digit_lower; [done|..].
    + apply Z.mod_pos_bound; lia.
    + split; [apply Z.div_pos; lia|apply Z.div_lt_upper_bound; lia].
  - change (slen (hex2 b)) with 2. cbn [length]. lia.
Qed.

Lemma lower_hex_hexdigit c : is_lower_hex c = true -> is_ascii_hexdigit c = true.
Proof. unfold is_lower_hex, is_ascii_hexdigit. intros ->. done. Qed.

Lemma hexdigit_not_dash c : is_ascii_hexdigit c = true -> negb (Ascii.eqb c "-") = true.
Proof.
  assert (H : implb (is_ascii_hexdigit c) (negb (Ascii.eqb c "-")) = true)
    by (by_bytes (fun c => implb (is_ascii_hexdigit c) (negb (Ascii.eqb c "-")))).
  intros E. by rewrite E in H.
Qed.

Lemma hexdigit_id_char c : is_ascii_hexdigit c = true -> Authz.id_char c = true.
Proof. intros H. unfold Authz.id_char. by rewrite (hexdigit_alphanumeric c H). Qed.

(** ** The two UUID shape checks *)

(** Both are this decomposition. *)
Definition uuid_groups (s : string) (g : list string) : Prop :=
  s = join_on "-" g /\ map slen g = [8; 4; 4; 4; 12]
  /\ Forall (fun w => str_all is_ascii_hexdigit w = true) g.

Lemma split_on_join_hex g : g <> [] -> Forall (fun w => str_all is_ascii_hexdigit w = true) g ->
  split_on "-" (join_on "-" g) = g.
Proof.
  intros Hne Hf. induction Hf as [|w [|w' ws] Hw Hf IH]; [done| |].
  - apply split_on_no_sep. by eapply str_all_impl; [apply hexdigit_not_dash|].
  - change (join_on "-" (w :: w' :: ws)) with (w +:+ String "-" (join_on "-" (w' :: ws))).
    rewrite split_on_app by (by eapply str_all_impl; [apply hexdigit_not_dash|]).
    by rewrite IH.
Qed.

Lemma is_uuid_v4_shaped_iff s : is_uuid_v4_shaped s = true <-> exists g, uuid_groups s g.
Proof.
  unfold is_uuid_v4_shaped, uuid_groups. split.
  - intros H. exists (split_on "-" s). rewrite join_split. split; [done|].
    apply andb_true_iff in H as [Hl Ha]. apply Nat.eqb_eq in Hl.
    destruct (split_on "-" s) as [|a [|b [|c [|d [|e [|]]]]]]; try discriminate Hl.
    simpl in Ha. rewrite !andb_true_iff, !Z.eqb_eq in Ha. simpl.
    destruct Ha as ([-> ?] & [-> ?] & [-> ?] & [-> ?] & [-> ?] & _). split; [done|]. by repeat constructor.
  - intros (g & -> & Hl & Hf). rewrite split_on_join_hex; [|by intros ->|done].
    destruct g as [|a [|b [|c [|d [|e [|]]]]]]; try discriminate Hl.
    injection Hl as Ha Hb Hc Hd He. rewrite !Forall_cons in Hf.
    destruct Hf as (Fa & Fb & Fc & Fd & Fe & _).
    cbn [length Nat.eqb zip zip_with forallb andb]. by rewrite Ha, Hb, Hc, Hd, He, Fa, Fb, Fc, Fd, Fe.
Qed.

Definition uuid_dash (i : Z) : bool := (i =? 8) || (i =? 13) || (i =? 18) || (i =? 23).

Lemma uuid_chars_hex w s : forall i,
  (forall k, i <= k < i + slen w -> uuid_dash k = false) ->
  Authz.uuid_chars i (w +:+ s) = str_all is_ascii_hexdigit w && Authz.uuid_chars (i + slen w) s.
Proof.
  induction w as [|c w IH]; intros i H.
  - by rewrite Z.add_0_r.
  - assert (Hl : slen (String c w) = 1 + slen w) by (unfold slen; simpl; lia).
    pose proof (slen_nonneg w). rewrite Hl in *.
    change (String c w +:+ s) with (String c (w +:+ s)). cbn [Authz.uuid_chars].
    fold (uuid_dash i). rewrite H by lia. rewrite IH by (intros; apply H; lia).
    unfold str_all. simpl. rewrite <- andb_assoc. by rewrite Z.add_assoc.
Qed.

Lemma uuid_chars_dash i c s : uuid_dash i = true ->
  Authz.uuid_chars i (String c s) = Ascii.eqb "-" c && Authz.uuid_chars (i + 1) s.
Proof. intros H. cbn [Authz.uuid_chars]. fold (uuid_dash i). by rewrite H. Qed.

Lemma valid_vless_uuid_groups a b c d e :
  map slen [a; b; c; d; e] = [8; 4; 4; 4; 12] ->
  Authz.uuid_chars 0 (join_on "-" [a; b; c; d; e]) =
  forallb (str_all is_ascii_hexdigit) [a; b; c; d; e].
Proof.
  intros H; injection H as Ha Hb Hc Hd He. cbn [join_on forallb].
  rewrite uuid_chars_hex by (rewrite Ha; unfold uuid_dash; intros; lia).
  rewrite uuid_chars_dash by (by rewrite Ha). rewrite Ha.
  rewrite uuid_chars_hex by (rewrite Hb; unfold uuid_dash; intros; lia).
  rewrite uuid_chars_dash by (by rewrite Hb). rewrite Hb.
  rewrite uuid_chars_hex by (rewrite Hc; unfold uuid_dash; intros; lia).
  rewrite uuid_chars_dash by (by rewrite Hc). rewrite Hc.
  rewrite uuid_chars_hex by (rewrite Hd; unfold uuid_dash; intros; lia).
  rewrite uuid_chars_dash by (by rewrite Hd). rewrite Hd.
  rewrite <- (str_app_nil_r e) at 1.
  rewrite uuid_chars_hex by (rewrite He; unfold uuid_dash; intros; lia). done.
Qed.

(** Cut after [n] bytes and at the separator that follows. *)
Lemma str_cut_sep n s : (n < String.length s)%nat ->
  exists a c b, s = a +:+ String c b /\ String.length a = n.
Proof.
  intros Hn. destruct (str_cut n s) as (a & b & -> & <-); [lia|].
  rewrite str_app_length in Hn. destruct b as [|c b]; [simpl in Hn; lia|]. by exists a, c, b.
Qed.

Lemma valid_vless_uuid_iff s : Authz.valid_vless_uuid s = true <-> exists g, uuid_groups s g.
Proof.
  unfold Authz.valid_vless_uuid, uuid_groups. split.
  - intros H. apply andb_true_iff in H as [Hl Hu]. apply Z.eqb_eq in Hl. unfold slen in Hl.
    destruct (str_cut_sep 8 s) as (a & c1 & s1 & -> & Ha); [lia|].
    rewrite str_app_length in Hl; simpl in Hl.
    destruct (str_cut_sep 4 s1) as (b & c2 & s2 & -> & Hb); [lia|].
    rewrite str_app_length in Hl; simpl in Hl.
    destruct (str_cut_sep 4 s2) as (c & c3 & s3 & -> & Hc); [lia|].
    rewrite str_app_length in Hl; simpl in Hl.
    destruct (str_cut_sep 4 s3) as (d & c4 & e & -> & Hd); [lia|].
    rewrite str_app_length in Hl; simpl in Hl.
    assert (Hlen : slen a = 8 /\ slen b = 4 /\ slen c = 4 /\ slen d = 4 /\ slen e = 12)
      by (unfold slen; lia).
    destruct Hlen as (La & Lb & Lc & Ld & Le). clear Hl Ha Hb Hc Hd.
    assert (Hdash : c1 = "-"%char /\ c2 = "-"%char /\ c3 = "-"%char /\ c4 = "-"%char).
    { rewrite uuid_chars_hex in Hu by (rewrite La; unfold uuid_dash; intros; lia).
      rewrite uuid_chars_dash in Hu by (by rewrite La). rewrite La in Hu.
      rewrite uuid_chars_hex in Hu by (rewrite Lb; unfold uuid_dash; intros; lia).
      rewrite uuid_chars_dash in Hu by (by rewrite Lb). rewrite Lb in Hu.
      rewrite uuid_chars_hex in Hu by (rewrite Lc; unfold uuid_dash; intros; lia).
      rewrite uuid_chars_dash in Hu by (by rewrite Lc). rewrite Lc in Hu.
      rewrite uuid_chars_hex in Hu by (rewrite Ld; unfold uuid_dash; intros; lia).
      rewrite uuid_chars_dash in Hu by (by rewrite Ld).
      rewrite !andb_true_iff, !Ascii.eqb_eq in Hu.
      by destruct Hu as (_ & <- & _ & <- & _ & <- & _ & <- & _). }
    destruct Hdash as (-> & -> & -> & ->).
    exists [a; b; c; d; e]. split; [done|]. simpl. rewrite La, Lb, Lc, Ld, Le. split; [done|].
    change (Authz.uuid_chars 0 (join_on "-" [a; b; c; d; e]) = true) in Hu.
    rewrite valid_vless_uuid_groups in Hu by (simpl; congruence).
    rewrite forallb_forall in Hu. apply List.Forall_forall. exact Hu.
  - intros (g & -> & Hl & Hf). destruct g as [|a [|b [|c [|d [|e [|]]]]]]; try discriminate Hl.
    rewrite valid_vless_uuid_groups by done. apply andb_true_iff. split.
    + injection Hl as Ha Hb Hc Hd He. cbn [join_on]. apply Z.eqb_eq.
      assert (Hs : forall w t, slen (w +:+ String "-" t) = slen w + (1 + slen t)).
      { intros. rewrite slen_app. unfold slen. simpl. lia. }
      rewrite !Hs. lia.
    + apply forallb_forall. by apply List.Forall_forall.
Qed.

(** The two VLESS UUID shape checks of the code base, the split-based one
    of credentials.rs and the index-based one of authorization.rs, accept
    exactly the same strings: five hexadecimal groups of 8, 4, 4, 4 and 12
    digits joined by dashes. *)
Theorem uuid_shape_checks_agree s :
  is_uuid_v4_shaped s = Authz.valid_vless_uuid s
  /\ (is_uuid_v4_shaped s = true <-> exists g, uuid_groups s g).
Proof.
  split; [|apply is_uuid_v4_shaped_iff].
  destruct (Authz.valid_vless_uuid s) eqn:E.
  - by apply is_uuid_v4_shaped_iff, valid_vless_uuid_iff.
  - destruct (is_uuid_v4_shaped s) eqn:E2; [|done].
    apply is_uuid_v4_shaped_iff, valid_vless_uuid_iff in E2. congruence.
Qed.

(** ** Generated material passes every validator *)

Lemma byte_mask b m v : 0 <= b < 256 -> 0 <= m < 256 -> 0 <= v < 256 ->
  0 <= Z.lor (Z.land b m) v < 256.
Proof.
  intros Hb Hm Hv. change 256 with (2 ^ 8) in *.
  assert (Hp : 0 <= Z.lor (Z.land b m) v) by (apply Z.lor_nonneg; split; [apply Z.land_nonneg|]; lia).
  apply Z.bounded_iff_bits_nonneg'; [lia|done|]. intros i Hi.
  rewrite Z.lor_spec, Z.land_spec.
  rewrite (proj1 (Z.bounded_iff_bits_nonneg 8 b ltac:(lia) ltac:(lia)) ltac:(lia)) by done.
  by rewrite (proj1 (Z.bounded_iff_bits_nonneg 8 v ltac:(lia) ltac:(lia)) ltac:(lia)).
Qed.

Lemma is_bytes_insert i b l : is_bytes l -> 0 <= b < 256 -> is_bytes (<[i := b]> l).
Proof. intros. by apply Forall_insert. Qed.

Lemma nth_byte i l : is_bytes l -> 0 <= nth i l 0 < 256.
Proof.
  intros H. destruct (Nat.lt_ge_cases i (length l)) as [Hi|Hi].
  - unfold is_bytes in H. rewrite List.Forall_forall in H. apply H, nth_In. done.
  - rewrite nth_overflow by done. lia.
Qed.

Lemma mask_version_bytes l : is_bytes l -> is_bytes (mask_version l) /\ length (mask_version l) = length l.
Proof.
  intros H. unfold mask_version. rewrite !length_insert. split; [|done].
  assert (H1 := byte_mask (nth 6 l 0) 0x0f 0x40 (nth_byte _ _ H) ltac:(lia) ltac:(lia)).
  assert (H2 : is_bytes (<[6%nat:=Z.lor (Z.land (nth 6 l 0) 15) 64]> l)) by (by apply is_bytes_insert).
  apply is_bytes_insert; [done|]. apply byte_mask; [by apply nth_byte|lia|lia].
Qed.

Lemma slice_hex l a n : is_bytes l -> (a + n <= length l)%nat ->
  str_all is_ascii_hexdigit (hex_bytes (slice l a n)) = true
  /\ slen (hex_bytes (slice l a n)) = 2 * Z.of_nat n.
Proof.
  intros Hb Hl. assert (Hs : is_bytes (slice l a n)) by (by apply Forall_take, Forall_drop).
  destruct (hex_bytes_spec _ Hs) as [H1 H2]. split.
  - by eapply str_all_impl; [apply lower_hex_hexdigit|].
  - rewrite H2. unfold slice. rewrite length_take, length_drop. lia.
Qed.

Lemma generate_uuid_v4_groups bytes : is_bytes bytes -> length bytes = 16%nat ->
  exists g, uuid_groups (generate_uuid_v4 bytes) g /\ length g = 5%nat.
Proof.
  intros Hb Hl. destruct (mask_version_bytes _ Hb) as [Hm Hml]. rewrite Hl in Hml.
  set (m := mask_version bytes) in *.
  exists [hex_bytes (slice m 0 4); hex_bytes (slice m 4 2); hex_bytes (slice m 6 2);
          hex_bytes (slice m 8 2); hex_bytes (slice m 10 6)].
  split; [|done]. split; [done|]. simpl map.
  assert (Hs : forall a n, (a + n <= 16)%nat ->
    str_all is_ascii_hexdigit (hex_bytes (slice m a n)) = true
    /\ slen (hex_bytes (slice m a n)) = 2 * Z.of_nat n) by (intros; apply slice_hex; [done|lia]).
  split; [by rewrite !(fun a n H => proj2 (Hs a n H)) by lia|].
  repeat (constructor; [apply Hs; lia|]). constructor.
Qed.

(** A UUID without its dashes is 32 hexadecimal digits. *)
Lemma uuid_undashed s g : uuid_groups s g ->
  str_all is_ascii_hexdigit (remove_char "-" s) = true /\ slen (remove_char "-" s) = 32.
Proof.
  intros (-> & Hl & Hf). destruct g as [|a [|b [|c [|d [|e [|]]]]]]; try discriminate Hl.
  injection Hl as Ha Hb Hc Hd He.
  assert (Hr : forall w, str_all is_ascii_hexdigit w = true -> remove_char "-" w = w).
  { intros w Hw. apply remove_char_id. by eapply str_all_impl; [apply hexdigit_not_dash|]. }
  rewrite !Forall_cons in Hf. destruct Hf as (Fa & Fb & Fc & Fd & Fe & _).
  assert (Hdash : forall t, remove_char "-" (String "-" t) = remove_char "-" t) by done.
  cbn [join_on]. rewrite !remove_char_app, !Hdash, !remove_char_app, !Hdash, !remove_char_app, !Hdash,
    !remove_char_app, !Hdash, !Hr by done.
  rewrite !str_all_app, !slen_app, Fa, Fb, Fc, Fd, Fe. split; [done|lia].
Qed.

Lemma validate_id_opaque prefix prefixes field suffix :
  In prefix prefixes -> str_all Authz.id_char prefix = true -> 4 <= slen prefix <= 8 ->
  str_all is_ascii_hexdigit suffix = true -> 24 <= slen suffix <= 48 ->
  Authz.validate_id (prefix +:+ suffix) prefixes field = Ok tt.
Proof.
  intros Hin Hpc Hpl Hs Hl. unfold Authz.validate_id. rewrite slen_app, str_all_app, Hpc.
  rewrite (str_all_impl _ Authz.id_char suffix hexdigit_id_char Hs).
  rewrite (proj2 (existsb_exists _ _)) by (exists prefix; split; [done|apply starts_with_app]).
  replace (_ <? 12) with false by lia. by replace (96 <? _) with false by lia.
Qed.

Lemma strip_prefix_app p s : strip_prefix p (p +:+ s) = Some s.
Proof. by apply strip_prefix_Some. Qed.

Lemma other_prefix_refused c c' s :
  c <> c' -> is_ok (validate_principal_id (principal_prefix c +:+ s) c') = false.
Proof. by destruct c, c'. Qed.

(** Whatever the random generator returns, generated UUIDs pass both shape
    checks, lease-pool principal and credential ids pass the authorization
    store's id checks, and a generated grant principal is accepted for its own
    class and refused for the other class. *)
Theorem generated_ids_valid (hex_encode : list Z -> string) bytes16 bytes12 c c' :
  (forall l, is_bytes l -> str_all is_lower_hex (hex_encode l) = true
                           /\ slen (hex_encode l) = 2 * Z.of_nat (length l)) ->
  is_bytes bytes16 -> length bytes16 = 16%nat ->
  is_bytes bytes12 -> length bytes12 = 12%nat -> c <> c' ->
  is_uuid_v4_shaped (generate_uuid_v4 bytes16) = true
  /\ Authz.valid_vless_uuid (generate_uuid_v4 bytes16) = true
  /\ Authz.validate_principal_id (generate_native_principal_id bytes16) = Ok tt
  /\ Authz.validate_credential_id (generate_credential_id bytes16) = Ok tt
  /\ validate_principal_id (generate_principal_id hex_encode c bytes12) c = Ok tt
  /\ Authz.validate_principal_id (generate_principal_id hex_encode c bytes12) = Ok tt
  /\ is_ok (validate_principal_id (generate_principal_id hex_encode c bytes12) c') = false.
Proof.
  intros Hhex Hb Hl Hb' Hl' Hc.
  destruct (generate_uuid_v4_groups _ Hb Hl) as (g & Hg & _).
  destruct (uuid_undashed _ _ Hg) as [Hu Hul]. destruct (Hhex _ Hb') as [Hh Hhl]. rewrite Hl' in Hhl.
  assert (Hh' := str_all_impl _ _ _ lower_hex_hexdigit Hh).
  split; [by apply is_uuid_v4_shaped_iff; eauto|]. split; [by apply valid_vless_uuid_iff; eauto|].
  unfold Authz.validate_principal_id, Authz.validate_credential_id, generate_native_principal_id,
    generate_credential_id, generate_principal_id.
  split; [apply validate_id_opaque; [by simpl; auto|done|done|done|lia]|].
  split; [apply validate_id_opaque; [by simpl; auto|done|done|done|lia]|].
  split; [|split; [|by apply other_prefix_refused]].
  - unfold validate_principal_id. rewrite strip_prefix_app, Hhl, Hh'. done.
  - apply validate_id_opaque; [destruct c; simpl; auto|by destruct c|by destruct c|done|lia].
Qed.

Lemma generated_ids_valid_witness :
  is_uuid_v4_shaped (generate_uuid_v4 (repeat 255 16)) = true
  /\ validate_principal_id (generate_principal_id hex_bytes Compatibility (repeat 7 12)) Compatibility = Ok tt.
Proof.
  destruct (generated_ids_valid hex_bytes (repeat 255 16) (repeat 7 12) Compatibility Native)
    as (H1 & _ & _ & _ & H2 & _); [apply hex_bytes_spec|..].
  1,3: repeat constructor; lia.
  1,2: reflexivity.
  - discriminate.
  - split; [exact H1|exact H2].
Defined.

End Creds.
