(* ===== verification/Grants.v ===== *)
(** * crates/compat-config/src/model.rs and credential_policy.rs

    Credential grants, the accounts that hold them, and the lifecycle policy:
    authorization windows with clock-skew grace, revocation, renewal, the
    overlap policy on a grant set, and the legacy fallback that synthesizes a
    grant from an account.

    Timestamps are [i64]: the additions and subtractions the code leaves
    unchecked wrap. *)

From S2P Require Import Prelude Strs Authorization Credentials.
From Stdlib Require Import Ascii.

Module Grants.
Import Creds.

(** ** Policy constants *)

Definition NATIVE_LEASE_SECS : Z := 30 * 60.
Definition NATIVE_RENEW_LEAD_SECS : Z := NATIVE_LEASE_SECS / 2.
Definition COMPAT_LIFETIME_SECS : Z := 7 * 24 * 60 * 60.
Definition COMPAT_MIN_LIFETIME_SECS : Z := 6 * 60 * 60.
Definition COMPAT_MAX_LIFETIME_SECS : Z := 30 * 24 * 60 * 60.
Definition MAX_OVERLAP_SECS : Z := 60 * 60.
Definition MAX_LIVE_GRANTS_PER_CLASS : Z := 2.
Definition VALID_FROM_SKEW_GRACE_SECS : Z := 30.

(** ** CredentialGrant *)

Record CredentialGrant := {
  principal_id : string;
  class : CredentialClass;
  vless_uuid : string;
  hysteria2_password : string;
  valid_from : Z;
  valid_until : Z;
  revoked_at : option Z;
  generation : Z }.

#[global] Instance CredentialGrant_eq_dec : EqDecision CredentialGrant.
Proof. solve_decision. Defined.

Inductive grant_error :=
| BadPrincipal (e : cred_error)
| BadUuid (principal : string)
| EmptyPassword (principal : string)
| EmptyWindow (principal : string)
| NonPositiveWindow (principal : string)
| RevokedBeforeStart (principal : string)
| RenewRevoked (principal : string)
| RenewExpired (principal : string)
| RenewShortens (principal : string)
| OverlapTooLong (a b : string)
| TooManyLive (class : CredentialClass) (at_ : Z).

(** [password] is the freshly generated Hysteria2 password. *)
Definition new (password principal : string) (cls : CredentialClass) (uuid : string)
  (from until : Z) : CredentialGrant :=
  {| principal_id := principal; class := cls; vless_uuid := uuid; hysteria2_password := password;
     valid_from := from; valid_until := until; revoked_at := None; generation := 1 |}.

Definition is_revoked_at (self : CredentialGrant) (now : Z) : bool :=
  match revoked_at self with Some at_ => at_ <=? now | None => false end.

Definition set_revoked_at (g : CredentialGrant) (r : option Z) : CredentialGrant :=
  {| principal_id := principal_id g; class := class g; vless_uuid := vless_uuid g;
     hysteria2_password := hysteria2_password g; valid_from := valid_from g;
     valid_until := valid_until g; revoked_at := r; generation := generation g |}.
Definition set_valid_until (g : CredentialGrant) (u : Z) : CredentialGrant :=
  {| principal_id := principal_id g; class := class g; vless_uuid := vless_uuid g;
     hysteria2_password := hysteria2_password g; valid_from := valid_from g;
     valid_until := u; revoked_at := revoked_at g; generation := generation g |}.

Definition revoke (self : CredentialGrant) (now : Z) : CredentialGrant :=
  set_revoked_at self
    (Some (match revoked_at self with None => now | Some existing => Z.min existing now end)).

Definition renew_until (self : CredentialGrant) (new_valid_until now : Z)
  : result CredentialGrant grant_error :=
  if is_revoked_at self now then Err (RenewRevoked (principal_id self)) else
  if valid_until self <=? now then Err (RenewExpired (principal_id self)) else
  if new_valid_until <? valid_until self then Err (RenewShortens (principal_id self)) else
  Ok (set_valid_until self new_valid_until).

Definition validate (self : CredentialGrant) : result unit grant_error :=
  let? _ := map_err BadPrincipal (validate_principal_id (principal_id self) (class self)) in
  if negb (is_uuid_v4_shaped (vless_uuid self)) then Err (BadUuid (principal_id self)) else
  if str_is_empty (hysteria2_password self) then Err (EmptyPassword (principal_id self)) else
  if valid_until self <=? valid_from self then Err (EmptyWindow (principal_id self)) else
  if (valid_until self <=? 0) || (valid_from self <? 0)
  then Err (NonPositiveWindow (principal_id self)) else
  match revoked_at self with
  | Some revoked_at =>
      if revoked_at <? valid_from self then Err (RevokedBeforeStart (principal_id self)) else Ok tt
  | None => Ok tt
  end.

(** ** credential_policy *)

Definition grant_is_authorized (grant : CredentialGrant) (now : Z) : bool :=
  negb (is_revoked_at grant now)
  && (valid_from grant <=? wrap_i64 (now + VALID_FROM_SKEW_GRACE_SECS))
  && (now <? valid_until grant).

Definition grant_expiry (grant : CredentialGrant) : Z := valid_until grant.

Definition overlap_secs (a b : CredentialGrant) : Z :=
  let start := Z.max (valid_from a) (valid_from b) in
  let end_ := Z.min (grant_expiry a) (grant_expiry b) in
  Z.max (wrap_i64 (end_ - start)) 0.

Definition of_class (cls : CredentialClass) (grants : list CredentialGrant) : list CredentialGrant :=
  List.filter (fun g => class_eqb (class g) cls) grants.

Fixpoint check_overlaps (same_class : list CredentialGrant) : result unit grant_error :=
  match same_class with
  | [] => Ok tt
  | a :: rest =>
      let? _ := for_each (fun b =>
        let overlap := overlap_secs a b in
        if overlap <=? 0 then Ok tt else
        if MAX_OVERLAP_SECS <? overlap then Err (OverlapTooLong (principal_id a) (principal_id b))
        else Ok tt) rest in
      check_overlaps rest
  end.

Definition live_count (now : Z) (grants : list CredentialGrant) : Z :=
  Z.of_nat (length (List.filter (fun g => grant_is_authorized g now) grants)).

Definition check_live (cls : CredentialClass) (same_class : list CredentialGrant)
  : result unit grant_error :=
  for_each (fun anchor =>
    if MAX_LIVE_GRANTS_PER_CLASS <? live_count (valid_from anchor) same_class
    then Err (TooManyLive cls (valid_from anchor)) else Ok tt) same_class.

Definition validate_grant_set (grants : list CredentialGrant) : result unit grant_error :=
  let? _ := for_each validate grants in
  let? _ := for_each (fun cls => check_overlaps (of_class cls grants)) [Native; Compatibility] in
  for_each (fun cls => check_live cls (of_class cls grants)) [Native; Compatibility].

Definition clamp_compat_lifetime (requested : Z) : Z :=
  clamp COMPAT_MIN_LIFETIME_SECS COMPAT_MAX_LIFETIME_SECS requested.

(** ** CompatUser *)

Inductive PeerCredential :=
| PeerVlessReality (uuid : string)
| PeerHysteria2 (password : string).

Inductive CompatTransport := VlessReality | Hysteria2.

#[global] Instance CompatTransport_eq_dec : EqDecision CompatTransport.
Proof. solve_decision. Defined.
#[global] Instance PeerCredential_eq_dec : EqDecision PeerCredential.
Proof. solve_decision. Defined.

Definition transport (self : PeerCredential) : CompatTransport :=
  match self with PeerVlessReality _ => VlessReality | PeerHysteria2 _ => Hysteria2 end.

Record CompatUser := {
  id : string;
  name : string;
  enabled : bool;
  u_vless_uuid : string;
  u_hysteria2_password : string;
  subscription_token_hash_hex : string;
  created_at : Z;
  expires_at : option Z;
  vision_off_experiment : bool;
  google_egress_hairpin : bool;
  exit_principal : bool;
  peer_credentials : list (string * PeerCredential);
  is_reserved_probe : bool;
  credentials : list CredentialGrant }.

#[global] Instance CompatUser_eq_dec : EqDecision CompatUser.
Proof. solve_decision. Defined.

Definition is_active (self : CompatUser) (now : Z) : bool :=
  let started := negb (starts_with "cred_" (id self)) || (created_at self <=? now) in
  enabled self && started && match expires_at self with Some exp => now <? exp | None => true end.

Definition effective_grants (self : CompatUser) : list CredentialGrant :=
  match credentials self with
  | _ :: _ => credentials self
  | [] =>
      [{| principal_id := id self; class := Compatibility; vless_uuid := u_vless_uuid self;
          hysteria2_password := u_hysteria2_password self; valid_from := 0;
          valid_until := match expires_at self with Some e => e | None => i64_max end;
          revoked_at := None; generation := 1 |}]
  end.

Definition active_principal_ids (self : CompatUser) (now : Z) : list string :=
  if negb (is_active self now) then [] else
  map principal_id (List.filter (fun g => grant_is_authorized g now) (effective_grants self)).

(** [BTreeMap::get] on the map as its list of entries. *)
Definition peer_credential (self : CompatUser) (endpoint_id : string) : option PeerCredential :=
  option_map snd (List.find (fun e => String.eqb (fst e) endpoint_id) (peer_credentials self)).

Definition validate_grants (self : CompatUser) : result unit grant_error :=
  validate_grant_set (credentials self).

Definition live_grants (user : CompatUser) (cls : CredentialClass) (now : Z) : list CredentialGrant :=
  List.filter (fun g => class_eqb (class g) cls && grant_is_authorized g now) (credentials user).

(** [Iterator::max_by_key] returns the last of the maximal elements. *)
Fixpoint max_by_generation (best : option CredentialGrant) (l : list CredentialGrant)
  : option CredentialGrant :=
  match l with
  | [] => best
  | g :: l' =>
      max_by_generation
        (match best with
         | Some b => if generation b <=? generation g then Some g else Some b
         | None => Some g
         end) l'
  end.

Definition current_grant (user : CompatUser) (cls : CredentialClass) (now : Z)
  : option CredentialGrant :=
  max_by_generation None (live_grants user cls now).

(** ** Lifecycle of one grant *)

(** What can happen to a stored grant: an operator revokes it, a renewal is
    attempted (a refused renewal leaves it as it is).  [step t g g'] is one
    operation performed at time [t]. *)
Inductive step (t : Z) (g : CredentialGrant) : CredentialGrant -> Prop :=
| step_revoke : step t g (revoke g t)
| step_renew u g' : renew_until g u t = Ok g' -> step t g g'
| step_renew_refused u e : renew_until g u t = Err e -> step t g g.

(** Operations in the order of a non-decreasing clock, the first at [t0] or later. *)
Inductive history : Z -> CredentialGrant -> Z -> CredentialGrant -> Prop :=
| history_nil t g : history t g t g
| history_cons t0 t g g1 t2 g2 :
    t0 <= t -> step t g g1 -> history t g1 t2 g2 -> history t0 g t2 g2.

Definition same_material (g g' : CredentialGrant) : Prop :=
  principal_id g' = principal_id g /\ class g' = class g /\ vless_uuid g' = vless_uuid g
  /\ hysteria2_password g' = hysteria2_password g /\ valid_from g' = valid_from g
  /\ generation g' = generation g.

Lemma renew_until_ok g u t g' :
  renew_until g u t = Ok g' <->
  is_revoked_at g t = false /\ t < valid_until g /\ valid_until g <= u /\ g' = set_valid_until g u.
Proof.
  unfold renew_until. split.
  - intros H. repeat case_if; try discriminate. injection H as <-. b2p. auto.
  - intros (-> & H1 & H2 & ->). replace (valid_until g <=? t) with false by lia.
    by replace (u <? valid_until g) with false by lia.
Qed.

(** Dead at [t]: revoked by then, or the window has closed. *)
Definition dead (t : Z) (g : CredentialGrant) : Prop :=
  is_revoked_at g t = true \/ valid_until g <= t.

Lemma is_revoked_mono g t t' : t <= t' -> is_revoked_at g t = true -> is_revoked_at g t' = true.
Proof. unfold is_revoked_at. destruct (revoked_at g); [lia|done]. Qed.

Lemma dead_mono g t t' : t <= t' -> dead t g -> dead t' g.
Proof. intros Ht [H|H]; [left; by eapply is_revoked_mono|right; lia]. Qed.

Lemma dead_not_authorized g t : dead t g -> grant_is_authorized g t = false.
Proof.
  unfold grant_is_authorized. intros [->|H]; [done|].
  replace (t <? valid_until g) with false by lia. apply andb_false_r.
Qed.

Lemma revoke_dead g t : dead t (revoke g t).
Proof. left. unfold is_revoked_at, revoke. simpl. destruct (revoked_at g); lia. Qed.

Lemma revoke_keeps_revoked g t t' :
  is_revoked_at g t' = true -> is_revoked_at (revoke g t) t' = true.
Proof. unfold is_revoked_at, revoke. simpl. destruct (revoked_at g); [lia|done]. Qed.

Lemma step_same_material t g g' : step t g g' -> same_material g g' /\ valid_until g <= valid_until g'.
Proof.
  intros [|u g1 H|]; [by repeat split| |by repeat split].
  apply renew_until_ok in H as (_ & _ & H & ->). by repeat split.
Qed.

Lemma step_dead t g g' : step t g g' -> dead t g -> dead t g'.
Proof.
  intros [|u g1 H|] Hd; [apply revoke_dead| |done].
  apply renew_until_ok in H as (Hr & Hv & _ & _). destruct Hd; [congruence|lia].
Qed.

Lemma history_dead t g t' g' : history t g t' g' -> dead t g -> dead t' g'.
Proof.
  induction 1 as [|t0 t g g1 t2 g2 Ht Hs Hh IH]; intros Hd; [done|].
  apply IH. apply (step_dead _ _ _ Hs). by apply (dead_mono g t0).
Qed.

Lemma history_le t g t' g' : history t g t' g' -> t <= t'.
Proof. induction 1; lia. Qed.

(** C26: a grant that is dead at some instant (revoked by then, or past its
    exclusive end) is never authorized again, whatever sequence of revocations
    and renewal attempts follows on a clock that does not run backwards; and
    no such sequence changes its principal, secrets, class, start or
    generation, or moves its end backwards. *)
Theorem grant_never_resurrected t g t' g' now :
  history t g t' g' -> t' <= now ->
  (dead t g -> grant_is_authorized g' now = false)
  /\ same_material g g' /\ valid_until g <= valid_until g'.
Proof.
  intros Hh Hn. split.
  - intros Hd. apply dead_not_authorized, (dead_mono _ t'); [done|]. by eapply history_dead.
  - clear Hn. induction Hh as [|t0 t g g1 t2 g2 Ht Hs Hh [IH1 IH2]]; [by repeat split|].
    destruct (step_same_material _ _ _ Hs) as [H1 H2]. split; [|lia].
    unfold same_material in *. destruct IH1 as (?&?&?&?&?&?), H1 as (?&?&?&?&?&?).
    repeat split; congruence.
Qed.

(** ** The grant-set policy *)

Lemma map_err_ok {A E F} (f : E -> F) (r : result A E) a : map_err f r = Ok a <-> r = Ok a.
Proof. destruct r; simpl; split; congruence. Qed.

Lemma validate_window g : validate g = Ok tt -> 0 <= valid_from g < valid_until g.
Proof.
  unfold validate. intros H. inv_bind. repeat case_if; try discriminate; b2p; lia.
Qed.

Lemma class_eqb_spec a b : class_eqb a b = true <-> a = b.
Proof. unfold class_eqb. apply bool_decide_eq_true. Qed.

Lemma In_of_class c l g : In g (of_class c l) <-> In g l /\ class g = c.
Proof. unfold of_class. by rewrite In_filterb, class_eqb_spec. Qed.

Lemma all_classes c : In c [Native; Compatibility].
Proof. destruct c; simpl; auto. Qed.

(** Authorized without the skew grace: inside the declared window. *)
Definition in_window (g : CredentialGrant) (t : Z) : bool :=
  negb (is_revoked_at g t) && (valid_from g <=? t) && (t <? valid_until g).

Lemma wrap_small z : - 2 ^ 63 <= z < 2 ^ 63 -> wrap_i64 z = z.
Proof. intros. apply wrap_i64_id. unfold in_i64, i64_min, i64_max. lia. Qed.

Lemma overlap_secs_eq a b :
  0 <= valid_from a <= i64_max -> 0 <= valid_from b <= i64_max ->
  0 <= valid_until a <= i64_max -> 0 <= valid_until b <= i64_max ->
  overlap_secs a b = Z.max 0 (Z.min (valid_until a) (valid_until b)
                              - Z.max (valid_from a) (valid_from b)).
Proof.
  unfold overlap_secs, grant_expiry, i64_max. intros. rewrite wrap_small by lia. lia.
Qed.

(** The latest start among grants that are all inside their window at [t] is an
    instant at which each of them is authorized. *)
Lemma latest_start l t : l <> [] -> (forall g, In g l -> in_window g t = true) ->
  exists a, In a l /\ valid_from a <= t /\ forall g, In g l -> valid_from g <= valid_from a.
Proof.
  induction l as [|x l IH]; intros Hne H; [done|]. assert (Hx := H x (or_introl eq_refl)).
  unfold in_window in Hx. destruct l as [|y l].
  - exists x. split; [by left|]. split; [lia|]. intros g [<-|[]]. lia.
  - destruct IH as (a & Ha & Hat & Hmax); [done|intros; apply H; by right|].
    destruct (Z.le_gt_cases (valid_from x) (valid_from a)) as [Hle|Hgt].
    + exists a. split; [by right|]. split; [done|]. intros g [<-|Hg]; auto.
    + exists x. split; [by left|]. split; [lia|].
      intros g [<-|Hg]; [lia|]. specialize (Hmax g Hg). lia.
Qed.

Lemma in_window_authorized_earlier g t s :
  in_window g t = true -> valid_from g <= s <= t -> - 2 ^ 62 <= s <= 2 ^ 62 ->
  grant_is_authorized g s = true.
Proof.
  unfold in_window, grant_is_authorized, VALID_FROM_SKEW_GRACE_SECS. intros H Hs Hb.
  rewrite wrap_small by lia. apply andb_true_iff in H as [H H3]. apply andb_true_iff in H as [H1 H2].
  replace (is_revoked_at g s) with false; [lia|]. symmetry.
  destruct (is_revoked_at g s) eqn:E; [|done].
  apply (is_revoked_mono g s t) in E; [by rewrite E in H1|lia].
Qed.

Lemma filter_length_mono {A} (f h : A -> bool) l :
  (forall x, In x l -> f x = true -> h x = true) ->
  (length (List.filter f l) <= length (List.filter h l))%nat.
Proof.
  induction l as [|x l IH]; intros H; simpl; [done|].
  assert (IH' := IH (fun y Hy => H y (or_intror Hy))).
  destruct (f x) eqn:E; [rewrite (H x (or_introl eq_refl) E)|destruct (h x)]; simpl; lia.
Qed.

(** Grants of a list inside their declared window at [t]. *)
Definition window_count (t : Z) (l : list CredentialGrant) : Z :=
  Z.of_nat (length (List.filter (fun g => in_window g t) l)).

Lemma check_live_window c l t :
  check_live c l = Ok tt -> (forall g, In g l -> 0 <= valid_from g <= 2 ^ 62) ->
  window_count t l <= MAX_LIVE_GRANTS_PER_CLASS.
Proof.
  unfold check_live, window_count. rewrite for_each_ok. intros H Hr.
  destruct (decide (List.filter (fun g => in_window g t) l = [])) as [->|Hne]; [done|].
  destruct (latest_start (List.filter (fun g => in_window g t) l) t Hne) as (a & Ha & Hat & Hmax).
  { intros g Hg. by apply In_filterb in Hg as [_ Hg]. }
  apply In_filterb in Ha as [Ha _]. specialize (H a Ha). specialize (Hr a Ha).
  destruct (_ <? _) eqn:El; [discriminate|]. apply Z.ltb_ge in El. unfold live_count in El.
  etransitivity; [|exact El]. apply inj_le, filter_length_mono. intros g Hg Hw.
  apply (in_window_authorized_earlier g t); [done| |lia].
  split; [|lia]. apply Hmax, In_filterb. auto.
Qed.

Lemma check_overlaps_pairs l :
  check_overlaps l = Ok tt -> forall pre a mid b post, l = pre ++ a :: mid ++ b :: post ->
  overlap_secs a b <= MAX_OVERLAP_SECS.
Proof.
  induction l as [|x l IH]; intros H pre a mid b post E; [by destruct pre|].
  simpl in H. destruct (for_each _ l) as [[]|] eqn:Ef; cbn [result_bind] in H; [|discriminate].
  destruct pre as [|y pre]; simpl in E; injection E as -> E.
  - subst l. rewrite for_each_ok in Ef. specialize (Ef b). cbv zeta in Ef.
    destruct (overlap_secs a b <=? 0) eqn:E0.
    + unfold MAX_OVERLAP_SECS. lia.
    + destruct (_ <? _) eqn:E1; [|apply Z.ltb_ge; done].
      discriminate Ef. apply in_app_iff. right. by left.
  - eauto.
Qed.

(** Timestamps that stay clear of the [i64] limits. *)
Definition grant_sane (g : CredentialGrant) : Prop := valid_until g <= 2 ^ 62.

(** A grant set that passes [validate_grant_set] has, in each credential
    class, every two windows overlapping for at most one hour and never more
    than two grants inside their declared window at any instant, although the
    code inspects only the instants at which some grant starts. *)
Theorem validate_grant_set_bounds gs :
  (forall g, In g gs -> grant_sane g) -> validate_grant_set gs = Ok tt ->
  (forall g, In g gs -> 0 <= valid_from g < valid_until g)
  /\ (forall c pre a mid b post, of_class c gs = pre ++ a :: mid ++ b :: post ->
       Z.min (valid_until a) (valid_until b) - Z.max (valid_from a) (valid_from b) <= MAX_OVERLAP_SECS)
  /\ (forall c t, window_count t (of_class c gs) <= MAX_LIVE_GRANTS_PER_CLASS).
Proof.
  unfold validate_grant_set, grant_sane. intros Hs H.
  destruct (for_each validate gs) as [[]|] eqn:E1; cbn [result_bind] in H; [|discriminate].
  destruct (for_each _ [Native; Compatibility]) as [[]|] eqn:E2 in H; cbn [result_bind] in H; [|discriminate].
  rewrite for_each_ok in E1. rewrite for_each_ok in E2. rewrite for_each_ok in H.
  assert (Hw : forall g, In g gs -> 0 <= valid_from g < valid_until g) by eauto using validate_window.
  split; [done|]. split.
  - intros c pre a mid b post E. assert (Ho := check_overlaps_pairs _ (E2 c (all_classes c)) _ _ _ _ _ E).
    assert (Ha : In a gs /\ class a = c) by (apply In_of_class; rewrite E, in_app_iff; simpl; auto).
    assert (Hb : In b gs /\ class b = c)
      by (apply In_of_class; rewrite E, in_app_iff; simpl; rewrite in_app_iff; simpl; auto).
    pose proof (Hs a (proj1 Ha)). pose proof (Hs b (proj1 Hb)).
    pose proof (Hw a (proj1 Ha)). pose proof (Hw b (proj1 Hb)).
    rewrite overlap_secs_eq in Ho by (unfold i64_max; lia). lia.
  - intros c t. apply (check_live_window c); [by apply H, all_classes|].
    intros g Hg. apply In_of_class in Hg as [Hg _]. specialize (Hs g Hg). specialize (Hw g Hg). lia.
Qed.

(** ** Accounts without explicit grants *)

(** An account that stores no grants is authorized under exactly its own
    id and exactly when the account-level check admits it: the synthesized
    grant changes nothing for a deployment that predates grants (for every
    clock value the skew addition can represent). *)
Theorem legacy_account_unchanged u now :
  credentials u = [] -> 0 <= now < i64_max - VALID_FROM_SKEW_GRACE_SECS ->
  active_principal_ids u now = if is_active u now then [id u] else [].
Proof.
  unfold active_principal_ids, effective_grants, VALID_FROM_SKEW_GRACE_SECS, i64_max. intros -> Hn.
  destruct (is_active u now) eqn:E; [|done].
  cbn [negb List.filter]. unfold grant_is_authorized, is_revoked_at, VALID_FROM_SKEW_GRACE_SECS, i64_max.
  cbn [revoked_at valid_from valid_until negb andb]. rewrite wrap_small by lia.
  replace (0 <=? now + 30) with true by lia.
  unfold is_active in E. apply andb_true_iff in E as [_ E].
  destruct (expires_at u); [by rewrite E|]. by replace (now <? _) with true by lia.
Qed.

(** The grant [current_grant] selects is live and no live grant of the class
    has a later generation. *)
Lemma max_by_generation_spec l : forall best g,
  max_by_generation best l = Some g ->
  (In g l \/ best = Some g)
  /\ (forall h, In h l \/ best = Some h -> generation h <= generation g).
Proof.
  induction l as [|x l IH]; intros best g H; simpl in H.
  - subst. split; [by right|]. intros h [[]|[= ->]]. lia.
  - apply IH in H as [H1 H2]. clear IH. destruct best as [b|].
    + destruct (generation b <=? generation x) eqn:E; b2p.
      * split; [destruct H1 as [|[= ->]]; simpl; auto|].
        assert (generation x <= generation g) by (apply H2; auto).
        intros h [[<-|Hh]|[= ->]]; [lia|apply H2; auto|lia].
      * split; [destruct H1; simpl; auto|].
        assert (generation b <= generation g) by (apply H2; auto).
        intros h [[<-|Hh]|[= ->]]; [lia|apply H2; auto|lia].
    + split; [destruct H1 as [|[= ->]]; simpl; auto|].
      intros h [[<-|Hh]|[=]]; apply H2; auto.
Qed.

Lemma current_grant_spec u c now g :
  current_grant u c now = Some g ->
  In g (credentials u) /\ class g = c /\ grant_is_authorized g now = true
  /\ forall h, In h (credentials u) -> class h = c -> grant_is_authorized h now = true ->
       generation h <= generation g.
Proof.
  unfold current_grant. intros H. apply max_by_generation_spec in H as [[H|[=]] Hmax].
  unfold live_grants in *. rewrite In_filterb, andb_true_iff, class_eqb_spec in H.
  destruct H as (? & ? & ?). repeat (split; [done|]). intros h Hh Hc Ha. apply Hmax. left.
  rewrite In_filterb, andb_true_iff, class_eqb_spec. auto.
Qed.

(** ** Witnesses and the skew gap *)

Definition ex_grant (n from until : Z) : CredentialGrant :=
  new "pw" ("native_" +:+ hex_bytes (repeat n 12)) Native (generate_uuid_v4 (repeat n 16)) from until.
Definition ex_grants : list CredentialGrant :=
  [ex_grant 1 0 1000; ex_grant 2 0 1000; ex_grant 3 1000 2000].
Definition ex_user : CompatUser :=
  {| id := "user_1"; name := "a"; enabled := true; u_vless_uuid := "u"; u_hysteria2_password := "p";
     subscription_token_hash_hex := "h"; created_at := 0; expires_at := Some 100;
     vision_off_experiment := false; google_egress_hairpin := false; exit_principal := false;
     peer_credentials := []; is_reserved_probe := false; credentials := [] |}.

(** The start grace is not part of what [validate_grant_set] checks: this set
    passes, and ten seconds before the third grant starts all three are
    authorized. *)
Lemma skew_grace_admits_three :
  validate_grant_set ex_grants = Ok tt /\ live_count 990 ex_grants = 3.
Proof. split; vm_compute; reflexivity. Qed.

Lemma grant_never_resurrected_witness :
  history 10 (revoke (ex_grant 1 0 1000) 10) 20 (revoke (ex_grant 1 0 1000) 10)
  /\ grant_is_authorized (revoke (ex_grant 1 0 1000) 10) 25 = false.
Proof.
  assert (Hh : history 10 (revoke (ex_grant 1 0 1000) 10) 20 (revoke (ex_grant 1 0 1000) 10)).
  { eapply (history_cons 10 20); [lia| |apply history_nil].
    apply (step_renew_refused 20 _ 5000 (RenewRevoked (principal_id (ex_grant 1 0 1000)))).
    vm_compute. reflexivity. }
  split; [exact Hh|].
  refine (proj1 (grant_never_resurrected _ _ _ _ 25 Hh _) _); [lia|apply revoke_dead].
Defined.

Lemma validate_grant_set_bounds_witness :
  window_count 990 (of_class Native ex_grants) <= MAX_LIVE_GRANTS_PER_CLASS.
Proof.
  apply (validate_grant_set_bounds ex_grants); [|vm_compute; reflexivity].
  intros g [<-|[<-|[<-|[]]]]; unfold grant_sane; simpl; lia.
Defined.

Lemma legacy_account_unchanged_witness :
  active_principal_ids ex_user 99 = ["user_1"] /\ active_principal_ids ex_user 100 = [].
Proof.
  rewrite !legacy_account_unchanged; [split; vm_compute; reflexivity|..];
    first [reflexivity|unfold i64_max, VALID_FROM_SKEW_GRACE_SECS; lia].
Defined.

End Grants.
