(* ===== verification/Json.v ===== *)
(** * JSON values

    [serde_json] is not part of the repository: the components that read or
    build JSON are written against this interface, whose operations are the
    [Value] methods they call ([get], [as_str], ...) and the constructors
    [json!] uses, and whose laws are the documented behaviour of those methods
    on values built by those constructors.  [json] is one model of it, for the
    witnesses. *)

From S2P Require Import Prelude Strs.

Class JsonOps (V : Type) := {
  jget : V -> string -> option V;
  jas_str : V -> option string;
  jas_u64 : V -> option Z;
  jas_i64 : V -> option Z;
  jas_bool : V -> option bool;
  jas_array : V -> option (list V);
  jnull : V;
  jstr : string -> V;
  jint : Z -> V;
  jbool : bool -> V;
  jarr : list V -> V;
  jobj : list (string * V) -> V }.

(** First entry of an association list. *)
Definition assoc {V} (k : string) (l : list (string * V)) : option V :=
  option_map snd (List.find (fun e => String.eqb (fst e) k) l).

Class JsonLaws (V : Type) `{JsonOps V} := {
  jget_obj kvs k : List.NoDup (map fst kvs) -> jget (jobj kvs) k = assoc k kvs;
  jas_str_jstr s : jas_str (jstr s) = Some s;
  jas_i64_jint z : in_i64 z = true -> jas_i64 (jint z) = Some z;
  jas_u64_jint z : in_u64 z = true -> jas_u64 (jint z) = Some z;
  jas_bool_jbool b : jas_bool (jbool b) = Some b;
  jas_array_jarr l : jas_array (jarr l) = Some l }.

(** [v.get(k).and_then(Value::as_str)] and the like. *)
Section Accessors.
Context {V : Type} `{JsonOps V}.
Definition get_str (v : V) (k : string) : option string :=
  match jget v k with Some x => jas_str x | None => None end.
Definition get_u64 (v : V) (k : string) : option Z :=
  match jget v k with Some x => jas_u64 x | None => None end.
Definition get_i64 (v : V) (k : string) : option Z :=
  match jget v k with Some x => jas_i64 x | None => None end.
Definition get_bool (v : V) (k : string) : option bool :=
  match jget v k with Some x => jas_bool x | None => None end.
Definition get_array (v : V) (k : string) : option (list V) :=
  match jget v k with Some x => jas_array x | None => None end.
End Accessors.

(** ** A model of the interface *)

Inductive json :=
| JNull
| JBool (b : bool)
| JNum (z : Z)
| JStr (s : string)
| JArr (l : list json)
| JObj (kvs : list (string * json)).

#[export] Instance json_ops : JsonOps json := {
  jget v k := match v with JObj kvs => assoc k kvs | _ => None end;
  jas_str v := match v with JStr s => Some s | _ => None end;
  jas_u64 v := match v with JNum z => if in_u64 z then Some z else None | _ => None end;
  jas_i64 v := match v with JNum z => if in_i64 z then Some z else None | _ => None end;
  jas_bool v := match v with JBool b => Some b | _ => None end;
  jas_array v := match v with JArr l => Some l | _ => None end;
  jnull := JNull; jstr := JStr; jint := JNum; jbool := JBool; jarr := JArr; jobj := JObj }.

#[export] Instance json_laws : JsonLaws json.
Proof.
  split; simpl; try done; intros z ->; done.
Qed.

(** ** Values as trees

    [jcase] is pattern matching on [Value]; [jset v k x] is [v[k] = x] on an
    object and [jremove] removes a key of one ([Map::remove]); [jheight] exists
    because values are finite trees. *)

Inductive jview (V : Type) :=
| VNull
| VBool (b : bool)
| VNum
| VStr (s : string)
| VArr (l : list V)
| VObj (kvs : list (string * V)).
Arguments VNull {V}.
Arguments VBool {V} b.
Arguments VNum {V}.
Arguments VStr {V} s.
Arguments VArr {V} l.
Arguments VObj {V} kvs.

Class JsonTree (V : Type) := {
  jcase : V -> jview V;
  jset : V -> string -> V -> V;
  jremove : V -> string -> V;
  jheight : V -> nat }.

Definition assoc_del {V} (k : string) (l : list (string * V)) : list (string * V) :=
  List.filter (fun e => negb (String.eqb (fst e) k)) l.
Definition assoc_set {V} (k : string) (x : V) (l : list (string * V)) : list (string * V) :=
  (k, x) :: assoc_del k l.

(** [BTreeMap] on its entries in key order. *)
Fixpoint btree_insert {A} (k : string) (v : A) (l : list (string * A)) : list (string * A) :=
  match l with
  | [] => [(k, v)]
  | (k', v') :: rest =>
      match String.compare k k' with
      | Lt => (k, v) :: l
      | Eq => (k, v) :: rest
      | Gt => (k', v') :: btree_insert k v rest
      end
  end.
Definition btree_remove {A} (k : string) (l : list (string * A)) : list (string * A) :=
  List.filter (fun e => negb (String.eqb (fst e) k)) l.
Definition contains_key {A} (k : string) (l : list (string * A)) : bool := existsb (fun e => String.eqb (fst e) k) l.

(** [Value]'s equality ([PartialEq]); documents hold no floats, so it is an
    equivalence that identifies equal values only. *)
Class JsonEq (V : Type) := jeqb : V -> V -> bool.
Class JsonEqLaws (V : Type) `{JsonEq V} := jeqb_spec (x y : V) : jeqb x y = true <-> x = y.

Class JsonTreeLaws (V : Type) `{JsonOps V, JsonTree V} := {
  jset_obj kvs k x : List.NoDup (map fst kvs) -> jset (jobj kvs) k x = jobj (assoc_set k x kvs);
  jremove_obj kvs k : List.NoDup (map fst kvs) -> jremove (jobj kvs) k = jobj (assoc_del k kvs);
  jcase_str s : jcase (jstr s) = VStr s;
  jcase_int z : jcase (jint z) = VNum;
  jcase_bool b : jcase (jbool b) = VBool b;
  jcase_arr l : jcase (jarr l) = VArr l;
  jcase_obj kvs : List.NoDup (map fst kvs) ->
    exists l, jcase (jobj kvs) = VObj l /\ Permutation l kvs;
  jheight_arr v l x : jcase v = VArr l -> In x l -> (jheight x < jheight v)%nat;
  jheight_obj v l k x : jcase v = VObj l -> In (k, x) l -> (jheight x < jheight v)%nat }.

(** Reading any value, however it was built. *)
Class JsonViewLaws (V : Type) `{JsonOps V, JsonTree V} := {
  view_obj v kvs k : jcase v = VObj kvs -> jget v k = assoc k kvs;
  view_other v k : (forall kvs, jcase v <> VObj kvs) -> jget v k = None;
  view_jset v kvs k x k' : jcase v = VObj kvs -> jget (jset v k x) k' = if String.eqb k k' then Some x else jget v k';
  view_jremove v kvs k k' : jcase v = VObj kvs -> jget (jremove v k) k' = if String.eqb k k' then None else jget v k';
  jset_object v kvs k x : jcase v = VObj kvs -> exists kvs', jcase (jset v k x) = VObj kvs';
  jremove_object v kvs k : jcase v = VObj kvs -> exists kvs', jcase (jremove v k) = VObj kvs' }.

(** *** Association lists *)

Lemma assoc_del_keys {V} k (l : list (string * V)) x :
  In x (map fst (assoc_del k l)) <-> In x (map fst l) /\ x <> k.
Proof.
  unfold assoc_del. rewrite !in_map_iff. split.
  - intros ([y v] & <- & Hin). apply In_filterb in Hin as [Hin Hk]. simpl in *.
    split; [by exists (y, v)|]. b2p. done.
  - intros (([y v] & <- & Hin) & Hk). exists (y, v). split; [done|].
    apply In_filterb. split; [done|]. simpl in *. apply negb_true_iff. by apply String.eqb_neq.
Qed.

Lemma assoc_del_nodup {V} k (l : list (string * V)) :
  List.NoDup (map fst l) -> List.NoDup (map fst (assoc_del k l)).
Proof.
  induction l as [|[y v] l IH]; simpl; [done|]. intros Hnd. inversion Hnd; subst.
  destruct (String.eqb y k) eqn:E; simpl; [by apply IH|].
  constructor; [|by apply IH]. intros Hin. apply assoc_del_keys in Hin as [Hin _]. done.
Qed.

Lemma assoc_set_nodup {V} k (x : V) l :
  List.NoDup (map fst l) -> List.NoDup (map fst (assoc_set k x l)).
Proof.
  intros Hnd. unfold assoc_set. simpl. constructor; [|by apply assoc_del_nodup].
  intros Hin. by apply assoc_del_keys in Hin as [_ Hin].
Qed.

Lemma assoc_del_other {V} k k' (l : list (string * V)) :
  assoc k' (assoc_del k l) = if String.eqb k k' then None else assoc k' l.
Proof.
  unfold assoc. induction l as [|[y v] l IH]; simpl; [by case_if|].
  destruct (String.eqb y k) eqn:E; simpl.
  - apply String.eqb_eq in E as ->. rewrite IH. by destruct (String.eqb k k').
  - destruct (String.eqb y k') eqn:E'; [|done].
    apply String.eqb_eq in E' as ->. rewrite String.eqb_sym, E. done.
Qed.

Lemma assoc_set_spec {V} k k' (x : V) l :
  assoc k' (assoc_set k x l) = if String.eqb k k' then Some x else assoc k' l.
Proof.
  unfold assoc_set. unfold assoc at 1. simpl. destruct (String.eqb k k') eqn:E; [done|].
  change (assoc k' (assoc_del k l) = assoc k' l). by rewrite assoc_del_other, E.
Qed.

(** *** Objects that are built and then modified *)

Section Objects.
Context {V : Type} `{JL : JsonLaws V} `{!JsonTree V, !JsonTreeLaws V}.

Definition is_obj (v : V) : Prop := exists kvs, v = jobj kvs /\ List.NoDup (map fst kvs).

Lemma is_obj_jobj kvs : List.NoDup (map fst kvs) -> is_obj (jobj kvs).
Proof. by exists kvs. Qed.

Lemma is_obj_jset v k x : is_obj v -> is_obj (jset v k x).
Proof.
  intros (kvs & -> & Hnd). exists (assoc_set k x kvs).
  split; [by apply jset_obj|by apply assoc_set_nodup].
Qed.

Lemma is_obj_jremove v k : is_obj v -> is_obj (jremove v k).
Proof.
  intros (kvs & -> & Hnd). exists (assoc_del k kvs).
  split; [by apply jremove_obj|by apply assoc_del_nodup].
Qed.

Lemma jget_jset v k x k' :
  is_obj v -> jget (jset v k x) k' = if String.eqb k k' then Some x else jget v k'.
Proof.
  intros (kvs & -> & Hnd). rewrite jset_obj by done.
  rewrite !jget_obj by (done || by apply assoc_set_nodup). apply assoc_set_spec.
Qed.

Lemma jget_jremove v k k' :
  is_obj v -> jget (jremove v k) k' = if String.eqb k k' then None else jget v k'.
Proof.
  intros (kvs & -> & Hnd). rewrite jremove_obj by done.
  rewrite !jget_obj by (done || by apply assoc_del_nodup). apply assoc_del_other.
Qed.

Lemma get_str_jset v k s k' :
  is_obj v -> get_str (jset v k (jstr s)) k' = if String.eqb k k' then Some s else get_str v k'.
Proof.
  intros Hv. unfold get_str. rewrite jget_jset by done.
  destruct (String.eqb k k'); [apply jas_str_jstr|done].
Qed.

Lemma get_str_jset_other v k x k' :
  is_obj v -> k <> k' -> get_str (jset v k x) k' = get_str v k'.
Proof.
  intros Hv Hk. unfold get_str. rewrite jget_jset by done. by apply String.eqb_neq in Hk as ->.
Qed.

Lemma get_str_jremove v k k' :
  is_obj v -> get_str (jremove v k) k' = if String.eqb k k' then None else get_str v k'.
Proof.
  intros Hv. unfold get_str. rewrite jget_jremove by done. by destruct (String.eqb k k').
Qed.

Lemma get_str_obj kvs k :
  List.NoDup (map fst kvs) ->
  get_str (jobj kvs) k = match assoc k kvs with Some x => jas_str x | None => None end.
Proof. intros. unfold get_str. by rewrite jget_obj. Qed.

Lemma get_array_obj kvs k :
  List.NoDup (map fst kvs) ->
  get_array (jobj kvs) k = match assoc k kvs with Some x => jas_array x | None => None end.
Proof. intros. unfold get_array. by rewrite jget_obj. Qed.
End Objects.

#[export] Hint Resolve is_obj_jobj is_obj_jset is_obj_jremove : vpn.

(** Distinct literal keys. *)
Ltac lit_nodup := solve [repeat constructor; simpl; intuition discriminate].

(** *** The tree operations of [json] *)

Fixpoint json_height (v : json) : nat :=
  match v with
  | JArr l => S ((fix go l := match l with [] => O | x :: l' => Nat.max (json_height x) (go l') end) l)
  | JObj kvs =>
      S ((fix go l := match l with [] => O | (_, x) :: l' => Nat.max (json_height x) (go l') end) kvs)
  | _ => O
  end.

#[export] Instance json_tree : JsonTree json := {
  jcase v := match v with
             | JNull => VNull | JBool b => VBool b | JNum _ => VNum | JStr s => VStr s
             | JArr l => VArr l | JObj kvs => VObj kvs
             end;
  jset v k x := match v with JObj kvs => JObj (assoc_set k x kvs) | _ => v end;
  jremove v k := match v with JObj kvs => JObj (assoc_del k kvs) | _ => v end;
  jheight := json_height }.

#[export] Instance json_tree_laws : JsonTreeLaws json.
Proof.
  split; simpl; try done.
  - intros kvs _. by exists kvs.
  - intros v l x E Hin. destruct v; try discriminate E. injection E as ->. simpl.
    induction l as [|y l IH]; [done|]. destruct Hin as [<-|Hin]; [lia|]. specialize (IH Hin). lia.
  - intros v l k x E Hin. destruct v; try discriminate E. injection E as ->. simpl.
    induction l as [|[y v] l IH]; [done|].
    destruct Hin as [[= <- <-]|Hin]; [lia|]. specialize (IH Hin). lia.
Qed.

#[export] Instance json_view_laws : JsonViewLaws json.
Proof.
  split; simpl.
  - intros v kvs k E. destruct v; try discriminate E. by injection E as ->.
  - intros v k E. destruct v; try done. by destruct (E kvs).
  - intros v kvs k x k' E. destruct v; try discriminate E. apply assoc_set_spec.
  - intros v kvs k k' E. destruct v; try discriminate E. apply assoc_del_other.
  - intros v kvs k x E. destruct v; try discriminate E. eauto.
  - intros v kvs k E. destruct v; try discriminate E. eauto.
Qed.

Fixpoint json_eqb (x y : json) : bool :=
  match x, y with
  | JNull, JNull => true
  | JBool a, JBool b => Bool.eqb a b
  | JNum a, JNum b => a =? b
  | JStr a, JStr b => String.eqb a b
  | JArr l, JArr m =>
      (fix go l m := match l, m with
                     | [], [] => true
                     | x :: l', y :: m' => json_eqb x y && go l' m'
                     | _, _ => false
                     end) l m
  | JObj l, JObj m =>
      (fix go l m := match l, m with
                     | [], [] => true
                     | (k, x) :: l', (k', y) :: m' => String.eqb k k' && json_eqb x y && go l' m'
                     | _, _ => false
                     end) l m
  | _, _ => false
  end.
#[export] Instance json_eq : JsonEq json := json_eqb.

#[export] Instance json_eq_laws : JsonEqLaws json.
Proof.
  unfold JsonEqLaws, jeqb, json_eq.
  fix IH 1. intros x y. destruct x as [|a|a|a|l|l], y as [|b|b|b|m|m]; simpl; try (split; done).
  - rewrite Bool.eqb_true_iff. split; congruence.
  - rewrite Z.eqb_eq. split; congruence.
  - rewrite String.eqb_eq. split; congruence.
  - enough (H : forall m, (fix go l m := match l, m with
                     | [], [] => true
                     | x :: l', y :: m' => json_eqb x y && go l' m'
                     | _, _ => false
                     end) l m = true <-> l = m) by (rewrite H; split; congruence).
    clear m. induction l as [|x l IHl]; intros [|y m]; try (split; done).
    rewrite andb_true_iff, IH, IHl. split; [intros [-> ->]; done|intros [= -> ->]; done].
  - enough (H : forall m, (fix go l m := match l, m with
                     | [], [] => true
                     | (k, x) :: l', (k', y) :: m' => String.eqb k k' && json_eqb x y && go l' m'
                     | _, _ => false
                     end) l m = true <-> l = m) by (rewrite H; split; congruence).
    clear m. induction l as [|[k x] l IHl]; intros [|[k' y] m]; try (split; done).
    rewrite !andb_true_iff, String.eqb_eq, IH, IHl. split; [intros [[-> ->] ->]; done|intros [= -> -> ->]; done].
Qed.

(** A compact printer for [json], for the witnesses (no escaping). *)
Definition json_quote (s : string) : string := String (Ascii.ascii_of_nat 34) (s +:+ String (Ascii.ascii_of_nat 34) EmptyString).
Fixpoint json_print (v : json) : string :=
  match v with
  | JNull => "null"
  | JBool b => if b then "true" else "false"
  | JNum z => i64_to_string z
  | JStr s => json_quote s
  | JArr l => "[" +:+ (fix go l := match l with
                                   | [] => "]"
                                   | x :: l' => json_print x +:+ "," +:+ go l'
                                   end) l
  | JObj kvs => "{" +:+ (fix go l := match l with
                                     | [] => "}"
                                     | (k, x) :: l' => json_quote k +:+ ":" +:+ json_print x +:+ "," +:+ go l'
                                     end) kvs
  end.
