(* ===== verification/Contract.v ===== *)
(** * crates/provisioning-contract/src/lib.rs

    The versioned document a first-party client provisions itself from: its
    data model, the validation every emitted document passes, the audit of the
    serialized form, and the cross-check between the endpoint catalog and the
    sing-box configuration embedded beside it.

    Error values keep the fields that identify the offending item; message
    texts are dropped.  The embedded configuration is a JSON value of any type
    [V] with the operations of [Json.v]; [to_string] is [Value]'s [Display]. *)

From S2P Require Import Prelude Strs Json.
From Stdlib Require Import Ascii.

Module Contract.

Definition SCHEMA_VERSION : Z := 1.
Definition SUPPORTED_SCHEMA_VERSIONS : list Z := [SCHEMA_VERSION].
Definition PRODUCT : string := "singbox-vpn".
Definition MINIMUM_CLIENT_VERSION : string := "0.1.0".
Definition VLESS_FLOW_VISION : string := "xtls-rprx-vision".
Definition EXPERIMENTAL_CAPABILITY_PREFIX : string := "diag-".

Definition mem (s : string) (l : list string) : bool := existsb (String.eqb s) l.

Definition is_supported_schema_version (v : Z) : bool :=
  existsb (Z.eqb v) SUPPORTED_SCHEMA_VERSIONS.

(** ** Errors *)

Inductive ContractError :=
| UnsupportedSchemaVersion (requested : Z) (supported : list Z)
| Empty (field : string)
| Invalid (field : string)
| MalformedUuid (endpoint_id got : string)
| MissingRealityParameter (endpoint_id missing : string)
| EmptyHysteria2Password (endpoint_id : string)
| EmptyObfsPassword (endpoint_id : string)
| CapabilityWithoutEndpoint (capability : string)
| EndpointWithoutCapability (endpoint_id transport : string)
| DuplicateEndpointId (id : string)
| DuplicateAccessPathId (id : string)
| UnknownAccessPathReference (endpoint_id path_id : string)
| ExperimentalInProductionCapabilities (capability : string)
| ExperimentalCapabilityMisnamed (capability prefix : string)
| ForbiddenContent (found reason : string)
| EmbeddedConfigInvalid
| EndpointTagMissingOutbound (endpoint_id tag : string)
| SelectorOptionsMismatch (selector : string) (expected found : list string)
| RouteFinalMismatch (selector found : string)
| RelayedEndpointNotChained (tag : string)
| AutomaticGroupCrossesPrivacyClass (group member : string).

(** ** Capabilities, transports and paths *)

Inductive Transport := TVlessReality | THysteria2 | TOther (s : string).
Inductive Capability := CVlessReality | CHysteria2 | COther (s : string).
Inductive PathType := PDirect | POther (s : string).
Inductive AccessPathKind := KDirect | KRelay | KOther (s : string).

#[global] Instance Capability_eq_dec : EqDecision Capability.
Proof. solve_decision. Defined.
#[global] Instance AccessPathKind_eq_dec : EqDecision AccessPathKind.
Proof. solve_decision. Defined.

Definition Transport_as_str (self : Transport) : string :=
  match self with TVlessReality => "vless-reality" | THysteria2 => "hysteria2" | TOther s => s end.

Definition Capability_as_str (self : Capability) : string :=
  match self with CVlessReality => "vless-reality" | CHysteria2 => "hysteria2" | COther s => s end.
Definition Capability_from_wire (s : string) : Capability :=
  if String.eqb s "vless-reality" then CVlessReality else
  if String.eqb s "hysteria2" then CHysteria2 else COther s.
Definition for_transport (t : Transport) : Capability :=
  match t with TVlessReality => CVlessReality | THysteria2 => CHysteria2 | TOther s => COther s end.

Definition tcp_only : string := "diag-tcp-only".
Definition vision_off : string := "diag-vision-off".

Definition PathType_as_str (self : PathType) : string :=
  match self with PDirect => "direct" | POther s => s end.
Definition PathType_from_wire (s : string) : PathType :=
  if String.eqb s "direct" then PDirect else POther s.

Definition AccessPathKind_as_str (self : AccessPathKind) : string :=
  match self with KDirect => "direct" | KRelay => "relay" | KOther s => s end.
Definition AccessPathKind_from_wire (s : string) : AccessPathKind :=
  if String.eqb s "direct" then KDirect else if String.eqb s "relay" then KRelay else KOther s.

(** ** Access paths and endpoints *)

Record AccessPath := {
  ap_id : string;
  ap_kind : AccessPathKind;
  ap_via_endpoint_id : option string;
  ap_failure_domain : option string;
  ap_region : option string;
  ap_provider : option string;
  ap_capabilities : list string }.

Record RealityParams := { public_key : string; short_id : string; fingerprint : string }.
Record Hysteria2Obfs := { obfs_type : string; obfs_password : string }.

Definition salamander (password : string) : Hysteria2Obfs :=
  {| obfs_type := "salamander"; obfs_password := password |}.

Inductive TransportParams :=
| PVlessReality (uuid : string) (flow : option string) (reality : RealityParams)
| PHysteria2 (password : string) (obfs : option Hysteria2Obfs).

Definition params_transport (self : TransportParams) : Transport :=
  match self with PVlessReality _ _ _ => TVlessReality | PHysteria2 _ _ => THysteria2 end.

Record Endpoint := {
  ep_id : string;
  ep_tag : string;
  ep_host : string;
  ep_port : Z;
  ep_server_name : string;
  ep_failure_domain : option string;
  ep_region : option string;
  ep_provider : option string;
  ep_asn : option string;
  ep_path : option PathType;
  ep_params : TransportParams }.

Definition Endpoint_new (id tag host : string) (port : Z) (server_name : string)
  (params : TransportParams) : Endpoint :=
  {| ep_id := id; ep_tag := tag; ep_host := host; ep_port := port; ep_server_name := server_name;
     ep_failure_domain := None; ep_region := None; ep_provider := None; ep_asn := None;
     ep_path := None; ep_params := params |}.

Definition with_metadata (self : Endpoint) (failure_domain region provider asn : option string)
  (path : option PathType) : Endpoint :=
  {| ep_id := ep_id self; ep_tag := ep_tag self; ep_host := ep_host self; ep_port := ep_port self;
     ep_server_name := ep_server_name self; ep_failure_domain := failure_domain;
     ep_region := region; ep_provider := provider; ep_asn := asn; ep_path := path;
     ep_params := ep_params self |}.

Definition transport (self : Endpoint) : Transport := params_transport (ep_params self).

Definition ep_capability (self : Endpoint) : Capability := for_transport (transport self).

(** ** The document *)

Record ServerInfo := { product : string; version : string; minimum_client_version : string }.

Definition ServerInfo_current (v : string) : ServerInfo :=
  {| product := PRODUCT; version := v; minimum_client_version := MINIMUM_CLIENT_VERSION |}.

Record ProvisioningDocument (V : Type) := {
  schema_version : Z;
  server : ServerInfo;
  capabilities : list Capability;
  experimental_capabilities : list string;
  access_paths : list AccessPath;
  endpoints : list Endpoint;
  singbox_config : option V }.
Arguments schema_version {V}.
Arguments server {V}.
Arguments capabilities {V}.
Arguments experimental_capabilities {V}.
Arguments access_paths {V}.
Arguments endpoints {V}.
Arguments singbox_config {V}.

Definition document_new {V} (server : ServerInfo) (capabilities : list Capability)
  (endpoints : list Endpoint) : ProvisioningDocument V :=
  {| schema_version := SCHEMA_VERSION; server := server; capabilities := capabilities;
     experimental_capabilities := []; access_paths := []; endpoints := endpoints;
     singbox_config := None |}.

Definition with_experimental_capabilities {V} (self : ProvisioningDocument V)
  (experimental : list string) : ProvisioningDocument V :=
  {| schema_version := schema_version self; server := server self;
     capabilities := capabilities self; experimental_capabilities := experimental;
     access_paths := access_paths self; endpoints := endpoints self;
     singbox_config := singbox_config self |}.

Definition with_access_paths {V} (self : ProvisioningDocument V) (paths : list AccessPath)
  : ProvisioningDocument V :=
  {| schema_version := schema_version self; server := server self;
     capabilities := capabilities self;
     experimental_capabilities := experimental_capabilities self; access_paths := paths;
     endpoints := endpoints self; singbox_config := singbox_config self |}.

Definition with_singbox_config {V} (self : ProvisioningDocument V) (config : V)
  : ProvisioningDocument V :=
  {| schema_version := schema_version self; server := server self;
     capabilities := capabilities self;
     experimental_capabilities := experimental_capabilities self;
     access_paths := access_paths self; endpoints := endpoints self;
     singbox_config := Some config |}.

Definition supports {V} (self : ProvisioningDocument V) (capability : Capability) : bool :=
  bool_decide (capability ∈ capabilities self).

(** ** Field checks *)

Definition non_empty (field value : string) : result unit ContractError :=
  if is_blank value then Err (Empty field) else Ok tt.

Definition is_uuid (s : string) : bool :=
  let groups := split_on "-" s in
  if negb (Nat.eqb (length groups) 5) then false else
  forallb (fun '(g, len) => (slen g =? len) && str_all is_ascii_hexdigit g)
    (combine groups [8; 4; 4; 4; 12]).

Definition opt_non_empty (fv : string * option string) : result unit ContractError :=
  match snd fv with Some value => non_empty (fst fv) value | None => Ok tt end.

Fixpoint check_path_capabilities (seen l : list string) : result unit ContractError :=
  match l with
  | [] => Ok tt
  | capability :: l' =>
      let? _ := non_empty "access_paths[].capabilities[]" capability in
      if mem capability seen then Err (Invalid "access_paths[].capabilities") else
      check_path_capabilities (seen ++ [capability]) l'
  end.

Definition AccessPath_validate (self : AccessPath) : result unit ContractError :=
  let? _ := non_empty "access_paths[].id" (ap_id self) in
  let? _ := non_empty "access_paths[].kind" (AccessPathKind_as_str (ap_kind self)) in
  let? _ := opt_non_empty ("access_paths[].via_endpoint_id", ap_via_endpoint_id self) in
  match ap_capabilities self with
  | [] => Err (Invalid "access_paths[].capabilities")
  | _ =>
      let? _ := check_path_capabilities [] (ap_capabilities self) in
      for_each opt_non_empty
        [("access_paths[].failure_domain", ap_failure_domain self);
         ("access_paths[].region", ap_region self);
         ("access_paths[].provider", ap_provider self)]
  end.

(** The transport-specific half of [Endpoint::validate]. *)
Definition validate_params (self : Endpoint) : result unit ContractError :=
  match ep_params self with
  | PVlessReality uuid flow reality =>
      if negb (is_uuid uuid) then Err (MalformedUuid (ep_id self) uuid) else
      let? _ := match flow with
                | Some f => if String.eqb f VLESS_FLOW_VISION then Ok tt else Err (Invalid "endpoint.flow")
                | None => Ok tt
                end in
      if is_blank (public_key reality) then Err (MissingRealityParameter (ep_id self) "public_key") else
      if is_blank (short_id reality) then Err (MissingRealityParameter (ep_id self) "short_id") else
      if is_blank (fingerprint reality) then Err (MissingRealityParameter (ep_id self) "fingerprint") else
      if negb (str_all is_ascii_hexdigit (short_id reality))
         || negb (slen (short_id reality) mod 2 =? 0)
         || (16 <? slen (short_id reality))
      then Err (Invalid "endpoint.reality.short_id") else Ok tt
  | PHysteria2 password obfs =>
      if is_blank password then Err (EmptyHysteria2Password (ep_id self)) else
      match obfs with
      | Some obfs =>
          if is_blank (obfs_password obfs) then Err (EmptyObfsPassword (ep_id self)) else
          if String.eqb (obfs_type obfs) "salamander" then Ok tt else Err (Invalid "endpoint.obfs.type")
      | None => Ok tt
      end
  end.

Definition Endpoint_validate (self : Endpoint) : result unit ContractError :=
  let? _ := non_empty "endpoint.id" (ep_id self) in
  let? _ := non_empty "endpoint.tag" (ep_tag self) in
  let? _ := non_empty "endpoint.host" (ep_host self) in
  let? _ := non_empty "endpoint.server_name" (ep_server_name self) in
  if has_whitespace (ep_host self) || str_any (is_char "/") (ep_host self)
  then Err (Invalid "endpoint.host") else
  if ep_port self =? 0 then Err (Invalid "endpoint.port") else
  validate_params self.

Fixpoint check_access_paths (seen : list string) (l : list AccessPath) : result unit ContractError :=
  match l with
  | [] => Ok tt
  | path :: l' =>
      let? _ := AccessPath_validate path in
      if mem (ap_id path) seen then Err (DuplicateAccessPathId (ap_id path)) else
      check_access_paths (seen ++ [ap_id path]) l'
  end.

(** A path reference resolves once the document lists access paths. *)
Definition check_path_reference (paths : list AccessPath) (ep : Endpoint) : result unit ContractError :=
  match paths, ep_path ep with
  | _ :: _, Some (POther path_id) =>
      if existsb (fun path => String.eqb (ap_id path) path_id) paths then Ok tt
      else Err (UnknownAccessPathReference (ep_id ep) path_id)
  | _, _ => Ok tt
  end.

Fixpoint check_endpoints (paths : list AccessPath) (caps : list Capability) (seen : list string)
  (l : list Endpoint) : result unit ContractError :=
  match l with
  | [] => Ok tt
  | ep :: l' =>
      let? _ := Endpoint_validate ep in
      if mem (ep_id ep) seen then Err (DuplicateEndpointId (ep_id ep)) else
      let? _ := check_path_reference paths ep in
      if bool_decide (ep_capability ep ∈ caps) then check_endpoints paths caps (seen ++ [ep_id ep]) l'
      else Err (EndpointWithoutCapability (ep_id ep) (Transport_as_str (transport ep)))
  end.

Definition check_capability (cap : Capability) : result unit ContractError :=
  if starts_with EXPERIMENTAL_CAPABILITY_PREFIX (Capability_as_str cap)
  then Err (ExperimentalInProductionCapabilities (Capability_as_str cap))
  else non_empty "capabilities[]" (Capability_as_str cap).

Definition check_experimental (cap : string) : result unit ContractError :=
  if starts_with EXPERIMENTAL_CAPABILITY_PREFIX cap then Ok tt
  else Err (ExperimentalCapabilityMisnamed cap EXPERIMENTAL_CAPABILITY_PREFIX).

Definition check_served (eps : list Endpoint) (cap : Capability) : result unit ContractError :=
  if existsb (fun ep => bool_decide (ep_capability ep = cap)) eps then Ok tt
  else Err (CapabilityWithoutEndpoint (Capability_as_str cap)).

(** ** The serialized form *)

Section Document.
Context {V : Type} `{JsonOps V, !JsonTree V}.
(** [Value]'s [Display], and [serde_json::to_string_pretty] on a document. *)
Context (to_string : V -> string) (to_string_pretty : ProvisioningDocument V -> option string).

Definition opt_field (k : string) (o : option string) : list (string * V) :=
  match o with Some s => [(k, jstr s)] | None => [] end.

Definition params_fields (p : TransportParams) : list (string * V) :=
  match p with
  | PVlessReality uuid flow reality =>
      [("transport", jstr "vless-reality"); ("uuid", jstr uuid)] ++ opt_field "flow" flow ++
      [("reality", jobj [("public_key", jstr (public_key reality));
                         ("short_id", jstr (short_id reality));
                         ("fingerprint", jstr (fingerprint reality))])]
  | PHysteria2 password obfs =>
      [("transport", jstr "hysteria2"); ("password", jstr password)] ++
      match obfs with
      | Some o => [("obfs", jobj [("type", jstr (obfs_type o)); ("password", jstr (obfs_password o))])]
      | None => []
      end
  end.

Definition endpoint_value (ep : Endpoint) : V :=
  jobj ([("id", jstr (ep_id ep)); ("tag", jstr (ep_tag ep)); ("host", jstr (ep_host ep));
         ("port", jint (ep_port ep)); ("server_name", jstr (ep_server_name ep))] ++
        opt_field "failure_domain" (ep_failure_domain ep) ++ opt_field "region" (ep_region ep) ++
        opt_field "provider" (ep_provider ep) ++ opt_field "asn" (ep_asn ep) ++
        opt_field "path" (option_map PathType_as_str (ep_path ep)) ++ params_fields (ep_params ep)).

Definition access_path_value (p : AccessPath) : V :=
  jobj ([("id", jstr (ap_id p)); ("kind", jstr (AccessPathKind_as_str (ap_kind p)))] ++
        opt_field "via_endpoint_id" (ap_via_endpoint_id p) ++
        opt_field "failure_domain" (ap_failure_domain p) ++ opt_field "region" (ap_region p) ++
        opt_field "provider" (ap_provider p) ++
        [("capabilities", jarr (map jstr (ap_capabilities p)))]).

Definition document_value (self : ProvisioningDocument V) : V :=
  jobj ([("schema_version", jint (schema_version self));
         ("server", jobj [("product", jstr (product (server self)));
                          ("version", jstr (version (server self)));
                          ("minimum_client_version", jstr (minimum_client_version (server self)))]);
         ("capabilities", jarr (map (fun c => jstr (Capability_as_str c)) (capabilities self)));
         ("experimental_capabilities", jarr (map jstr (experimental_capabilities self)))] ++
        match access_paths self with
        | [] => []
        | paths => [("access_paths", jarr (map access_path_value paths))]
        end ++
        [("endpoints", jarr (map endpoint_value (endpoints self)))] ++
        match singbox_config self with Some config => [("singbox_config", config)] | None => [] end).

Definition dquote (s : string) : string := String "034"%char (s +:+ String "034"%char EmptyString).

Definition FORBIDDEN_CONTENT : list (string * string) :=
  [("private_key", "server-private key material");
   ("privatekey", "server-private key material");
   ("private-key", "server-private key material");
   ("-----BEGIN", "PEM-encoded key or certificate");
   (".pem", "TLS/server filesystem path");
   ("/etc/", "server filesystem path");
   ("/var/", "server filesystem path");
   ("/opt/", "server filesystem path");
   ("insecure", "certificate-verification opt-out");
   (dquote "dns", "client-owned DNS policy");
   (dquote "mtu", "client-owned MTU");
   (dquote "tun", "client-owned TUN configuration");
   ("auto_route", "client-owned routing policy");
   ("strict_route", "client-owned routing policy");
   ("kill_switch", "client-owned kill switch");
   ("kill-switch", "client-owned kill switch");
   (dquote "inbounds", "client-owned listener configuration");
   ("ipv6_", "client-owned IP-family policy");
   (dquote "ipv4", "client-owned IP-family policy");
   (dquote "ipv6", "client-owned IP-family policy")].

Definition audit_serialized (self : ProvisioningDocument V) : result unit ContractError :=
  let envelope := jremove (document_value self) "singbox_config" in
  let lowered := to_ascii_lowercase (to_string envelope) in
  for_each (fun '(needle, reason) =>
    if str_contains (to_ascii_lowercase needle) lowered then Err (ForbiddenContent needle reason)
    else Ok tt) FORBIDDEN_CONTENT.

(** ** The embedded configuration *)

Definition SELECTOR_GROUP_TAG : string := "select".
Definition AUTO_GROUP_TAG : string := "auto".
Definition EMBEDDED_CONFIG_TOP_LEVEL_ALLOWED : list string := ["outbounds"; "route"].
Definition EMBEDDED_CONFIG_ROUTE_ALLOWED : list string := ["final"; "rules"].
Definition EMBEDDED_CONFIG_FORBIDDEN_KEYS : list string := ["private_key"; "privatekey"; "private-key"].
Definition EMBEDDED_CONFIG_FORBIDDEN_VALUES : list string :=
  ["-----begin"; ".pem"; "/etc/"; "/var/"; "/opt/"].

Definition key_forbidden (key : string) : bool :=
  existsb (fun k => str_contains k (to_ascii_lowercase key)) EMBEDDED_CONFIG_FORBIDDEN_KEYS.
Definition is_false (v : V) : bool := match jcase v with VBool false => true | _ => false end.
Definition insecure_opt_out (key : string) (child : V) : bool :=
  String.eqb (to_ascii_lowercase key) "insecure" && negb (is_false child).
Definition value_forbidden (s : string) : bool :=
  existsb (fun needle => str_contains needle (to_ascii_lowercase s)) EMBEDDED_CONFIG_FORBIDDEN_VALUES.

(** The walk recurses into children, so the height of the value bounds it. *)
Fixpoint audit_walk (fuel : nat) (value : V) : result unit ContractError :=
  match fuel with
  | O => Err EmbeddedConfigInvalid
  | S fuel' =>
      match jcase value with
      | VObj kvs =>
          for_each (fun '(key, child) =>
            if key_forbidden key then Err EmbeddedConfigInvalid else
            if insecure_opt_out key child then Err EmbeddedConfigInvalid else
            audit_walk fuel' child) kvs
      | VArr items => for_each (audit_walk fuel') items
      | VStr s => if value_forbidden s then Err EmbeddedConfigInvalid else Ok tt
      | _ => Ok tt
      end
  end.
Definition audit_embedded_value (value : V) : result unit ContractError :=
  audit_walk (S (jheight value)) value.

Definition keys_allowed (allowed : list string) (kvs : list (string * V)) : result unit ContractError :=
  for_each (fun '(key, _) => if mem key allowed then Ok tt else Err EmbeddedConfigInvalid) kvs.

Definition audit_embedded_config (self : ProvisioningDocument V) : result unit ContractError :=
  match singbox_config self with
  | None => Ok tt
  | Some config =>
      match jcase config with
      | VObj root =>
          let? _ := keys_allowed EMBEDDED_CONFIG_TOP_LEVEL_ALLOWED root in
          let? _ := match jget config "route" with
                    | None => Ok tt
                    | Some route =>
                        match jcase route with
                        | VObj route => keys_allowed EMBEDDED_CONFIG_ROUTE_ALLOWED route
                        | _ => Err EmbeddedConfigInvalid
                        end
                    end in
          audit_embedded_value config
      | _ => Err EmbeddedConfigInvalid
      end
  end.

Definition tag_of (ob : V) : option string := get_str ob "tag".
Definition has_tag (t : string) (ob : V) : bool :=
  match tag_of ob with Some t' => String.eqb t' t | None => false end.

Definition is_relayed (paths : list AccessPath) (ep : Endpoint) : bool :=
  match ep_path ep with
  | Some (POther path_id) =>
      existsb (fun path => String.eqb (ap_id path) path_id && bool_decide (ap_kind path = KRelay)) paths
  | _ => false
  end.
Definition relayed_tags (paths : list AccessPath) (eps : list Endpoint) : list string :=
  map ep_tag (List.filter (is_relayed paths) eps).

Definition or_default (o : option string) : string :=
  match o with Some s => s | None => EmptyString end.

Definition check_outbound (relayed : list string) (ob : V) : result unit ContractError :=
  let tag := or_default (tag_of ob) in
  if mem tag relayed && bool_decide (get_str ob "detour" = None)
  then Err (RelayedEndpointNotChained tag) else
  if bool_decide (get_str ob "type" = Some "urltest") then
    for_each (fun member =>
      let member := or_default (jas_str member) in
      if mem member relayed then Ok tt else Err (AutomaticGroupCrossesPrivacyClass tag member))
      (match get_array ob "outbounds" with Some l => l | None => [] end)
  else Ok tt.

Definition final_tag (config : V) : string :=
  or_default (match jget config "route" with Some r => get_str r "final" | None => None end).

Definition cross_validate_embedded_config (self : ProvisioningDocument V) : result unit ContractError :=
  match singbox_config self with
  | None => Ok tt
  | Some config =>
      let? outbounds := ok_or (get_array config "outbounds") EmbeddedConfigInvalid in
      let rendered_tags := omap tag_of outbounds in
      let? _ := for_each (fun ep =>
                  if mem (ep_tag ep) rendered_tags then Ok tt
                  else Err (EndpointTagMissingOutbound (ep_id ep) (ep_tag ep))) (endpoints self) in
      let? selector := ok_or (List.find (has_tag SELECTOR_GROUP_TAG) outbounds) EmbeddedConfigInvalid in
      let? options := ok_or (get_array selector "outbounds") EmbeddedConfigInvalid in
      let found := sort_stable str_leb (omap jas_str options) in
      let expected := sort_stable str_leb (map ep_tag (endpoints self) ++ [AUTO_GROUP_TAG]) in
      if negb (bool_decide (expected = found))
      then Err (SelectorOptionsMismatch SELECTOR_GROUP_TAG expected found) else
      if negb (String.eqb (final_tag config) SELECTOR_GROUP_TAG)
      then Err (RouteFinalMismatch SELECTOR_GROUP_TAG (final_tag config)) else
      match relayed_tags (access_paths self) (endpoints self) with
      | [] => Ok tt
      | relayed => for_each (check_outbound relayed) outbounds
      end
  end.

(** ** Validation and serialization *)

(** The part of [validate] that looks at the catalog only. *)
Definition validate_catalog (self : ProvisioningDocument V) : result unit ContractError :=
  if negb (is_supported_schema_version (schema_version self))
  then Err (UnsupportedSchemaVersion (schema_version self) SUPPORTED_SCHEMA_VERSIONS) else
  let? _ := non_empty "server.product" (product (server self)) in
  let? _ := non_empty "server.version" (version (server self)) in
  let? _ := non_empty "server.minimum_client_version" (minimum_client_version (server self)) in
  let? _ := for_each check_capability (capabilities self) in
  let? _ := for_each check_experimental (experimental_capabilities self) in
  let? _ := check_access_paths [] (access_paths self) in
  let? _ := check_endpoints (access_paths self) (capabilities self) [] (endpoints self) in
  for_each (check_served (endpoints self)) (capabilities self).

Definition validate (self : ProvisioningDocument V) : result unit ContractError :=
  let? _ := validate_catalog self in
  let? _ := audit_serialized self in
  let? _ := audit_embedded_config self in
  cross_validate_embedded_config self.

Definition to_json (self : ProvisioningDocument V) : result string ContractError :=
  let? _ := validate self in
  ok_or (to_string_pretty self) (Invalid "document").

(** [parse] is [serde_json::from_str]. *)
Definition from_json (parse : string -> option (ProvisioningDocument V)) (s : string)
  : result (ProvisioningDocument V) ContractError :=
  let? doc := ok_or (parse s) (Invalid "document") in
  let? _ := validate doc in
  Ok doc.

End Document.

(** ** Lemmas on the field checks *)

Lemma mem_In s l : mem s l = true <-> In s l.
Proof.
  unfold mem. rewrite existsb_exists. split.
  - intros (x & Hin & E). apply String.eqb_eq in E. by subst.
  - intros Hin. exists s. split; [done|apply String.eqb_refl].
Qed.

Lemma mem_false s l : mem s l = false <-> ~ In s l.
Proof. rewrite <- mem_In. destruct (mem s l); split; congruence. Qed.

Lemma non_empty_ok f v : non_empty f v = Ok tt <-> is_blank v = false.
Proof. unfold non_empty. by destruct (is_blank v). Qed.

Lemma bind_unit_ok {A E} (r : result unit E) (k : unit -> result A E) (a : A) :
  (let? x := r in k x) = Ok a <-> r = Ok tt /\ k tt = Ok a.
Proof.
  destruct r as [[]|e]; simpl.
  - split; [by intros ->|by intros [_ ->]].
  - split; [discriminate|intros [[=] _]].
Qed.

Lemma if_err_ok {A E} (b : bool) (e : E) (r : result A E) (a : A) :
  (if b then Err e else r) = Ok a <-> b = false /\ r = Ok a.
Proof. destruct b; split; [discriminate|intros [[=] _]|auto|by intros [_ ?]]. Qed.

(** ** What a valid catalog promises *)

Definition reality_ok (r : RealityParams) : Prop :=
  is_blank (public_key r) = false /\ is_blank (short_id r) = false /\
  is_blank (fingerprint r) = false /\ str_all is_ascii_hexdigit (short_id r) = true /\
  slen (short_id r) mod 2 = 0 /\ slen (short_id r) <= 16.

Definition params_ok (p : TransportParams) : Prop :=
  match p with
  | PVlessReality uuid flow reality =>
      is_uuid uuid = true /\ (flow = None \/ flow = Some VLESS_FLOW_VISION) /\ reality_ok reality
  | PHysteria2 password obfs =>
      is_blank password = false /\
      (obfs = None \/ exists pw, obfs = Some (salamander pw) /\ is_blank pw = false)
  end.

Definition endpoint_ok (ep : Endpoint) : Prop :=
  is_blank (ep_id ep) = false /\ is_blank (ep_tag ep) = false /\ is_blank (ep_host ep) = false /\
  is_blank (ep_server_name ep) = false /\ has_whitespace (ep_host ep) = false /\
  str_any (is_char "/") (ep_host ep) = false /\ ep_port ep <> 0 /\ params_ok (ep_params ep).

Lemma validate_params_iff ep : validate_params ep = Ok tt <-> params_ok (ep_params ep).
Proof.
  unfold validate_params. destruct (ep_params ep) as [uuid flow r|password obfs]; simpl.
  - rewrite !if_err_ok, bind_unit_ok, !if_err_ok, !orb_false_iff, !negb_false_iff, Z.eqb_eq, Z.ltb_ge.
    unfold reality_ok. destruct flow as [f|]; [|intuition].
    destruct (String.eqb f VLESS_FLOW_VISION) eqn:E; b2p.
    + subst. intuition.
    + intuition congruence.
  - rewrite if_err_ok. destruct obfs as [[ty pw]|]; simpl; [|intuition].
    rewrite if_err_ok. destruct (String.eqb ty "salamander") eqn:E; b2p.
    + subst. split; [intros (?&?&_); split; [done|right; by exists pw]|].
      intros (?&[[=]|(pw'&[= <-]&?)]); done.
    + split; [intros (?&?&[=])|]. intros (?&[[=]|(pw'&[= Ht Hp]&?)]); done.
Qed.

Lemma Endpoint_validate_iff ep : Endpoint_validate ep = Ok tt <-> endpoint_ok ep.
Proof.
  unfold Endpoint_validate, endpoint_ok. rewrite !bind_unit_ok, !if_err_ok, !non_empty_ok,
    orb_false_iff, Z.eqb_neq, validate_params_iff. tauto.
Qed.

Definition path_ok (p : AccessPath) : Prop :=
  is_blank (ap_id p) = false /\ is_blank (AccessPathKind_as_str (ap_kind p)) = false /\
  ap_capabilities p <> [] /\ List.NoDup (ap_capabilities p) /\
  (forall c, In c (ap_capabilities p) -> is_blank c = false) /\
  (forall s, ap_via_endpoint_id p = Some s \/ ap_failure_domain p = Some s \/
     ap_region p = Some s \/ ap_provider p = Some s -> is_blank s = false).

Lemma nodup_snoc {A} (l : list A) x : List.NoDup (l ++ [x]) <-> List.NoDup l /\ ~ In x l.
Proof.
  rewrite (Permutation_app_comm l [x]). simpl. rewrite NoDup_cons_iff. tauto.
Qed.

Lemma check_path_capabilities_ok seen l :
  List.NoDup seen ->
  check_path_capabilities seen l = Ok tt <->
  List.NoDup (seen ++ l) /\ forall c, In c l -> is_blank c = false.
Proof.
  revert seen; induction l as [|c l IH]; intros seen Hnd; simpl.
  - rewrite app_nil_r. split; [intros _; split; [done|intros ? []]|done].
  - rewrite bind_unit_ok, non_empty_ok, if_err_ok, mem_false. split.
    + intros (Hb & Hm & Hr). apply IH in Hr as [Hr Hc]; [|by apply nodup_snoc].
      rewrite <- app_assoc in Hr. split; [done|]. intros x [<-|?]; auto.
    + intros [Hr Hc]. change (c :: l) with ([c] ++ l) in Hr. rewrite app_assoc in Hr.
      pose proof (NoDup_app_remove_r _ _ Hr) as Hr'. apply nodup_snoc in Hr' as [_ Hm].
      split; [auto|]. split; [done|]. apply IH; [by apply nodup_snoc|]. auto.
Qed.

Lemma opt_non_empty_ok f o :
  opt_non_empty (f, o) = Ok tt <-> forall s, o = Some s -> is_blank s = false.
Proof.
  unfold opt_non_empty. destruct o as [s|]; simpl; [rewrite non_empty_ok|].
  - split; [by intros ? ? [= <-]|auto].
  - done.
Qed.

Lemma AccessPath_validate_iff p : AccessPath_validate p = Ok tt <-> path_ok p.
Proof.
  unfold AccessPath_validate, path_ok. rewrite !bind_unit_ok, !non_empty_ok, opt_non_empty_ok.
  destruct (ap_capabilities p) as [|c l]; [split; [intros (?&?&?&[=])|intros (?&?&[]&?); done]|].
  rewrite bind_unit_ok, check_path_capabilities_ok by constructor. simpl app.
  rewrite for_each_ok. split.
  - intros (Hi & Hk & Hv & (Hnd & Hc) & Ho). repeat split; try done.
    intros s [Hs|[Hs|[Hs|Hs]]]; [by eapply Hv|..];
      (eapply opt_non_empty_ok; [|exact Hs]; apply Ho; simpl; tauto).
  - intros (Hi & Hk & _ & Hnd & Hc & Ho). repeat split; try done; [eauto|].
    intros [f o] Hin. apply opt_non_empty_ok. intros s ->. simpl in Hin. apply Ho.
    destruct Hin as [[= _ E]|[[= _ E]|[[= _ E]|[]]]]; tauto.
Qed.

(** A loop that refuses a key it has seen and otherwise checks each item. *)
Lemma check_access_paths_ok seen l :
  List.NoDup seen ->
  check_access_paths seen l = Ok tt <->
  List.NoDup (seen ++ map ap_id l) /\ forall p, In p l -> path_ok p.
Proof.
  revert seen; induction l as [|c l IH]; intros seen Hnd; simpl.
  - rewrite app_nil_r. split; [intros _; split; [done|intros ? []]|done].
  - rewrite bind_unit_ok, AccessPath_validate_iff, if_err_ok, mem_false. split.
    + intros (Hb & Hm & Hr). apply IH in Hr as [Hr Hc]; [|by apply nodup_snoc].
      rewrite <- app_assoc in Hr. split; [done|]. intros x [<-|?]; auto.
    + intros [Hr Hc]. change (ap_id c :: map ap_id l) with ([ap_id c] ++ map ap_id l) in Hr.
      rewrite app_assoc in Hr.
      pose proof (NoDup_app_remove_r _ _ Hr) as Hr'. apply nodup_snoc in Hr' as [_ Hm].
      split; [auto|]. split; [done|]. apply IH; [by apply nodup_snoc|]. auto.
Qed.

Definition path_resolves (paths : list AccessPath) (ep : Endpoint) : Prop :=
  forall path_id, paths <> [] -> ep_path ep = Some (POther path_id) -> In path_id (map ap_id paths).

Lemma check_path_reference_ok paths ep :
  check_path_reference paths ep = Ok tt <-> path_resolves paths ep.
Proof.
  unfold check_path_reference, path_resolves. destruct paths as [|p ps].
  { split; [by intros _ ? []|done]. }
  destruct (ep_path ep) as [[|pid]|]; [split; [by intros _ ? _ [=]|done]| |split; [by intros _ ? _ [=]|done]].
  destruct (existsb _ _) eqn:E.
  - split; [|done]. intros _ pid' _ [= <-]. apply existsb_exists in E as (x & Hx & Ex).
    apply String.eqb_eq in Ex as <-. by apply in_map.
  - split; [discriminate|]. intros Hr. exfalso. specialize (Hr pid ltac:(done) eq_refl).
    apply in_map_iff in Hr as (x & Ex & Hx). rewrite existsb_false_iff in E.
    specialize (E x Hx). simpl in E. by rewrite Ex, String.eqb_refl in E.
Qed.

Lemma check_endpoints_ok paths caps seen l :
  List.NoDup seen ->
  check_endpoints paths caps seen l = Ok tt <->
  List.NoDup (seen ++ map ep_id l) /\
  forall ep, In ep l -> endpoint_ok ep /\ path_resolves paths ep /\ In (ep_capability ep) caps.
Proof.
  revert seen; induction l as [|c l IH]; intros seen Hnd; simpl.
  - rewrite app_nil_r. split; [intros _; split; [done|intros ? []]|done].
  - rewrite bind_unit_ok, Endpoint_validate_iff, if_err_ok, mem_false, bind_unit_ok, check_path_reference_ok.
    assert (Hcap : forall (r : result unit ContractError) e,
      (if bool_decide (ep_capability c ∈ caps) then r else Err e) = Ok tt <->
      In (ep_capability c) caps /\ r = Ok tt).
    { intros r e. rewrite <- list_elem_of_In. case_bool_decide; split; try done; [tauto|]. intros []; done. }
    rewrite Hcap. clear Hcap. split.
    + intros (Hb & Hm & Hp & Hk & Hr). apply IH in Hr as [Hr Hc]; [|by apply nodup_snoc].
      rewrite <- app_assoc in Hr. split; [done|]. intros x [<-|?]; auto.
    + intros [Hr Hc]. change (ep_id c :: map ep_id l) with ([ep_id c] ++ map ep_id l) in Hr.
      rewrite app_assoc in Hr. destruct (Hc c (or_introl eq_refl)) as (?&?&?).
      pose proof (NoDup_app_remove_r _ _ Hr) as Hr'. apply nodup_snoc in Hr' as [_ Hm].
      split; [done|]. split; [done|]. split; [done|]. split; [done|].
      apply IH; [by apply nodup_snoc|]. auto.
Qed.

Section Valid.
Context {V : Type} {JO : JsonOps V} {JL : JsonLaws V} {JT : JsonTree V} {JTL : JsonTreeLaws V}.
Implicit Types (doc : ProvisioningDocument V).

(** The catalog half of the contract: what a client may rely on without
    looking at the embedded configuration. *)
Record catalog_ok doc : Prop := {
  co_version : schema_version doc = SCHEMA_VERSION;
  co_server : is_blank (product (server doc)) = false /\ is_blank (version (server doc)) = false /\
    is_blank (minimum_client_version (server doc)) = false;
  co_production : forall c, In c (capabilities doc) ->
    starts_with EXPERIMENTAL_CAPABILITY_PREFIX (Capability_as_str c) = false /\
    is_blank (Capability_as_str c) = false;
  co_experimental : forall c, In c (experimental_capabilities doc) ->
    starts_with EXPERIMENTAL_CAPABILITY_PREFIX c = true;
  co_paths : List.NoDup (map ap_id (access_paths doc)) /\
    forall p, In p (access_paths doc) -> path_ok p;
  co_endpoints : List.NoDup (map ep_id (endpoints doc)) /\
    forall ep, In ep (endpoints doc) -> endpoint_ok ep /\ path_resolves (access_paths doc) ep;
  co_capabilities : forall c, In c (capabilities doc) <->
    exists ep, In ep (endpoints doc) /\ ep_capability ep = c }.

Lemma check_served_ok eps c :
  check_served eps c = Ok tt <-> exists ep, In ep eps /\ ep_capability ep = c.
Proof.
  unfold check_served. destruct (existsb _ eps) eqn:E.
  - split; [|done]. intros _. apply existsb_exists in E as (ep & ? & Eb). exists ep.
    split; [done|]. by apply bool_decide_eq_true in Eb.
  - split; [discriminate|]. intros (ep & Hin & <-). rewrite existsb_false_iff in E.
    specialize (E ep Hin). by rewrite bool_decide_true in E.
Qed.

Lemma supported_version v : is_supported_schema_version v = true <-> v = SCHEMA_VERSION.
Proof. unfold is_supported_schema_version. simpl. rewrite orb_false_r. apply Z.eqb_eq. Qed.

Lemma validate_catalog_iff doc : validate_catalog doc = Ok tt <-> catalog_ok doc.
Proof.
  unfold validate_catalog. rewrite if_err_ok, negb_false_iff, supported_version.
  rewrite !bind_unit_ok, !non_empty_ok, !for_each_ok.
  rewrite check_access_paths_ok, check_endpoints_ok by constructor. simpl app. split.
  - intros (Hv & Hp & Hs & Hm & Hc & He & Ha & (Hn & Hep) & Hsv). split; try done.
    + intros c Hin. specialize (Hc c Hin). unfold check_capability in Hc.
      apply if_err_ok in Hc as [? Hc]. by apply non_empty_ok in Hc.
    + intros c Hin. specialize (He c Hin). unfold check_experimental in He. by destruct (starts_with _ c).
    + split; [done|]. intros ep Hin. by destruct (Hep ep Hin) as (?&?&?).
    + intros c. split; [intros Hin; by apply check_served_ok, Hsv|].
      intros (ep & Hin & <-). by destruct (Hep ep Hin) as (?&?&?).
  - intros [Hv (Hp & Hs & Hm) Hc He Ha (Hn & Hep) Hcap].
    do 4 (split; [done|]). split; [|split; [|split; [done|split; [split; [done|]|]]]].
    + intros c Hin. apply if_err_ok. rewrite non_empty_ok. auto.
    + intros c Hin. unfold check_experimental. by rewrite He.
    + intros ep Hin. destruct (Hep ep Hin). split; [done|]. split; [done|]. apply Hcap. eauto.
    + intros c Hin. by apply check_served_ok, Hcap.
Qed.

(** ** The audit of the embedded configuration *)

(** [subvalue v w]: [w] is [v] or occurs somewhere below it. *)
Inductive subvalue : V -> V -> Prop :=
| sub_refl v : subvalue v v
| sub_arr v l x w : jcase v = VArr l -> In x l -> subvalue x w -> subvalue v w
| sub_obj v kvs k x w : jcase v = VObj kvs -> In (k, x) kvs -> subvalue x w -> subvalue v w.

(** One node of the tree is clean. *)
Definition node_clean (v : V) : Prop :=
  match jcase v with
  | VObj kvs => forall k x, In (k, x) kvs ->
      key_forbidden k = false /\ (to_ascii_lowercase k = "insecure" -> jcase x = VBool false)
  | VStr s => value_forbidden s = false
  | _ => True
  end.

Lemma insecure_opt_out_false k (x : V) :
  insecure_opt_out k x = false <-> (to_ascii_lowercase k = "insecure" -> jcase x = VBool false).
Proof.
  unfold insecure_opt_out, is_false. destruct (String.eqb _ _) eqn:E; simpl; b2p.
  - destruct (jcase x) as [|[]| | | |] eqn:Ex; split; intros Hx; try done; specialize (Hx E); congruence.
  - done.
Qed.

(** A tree is clean if its root is and its children's trees are. *)
Lemma tree_clean_arr v l :
  jcase v = VArr l ->
  (forall w, subvalue v w -> node_clean w) <->
  forall x, In x l -> forall w, subvalue x w -> node_clean w.
Proof.
  intros E. split.
  - intros Hc x Hin w Hs. apply Hc. by eapply sub_arr.
  - intros Hc w Hs. inversion Hs as [|? l' x ? E' Hin Hs'|? kvs k x ? E' Hin Hs']; subst.
    + unfold node_clean. by rewrite E.
    + rewrite E in E'. injection E' as <-. eauto.
    + congruence.
Qed.

Lemma tree_clean_obj v kvs :
  jcase v = VObj kvs ->
  (forall w, subvalue v w -> node_clean w) <->
  forall k x, In (k, x) kvs -> key_forbidden k = false /\
    (to_ascii_lowercase k = "insecure" -> jcase x = VBool false) /\
    forall w, subvalue x w -> node_clean w.
Proof.
  intros E. split.
  - intros Hc k x Hin. pose proof (Hc v (sub_refl v)) as Hv. unfold node_clean in Hv. rewrite E in Hv.
    destruct (Hv k x Hin). split; [done|]. split; [done|]. intros w Hs. apply Hc. by eapply sub_obj.
  - intros Hc w Hs. inversion Hs as [|? l' x ? E' Hin Hs'|? kvs' k x ? E' Hin Hs']; subst.
    + unfold node_clean. rewrite E. intros k x Hin. by destruct (Hc k x Hin) as (?&?&_).
    + congruence.
    + rewrite E in E'. injection E' as <-. by apply (Hc k x Hin).
Qed.

Lemma tree_clean_leaf v :
  (forall l, jcase v <> VArr l) -> (forall l, jcase v <> VObj l) ->
  (forall w, subvalue v w -> node_clean w) <-> node_clean v.
Proof.
  intros Ha Ho. split; [intros Hc; apply Hc, sub_refl|].
  intros Hc w Hs. inversion Hs; subst; [done| |]; exfalso; [by eapply Ha|by eapply Ho].
Qed.

Lemma audit_walk_iff fuel v :
  (jheight v < fuel)%nat ->
  audit_walk fuel v = Ok tt <-> forall w, subvalue v w -> node_clean w.
Proof.
  revert v; induction fuel as [|fuel IH]; intros v Hf; [lia|]. simpl.
  destruct (jcase v) as [| | |s|l|kvs] eqn:E;
    try (rewrite tree_clean_leaf by (rewrite E; done); unfold node_clean; rewrite E; done).
  - rewrite tree_clean_leaf by (rewrite E; done). unfold node_clean. rewrite E.
    rewrite if_err_ok. intuition.
  - rewrite (tree_clean_arr _ _ E), for_each_ok. split; intros Hx x Hin;
      (apply IH; [pose proof (jheight_arr _ _ _ E Hin); lia|by eauto]).
  - rewrite (tree_clean_obj _ _ E), for_each_ok. split.
    + intros Hx k x Hin. specialize (Hx _ Hin). simpl in Hx. rewrite !if_err_ok, insecure_opt_out_false in Hx.
      destruct Hx as (?&?&Hx). split; [done|]. split; [done|].
      apply IH; [pose proof (jheight_obj _ _ _ _ E Hin); lia|done].
    + intros Hx [k x] Hin. rewrite !if_err_ok, insecure_opt_out_false. destruct (Hx k x Hin) as (?&?&?).
      split; [done|]. split; [done|]. apply IH; [pose proof (jheight_obj _ _ _ _ E Hin); lia|done].
Qed.

(** ** The cross-check between catalog and configuration *)

(** The configuration dials exactly what the catalog lists, and dials relayed
    endpoints through their first hop only. *)
Record config_agrees doc (config : V) : Prop := {
  ca_outbounds : exists outbounds, get_array config "outbounds" = Some outbounds /\
    (forall ep, In ep (endpoints doc) -> exists ob, In ob outbounds /\ tag_of ob = Some (ep_tag ep)) /\
    (exists selector options,
       List.find (has_tag SELECTOR_GROUP_TAG) outbounds = Some selector /\
       get_array selector "outbounds" = Some options /\
       Permutation (map ep_tag (endpoints doc) ++ [AUTO_GROUP_TAG]) (omap jas_str options)) /\
    (relayed_tags (access_paths doc) (endpoints doc) <> [] -> forall ob, In ob outbounds ->
       (In (or_default (tag_of ob)) (relayed_tags (access_paths doc) (endpoints doc)) ->
          get_str ob "detour" <> None) /\
       (get_str ob "type" = Some "urltest" -> forall members m, get_array ob "outbounds" = Some members ->
          In m members -> In (or_default (jas_str m)) (relayed_tags (access_paths doc) (endpoints doc))));
  ca_final : final_tag config = SELECTOR_GROUP_TAG }.

Lemma check_outbound_ok relayed (ob : V) :
  check_outbound relayed ob = Ok tt <->
  (In (or_default (tag_of ob)) relayed -> get_str ob "detour" <> None) /\
  (get_str ob "type" = Some "urltest" -> forall members m, get_array ob "outbounds" = Some members ->
     In m members -> In (or_default (jas_str m)) relayed).
Proof.
  unfold check_outbound. rewrite if_err_ok, andb_false_iff, mem_false, bool_decide_eq_false.
  assert (Hd : (~ In (or_default (tag_of ob)) relayed \/ get_str ob "detour" <> None) <->
    (In (or_default (tag_of ob)) relayed -> get_str ob "detour" <> None)).
  { destruct (in_dec String.string_dec (or_default (tag_of ob)) relayed); tauto. }
  rewrite Hd. apply and_iff_compat_l. case_bool_decide as Ht; [|split; [done|by intros]].
  rewrite for_each_ok. split.
  - intros Hm _ members m E Hin. rewrite E in Hm. specialize (Hm m Hin). simpl in Hm.
    destruct (mem _ _) eqn:Em; [by apply mem_In|discriminate].
  - intros Hm m Hin. destruct (get_array ob "outbounds") as [l|] eqn:E; [|done].
    specialize (Hm Ht l m eq_refl Hin). apply mem_In in Hm. by rewrite Hm.
Qed.

Lemma ok_or_ok {A E} (o : option A) (e : E) a : ok_or o e = Ok a <-> o = Some a.
Proof. destruct o; simpl; split; congruence. Qed.

Lemma bind_ok {A B E} (r : result A E) (k : A -> result B E) b :
  (let? x := r in k x) = Ok b <-> exists a, r = Ok a /\ k a = Ok b.
Proof.
  destruct r as [a|e]; simpl.
  - split; [by exists a|]. by intros (? & [= <-] & ?).
  - split; [discriminate|]. by intros (? & [=] & ?).
Qed.

Lemma In_tags t (outbounds : list V) :
  In t (omap tag_of outbounds) <-> exists ob, In ob outbounds /\ tag_of ob = Some t.
Proof. apply In_filter_map. Qed.

Lemma check_rendered_ok (outbounds : list V) eps :
  for_each (fun ep => if mem (ep_tag ep) (omap tag_of outbounds) then Ok tt
    else Err (EndpointTagMissingOutbound (ep_id ep) (ep_tag ep))) eps = Ok tt <->
  forall ep, In ep eps -> exists ob, In ob outbounds /\ tag_of ob = Some (ep_tag ep).
Proof.
  rewrite for_each_ok. split; intros Hx ep Hin; specialize (Hx ep Hin).
  - destruct (mem _ _) eqn:E; [|discriminate]. by apply mem_In, In_tags in E.
  - by apply In_tags, mem_In in Hx as ->.
Qed.

Lemma cross_validate_iff doc config :
  singbox_config doc = Some config ->
  cross_validate_embedded_config doc = Ok tt <-> config_agrees doc config.
Proof.
  intros Ec. unfold cross_validate_embedded_config. rewrite Ec, bind_ok.
  setoid_rewrite ok_or_ok. setoid_rewrite bind_unit_ok. setoid_rewrite check_rendered_ok.
  setoid_rewrite bind_ok. setoid_rewrite ok_or_ok. setoid_rewrite bind_ok. setoid_rewrite ok_or_ok.
  setoid_rewrite if_err_ok. setoid_rewrite negb_false_iff. setoid_rewrite bool_decide_eq_true.
  setoid_rewrite sort_str_perm.
  set (rt := relayed_tags (access_paths doc) (endpoints doc)).
  assert (Hrel : forall outbounds : list V,
    (if negb (String.eqb (final_tag config) SELECTOR_GROUP_TAG)
     then Err (RouteFinalMismatch SELECTOR_GROUP_TAG (final_tag config))
     else match rt with [] => Ok tt | s :: l => for_each (check_outbound (s :: l)) outbounds end) = Ok tt <->
    final_tag config = SELECTOR_GROUP_TAG /\
    (rt <> [] -> forall ob, In ob outbounds -> check_outbound rt ob = Ok tt)).
  { intros outbounds. rewrite if_err_ok, negb_false_iff, String.eqb_eq. apply and_iff_compat_l.
    destruct rt; [split; [by intros _ []|done]|]. rewrite for_each_ok.
    split; [auto|]. intros Hx. by apply Hx. }
  setoid_rewrite Hrel. setoid_rewrite check_outbound_ok. split.
  - intros (obs & Ho & Hr & sel & Hs & opts & Hopt & Hp & Hf & Hrest). split; [|done].
    exists obs. split; [done|]. split; [done|]. split; [by exists sel, opts|done].
  - intros [(obs & Ho & Hr & (sel & opts & Hs & Hopt & Hp) & Hrest) Hf].
    exists obs. split; [done|]. split; [done|]. exists sel. split; [done|]. by exists opts.
Qed.

(** Nothing forbidden anywhere in the embedded configuration. *)
Definition config_clean (config : V) : Prop :=
  (exists root, jcase config = VObj root /\
     forall k x, In (k, x) root -> In k EMBEDDED_CONFIG_TOP_LEVEL_ALLOWED) /\
  (forall r, jget config "route" = Some r -> exists route, jcase r = VObj route /\
     forall k x, In (k, x) route -> In k EMBEDDED_CONFIG_ROUTE_ALLOWED) /\
  (forall w, subvalue config w -> node_clean w).

Lemma keys_allowed_ok allowed (kvs : list (string * V)) :
  keys_allowed allowed kvs = Ok tt <-> forall k x, In (k, x) kvs -> In k allowed.
Proof.
  unfold keys_allowed. rewrite for_each_ok. split.
  - intros Hx k x Hin. specialize (Hx _ Hin). simpl in Hx. destruct (mem k allowed) eqn:E; [by apply mem_In|done].
  - intros Hx [k x] Hin. by rewrite (proj2 (mem_In k allowed) (Hx k x Hin)).
Qed.

Lemma audit_embedded_config_ok doc config :
  singbox_config doc = Some config ->
  audit_embedded_config doc = Ok tt <-> config_clean config.
Proof.
  intros Ec. unfold audit_embedded_config, config_clean. rewrite Ec.
  destruct (jcase config) as [| | | | |root] eqn:E;
    try (split; [discriminate|intros ((?&[=]&?)&?)]).
  rewrite !bind_unit_ok, keys_allowed_ok. unfold audit_embedded_value.
  rewrite audit_walk_iff by lia.
  assert (Hr : (match jget config "route" with
    | None => Ok tt
    | Some route => match jcase route with
                    | VObj route => keys_allowed EMBEDDED_CONFIG_ROUTE_ALLOWED route
                    | _ => Err EmbeddedConfigInvalid
                    end
    end) = Ok tt <-> forall r, jget config "route" = Some r -> exists route, jcase r = VObj route /\
     forall k x, In (k, x) route -> In k EMBEDDED_CONFIG_ROUTE_ALLOWED).
  { destruct (jget config "route") as [r|]; [|by split]. split.
    - intros Hx r' [= <-]. destruct (jcase r) eqn:Er; try discriminate. eexists. split; [done|].
      by apply keys_allowed_ok.
    - intros Hx. destruct (Hx r eq_refl) as (route & -> & Hk). by apply keys_allowed_ok. }
  rewrite Hr. split.
  - intros (? & ? & ?). split; [by exists root|done].
  - intros ((root' & [= <-] & ?) & ? & ?). done.
Qed.

Context (to_string : V -> string).

Definition envelope_clean doc : Prop :=
  forall needle reason, In (needle, reason) FORBIDDEN_CONTENT ->
    str_contains (to_ascii_lowercase needle)
      (to_ascii_lowercase (to_string (jremove (document_value doc) "singbox_config"))) = false.

Lemma audit_serialized_ok doc : audit_serialized to_string doc = Ok tt <-> envelope_clean doc.
Proof.
  unfold audit_serialized, envelope_clean. rewrite for_each_ok. split.
  - intros Hx n r Hin. specialize (Hx _ Hin). simpl in Hx. by apply if_err_ok in Hx as [? _].
  - intros Hx [n r] Hin. apply if_err_ok. eauto.
Qed.

(** C4: [ProvisioningDocument::validate] decides its contract.  It accepts a
    document exactly when the schema version is the implemented one, ids are
    unique, every endpoint is dialable, capabilities are exactly the
    transports of the listed endpoints, path references resolve, and nothing
    forbidden occurs in the serialized envelope; and, if a configuration is
    embedded, when that is clean at every depth and agrees with the catalog:
    the selector offers exactly the endpoints plus [auto], [route.final] is
    the selector, and in a document with relayed endpoints every outbound
    carrying a relayed tag has a detour and every [urltest] group holds
    relayed tags only. *)
Theorem validate_iff doc :
  validate to_string doc = Ok tt <->
  catalog_ok doc /\ envelope_clean doc /\
  forall config, singbox_config doc = Some config -> config_clean config /\ config_agrees doc config.
Proof.
  unfold validate. rewrite !bind_unit_ok, validate_catalog_iff, audit_serialized_ok.
  apply and_iff_compat_l, and_iff_compat_l. destruct (singbox_config doc) as [config|] eqn:Ec.
  - rewrite (audit_embedded_config_ok _ _ Ec), (cross_validate_iff _ _ Ec).
    split; [by intros ? ? [= <-]|auto].
  - unfold audit_embedded_config, cross_validate_embedded_config. rewrite Ec. by split.
Qed.

End Valid.

(** ** An example document: one relayed exit behind a first hop *)

Definition ex_reality : RealityParams :=
  {| public_key := "pbk"; short_id := "0a1b"; fingerprint := "chrome" |}.
Definition ex_exit : Endpoint :=
  with_metadata (Endpoint_new "exit-1" "Exit" "de1.example.test" 443 "www.example.com"
    (PVlessReality "22222222-2222-4222-8222-222222222222" None ex_reality))
    None None None None (Some (POther "ru")).
Definition ex_relay_path : AccessPath :=
  {| ap_id := "ru"; ap_kind := KRelay; ap_via_endpoint_id := Some "reality-1"; ap_failure_domain := None;
     ap_region := None; ap_provider := None; ap_capabilities := ["vless-reality"] |}.
Definition ex_config : json :=
  JObj [("outbounds", JArr
    [JObj [("type", JStr "vless"); ("tag", JStr "Exit"); ("detour", JStr "Reality")];
     JObj [("type", JStr "vless"); ("tag", JStr "Reality")];
     JObj [("type", JStr "urltest"); ("tag", JStr "auto"); ("outbounds", JArr [JStr "Exit"])];
     JObj [("type", JStr "selector"); ("tag", JStr "select"); ("outbounds", JArr [JStr "Exit"; JStr "auto"])]]);
    ("route", JObj [("final", JStr "select")])].
Definition ex_document : ProvisioningDocument json :=
  with_singbox_config (with_access_paths
    (document_new (ServerInfo_current "1.0.0") [CVlessReality] [ex_exit]) [ex_relay_path]) ex_config.

Lemma validate_iff_witness :
  validate json_print ex_document = Ok tt /\ config_agrees ex_document ex_config.
Proof.
  assert (H : validate json_print ex_document = Ok tt) by (vm_compute; reflexivity).
  split; [exact H|].
  exact (proj2 (proj2 (proj2 (proj1 (validate_iff json_print ex_document) H)) ex_config eq_refl)).
Defined.
End Contract.
