(* ===== verification/Render.v ===== *)
(** * crates/compat-config/src/contract.rs (endpoints) and render.rs

    From a user and a listener to the endpoint a client receives
    ([contract_endpoint_opt]), and from contract endpoints to share links and
    to the sing-box client configuration.  [Json.v] gives the JSON values;
    base64 is an argument. *)

From S2P Require Import Prelude Strs Credentials Grants Json Contract.
From Stdlib Require Import Ascii.

Module Render.
Import Contract.

(** ** Listeners (model.rs) *)

Inductive PublicParameters :=
| Reality (public_key_hex short_id fingerprint : string)
| PubHysteria2 (obfs_password : option string).

Inductive EndpointOrigin := Local | Peer.
Inductive EndpointVlessFlow := FlowVision | FlowNone.

#[global] Instance EndpointVlessFlow_eq_dec : EqDecision EndpointVlessFlow.
Proof. solve_decision. Defined.

Record CompatEndpoint := {
  ce_id : string;
  ce_transport : Grants.CompatTransport;
  ce_host : string;
  ce_port : Z;
  ce_server_name : option string;
  ce_label : string;
  ce_public_parameters : PublicParameters;
  ce_origin : EndpointOrigin;
  ce_failure_domain : option string;
  ce_region : option string;
  ce_provider : option string;
  ce_asn : option string;
  ce_path : option string;
  ce_credential_ref : option string;
  ce_vless_flow : EndpointVlessFlow }.

(** ** Errors *)

(** What a [CompatError::Parse] of these modules is about. *)
Inductive parse_error :=
| NoPeerCredential (user endpoint : string)
| CredentialCoerced (user endpoint : string)
| WrongCredentialKind (user endpoint : string)
| SelectableWithoutEndpoint (id : string)
| DuplicateSelectableTag (tag : string)
| UnknownAccessPath (endpoint path : string)
| NotARelayPath (endpoint path : string)
| RelayWithoutVia (endpoint path : string)
| UnavailableFirstHop (path via : string)
| SelfDetour (endpoint : string)
| RelayNotVless (path : string)
| CannotPin (tag : string)
| NoOutboundsArray
| BadProfileTitle.

Inductive CompatError :=
| Parse (e : parse_error)
| WrongTransportForEndpoint
| NoSelectableRoute
| ContractViolation (e : ContractError).

(** ** One listener for one user (contract.rs) *)

Inductive VlessFlow := Vision | VisionOff.

Definition unwrap_or {A} (o : option A) (d : A) : A := match o with Some x => x | None => d end.

(** The credential a user presents to an endpoint: the user's own one
    ([Ok (Some None)]), a peer credential, or none ([Ok None]). *)
Definition resolve_credential (user : Grants.CompatUser) (endpoint : CompatEndpoint)
  : result (option (option Grants.PeerCredential)) CompatError :=
  match ce_origin endpoint with
  | Local => Ok (Some None)
  | Peer =>
      let credential_id := unwrap_or (ce_credential_ref endpoint) (ce_id endpoint) in
      match Grants.peer_credential user credential_id with
      | None => Ok None
      | Some c =>
          if bool_decide (Grants.transport c = ce_transport endpoint) then Ok (Some (Some c))
          else Err (Parse (CredentialCoerced (Grants.id user) (ce_id endpoint)))
      end
  end.

(** The transport parameters, given the credential. *)
Definition endpoint_params (user : Grants.CompatUser) (endpoint : CompatEndpoint) (flow : VlessFlow)
  (credential : option Grants.PeerCredential) : result TransportParams CompatError :=
  let wrong := Err (Parse (WrongCredentialKind (Grants.id user) (ce_id endpoint))) in
  match ce_public_parameters endpoint with
  | Reality public_key_hex short_id fingerprint =>
      let? uuid := match credential with
                   | None => Ok (Grants.u_vless_uuid user)
                   | Some (Grants.PeerVlessReality uuid) => Ok uuid
                   | Some _ => wrong
                   end in
      Ok (PVlessReality uuid
            (match flow with Vision => Some VLESS_FLOW_VISION | VisionOff => None end)
            {| public_key := public_key_hex; short_id := short_id; fingerprint := fingerprint |})
  | PubHysteria2 obfs =>
      let? password := match credential with
                       | None => Ok (Grants.u_hysteria2_password user)
                       | Some (Grants.PeerHysteria2 password) => Ok password
                       | Some _ => wrong
                       end in
      Ok (PHysteria2 password (option_map salamander obfs))
  end.

Definition contract_endpoint_opt (user : Grants.CompatUser) (endpoint : CompatEndpoint)
  (flow : VlessFlow) (tag_override : option string) : result (option Endpoint) CompatError :=
  let flow := match ce_vless_flow endpoint with FlowNone => VisionOff | FlowVision => flow end in
  let server_name := unwrap_or (ce_server_name endpoint) (ce_host endpoint) in
  let tag := unwrap_or tag_override (ce_label endpoint) in
  let? credential := resolve_credential user endpoint in
  match credential with
  | None => Ok None
  | Some credential =>
      let? params := endpoint_params user endpoint flow credential in
      Ok (Some (with_metadata
        (Endpoint_new (ce_id endpoint) tag (ce_host endpoint) (ce_port endpoint) server_name params)
        (ce_failure_domain endpoint) (ce_region endpoint) (ce_provider endpoint) (ce_asn endpoint)
        (option_map PathType_from_wire (ce_path endpoint))))
  end.

Definition contract_endpoint (user : Grants.CompatUser) (endpoint : CompatEndpoint)
  (flow : VlessFlow) (tag_override : option string) : result Endpoint CompatError :=
  let? o := contract_endpoint_opt user endpoint flow tag_override in
  ok_or o (Parse (NoPeerCredential (Grants.id user) (ce_id endpoint))).

(** [iter().map(f).collect::<Result<Vec<_>, _>>()]. *)
Fixpoint collect {A B E} (f : A -> result B E) (l : list A) : result (list B) E :=
  match l with
  | [] => Ok []
  | x :: l' => let? y := f x in let? ys := collect f l' in Ok (y :: ys)
  end.

Definition contract_endpoints (user : Grants.CompatUser) (endpoints : list CompatEndpoint)
  : result (list Endpoint) CompatError :=
  collect (fun ep => contract_endpoint user ep Vision None) endpoints.

Definition infrastructure_endpoint_ids (access_paths : list AccessPath) : list string :=
  btree_set (omap ap_via_endpoint_id
    (List.filter (fun path => bool_decide (ap_kind path = KRelay)) access_paths)).

(** ** Share links *)

Definition hex_upper (n : Z) : ascii := ascii_of_N (Z.to_N (if n <? 10 then 48 + n else 55 + n)).

Definition is_unreserved (b : ascii) : bool :=
  is_ascii_alphanumeric b || is_char "-" b || is_char "." b || is_char "_" b || is_char "~" b.

Fixpoint percent_encode_label (label : string) : string :=
  match label with
  | EmptyString => EmptyString
  | String b rest =>
      if is_unreserved b then String b (percent_encode_label rest)
      else String "%" (String (hex_upper (byte_val b / 16)) (String (hex_upper (byte_val b mod 16))
             (percent_encode_label rest)))
  end.

Definition render_vless_reality_uri_from_contract (endpoint : Endpoint) : result string CompatError :=
  match ep_params endpoint with
  | PVlessReality uuid flow reality =>
      let flow_param := match flow with Some f => "&flow=" +:+ f | None => EmptyString end in
      Ok ("vless://" +:+ uuid +:+ "@" +:+ ep_host endpoint +:+ ":" +:+ u64_to_string (ep_port endpoint)
          +:+ "?encryption=none&security=reality&sni=" +:+ ep_server_name endpoint
          +:+ "&fp=" +:+ fingerprint reality +:+ "&pbk=" +:+ public_key reality
          +:+ "&sid=" +:+ short_id reality +:+ "&type=tcp" +:+ flow_param
          +:+ "#" +:+ percent_encode_label (ep_tag endpoint))
  | PHysteria2 _ _ => Err WrongTransportForEndpoint
  end.

Definition render_hysteria2_uri_from_contract (endpoint : Endpoint) : result string CompatError :=
  match ep_params endpoint with
  | PHysteria2 password obfs =>
      let uri := "hysteria2://" +:+ password +:+ "@" +:+ ep_host endpoint +:+ ":"
                 +:+ u64_to_string (ep_port endpoint) +:+ "?sni=" +:+ ep_server_name endpoint
                 +:+ "&insecure=0" in
      let uri := match obfs with
                 | Some o => uri +:+ "&obfs=" +:+ obfs_type o +:+ "&obfs-password=" +:+ obfs_password o
                 | None => uri
                 end in
      Ok (uri +:+ "#" +:+ percent_encode_label (ep_tag endpoint))
  | PVlessReality _ _ _ => Err WrongTransportForEndpoint
  end.

Definition VISION_OFF_LABEL_SUFFIX : string := " (EXPERIMENTAL Vision-off)".

Definition render_vless_reality_uri (user : Grants.CompatUser) (endpoint : CompatEndpoint)
  : result string CompatError :=
  let? ep := contract_endpoint user endpoint Vision None in
  render_vless_reality_uri_from_contract ep.

Definition render_vless_reality_uri_vision_off (user : Grants.CompatUser) (endpoint : CompatEndpoint)
  : result string CompatError :=
  let? ep := contract_endpoint user endpoint VisionOff
               (Some (ce_label endpoint +:+ VISION_OFF_LABEL_SUFFIX)) in
  render_vless_reality_uri_from_contract ep.

Definition render_hysteria2_uri (user : Grants.CompatUser) (endpoint : CompatEndpoint)
  : result string CompatError :=
  let? ep := contract_endpoint user endpoint Vision None in
  render_hysteria2_uri_from_contract ep.

Definition is_direct (ep : CompatEndpoint) : bool :=
  match ce_path ep with Some path => String.eqb path "direct" | None => true end.

Definition share_link_endpoints (endpoints : list CompatEndpoint) (access_paths : list AccessPath)
  : list CompatEndpoint :=
  List.filter (fun ep => negb (mem (ce_id ep) (infrastructure_endpoint_ids access_paths)))
    (List.filter is_direct endpoints).

(** One endpoint of the list: [None] is [continue]. *)
Definition share_link (user : Grants.CompatUser) (vision_off : bool) (ep : CompatEndpoint)
  : result (option string) CompatError :=
  if negb (is_direct ep) then Ok None else
  match ce_transport ep with
  | Grants.VlessReality =>
      let '(flow, tag) := if vision_off
                          then (VisionOff, Some (ce_label ep +:+ VISION_OFF_LABEL_SUFFIX))
                          else (Vision, None) in
      let? built := contract_endpoint_opt user ep flow tag in
      match built with
      | Some built => let? uri := render_vless_reality_uri_from_contract built in Ok (Some uri)
      | None => Ok None
      end
  | Grants.Hysteria2 =>
      let? built := contract_endpoint_opt user ep Vision None in
      match built with
      | Some built => let? uri := render_hysteria2_uri_from_contract built in Ok (Some uri)
      | None => Ok None
      end
  end.

Fixpoint share_lines (user : Grants.CompatUser) (vision_off : bool) (l : list CompatEndpoint)
  : result (list string) CompatError :=
  match l with
  | [] => Ok []
  | ep :: l' =>
      let? line := share_link user vision_off ep in
      let? lines := share_lines user vision_off l' in
      Ok (match line with Some uri => uri :: lines | None => lines end)
  end.

Definition render_share_links (user : Grants.CompatUser) (endpoints : list CompatEndpoint)
  (vision_off : bool) : result string CompatError :=
  let? lines := share_lines user vision_off endpoints in
  Ok (join_on "010" lines).

Definition render_uri_list (user : Grants.CompatUser) (endpoints : list CompatEndpoint) :=
  render_share_links user endpoints false.
Definition render_vision_off_uri_list (user : Grants.CompatUser) (endpoints : list CompatEndpoint) :=
  render_share_links user endpoints true.

(** ** The profile title *)

Definition DEFAULT_PROFILE_TITLE : string := "Arcana VPN".
Definition MAX_PROFILE_TITLE_CHARS : Z := 64.

(** [chars().count()]: bytes that do not continue a UTF-8 sequence. *)
Definition chars_count (s : string) : Z :=
  Z.of_nat (length (List.filter (fun b => negb (in_range 128 191 b)) (bytes_of s))).

(** [chars().any(char::is_control)]: U+0000..U+001F and U+007F..U+009F, the
    latter above U+007F encoded as C2 80..9F. *)
Fixpoint has_control (s : string) : bool :=
  match s with
  | EmptyString => false
  | String a s' =>
      in_range 0 31 a || in_range 127 127 a
      || (in_range 194 194 a && match s' with String b _ => in_range 128 159 b | EmptyString => false end)
      || has_control s'
  end.

Definition validate_profile_title (title : string) : result unit CompatError :=
  if is_blank title || negb (String.eqb (trim title) title) then Err (Parse BadProfileTitle) else
  if MAX_PROFILE_TITLE_CHARS <? chars_count title then Err (Parse BadProfileTitle) else
  if has_control title then Err (Parse BadProfileTitle) else Ok tt.

Section Base64.
(** [base64::engine::general_purpose::STANDARD.encode]. *)
Context (base64_encode : string -> string).

Definition to_base64_subscription (body : string) : string := base64_encode body.

Definition profile_title_header_value (title : string) : string :=
  if str_all (in_range 32 126) title && negb (starts_with "base64:" title) then title
  else "base64:" +:+ base64_encode title.
End Base64.

(** ** Profiles and compatibility modes *)

Inductive SelectionProfile := Reliability | Performance | Auto.

Definition SelectionProfile_parse (s : string) : option SelectionProfile :=
  if String.eqb s "reliability" then Some Reliability else
  if String.eqb s "performance" then Some Performance else
  if String.eqb s "auto" then Some Auto else None.

Inductive CompatibilityMode :=
| Normal | TcpOnly | QuicReject | ModeVisionOff | HiddifyPinned | YouTubeDirect.

#[global] Instance CompatibilityMode_eq_dec : EqDecision CompatibilityMode.
Proof. solve_decision. Defined.

Definition CompatibilityMode_parse (s : string) : option CompatibilityMode :=
  if String.eqb s "normal" then Some Normal else
  if String.eqb s "tcp-only" then Some TcpOnly else
  if String.eqb s "quic-reject" then Some QuicReject else
  if String.eqb s "vision-off" then Some ModeVisionOff else
  if String.eqb s "hiddify-pinned" then Some HiddifyPinned else
  if String.eqb s "youtube-direct" then Some YouTubeDirect else None.

Definition GOOGLE_EGRESS_DOMAINS : list string :=
  ["youtube.com"; "youtubekids.com"; "youtu.be"; "youtube-nocookie.com"; "googlevideo.com";
   "ytimg.com"; "ggpht.com"; "googleusercontent.com"; "youtubei.googleapis.com"; "google.com";
   "googleapis.com"; "gstatic.com"].

Definition HIDDIFY_HIDDEN_TAG_SUFFIX : string := " §hide§".

(** ** The sing-box client configuration *)

Section Config.
Context {V : Type} `{JsonOps V, !JsonTree V}.

Definition jstrs (l : list string) : V := jarr (map jstr l).

(** The outbound of an endpoint before any access path is applied. *)
Definition base_outbound (mode : CompatibilityMode) (ep : Endpoint) : V :=
  match ep_params ep with
  | PVlessReality uuid flow reality =>
      let ob := jobj
        [("type", jstr "vless"); ("tag", jstr (ep_tag ep)); ("server", jstr (ep_host ep));
         ("server_port", jint (ep_port ep)); ("uuid", jstr uuid);
         ("tls", jobj [("enabled", jbool true); ("server_name", jstr (ep_server_name ep));
                       ("utls", jobj [("enabled", jbool true);
                                      ("fingerprint", jstr (fingerprint reality))]);
                       ("reality", jobj [("enabled", jbool true);
                                         ("public_key", jstr (public_key reality));
                                         ("short_id", jstr (short_id reality))])])] in
      let ob := match flow with Some f => jset ob "flow" (jstr f) | None => ob end in
      if bool_decide (mode = TcpOnly) then jset ob "network" (jstr "tcp") else ob
  | PHysteria2 password obfs =>
      let ob := jobj
        [("type", jstr "hysteria2"); ("tag", jstr (ep_tag ep)); ("server", jstr (ep_host ep));
         ("server_port", jint (ep_port ep)); ("password", jstr password);
         ("tls", jobj [("enabled", jbool true); ("server_name", jstr (ep_server_name ep));
                       ("insecure", jbool false)])] in
      match obfs with
      | Some o => jset ob "obfs" (jobj [("type", jstr (obfs_type o)); ("password", jstr (obfs_password o))])
      | None => ob
      end
  end.

(** Maps collected from a list: the last entry of a key wins. *)
Definition endpoint_by_id (all : list Endpoint) (i : string) : option Endpoint :=
  List.find (fun ep => String.eqb (ep_id ep) i) (rev all).
Definition path_by_id (paths : list AccessPath) (i : string) : option AccessPath :=
  List.find (fun p => String.eqb (ap_id p) i) (rev paths).

Definition is_vless (ep : Endpoint) : bool :=
  match ep_params ep with PVlessReality _ _ _ => true | PHysteria2 _ _ => false end.

(** The first hop a selectable endpoint must be dialled through, if any. *)
Definition first_hop (all : list Endpoint) (paths : list AccessPath) (ep : Endpoint)
  : result (option Endpoint) CompatError :=
  match paths, ep_path ep with
  | _ :: _, Some (POther path_id) =>
      let? path := ok_or (path_by_id paths path_id) (Parse (UnknownAccessPath (ep_id ep) path_id)) in
      if negb (bool_decide (ap_kind path = KRelay))
      then Err (Parse (NotARelayPath (ep_id ep) path_id)) else
      let? via_id := ok_or (ap_via_endpoint_id path) (Parse (RelayWithoutVia (ep_id ep) path_id)) in
      let? via := ok_or (endpoint_by_id all via_id) (Parse (UnavailableFirstHop path_id via_id)) in
      if String.eqb (ep_id via) (ep_id ep) then Err (Parse (SelfDetour (ep_id ep))) else
      if negb (is_vless ep) || negb (is_vless via) then Err (Parse (RelayNotVless path_id)) else
      Ok (Some via)
  | _, _ => Ok None
  end.

(** The mutable locals of the rendering loop. *)
Record racc := {
  r_outbounds : list V;
  r_tags : list string;
  r_relayed : list string;
  r_reality_tag : option string;
  r_hysteria2_tag : option string }.

Definition racc_empty : racc :=
  {| r_outbounds := []; r_tags := []; r_relayed := []; r_reality_tag := None; r_hysteria2_tag := None |}.

Definition or_else {A} (o d : option A) : option A := match o with Some _ => o | None => d end.

(** The bookkeeping of a selectable endpoint's tag. *)
Definition note_selectable (acc : racc) (ep : Endpoint) : result racc CompatError :=
  if mem (ep_tag ep) (r_tags acc) then Err (Parse (DuplicateSelectableTag (ep_tag ep))) else
  Ok {| r_outbounds := r_outbounds acc; r_tags := r_tags acc ++ [ep_tag ep];
        r_relayed := r_relayed acc;
        r_reality_tag := if is_vless ep then or_else (r_reality_tag acc) (Some (ep_tag ep))
                         else r_reality_tag acc;
        r_hysteria2_tag := if is_vless ep then r_hysteria2_tag acc
                           else or_else (r_hysteria2_tag acc) (Some (ep_tag ep)) |}.

Definition push_outbound (acc : racc) (ob : V) (relayed : list string) : racc :=
  {| r_outbounds := r_outbounds acc ++ [ob]; r_tags := r_tags acc; r_relayed := relayed;
     r_reality_tag := r_reality_tag acc; r_hysteria2_tag := r_hysteria2_tag acc |}.

Definition detour_outbound (ob : V) (via : Endpoint) : V :=
  jset (jset ob "network" (jstr "tcp")) "detour" (jstr (ep_tag via)).

Definition render_step (mode : CompatibilityMode) (all : list Endpoint) (selectable : list string)
  (paths : list AccessPath) (acc : racc) (ep : Endpoint) : result racc CompatError :=
  let is_selectable := mem (ep_id ep) selectable in
  let is_infrastructure := mem (ep_id ep) (infrastructure_endpoint_ids paths) in
  if negb is_selectable && negb is_infrastructure then Ok acc else
  let? acc := if is_selectable then note_selectable acc ep else Ok acc in
  let outbound := base_outbound mode ep in
  let? via := if is_selectable then first_hop all paths ep else Ok None in
  match via with
  | Some via => Ok (push_outbound acc (detour_outbound outbound via) (r_relayed acc ++ [ep_tag ep]))
  | None => Ok (push_outbound acc outbound (r_relayed acc))
  end.

Fixpoint render_loop (mode : CompatibilityMode) (all : list Endpoint) (selectable : list string)
  (paths : list AccessPath) (acc : racc) (l : list Endpoint) : result racc CompatError :=
  match l with
  | [] => Ok acc
  | ep :: l' =>
      let? acc := render_step mode all selectable paths acc ep in
      render_loop mode all selectable paths acc l'
  end.

Definition choose_default (profile : SelectionProfile) (mode : CompatibilityMode) (acc : racc) : string :=
  let reliability := unwrap_or (or_else (r_reality_tag acc) (head (r_tags acc))) "auto" in
  let relayed_or d := match r_relayed acc with t :: _ => t | [] => d end in
  match profile with
  | Auto => if bool_decide (mode <> HiddifyPinned) then "auto" else relayed_or reliability
  | Performance =>
      relayed_or (unwrap_or (or_else (r_hysteria2_tag acc)
                    (or_else (r_reality_tag acc) (head (r_tags acc)))) "auto")
  | Reliability => relayed_or reliability
  end.

(** *** Pinning to one route *)

Definition next_hop (outbounds : list V) (t : string) : option string :=
  match List.find (has_tag t) outbounds with Some ob => get_str ob "detour" | None => None end.

(** The [loop] that extends the chain; [None] would be running out of fuel.
    [rchain] holds the chain backwards, its last element first. *)
Fixpoint follow_chain (fuel : nat) (outbounds : list V) (last : string) (rchain : list string)
  : option (list string) :=
  match fuel with
  | O => None
  | S fuel' =>
      match next_hop outbounds last with
      | Some next =>
          if mem next rchain then Some (rev rchain) else follow_chain fuel' outbounds next (next :: rchain)
      | None => Some (rev rchain)
      end
  end.
Definition detour_chain (outbounds : list V) (keep : string) : option (list string) :=
  follow_chain (S (S (length outbounds))) outbounds keep [keep].

Definition rename_outbound (hidden : string) (ob : V) : V :=
  let renamed := jstr (hidden +:+ HIDDIFY_HIDDEN_TAG_SUFFIX) in
  let ob := if has_tag hidden ob then jset ob "tag" renamed else ob in
  if bool_decide (get_str ob "detour" = Some hidden) then jset ob "detour" renamed else ob.

(** [tags], [auto_members] and [default_tag] become the pinned tag; what is
    left to compute is the outbound list. *)
Definition pin_to_single_route (outbounds : list V) (tags : list string) (keep : string)
  : result (list V) CompatError :=
  if negb (mem keep tags) then Err (Parse (CannotPin keep)) else
  match detour_chain outbounds keep with
  | None => Err (Parse (CannotPin keep))
  | Some chain =>
      let kept := List.filter (fun ob => match tag_of ob with Some t => mem t chain | None => false end)
                    outbounds in
      Ok (foldl (fun obs hidden => map (rename_outbound hidden) obs) kept (drop 1 chain))
  end.

(** *** The configuration *)

Definition quic_reject_rule : V :=
  jobj [("network", jstr "udp"); ("port", jint 443); ("action", jstr "reject");
        ("method", jstr "default"); ("no_drop", jbool true)].
Definition youtube_direct_rule : V :=
  jobj [("domain_suffix", jstrs GOOGLE_EGRESS_DOMAINS); ("outbound", jstr "direct")].

Definition route_value (mode : CompatibilityMode) : V :=
  let route := jobj [("final", jstr "select")] in
  match mode with
  | YouTubeDirect => jset route "rules" (jarr [youtube_direct_rule])
  | QuicReject => jset route "rules" (jarr [quic_reject_rule])
  | _ => route
  end.

Definition urltest_outbound (members : list string) : V :=
  jobj [("type", jstr "urltest"); ("tag", jstr "auto"); ("outbounds", jstrs members);
        ("url", jstr "https://www.gstatic.com/generate_204"); ("interval", jstr "1m")].
Definition selector_outbound (tags : list string) (default_tag : string) : V :=
  jobj [("type", jstr "selector"); ("tag", jstr "select"); ("outbounds", jstrs (tags ++ ["auto"]));
        ("default", jstr default_tag)].
Definition direct_outbound : V := jobj [("type", jstr "direct"); ("tag", jstr "direct")].

Definition finish_config (mode : CompatibilityMode) (outbounds : list V) (tags auto_members : list string)
  (default_tag : string) : V :=
  jobj [("outbounds", jarr (outbounds ++
           [urltest_outbound auto_members; selector_outbound tags default_tag; direct_outbound]));
        ("route", route_value mode)].

Definition render_singbox_config_from_contract_with_access_paths (all : list Endpoint)
  (selectable_ids : list string) (paths : list AccessPath) (profile : SelectionProfile)
  (mode : CompatibilityMode) : result V CompatError :=
  let? _ := for_each (fun i => match endpoint_by_id all i with
                               | Some _ => Ok tt
                               | None => Err (Parse (SelectableWithoutEndpoint i))
                               end) (btree_set selectable_ids) in
  let? acc := render_loop mode all selectable_ids paths racc_empty all in
  match r_tags acc with
  | [] => Err NoSelectableRoute
  | _ =>
      let auto_members := match r_relayed acc with [] => r_tags acc | relayed => relayed end in
      let default_tag := choose_default profile mode acc in
      if bool_decide (mode = HiddifyPinned) then
        let? outbounds := pin_to_single_route (r_outbounds acc) (r_tags acc) default_tag in
        Ok (finish_config mode outbounds [default_tag] [default_tag] default_tag)
      else Ok (finish_config mode (r_outbounds acc) (r_tags acc) auto_members default_tag)
  end.

Definition render_singbox_config_from_contract (eps : list Endpoint) (profile : SelectionProfile)
  (mode : CompatibilityMode) : result V CompatError :=
  render_singbox_config_from_contract_with_access_paths eps (map ep_id eps) [] profile mode.

(** The endpoints of the native subscription, in contract terms. *)
Fixpoint subscription_endpoints (user : Grants.CompatUser) (mode : CompatibilityMode)
  (l : list CompatEndpoint) : result (list Endpoint) CompatError :=
  match l with
  | [] => Ok []
  | ep :: l' =>
      if bool_decide (mode = TcpOnly) && bool_decide (ce_transport ep = Grants.Hysteria2)
      then subscription_endpoints user mode l' else
      let vision_off := bool_decide (mode = ModeVisionOff)
                        && bool_decide (ce_transport ep = Grants.VlessReality) in
      let tag := if vision_off then Some (ce_label ep +:+ VISION_OFF_LABEL_SUFFIX) else None in
      let? built := contract_endpoint user ep (if vision_off then VisionOff else Vision) tag in
      let? rest := subscription_endpoints user mode l' in
      Ok (built :: rest)
  end.

Definition render_singbox_client_subscription_with_options (user : Grants.CompatUser)
  (endpoints : list CompatEndpoint) (profile : SelectionProfile) (mode : CompatibilityMode)
  : result V CompatError :=
  let? eps := subscription_endpoints user mode endpoints in
  render_singbox_config_from_contract eps profile mode.

Definition render_singbox_client_subscription_with_profile (user : Grants.CompatUser)
  (endpoints : list CompatEndpoint) (profile : SelectionProfile) : result V CompatError :=
  render_singbox_client_subscription_with_options user endpoints profile Normal.

Definition render_singbox_client_subscription (user : Grants.CompatUser)
  (endpoints : list CompatEndpoint) : result V CompatError :=
  render_singbox_client_subscription_with_profile user endpoints Reliability.

End Config.

(** ** The standard endpoints of a node *)

Definition standard_endpoint (i : string) (t : Grants.CompatTransport) (host : string) (port : Z)
  (server_name label : string) (params : PublicParameters) : CompatEndpoint :=
  {| ce_id := i; ce_transport := t; ce_host := host; ce_port := port;
     ce_server_name := Some server_name; ce_label := label; ce_public_parameters := params;
     ce_origin := Local; ce_failure_domain := None; ce_region := None; ce_provider := None;
     ce_asn := None; ce_path := None; ce_credential_ref := None; ce_vless_flow := FlowVision |}.

Definition standard_endpoints (public_host : string) (reality_port hysteria_port : Z)
  (reality_public_key_hex reality_short_id handshake_server : string)
  (hysteria_obfs_password : option string) : list CompatEndpoint :=
  [standard_endpoint "reality-1" Grants.VlessReality public_host reality_port handshake_server "Reality"
     (Reality reality_public_key_hex reality_short_id "chrome");
   standard_endpoint "hysteria2-1" Grants.Hysteria2 public_host hysteria_port public_host "Hysteria2"
     (PubHysteria2 hysteria_obfs_password)].

(** ** Lemmas: one endpoint *)

Lemma mem_infrastructure i paths :
  mem i (infrastructure_endpoint_ids paths) = true <->
  exists p, In p paths /\ ap_kind p = KRelay /\ ap_via_endpoint_id p = Some i.
Proof.
  unfold infrastructure_endpoint_ids. rewrite mem_In, In_btree_set, In_filter_map.
  split.
  - intros (p & Hin & Hv). apply In_filterb in Hin as [Hin Hk].
    apply bool_decide_eq_true in Hk. eauto.
  - intros (p & Hin & Hk & Hv). exists p. split; [|done]. apply In_filterb.
    by rewrite bool_decide_eq_true.
Qed.

Lemma collect_ok {A B E} (f : A -> result B E) l ys :
  collect f l = Ok ys <-> Forall2 (fun x y => f x = Ok y) l ys.
Proof.
  revert ys; induction l as [|x l IH]; simpl; intros ys.
  - split; [intros [= <-]; constructor|by inversion 1].
  - split.
    + intros Hok. apply bind_ok in Hok as (y & Hy & Hok). apply bind_ok in Hok as (zs & Hz & Hok).
      injection Hok as <-. constructor; [done|by apply IH].
    + inversion 1 as [|? y ? zs Hy Hz]; subst. apply IH in Hz. by rewrite Hy, Hz.
Qed.

(** A built endpoint is the listener it was built for. *)
Definition same_listener (ep : CompatEndpoint) (e : Endpoint) : Prop :=
  ep_id e = ce_id ep /\ ep_tag e = ce_label ep /\ ep_host e = ce_host ep /\ ep_port e = ce_port ep /\
  ep_path e = option_map PathType_from_wire (ce_path ep) /\
  (is_vless e = true <-> exists pk sid fp, ce_public_parameters ep = Reality pk sid fp).

Lemma built_same_listener user ep flow e :
  contract_endpoint_opt user ep flow None = Ok (Some e) -> same_listener ep e.
Proof.
  unfold contract_endpoint_opt, endpoint_params. intros Hok. apply bind_ok in Hok as (c & _ & Hok).
  destruct c as [c|]; [|done]. apply bind_ok in Hok as (params & Hp & Hok). injection Hok as <-.
  unfold same_listener, is_vless. simpl. repeat (split; [done|]).
  destruct (ce_public_parameters ep) as [pk sid fp|obfs]; apply bind_ok in Hp as (s & _ & Hp); injection Hp as <-.
  - split; eauto.
  - split; [done|]. by intros (? & ? & ? & ?).
Qed.

(** The secret of an endpoint. *)
Definition secret_of (p : TransportParams) : string :=
  match p with PVlessReality uuid _ _ => uuid | PHysteria2 password _ => password end.
Definition own_secret (user : Grants.CompatUser) (p : TransportParams) : string :=
  match p with
  | PVlessReality _ _ _ => Grants.u_vless_uuid user
  | PHysteria2 _ _ => Grants.u_hysteria2_password user
  end.
Definition peer_secret (c : Grants.PeerCredential) : string :=
  match c with Grants.PeerVlessReality uuid => uuid | Grants.PeerHysteria2 password => password end.

(** One decision, one answer, for "which secret does this user present to
    this listener".  A built endpoint keeps the listener's id, address and
    path; a local listener gets the user's own secret and a peer listener the
    user's credential for that peer (under [credential_ref] or its id), of the
    listener's transport, never the local one; without such a credential the
    endpoint is omitted; Vision is requested only when the caller asks for it
    and the route is not declared Vision-less. *)
Theorem endpoint_secret_resolved user ep flow tag built :
  contract_endpoint_opt user ep flow tag = Ok built ->
  match built with
  | None => ce_origin ep = Peer /\
      Grants.peer_credential user (unwrap_or (ce_credential_ref ep) (ce_id ep)) = None
  | Some e =>
      ep_id e = ce_id ep /\ ep_tag e = unwrap_or tag (ce_label ep) /\ ep_host e = ce_host ep /\
      ep_port e = ce_port ep /\ ep_path e = option_map PathType_from_wire (ce_path ep) /\
      match ce_origin ep with
      | Local => secret_of (ep_params e) = own_secret user (ep_params e)
      | Peer => exists c,
          Grants.peer_credential user (unwrap_or (ce_credential_ref ep) (ce_id ep)) = Some c /\
          Grants.transport c = ce_transport ep /\ secret_of (ep_params e) = peer_secret c
      end /\
      (forall uuid f r, ep_params e = PVlessReality uuid (Some f) r ->
         flow = Vision /\ ce_vless_flow ep = FlowVision /\ f = VLESS_FLOW_VISION)
  end.
Proof.
  unfold contract_endpoint_opt, resolve_credential, endpoint_params. intros H.
  destruct (ce_origin ep) eqn:Eo; simpl in H.
  - destruct (ce_public_parameters ep) as [pk sid fp|obfs]; simpl in H; injection H as <-; simpl;
      (repeat split; try done);
      intros; destruct (ce_vless_flow ep), flow; simplify_eq; done.
  - destruct (Grants.peer_credential _ _) as [c|] eqn:Ec; [|by injection H as <-].
    case_bool_decide as Ht; [|discriminate]. simpl in H.
    destruct (ce_public_parameters ep) as [pk sid fp|obfs], c as [u|p]; simpl in H; try discriminate;
      injection H as <-; simpl; (repeat split; try done); eauto;
      intros; destruct (ce_vless_flow ep), flow; simplify_eq; done.
Qed.

(** ** Lemmas: the rendering loop *)

Section ConfigLemmas.
Context {V : Type} {JO : JsonOps V} {JL : JsonLaws V} {JT : JsonTree V} {JTL : JsonTreeLaws V}.
Implicit Types (acc : @racc V) (ob : V).

Lemma base_outbound_obj mode ep : is_obj (base_outbound (V := V) mode ep).
Proof.
  unfold base_outbound. destruct (ep_params ep) as [u [f|] r|p [o|]]; simpl;
    try case_bool_decide; repeat apply is_obj_jset; (apply is_obj_jobj; lit_nodup).
Qed.

(** Keys that no later assignment touches. *)
Lemma base_outbound_get mode ep k :
  In k ["tag"; "type"; "detour"] ->
  get_str (base_outbound (V := V) mode ep) k =
  if String.eqb k "tag" then Some (ep_tag ep) else
  if String.eqb k "type" then Some (if is_vless ep then "vless" else "hysteria2") else None.
Proof.
  intros Hk. unfold base_outbound, is_vless. destruct (ep_params ep) as [u fl r|p o]; simpl.
  - assert (Hb : forall o : V, is_obj o ->
      get_str (match fl with Some f => jset o "flow" (jstr f) | None => o end) k = get_str o k /\
      is_obj (match fl with Some f => jset o "flow" (jstr f) | None => o end)).
    { intros o Ho. destruct fl; [|done]. split; [|by apply is_obj_jset]. apply get_str_jset_other; [done|].
      simpl in Hk. by intros <-; intuition. }
    match goal with |- context [jobj ?kvs] =>
      assert (Hn : List.NoDup (map fst kvs)) by lit_nodup; destruct (Hb (jobj kvs)) as [Hb1 Hb2]; [by apply is_obj_jobj|] end.
    case_bool_decide.
    + rewrite get_str_jset_other; [|done|simpl in Hk; by intros <-; intuition].
      rewrite Hb1, get_str_obj by done. simpl in Hk.
      destruct Hk as [<-|[<-|[<-|[]]]]; simpl; try done; apply jas_str_jstr.
    + rewrite Hb1, get_str_obj by done. simpl in Hk.
      destruct Hk as [<-|[<-|[<-|[]]]]; simpl; try done; apply jas_str_jstr.
  - match goal with |- context [jobj ?kvs] => assert (Hn : List.NoDup (map fst kvs)) by lit_nodup end.
    destruct o as [o|]; [rewrite get_str_jset_other; [|by apply is_obj_jobj|simpl in Hk; by intros <-; intuition]|];
      rewrite get_str_obj by done; simpl in Hk;
      destruct Hk as [<-|[<-|[<-|[]]]]; simpl; try done; apply jas_str_jstr.
Qed.

(** The first hop the loop applies to an endpoint. *)
Definition hop (all : list Endpoint) (selectable : list string) (paths : list AccessPath)
  (ep : Endpoint) : option Endpoint :=
  if mem (ep_id ep) selectable then
    match first_hop all paths ep with Ok v => v | Err _ => None end
  else None.

Definition endpoint_outbound (mode : CompatibilityMode) (all : list Endpoint) (selectable : list string)
  (paths : list AccessPath) (ep : Endpoint) : V :=
  match hop all selectable paths ep with
  | Some via => detour_outbound (base_outbound mode ep) via
  | None => base_outbound mode ep
  end.

Lemma endpoint_outbound_obj mode all sel paths ep : is_obj (endpoint_outbound mode all sel paths ep).
Proof.
  unfold endpoint_outbound, detour_outbound. pose proof (base_outbound_obj mode ep).
  destruct (hop _ _ _ _); auto with vpn.
Qed.

Lemma endpoint_outbound_get mode all sel paths ep :
  tag_of (endpoint_outbound mode all sel paths ep) = Some (ep_tag ep) /\
  get_str (endpoint_outbound mode all sel paths ep) "type"
    = Some (if is_vless ep then "vless" else "hysteria2") /\
  get_str (endpoint_outbound mode all sel paths ep) "detour" = option_map ep_tag (hop all sel paths ep).
Proof.
  pose proof (base_outbound_obj mode ep) as Ho. unfold endpoint_outbound, detour_outbound, tag_of.
  destruct (hop _ _ _ _) as [via|]; simpl.
  - rewrite !get_str_jset by auto with vpn. simpl. rewrite !base_outbound_get by (simpl; tauto). done.
  - rewrite !base_outbound_get by (simpl; tauto). done.
Qed.

Definition rendered (selectable : list string) (paths : list AccessPath) (ep : Endpoint) : bool :=
  mem (ep_id ep) selectable || mem (ep_id ep) (infrastructure_endpoint_ids paths).
Definition relayed_ep (all : list Endpoint) (selectable : list string) (paths : list AccessPath)
  (ep : Endpoint) : bool := match hop all selectable paths ep with Some _ => true | None => false end.

Lemma render_step_spec mode all sel paths acc ep acc' :
  render_step mode all sel paths acc ep = Ok acc' ->
  (mem (ep_id ep) sel = true -> is_ok (first_hop all paths ep) = true /\ ~ In (ep_tag ep) (r_tags acc)) /\
  r_tags acc' = r_tags acc ++ (if mem (ep_id ep) sel then [ep_tag ep] else []) /\
  r_outbounds acc' = r_outbounds acc ++
    (if rendered sel paths ep then [endpoint_outbound mode all sel paths ep] else []) /\
  r_relayed acc' = r_relayed acc ++ (if relayed_ep all sel paths ep then [ep_tag ep] else []) /\
  (r_reality_tag acc' = None \/ r_reality_tag acc' = r_reality_tag acc \/
     mem (ep_id ep) sel = true /\ r_reality_tag acc' = Some (ep_tag ep)) /\
  (r_hysteria2_tag acc' = None \/ r_hysteria2_tag acc' = r_hysteria2_tag acc \/
     mem (ep_id ep) sel = true /\ r_hysteria2_tag acc' = Some (ep_tag ep)).
Proof.
  unfold render_step, rendered, relayed_ep, endpoint_outbound, hop. intros H.
  destruct (mem (ep_id ep) sel) eqn:Es; simpl in H.
  - unfold note_selectable in H. destruct (mem (ep_tag ep) (r_tags acc)) eqn:Et; [discriminate|].
    apply mem_false in Et. simpl in H. destruct (first_hop all paths ep) as [[via|]|] eqn:Eh; [..|discriminate];
      injection H as <-; simpl; rewrite ?app_nil_r; (split; [done|]); repeat (split; [done|]);
      destruct (is_vless ep), (r_reality_tag acc), (r_hysteria2_tag acc); simpl; intuition.
  - destruct (mem (ep_id ep) (infrastructure_endpoint_ids paths)); simpl in *; injection H as <-; simpl;
      rewrite ?app_nil_r; repeat (split; [done|]); intuition.
Qed.

Lemma render_loop_spec mode all sel paths l acc acc' :
  render_loop mode all sel paths acc l = Ok acc' ->
  (forall ep, In ep l -> mem (ep_id ep) sel = true -> is_ok (first_hop all paths ep) = true) /\
  r_tags acc' = r_tags acc ++ map ep_tag (List.filter (fun ep => mem (ep_id ep) sel) l) /\
  (List.NoDup (r_tags acc) -> List.NoDup (r_tags acc')) /\
  r_outbounds acc' = r_outbounds acc ++
    map (endpoint_outbound mode all sel paths) (List.filter (rendered sel paths) l) /\
  r_relayed acc' = r_relayed acc ++ map ep_tag (List.filter (relayed_ep all sel paths) l) /\
  (forall t, r_reality_tag acc' = Some t -> r_reality_tag acc = Some t \/ In t (r_tags acc')) /\
  (forall t, r_hysteria2_tag acc' = Some t -> r_hysteria2_tag acc = Some t \/ In t (r_tags acc')).
Proof.
  revert acc. induction l as [|ep l IH]; intros acc; simpl.
  - intros [= <-]. rewrite !app_nil_r. repeat split; auto.
  - destruct (render_step _ _ _ _ acc ep) as [acc1|] eqn:E1; [|discriminate]. simpl. intros H.
    apply render_step_spec in E1 as (Hs & Ht & Ho & Hr & Hrt & Hht).
    destruct (IH _ H) as (IHf & IHt & IHn & IHo & IHr & IHrt & IHht). clear IH H.
    split; [intros x [<-|Hx] Hm; [by apply Hs|by apply IHf]|].
    split; [rewrite IHt, Ht, <- app_assoc; by destruct (mem (ep_id ep) sel)|]. split.
    { intros Hn. apply IHn. rewrite Ht. destruct (mem (ep_id ep) sel) eqn:Es; [|by rewrite app_nil_r].
      apply nodup_snoc. split; [done|]. by apply Hs. }
    split; [rewrite IHo, Ho, <- app_assoc; by destruct (rendered sel paths ep)|].
    split; [rewrite IHr, Hr, <- app_assoc; by destruct (relayed_ep all sel paths ep)|].
    assert (Hep : mem (ep_id ep) sel = true -> In (ep_tag ep) (r_tags acc')).
    { intros Es. rewrite IHt, Ht, Es, !in_app_iff. simpl. auto. }
    split; intros t Ett; [destruct (IHrt t Ett) as [E|?]|destruct (IHht t Ett) as [E|?]]; auto;
      [destruct Hrt as [E'|[E'|[Em E']]]|destruct Hht as [E'|[E'|[Em E']]]]; rewrite E in E'; try discriminate;
      try (by left); injection E' as ->; auto.
Qed.

(** *** First hops *)

Lemma find_rev_In {A} (f : A -> bool) l x : List.find f (rev l) = Some x -> In x l /\ f x = true.
Proof. intros Hf. apply find_some in Hf as [Hin Hfx]. split; [by apply in_rev|done]. Qed.

Lemma first_hop_spec all paths ep via :
  first_hop all paths ep = Ok (Some via) ->
  is_vless ep = true /\ is_vless via = true /\ In via all /\ ep_id via <> ep_id ep /\
  mem (ep_id via) (infrastructure_endpoint_ids paths) = true /\ is_relayed paths ep = true /\
  exists p, In p paths /\ ep_path ep = Some (POther (ap_id p)) /\ ap_via_endpoint_id p = Some (ep_id via).
Proof.
  unfold first_hop, is_relayed. destruct paths as [|p0 ps]; [discriminate|]. set (paths := p0 :: ps).
  destruct (ep_path ep) as [[|pid]|]; try discriminate. intros Hok.
  apply bind_ok in Hok as (path & Hp & Hok). apply ok_or_ok in Hp.
  apply if_err_ok in Hok as [Hk Hok]. apply bind_ok in Hok as (via_id & Hv & Hok). apply ok_or_ok in Hv.
  apply bind_ok in Hok as (v & Hvia & Hok). apply ok_or_ok in Hvia.
  apply if_err_ok in Hok as [Hs Hok]. apply if_err_ok in Hok as [Hw Hok]. injection Hok as ->.
  apply find_rev_In in Hp as [Hpin Hpid]. apply find_rev_In in Hvia as [Hvin Hvid].
  apply negb_false_iff, bool_decide_eq_true in Hk. b2p. subst.
  repeat split; try done.
  - apply mem_infrastructure. eauto.
  - apply existsb_exists. exists path. split; [done|]. by rewrite String.eqb_refl, bool_decide_true.
  - by exists path.
Qed.

Lemma first_hop_relayed all paths ep :
  is_ok (first_hop all paths ep) = true -> is_relayed paths ep = true ->
  exists via, first_hop all paths ep = Ok (Some via).
Proof.
  unfold first_hop, is_relayed. destruct paths as [|p0 ps]; [by destruct (ep_path ep) as [[]|]|].
  destruct (ep_path ep) as [[|pid]|]; try done.
  set (r := result_bind _ _). assert (Hr : forall o, r = Ok o -> o <> None).
  { intros o Hok ->. unfold r in Hok. apply bind_ok in Hok as (path & _ & Hok).
    apply if_err_ok in Hok as [_ Hok]. apply bind_ok in Hok as (? & _ & Hok).
    apply bind_ok in Hok as (? & _ & Hok). apply if_err_ok in Hok as [_ Hok].
    by apply if_err_ok in Hok as [_ Hok]. }
  destruct r as [[via|]|]; try done; [by exists via|]. by specialize (Hr None eq_refl).
Qed.

(** *** The fixed parts of a configuration *)

Lemma jstrs_array l : jas_array (jstrs (V := V) l) = Some (map jstr l).
Proof. apply jas_array_jarr. Qed.

Lemma omap_jas_str l : omap jas_str (map (jstr (V := V)) l) = l.
Proof. induction l as [|x l IH]; csimpl; [done|]. by rewrite jas_str_jstr, IH. Qed.

Lemma route_final mode : get_str (route_value (V := V) mode) "final" = Some "select".
Proof.
  unfold route_value. destruct mode; rewrite ?get_str_jset_other by (try done; apply is_obj_jobj; lit_nodup);
    rewrite get_str_obj by lit_nodup; simpl; apply jas_str_jstr.
Qed.

Definition tail_outbounds (tags auto_members : list string) (default_tag : string) : list V :=
  [urltest_outbound auto_members; selector_outbound tags default_tag; direct_outbound].

Lemma finish_config_get mode obs tags auto d :
  get_array (finish_config (V := V) mode obs tags auto d) "outbounds" = Some (obs ++ tail_outbounds tags auto d) /\
  final_tag (finish_config (V := V) mode obs tags auto d) = "select".
Proof.
  unfold finish_config. split.
  - rewrite get_array_obj by lit_nodup. simpl. apply jas_array_jarr.
  - unfold final_tag. rewrite jget_obj by lit_nodup. simpl. by rewrite route_final.
Qed.

Ltac tail_get := unfold tag_of; rewrite ?get_str_obj, ?get_array_obj by lit_nodup; simpl;
  rewrite ?jas_str_jstr, ?jstrs_array; done.

Lemma urltest_get m :
  tag_of (urltest_outbound (V := V) m) = Some "auto" /\ get_str (urltest_outbound (V := V) m) "detour" = None /\
  get_array (urltest_outbound (V := V) m) "outbounds" = Some (map jstr m).
Proof. unfold urltest_outbound. repeat split; tail_get. Qed.
Lemma selector_get t d :
  tag_of (selector_outbound (V := V) t d) = Some "select" /\
  get_str (selector_outbound (V := V) t d) "type" = Some "selector" /\
  get_array (selector_outbound (V := V) t d) "outbounds" = Some (map jstr (t ++ ["auto"])).
Proof. unfold selector_outbound. repeat split; tail_get. Qed.
Lemma direct_get :
  tag_of (direct_outbound (V := V)) = Some "direct" /\
  get_str (direct_outbound (V := V)) "type" = Some "direct".
Proof. unfold direct_outbound. repeat split; tail_get. Qed.

(** *** The whole renderer *)

Lemma render_ok all sel paths profile mode cfg :
  render_singbox_config_from_contract_with_access_paths (V := V) all sel paths profile mode = Ok cfg ->
  exists acc, render_loop mode all sel paths racc_empty all = Ok acc /\ r_tags acc <> [] /\
    In (choose_default profile mode acc) (r_tags acc ++ (if bool_decide (mode = HiddifyPinned) then [] else ["auto"])) /\
    if bool_decide (mode = HiddifyPinned) then
      exists obs, pin_to_single_route (r_outbounds acc) (r_tags acc) (choose_default profile mode acc) = Ok obs /\
        cfg = finish_config mode obs [choose_default profile mode acc] [choose_default profile mode acc]
                (choose_default profile mode acc)
    else cfg = finish_config mode (r_outbounds acc) (r_tags acc)
                 (match r_relayed acc with [] => r_tags acc | relayed => relayed end)
                 (choose_default profile mode acc).
Proof.
  unfold render_singbox_config_from_contract_with_access_paths. intros Hok.
  apply bind_unit_ok in Hok as [_ Hok]. apply bind_ok in Hok as (acc & Hl & Hok). exists acc.
  split; [done|]. destruct (r_tags acc) as [|t0 ts] eqn:Et; [discriminate|]. rewrite <- Et in *.
  split; [congruence|]. split.
  - pose proof (render_loop_spec _ _ _ _ _ _ _ Hl) as (_ & Ht & _ & _ & Hr & Hrt & Hht).
    assert (Hrel : forall t, In t (r_relayed acc) -> In t (r_tags acc)).
    { intros t. rewrite Ht, Hr. simpl. rewrite !in_map_iff. intros (ep & <- & Hin).
      apply In_filterb in Hin as [Hin Hx]. exists ep. split; [done|]. apply In_filterb. split; [done|].
      unfold relayed_ep, hop in Hx. by destruct (mem _ _). }
    assert (Hd : In t0 (r_tags acc)) by (rewrite Et; by left).
    assert (Hrl : forall d, In d (r_tags acc) -> In (match r_relayed acc with t :: _ => t | [] => d end) (r_tags acc)).
    { intros d Hin. destruct (r_relayed acc); [done|]. apply Hrel. by left. }
    assert (Hor : forall o d, (forall t, o = Some t -> In t (r_tags acc)) -> In (unwrap_or d "auto") (r_tags acc) ->
      In (unwrap_or (or_else o d) "auto") (r_tags acc)).
    { intros [x|] d Ho Hx; simpl; auto. }
    assert (Hhd : In (unwrap_or (head (r_tags acc)) "auto") (r_tags acc)) by (rewrite Et; by left).
    assert (Hra : forall t, r_reality_tag acc = Some t -> In t (r_tags acc))
      by (intros t E; by destruct (Hrt t E) as [[=]|]).
    assert (Hha : forall t, r_hysteria2_tag acc = Some t -> In t (r_tags acc))
      by (intros t E; by destruct (Hht t E) as [[=]|]).
    apply in_app_iff. unfold choose_default. destruct profile; [left; apply Hrl; auto..|].
    destruct (decide (mode = HiddifyPinned)) as [->|Hm].
    + rewrite bool_decide_false by auto. left. apply Hrl. auto.
    + rewrite (bool_decide_true (mode <> HiddifyPinned)) by done. right.
      rewrite bool_decide_false by done. by left.
  - case_bool_decide; [|by injection Hok as <-]. apply bind_ok in Hok as (obs & Hp & Hok).
    exists obs. split; [done|]. by injection Hok as <-.
Qed.
End ConfigLemmas.

(** ** Lemmas: pinning to one route *)

Section Pin.
Context {V : Type} {JO : JsonOps V} {JL : JsonLaws V} {JT : JsonTree V} {JTL : JsonTreeLaws V}.
Implicit Types (ob : V) (obs : list V).

Lemma next_hop_tag obs t n :
  next_hop obs t = Some n -> exists ob, In ob obs /\ tag_of ob = Some t /\ get_str ob "detour" = Some n.
Proof.
  unfold next_hop. destruct (List.find _ obs) as [ob|] eqn:E; [|discriminate]. intros Hd.
  apply find_some in E as [Hin Ht]. exists ob. split; [done|]. split; [|done].
  unfold has_tag in Ht. destruct (tag_of ob); [|discriminate]. b2p. by subst.
Qed.

(** The chain so far, its last tag first: distinct tags, each but the last one
    linked to another of them. *)
Definition chain_inv obs (rchain : list string) : Prop :=
  List.NoDup rchain /\
  forall t, In t (tail rchain) -> exists n, next_hop obs t = Some n /\ In n rchain.

Lemma chain_bound obs last r :
  chain_inv obs (last :: r) -> (length r <= length obs)%nat.
Proof.
  intros [Hnd Hl]. inversion Hnd; subst.
  transitivity (length (omap tag_of obs)); [|apply omap_length_le].
  apply NoDup_incl_length; [done|]. intros t Hin. apply In_tags.
  destruct (Hl t Hin) as (n & Hn & _). apply next_hop_tag in Hn as (ob & ? & ? & _). eauto.
Qed.

Lemma follow_chain_spec fuel obs last r :
  chain_inv obs (last :: r) ->
  (length obs + 2 <= fuel + length r)%nat ->
  exists rchain, follow_chain fuel obs last (last :: r) = Some (rev rchain) /\
    List.NoDup rchain /\ (exists ext, rchain = ext ++ last :: r) /\
    forall t n, In t rchain -> next_hop obs t = Some n -> In n rchain.
Proof.
  revert last r; induction fuel as [|fuel IH]; intros last r Hinv Hf;
    pose proof (chain_bound _ _ _ Hinv); [lia|]. cbn [follow_chain].
  assert (Hstop : (forall n, next_hop obs last = Some n -> In n (last :: r)) ->
    exists rchain, Some (rev (last :: r)) = Some (rev rchain) /\ List.NoDup rchain /\
      (exists ext, rchain = ext ++ last :: r) /\
      forall t n, In t rchain -> next_hop obs t = Some n -> In n rchain).
  { intros Hn. exists (last :: r). destruct Hinv as [Hnd Hl]. split; [done|]. split; [done|].
    split; [by exists []|]. intros t n [<-|Hin] Hx; [by apply Hn|].
    destruct (Hl t Hin) as (n' & Hn' & ?). by rewrite Hx in Hn'; injection Hn' as <-. }
  destruct (next_hop obs last) as [next|] eqn:En; [|by apply Hstop].
  destruct (mem next (last :: r)) eqn:Em.
  { apply Hstop. intros n [= <-]. by apply mem_In. }
  apply mem_false in Em. destruct (IH next (last :: r)) as (rc & Hrc & Hnd & (ext & ->) & Hcl).
  - destruct Hinv as [Hnd Hl]. split; [by constructor|]. simpl. intros t [<-|Hin].
    + exists next. split; [done|by left].
    + destruct (Hl t Hin) as (n & ? & ?). exists n. split; [done|by right].
  - simpl. lia.
  - eexists. split; [exact Hrc|]. split; [done|]. split; [|done].
    exists (ext ++ [next]). by rewrite <- app_assoc.
Qed.

Lemma detour_chain_spec obs keep :
  exists rest, detour_chain obs keep = Some (keep :: rest) /\ List.NoDup (keep :: rest) /\
    forall t n, In t (keep :: rest) -> next_hop obs t = Some n -> In n (keep :: rest).
Proof.
  unfold detour_chain. destruct (follow_chain_spec (S (S (length obs))) obs keep [])
    as (rc & -> & Hnd & (ext & ->) & Hcl); [|simpl; lia|].
  { split; [repeat constructor; by intros []|by intros t []]. }
  exists (rev ext). rewrite rev_app_distr. simpl. split; [done|]. split.
  - apply NoDup_rev in Hnd. by rewrite rev_app_distr in Hnd.
  - intros t n Hin Hn. specialize (Hcl t n). rewrite !in_app_iff in Hcl. simpl in *.
    rewrite <- !in_rev in *. tauto.
Qed.

(** *** Renaming *)

Definition ren (h t : string) : string := if String.eqb t h then h +:+ HIDDIFY_HIDDEN_TAG_SUFFIX else t.
Definition rens (hs : list string) (t : string) : string := foldl (fun t h => ren h t) t hs.
Definition is_hidden (t : string) : Prop := exists p, t = p +:+ HIDDIFY_HIDDEN_TAG_SUFFIX.
Definition rename_all (hs : list string) (ob : V) : V := foldl (fun ob h => rename_outbound h ob) ob hs.

Lemma rename_outbound_obj h ob : is_obj ob -> is_obj (rename_outbound h ob).
Proof.
  intros. unfold rename_outbound. destruct (has_tag h ob); case_bool_decide; auto with vpn.
Qed.

Lemma has_tag_eq h ob : has_tag h ob = bool_decide (tag_of ob = Some h).
Proof.
  unfold has_tag. destruct (tag_of ob) as [t|]; [|by rewrite bool_decide_false].
  destruct (String.eqb t h) eqn:E; b2p; subst; [by rewrite bool_decide_true|rewrite bool_decide_false; congruence].
Qed.

Lemma rename_outbound_get h ob :
  is_obj ob ->
  tag_of (rename_outbound h ob) = option_map (ren h) (tag_of ob) /\
  get_str (rename_outbound h ob) "detour" = option_map (ren h) (get_str ob "detour") /\
  forall k, k <> "tag" -> k <> "detour" -> jget (rename_outbound h ob) k = jget ob k.
Proof.
  intros Ho. unfold rename_outbound. rewrite has_tag_eq. unfold tag_of, ren. set (nw := h +:+ _).
  set (ob1 := if bool_decide _ then _ else ob).
  assert (H1 : is_obj ob1 /\ get_str ob1 "tag" = option_map (fun t => if String.eqb t h then nw else t) (get_str ob "tag")
    /\ get_str ob1 "detour" = get_str ob "detour" /\ forall k, k <> "tag" -> jget ob1 k = jget ob k).
  { unfold ob1. case_bool_decide as Ht.
    - split; [auto with vpn|]. rewrite !get_str_jset by done. rewrite Ht. simpl. rewrite String.eqb_refl.
      repeat split. intros k Hk. rewrite jget_jset by done. apply not_eq_sym, String.eqb_neq in Hk. by rewrite Hk.
    - split; [done|]. split; [|done]. destruct (get_str ob "tag") as [t|]; simpl; [|done].
      destruct (String.eqb t h) eqn:E; b2p; congruence. }
  destruct H1 as (Ho1 & Ht1 & Hd1 & Hk1). clearbody ob1. case_bool_decide as Hd.
  - rewrite !get_str_jset by done. simpl. rewrite Ht1, <- Hd1, Hd. simpl. rewrite String.eqb_refl.
    repeat split. intros k Hk Hk'. rewrite jget_jset by done.
    apply not_eq_sym, String.eqb_neq in Hk'. rewrite Hk'. auto.
  - rewrite Ht1, Hd1. split; [done|]. split; [|auto]. rewrite Hd1 in Hd.
    destruct (get_str ob "detour") as [t|]; simpl; [|done].
    destruct (String.eqb t h) eqn:E; b2p; congruence.
Qed.

Lemma rename_all_get hs ob :
  is_obj ob ->
  is_obj (rename_all hs ob) /\ tag_of (rename_all hs ob) = option_map (rens hs) (tag_of ob) /\
  get_str (rename_all hs ob) "detour" = option_map (rens hs) (get_str ob "detour") /\
  forall k, k <> "tag" -> k <> "detour" -> jget (rename_all hs ob) k = jget ob k.
Proof.
  revert ob. induction hs as [|h hs IH]; intros ob Ho; simpl.
  - split; [done|]. unfold rens. simpl. split; [by destruct (tag_of ob)|]. split; [by destruct (get_str ob "detour")|done].
  - destruct (rename_outbound_get h ob Ho) as (Ht & Hd & Hk).
    destruct (IH (rename_outbound h ob) (rename_outbound_obj h ob Ho)) as (Ho' & Ht' & Hd' & Hk').
    split; [done|]. rewrite Ht', Hd', Ht, Hd. split; [by destruct (tag_of ob)|].
    split; [by destruct (get_str ob "detour")|]. intros k ??. by rewrite Hk', Hk.
Qed.

Lemma foldl_map_rename hs obs :
  foldl (fun obs h => map (rename_outbound h) obs) obs hs = map (rename_all hs) obs.
Proof.
  revert obs. induction hs as [|h hs IH]; intros obs; simpl; [by rewrite map_id|].
  rewrite IH, map_map. done.
Qed.

Lemma rens_keep hs t : ~ In t hs -> rens hs t = t.
Proof.
  revert t. unfold rens. induction hs as [|h hs IH]; intros t Hn; simpl; [done|].
  unfold ren at 2. destruct (String.eqb t h) eqn:E; b2p; [subst; exfalso; apply Hn; by left|].
  apply IH. intros ?; apply Hn; by right.
Qed.

Lemma rens_hidden hs t : is_hidden t \/ In t hs -> is_hidden (rens hs t).
Proof.
  revert t. unfold rens. induction hs as [|h hs IH]; intros t Ht; simpl; [by destruct Ht as [?|[]]|].
  apply IH. unfold ren. destruct (String.eqb t h) eqn:E; b2p; [left; by exists h|].
  destruct Ht as [?|[->|?]]; [by left|done|by right].
Qed.

(** What pinning does to a list of outbounds. *)
Lemma pin_spec obs tags keep obs' :
  (forall ob, In ob obs -> is_obj ob) ->
  pin_to_single_route obs tags keep = Ok obs' ->
  exists rest, ~ In keep rest /\
    obs' = map (rename_all rest)
      (List.filter (fun ob => match tag_of ob with Some t => mem t (keep :: rest) | None => false end) obs) /\
    forall t n, In t (keep :: rest) -> next_hop obs t = Some n -> In n (keep :: rest).
Proof.
  intros Hobj. unfold pin_to_single_route. intros Hok. apply if_err_ok in Hok as [_ Hok].
  destruct (detour_chain_spec obs keep) as (rest & Hc & Hnd & Hcl). rewrite Hc in Hok.
  exists rest. inversion Hnd; subst. split; [done|]. split; [|done].
  injection Hok as <-. by rewrite foldl_map_rename.
Qed.

Lemma pinned_tags obs tags keep obs' :
  (forall ob, In ob obs -> is_obj ob) ->
  pin_to_single_route obs tags keep = Ok obs' ->
  forall ob', In ob' obs' -> exists t, tag_of ob' = Some t /\ (t = keep \/ is_hidden t).
Proof.
  intros Hobj Hok ob' Hin. apply pin_spec in Hok as (rest & Hn & -> & _); [|done].
  apply in_map_iff in Hin as (ob & <- & Hin). apply In_filterb in Hin as [Hin Ht].
  destruct (rename_all_get rest ob (Hobj _ Hin)) as (_ & -> & _). destruct (tag_of ob) as [t|]; [|discriminate].
  exists (rens rest t). split; [done|]. apply mem_In in Ht as [<-|Hin'].
  - left. by apply rens_keep.
  - right. apply rens_hidden. by right.
Qed.

(** The pinned outbounds still resolve their detours among themselves. *)
Lemma pinned_closed obs tags keep obs' :
  (forall ob, In ob obs -> is_obj ob) ->
  List.NoDup (omap tag_of obs) ->
  (forall ob d, In ob obs -> get_str ob "detour" = Some d -> exists ob2, In ob2 obs /\ tag_of ob2 = Some d) ->
  pin_to_single_route obs tags keep = Ok obs' ->
  forall ob' d, In ob' obs' -> get_str ob' "detour" = Some d -> exists ob2, In ob2 obs' /\ tag_of ob2 = Some d.
Proof.
  intros Hobj Hnd Hres Hok ob' d Hin Hd. apply pin_spec in Hok as (rest & Hn & -> & Hcl); [|done].
  apply in_map_iff in Hin as (ob & <- & Hin). apply In_filterb in Hin as [Hin Ht].
  destruct (rename_all_get rest ob (Hobj _ Hin)) as (_ & _ & Hd' & _). rewrite Hd' in Hd. clear Hd'.
  destruct (get_str ob "detour") as [d0|] eqn:Ed; [|discriminate]. injection Hd as <-.
  destruct (tag_of ob) as [t|] eqn:Et; [|discriminate]. apply mem_In in Ht.
  destruct (Hres ob d0 Hin Ed) as (ob2 & Hin2 & Ht2).
  assert (Hnx : next_hop obs t = Some d0).
  { unfold next_hop. destruct (List.find (has_tag t) obs) as [o|] eqn:Ef.
    - apply find_some in Ef as [Ho Hto]. rewrite has_tag_eq in Hto. apply bool_decide_eq_true in Hto.
      by rewrite (NoDup_omap_inj _ _ _ _ _ Hnd Ho Hin Hto Et).
    - rewrite find_none_iff in Ef. specialize (Ef ob Hin). rewrite has_tag_eq, Et in Ef.
      by rewrite bool_decide_true in Ef. }
  exists (rename_all rest ob2). destruct (rename_all_get rest ob2 (Hobj _ Hin2)) as (_ & -> & _).
  rewrite Ht2. split; [|done]. apply in_map, In_filterb. split; [done|]. rewrite Ht2. apply mem_In.
  by apply (Hcl t).
Qed.

End Pin.

(** ** Theorems on rendered configurations *)

Section Configs.
Context {V : Type} {JO : JsonOps V} {JL : JsonLaws V} {JT : JsonTree V} {JTL : JsonTreeLaws V}.

(** The outbounds the loop leaves behind. *)
Definition loop_outbounds mode all sel paths : list V :=
  map (endpoint_outbound mode all sel paths) (List.filter (rendered sel paths) all).

Lemma loop_outbounds_tags mode all sel paths :
  omap tag_of (loop_outbounds mode all sel paths) = map ep_tag (List.filter (rendered sel paths) all).
Proof.
  unfold loop_outbounds. induction (List.filter _ all) as [|ep l IH]; csimpl; [done|].
  destruct (endpoint_outbound_get mode all sel paths ep) as (-> & _). by rewrite IH.
Qed.

Lemma loop_outbounds_obj mode all sel paths ob : In ob (loop_outbounds mode all sel paths) -> is_obj ob.
Proof. intros Hin. apply in_map_iff in Hin as (ep & <- & _). apply endpoint_outbound_obj. Qed.

Lemma loop_outbounds_resolve mode all sel paths ob d :
  In ob (loop_outbounds mode all sel paths) -> get_str ob "detour" = Some d ->
  exists ob2, In ob2 (loop_outbounds mode all sel paths) /\ tag_of ob2 = Some d.
Proof.
  intros Hin Hd. apply in_map_iff in Hin as (ep & <- & Hin).
  destruct (endpoint_outbound_get mode all sel paths ep) as (_ & _ & Hg). rewrite Hg in Hd.
  unfold hop in Hd. destruct (mem (ep_id ep) sel); [|discriminate].
  destruct (first_hop all paths ep) as [[via|]|] eqn:Ef; try discriminate. injection Hd as <-.
  apply first_hop_spec in Ef as (_ & _ & Hv & _ & Hi & _ & _).
  exists (endpoint_outbound mode all sel paths via). split; [|by apply endpoint_outbound_get].
  apply in_map, In_filterb. split; [done|]. unfold rendered. by rewrite Hi, orb_true_r.
Qed.

Lemma loop_result mode all sel paths (acc : @racc V) :
  render_loop mode all sel paths racc_empty all = Ok acc ->
  (forall ep, In ep all -> mem (ep_id ep) sel = true -> is_ok (first_hop all paths ep) = true) /\
  r_tags acc = map ep_tag (List.filter (fun ep => mem (ep_id ep) sel) all) /\ List.NoDup (r_tags acc) /\
  r_outbounds acc = loop_outbounds mode all sel paths /\
  r_relayed acc = map ep_tag (List.filter (relayed_ep all sel paths) all).
Proof.
  intros Hl. apply render_loop_spec in Hl as (Hf & Ht & Hn & Ho & Hr & _). simpl in *.
  repeat split; try done. apply Hn. constructor.
Qed.

(** The default of a pinned profile is a selectable endpoint, and a relayed one
    as soon as there is any. *)
Lemma pinned_default profile all sel paths (acc : @racc V) :
  render_loop HiddifyPinned all sel paths racc_empty all = Ok acc ->
  In (choose_default profile HiddifyPinned acc) (r_tags acc) ->
  exists ep, In ep all /\ mem (ep_id ep) sel = true /\
    ep_tag ep = choose_default profile HiddifyPinned acc /\
    (existsb (relayed_ep all sel paths) all = true -> relayed_ep all sel paths ep = true).
Proof.
  intros Hl Hin. apply loop_result in Hl as (_ & Ht & Hnd & _ & Hr).
  destruct (r_relayed acc) as [|t0 ts] eqn:Er.
  - rewrite Ht in Hin. apply in_map_iff in Hin as (ep & He & Hin). apply In_filterb in Hin as [Hin Hs].
    exists ep. repeat split; try done. intros Hx. apply existsb_exists in Hx as (x & Hx & Hrx).
    symmetry in Hr. apply map_eq_nil in Hr. exfalso.
    assert (Hi : In x (List.filter (relayed_ep all sel paths) all)) by (by apply In_filterb).
    by rewrite Hr in Hi.
  - assert (Hd : choose_default profile HiddifyPinned acc = t0).
    { unfold choose_default. rewrite Er. destruct profile; done. }
    rewrite Hd. assert (Hi : In t0 (map ep_tag (List.filter (relayed_ep all sel paths) all)))
      by (rewrite <- Hr; by left).
    apply in_map_iff in Hi as (ep & He & Hi). apply In_filterb in Hi as [Hi Hrel]. exists ep.
    repeat split; try done. unfold relayed_ep, hop in Hrel. by destruct (mem _ _).
Qed.

Lemma pinned_keep (obs : list V) tags keep obs' ob :
  (forall ob, In ob obs -> is_obj ob) -> List.NoDup (omap tag_of obs) ->
  pin_to_single_route obs tags keep = Ok obs' ->
  In ob obs -> tag_of ob = Some keep ->
  exists pre ob' post, obs' = pre ++ ob' :: post /\ tag_of ob' = Some keep /\
    (get_str ob' "detour" = None <-> get_str ob "detour" = None) /\
    (forall k, k <> "tag" -> k <> "detour" -> jget ob' k = jget ob k) /\
    forall o, In o (pre ++ post) -> exists t, tag_of o = Some t /\ is_hidden t.
Proof.
  intros Hobj Hnd Hok Hin Ht. apply pin_spec in Hok as (rest & Hn & -> & Hcl); [|done].
  set (f := fun ob => match tag_of ob with Some t => mem t (keep :: rest) | None => false end).
  assert (Hk : In ob (List.filter f obs)).
  { apply In_filterb. split; [done|]. unfold f. rewrite Ht. apply mem_In. by left. }
  apply in_split in Hk as (l1 & l2 & El). rewrite El, map_app. simpl.
  exists (map (rename_all rest) l1), (rename_all rest ob), (map (rename_all rest) l2).
  destruct (rename_all_get rest ob (Hobj _ Hin)) as (_ & Ht' & Hd' & Hk').
  split; [done|]. split; [rewrite Ht', Ht; simpl; by rewrite rens_keep|].
  split; [rewrite Hd'; by destruct (get_str ob "detour")|]. split; [done|].
  intros o Ho. rewrite <- map_app in Ho. apply in_map_iff in Ho as (o0 & <- & Ho).
  assert (Hin0 : In o0 (List.filter f obs)) by (rewrite El; apply in_app_iff in Ho; apply in_app_iff; simpl; tauto).
  apply In_filterb in Hin0 as [Hin0 Hf]. unfold f in Hf. destruct (tag_of o0) as [t|] eqn:Et; [|discriminate].
  destruct (rename_all_get rest o0 (Hobj _ Hin0)) as (_ & -> & _). rewrite Et. eexists. split; [done|].
  apply rens_hidden. right. apply mem_In in Hf as [<-|?]; [|done]. exfalso.
  assert (Hnd2 : List.NoDup (List.filter f obs)).
  { apply (NoDup_omap_filter tag_of); [done|]. intros x. unfold f. by destruct (tag_of x). }
  rewrite El in Hnd2. apply NoDup_remove_2 in Hnd2.
  by rewrite (NoDup_omap_inj _ _ _ _ _ Hnd Hin0 Hin Et Ht) in Ho.
Qed.

Lemma pinned_types mode all sel paths tags keep (obs' : list V) o :
  pin_to_single_route (loop_outbounds mode all sel paths) tags keep = Ok obs' -> In o obs' ->
  is_obj o /\ (get_str o "type" = Some "vless" \/ get_str o "type" = Some "hysteria2").
Proof.
  intros Hpin Hin. apply pin_spec in Hpin as (rest & _ & -> & _); [|apply loop_outbounds_obj].
  apply in_map_iff in Hin as (o0 & <- & Hin). apply In_filterb in Hin as [Hin _].
  destruct (rename_all_get rest o0 (loop_outbounds_obj _ _ _ _ _ Hin)) as (Ho & _ & _ & Hk). split; [done|].
  unfold get_str. rewrite Hk by done. change (get_str o0 "type" = Some "vless" \/ get_str o0 "type" = Some "hysteria2").
  apply in_map_iff in Hin as (ep & <- & _). destruct (endpoint_outbound_get mode all sel paths ep) as (_ & -> & _).
  destruct (is_vless ep); auto.
Qed.

(** The outbounds of a pinned profile. *)
Lemma pinned_outbounds all sel paths profile cfg :
  List.NoDup (map ep_tag (List.filter (rendered sel paths) all)) ->
  render_singbox_config_from_contract_with_access_paths (V := V) all sel paths profile HiddifyPinned = Ok cfg ->
  exists pre ob post ep,
    cfg = finish_config HiddifyPinned (pre ++ ob :: post) [ep_tag ep] [ep_tag ep] (ep_tag ep) /\
    In ep all /\ mem (ep_id ep) sel = true /\ tag_of ob = Some (ep_tag ep) /\
    (forall o, In o (pre ++ post) -> exists t, tag_of o = Some t /\ is_hidden t) /\
    (existsb (relayed_ep all sel paths) all = true -> get_str ob "detour" <> None) /\
    (forall o d, In o (pre ++ ob :: post) -> get_str o "detour" = Some d ->
       exists o2, In o2 (pre ++ ob :: post) /\ tag_of o2 = Some d) /\
    (forall o, In o (pre ++ ob :: post) -> is_obj o /\
       (get_str o "type" = Some "vless" \/ get_str o "type" = Some "hysteria2")).
Proof.
  intros Hu Hok. apply render_ok in Hok as (acc & Hl & _ & Hd & Hp).
  rewrite !bool_decide_true in * by done. rewrite app_nil_r in Hd. destruct Hp as (obs & Hpin & ->).
  destruct (pinned_default profile all sel paths acc Hl Hd) as (ep & Hin & Hs & He & Hrel).
  apply loop_result in Hl as (_ & _ & _ & Ho & _). rewrite Ho in Hpin.
  pose proof (loop_outbounds_obj HiddifyPinned all sel paths) as Hobj.
  rewrite <- (loop_outbounds_tags HiddifyPinned) in Hu.
  destruct (endpoint_outbound_get HiddifyPinned all sel paths ep) as (Ht & _ & Hdt).
  rewrite <- He in *.
  assert (Hino : In (endpoint_outbound HiddifyPinned all sel paths ep) (loop_outbounds HiddifyPinned all sel paths)).
  { apply in_map, In_filterb. split; [done|]. unfold rendered. by rewrite Hs. }
  pose proof (pinned_closed _ _ _ _ Hobj Hu (loop_outbounds_resolve HiddifyPinned all sel paths) Hpin) as Hc.
  destruct (pinned_keep _ _ _ _ _ Hobj Hu Hpin Hino Ht) as (pre & ob & post & -> & Htag & Hdet & _ & Hhid).
  exists pre, ob, post, ep. do 5 (split; [done|]). split; [|split; [done|]].
  - intros Hx. specialize (Hrel Hx). unfold relayed_ep in Hrel. rewrite Hdet, Hdt.
    by destruct (hop all sel paths ep).
  - intros o Hino2. eapply pinned_types; [exact Hpin|done].
Qed.
(** *** How rendering can fail *)

Lemma render_loop_err mode all sel paths l (acc : @racc V) e :
  List.NoDup (r_tags acc ++ map ep_tag l) -> render_loop mode all sel paths acc l = Err e ->
  exists ep, In ep l /\ mem (ep_id ep) sel = true /\ first_hop all paths ep = Err e.
Proof.
  revert acc. induction l as [|ep l IH]; simpl; intros acc Hnd H; [done|].
  destruct (render_step mode all sel paths acc ep) as [acc1|e1] eqn:E1; simpl in H.
  - apply render_step_spec in E1 as (_ & Ht & _). destruct (IH acc1) as (x & ? & ? & ?); [|done|eauto].
    rewrite Ht. destruct (mem (ep_id ep) sel); [by rewrite <- app_assoc|]. rewrite app_nil_r.
    by apply NoDup_remove_1 in Hnd.
  - injection H as ->. exists ep. split; [by left|]. unfold render_step in E1. case_if; [done|].
    destruct (mem (ep_id ep) sel) eqn:Es; simpl in E1.
    + split; [done|]. unfold note_selectable in E1. destruct (mem (ep_tag ep) (r_tags acc)) eqn:Em; simpl in E1.
      * apply mem_In in Em. apply NoDup_remove_2 in Hnd. exfalso. apply Hnd, in_app_iff. by left.
      * revert E1. destruct (first_hop all paths ep) as [[via|]|]; simpl; intros E1; by simplify_eq.
    + done.
Qed.

Lemma pinned_default_in profile all sel paths (acc : @racc V) :
  render_loop HiddifyPinned all sel paths racc_empty all = Ok acc -> r_tags acc <> [] ->
  In (choose_default profile HiddifyPinned acc) (r_tags acc).
Proof.
  intros Hl Hne. pose proof (render_loop_spec _ _ _ _ _ _ _ Hl) as (_ & Ht & _ & _ & Hr & Hrt & Hht).
  assert (Hhd : forall d, In (unwrap_or (head (r_tags acc)) d) (r_tags acc)).
  { intros d. destruct (r_tags acc); [done|]. by left. }
  assert (Hrel : forall t ts, r_relayed acc = t :: ts -> In t (r_tags acc)).
  { intros t ts E. rewrite Hr in E. simpl in E. rewrite Ht. simpl.
    assert (Hin : In t (map ep_tag (List.filter (relayed_ep all sel paths) all))) by (rewrite E; by left).
    apply in_map_iff in Hin as (x & <- & Hx). apply In_filterb in Hx as [Hx Hs]. apply in_map, In_filterb.
    split; [done|]. unfold relayed_ep, hop in Hs. by destruct (mem _ _). }
  assert (Hrtag : forall t, r_reality_tag acc = Some t -> In t (r_tags acc)) by (intros t E; by destruct (Hrt t E)).
  assert (Hhtag : forall t, r_hysteria2_tag acc = Some t -> In t (r_tags acc)) by (intros t E; by destruct (Hht t E)).
  unfold choose_default. destruct (r_relayed acc) as [|t ts] eqn:Er.
  - destruct profile; simpl; destruct (r_hysteria2_tag acc), (r_reality_tag acc); simpl; auto.
  - destruct profile; simpl; eauto.
Qed.

(** With distinct tags and selectable ids that have an endpoint, rendering
    fails for want of a route, or at the first hop of a selectable endpoint. *)
Lemma render_err all sel paths profile mode e :
  List.NoDup (map ep_tag all) -> (forall i, In i sel -> In i (map ep_id all)) ->
  render_singbox_config_from_contract_with_access_paths (V := V) all sel paths profile mode = Err e ->
  e = NoSelectableRoute \/
  exists ep, In ep all /\ mem (ep_id ep) sel = true /\ first_hop all paths ep = Err e.
Proof.
  intros Hnd Hsel. unfold render_singbox_config_from_contract_with_access_paths.
  set (chk := fun i => match endpoint_by_id all i with Some _ => Ok tt | None => Err (Parse (SelectableWithoutEndpoint i)) end).
  assert (Hc : for_each chk (btree_set sel) = Ok tt).
  { apply for_each_ok. intros i Hi. rewrite In_btree_set in Hi. apply Hsel in Hi. apply in_map_iff in Hi as (x & <- & Hx).
    unfold chk, endpoint_by_id. destruct (List.find _ _) eqn:Ef; [done|].
    eapply find_none in Ef; [|apply (in_rev all), Hx]. by rewrite String.eqb_refl in Ef. }
  rewrite Hc. simpl. destruct (render_loop mode all sel paths racc_empty all) as [acc|e1] eqn:El; simpl.
  - destruct (r_tags acc) eqn:Et; [intros [= <-]; by left|]. case_bool_decide as Hm; [|done]. subst mode.
    unfold pin_to_single_route. assert (Hin : mem (choose_default profile HiddifyPinned acc) (r_tags acc) = true).
    { apply mem_In. eapply pinned_default_in; [exact El|by rewrite Et]. }
    rewrite <- Et, Hin. simpl. destruct (detour_chain_spec (r_outbounds acc) (choose_default profile HiddifyPinned acc)) as (ch & -> & _).
    done.
  - intros [= <-]. right. exact (render_loop_err _ _ _ _ _ racc_empty _ Hnd El).
Qed.

(** A hiddify-pinned profile offers exactly one route.  Of the outbounds
    rendered for endpoints, one carries a visible tag and every other one a
    hidden tag; the visible one is a selectable endpoint, the default the
    normal profile would have picked, and a relayed one as soon as the profile
    has any, in which case it still dials through a detour; every detour of
    the profile resolves to an outbound of the profile. *)
Theorem pinned_single_route all sel paths profile cfg :
  List.NoDup (map ep_tag (List.filter (rendered sel paths) all)) ->
  render_singbox_config_from_contract_with_access_paths (V := V) all sel paths profile HiddifyPinned = Ok cfg ->
  exists pre ob post ep,
    get_array cfg "outbounds" = Some ((pre ++ ob :: post) ++ tail_outbounds [ep_tag ep] [ep_tag ep] (ep_tag ep)) /\
    In ep all /\ mem (ep_id ep) sel = true /\ tag_of ob = Some (ep_tag ep) /\
    (forall o, In o (pre ++ post) -> exists t, tag_of o = Some t /\ is_hidden t) /\
    (existsb (relayed_ep all sel paths) all = true -> get_str ob "detour" <> None) /\
    (forall o d, In o (pre ++ ob :: post) -> get_str o "detour" = Some d ->
       exists o2, In o2 (pre ++ ob :: post) /\ tag_of o2 = Some d).
Proof.
  intros Hu Hok. destruct (pinned_outbounds _ _ _ _ _ Hu Hok)
    as (pre & ob & post & ep & -> & Hin & Hs & Ht & Hh & Hd & Hc & _).
  exists pre, ob, post, ep. split; [apply finish_config_get|]. done.
Qed.
End Configs.

(** ** Share links *)

(** The user can authenticate to the listener. *)
Definition has_credential (user : Grants.CompatUser) (ep : CompatEndpoint) : bool :=
  match ce_origin ep with
  | Local => true
  | Peer => match Grants.peer_credential user (unwrap_or (ce_credential_ref ep) (ce_id ep)) with
            | Some _ => true | None => false
            end
  end.

Lemma contract_endpoint_opt_credential user ep flow tag built :
  contract_endpoint_opt user ep flow tag = Ok built ->
  has_credential user ep = match built with Some _ => true | None => false end.
Proof.
  unfold contract_endpoint_opt, resolve_credential, has_credential. intros Hok.
  destruct (ce_origin ep); simpl in Hok.
  - apply bind_ok in Hok as (p & _ & Hok). by injection Hok as <-.
  - destruct (Grants.peer_credential _ _); [|by injection Hok as <-].
    case_bool_decide; [|discriminate]. simpl in Hok. apply bind_ok in Hok as (? & _ & Hok). by injection Hok as <-.
Qed.

Lemma share_link_some user vo ep line :
  is_direct ep = true -> share_link user vo ep = Ok line ->
  has_credential user ep = match line with Some _ => true | None => false end.
Proof.
  unfold share_link. intros -> Hok. simpl in Hok. destruct (ce_transport ep), vo; simpl in Hok;
    apply bind_ok in Hok as (built & Hb & Hok);
    rewrite (contract_endpoint_opt_credential _ _ _ _ _ Hb);
    (destruct built; [apply bind_ok in Hok as (? & _ & Hok)|]; by injection Hok as <-).
Qed.

Lemma share_lines_spec user vo eps lines :
  (forall ep, In ep eps -> is_direct ep = true) ->
  share_lines user vo eps = Ok lines ->
  Forall2 (fun ep uri => share_link user vo ep = Ok (Some uri)) (List.filter (has_credential user) eps) lines.
Proof.
  revert lines. induction eps as [|ep eps IH]; simpl; intros lines Hd Hok; [injection Hok as <-; constructor|].
  apply bind_ok in Hok as (line & Hl & Hok). apply bind_ok in Hok as (ls & Hls & Hok). injection Hok as <-.
  rewrite (share_link_some _ _ _ _ (Hd ep (or_introl eq_refl)) Hl).
  destruct line; [constructor; [done|]|]; apply IH; auto.
Qed.

(** The endpoints share links are made for: the direct ones that are not the
    first hop of a relay path. *)
Lemma share_link_endpoints_spec ces paths ep :
  In ep (share_link_endpoints ces paths) <->
  In ep ces /\ (ce_path ep = None \/ ce_path ep = Some "direct") /\
  forall p, In p paths -> ap_kind p = KRelay -> ap_via_endpoint_id p <> Some (ce_id ep).
Proof.
  assert (Hd : is_direct ep = true <-> ce_path ep = None \/ ce_path ep = Some "direct").
  { unfold is_direct. destruct (ce_path ep) as [p|]; [|tauto]. rewrite String.eqb_eq.
    split; [intros ->; auto|intros [[=]|[= ->]]; done]. }
  unfold share_link_endpoints. rewrite !In_filterb, Hd, negb_true_iff, <- not_true_iff_false, mem_infrastructure.
  split.
  - intros [[Hin Hp] Hi]. split; [done|]. split; [done|]. intros p ?? E. apply Hi. eauto.
  - intros (Hin & Hp & Hi). split; [done|]. intros (p & ? & ? & ?). by eapply Hi.
Qed.

(** The body of a share-link subscription is one line per listed endpoint the
    user has a credential for, in order. *)
Lemma render_share_links_spec user ces paths vo body :
  render_share_links user (share_link_endpoints ces paths) vo = Ok body ->
  exists lines, body = join_on "010" lines /\
    Forall2 (fun ep uri => share_link user vo ep = Ok (Some uri))
      (List.filter (has_credential user) (share_link_endpoints ces paths)) lines.
Proof.
  intros Hok. apply bind_ok in Hok as (lines & Hl & Hok). injection Hok as <-. exists lines. split; [done|].
  eapply share_lines_spec; [|exact Hl]. intros ep Hin. apply In_filterb in Hin as [Hin _].
  by apply In_filterb in Hin as [_ ?].
Qed.

(** *** Labels *)

Definition hex_value (c : ascii) : Z := if is_ascii_digit c then byte_val c - 48 else byte_val c - 55.

(** What an importer does with the fragment of a link. *)
Fixpoint percent_decode (s : string) : string :=
  match s with
  | String c s' =>
      match is_char "%" c, s' with
      | true, String x (String y s'') =>
          String (ascii_of_N (Z.to_N (hex_value x * 16 + hex_value y))) (percent_decode s'')
      | _, _ => String c (percent_decode s')
      end
  | EmptyString => EmptyString
  end.

Lemma percent_decode_plain c s : is_char "%" c = false -> percent_decode (String c s) = String c (percent_decode s).
Proof. intros E. cbn [percent_decode]. by rewrite E. Qed.

(** Labels survive the trip through a share link.  The encoded label
    contains unreserved characters and percent signs only, so it cannot end
    the link, start another line or add a parameter, and decoding it gives the
    label back. *)
Theorem percent_encode_roundtrip label :
  percent_decode (percent_encode_label label) = label /\
  str_all (fun c => is_unreserved c || is_char "%" c) (percent_encode_label label) = true.
Proof.
  induction label as [|b s [IHd IHs]]; [done|]. cbn [percent_encode_label].
  destruct (is_unreserved b) eqn:E.
  - split.
    + rewrite percent_decode_plain, IHd; [done|].
      assert (Hb : implb (is_unreserved b) (negb (is_char "%" b)) = true)
        by (by_bytes (fun b => implb (is_unreserved b) (negb (is_char "%" b)))).
      rewrite E in Hb. simpl in Hb. by apply negb_true_iff in Hb.
    + by rewrite str_all_cons, E, IHs.
  - split.
    + simpl. rewrite IHd. f_equal. apply Ascii.eqb_eq.
      by_bytes (fun b => Ascii.eqb (ascii_of_N (Z.to_N
        (hex_value (hex_upper (byte_val b / 16)) * 16 + hex_value (hex_upper (byte_val b mod 16))))) b).
    + rewrite !str_all_cons, IHs, andb_true_r. change (is_unreserved "%" || is_char "%" "%") with true.
      rewrite andb_true_l.
      by_bytes (fun b => (is_unreserved (hex_upper (byte_val b / 16)) || is_char "%" (hex_upper (byte_val b / 16)))
        && (is_unreserved (hex_upper (byte_val b mod 16)) || is_char "%" (hex_upper (byte_val b mod 16)))).
Qed.

(** *** The profile title header *)

Section Title.
Context (base64_encode : string -> string).
Hypothesis base64_ascii : forall s, str_all (in_range 32 126) (base64_encode s) = true.
Hypothesis base64_inj : forall s t, base64_encode s = base64_encode t -> s = t.

(** The [profile-title] header can always be sent and never confuses two
    titles: its value is printable ASCII for every title, and different titles
    give different values, a title that looks encoded included. *)
Theorem profile_title_header_unambiguous s t :
  str_all (in_range 32 126) (profile_title_header_value base64_encode s) = true /\
  (profile_title_header_value base64_encode s = profile_title_header_value base64_encode t -> s = t).
Proof.
  unfold profile_title_header_value. split.
  - case_if; b2p; [done|]. rewrite str_all_app. apply andb_true_iff. split; [done|apply base64_ascii].
  - destruct (str_all (in_range 32 126) s && negb (starts_with "base64:" s)) eqn:Es,
      (str_all (in_range 32 126) t && negb (starts_with "base64:" t)) eqn:Et; b2p.
    + done.
    + intros ->. by rewrite starts_with_app in *.
    + intros <-. by rewrite starts_with_app in *.
    + intros Heq. apply base64_inj. by apply (inj (String.app "base64:")) in Heq.
Qed.
End Title.

(** ** Examples *)

(** A user of a relay node: a local REALITY listener, which is the first hop of
    the path "ru", and a peer exit behind it. *)
Definition ex_user : Grants.CompatUser :=
  {| Grants.id := "user_1"; Grants.name := "alice"; Grants.enabled := true;
     Grants.u_vless_uuid := "11111111-1111-4111-8111-111111111111"; Grants.u_hysteria2_password := "own-password";
     Grants.subscription_token_hash_hex := "7f"; Grants.created_at := 0; Grants.expires_at := None;
     Grants.vision_off_experiment := false; Grants.google_egress_hairpin := false;
     Grants.exit_principal := false;
     Grants.peer_credentials := [("exit-1", Grants.PeerVlessReality "22222222-2222-4222-8222-222222222222")];
     Grants.is_reserved_probe := false; Grants.credentials := [] |}.
Definition ex_hop : CompatEndpoint :=
  standard_endpoint "reality-1" Grants.VlessReality "ru1.example.test" 443 "www.example.com" "Relay"
    (Reality "pbk" "0a1b" "chrome").
Definition ex_exit_endpoint : CompatEndpoint :=
  {| ce_id := "exit-1"; ce_transport := Grants.VlessReality; ce_host := "de1.example.test"; ce_port := 443;
     ce_server_name := Some "www.example.com"; ce_label := "Exit";
     ce_public_parameters := Reality "pbk2" "0c1d" "chrome"; ce_origin := Peer; ce_failure_domain := None;
     ce_region := None; ce_provider := None; ce_asn := None; ce_path := Some "ru"; ce_credential_ref := None;
     ce_vless_flow := FlowNone |}.
Definition ex_endpoints : list CompatEndpoint := [ex_hop; ex_exit_endpoint].
Definition ex_built (ep : CompatEndpoint) : Endpoint :=
  match contract_endpoint ex_user ep Vision None with Ok e => e | Err _ => ex_exit end.

Lemma endpoint_secret_resolved_witness :
  contract_endpoint_opt ex_user ex_exit_endpoint Vision None = Ok (Some (ex_built ex_exit_endpoint)) /\
  exists c, Grants.peer_credential ex_user "exit-1" = Some c /\
    secret_of (ep_params (ex_built ex_exit_endpoint)) = peer_secret c.
Proof.
  assert (H : contract_endpoint_opt ex_user ex_exit_endpoint Vision None = Ok (Some (ex_built ex_exit_endpoint)))
    by (vm_compute; reflexivity).
  split; [exact H|].
  destruct (endpoint_secret_resolved ex_user ex_exit_endpoint Vision None _ H)
    as (_ & _ & _ & _ & _ & (c & Hc & _ & Hs) & _).
  exists c. split; [exact Hc|exact Hs].
Defined.

Definition ex_catalog : list Endpoint := [ex_built ex_hop; ex_built ex_exit_endpoint].
Definition ex_pinned : json :=
  match render_singbox_config_from_contract_with_access_paths (V := json) ex_catalog ["exit-1"] [ex_relay_path]
          Reliability HiddifyPinned with
  | Ok c => c | Err _ => JNull end.

Lemma pinned_single_route_witness :
  exists pre ob post ep,
    get_array ex_pinned "outbounds" = Some ((pre ++ ob :: post) ++ tail_outbounds [ep_tag ep] [ep_tag ep] (ep_tag ep)) /\
    In ep ex_catalog /\ get_str ob "detour" <> None.
Proof.
  destruct (pinned_single_route (V := json) ex_catalog ["exit-1"] [ex_relay_path] Reliability ex_pinned)
    as (pre & ob & post & ep & Hg & Hin & _ & _ & _ & Hd & _).
  - lit_nodup.
  - vm_compute. reflexivity.
  - exists pre, ob, post, ep. split; [exact Hg|]. split; [exact Hin|]. apply Hd. vm_compute. reflexivity.
Defined.

(** A codec with the two promises made of base64: two hexadecimal digits per
    byte. *)
Fixpoint hex_encode (s : string) : string :=
  match s with
  | EmptyString => EmptyString
  | String b s' => String (hex_upper (byte_val b / 16)) (String (hex_upper (byte_val b mod 16)) (hex_encode s'))
  end.
Fixpoint hex_decode (s : string) : string :=
  match s with
  | String x (String y s') => String (ascii_of_N (Z.to_N (hex_value x * 16 + hex_value y))) (hex_decode s')
  | _ => EmptyString
  end.
Lemma hex_decode_encode s : hex_decode (hex_encode s) = s.
Proof.
  induction s as [|b s IH]; [done|]. simpl. rewrite IH. f_equal. apply Ascii.eqb_eq.
  by_bytes (fun b => Ascii.eqb (ascii_of_N (Z.to_N
    (hex_value (hex_upper (byte_val b / 16)) * 16 + hex_value (hex_upper (byte_val b mod 16))))) b).
Qed.
Lemma hex_encode_ascii s : str_all (in_range 32 126) (hex_encode s) = true.
Proof.
  induction s as [|b s IH]; [done|]. cbn [hex_encode]. rewrite !str_all_cons, IH, andb_true_r.
  by_bytes (fun b => in_range 32 126 (hex_upper (byte_val b / 16)) && in_range 32 126 (hex_upper (byte_val b mod 16))).
Qed.

Lemma profile_title_header_unambiguous_witness :
  profile_title_header_value hex_encode "My VPN" = "My VPN" /\
  profile_title_header_value hex_encode "base64:My VPN" <> profile_title_header_value hex_encode "My VPN".
Proof.
  split; [vm_compute; reflexivity|]. intros E.
  assert (Hi : forall s t, hex_encode s = hex_encode t -> s = t).
  { intros s t Hst. rewrite <- (hex_decode_encode s), <- (hex_decode_encode t), Hst. reflexivity. }
  apply (proj2 (profile_title_header_unambiguous hex_encode hex_encode_ascii Hi "base64:My VPN" "My VPN")) in E.
  discriminate E.
Defined.
End Render.
