(* ===== verification/Provisioning.v ===== *)
(** * crates/compat-config/src/contract.rs: the provisioning document

    The document a client provisions itself from, with the configuration
    rendered from the same endpoint list embedded in it.  [server_version] is
    the package version the build supplies. *)

From S2P Require Import Prelude Strs Credentials Grants Json Contract Render.
From Stdlib Require Import Ascii.

Module Provisioning.
Import Contract Render.

Inductive DiagnosticMode := DiagNone | DiagTcpOnly | DiagVisionOff.

#[global] Instance DiagnosticMode_eq_dec : EqDecision DiagnosticMode.
Proof. solve_decision. Defined.

Definition DiagnosticMode_parse (s : string) : option DiagnosticMode :=
  if String.eqb s "none" then Some DiagNone else
  if String.eqb s "tcp-only" || String.eqb s "diag-tcp-only" then Some DiagTcpOnly else
  if String.eqb s "vision-off" || String.eqb s "diag-vision-off" then Some DiagVisionOff else None.

Section Build.
Context {V : Type} `{JsonOps V, !JsonTree V}.
Context (to_string : V -> string) (server_version : string).

Definition relayed_vless (outbound : V) : bool :=
  bool_decide (get_str outbound "type" = Some "vless") && bool_decide (get_str outbound "detour" <> None).

Definition restore_application_udp_on_relayed_vless (config : V) (mode : CompatibilityMode)
  : result V CompatError :=
  if negb (bool_decide (mode = HiddifyPinned)) then Ok config else
  let? outbounds := ok_or (get_array config "outbounds") (Parse NoOutboundsArray) in
  Ok (jset config "outbounds"
        (jarr (map (fun ob => if relayed_vless ob then jremove ob "network" else ob) outbounds))).

(** The endpoints of the document: those the user has a credential for. *)
Fixpoint document_endpoints (user : Grants.CompatUser) (mode : DiagnosticMode)
  (l : list CompatEndpoint) : result (list Endpoint) CompatError :=
  match l with
  | [] => Ok []
  | ep :: l' =>
      if bool_decide (mode = DiagTcpOnly) && bool_decide (ce_transport ep = Grants.Hysteria2)
      then document_endpoints user mode l' else
      let vision_off := bool_decide (mode = DiagVisionOff)
                        && bool_decide (ce_transport ep = Grants.VlessReality) in
      let? built := contract_endpoint_opt user ep (if vision_off then VisionOff else Vision) None in
      let? rest := document_endpoints user mode l' in
      Ok (match built with Some b => b :: rest | None => rest end)
  end.

(** The capability list: first occurrences, in order. *)
Definition derive_capabilities (eps : list Endpoint) : list Capability :=
  foldl (fun caps ep => if bool_decide (ep_capability ep ∈ caps) then caps else caps ++ [ep_capability ep])
    [] eps.

Definition experimental_of (user : Grants.CompatUser) (endpoints : list CompatEndpoint) : list string :=
  if existsb (fun ep => bool_decide (ce_transport ep = Grants.VlessReality)) endpoints
  then tcp_only :: (if Grants.vision_off_experiment user then [vision_off] else [])
  else [].

Definition rendered_in (config : V) (ep : Endpoint) : bool :=
  match get_array config "outbounds" with
  | Some outbounds => existsb (has_tag (ep_tag ep)) outbounds
  | None => false
  end.

Definition selectable_of (paths : list AccessPath) (eps : list Endpoint) : list Endpoint :=
  List.filter (fun ep => negb (mem (ep_id ep) (infrastructure_endpoint_ids paths))) eps.

(** Everything up to the final [doc.validate()]. *)
Definition assemble_document (user : Grants.CompatUser)
  (endpoints : list CompatEndpoint) (mode : DiagnosticMode) (access_paths : list AccessPath)
  (profile : SelectionProfile) (compat_mode : CompatibilityMode)
  : result (ProvisioningDocument V) CompatError :=
  let? contract_endpoints := document_endpoints user mode endpoints in
  let selectable := selectable_of access_paths contract_endpoints in
  if bool_decide (selectable = []) && negb (bool_decide (infrastructure_endpoint_ids access_paths = []))
  then Err NoSelectableRoute else
  let capabilities := derive_capabilities selectable in
  let experimental := experimental_of user endpoints in
  let? config := render_singbox_config_from_contract_with_access_paths contract_endpoints
                   (map ep_id selectable) access_paths profile compat_mode in
  let? config := restore_application_udp_on_relayed_vless config compat_mode in
  let '(selectable, capabilities) :=
    if bool_decide (compat_mode = HiddifyPinned) then
      let pinned := List.filter (rendered_in config) selectable in
      (pinned, derive_capabilities pinned)
    else (selectable, capabilities) in
  Ok (with_singbox_config (with_access_paths (with_experimental_capabilities
        (document_new (ServerInfo_current server_version) capabilities selectable)
        experimental) access_paths) config).

Definition provisioning_document_with_mode_and_access_paths_and_options (user : Grants.CompatUser)
  (endpoints : list CompatEndpoint) (mode : DiagnosticMode) (access_paths : list AccessPath)
  (profile : SelectionProfile) (compat_mode : CompatibilityMode)
  : result (ProvisioningDocument V) CompatError :=
  let? doc := assemble_document user endpoints mode access_paths profile compat_mode in
  let? _ := map_err ContractViolation (validate to_string doc) in
  Ok doc.

Definition provisioning_document_with_mode_and_access_paths (user : Grants.CompatUser)
  (endpoints : list CompatEndpoint) (mode : DiagnosticMode) (access_paths : list AccessPath)
  : result (ProvisioningDocument V) CompatError :=
  let compat_mode := match mode with
                     | DiagTcpOnly => TcpOnly | DiagVisionOff => ModeVisionOff | DiagNone => Normal
                     end in
  provisioning_document_with_mode_and_access_paths_and_options user endpoints mode access_paths
    Reliability compat_mode.

Definition provisioning_document_with_mode (user : Grants.CompatUser) (endpoints : list CompatEndpoint)
  (mode : DiagnosticMode) : result (ProvisioningDocument V) CompatError :=
  provisioning_document_with_mode_and_access_paths user endpoints mode [].

Definition provisioning_document (user : Grants.CompatUser) (endpoints : list CompatEndpoint)
  : result (ProvisioningDocument V) CompatError :=
  provisioning_document_with_mode user endpoints DiagNone.

End Build.

(** ** Lemmas: the document's endpoint lists *)

Lemma selectable_ids paths eps ep :
  In ep eps ->
  mem (ep_id ep) (map ep_id (selectable_of paths eps))
  = negb (mem (ep_id ep) (infrastructure_endpoint_ids paths)).
Proof.
  intros Hin. destruct (mem (ep_id ep) (infrastructure_endpoint_ids paths)) eqn:E; simpl.
  - apply mem_false. intros Hx. apply in_map_iff in Hx as (x & Ex & Hx).
    apply In_filterb in Hx as [_ Hx]. rewrite Ex, E in Hx. done.
  - apply mem_In, in_map, In_filterb. by rewrite E.
Qed.

Lemma filter_ext_In {A} (f g : A -> bool) l :
  (forall x, In x l -> f x = g x) -> List.filter f l = List.filter g l.
Proof.
  induction l as [|x l IH]; simpl; intros Hx; [done|].
  rewrite (Hx x (or_introl eq_refl)), IH by auto. done.
Qed.

Lemma filter_true {A} (f : A -> bool) l : (forall x, In x l -> f x = true) -> List.filter f l = l.
Proof.
  induction l as [|x l IH]; simpl; intros Hx; [done|].
  rewrite (Hx x (or_introl eq_refl)), IH by auto. done.
Qed.

Lemma filter_selectable paths eps :
  List.filter (fun ep => mem (ep_id ep) (map ep_id (selectable_of paths eps))) eps = selectable_of paths eps.
Proof. apply filter_ext_In. intros x. apply selectable_ids. Qed.

Lemma all_rendered paths eps :
  List.filter (rendered (map ep_id (selectable_of paths eps)) paths) eps = eps.
Proof.
  apply filter_true. intros x Hx. unfold rendered. rewrite selectable_ids by done.
  by destruct (mem _ _).
Qed.

(** For a selectable endpoint the renderer and the contract mean the same by
    "relayed". *)
Lemma relayed_agree paths eps ep :
  (forall e, In e eps -> mem (ep_id e) (map ep_id (selectable_of paths eps)) = true ->
     is_ok (first_hop eps paths e) = true) ->
  In ep eps ->
  relayed_ep eps (map ep_id (selectable_of paths eps)) paths ep
  = negb (mem (ep_id ep) (infrastructure_endpoint_ids paths)) && is_relayed paths ep.
Proof.
  intros Hok Hin. unfold relayed_ep, hop. specialize (Hok ep Hin). rewrite selectable_ids in * by done.
  destruct (mem (ep_id ep) (infrastructure_endpoint_ids paths)); simpl in *; [done|].
  specialize (Hok eq_refl). destruct (is_relayed paths ep) eqn:Er.
  - destruct (first_hop_relayed _ _ _ Hok Er) as (via & ->). done.
  - destruct (first_hop eps paths ep) as [[via|]|] eqn:Ef; try done.
    apply first_hop_spec in Ef as (_ & _ & _ & _ & _ & Er' & _). congruence.
Qed.

Lemma filter_filter {A} (f g : A -> bool) l :
  List.filter f (List.filter g l) = List.filter (fun x => g x && f x) l.
Proof.
  induction l as [|x l IH]; simpl; [done|]. destruct (g x); simpl; [|done].
  destruct (f x); [by rewrite IH|done].
Qed.

Lemma relayed_tags_agree paths eps :
  (forall e, In e eps -> mem (ep_id e) (map ep_id (selectable_of paths eps)) = true ->
     is_ok (first_hop eps paths e) = true) ->
  map ep_tag (List.filter (relayed_ep eps (map ep_id (selectable_of paths eps)) paths) eps)
  = relayed_tags paths (selectable_of paths eps).
Proof.
  intros Hok. unfold relayed_tags, selectable_of at 2. rewrite filter_filter. f_equal.
  apply filter_ext_In. intros x Hx. by apply relayed_agree.
Qed.

(** *** Capabilities *)

Lemma derive_capabilities_spec eps c :
  In c (derive_capabilities eps) <-> exists ep, In ep eps /\ ep_capability ep = c.
Proof.
  unfold derive_capabilities. set (f := fun caps ep => _).
  assert (Hg : forall l caps, In c (foldl f caps l) <-> In c caps \/ exists ep, In ep l /\ ep_capability ep = c).
  { induction l as [|x l IH]; intros caps; simpl; [split; [auto|intros [?|(?&[]&_)]; done]|].
    rewrite IH. unfold f. case_bool_decide as Hx.
    - apply list_elem_of_In in Hx. split.
      + intros [?|(e&?&?)]; [auto|eauto].
      + intros [?|(e&[<-|?]&<-)]; eauto.
    - rewrite in_app_iff. simpl. split.
      + intros [[?|[?|[]]]|(e&?&?)]; eauto.
      + intros [?|(e&[<-|?]&?)]; eauto. }
  rewrite Hg. split; [by intros [[]|?]|auto].
Qed.

(** ** The embedded configuration always agrees with the catalog *)

Section Agreement.
Context {V : Type} {JO : JsonOps V} {JL : JsonLaws V} {JT : JsonTree V} {JTL : JsonTreeLaws V}.
(** Endpoint tags as the deployment configuration admits them: distinct, none
    of the tags the renderer emits itself, none with the hidden marker. *)
Definition reserved : list string := ["auto"; "select"; "direct"].
Definition tags_ok (eps : list Endpoint) : Prop :=
  List.NoDup (map ep_tag eps) /\
  forall ep, In ep eps -> ~ In (ep_tag ep) reserved /\ ~ is_hidden (ep_tag ep).

Lemma find_app_none {A} (f : A -> bool) l1 l2 :
  (forall x, In x l1 -> f x = false) -> List.find f (l1 ++ l2) = List.find f l2.
Proof.
  induction l1 as [|x l1 IH]; simpl; intros Hx; [done|].
  rewrite (Hx x (or_introl eq_refl)). auto.
Qed.

(** Agreement for any list of endpoint outbounds followed by the groups. *)
Lemma agrees_intro (doc : ProvisioningDocument V) cfg obs auto d :
  let rt := relayed_tags (access_paths doc) (endpoints doc) in
  get_array cfg "outbounds" = Some (obs ++ tail_outbounds (map ep_tag (endpoints doc)) auto d) ->
  final_tag cfg = "select" ->
  (forall ep, In ep (endpoints doc) -> exists ob, In ob obs /\ tag_of ob = Some (ep_tag ep)) ->
  (forall ob, In ob obs -> exists t, tag_of ob = Some t /\ ~ In t reserved /\
     (In t rt -> get_str ob "detour" <> None)) ->
  (forall ob, In ob obs -> get_str ob "type" <> Some "urltest") ->
  (forall ep, In ep (endpoints doc) -> ~ In (ep_tag ep) reserved) ->
  (rt <> [] -> forall t, In t auto -> In t rt) ->
  config_agrees doc cfg.
Proof.
  intros rt Ho Hf Hep Hob Hty Hres Hauto. split; [|done].
  eexists. split; [exact Ho|]. split; [|split].
  - intros ep Hin. destruct (Hep ep Hin) as (ob & ? & ?). exists ob. split; [apply in_app_iff; by left|done].
  - exists (selector_outbound (map ep_tag (endpoints doc)) d), (map jstr (map ep_tag (endpoints doc) ++ ["auto"])).
    split; [|split].
    + rewrite find_app_none.
      * unfold tail_outbounds. cbn [List.find]. rewrite !has_tag_eq.
        destruct (urltest_get (V := V) auto) as (-> & _ & _).
        destruct (selector_get (V := V) (map ep_tag (endpoints doc)) d) as (-> & _ & _). done.
      * intros ob Hin. rewrite has_tag_eq. destruct (Hob ob Hin) as (t & -> & Hr & _).
        apply bool_decide_eq_false. intros [= ->]. apply Hr. simpl. auto.
    + apply selector_get.
    + by rewrite omap_jas_str.
  - intros Hne ob Hin. apply in_app_iff in Hin as [Hin|Hin].
    + split; [|intros Hu; by apply Hty in Hin]. destruct (Hob ob Hin) as (t & -> & _ & Hd). exact Hd.
    + assert (Hrt : forall t, In t reserved -> ~ In t rt).
      { intros t Ht Hin'. apply in_map_iff in Hin' as (ep & <- & Hin'). apply In_filterb in Hin' as [Hin' _].
        by apply (Hres ep Hin'). }
      destruct Hin as [<-|[<-|[<-|[]]]].
      * destruct (urltest_get (V := V) auto) as (-> & _ & ->). simpl or_default.
        split; [intros Hx; exfalso; apply (Hrt "auto"); [simpl; auto|done]|].
        intros _ members m [= <-] Hm. apply in_map_iff in Hm as (t & <- & Hm). rewrite jas_str_jstr. by apply Hauto.
      * destruct (selector_get (V := V) (map ep_tag (endpoints doc)) d) as (-> & -> & _). simpl or_default.
        split; [|done]. intros Hx; exfalso; apply (Hrt "select"); [simpl; auto|done].
      * destruct (direct_get (V := V)) as (-> & ->). simpl or_default.
        split; [|done]. intros Hx; exfalso; apply (Hrt "direct"); [simpl; auto|done].
Qed.

Lemma In_selectable paths eps ep : In ep (selectable_of paths eps) -> In ep eps.
Proof. intros Hin. by apply In_filterb in Hin as [? _]. Qed.

Lemma unpinned_agrees (doc : ProvisioningDocument V) eps paths profile mode cfg :
  tags_ok eps -> mode <> HiddifyPinned ->
  render_singbox_config_from_contract_with_access_paths eps (map ep_id (selectable_of paths eps)) paths profile mode
    = Ok cfg ->
  endpoints doc = selectable_of paths eps -> access_paths doc = paths ->
  config_agrees doc cfg.
Proof.
  intros [Hnd Hres] Hm Hok Hde Hdp. apply render_ok in Hok as (acc & Hl & _ & _ & Hcfg).
  rewrite bool_decide_false in Hcfg by done. subst cfg.
  apply loop_result in Hl as (Hf & Ht & _ & Ho & Hr). rewrite relayed_tags_agree in Hr by done.
  rewrite filter_selectable, <- Hde in Ht. rewrite Ho, Ht.
  destruct (finish_config_get (V := V) mode (loop_outbounds mode eps (map ep_id (selectable_of paths eps)) paths)
    (map ep_tag (endpoints doc)) (match r_relayed acc with [] => map ep_tag (endpoints doc) | relayed => relayed end)
    (choose_default profile mode acc)) as [Ha Hfin].
  eapply agrees_intro; [exact Ha|exact Hfin|..]; rewrite ?Hde, ?Hdp.
  - intros ep Hin. exists (endpoint_outbound mode eps (map ep_id (selectable_of paths eps)) paths ep).
    split; [|by apply endpoint_outbound_get]. unfold loop_outbounds. rewrite all_rendered.
    by apply in_map, (In_selectable paths).
  - intros ob Hin. unfold loop_outbounds in Hin. rewrite all_rendered in Hin.
    apply in_map_iff in Hin as (ep & <- & Hin). exists (ep_tag ep).
    destruct (endpoint_outbound_get (V := V) mode eps (map ep_id (selectable_of paths eps)) paths ep) as (-> & _ & ->).
    split; [done|]. split; [by apply Hres|]. rewrite <- relayed_tags_agree by done. intros Hrel.
    apply in_map_iff in Hrel as (e & Ee & He). apply In_filterb in He as [He Hrel].
    rewrite (NoDup_map_inj ep_tag eps e ep Hnd He Hin Ee) in Hrel. unfold relayed_ep in Hrel.
    by destruct (hop _ _ _ ep).
  - intros ob Hin. apply in_map_iff in Hin as (ep & <- & _).
    destruct (endpoint_outbound_get (V := V) mode eps (map ep_id (selectable_of paths eps)) paths ep) as (_ & -> & _).
    by destruct (is_vless ep).
  - intros ep Hin. by apply Hres, (In_selectable paths).
  - rewrite Hr. by destruct (relayed_tags paths (selectable_of paths eps)).
Qed.

(** *** The pinned profile *)

Definition strip_network (ob : V) : V := if relayed_vless ob then jremove ob "network" else ob.

Lemma strip_network_get (ob : V) k :
  is_obj ob -> k <> "network" -> get_str (strip_network ob) k = get_str ob k.
Proof.
  intros Ho Hk. unfold strip_network. destruct (relayed_vless ob); [|done].
  rewrite get_str_jremove by done. apply not_eq_sym, String.eqb_neq in Hk. by rewrite Hk.
Qed.

Lemma strip_tail tags auto d : map strip_network (tail_outbounds (V := V) tags auto d) = tail_outbounds tags auto d.
Proof.
  unfold tail_outbounds, strip_network, relayed_vless. simpl.
  destruct (urltest_get (V := V) auto) as (_ & -> & _).
  destruct (selector_get (V := V) tags d) as (_ & -> & _). destruct (direct_get (V := V)) as (_ & ->).
  rewrite !andb_false_r. done.
Qed.

Lemma restore_get mode obs tags auto d cfg' :
  restore_application_udp_on_relayed_vless (finish_config (V := V) mode obs tags auto d) HiddifyPinned = Ok cfg' ->
  get_array cfg' "outbounds" = Some (map strip_network obs ++ tail_outbounds tags auto d) /\
  final_tag cfg' = "select".
Proof.
  unfold restore_application_udp_on_relayed_vless. rewrite bool_decide_true by done. simpl.
  destruct (finish_config_get (V := V) mode obs tags auto d) as [Ho Hf]. rewrite Ho. simpl. intros [= <-].
  assert (Hobj : is_obj (finish_config (V := V) mode obs tags auto d)) by (apply is_obj_jobj; lit_nodup).
  split.
  - unfold get_array. rewrite jget_jset by done. simpl. rewrite jas_array_jarr.
    rewrite map_app. do 2 f_equal. apply strip_tail.
  - unfold final_tag in *. rewrite jget_jset by done. exact Hf.
Qed.

Lemma filter_unique_tag eps (ep : Endpoint) l :
  List.NoDup (map ep_tag eps) -> In ep l -> (forall x, In x l -> In x eps) -> List.NoDup l ->
  List.filter (fun x => String.eqb (ep_tag x) (ep_tag ep)) l = [ep].
Proof.
  intros Hnd Hin Hsub Hl. assert (Hu : forall x, In x l -> ep_tag x = ep_tag ep -> x = ep).
  { intros x Hx E. apply (NoDup_map_inj ep_tag eps); auto. }
  clear Hnd Hsub. induction l as [|y l IH]; [done|]. inversion Hl; subst. simpl.
  destruct (String.eqb (ep_tag y) (ep_tag ep)) eqn:E; b2p.
  - assert (y = ep) as -> by (apply Hu; [by left|done]). f_equal.
    apply (filter_nil_iff). intros x Hx. apply String.eqb_neq. intros Ex. by rewrite (Hu x (or_intror Hx) Ex) in Hx.
  - destruct Hin as [->|Hin]; [done|]. apply IH; auto. intros x Hx. apply Hu. by right.
Qed.

Lemma hidden_not_reserved t : is_hidden t -> ~ In t reserved.
Proof.
  intros [p ->] Hin. assert (Hl : slen (p +:+ HIDDIFY_HIDDEN_TAG_SUFFIX) <= 6).
  { simpl in Hin. destruct Hin as [<-|[<-|[<-|[]]]]; vm_compute; congruence. }
  rewrite slen_app in Hl. pose proof (slen_nonneg p). change (slen HIDDIFY_HIDDEN_TAG_SUFFIX) with 9 in Hl. lia.
Qed.

(** Which catalog endpoints the pinned configuration still dials. *)
Lemma pinned_rendered_in cfg' pre ob post keep x :
  get_array cfg' "outbounds" = Some (map strip_network (pre ++ ob :: post) ++ tail_outbounds (V := V) [keep] [keep] keep) ->
  (forall o, In o (pre ++ ob :: post) -> tag_of (strip_network o) = tag_of o) ->
  tag_of ob = Some keep ->
  (forall o, In o (pre ++ post) -> exists t, tag_of o = Some t /\ is_hidden t) ->
  ~ In (ep_tag x) reserved -> ~ is_hidden (ep_tag x) ->
  rendered_in cfg' x = String.eqb (ep_tag x) keep.
Proof.
  intros Ho Htags Ht Hh Hxr Hxh. unfold rendered_in. rewrite Ho.
  apply eq_true_iff_eq. rewrite existsb_exists, String.eqb_eq.
  setoid_rewrite has_tag_eq. setoid_rewrite bool_decide_eq_true. split.
  - intros (o & Ho' & Hot). apply in_app_iff in Ho' as [Ho'|Ho'].
    + apply in_map_iff in Ho' as (o0 & <- & Ho'). rewrite Htags in Hot by done.
      destruct (in_inv (proj2 (in_app_iff (ob :: post) pre o0) ltac:(apply in_app_iff in Ho'; tauto))) as [<-|Ho2];
        [congruence|]. destruct (Hh o0) as (t & Ht0 & Hht); [|congruence].
      rewrite in_app_iff in Ho2 |- *. tauto.
    + exfalso. apply Hxr. destruct Ho' as [<-|[<-|[<-|[]]]];
        [rewrite (proj1 (urltest_get _)) in Hot|rewrite (proj1 (selector_get _ _)) in Hot|rewrite (proj1 direct_get) in Hot];
        injection Hot as <-; simpl; auto.
  - intros ->. exists (strip_network ob). split; [apply in_app_iff; left; apply in_map, in_app_iff; simpl; auto|].
    rewrite Htags; [done|apply in_app_iff; simpl; auto].
Qed.

Lemma pinned_agrees (doc : ProvisioningDocument V) eps paths profile cfg cfg' :
  tags_ok eps ->
  render_singbox_config_from_contract_with_access_paths eps (map ep_id (selectable_of paths eps)) paths profile
    HiddifyPinned = Ok cfg ->
  restore_application_udp_on_relayed_vless cfg HiddifyPinned = Ok cfg' ->
  endpoints doc = List.filter (rendered_in cfg') (selectable_of paths eps) -> access_paths doc = paths ->
  config_agrees doc cfg' /\ exists ep, In ep (selectable_of paths eps) /\ endpoints doc = [ep].
Proof.
  intros [Hnd Hres] Hok Hr Hde Hdp.
  pose proof (render_ok _ _ _ _ _ _ Hok) as (acc & Hl & _). apply loop_result in Hl as (Hf & _).
  destruct (pinned_outbounds eps (map ep_id (selectable_of paths eps)) paths profile cfg) as
    (pre & ob & post & ep & -> & Hin & Hs & Ht & Hh & Hd & _ & Hty); [by rewrite all_rendered|done|].
  apply restore_get in Hr as [Ho Hfin].
  assert (Hsel : In ep (selectable_of paths eps)) by (rewrite selectable_ids in Hs by done; by apply In_filterb).
  assert (Hget : forall o k, In o (pre ++ ob :: post) -> k <> "network" -> get_str (strip_network o) k = get_str o k).
  { intros o k Ho' Hk. apply strip_network_get; [by apply Hty|done]. }
  assert (Hep : endpoints doc = [ep]).
  { rewrite Hde, <- (filter_unique_tag eps ep (selectable_of paths eps)); try done.
    - apply filter_ext_In. intros x Hx. apply In_selectable in Hx.
      eapply pinned_rendered_in; try done; [|by apply Hres..]. intros o Ho'. by apply Hget.
    - apply In_selectable.
    - apply List.NoDup_filter, (NoDup_map_inv ep_tag). done. }
  split; [|by exists ep].
  assert (Hhd : forall o, In o (pre ++ ob :: post) -> exists t, tag_of o = Some t /\ (o = ob \/ is_hidden t)).
  { intros o Ho'. apply in_app_iff in Ho'. destruct Ho' as [Ho'|[<-|Ho']];
      [|by exists (ep_tag ep); auto|]; destruct (Hh o ltac:(apply in_app_iff; tauto)) as (t & ? & ?); eauto. }
  eapply agrees_intro; rewrite ?Hep, ?Hdp; simpl map; [exact Ho|done|..].
  - intros x [<-|[]]. exists (strip_network ob). split; [apply in_map, in_app_iff; simpl; auto|].
    unfold tag_of. rewrite Hget; [done|apply in_app_iff; simpl; auto|done].
  - intros o Ho'. apply in_map_iff in Ho' as (o0 & <- & Ho'). unfold tag_of. rewrite !Hget by done.
    destruct (Hhd o0 Ho') as (t & Ht0 & Hor). exists t. split; [done|].
    assert (Hrt : In t (relayed_tags paths [ep]) -> t = ep_tag ep /\ is_relayed paths ep = true).
    { unfold relayed_tags. simpl. destruct (is_relayed paths ep); [by intros [<-|[]]|by intros []]. }
    destruct Hor as [->|Hhid].
    + assert (t = ep_tag ep) as -> by congruence. split; [by apply Hres|]. intros [_ Hr]%Hrt. apply Hd.
      apply existsb_exists. exists ep. split; [done|]. rewrite relayed_agree by done.
      rewrite Hr, andb_true_r. by rewrite selectable_ids in Hs.
    + split; [by apply hidden_not_reserved|]. intros [-> _]%Hrt. by destruct (Hres ep Hin).
  - intros o Ho'. apply in_map_iff in Ho' as (o0 & <- & Ho'). rewrite Hget by done.
    destruct (Hty o0 Ho') as (_ & [-> | ->]); done.
  - intros x [<-|[]]. by apply Hres.
  - intros Hne t [<-|[]]. unfold relayed_tags in *. simpl in *. destruct (is_relayed paths ep); [by left|done].
Qed.

(** *** The assembled document *)

Context (server_version : string).

Lemma assemble_ok user ces mode paths profile cmode doc :
  assemble_document (V := V) server_version user ces mode paths profile cmode = Ok doc ->
  exists eps cfg cfg',
    document_endpoints user mode ces = Ok eps /\
    render_singbox_config_from_contract_with_access_paths eps (map ep_id (selectable_of paths eps)) paths profile cmode
      = Ok cfg /\
    restore_application_udp_on_relayed_vless cfg cmode = Ok cfg' /\
    singbox_config doc = Some cfg' /\ access_paths doc = paths /\
    endpoints doc = (if bool_decide (cmode = HiddifyPinned) then List.filter (rendered_in cfg') (selectable_of paths eps)
                     else selectable_of paths eps) /\
    capabilities doc = derive_capabilities (endpoints doc).
Proof.
  unfold assemble_document. intros Hok. apply bind_ok in Hok as (eps & He & Hok).
  apply if_err_ok in Hok as [_ Hok]. apply bind_ok in Hok as (cfg & Hc & Hok).
  apply bind_ok in Hok as (cfg' & Hc' & Hok). exists eps, cfg, cfg'.
  destruct (bool_decide (cmode = HiddifyPinned)); injection Hok as <-; done.
Qed.

Lemma assembled_agrees user ces mode paths profile cmode doc eps :
  document_endpoints user mode ces = Ok eps -> tags_ok eps ->
  assemble_document (V := V) server_version user ces mode paths profile cmode = Ok doc ->
  exists cfg, singbox_config doc = Some cfg /\ config_agrees doc cfg.
Proof.
  intros He Ht Ha. apply assemble_ok in Ha as (eps' & cfg & cfg' & He' & Hr & Hs & Hcfg & Hp & Hde & _).
  rewrite He in He'. injection He' as <-. exists cfg'. split; [done|].
  destruct (decide (cmode = HiddifyPinned)) as [->|Hm].
  - rewrite bool_decide_true in Hde by done. by eapply pinned_agrees.
  - rewrite bool_decide_false in Hde by done. unfold restore_application_udp_on_relayed_vless in Hs.
    rewrite bool_decide_false in Hs by done. injection Hs as <-. by eapply unpinned_agrees.
Qed.

(** Assembly fails on the user's credentials, for want of a route, or in the
    renderer. *)
Lemma assemble_err user ces mode paths profile cmode e :
  assemble_document (V := V) server_version user ces mode paths profile cmode = Err e ->
  document_endpoints user mode ces = Err e \/ e = NoSelectableRoute \/
  exists eps, document_endpoints user mode ces = Ok eps /\
    render_singbox_config_from_contract_with_access_paths (V := V) eps (map ep_id (selectable_of paths eps)) paths profile cmode
      = Err e.
Proof.
  unfold assemble_document. destruct (document_endpoints user mode ces) as [eps|]; simpl; [|intros [= <-]; by left].
  case_if; [intros [= <-]; auto|].
  destruct (render_singbox_config_from_contract_with_access_paths eps (map ep_id (selectable_of paths eps)) paths profile cmode)
    as [cfg|] eqn:Er; simpl; [|intros [= <-]; right; right; by exists eps].
  assert (Hg : exists obs, get_array cfg "outbounds" = Some obs).
  { apply render_ok in Er as (acc & _ & _ & _ & Hc). case_bool_decide.
    - destruct Hc as (obs & _ & ->). eexists. apply finish_config_get.
    - subst cfg. eexists. apply finish_config_get. }
  destruct Hg as [obs Hg]. unfold restore_application_udp_on_relayed_vless. rewrite Hg. simpl.
  by repeat case_bool_decide.
Qed.

(** C5: relayed exits are only ever dialled through their first hop.  In every
    assembled document of a mode other than the pinned one, an endpoint whose
    path is a relay path is rendered with a detour, and that detour is the tag
    of the very endpoint the path names as its first hop, which is rendered
    without a detour and is itself never offered as an endpoint; the automatic
    group holds relayed endpoints only. *)
Theorem relayed_exit_dialled_through_hop user ces mode paths profile cmode doc eps cfg ep :
  document_endpoints user mode ces = Ok eps -> cmode <> HiddifyPinned ->
  assemble_document (V := V) server_version user ces mode paths profile cmode = Ok doc ->
  singbox_config doc = Some cfg -> In ep (endpoints doc) -> is_relayed paths ep = true ->
  exists via outbounds ob hop_ob,
    get_array cfg "outbounds" = Some outbounds /\
    In ob outbounds /\ tag_of ob = Some (ep_tag ep) /\ get_str ob "detour" = Some (ep_tag via) /\
    In hop_ob outbounds /\ tag_of hop_ob = Some (ep_tag via) /\ get_str hop_ob "detour" = None /\
    In via eps /\ ~ In via (endpoints doc) /\
    (exists p, In p paths /\ ep_path ep = Some (POther (ap_id p)) /\ ap_via_endpoint_id p = Some (ep_id via)) /\
    In (urltest_outbound (relayed_tags paths (endpoints doc))) outbounds.
Proof.
  intros He Hm Ha Hcfg Hin Hrel. apply assemble_ok in Ha as (eps' & cfg0 & cfg' & He' & Hr & Hs & Hcfg' & Hp & Hde & _).
  rewrite He in He'. injection He' as <-. rewrite Hcfg in Hcfg'. injection Hcfg' as <-.
  rewrite bool_decide_false in Hde by done. unfold restore_application_udp_on_relayed_vless in Hs.
  rewrite bool_decide_false in Hs by done. injection Hs as ->. rewrite Hde in *.
  apply render_ok in Hr as (acc & Hl & _ & _ & Hc). rewrite bool_decide_false in Hc by done. subst cfg.
  apply loop_result in Hl as (Hf & _ & _ & Ho & Hrl). rewrite relayed_tags_agree in Hrl by done.
  set (sel := map ep_id (selectable_of paths eps)) in *.
  assert (Hine : In ep eps) by (by eapply In_selectable).
  assert (Hsel : mem (ep_id ep) sel = true) by (apply mem_In; by apply in_map).
  destruct (first_hop_relayed _ _ _ (Hf ep Hine Hsel) Hrel) as (via & Hh).
  destruct (first_hop_spec _ _ _ _ Hh) as (_ & _ & Hv & _ & Hi & _ & Hpath).
  assert (Hob : forall x, In x eps -> In (endpoint_outbound cmode eps sel paths x) (r_outbounds acc)).
  { intros x Hx. rewrite Ho. unfold loop_outbounds, sel. rewrite all_rendered. by apply in_map. }
  destruct (endpoint_outbound_get (V := V) cmode eps sel paths ep) as (Ht & _ & Hd).
  destruct (endpoint_outbound_get (V := V) cmode eps sel paths via) as (Ht' & _ & Hd').
  assert (Hhop : hop eps sel paths ep = Some via) by (unfold hop; by rewrite Hsel, Hh).
  assert (Hhop' : hop eps sel paths via = None).
  { unfold hop, sel. by rewrite selectable_ids, Hi. }
  exists via, (r_outbounds acc ++ tail_outbounds (r_tags acc)
    (match r_relayed acc with [] => r_tags acc | relayed => relayed end) (choose_default profile cmode acc)),
    (endpoint_outbound cmode eps sel paths ep), (endpoint_outbound cmode eps sel paths via).
  rewrite Hd, Hd', Hhop, Hhop'. split; [apply finish_config_get|].
  split; [apply in_app_iff; left; auto|]. do 2 (split; [done|]).
  split; [apply in_app_iff; left; auto|]. do 3 (split; [done|]).
  split; [intros Hx; apply In_filterb in Hx as [_ Hx]; by rewrite Hi in Hx|]. split; [done|].
  apply in_app_iff. right. left. rewrite Hrl. f_equal.
  assert (Hne : In (ep_tag ep) (relayed_tags paths (selectable_of paths eps)))
    by (apply in_map, In_filterb; done).
  by destruct (relayed_tags paths (selectable_of paths eps)).
Qed.

Context (to_string : V -> string).

(** The document and the configuration embedded in it cannot contradict
    each other.  Whatever the user, the listeners, the access paths, the
    profile and the mode, once a document is assembled from endpoints with
    admissible tags, the cross-check of [validate] succeeds and the advertised
    capabilities are exactly the transports of the listed endpoints: serving
    it can only fail on the content of single fields. *)
Theorem document_agrees_with_config user ces mode paths profile cmode doc eps :
  document_endpoints user mode ces = Ok eps -> tags_ok eps ->
  assemble_document (V := V) server_version user ces mode paths profile cmode = Ok doc ->
  cross_validate_embedded_config doc = Ok tt /\
  (forall c, In c (capabilities doc) <-> exists ep, In ep (endpoints doc) /\ ep_capability ep = c) /\
  forall cfg, singbox_config doc = Some cfg ->
    (provisioning_document_with_mode_and_access_paths_and_options to_string server_version
       user ces mode paths profile cmode = Ok doc <->
     catalog_ok doc /\ envelope_clean to_string doc /\ config_clean cfg).
Proof.
  intros He Ht Ha. destruct (assembled_agrees _ _ _ _ _ _ _ _ He Ht Ha) as (cfg & Hcfg & Hag).
  split; [by apply (cross_validate_iff _ _ Hcfg)|]. split.
  { intros c. apply assemble_ok in Ha as (? & ? & ? & _ & _ & _ & _ & _ & _ & ->). apply derive_capabilities_spec. }
  intros cfg0 Hc0. rewrite Hcfg in Hc0. injection Hc0 as <-.
  unfold provisioning_document_with_mode_and_access_paths_and_options. rewrite Ha. simpl. unfold validate.
  rewrite <- validate_catalog_iff, <- audit_serialized_ok, <- (audit_embedded_config_ok _ _ Hcfg).
  rewrite (proj2 (cross_validate_iff _ _ Hcfg) Hag).
  destruct (validate_catalog doc) as [[]|]; simpl; [|split; [discriminate|intros ([=]&_)]].
  destruct (audit_serialized to_string doc) as [[]|]; simpl; [|split; [discriminate|intros (_&[=]&_)]].
  destruct (audit_embedded_config doc) as [[]|]; simpl; [done|split; [discriminate|intros (_&_&[=])]].
Qed.

End Agreement.

(** ** Examples *)

Definition ex_assembled (cmode : CompatibilityMode) : ProvisioningDocument json :=
  match assemble_document (V := json) "1.0.0" ex_user ex_endpoints DiagNone [ex_relay_path] Reliability cmode with
  | Ok doc => doc | Err _ => ex_document end.

Lemma short_not_hidden t : slen t < 9 -> ~ is_hidden t.
Proof.
  intros Hl [p ->]. rewrite slen_app in Hl. pose proof (slen_nonneg p).
  change (slen HIDDIFY_HIDDEN_TAG_SUFFIX) with 9 in Hl. lia.
Qed.

Lemma ex_catalog_tags_ok : tags_ok ex_catalog.
Proof.
  split; [lit_nodup|]. intros ep Hin.
  destruct Hin as [<-|[<-|[]]]; (split; [by vm_compute; intros Hx; decompose [or] Hx|by apply short_not_hidden]).
Qed.

Lemma relayed_exit_dialled_through_hop_witness :
  exists cfg via outbounds ob,
    singbox_config (ex_assembled Normal) = Some cfg /\ get_array cfg "outbounds" = Some outbounds /\
    In ob outbounds /\ tag_of ob = Some "Exit" /\ get_str ob "detour" = Some (ep_tag via) /\
    ~ In via (endpoints (ex_assembled Normal)).
Proof.
  assert (Hcfg : exists cfg, singbox_config (ex_assembled Normal) = Some cfg)
    by (eexists; vm_compute; reflexivity).
  destruct Hcfg as [cfg Hcfg].
  destruct (relayed_exit_dialled_through_hop (V := json) "1.0.0" ex_user ex_endpoints DiagNone [ex_relay_path] Reliability
              Normal (ex_assembled Normal) ex_catalog cfg (ex_built ex_exit_endpoint))
    as (via & outbounds & ob & _ & Ho & Hob & Ht & Hd & _ & _ & _ & _ & Hn & _).
  - vm_compute. reflexivity.
  - discriminate.
  - vm_compute. reflexivity.
  - exact Hcfg.
  - vm_compute. left. reflexivity.
  - vm_compute. reflexivity.
  - exists cfg, via, outbounds, ob. repeat (split; [assumption|]). assumption.
Defined.

Lemma document_agrees_with_config_witness :
  cross_validate_embedded_config (ex_assembled HiddifyPinned) = Ok tt /\ tags_ok ex_catalog.
Proof.
  split; [|exact ex_catalog_tags_ok].
  refine (proj1 (document_agrees_with_config (V := json) "1.0.0" json_print ex_user ex_endpoints DiagNone [ex_relay_path]
    Reliability HiddifyPinned (ex_assembled HiddifyPinned) ex_catalog _ ex_catalog_tags_ok _)); vm_compute; reflexivity.
Defined.
End Provisioning.
