(* ===== verification/Deployment.v ===== *)
(** * crates/compat-config/src/deployment.rs

    The node's configuration [deployment.toml]: its data, its validation, and
    what the other components derive from it: the relay targets, the served
    endpoints and the contract's access paths.  Unknown keys of a table
    ([#[serde(flatten)] extra]) are kept as the sorted list of their names;
    their values are never read.  [b64_decode] is the base64 decoder of the key
    check. *)

From S2P Require Import Prelude Strs Net NetText AddressPolicy Credentials Grants Json Contract Render.
From S2P Require Import Provisioning.
From Stdlib Require Import Ascii.

Module Deployment.
Import Contract Render.

(** ** Constants *)

Definition DEPLOYMENT_SCHEMA_VERSION : Z := 2.
Definition LOCAL_REALITY_ENDPOINT_ID : string := "reality-1".
Definition LOCAL_HYSTERIA2_ENDPOINT_ID : string := "hysteria2-1".
Definition RELAY_ACCESS_PATH_KIND : string := "relay".
Definition NODE_ID_MAX_LEN : Z := 63.
Definition RESERVED_ENDPOINT_TAGS : list string := ["Reality"; "Hysteria2"; "auto"; "select"; "direct"].
Definition LOCAL_ENDPOINT_IDS : list string := ["reality-1"; "hysteria2-1"].

(** ** Data *)

Inductive NodeRole := Exit | Relay.
#[global] Instance NodeRole_eq_dec : EqDecision NodeRole.
Proof. solve_decision. Defined.

Definition NodeRole_as_str (r : NodeRole) : string := match r with Exit => "exit" | Relay => "relay" end.

Record RelayTarget := { rt_host : string; rt_port : Z }.
#[global] Instance RelayTarget_eq_dec : EqDecision RelayTarget.
Proof. solve_decision. Defined.

Inductive Ipv6LiteralPolicy := Allow | RejectGoogle | RejectAll.
#[global] Instance Ipv6LiteralPolicy_eq_dec : EqDecision Ipv6LiteralPolicy.
Proof. solve_decision. Defined.

Definition Ipv6LiteralPolicy_as_str (p : Ipv6LiteralPolicy) : string :=
  match p with Allow => "allow" | RejectGoogle => "reject_google" | RejectAll => "reject_all" end.
Definition Ipv6LiteralPolicy_from_str (s : string) : option Ipv6LiteralPolicy :=
  if String.eqb s "allow" then Some Allow else if String.eqb s "reject_google" then Some RejectGoogle
  else if String.eqb s "reject_all" then Some RejectAll else None.

Inductive TlsSpoofMethod := WrongSequence | WrongChecksum | WrongAck | WrongMd5 | WrongTimestamp.
Definition TlsSpoofMethod_as_str (m : TlsSpoofMethod) : string :=
  match m with
  | WrongSequence => "wrong-sequence" | WrongChecksum => "wrong-checksum" | WrongAck => "wrong-ack"
  | WrongMd5 => "wrong-md5" | WrongTimestamp => "wrong-timestamp"
  end.

Record ExitPrincipalsSection := { xp_enabled : bool }.
Record TlsSpoofSection := { sp_sni : string; sp_method : TlsSpoofMethod }.
Record EgressSection := { eg_ipv6_literal : Ipv6LiteralPolicy }.
Record GoogleEgressHairpinSection := {
  relay_host : string;
  relay_port : Z;
  relay_server_name : string;
  relay_reality_public_key : string;
  relay_reality_short_id : string }.

Record AccessPathSection := {
  as_id : string;
  as_kind : string;
  as_via_endpoint_id : option string;
  as_failure_domain : option string;
  as_region : option string;
  as_provider : option string;
  as_capabilities : list string;
  as_extra : list string }.

Record PeerEndpointSection := {
  pe_id : string;
  pe_tag : string;
  pe_host : string;
  pe_port : Z;
  pe_transport : Grants.CompatTransport;
  pe_server_name : option string;
  pe_reality_public_key : option string;
  pe_reality_short_id : option string;
  pe_reality_fingerprint : string;
  pe_obfs_password : option string;
  pe_failure_domain : string;
  pe_region : option string;
  pe_provider : option string;
  pe_asn : option string;
  pe_path : string;
  pe_credential_ref : option string;
  pe_vless_flow : EndpointVlessFlow;
  pe_extra : list string }.

Record UdpProbeSection := {
  ipv4_resolvers : list string;
  ipv6_resolvers : list string;
  retries : Z;
  timeout_ms : Z;
  delay_ms : Z }.

Record RealitySection := { re_listen_port : Z; re_handshake_server : string; re_handshake_port : Z }.
Record Hysteria2Section := { hy_listen_port : Z; up_mbps : option Z; down_mbps : option Z }.
Record SubscriptionSection := { su_listen_port : Z; su_public_port : Z; su_profile_title : string }.

Record DeploymentConfig := {
  schema_version : Z;
  node_id : string;
  role : NodeRole;
  public_host : string;
  subscription_host : string;
  reality : RealitySection;
  hysteria2 : Hysteria2Section;
  subscription : SubscriptionSection;
  udp_probe : option UdpProbeSection;
  state_dir : string;
  singbox_binary : string;
  access_paths : list AccessPathSection;
  peer_endpoints : list PeerEndpointSection;
  google_egress_hairpin : option GoogleEgressHairpinSection;
  egress : option EgressSection;
  google_egress_tls_spoof : option TlsSpoofSection;
  exit_principals : option ExitPrincipalsSection;
  public_ipv4 : option string;
  public_ipv6 : option string }.

(** ** Refusals *)

Inductive deploy_error :=
| UnsupportedSchema (found max_supported : Z)
| NodeIdMissing
| NodeIdEmpty
| NodeIdTooLong
| NodeIdBadStart
| NodeIdBadChars
| BadTitle (e : CompatError)
| PathCredentialKey (id key : string)
| PathUnknownKey (id key : string)
| PathEmpty (id what : string)
| PathDuplicateCapability (id capability : string)
| DuplicatePathId (id : string)
| PeerPrivateKey (id key : string)
| PeerUnknownKey (id key : string)
| PeerEmpty (id what : string)
| PeerHostNotDialable (id host : string)
| PeerPortZero (id : string)
| PeerFlowNotVless (id : string)
| PeerFlowNoneDirect (id : string)
| PeerBadPublicKey (id : string) (e : Creds.cred_error)
| PeerBadShortId (id : string)
| PeerRealityOnHysteria2 (id : string)
| PeerIdCollides (id : string)
| DuplicatePeerId (id : string)
| TagReservedOrUsed (id tag : string)
| PeerPathUndeclared (id path : string)
| ViaOnNonRelay (id : string)
| ViaHysteria2 (id : string)
| ViaLocalOnExit (id : string)
| ViaUnknown (id via : string)
| ViaNotVless (id via : string)
| ViaNotDirect (id via : string)
| RelayCapability (id capability : string)
| CredentialRefSelf (id : string)
| CredentialRefUnknown (id ref : string)
| CredentialRefTransport (id ref : string)
| CredentialRefAlias (id ref : string)
| CredentialRefFlow (id ref : string)
| CredentialRefOtherServer (id ref : string)
| RelayRouteNotVless (id : string)
| RelayRouteNoVia (id : string)
| RelayRouteSelf (id : string)
| RelayRouteBadHost (id host : string)
| EgressOnRelay
| EgressDisablesHairpin
| RelayWithoutFirstHop
| ExitPrincipalsOnExit
| SpoofWithHairpin
| SpoofBadSni
| SpoofGoogleSni
| HairpinEmpty (what : string)
| HairpinPortZero
| BandwidthHalfSet
| BadPublicIpv4
| BadPublicIpv6
| InvalidPeerEntry (id : string) (e : deploy_error).

(** ** Names *)

Definition node_id_char (c : ascii) : bool :=
  is_ascii_alphanumeric c || is_char "-" c || is_char "_" c || is_char "." c.

Definition validate_node_id (node_id : string) : result unit deploy_error :=
  if str_is_empty node_id then Err NodeIdEmpty else
  if NODE_ID_MAX_LEN <? slen node_id then Err NodeIdTooLong else
  if negb (match node_id with String c _ => is_ascii_alphanumeric c | EmptyString => false end)
  then Err NodeIdBadStart else
  if negb (str_all node_id_char node_id) then Err NodeIdBadChars else Ok tt.

(** [trim_matches(|c| !c.is_ascii_alphanumeric())] and the trailing-separator
    loop, on the mapped label, which is ASCII. *)
Fixpoint drop_while (f : ascii -> bool) (l : list ascii) : list ascii :=
  match l with c :: l' => if f c then drop_while f l' else l | [] => [] end.
Definition trim_matches (f : ascii -> bool) (l : list ascii) : list ascii :=
  rev (drop_while f (rev (drop_while f l))).

(** One character per character: a multi-byte one becomes a single '-'. *)
Definition map_label (s : string) : list ascii :=
  omap (fun c => if in_range 128 191 c then None
                 else Some (if is_ascii_alphanumeric c || is_char "-" c || is_char "_" c then c else "-"%char))
    (bytes_of s).

Definition default_node_id_for_host (public_host : string) : string :=
  let first := hd public_host (split_on "." public_host) in
  let mapped := map_label first in
  let id := firstn (Z.to_nat NODE_ID_MAX_LEN) (trim_matches (fun c => negb (is_ascii_alphanumeric c)) mapped) in
  let id := rev (drop_while (fun c => is_char "-" c || is_char "_" c) (rev id)) in
  if bool_decide (id = []) then "legacy-node" else String.string_of_list_ascii id.

Definition dns_label (l : string) : bool :=
  negb (str_is_empty l) && (slen l <=? 63) && negb (starts_with "-" l)
  && negb (match rev (bytes_of l) with c :: _ => is_char "-" c | [] => false end)
  && str_all (fun c => is_ascii_lowercase c || is_ascii_digit c || is_char "-" c) l.

Definition ends_with_char (d : ascii) (s : string) : bool :=
  match rev (bytes_of s) with c :: _ => is_char d c | [] => false end.

Definition validate_relay_target_host (host : string) : bool :=
  match parse_ip host with
  | Some ip => match RelayTarget.classify_relay_target_denied ip with Some _ => false | None => true end
  | None =>
      if (253 <? slen host) || ends_with_char "." host then false
      else forallb dns_label (split_on "." host)
  end.

(** ** Sections *)

(** The suffix test [lower == d || lower.ends_with(".d")]. *)
Definition ends_with (suffix s : string) : bool :=
  let n := String.length s in let m := String.length suffix in
  if (n <? m)%nat then false else String.eqb (String.substring (n - m) m s) suffix.

Definition sni_label (l : string) : bool :=
  negb (str_is_empty l) && (slen l <=? 63) && negb (starts_with "-" l) && negb (ends_with_char "-" l)
  && str_all (fun c => is_ascii_alphanumeric c || is_char "-" c) l.

Definition TlsSpoofSection_validate (self : TlsSpoofSection) : result unit deploy_error :=
  let s := sp_sni self in
  if (253 <? slen s) || negb (str_any (is_char ".") s) || negb (forallb sni_label (split_on "." s))
  then Err SpoofBadSni else
  let lower := to_ascii_lowercase s in
  if existsb (fun d => String.eqb lower d || ends_with ("." +:+ d) lower) GOOGLE_EGRESS_DOMAINS
  then Err SpoofGoogleSni else Ok tt.

Definition Hairpin_validate (self : GoogleEgressHairpinSection) : result unit deploy_error :=
  let? _ := for_each (fun '(name, value) => if is_blank value then Err (HairpinEmpty name) else Ok tt)
    [("relay_host", relay_host self); ("relay_server_name", relay_server_name self);
     ("relay_reality_public_key", relay_reality_public_key self);
     ("relay_reality_short_id", relay_reality_short_id self)] in
  if relay_port self =? 0 then Err HairpinPortZero else Ok tt.

Definition credential_key (key : string) : bool :=
  existsb (fun needle => str_contains needle (to_ascii_lowercase key))
    ["private"; "secret"; "password"; "token"; "credential"; "key"].

Definition blank_opt (o : option string) : bool := match o with Some v => is_blank v | None => false end.

Fixpoint check_capabilities (id : string) (seen l : list string) : result unit deploy_error :=
  match l with
  | [] => Ok tt
  | capability :: l' =>
      if is_blank capability then Err (PathEmpty id "capability") else
      if mem capability seen then Err (PathDuplicateCapability id capability) else
      check_capabilities id (capability :: seen) l'
  end.

Definition AccessPathSection_validate (self : AccessPathSection) : result unit deploy_error :=
  match List.find credential_key (as_extra self) with
  | Some key => Err (PathCredentialKey (as_id self) key)
  | None =>
  match as_extra self with
  | key :: _ => Err (PathUnknownKey (as_id self) key)
  | [] =>
  if is_blank (as_id self) then Err (PathEmpty (as_id self) "id") else
  if is_blank (as_kind self) then Err (PathEmpty (as_id self) "kind") else
  if blank_opt (as_via_endpoint_id self) then Err (PathEmpty (as_id self) "via_endpoint_id") else
  let? _ := for_each (fun '(name, value) => if blank_opt value then Err (PathEmpty (as_id self) name) else Ok tt)
    [("failure_domain", as_failure_domain self); ("region", as_region self); ("provider", as_provider self)] in
  match as_capabilities self with
  | [] => Err (PathEmpty (as_id self) "capabilities")
  | _ => check_capabilities (as_id self) [] (as_capabilities self)
  end
  end
  end.

Definition to_contract_access_path (self : AccessPathSection) : result AccessPath deploy_error :=
  let? _ := AccessPathSection_validate self in
  Ok {| ap_id := as_id self; ap_kind := AccessPathKind_from_wire (as_kind self);
        ap_via_endpoint_id := as_via_endpoint_id self; ap_failure_domain := as_failure_domain self;
        ap_region := as_region self; ap_provider := as_provider self;
        ap_capabilities := as_capabilities self |}.

Definition default_peer_fingerprint : string := "chrome".
Definition default_peer_path : string := "direct".

Section Keys.
(** The base64 decoder of [validate_reality_public_key_shape]. *)
Context (b64_decode : string -> option (list Z)).

Definition private_key_name (k : string) : bool :=
  let l := to_ascii_lowercase k in str_contains "private" l || str_contains "secret" l.

(** The transport-specific half of [PeerEndpointSection::validate]. *)
Definition validate_transport (self : PeerEndpointSection) : result unit deploy_error :=
  match pe_transport self with
  | Grants.VlessReality =>
      let? _ := map_err (PeerBadPublicKey (pe_id self))
                  (Creds.validate_reality_public_key_shape b64_decode (unwrap_or (pe_reality_public_key self) EmptyString)) in
      let sid := unwrap_or (pe_reality_short_id self) EmptyString in
      if str_is_empty sid || negb (slen sid mod 2 =? 0) || (16 <? slen sid) || negb (str_all is_ascii_hexdigit sid)
      then Err (PeerBadShortId (pe_id self)) else Ok tt
  | Grants.Hysteria2 =>
      match pe_reality_public_key self, pe_reality_short_id self with
      | None, None => Ok tt
      | _, _ => Err (PeerRealityOnHysteria2 (pe_id self))
      end
  end.

Definition PeerEndpointSection_validate (self : PeerEndpointSection) : result unit deploy_error :=
  match List.find private_key_name (pe_extra self) with
  | Some key => Err (PeerPrivateKey (pe_id self) key)
  | None =>
  match pe_extra self with
  | key :: _ => Err (PeerUnknownKey (pe_id self) key)
  | [] =>
  if is_blank (pe_id self) then Err (PeerEmpty (pe_id self) "id") else
  if is_blank (pe_tag self) then Err (PeerEmpty (pe_id self) "tag") else
  if is_blank (pe_failure_domain self) then Err (PeerEmpty (pe_id self) "failure_domain") else
  if is_blank (pe_path self) then Err (PeerEmpty (pe_id self) "path") else
  if blank_opt (pe_credential_ref self) then Err (PeerEmpty (pe_id self) "credential_ref") else
  if is_blank (pe_host self) || has_whitespace (pe_host self) || str_any (is_char "/") (pe_host self)
  then Err (PeerHostNotDialable (pe_id self) (pe_host self)) else
  if pe_port self =? 0 then Err (PeerPortZero (pe_id self)) else
  let? _ := if bool_decide (pe_vless_flow self = FlowNone) then
              if negb (bool_decide (pe_transport self = Grants.VlessReality)) then Err (PeerFlowNotVless (pe_id self)) else
              if String.eqb (pe_path self) "direct" then Err (PeerFlowNoneDirect (pe_id self)) else Ok tt
            else Ok tt in
  validate_transport self
  end
  end.

Definition to_compat_endpoint (self : PeerEndpointSection) : result CompatEndpoint deploy_error :=
  let? _ := PeerEndpointSection_validate self in
  Ok {| ce_id := pe_id self; ce_transport := pe_transport self; ce_host := pe_host self;
        ce_port := pe_port self; ce_server_name := Some (unwrap_or (pe_server_name self) (pe_host self));
        ce_label := pe_tag self;
        ce_public_parameters := match pe_transport self with
          | Grants.VlessReality => Reality (unwrap_or (pe_reality_public_key self) EmptyString)
              (unwrap_or (pe_reality_short_id self) EmptyString) (pe_reality_fingerprint self)
          | Grants.Hysteria2 => PubHysteria2 (pe_obfs_password self)
          end;
        ce_origin := Peer; ce_failure_domain := Some (pe_failure_domain self); ce_region := pe_region self;
        ce_provider := pe_provider self; ce_asn := pe_asn self; ce_path := Some (pe_path self);
        ce_credential_ref := pe_credential_ref self; ce_vless_flow := pe_vless_flow self |}.

(** ** The whole file *)

Definition exit_principals_enabled (self : DeploymentConfig) : bool :=
  bool_decide (role self = Relay) && match exit_principals self with Some s => xp_enabled s | None => false end.

Fixpoint check_paths (seen : list string) (l : list AccessPathSection) : result unit deploy_error :=
  match l with
  | [] => Ok tt
  | path :: l' =>
      let? _ := AccessPathSection_validate path in
      if mem (as_id path) seen then Err (DuplicatePathId (as_id path)) else
      check_paths (seen ++ [as_id path]) l'
  end.

Fixpoint check_peers (paths : list AccessPathSection) (seen_ids seen_tags : list string)
  (l : list PeerEndpointSection) : result unit deploy_error :=
  match l with
  | [] => Ok tt
  | peer :: l' =>
      let? _ := PeerEndpointSection_validate peer in
      if mem (pe_id peer) LOCAL_ENDPOINT_IDS then Err (PeerIdCollides (pe_id peer)) else
      if mem (pe_id peer) seen_ids then Err (DuplicatePeerId (pe_id peer)) else
      if mem (pe_tag peer) RESERVED_ENDPOINT_TAGS || mem (pe_tag peer) seen_tags
      then Err (TagReservedOrUsed (pe_id peer) (pe_tag peer)) else
      if negb (bool_decide (paths = [])) && negb (String.eqb (pe_path peer) "direct")
         && negb (existsb (fun path => String.eqb (as_id path) (pe_path peer)) paths)
      then Err (PeerPathUndeclared (pe_id peer) (pe_path peer)) else
      check_peers paths (seen_ids ++ [pe_id peer]) (seen_tags ++ [pe_tag peer]) l'
  end.

Definition relay_path (self : DeploymentConfig) (id : string) : option AccessPathSection :=
  List.find (fun path => String.eqb (as_id path) id && String.eqb (as_kind path) RELAY_ACCESS_PATH_KIND)
    (access_paths self).

Definition peer_by_id (self : DeploymentConfig) (id : string) : option PeerEndpointSection :=
  List.find (fun candidate => String.eqb (pe_id candidate) id) (peer_endpoints self).

Definition check_first_hop (self : DeploymentConfig) (path : AccessPathSection) : result unit deploy_error :=
  match as_via_endpoint_id path with
  | None => Ok tt
  | Some via =>
      if negb (String.eqb (as_kind path) RELAY_ACCESS_PATH_KIND) then Err (ViaOnNonRelay (as_id path)) else
      if String.eqb via LOCAL_HYSTERIA2_ENDPOINT_ID then Err (ViaHysteria2 (as_id path)) else
      let? _ :=
        if String.eqb via LOCAL_REALITY_ENDPOINT_ID then
          if negb (bool_decide (role self = Relay)) then Err (ViaLocalOnExit (as_id path)) else Ok tt
        else
          let? first_hop := ok_or (peer_by_id self via) (ViaUnknown (as_id path) via) in
          if negb (bool_decide (pe_transport first_hop = Grants.VlessReality)) then Err (ViaNotVless (as_id path) via) else
          if negb (String.eqb (pe_path first_hop) "direct") || negb (bool_decide (pe_credential_ref first_hop = None))
          then Err (ViaNotDirect (as_id path) via) else Ok tt in
      match List.find (fun capability => negb (String.eqb capability "tcp")) (as_capabilities path) with
      | Some capability => Err (RelayCapability (as_id path) capability)
      | None => Ok tt
      end
  end.

Definition validate_access_path_first_hops (self : DeploymentConfig) : result unit deploy_error :=
  for_each (check_first_hop self) (access_paths self).

Definition check_credential_ref (self : DeploymentConfig) (peer : PeerEndpointSection) : result unit deploy_error :=
  match pe_credential_ref peer with
  | None => Ok tt
  | Some cref =>
      if String.eqb cref (pe_id peer) then Err (CredentialRefSelf (pe_id peer)) else
      let? target := ok_or (peer_by_id self cref) (CredentialRefUnknown (pe_id peer) cref) in
      if negb (bool_decide (pe_transport target = pe_transport peer)) then Err (CredentialRefTransport (pe_id peer) cref) else
      if negb (bool_decide (pe_credential_ref target = None)) || negb (String.eqb (pe_path target) "direct")
      then Err (CredentialRefAlias (pe_id peer) cref) else
      if negb (bool_decide (pe_vless_flow target = pe_vless_flow peer)) then Err (CredentialRefFlow (pe_id peer) cref) else
      if negb (String.eqb (pe_host target) (pe_host peer)) || negb (pe_port target =? pe_port peer)
         || negb (bool_decide (pe_reality_public_key target = pe_reality_public_key peer))
      then Err (CredentialRefOtherServer (pe_id peer) cref) else Ok tt
  end.

Definition validate_credential_refs (self : DeploymentConfig) : result unit deploy_error :=
  for_each (check_credential_ref self) (peer_endpoints self).

Definition check_relay_route (self : DeploymentConfig) (peer : PeerEndpointSection) : result unit deploy_error :=
  if String.eqb (pe_path peer) "direct" then Ok tt else
  match relay_path self (pe_path peer) with
  | None => Ok tt
  | Some path =>
      if negb (bool_decide (pe_transport peer = Grants.VlessReality)) then Err (RelayRouteNotVless (pe_id peer)) else
      let? via := ok_or (as_via_endpoint_id path) (RelayRouteNoVia (pe_id peer)) in
      if String.eqb via (pe_id peer) then Err (RelayRouteSelf (pe_id peer)) else
      if String.eqb via LOCAL_REALITY_ENDPOINT_ID && negb (validate_relay_target_host (pe_host peer))
      then Err (RelayRouteBadHost (pe_id peer) (pe_host peer)) else Ok tt
  end.

Definition validate_relay_routes (self : DeploymentConfig) : result unit deploy_error :=
  for_each (check_relay_route self) (peer_endpoints self).

Definition local_first_hop (path : AccessPathSection) : bool :=
  String.eqb (as_kind path) RELAY_ACCESS_PATH_KIND
  && bool_decide (as_via_endpoint_id path = Some LOCAL_REALITY_ENDPOINT_ID).

Definition validate_role (self : DeploymentConfig) : result unit deploy_error :=
  if bool_decide (role self = Relay) && negb (existsb local_first_hop (access_paths self))
  then Err RelayWithoutFirstHop else Ok tt.

(** A non-empty address literal of the right family. *)
Definition check_own_ip (ip : option string) (v4 : bool) (e : deploy_error) : result unit deploy_error :=
  match ip with
  | None | Some EmptyString => Ok tt
  | Some s => match parse_ip s with
              | Some (V4 _) => if v4 then Ok tt else Err e
              | Some (V6 _) => if v4 then Err e else Ok tt
              | None => Err e
              end
  end.

Definition is_some {A} (o : option A) : bool := match o with Some _ => true | None => false end.

Definition validate (self : DeploymentConfig) : result unit deploy_error :=
  if DEPLOYMENT_SCHEMA_VERSION <? schema_version self
  then Err (UnsupportedSchema (schema_version self) DEPLOYMENT_SCHEMA_VERSION) else
  if (2 <=? schema_version self) && is_blank (node_id self) then Err NodeIdMissing else
  let? _ := if str_is_empty (node_id self) then Ok tt else validate_node_id (node_id self) in
  let? _ := map_err BadTitle (validate_profile_title (su_profile_title (subscription self))) in
  let? _ := check_paths [] (access_paths self) in
  let? _ := check_peers (access_paths self) [] [] (peer_endpoints self) in
  let? _ := validate_access_path_first_hops self in
  let? _ := validate_credential_refs self in
  let? _ := validate_relay_routes self in
  let? _ := match egress self with
            | Some egress =>
                if negb (bool_decide (role self = Exit)) then Err EgressOnRelay else
                if is_some (google_egress_hairpin self) && bool_decide (eg_ipv6_literal egress = Allow)
                then Err EgressDisablesHairpin else Ok tt
            | None => Ok tt
            end in
  let? _ := validate_role self in
  if is_some (exit_principals self) && negb (bool_decide (role self = Relay)) then Err ExitPrincipalsOnExit else
  let? _ := match google_egress_tls_spoof self with
            | Some spoof =>
                if is_some (google_egress_hairpin self) then Err SpoofWithHairpin
                else TlsSpoofSection_validate spoof
            | None => Ok tt
            end in
  let? _ := match google_egress_hairpin self with Some h => Hairpin_validate h | None => Ok tt end in
  if xorb (is_some (up_mbps (hysteria2 self))) (is_some (down_mbps (hysteria2 self))) then Err BandwidthHalfSet else
  let? _ := check_own_ip (public_ipv4 self) true BadPublicIpv4 in
  check_own_ip (public_ipv6 self) false BadPublicIpv6.

(** ** What the node derives from it *)

(** [Ord] of [RelayTarget]: host, then port. *)
Definition target_leb (a b : RelayTarget) : bool :=
  if String.eqb (rt_host a) (rt_host b) then rt_port a <=? rt_port b else str_leb (rt_host a) (rt_host b).
(** [Vec::dedup]: consecutive duplicates. *)
Fixpoint dedup_consecutive (l : list RelayTarget) : list RelayTarget :=
  match l with
  | x :: ((y :: _) as l') => if bool_decide (x = y) then dedup_consecutive l' else x :: dedup_consecutive l'
  | _ => l
  end.

Definition relayed_here (self : DeploymentConfig) (peer : PeerEndpointSection) : bool :=
  match relay_path self (pe_path peer) with
  | Some path => bool_decide (as_via_endpoint_id path = Some LOCAL_REALITY_ENDPOINT_ID)
  | None => false
  end.

Definition relay_targets (self : DeploymentConfig) : list RelayTarget :=
  if negb (bool_decide (role self = Relay)) then [] else
  dedup_consecutive (sort_stable target_leb
    (map (fun peer => {| rt_host := pe_host peer; rt_port := pe_port peer |})
       (List.filter (relayed_here self) (peer_endpoints self)))).

Definition served_endpoints (self : DeploymentConfig) (reality_public_key_hex reality_short_id : string)
  (hysteria_obfs_password : option string) : result (list CompatEndpoint) deploy_error :=
  let endpoints := standard_endpoints (public_host self) (re_listen_port (reality self))
    (hy_listen_port (hysteria2 self)) reality_public_key_hex reality_short_id
    (re_handshake_server (reality self)) hysteria_obfs_password in
  let endpoints := if bool_decide (role self = Relay)
                   then List.filter (fun e => String.eqb (ce_id e) LOCAL_REALITY_ENDPOINT_ID) endpoints
                   else endpoints in
  let? peers := collect (fun peer => map_err (InvalidPeerEntry (pe_id peer)) (to_compat_endpoint peer))
                  (peer_endpoints self) in
  Ok (endpoints ++ peers).

Definition contract_access_paths (self : DeploymentConfig) : result (list AccessPath) deploy_error :=
  collect to_contract_access_path (access_paths self).

(** ** Lemmas: the checks *)

Lemma check_capabilities_ok id seen l :
  check_capabilities id seen l = Ok tt -> forall c, In c l -> is_blank c = false.
Proof.
  revert seen; induction l as [|c l IH]; simpl; intros seen Hok x; [done|].
  destruct (is_blank c) eqn:Eb; [done|]. destruct (mem c seen); [done|]. intros [<-|Hx]; eauto.
Qed.

Lemma check_paths_ok seen l :
  check_paths seen l = Ok tt ->
  (forall p, In p l -> AccessPathSection_validate p = Ok tt) /\ List.NoDup (map as_id l) /\
  forall p, In p l -> ~ In (as_id p) seen.
Proof.
  revert seen; induction l as [|c l IH]; simpl; intros seen Hok; [by repeat constructor|].
  apply bind_unit_ok in Hok as [Hc Hok]. apply if_err_ok in Hok as [Hm Hok]. apply mem_false in Hm.
  apply IH in Hok as (Hv & Hnd & Hs). split; [intros p [<-|Hp]; auto|]. split.
  - constructor; [|done]. intros Hin. apply in_map_iff in Hin as (x & Ex & Hx). apply (Hs x Hx), in_app_iff. right. left. done.
  - intros p [<-|Hp] Hin; [done|]. apply (Hs p Hp), in_app_iff. by left.
Qed.

Lemma check_peers_ok paths ids tags l :
  check_peers paths ids tags l = Ok tt ->
  (forall p, In p l -> PeerEndpointSection_validate p = Ok tt /\ ~ In (pe_id p) LOCAL_ENDPOINT_IDS /\
     ~ In (pe_id p) ids /\ ~ In (pe_tag p) RESERVED_ENDPOINT_TAGS /\ ~ In (pe_tag p) tags /\
     (paths <> [] -> pe_path p <> "direct" -> exists a, In a paths /\ as_id a = pe_path p)) /\
  List.NoDup (map pe_id l) /\ List.NoDup (map pe_tag l).
Proof.
  revert ids tags; induction l as [|c l IH]; cbn [check_peers map]; intros ids tags Hok; [by repeat constructor|].
  apply bind_unit_ok in Hok as [Hc Hok]. apply if_err_ok in Hok as [Hl Hok]. apply if_err_ok in Hok as [Hi Hok].
  apply if_err_ok in Hok as [Ht Hok]. apply orb_false_iff in Ht as [Htr Htt]. apply if_err_ok in Hok as [Hp Hok].
  rewrite mem_false in Hl, Hi, Htr, Htt. apply IH in Hok as (Hv & Hni & Hnt). split; [|split].
  - intros p [<-|Hin].
    + repeat (split; [done|]). intros Hne Hd. rewrite bool_decide_false in Hp by done.
      apply String.eqb_neq in Hd. rewrite Hd in Hp. cbn [negb andb] in Hp. apply negb_false_iff, existsb_exists in Hp as (a & Ha & Ea).
      exists a. split; [done|]. by apply String.eqb_eq.
    + destruct (Hv p Hin) as (? & ? & Hx & ? & Hy & ?). repeat (split; [done|]). split; [|split; [done|]].
      * intros Hz. apply Hx, in_app_iff. by left.
      * split; [|done]. intros Hz. apply Hy, in_app_iff. by left.
  - constructor; [|done]. intros Hin. apply in_map_iff in Hin as (x & Ex & Hx).
    destruct (Hv x Hx) as (_ & _ & Hn & _). apply Hn, in_app_iff. right. by left.
  - constructor; [|done]. intros Hin. apply in_map_iff in Hin as (x & Ex & Hx).
    destruct (Hv x Hx) as (_ & _ & _ & _ & Hn & _). apply Hn, in_app_iff. right. by left.
Qed.

(** What the other components rely on. *)
Record deployment_ok (d : DeploymentConfig) : Prop := {
  dk_paths : forall p, In p (access_paths d) -> AccessPathSection_validate p = Ok tt;
  dk_path_ids : List.NoDup (map as_id (access_paths d));
  dk_peers : forall p, In p (peer_endpoints d) ->
    PeerEndpointSection_validate p = Ok tt /\ ~ In (pe_id p) LOCAL_ENDPOINT_IDS /\
    ~ In (pe_tag p) RESERVED_ENDPOINT_TAGS /\
    (access_paths d <> [] -> pe_path p <> "direct" -> exists a, In a (access_paths d) /\ as_id a = pe_path p);
  dk_peer_ids : List.NoDup (map pe_id (peer_endpoints d));
  dk_peer_tags : List.NoDup (map pe_tag (peer_endpoints d));
  dk_hops : forall p, In p (access_paths d) -> check_first_hop d p = Ok tt;
  dk_refs : forall p, In p (peer_endpoints d) -> check_credential_ref d p = Ok tt;
  dk_routes : forall p, In p (peer_endpoints d) -> check_relay_route d p = Ok tt;
  dk_role : role d = Relay -> exists p, In p (access_paths d) /\ local_first_hop p = true }.

Lemma validate_ok d : validate d = Ok tt -> deployment_ok d.
Proof.
  unfold validate. intros H. apply if_err_ok in H as [_ H]. apply if_err_ok in H as [_ H].
  apply bind_unit_ok in H as [_ H]. apply bind_unit_ok in H as [_ H].
  apply bind_unit_ok in H as [Hp H]. apply check_paths_ok in Hp as (Hp & Hpi & _).
  apply bind_unit_ok in H as [Hq H]. apply check_peers_ok in Hq as (Hq & Hqi & Hqt).
  apply bind_unit_ok in H as [Hh H]. apply bind_unit_ok in H as [Hr H]. apply bind_unit_ok in H as [Hx H].
  apply bind_unit_ok in H as [_ H]. apply bind_unit_ok in H as [Hrole H].
  split; try done.
  - intros p Hin. destruct (Hq p Hin) as (? & ? & _ & ? & _ & ?). done.
  - by apply for_each_ok.
  - by apply for_each_ok.
  - by apply for_each_ok.
  - intros Er. unfold validate_role in Hrole. rewrite bool_decide_true in Hrole by done. simpl in Hrole.
    destruct (existsb local_first_hop (access_paths d)) eqn:E; [|done]. by apply existsb_exists in E.
Qed.

(** *** One more peer *)

Definition with_peer (d : DeploymentConfig) (w : PeerEndpointSection) : DeploymentConfig :=
  {| schema_version := schema_version d; node_id := node_id d; role := role d; public_host := public_host d;
     subscription_host := subscription_host d; reality := reality d; hysteria2 := hysteria2 d; subscription := subscription d;
     udp_probe := udp_probe d; state_dir := state_dir d; singbox_binary := singbox_binary d; access_paths := access_paths d;
     peer_endpoints := peer_endpoints d ++ [w]; google_egress_hairpin := google_egress_hairpin d; egress := egress d;
     google_egress_tls_spoof := google_egress_tls_spoof d; exit_principals := exit_principals d;
     public_ipv4 := public_ipv4 d; public_ipv6 := public_ipv6 d |}.

Lemma check_peers_app paths w : forall l ids tags,
  check_peers paths ids tags (l ++ [w]) = Ok tt <->
  check_peers paths ids tags l = Ok tt /\ check_peers paths (ids ++ map pe_id l) (tags ++ map pe_tag l) [w] = Ok tt.
Proof.
  induction l as [|c l IH]; intros ids tags; cbn [app check_peers map]; [rewrite !app_nil_r; split; [by split|by intros [_ ?]]|].
  rewrite !bind_unit_ok, !if_err_ok, IH, <- !app_assoc. cbn [app check_peers].
  rewrite !bind_unit_ok, !if_err_ok. tauto.
Qed.

Lemma peer_by_id_app d w i q : peer_by_id d i = Some q -> peer_by_id (with_peer d w) i = Some q.
Proof.
  unfold peer_by_id. cbn [peer_endpoints with_peer]. induction (peer_endpoints d) as [|c l IH]; [done|]. simpl. by destruct (String.eqb _ _).
Qed.
Lemma first_hop_app d w p : check_first_hop d p = Ok tt -> check_first_hop (with_peer d w) p = Ok tt.
Proof.
  unfold check_first_hop. destruct (as_via_endpoint_id p) as [v|]; [|done]. rewrite !if_err_ok, !bind_unit_ok. cbn [role with_peer].
  intros (H1 & H2 & H3 & H4). do 2 (split; [done|]). split; [|done]. destruct (String.eqb v LOCAL_REALITY_ENDPOINT_ID); [done|].
  apply bind_ok in H3 as (q & Hq & H3). apply bind_ok. exists q. split; [|done].
  destruct (peer_by_id d v) as [q'|] eqn:Ev; [|discriminate]. by rewrite (peer_by_id_app _ w _ _ Ev).
Qed.
Lemma credential_ref_app d w p : check_credential_ref d p = Ok tt -> check_credential_ref (with_peer d w) p = Ok tt.
Proof.
  unfold check_credential_ref. destruct (pe_credential_ref p) as [c|]; [|done]. rewrite !if_err_ok. intros [H1 H2]. split; [done|].
  apply bind_ok in H2 as (q & Hq & H2). apply bind_ok. exists q. split; [|done].
  destruct (peer_by_id d c) as [q'|] eqn:Ev; [|discriminate]. by rewrite (peer_by_id_app _ w _ _ Ev).
Qed.

(** A section passes its own checks and fits into a valid deployment. *)
Lemma with_peer_valid d w :
  validate d = Ok tt -> PeerEndpointSection_validate w = Ok tt ->
  ~ In (pe_id w) (LOCAL_ENDPOINT_IDS ++ map pe_id (peer_endpoints d)) ->
  ~ In (pe_tag w) (RESERVED_ENDPOINT_TAGS ++ map pe_tag (peer_endpoints d)) ->
  (exists a, In a (access_paths d) /\ as_id a = pe_path w) -> pe_credential_ref w = None -> check_relay_route d w = Ok tt ->
  validate (with_peer d w) = Ok tt.
Proof.
  unfold validate. rewrite !if_err_ok, !bind_unit_ok, !if_err_ok, !bind_unit_ok, !if_err_ok, !bind_unit_ok.
  intros (H1 & H2 & H3 & H4 & H5 & H6 & H7 & H8 & H9 & H10) Hw Hi Ht (a & Ha & Ep) Hc Hr.
  split; [exact H1|]. split; [exact H2|]. split; [exact H3|]. split; [exact H4|]. split; [exact H5|].
  split; [|split; [|split; [|split; [|exact H10]]]].
  - cbn [peer_endpoints access_paths with_peer]. apply check_peers_app. split; [exact H6|].
    cbn [check_peers app]. rewrite in_app_iff in Hi, Ht. rewrite Hw. cbn [result_bind].
    rewrite !(proj2 (mem_false _ _)) by (intros ?; auto). cbn [orb].
    rewrite (proj2 (existsb_exists _ _)) by (exists a; split; [done|]; by apply String.eqb_eq).
    by rewrite andb_false_r.
  - unfold validate_access_path_first_hops in *. rewrite for_each_ok in *. intros q Hq. by apply first_hop_app, H7.
  - unfold validate_credential_refs in *. rewrite for_each_ok in *. intros q Hq. cbn [peer_endpoints with_peer] in Hq.
    apply in_app_iff in Hq as [Hq|[<-|[]]]; [by apply credential_ref_app, H8|]. unfold check_credential_ref. by rewrite Hc.
  - unfold validate_relay_routes in *. rewrite for_each_ok in *. intros q Hq. cbn [peer_endpoints with_peer] in Hq.
    apply in_app_iff in Hq as [Hq|[<-|[]]]; [by apply H9|done].
Qed.

(** *** Derived lists *)

Lemma to_compat_endpoint_ok p : PeerEndpointSection_validate p = Ok tt -> exists e, to_compat_endpoint p = Ok e.
Proof. intros H. unfold to_compat_endpoint. rewrite H. simpl. eauto. Qed.

Lemma collect_total {A B E} (f : A -> result B E) l :
  (forall x, In x l -> exists y, f x = Ok y) -> exists ys, collect f l = Ok ys.
Proof.
  induction l as [|x l IH]; simpl; intros H; [by eexists|].
  destruct (H x) as [y ->]; [by left|]. simpl. destruct IH as [ys ->]; [by auto|]. simpl. eauto.
Qed.

(** This node's own listeners, as clients see them. *)
Definition own_endpoints (d : DeploymentConfig) (pk sid : string) (obfs : option string) : list CompatEndpoint :=
  let l := standard_endpoints (public_host d) (re_listen_port (reality d)) (hy_listen_port (hysteria2 d))
             pk sid (re_handshake_server (reality d)) obfs in
  if bool_decide (role d = Relay) then List.filter (fun e => String.eqb (ce_id e) LOCAL_REALITY_ENDPOINT_ID) l else l.

Lemma served_endpoints_ok d pk sid obfs ces :
  served_endpoints d pk sid obfs = Ok ces ->
  exists peers, ces = own_endpoints d pk sid obfs ++ peers /\
    Forall2 (fun p e => to_compat_endpoint p = Ok e) (peer_endpoints d) peers.
Proof.
  unfold served_endpoints. intros H. apply bind_ok in H as (peers & Hc & H). injection H as <-.
  exists peers. split; [done|]. apply collect_ok in Hc. eapply List.Forall2_impl; [|exact Hc]. simpl.
  intros p e He. destruct (to_compat_endpoint p) as [e'|]; [|done]. by injection He as <-.
Qed.

Lemma to_compat_endpoint_fields p e :
  to_compat_endpoint p = Ok e ->
  ce_id e = pe_id p /\ ce_label e = pe_tag p /\ ce_host e = pe_host p /\ ce_port e = pe_port p /\
  ce_path e = Some (pe_path p) /\ ce_transport e = pe_transport p /\ ce_origin e = Peer /\
  ((exists k s f, ce_public_parameters e = Reality k s f) <-> pe_transport p = Grants.VlessReality).
Proof.
  unfold to_compat_endpoint. intros H. apply bind_ok in H as ([] & _ & H). injection H as <-. simpl.
  repeat (split; [done|]). destruct (pe_transport p); split; try done; eauto. by intros (? & ? & ? & ?).
Qed.

(** Validated deployments can always be served. *)
Lemma served_total d pk sid obfs :
  deployment_ok d -> (exists ces, served_endpoints d pk sid obfs = Ok ces) /\
  exists paths, contract_access_paths d = Ok paths.
Proof.
  intros Hd. split.
  - unfold served_endpoints. destruct (collect_total (fun peer => map_err (InvalidPeerEntry (pe_id peer)) (to_compat_endpoint peer))
      (peer_endpoints d)) as [ys ->]; [|by eexists].
    intros p Hp. destruct (to_compat_endpoint_ok p) as [e ->]; [by apply (dk_peers d Hd)|]. by eexists.
  - apply collect_total. intros p Hp. unfold to_contract_access_path. rewrite (dk_paths d Hd p Hp). by eexists.
Qed.

(** ** Documents of a validated deployment *)

Lemma document_endpoints_listeners user mode ces eps :
  Provisioning.document_endpoints user mode ces = Ok eps ->
  (forall e, In e eps -> exists ce, In ce ces /\ same_listener ce e) /\
  (List.NoDup (map ce_label ces) -> List.NoDup (map ep_tag eps)) /\
  (List.NoDup (map ce_id ces) -> List.NoDup (map ep_id eps)).
Proof.
  revert eps. induction ces as [|ce ces IH]; simpl; intros eps Hok.
  { injection Hok as <-. repeat split; done || constructor. }
  destruct (bool_decide (mode = Provisioning.DiagTcpOnly) && _).
  { destruct (IH _ Hok) as (Hl & Ht & Hi). split; [intros e He; destruct (Hl e He) as (x & ? & ?); eauto|].
    split; inversion 1; auto. }
  apply bind_ok in Hok as (b & Hb & Hok). apply bind_ok in Hok as (rest & Hr & Hok). injection Hok as <-.
  destruct (IH _ Hr) as (Hl & Ht & Hi). destruct b as [e|]; simpl in *.
  2: { split; [intros e He; destruct (Hl e He) as (x & ? & ?); eauto|]. split; inversion 1; auto. }
  apply built_same_listener in Hb. split; [|split].
  - intros x [<-|Hx]; [eauto|]. destruct (Hl x Hx) as (y & ? & ?); eauto.
  - inversion 1 as [|? ? Hn Hnd]; subst. constructor; [|auto]. intros Hin. apply in_map_iff in Hin as (x & Ex & Hx).
    destruct (Hl x Hx) as (y & Hy & Hs). apply Hn. destruct Hb as (_ & Eb & _), Hs as (_ & Es & _).
    rewrite <- Eb, <- Ex, Es. by apply in_map.
  - inversion 1 as [|? ? Hn Hnd]; subst. constructor; [|auto]. intros Hin. apply in_map_iff in Hin as (x & Ex & Hx).
    destruct (Hl x Hx) as (y & Hy & Hs). apply Hn. destruct Hb as (Eb & _), Hs as (Es & _).
    rewrite <- Eb, <- Ex, Es. by apply in_map.
Qed.

Lemma own_endpoints_names d pk sid obfs :
  (map ce_label (own_endpoints d pk sid obfs) = ["Reality"] /\ map ce_id (own_endpoints d pk sid obfs) = ["reality-1"]) \/
  (map ce_label (own_endpoints d pk sid obfs) = ["Reality"; "Hysteria2"] /\
   map ce_id (own_endpoints d pk sid obfs) = LOCAL_ENDPOINT_IDS).
Proof. unfold own_endpoints. case_bool_decide; [left|right]; done. Qed.

Lemma Forall2_map {A B C} (R : A -> B -> Prop) (f : A -> C) (g : B -> C) l l' :
  Forall2 R l l' -> (forall x y, R x y -> f x = g y) -> map f l = map g l'.
Proof. intros H HR. induction H; simpl; [done|]. by rewrite (HR x y), IHForall2. Qed.

Lemma nodup_app {A} (l l' : list A) :
  List.NoDup l -> List.NoDup l' -> (forall x, In x l -> ~ In x l') -> List.NoDup (l ++ l').
Proof.
  induction l as [|x l IH]; simpl; intros Hl Hl' Hd; [done|]. inversion Hl; subst.
  constructor; [|apply IH; auto]. intros Hin. apply in_app_iff in Hin as [?|?]; [done|]. by apply (Hd x); auto.
Qed.

Lemma served_names d pk sid obfs ces :
  deployment_ok d -> served_endpoints d pk sid obfs = Ok ces ->
  List.NoDup (map ce_label ces) /\ List.NoDup (map ce_id ces) /\
  forall e, In e ces -> ~ In (ce_label e) Provisioning.reserved.
Proof.
  intros Hd Hs. apply served_endpoints_ok in Hs as (peers & -> & Hp).
  assert (Ht : map pe_tag (peer_endpoints d) = map ce_label peers)
    by (apply (Forall2_map _ _ _ _ _ Hp); intros p e He; by apply to_compat_endpoint_fields in He as (_ & -> & _)).
  assert (Hi : map pe_id (peer_endpoints d) = map ce_id peers)
    by (apply (Forall2_map _ _ _ _ _ Hp); intros p e He; by apply to_compat_endpoint_fields in He as (-> & _)).
  assert (Htag : forall x, In x (map ce_label peers) -> ~ In x RESERVED_ENDPOINT_TAGS).
  { rewrite <- Ht. intros x Hx. apply in_map_iff in Hx as (p & <- & Hx). by apply (dk_peers d Hd). }
  assert (Hid : forall x, In x (map ce_id peers) -> ~ In x LOCAL_ENDPOINT_IDS).
  { rewrite <- Hi. intros x Hx. apply in_map_iff in Hx as (p & <- & Hx). by apply (dk_peers d Hd). }
  assert (Hnt := dk_peer_tags d Hd). assert (Hni := dk_peer_ids d Hd). rewrite Ht in Hnt. rewrite Hi in Hni.
  assert (Hown : incl (map ce_label (own_endpoints d pk sid obfs)) RESERVED_ENDPOINT_TAGS /\
                 incl (map ce_id (own_endpoints d pk sid obfs)) LOCAL_ENDPOINT_IDS /\
                 List.NoDup (map ce_label (own_endpoints d pk sid obfs)) /\
                 List.NoDup (map ce_id (own_endpoints d pk sid obfs)) /\
                 forall x, In x (map ce_label (own_endpoints d pk sid obfs)) -> ~ In x Provisioning.reserved).
  { destruct (own_endpoints_names d pk sid obfs) as [[-> ->]|[-> ->]];
      (split; [intros x Hx; simpl in *; tauto|]; split; [intros x Hx; simpl in *; tauto|];
       split; [lit_nodup|]; split; [lit_nodup|]);
      intros x Hx; simpl in Hx; decompose [or] Hx; subst; try done; by vm_compute; intros Hy; decompose [or] Hy. }
  destruct Hown as (Hot & Hoi & Hodt & Hodi & Hor). rewrite !map_app. split; [|split].
  - apply nodup_app; [done..|]. intros x Hx Hy. by apply (Htag x Hy), Hot.
  - apply nodup_app; [done..|]. intros x Hx Hy. by apply (Hid x Hy), Hoi.
  - intros e He. apply in_app_iff in He as [He|He]; [by apply Hor, in_map|].
    intros Hr. apply (Htag (ce_label e)); [by apply in_map|]. unfold Provisioning.reserved in Hr.
    simpl in *. tauto.
Qed.

Lemma served_tags_ok d pk sid obfs ces user mode eps :
  deployment_ok d -> (forall p, In p (peer_endpoints d) -> ~ is_hidden (pe_tag p)) ->
  served_endpoints d pk sid obfs = Ok ces -> Provisioning.document_endpoints user mode ces = Ok eps ->
  Provisioning.tags_ok eps.
Proof.
  intros Hd Hh Hs He. destruct (served_names _ _ _ _ _ Hd Hs) as (Hnl & _ & Hres).
  destruct (document_endpoints_listeners _ _ _ _ He) as (Hl & Ht & _). split; [auto|].
  intros ep Hin. destruct (Hl ep Hin) as (ce & Hce & _ & -> & _). split; [auto|].
  apply served_endpoints_ok in Hs as (peers & -> & Hp). apply in_app_iff in Hce as [Ho|Hpe].
  - assert (Hn : In (ce_label ce) ["Reality"; "Hysteria2"]).
    { apply in_map with (f := ce_label) in Ho. destruct (own_endpoints_names d pk sid obfs) as [[E _]|[E _]];
        rewrite E in Ho; simpl in *; tauto. }
    simpl in Hn. destruct Hn as [<-|[<-|[]]]; [by apply Provisioning.short_not_hidden|].
    intros [q Eq]. apply (f_equal (fun s => rev (bytes_of s))) in Eq. rewrite bytes_of_app, rev_app_distr in Eq.
    vm_compute in Eq. discriminate.
  - assert (Hx : exists p, In p (peer_endpoints d) /\ to_compat_endpoint p = Ok ce).
    { clear -Hp Hpe. induction Hp; [done|]. destruct Hpe as [<-|Hpe]; [eauto using in_eq|].
      destruct (IHHp Hpe) as (? & ? & ?). eauto using in_cons. }
    destruct Hx as (p & Hin' & Ep). apply to_compat_endpoint_fields in Ep as (_ & -> & _). by apply Hh.
Qed.

(** *** Paths and first hops *)

Lemma find_unique {A} (key : A -> string) l x :
  List.NoDup (map key l) -> In x l -> List.find (fun y => String.eqb (key y) (key x)) l = Some x.
Proof.
  induction l as [|y l IH]; simpl; intros Hnd Hin; [done|]. inversion Hnd; subst.
  destruct Hin as [->|Hin]; [by rewrite String.eqb_refl|].
  destruct (String.eqb (key y) (key x)) eqn:E; [|auto]. apply String.eqb_eq in E.
  exfalso. by apply H1; rewrite E; apply in_map.
Qed.

Lemma nodup_map_rev {A B} (f : A -> B) l : List.NoDup (map f l) -> List.NoDup (map f (rev l)).
Proof. rewrite map_rev. apply NoDup_rev. Qed.

Lemma Forall2_In_r {A B} (R : A -> B -> Prop) l l' y :
  Forall2 R l l' -> In y l' -> exists x, In x l /\ R x y.
Proof. induction 1; simpl; [done|]. intros [<-|Hy]; [eauto|]. destruct (IHForall2 Hy) as (? & ? & ?). eauto. Qed.
Lemma Forall2_In_l {A B} (R : A -> B -> Prop) l l' x :
  Forall2 R l l' -> In x l -> exists y, In y l' /\ R x y.
Proof. induction 1; simpl; [done|]. intros [<-|Hx]; [eauto|]. destruct (IHForall2 Hx) as (? & ? & ?). eauto. Qed.

Lemma from_wire_relay k : AccessPathKind_from_wire k = KRelay <-> k = RELAY_ACCESS_PATH_KIND.
Proof.
  unfold AccessPathKind_from_wire, RELAY_ACCESS_PATH_KIND.
  destruct (String.eqb k "direct") eqn:E; [apply String.eqb_eq in E as ->; done|].
  destruct (String.eqb k "relay") eqn:E'; [by apply String.eqb_eq in E' as ->|].
  split; [done|intros ->; done].
Qed.

Definition contract_path (a : AccessPathSection) (p : AccessPath) : Prop :=
  ap_id p = as_id a /\ ap_kind p = AccessPathKind_from_wire (as_kind a) /\ ap_via_endpoint_id p = as_via_endpoint_id a.

Lemma contract_paths_ok d paths :
  contract_access_paths d = Ok paths -> Forall2 contract_path (access_paths d) paths.
Proof.
  intros H. apply collect_ok in H. eapply List.Forall2_impl; [|exact H]. simpl. intros a p Hp.
  unfold to_contract_access_path in Hp. apply bind_ok in Hp as ([] & _ & Hp). by injection Hp as <-.
Qed.

(** With unique ids, the contract's lookup of a path is [relay_path]. *)
Lemma path_lookup d paths a :
  deployment_ok d -> contract_access_paths d = Ok paths -> In a (access_paths d) ->
  exists p, path_by_id paths (as_id a) = Some p /\ contract_path a p.
Proof.
  intros Hd Hp Ha. apply contract_paths_ok in Hp. destruct (Forall2_In_l _ _ _ _ Hp Ha) as (p & Hin & Hc).
  exists p. split; [|done]. destruct Hc as (<- & _). unfold path_by_id. apply find_unique.
  - apply nodup_map_rev. rewrite <- (Forall2_map _ as_id ap_id _ _ Hp) by (by intros x y (-> & _)). apply (dk_path_ids d Hd).
  - by apply in_rev in Hin.
Qed.

Lemma relay_path_spec d i a :
  relay_path d i = Some a -> In a (access_paths d) /\ as_id a = i /\ as_kind a = RELAY_ACCESS_PATH_KIND.
Proof. unfold relay_path. intros H. apply find_some in H as [Hin H]. b2p. done. Qed.

Lemma relay_path_complete d a :
  deployment_ok d -> In a (access_paths d) -> as_kind a = RELAY_ACCESS_PATH_KIND -> relay_path d (as_id a) = Some a.
Proof.
  intros Hd Ha Hk. unfold relay_path. destruct (List.find _ _) as [b|] eqn:E.
  - apply find_some in E as [Hin E]. b2p. pose proof (find_unique as_id _ _ (dk_path_ids d Hd) Ha) as F1.
    pose proof (find_unique as_id _ _ (dk_path_ids d Hd) Hin) as F2. rewrite H in F2. congruence.
  - eapply find_none in E; [|exact Ha]. simpl in E. by rewrite String.eqb_refl, Hk in E.
Qed.

(** Where an endpoint of a document comes from. *)
Lemma document_endpoint_origin d pk sid obfs ces user mode eps ep :
  served_endpoints d pk sid obfs = Ok ces -> Provisioning.document_endpoints user mode ces = Ok eps -> In ep eps ->
  (exists ce, In ce (own_endpoints d pk sid obfs) /\ same_listener ce ep /\ ep_path ep = None) \/
  (exists p ce, In p (peer_endpoints d) /\ to_compat_endpoint p = Ok ce /\ same_listener ce ep).
Proof.
  intros Hs He Hin. destruct (document_endpoints_listeners _ _ _ _ He) as (Hl & _).
  destruct (Hl ep Hin) as (ce & Hce & Hsl). apply served_endpoints_ok in Hs as (peers & -> & Hp).
  apply in_app_iff in Hce as [Ho|Hpe].
  - left. exists ce. split; [done|]. split; [done|]. destruct Hsl as (_ & _ & _ & _ & -> & _).
    assert (E : ce_path ce = None); [|by rewrite E].
    unfold own_endpoints in Ho. case_bool_decide; [apply In_filterb in Ho as [Ho _]|];
      destruct Ho as [<-|[<-|[]]]; done.
  - right. destruct (Forall2_In_r _ _ _ _ Hp Hpe) as (p & ? & ?). eauto.
Qed.

(** A local listener is in every document, Hysteria2 aside. *)
Lemma own_reality_in_document d pk sid obfs ces user mode eps :
  served_endpoints d pk sid obfs = Ok ces -> Provisioning.document_endpoints user mode ces = Ok eps ->
  exists ep, In ep eps /\ ep_id ep = LOCAL_REALITY_ENDPOINT_ID /\ is_vless ep = true.
Proof.
  intros Hs He. apply served_endpoints_ok in Hs as (peers & -> & _).
  assert (Hh : exists ce rest, own_endpoints d pk sid obfs ++ peers = ce :: rest /\ ce_id ce = LOCAL_REALITY_ENDPOINT_ID /\
    ce_origin ce = Local /\ ce_transport ce = Grants.VlessReality /\ ce_public_parameters ce = Reality pk sid "chrome").
  { unfold own_endpoints. case_bool_decide; simpl; eauto 10. }
  destruct Hh as (ce & rest & Er & Hi & Ho & Ht & Hpp). rewrite Er in He. simpl in He. rewrite Ht, andb_false_r in He.
  unfold contract_endpoint_opt, resolve_credential, endpoint_params in He. rewrite Ho, Hpp in He. simpl in He.
  apply bind_ok in He as (eps' & _ & He). injection He as <-. eexists. split; [by left|]. done.
Qed.

(** *** Errors a user's document can still meet *)

Definition user_error (e : CompatError) : Prop :=
  e = NoSelectableRoute \/ (exists a b, e = Parse (CredentialCoerced a b)) \/
  exists p via, e = Parse (UnavailableFirstHop p via) /\ via <> LOCAL_REALITY_ENDPOINT_ID.

(** Every declared route uses a path this server can execute. *)
Definition executable_paths (d : DeploymentConfig) : Prop :=
  forall p, In p (peer_endpoints d) -> access_paths d <> [] -> pe_path p <> "direct" -> relay_path d (pe_path p) <> None.

Lemma peer_lookup d p : deployment_ok d -> In p (peer_endpoints d) -> peer_by_id d (pe_id p) = Some p.
Proof. intros Hd Hin. apply find_unique; [apply (dk_peer_ids d Hd)|done]. Qed.

(** The first hop of a relay path is a VLESS listener. *)
Lemma first_hop_vless d pk sid obfs ces user mode eps a via ep :
  deployment_ok d -> served_endpoints d pk sid obfs = Ok ces -> Provisioning.document_endpoints user mode ces = Ok eps ->
  In a (access_paths d) -> as_via_endpoint_id a = Some via -> In ep eps -> ep_id ep = via -> is_vless ep = true.
Proof.
  intros Hd Hs He Ha Hv Hin Hid. pose proof (dk_hops d Hd a Ha) as Hh. unfold check_first_hop in Hh. rewrite Hv in Hh.
  apply if_err_ok in Hh as [_ Hh]. apply if_err_ok in Hh as [Hhy Hh]. apply bind_unit_ok in Hh as [Hh _].
  destruct (document_endpoint_origin _ _ _ _ _ _ _ _ _ Hs He Hin) as [(ce & Hce & Hsl & _)|(p & ce & Hp & Hc & Hsl)].
  - destruct Hsl as (Ei & _ & _ & _ & _ & Hvl). apply Hvl. apply String.eqb_neq in Hhy.
    unfold own_endpoints in Hce. case_bool_decide; [apply In_filterb in Hce as [Hce _]|];
      destruct Hce as [<-|[<-|[]]]; simpl in *; eauto; exfalso; apply Hhy; by rewrite <- Hid.
  - apply to_compat_endpoint_fields in Hc as (Ei & _ & _ & _ & _ & _ & _ & Hvl). destruct Hsl as (Ei' & _ & _ & _ & _ & Hvl').
    apply Hvl', Hvl. assert (Epv : pe_id p = via) by congruence.
    destruct (String.eqb via LOCAL_REALITY_ENDPOINT_ID) eqn:El.
    { apply String.eqb_eq in El. destruct (dk_peers d Hd p Hp) as (_ & Hn & _). exfalso. apply Hn. rewrite Epv, El. by left. }
    rewrite <- Epv, (peer_lookup d p Hd Hp) in Hh. simpl in Hh. apply if_err_ok in Hh as [Ht _].
    by apply negb_false_iff, bool_decide_eq_true in Ht.
Qed.

Lemma first_hop_errors d pk sid obfs ces paths user mode eps ep e :
  deployment_ok d -> executable_paths d ->
  served_endpoints d pk sid obfs = Ok ces -> contract_access_paths d = Ok paths ->
  Provisioning.document_endpoints user mode ces = Ok eps -> In ep eps -> first_hop eps paths ep = Err e -> user_error e.
Proof.
  intros Hd Hx Hs Hp He Hin Hf.
  destruct (document_endpoint_origin _ _ _ _ _ _ _ _ _ Hs He Hin) as [(ce & _ & _ & Hpath)|(p & ce & Hpin & Hc & Hsl)].
  { unfold first_hop in Hf. rewrite Hpath in Hf. by destruct paths. }
  apply to_compat_endpoint_fields in Hc as (Ei & _ & _ & _ & Ecp & Ect & _ & Hvl).
  destruct Hsl as (Ei' & _ & _ & _ & Epath & Hvl'). rewrite Ecp in Epath. simpl in Epath. unfold PathType_from_wire in Epath.
  destruct (String.eqb (pe_path p) "direct") eqn:Ed; [unfold first_hop in Hf; rewrite Epath in Hf; by destruct paths|].
  pose proof (contract_paths_ok _ _ Hp) as Hps. apply String.eqb_neq in Ed as Ed'.
  destruct paths as [|p0 ps]; [by unfold first_hop in Hf|].
  assert (Hne : access_paths d <> []) by (intros E0; rewrite E0 in Hps; inversion Hps).
  specialize (Hx p Hpin Hne Ed'). destruct (relay_path d (pe_path p)) as [a|] eqn:Ea; [|done]. clear Hx.
  pose proof (dk_routes d Hd p Hpin) as Hr. unfold check_relay_route in Hr. rewrite Ed, Ea in Hr.
  apply if_err_ok in Hr as [Ht Hr]. apply negb_false_iff, bool_decide_eq_true in Ht.
  apply bind_ok in Hr as (via & Hv & Hr). apply ok_or_ok in Hv. apply if_err_ok in Hr as [Hself _].
  apply relay_path_spec in Ea as (Hain & Eai & Eak).
  destruct (path_lookup d _ a Hd Hp Hain) as (q & Hq & _ & Hqk & Hqv).
  unfold first_hop in Hf. rewrite Epath, <- Eai, Hq in Hf. simpl in Hf.
  rewrite Hqk, Eak in Hf. simpl in Hf. rewrite Hqv, Hv in Hf. simpl in Hf.
  destruct (endpoint_by_id eps via) as [hop|] eqn:Eh; simpl in Hf.
  - exfalso. apply find_rev_In in Eh as [Hhin Ehid]. apply String.eqb_eq in Ehid.
    rewrite Ehid, Ei', Ei, Hself in Hf. simpl in Hf.
    rewrite (first_hop_vless _ _ _ _ _ _ _ _ _ _ _ Hd Hs He Hain Hv Hhin Ehid) in Hf.
    assert (Hve : is_vless ep = true) by (apply Hvl', Hvl; done). by rewrite Hve in Hf.
  - injection Hf as <-. right. right. do 2 eexists. split; [done|]. intros ->.
    destruct (own_reality_in_document _ _ _ _ _ _ _ _ Hs He) as (o & Ho & Eo & _).
    unfold endpoint_by_id in Eh. eapply find_none in Eh; [|apply (in_rev eps), Ho]. by rewrite Eo, String.eqb_refl in Eh.
Qed.

(** Building endpoints can only fail on a credential of the wrong transport. *)
Lemma document_endpoints_errors d pk sid obfs ces user mode e :
  served_endpoints d pk sid obfs = Ok ces -> Provisioning.document_endpoints user mode ces = Err e -> user_error e.
Proof.
  intros Hs. assert (Hk : forall ce, In ce ces -> ce_origin ce = Peer ->
    ((exists k s f, ce_public_parameters ce = Reality k s f) <-> ce_transport ce = Grants.VlessReality)).
  { apply served_endpoints_ok in Hs as (peers & -> & Hp). intros ce Hce Ho. apply in_app_iff in Hce as [Hce|Hce].
    - unfold own_endpoints in Hce. case_bool_decide; [apply In_filterb in Hce as [Hce _]|];
        destruct Hce as [<-|[<-|[]]]; done.
    - destruct (Forall2_In_r _ _ _ _ Hp Hce) as (p & _ & Hc).
      apply to_compat_endpoint_fields in Hc as (_ & _ & _ & _ & _ & -> & _ & ?). done. }
  clear Hs. induction ces as [|ce ces IH]; simpl; [done|].
  case_if; [intros H; apply IH; auto using in_cons|].
  destruct (contract_endpoint_opt user ce _ None) as [b|e'] eqn:Eb; simpl.
  - destruct (Provisioning.document_endpoints user mode ces) eqn:Ed; simpl; [done|]. intros [= <-].
    apply IH; auto using in_cons.
  - intros [= <-]. unfold contract_endpoint_opt, resolve_credential, endpoint_params in Eb.
    specialize (Hk ce (or_introl eq_refl)). destruct (ce_origin ce) eqn:Eo; simpl in Eb.
    + by destruct (ce_public_parameters ce).
    + destruct (Grants.peer_credential _ _) as [c|]; [|done]. case_bool_decide as Ht; simpl in Eb.
      * destruct (ce_public_parameters ce) as [k s f|o], c as [u|w]; simpl in *; try done; exfalso.
        -- assert (Hv : ce_transport ce = Grants.VlessReality) by (apply Hk; eauto). congruence.
        -- assert (Hv : ce_transport ce = Grants.VlessReality) by congruence. apply Hk in Hv as (? & ? & ? & ?); done.
      * injection Eb as <-. right. left. eauto.
Qed.

(** *** Relay targets *)

Lemma dedup_In x l : In x (dedup_consecutive l) <-> In x l.
Proof.
  induction l as [|y l IH]; [done|]. destruct l as [|z l]; [done|].
  change (dedup_consecutive (y :: z :: l)) with
    (if bool_decide (y = z) then dedup_consecutive (z :: l) else y :: dedup_consecutive (z :: l)).
  case_bool_decide as E.
  - rewrite IH. subst z. simpl. tauto.
  - split; intros [->|Hin]; try (by left); right; by apply IH.
Qed.

Lemma target_leb_total a b : target_leb a b = false -> target_leb b a = true.
Proof.
  unfold target_leb. rewrite (String.eqb_sym (rt_host b)).
  destruct (String.eqb (rt_host a) (rt_host b)); [rewrite Z.leb_gt, Z.leb_le; lia|apply str_leb_total].
Qed.
Lemma target_leb_trans a b c : target_leb a b = true -> target_leb b c = true -> target_leb a c = true.
Proof.
  unfold target_leb. intros H1 H2.
  destruct (String.eqb (rt_host a) (rt_host b)) eqn:E1, (String.eqb (rt_host b) (rt_host c)) eqn:E2.
  - apply String.eqb_eq in E1, E2. rewrite E1, E2, String.eqb_refl. b2p. lia.
  - apply String.eqb_eq in E1. by rewrite E1, E2.
  - apply String.eqb_eq in E2. by rewrite <- E2, E1.
  - destruct (String.eqb (rt_host a) (rt_host c)) eqn:E3; [|by eapply str_leb_trans].
    apply String.eqb_eq in E3. rewrite <- E3 in H2. apply String.eqb_neq in E1. by rewrite (str_leb_antisym _ _ H1 H2) in E1.
Qed.
Lemma target_leb_antisym a b : target_leb a b = true -> target_leb b a = true -> a = b.
Proof.
  unfold target_leb. rewrite (String.eqb_sym (rt_host b)). destruct a as [h p], b as [h' p']. simpl.
  destruct (String.eqb h h') eqn:E; intros H1 H2.
  - apply String.eqb_eq in E as ->. f_equal. lia.
  - apply String.eqb_neq in E. by rewrite (str_leb_antisym _ _ H1 H2) in E.
Qed.

Lemma dedup_sorted_nodup l :
  StronglySorted (fun a b => target_leb a b = true) l -> List.NoDup (dedup_consecutive l).
Proof.
  induction l as [|x l IH]; intros Hs; [constructor|]. inversion Hs as [|? ? Hs' Hx]; subst.
  destruct l as [|y l]; [repeat constructor; by intros []|].
  change (dedup_consecutive (x :: y :: l)) with
    (if bool_decide (x = y) then dedup_consecutive (y :: l) else x :: dedup_consecutive (y :: l)).
  case_bool_decide as E; [by apply IH|]. constructor; [|by apply IH]. rewrite dedup_In. intros Hin. apply E.
  inversion Hx as [|? ? Hxy _]; subst. destruct Hin as [->|Hin]; [done|].
  inversion Hs' as [|? ? _ Hy]; subst. apply target_leb_antisym; [done|]. by eapply (proj1 (List.Forall_forall _ _)) in Hy.
Qed.

(** The relay's forwarding list is exactly its declared exits.  A target is
    listed if and only if the node is a relay and some declared peer route has
    that address and uses a relay path whose first hop is this node's own
    listener; the list has no duplicates; and for a validated deployment every
    listed literal address is one the deny-range policy permits (unless an
    access path carries the reserved name "direct"). *)
Theorem relay_targets_exact d :
  validate d = Ok tt ->
  List.NoDup (relay_targets d) /\
  (forall t, In t (relay_targets d) <->
     role d = Relay /\ exists p a, In p (peer_endpoints d) /\ In a (access_paths d) /\
       t = {| rt_host := pe_host p; rt_port := pe_port p |} /\ as_id a = pe_path p /\
       as_kind a = RELAY_ACCESS_PATH_KIND /\ as_via_endpoint_id a = Some LOCAL_REALITY_ENDPOINT_ID) /\
  ((forall a, In a (access_paths d) -> as_id a <> "direct") ->
   forall t ip, In t (relay_targets d) -> parse_ip (rt_host t) = Some ip ->
     RelayTarget.classify_relay_target_denied ip = None).
Proof.
  intros Hv. apply validate_ok in Hv as Hd. set (tgt := fun p => {| rt_host := pe_host p; rt_port := pe_port p |}).
  assert (Hin : forall t, In t (relay_targets d) <-> role d = Relay /\
    exists p, In p (peer_endpoints d) /\ relayed_here d p = true /\ t = tgt p).
  { intros t. unfold relay_targets. case_bool_decide as Er; simpl; [|tauto].
    rewrite dedup_In, In_sort_stable, in_map_iff. split.
    - intros (p & <- & Hp). apply In_filterb in Hp as [? ?]. eauto.
    - intros (_ & p & ? & ? & ->). exists p. split; [done|]. by apply In_filterb. }
  split; [|split].
  - unfold relay_targets. case_bool_decide; simpl; [|constructor]. apply dedup_sorted_nodup.
    apply sort_stable_sorted; [apply target_leb_total|apply target_leb_trans].
  - intros t. rewrite Hin. split.
    + intros (Er & p & Hp & Hr & ->). split; [done|]. unfold relayed_here in Hr.
      destruct (relay_path d (pe_path p)) as [a|] eqn:Ea; [|done]. apply bool_decide_eq_true in Hr.
      apply relay_path_spec in Ea as (? & ? & ?). exists p, a. done.
    + intros (Er & p & a & Hp & Ha & -> & Hi & Hk & Hvia). split; [done|]. exists p. split; [done|]. split; [|done].
      unfold relayed_here. rewrite <- Hi, (relay_path_complete d a Hd Ha Hk). by apply bool_decide_eq_true.
  - intros Hnd t ip Ht Hip. apply Hin in Ht as (_ & p & Hp & Hr & ->). simpl in Hip. unfold relayed_here in Hr.
    destruct (relay_path d (pe_path p)) as [a|] eqn:Ea; [|done]. apply bool_decide_eq_true in Hr.
    pose proof (dk_routes d Hd p Hp) as Hc. unfold check_relay_route in Hc. rewrite Ea, Hr in Hc.
    destruct (String.eqb (pe_path p) "direct") eqn:Ed.
    { apply String.eqb_eq in Ed. apply relay_path_spec in Ea as (Ha & Hi & _). exfalso. rewrite Ed in Hi. by apply (Hnd a). }
    apply if_err_ok in Hc as [_ Hc]. simpl in Hc. apply if_err_ok in Hc as [_ Hc].
    unfold validate_relay_target_host in Hc. rewrite Hip in Hc. by destruct (RelayTarget.classify_relay_target_denied ip).
Qed.

(** *** The whole of a deployment *)

Context {V : Type} {JO : JsonOps V} {JL : JsonLaws V} {JT : JsonTree V} {JTL : JsonTreeLaws V}.
Context (server_version : string).

(** C25: mistakes of a declaration are caught when it is loaded, not when a user
    asks.  A validated deployment whose routes use executable paths can be
    served; for every user, mode and profile, either a document is assembled,
    and then the cross-check of catalog and configuration succeeds, or the
    error is about the user: no selectable route, a peer credential of the
    wrong transport, or a peer first hop the user has no credential for. *)
Theorem validated_deployment_documents d pk sid obfs :
  validate d = Ok tt -> executable_paths d ->
  (forall p, In p (peer_endpoints d) -> ~ is_hidden (pe_tag p)) ->
  exists ces paths, served_endpoints d pk sid obfs = Ok ces /\ contract_access_paths d = Ok paths /\
    forall user mode profile cmode,
      match Provisioning.assemble_document (V := V) server_version user ces mode paths profile cmode with
      | Ok doc => cross_validate_embedded_config doc = Ok tt
      | Err e => user_error e
      end.
Proof.
  intros Hv Hx Hh. apply validate_ok in Hv as Hd. destruct (served_total d pk sid obfs Hd) as [[ces Hs] [paths Hp]].
  exists ces, paths. split; [done|]. split; [done|]. intros user mode profile cmode.
  destruct (Provisioning.assemble_document _ _ _ _ _ _ _) as [doc|e] eqn:Ea.
  - pose proof Ea as Ha. apply Provisioning.assemble_ok in Ha as (eps & cfg & cfg' & He & _ & _ & Hc & _).
    destruct (Provisioning.assembled_agrees _ _ _ _ _ _ _ _ _ He (served_tags_ok _ _ _ _ _ _ _ _ Hd Hh Hs He) Ea)
      as (cfg0 & Hcfg & Hag). by apply (cross_validate_iff _ _ Hcfg).
  - apply Provisioning.assemble_err in Ea as [He|[->|(eps & He & Hr)]].
    + by eapply document_endpoints_errors.
    + by left.
    + destruct (served_tags_ok _ _ _ _ _ _ _ _ Hd Hh Hs He) as [Hnd _]. apply render_err in Hr; [|done|].
      * destruct Hr as [->|(ep & Hin & _ & Hf)]; [by left|]. by eapply first_hop_errors.
      * intros i Hi. apply in_map_iff in Hi as (x & <- & Hx'). apply in_map. by eapply Provisioning.In_selectable.
Qed.
End Keys.

(** ** Examples *)

(** A relay node with one exit behind it. *)
Definition ex_key (_ : string) : option (list Z) := Some (repeat 0 32).
Definition ex_peer (host path : string) : PeerEndpointSection :=
  {| pe_id := "exit-1"; pe_tag := "Exit"; pe_host := host; pe_port := 443;
     pe_transport := Grants.VlessReality; pe_server_name := None; pe_reality_public_key := Some "k";
     pe_reality_short_id := Some "0a1b"; pe_reality_fingerprint := default_peer_fingerprint;
     pe_obfs_password := None; pe_failure_domain := "de"; pe_region := None; pe_provider := None; pe_asn := None;
     pe_path := path; pe_credential_ref := None; pe_vless_flow := FlowVision; pe_extra := [] |}.
Definition ex_path (id kind : string) (via : option string) : AccessPathSection :=
  {| as_id := id; as_kind := kind; as_via_endpoint_id := via; as_failure_domain := None; as_region := None;
     as_provider := None; as_capabilities := ["tcp"]; as_extra := [] |}.
Definition ex_deployment (paths : list AccessPathSection) (peers : list PeerEndpointSection) : DeploymentConfig :=
  {| schema_version := 2; node_id := "ru-1"; role := Relay; public_host := "ru1.example.test";
     subscription_host := "ru1.example.test";
     reality := {| re_listen_port := 443; re_handshake_server := "www.example.com"; re_handshake_port := 443 |};
     hysteria2 := {| hy_listen_port := 443; up_mbps := None; down_mbps := None |};
     subscription := {| su_listen_port := 8080; su_public_port := 8443; su_profile_title := DEFAULT_PROFILE_TITLE |};
     udp_probe := None; state_dir := "/etc/vpn/compat"; singbox_binary := "/usr/local/bin/sing-box";
     access_paths := paths; peer_endpoints := peers; google_egress_hairpin := None; egress := None;
     google_egress_tls_spoof := None; exit_principals := None; public_ipv4 := None; public_ipv6 := None |}.
Definition ex_relay : DeploymentConfig :=
  ex_deployment [ex_path "ru" "relay" (Some "reality-1")] [ex_peer "de1.example.test" "ru"].

Lemma relay_targets_exact_witness :
  In {| rt_host := "de1.example.test"; rt_port := 443 |} (relay_targets ex_relay).
Proof.
  apply (proj2 (proj1 (proj2 (relay_targets_exact ex_key ex_relay ltac:(vm_compute; reflexivity)))
    {| rt_host := "de1.example.test"; rt_port := 443 |})).
  split; [reflexivity|]. exists (ex_peer "de1.example.test" "ru"), (ex_path "ru" "relay" (Some "reality-1")).
  repeat split; try reflexivity; left; reflexivity.
Defined.

Lemma validated_deployment_documents_witness :
  exists ces paths, served_endpoints ex_key ex_relay "pk" "0a" None = Ok ces /\
    contract_access_paths ex_relay = Ok paths /\
    is_ok (Provisioning.assemble_document (V := json) "1.0.0" ex_user ces Provisioning.DiagNone paths Reliability Normal) = true.
Proof.
  destruct (validated_deployment_documents (V := json) ex_key "1.0.0" ex_relay "pk" "0a" None) as (ces & paths & Hs & Hp & _).
  - vm_compute. reflexivity.
  - intros p [<-|[]] _ _. vm_compute. discriminate.
  - intros p [<-|[]]. apply Provisioning.short_not_hidden. vm_compute. reflexivity.
  - exists ces, paths. split; [exact Hs|]. split; [exact Hp|].
    vm_compute in Hs. injection Hs as <-. vm_compute in Hp. injection Hp as <-. vm_compute. reflexivity.
Defined.

(** A route over a declared path of another kind loads, and then no document
    of a user with that credential can be rendered. *)
Lemma non_relay_path_loads_and_never_renders :
  let d := ex_deployment [ex_path "ru" "relay" (Some "reality-1"); ex_path "cdn" "cdn" None]
             [ex_peer "de1.example.test" "cdn"] in
  validate ex_key d = Ok tt /\
  exists ces paths, served_endpoints ex_key d "pk" "0a" None = Ok ces /\ contract_access_paths d = Ok paths /\
    Provisioning.assemble_document (V := json) "1.0.0" ex_user ces Provisioning.DiagNone paths Reliability Normal
      = Err (Parse (NotARelayPath "exit-1" "cdn")).
Proof. split; [vm_compute; reflexivity|]. do 2 eexists. repeat split; vm_compute; reflexivity. Qed.

(** A relay path named "direct" turns every direct peer into a relay target
    without the check of its address. *)
Lemma path_named_direct_skips_target_check :
  let d := ex_deployment [ex_path "direct" "relay" (Some "reality-1")] [ex_peer "169.254.169.254" "direct"] in
  validate ex_key d = Ok tt /\ relay_targets d = [{| rt_host := "169.254.169.254"; rt_port := 443 |}] /\
  validate_relay_target_host "169.254.169.254" = false.
Proof. repeat split; vm_compute; reflexivity. Qed.

(** ** Default node names *)

Lemma drop_while_incl f l : incl (drop_while f l) l.
Proof. induction l as [|c l IH]; simpl; [apply incl_refl|]. case_if; [by apply incl_tl|apply incl_refl]. Qed.
Lemma drop_while_head f l c rest : drop_while f l = c :: rest -> f c = false.
Proof. induction l as [|x l IH]; simpl; [done|]. destruct (f x) eqn:E; [done|]. by intros [= <- _]. Qed.
(** Dropping from the end keeps a head that is not dropped. *)
Lemma drop_end_head f c l : f c = false -> exists l', rev (drop_while f (rev (c :: l))) = c :: l' /\ incl l' l /\ (length l' <= length l)%nat.
Proof.
  intros Hc. induction l as [|x l IH] using rev_ind; simpl.
  - rewrite Hc. exists []. split; [done|]. split; [apply incl_refl|simpl; lia].
  - rewrite rev_app_distr. simpl. destruct (f x) eqn:Ex; simpl.
    + destruct IH as (l' & E & Hi & Hl). exists l'. simpl in E. rewrite E, length_app. simpl.
      split; [done|]. split; [by intros y Hy; apply in_app_iff; left; apply Hi|lia].
    + exists (l ++ [x]). rewrite rev_app_distr. simpl. rewrite rev_involutive. split; [done|]. split; [apply incl_refl|lia].
Qed.

(** The default node id passes the check of node ids, whatever the host. *)
Lemma default_node_id_valid host : validate_node_id (default_node_id_for_host host) = Ok tt.
Proof.
  unfold default_node_id_for_host. set (m := map_label _).
  assert (Hm : forall c, In c m -> node_id_char c = true).
  { intros c Hin. unfold m, map_label in Hin. apply In_filter_map in Hin as (b & _ & Hb). case_if; [done|].
    destruct (is_ascii_alphanumeric b || is_char "-" b || is_char "_" b) eqn:E; injection Hb as <-;
      [|by vm_compute]. unfold node_id_char. by rewrite E. }
  set (na := fun c => negb (is_ascii_alphanumeric c)). set (sep := fun c => is_char "-" c || is_char "_" c).
  unfold trim_matches. fold na. destruct (drop_while na m) as [|c l] eqn:Ed; [by vm_compute|].
  pose proof (drop_while_head _ _ _ _ Ed) as Hc. pose proof (drop_while_incl na m) as Hi. rewrite Ed in Hi.
  destruct (drop_end_head na c l Hc) as (l1 & -> & Hi1 & _). change (Z.to_nat NODE_ID_MAX_LEN) with 63%nat. cbn [firstn].
  assert (Hcs : sep c = false).
  { assert (Hb : implb (is_ascii_alphanumeric c) (negb (is_char "-" c || is_char "_" c)) = true)
      by (by_bytes (fun c => implb (is_ascii_alphanumeric c) (negb (is_char "-" c || is_char "_" c)))).
    unfold na in Hc. apply negb_false_iff in Hc. rewrite Hc in Hb. simpl in Hb. by apply negb_true_iff in Hb. }
  destruct (drop_end_head sep c (firstn 62 l1) Hcs) as (l2 & E2 & Hi2 & Hl2). fold sep. rewrite E2.
  rewrite bool_decide_false by done. unfold validate_node_id. simpl.
  assert (Hlen : slen (String c (String.string_of_list_ascii l2)) <= 63).
  { unfold slen. simpl. rewrite <- length_bytes_of. unfold bytes_of. rewrite String.list_ascii_of_string_of_list_ascii.
    pose proof (length_firstn 62 l1). lia. }
  destruct (NODE_ID_MAX_LEN <? _) eqn:El; [unfold NODE_ID_MAX_LEN in El; b2p; lia|].
  unfold na in Hc. apply negb_false_iff in Hc. rewrite Hc. simpl.
  assert (Hall : str_all node_id_char (String c (String.string_of_list_ascii l2)) = true).
  { unfold str_all, bytes_of. simpl. rewrite String.list_ascii_of_string_of_list_ascii. apply andb_true_iff. split.
    - apply Hm, Hi. by left.
    - apply forallb_forall. intros x Hx. apply Hm, Hi. right. apply Hi1. apply Hi2 in Hx.
      rewrite <- (firstn_skipn 62 l1). apply in_app_iff. by left. }
  by rewrite Hall.
Qed.
End Deployment.
