(* ===== verification/StaticRevision.v ===== *)
(** * crates/compat-config/src/static_revision.rs: static-config revisions

    The control plane may change an allowlisted set of deployment fields.
    [parse_static_revision] reads the document, [plan_static_revision] computes
    the candidate [deployment.toml] and checks that nothing else changed.

    TOML text is read and printed by a crate outside the repository: reading a
    table, reading a configuration, printing a table, and the derived
    serialisation of a configuration are parameters. *)

From S2P Require Import Prelude Strs Net NetText AddressPolicy Credentials Grants Json Contract Render.
From S2P Require Import Deployment.
From Stdlib Require Import Ascii.

Module StaticRevision.
Local Notation is_some := Deployment.is_some.
Local Notation mem := Contract.mem.

Definition STATIC_REVISION_SCHEMA : Z := 1.
Definition MAX_STATIC_REVISION_BYTES : Z := 16 * 1024.
Definition ALLOWED_FIELDS : list (string * string) :=
  [("reality", "handshake_server"); ("hysteria2", "up_mbps"); ("hysteria2", "down_mbps");
   ("udp_probe", "ipv4_resolvers"); ("udp_probe", "ipv6_resolvers"); ("udp_probe", "retries");
   ("udp_probe", "timeout_ms"); ("udp_probe", "delay_ms")].
Definition FORBIDDEN_TOP_LEVEL_FIELDS : list string :=
  ["schema_version"; "node_id"; "role"; "public_host"; "subscription_host"; "public_ipv4"; "public_ipv6"; "state_dir";
   "singbox_binary"; "access_paths"; "peer_endpoints"; "google_egress_hairpin"; "egress"; "subscription"].
Definition DEFERRED_SECTION_FIELDS : list (string * string) :=
  [("reality", "listen_port"); ("reality", "handshake_port"); ("hysteria2", "listen_port")].
Definition MAX_RESOLVERS_PER_FAMILY : Z := 8.
Definition MAX_MBPS : Z := 100000.

Record StaticRevision := {
  handshake_server : option string;
  hysteria2_mbps : option (option (Z * Z));
  udp_ipv4_resolvers : option (list string);
  udp_ipv6_resolvers : option (list string);
  udp_retries : option Z;
  udp_timeout_ms : option Z;
  udp_delay_ms : option Z }.

Definition touches_served_endpoints (self : StaticRevision) : bool :=
  is_some (handshake_server self) || is_some (hysteria2_mbps self).

Inductive rev_error :=
| TooLarge | NotJson | NotObject | UnknownTopKey (k : string) | UnsupportedSchema (n : Z) | MissingSchema
| MissingStaticConfig | EmptyStaticConfig | ForbiddenField (k : string) | UnknownSection (k : string)
| SectionNotObject (k : string) | EmptySection (k : string) | DeferredField (k f : string) | UnknownField (k f : string)
| HandshakeNotString | BadHandshake | MbpsTogether | OutOfBounds (f : string)
| NotArray | ResolverCount | ResolverNotString | NotIpLiteral (s : string) | WrongFamily (s : string) | NotPublic (s : string)
| DuplicateResolver (s : string)
| CurrentUnparsable | CurrentInvalid (e : Deployment.deploy_error) | NotTable (k : string) | Unprintable
| CandidateUnparsable | CandidateInvalid (e : Deployment.deploy_error) | OutsideAllowlist.

(** ** Values *)

Definition LOCAL_SUFFIXES : list string :=
  ["localhost"; "local"; "internal"; "lan"; "home"; "corp"; "intranet"; "localdomain"; "arpa"; "test"; "invalid"; "example"].

Definition handshake_label (label : string) : bool :=
  negb (str_is_empty label) && (slen label <=? 63) && negb (starts_with "-" label) && negb (Deployment.ends_with_char "-" label)
  && str_all (fun c => in_range 97 122 c || is_ascii_digit c || Ascii.eqb c "-") label.

Definition validate_handshake_server (host : string) : result unit rev_error :=
  if str_is_empty host || (253 <? slen host) then Err BadHandshake else
  if is_some (parse_ip host) || starts_with "[" host then Err BadHandshake else
  let labels := split_on "." host in
  if (length labels <? 2)%nat then Err BadHandshake else
  if negb (forallb handshake_label labels) then Err BadHandshake else
  let tld := List.last labels EmptyString in
  if str_all is_ascii_digit tld then Err BadHandshake else
  if mem tld LOCAL_SUFFIXES then Err BadHandshake else Ok tt.

Section Parse.
Context {V : Type} `{JsonOps V, !JsonTree V}.

Definition is_static_revision_document (doc : V) : bool :=
  match jcase doc with
  | VObj kvs => existsb (fun kv => String.eqb (fst kv) "revision_schema" || String.eqb (fst kv) "static_config") kvs
  | _ => false
  end.

Definition bounded (v : V) (f : string) (min max : Z) : result Z rev_error :=
  match jas_u64 v with
  | Some n => if (min <=? n) && (n <=? max) then Ok n else Err (OutOfBounds f)
  | None => Err (OutOfBounds f)
  end.
Definition mbps (v : V) (f : string) : result Z rev_error := bounded v f 1 MAX_MBPS.

Definition is_ipv6 (ip : IpAddr) : bool := match ip with V6 _ => true | V4 _ => false end.

Fixpoint read_resolvers (items : list V) (ipv6 : bool) (out : list string) : result (list string) rev_error :=
  match items with
  | [] => Ok out
  | item :: rest =>
      match jas_str item with
      | None => Err ResolverNotString
      | Some s =>
          match parse_ip s with
          | None => Err (NotIpLiteral s)
          | Some ip =>
              if negb (Bool.eqb (is_ipv6 ip) ipv6) then Err (WrongFamily s) else
              if negb (PublicResolver.is_public_resolver_address ip) then Err (NotPublic s) else
              if mem (show_ip ip) out then Err (DuplicateResolver s) else
              read_resolvers rest ipv6 (out ++ [show_ip ip])
          end
      end
  end.
Definition resolvers (v : V) (ipv6 : bool) : result (list string) rev_error :=
  match jas_array v with
  | None => Err NotArray
  | Some items =>
      if (MAX_RESOLVERS_PER_FAMILY <? Z.of_nat (length items)) || (negb ipv6 && (length items =? 0)%nat)
      then Err ResolverCount else read_resolvers items ipv6 []
  end.

(** ** The document *)

Definition pair_mem (s f : string) (l : list (string * string)) : bool :=
  existsb (fun e => String.eqb (fst e) s && String.eqb (snd e) f) l.

Fixpoint check_fields (section : string) (fields : list (string * V)) : result unit rev_error :=
  match fields with
  | [] => Ok tt
  | (f, _) :: rest =>
      if pair_mem section f DEFERRED_SECTION_FIELDS then Err (DeferredField section f) else
      if negb (pair_mem section f ALLOWED_FIELDS) then Err (UnknownField section f) else check_fields section rest
  end.

Fixpoint check_sections (sections : list (string * V)) : result unit rev_error :=
  match sections with
  | [] => Ok tt
  | (section, body) :: rest =>
      if mem section FORBIDDEN_TOP_LEVEL_FIELDS then Err (ForbiddenField section) else
      if negb (existsb (fun e => String.eqb (fst e) section) ALLOWED_FIELDS) then Err (UnknownSection section) else
      match jcase body with
      | VObj [] => Err (EmptySection section)
      | VObj fields => let? _ := check_fields section fields in check_sections rest
      | _ => Err (SectionNotObject section)
      end
  end.

(** [Option<T>] by a fallible reader. *)
Definition opt_read {A} (o : option V) (f : V -> result A rev_error) : result (option A) rev_error :=
  match o with None => Ok None | Some v => let? a := f v in Ok (Some a) end.

(** [map.get(section).and_then(Value::as_object)] and a field of it. *)
Definition as_object (v : V) : option V := match jcase v with VObj _ => Some v | _ => None end.
Definition field (static_config : V) (section f : string) : option V :=
  body ← (jget static_config section ≫= as_object); jget body f.

Definition read_handshake (v : V) : result string rev_error :=
  match jas_str v with
  | None => Err HandshakeNotString
  | Some host => let? _ := validate_handshake_server host in Ok host
  end.
Definition is_null (v : V) : bool := match jcase v with VNull => true | _ => false end.
Definition read_mbps (up down : option V) : result (option (option (Z * Z))) rev_error :=
  match up, down with
  | None, None => Ok None
  | Some u, Some d =>
      if is_null u && is_null d then Ok (Some None) else
      let? u := mbps u "up_mbps" in
      let? d := mbps d "down_mbps" in Ok (Some (Some (u, d)))
  | _, _ => Err MbpsTogether
  end.

Definition read_revision (sc : V) : result StaticRevision rev_error :=
  let? host := opt_read (field sc "reality" "handshake_server") read_handshake in
  let? caps := read_mbps (field sc "hysteria2" "up_mbps") (field sc "hysteria2" "down_mbps") in
  let? v4 := opt_read (field sc "udp_probe" "ipv4_resolvers") (fun v => resolvers v false) in
  let? v6 := opt_read (field sc "udp_probe" "ipv6_resolvers") (fun v => resolvers v true) in
  let? r := opt_read (field sc "udp_probe" "retries") (fun v => bounded v "retries" 1 10) in
  let? t := opt_read (field sc "udp_probe" "timeout_ms") (fun v => bounded v "timeout_ms" 100 30000) in
  let? d := opt_read (field sc "udp_probe" "delay_ms") (fun v => bounded v "delay_ms" 0 10000) in
  Ok {| handshake_server := host; hysteria2_mbps := caps; udp_ipv4_resolvers := v4; udp_ipv6_resolvers := v6;
        udp_retries := r; udp_timeout_ms := t; udp_delay_ms := d |}.

Definition top_key (k : string) : bool := String.eqb k "revision_schema" || String.eqb k "static_config".

Definition parse_document (doc : V) : result StaticRevision rev_error :=
  match jcase doc with
  | VObj top =>
      match List.find (fun kv => negb (top_key (fst kv))) top with
      | Some (k, _) => Err (UnknownTopKey k)
      | None =>
          match get_u64 doc "revision_schema" with
          | None => Err MissingSchema
          | Some n =>
              if negb (n =? STATIC_REVISION_SCHEMA) then Err (UnsupportedSchema n) else
              match jget doc "static_config" ≫= as_object with
              | None => Err MissingStaticConfig
              | Some sc =>
                  match jcase sc with
                  | VObj [] => Err EmptyStaticConfig
                  | VObj sections => let? _ := check_sections sections in read_revision sc
                  | _ => Err MissingStaticConfig
                  end
              end
          end
      end
  | _ => Err NotObject
  end.

Context (de : string -> option V).
Definition parse_static_revision (bytes : string) : result StaticRevision rev_error :=
  if MAX_STATIC_REVISION_BYTES <? slen bytes then Err TooLarge else
  match de bytes with None => Err NotJson | Some doc => parse_document doc end.
End Parse.

(** ** What is accepted *)

(** A field of a section. *)
Definition entry {V} `{JsonOps V} (v : V) (s f : string) : option V := sec ← jget v s; jget sec f.

Section ParseProofs.
Context {V : Type} `{JsonOps V, !JsonTree V, !JsonViewLaws V}.

(** A public DNS name. *)
Definition public_name (host : string) : Prop :=
  0 < slen host <= 253 /\ parse_ip host = None /\ (2 <= length (split_on "." host))%nat /\
  Forall (fun l => handshake_label l = true) (split_on "." host) /\
  ~ In (List.last (split_on "." host) EmptyString) LOCAL_SUFFIXES.

(** Resolvers of one family: public, pairwise different. *)
Definition resolvers_ok (ipv6 : bool) (l : list string) : Prop :=
  Z.of_nat (length l) <= MAX_RESOLVERS_PER_FAMILY /\ (ipv6 = false -> l <> []) /\ List.NoDup l /\
  Forall (fun s => exists ip, s = show_ip ip /\ is_ipv6 ip = ipv6 /\ PublicResolver.is_public_resolver_address ip = true) l.

Definition within (lo hi : Z) (o : option Z) : Prop := match o with Some n => lo <= n <= hi | None => True end.

Definition revision_ok (rev : StaticRevision) : Prop :=
  (forall host, handshake_server rev = Some host -> public_name host) /\
  (forall up down, hysteria2_mbps rev = Some (Some (up, down)) -> 1 <= up <= MAX_MBPS /\ 1 <= down <= MAX_MBPS) /\
  (forall l, udp_ipv4_resolvers rev = Some l -> resolvers_ok false l) /\
  (forall l, udp_ipv6_resolvers rev = Some l -> resolvers_ok true l) /\
  within 1 10 (udp_retries rev) /\ within 100 30000 (udp_timeout_ms rev) /\ within 0 10000 (udp_delay_ms rev).

(** The fields a revision sets. *)
Definition sets (rev : StaticRevision) (s f : string) : bool :=
  match s, f with
  | "reality", "handshake_server" => is_some (handshake_server rev)
  | "hysteria2", "up_mbps" | "hysteria2", "down_mbps" => is_some (hysteria2_mbps rev)
  | "udp_probe", "ipv4_resolvers" => is_some (udp_ipv4_resolvers rev)
  | "udp_probe", "ipv6_resolvers" => is_some (udp_ipv6_resolvers rev)
  | "udp_probe", "retries" => is_some (udp_retries rev)
  | "udp_probe", "timeout_ms" => is_some (udp_timeout_ms rev)
  | "udp_probe", "delay_ms" => is_some (udp_delay_ms rev)
  | _, _ => false
  end.

Lemma validate_handshake_public host : validate_handshake_server host = Ok tt -> public_name host.
Proof.
  unfold validate_handshake_server. case_match eqn:E1; [discriminate|]. case_match eqn:E2; [discriminate|]. cbv zeta.
  case_match eqn:E3; [discriminate|]. case_match eqn:E4; [discriminate|]. case_match eqn:E5; [discriminate|].
  case_match eqn:E6; [discriminate|]. intros _.
  apply orb_false_iff in E1 as [E1a E1b], E2 as [E2a E2b]. apply negb_false_iff in E4. apply Contract.mem_false in E6.
  apply Nat.ltb_ge in E3. apply Z.ltb_ge in E1b. split; [|split; [|split; [done|split]]].
  - split; [|done]. destruct host as [|c host]; [discriminate|]. pose proof (slen_nonneg host).
    change (slen (String c host)) with (slen (String c EmptyString +:+ host)). rewrite slen_app. change (slen (String c EmptyString)) with 1. lia.
  - by destruct (parse_ip host).
  - apply List.Forall_forall. by apply forallb_forall.
  - done.
Qed.

Lemma bounded_ok (v : V) f lo hi n : bounded v f lo hi = Ok n -> lo <= n <= hi.
Proof. unfold bounded. destruct (jas_u64 v); [|discriminate]. case_if; [|discriminate]. intros [= <-]. b2p. lia. Qed.

Lemma read_resolvers_ok (items : list V) ipv6 out l :
  read_resolvers items ipv6 out = Ok l -> List.NoDup out ->
  Forall (fun s => exists ip, s = show_ip ip /\ is_ipv6 ip = ipv6 /\ PublicResolver.is_public_resolver_address ip = true) out ->
  List.NoDup l /\ length l = (length out + length items)%nat /\
  Forall (fun s => exists ip, s = show_ip ip /\ is_ipv6 ip = ipv6 /\ PublicResolver.is_public_resolver_address ip = true) l.
Proof.
  revert out. induction items as [|item items IH]; intros out; cbn [read_resolvers].
  { intros [= <-] Hnd Hf. split; [done|]. split; [simpl; lia|done]. }
  destruct (jas_str item) as [s|]; [|discriminate]. destruct (parse_ip s) as [ip|]; [|discriminate].
  destruct (Bool.eqb (is_ipv6 ip) ipv6) eqn:E1; [|discriminate].
  destruct (PublicResolver.is_public_resolver_address ip) eqn:E2; [|discriminate].
  destruct (mem (show_ip ip) out) eqn:E3; [discriminate|]. cbn [negb]. intros E Hnd Hf.
  apply Contract.mem_false in E3. apply Bool.eqb_prop in E1. apply IH in E as (H1 & H2 & H3).
  - split; [done|]. split; [|done]. rewrite H2, length_app. simpl. lia.
  - apply (Permutation.Permutation_NoDup (Permutation.Permutation_cons_append out (show_ip ip))). by constructor.
  - apply Forall_app. split; [done|]. constructor; [|done]. by exists ip.
Qed.

Lemma resolvers_sound (v : V) ipv6 l : resolvers v ipv6 = Ok l -> resolvers_ok ipv6 l.
Proof.
  unfold resolvers. destruct (jas_array v) as [items|]; [|discriminate]. case_if; [discriminate|]. intros E.
  apply orb_false_iff in Heqb as [Hb1 Hb2]. apply Z.ltb_ge in Hb1.
  apply read_resolvers_ok in E as (H1 & H2 & H3); [|constructor|constructor]. simpl in H2.
  split; [lia|]. split; [|done]. intros -> ->. simpl in H2. rewrite <- H2 in Hb2. discriminate.
Qed.

Lemma opt_read_ok {A} (o : option V) (f : V -> result A rev_error) r :
  opt_read o f = Ok r -> is_some r = is_some o /\ forall a, r = Some a -> exists v, o = Some v /\ f v = Ok a.
Proof.
  unfold opt_read. destruct o as [v|]; [|intros [= <-]; done].
  destruct (f v) as [a|] eqn:E; [|discriminate]. simpl. intros [= <-]. split; [done|]. intros b [= ->]. eauto.
Qed.

Lemma read_mbps_ok (up down : option V) m :
  read_mbps up down = Ok m ->
  is_some m = is_some up /\ is_some m = is_some down /\
  forall u d, m = Some (Some (u, d)) -> 1 <= u <= MAX_MBPS /\ 1 <= d <= MAX_MBPS.
Proof.
  unfold read_mbps. destruct up as [u|], down as [d|]; try discriminate; [|intros [= <-]; done].
  case_if; [intros [= <-]; done|]. unfold mbps.
  destruct (bounded u "up_mbps" 1 MAX_MBPS) as [u'|] eqn:Eu; [|discriminate]. simpl.
  destruct (bounded d "down_mbps" 1 MAX_MBPS) as [d'|] eqn:Ed; [|discriminate]. simpl.
  intros [= <-]. split; [done|]. split; [done|]. intros a b [= -> ->]. split; by eapply bounded_ok.
Qed.

Lemma read_revision_ok (sc : V) rev :
  read_revision sc = Ok rev ->
  revision_ok rev /\ forall s f, In (s, f) ALLOWED_FIELDS -> sets rev s f = is_some (field sc s f).
Proof.
  unfold read_revision. intros E. inv_bind.
  repeat match goal with
  | Hb : opt_read _ _ = Ok _ |- _ => apply opt_read_ok in Hb as [? ?]
  | Hb : read_mbps _ _ = Ok _ |- _ => apply read_mbps_ok in Hb as (? & ? & ?)
  end.
  split.
  - unfold revision_ok.
    cbn [handshake_server hysteria2_mbps udp_ipv4_resolvers udp_ipv6_resolvers udp_retries udp_timeout_ms udp_delay_ms].
    assert (Hw : forall o lo hi f, (forall n, o = Some n -> exists v, field sc "udp_probe" f = Some v /\ bounded v f lo hi = Ok n) ->
      within lo hi o).
    { intros o lo hi f Ho. destruct o as [n|]; [|done]. destruct (Ho n eq_refl) as (v & _ & E). by eapply bounded_ok. }
    split; [|split; [done|split; [|split; [|split; [by eapply Hw|split; by eapply Hw]]]]].
    + intros host Hh. match goal with Hr : forall x, a = Some x -> _ |- _ => destruct (Hr _ Hh) as (v & _ & E) end.
      unfold read_handshake in E. destruct (jas_str v); [|discriminate]. inv_bind. destruct a6. by apply validate_handshake_public.
    + intros l Hl. match goal with Hr : forall x, a1 = Some x -> _ |- _ => destruct (Hr _ Hl) as (v & _ & E) end. by eapply resolvers_sound.
    + intros l Hl. match goal with Hr : forall x, a2 = Some x -> _ |- _ => destruct (Hr _ Hl) as (v & _ & E) end. by eapply resolvers_sound.
  - intros s f Hin. repeat (destruct Hin as [[= <- <-]|Hin]; [done|]). destruct Hin.
Qed.

Lemma pair_mem_In s f l : pair_mem s f l = true <-> In (s, f) l.
Proof.
  unfold pair_mem. rewrite existsb_exists. split.
  - intros ([x y] & Hin & Hb). simpl in Hb. apply andb_prop in Hb as [H1 H2]. apply String.eqb_eq in H1 as ->, H2 as ->. done.
  - intros Hin. exists (s, f). simpl. by rewrite !String.eqb_refl.
Qed.

Lemma check_fields_ok section (fields : list (string * V)) :
  check_fields section fields = Ok tt -> forall f v, In (f, v) fields -> In (section, f) ALLOWED_FIELDS.
Proof.
  induction fields as [|[g x] fields IH]; [by intros _ f v []|]. cbn [check_fields]. case_if; [discriminate|]. case_if; [discriminate|].
  intros E f v [[= -> ->]|Hin]; [|by eapply IH]. apply negb_false_iff in Heqb0. by apply pair_mem_In.
Qed.

Lemma check_sections_ok (l : list (string * V)) :
  check_sections l = Ok tt -> forall s body, In (s, body) l ->
  exists kv fields, jcase body = VObj (kv :: fields) /\ forall f v, In (f, v) (kv :: fields) -> In (s, f) ALLOWED_FIELDS.
Proof.
  induction l as [|[s0 b0] l IH]; [by intros _ s b []|]. cbn [check_sections]. case_if; [discriminate|]. case_if; [discriminate|].
  destruct (jcase b0) as [| | | | |[|kv fields]] eqn:Eb; try discriminate. intros E. inv_bind. destruct a.
  intros s body [[= -> ->]|Hin]; [|by eapply IH]. exists kv, fields. split; [done|]. by apply check_fields_ok.
Qed.

Lemma assoc_In {A} k (l : list (string * A)) x : assoc k l = Some x -> In (k, x) l.
Proof.
  unfold assoc. destruct (List.find _ l) as [[k' y]|] eqn:E; [|discriminate]. intros [= <-]. apply List.find_some in E as [Hin E].
  simpl in E. by apply String.eqb_eq in E as ->.
Qed.

Lemma field_entry (sc : V) s f : field sc s f = entry sc s f.
Proof.
  unfold field, entry. destruct (jget sc s) as [b|] eqn:E; [|done]. simpl. unfold as_object.
  destruct (jcase b) eqn:Eb; try (rewrite view_other; [done|congruence]). done.
Qed.

(** What [parse_static_revision] accepts is exactly allowlisted.  The
    document is at most 16 KiB of JSON of schema 1 with no other top-level
    key; every field it holds in any section is in the allowlist (in
    particular no identity, role or port field), at least one is present, the
    parsed revision sets exactly the fields present, and every value is within
    policy: a public DNS name, caps from 1 to 100000 Mbps given together, at
    most eight pairwise different public resolvers of the right family, and
    bounded probe timings. *)
Theorem parse_static_revision_sound (de : string -> option V) bytes rev :
  parse_static_revision de bytes = Ok rev ->
  slen bytes <= MAX_STATIC_REVISION_BYTES /\ revision_ok rev /\
  exists doc sc, de bytes = Some doc /\ get_u64 doc "revision_schema" = Some STATIC_REVISION_SCHEMA /\
    jget doc "static_config" = Some sc /\
    (forall k x, jget doc k = Some x -> k = "revision_schema" \/ k = "static_config") /\
    (forall s f x, entry sc s f = Some x -> In (s, f) ALLOWED_FIELDS) /\
    (forall s f, In (s, f) ALLOWED_FIELDS -> sets rev s f = is_some (entry sc s f)) /\
    (exists s f, In (s, f) ALLOWED_FIELDS /\ sets rev s f = true).
Proof.
  unfold parse_static_revision. case_if; [discriminate|]. apply Z.ltb_ge in Heqb.
  destruct (de bytes) as [doc|] eqn:Ed; [|discriminate]. unfold parse_document.
  destruct (jcase doc) as [| | | | |top] eqn:Et; try discriminate.
  destruct (List.find _ top) as [[k v]|] eqn:Ef; [discriminate|].
  destruct (get_u64 doc "revision_schema") as [n|] eqn:En; [|discriminate]. case_if; [discriminate|].
  apply negb_false_iff, Z.eqb_eq in Heqb0 as ->.
  destruct (jget doc "static_config") as [sc|] eqn:Es; [|discriminate]. cbn [mbind option_bind]. unfold as_object.
  destruct (jcase sc) as [| | | | |[|[s0 b0] secs]] eqn:Ec; try discriminate; rewrite Ec; [discriminate|].
  destruct (check_sections ((s0, b0) :: secs)) as [[]|] eqn:Eck; [|discriminate]. cbn [result_bind]. intros E.
  apply read_revision_ok in E as [Hok Hsets].
  pose proof (check_sections_ok _ Eck) as Hsec. split; [done|]. split; [done|]. exists doc, sc. do 3 (split; [done|]). split; [|split; [|split]].
  - intros k x Hk. rewrite (view_obj _ _ _ Et) in Hk. apply assoc_In in Hk. apply (List.find_none _ _ Ef) in Hk. simpl in Hk.
    apply negb_false_iff, orb_true_iff in Hk as [Hk|Hk]; apply String.eqb_eq in Hk; auto.
  - intros s f x He. unfold entry in He. destruct (jget sc s) as [b|] eqn:Eb; [|discriminate]. simpl in He.
    rewrite (view_obj _ _ _ Ec) in Eb. apply assoc_In in Eb. destruct (Hsec _ _ Eb) as (kv & fields & Hb & Hf).
    rewrite (view_obj _ _ _ Hb) in He. apply assoc_In in He. by eapply Hf.
  - intros s f Hin. by rewrite Hsets, field_entry.
  - destruct (Hsec s0 b0 (or_introl eq_refl)) as ([f x] & fields & Hb & Hf). exists s0, f.
    assert (Hin : In (s0, f) ALLOWED_FIELDS) by (apply (Hf f x); by left). split; [done|].
    rewrite Hsets, field_entry by done. unfold entry. rewrite (view_obj _ _ s0 Ec). unfold assoc. cbn [List.find fst]. rewrite String.eqb_refl.
    cbn [option_map mbind option_bind snd]. rewrite (view_obj _ _ f Hb). unfold assoc. cbn [List.find fst]. by rewrite String.eqb_refl.
Qed.
End ParseProofs.

(** ** The candidate *)

Inductive toml :=
| TString (s : string)
| TInteger (z : Z)
| TArray (l : list toml)
| TTable (t : list (string * toml))
| TOther (text : string).

Definition section_mut (table : list (string * toml)) (k : string) (f : list (string * toml) -> list (string * toml))
  : result (list (string * toml)) rev_error :=
  match assoc k table with
  | None => Ok (btree_insert k (TTable (f [])) table)
  | Some (TTable t) => Ok (btree_insert k (TTable (f t)) table)
  | Some _ => Err (NotTable k)
  end.

Definition strings (l : list string) : toml := TArray (map TString l).
Definition insert_opt {A} (k : string) (o : option A) (f : A -> toml) (t : list (string * toml)) : list (string * toml) :=
  match o with Some a => btree_insert k (f a) t | None => t end.
Definition patch_udp (rev : StaticRevision) (t : list (string * toml)) : list (string * toml) :=
  insert_opt "delay_ms" (udp_delay_ms rev) TInteger
    (insert_opt "timeout_ms" (udp_timeout_ms rev) TInteger
      (insert_opt "retries" (udp_retries rev) TInteger
        (insert_opt "ipv6_resolvers" (udp_ipv6_resolvers rev) strings
          (insert_opt "ipv4_resolvers" (udp_ipv4_resolvers rev) strings t)))).
Definition patch_mbps (m : option (Z * Z)) (t : list (string * toml)) : list (string * toml) :=
  match m with
  | Some (up, down) => btree_insert "down_mbps" (TInteger down) (btree_insert "up_mbps" (TInteger up) t)
  | None => btree_remove "down_mbps" (btree_remove "up_mbps" t)
  end.
Definition touches_udp (rev : StaticRevision) : bool :=
  is_some (udp_ipv4_resolvers rev) || is_some (udp_ipv6_resolvers rev) || is_some (udp_retries rev)
  || is_some (udp_timeout_ms rev) || is_some (udp_delay_ms rev).

Definition patch (rev : StaticRevision) (table : list (string * toml)) : result (list (string * toml)) rev_error :=
  let? table := match handshake_server rev with
                | Some host => section_mut table "reality" (btree_insert "handshake_server" (TString host))
                | None => Ok table
                end in
  let? table := match hysteria2_mbps rev with
                | Some m => section_mut table "hysteria2" (patch_mbps m)
                | None => Ok table
                end in
  if touches_udp rev then section_mut table "udp_probe" (patch_udp rev) else Ok table.

Inductive StaticRevisionPlan := Unchanged | Changed (candidate_text : string) (candidate : Deployment.DeploymentConfig).

Section Plan.
Context {V : Type} `{JsonOps V, !JsonTree V, !JsonEq V}.
Context (b64_decode : string -> option (list Z)).
(** [toml::from_str] at the two types, [toml::to_string], and
    [serde_json::to_value]. *)
Context (toml_config : string -> option Deployment.DeploymentConfig) (toml_table : string -> option (list (string * toml)))
  (toml_print : list (string * toml) -> option string) (normalized : Deployment.DeploymentConfig -> V).

Definition strip_field (v : V) (sf : string * string) : V :=
  match jget v (fst sf) with
  | None => v
  | Some sec =>
      if is_null sec then jremove v (fst sf) else
      match as_object sec with Some o => jset v (fst sf) (jremove o (snd sf)) | None => v end
  end.
Definition strip_allowlisted (v : V) : V :=
  match jcase v with
  | VObj _ =>
      let v := fold_left strip_field ALLOWED_FIELDS v in
      match jget v "udp_probe" with
      | Some o => match jcase o with VObj [] => jremove v "udp_probe" | _ => v end
      | None => v
      end
  | _ => v
  end.

Definition plan_static_revision (original_text : string) (rev : StaticRevision) : result StaticRevisionPlan rev_error :=
  let? original := ok_or (toml_config original_text) CurrentUnparsable in
  let? _ := map_err CurrentInvalid (Deployment.validate b64_decode original) in
  let? table := ok_or (toml_table original_text) CurrentUnparsable in
  let? table := patch rev table in
  let? candidate_text := ok_or (toml_print table) Unprintable in
  let? candidate := ok_or (toml_config candidate_text) CandidateUnparsable in
  let? _ := map_err CandidateInvalid (Deployment.validate b64_decode candidate) in
  if jeqb (normalized original) (normalized candidate) then Ok Unchanged else
  if negb (jeqb (strip_allowlisted (normalized original)) (strip_allowlisted (normalized candidate)))
  then Err OutsideAllowlist else Ok (Changed candidate_text candidate).

(** ** Nothing outside the allowlist changes *)

Context `{!JsonViewLaws V, !JsonEqLaws V}.

Definition is_object (v : V) : Prop := exists kvs, jcase v = VObj kvs.
Definition sections : list string := ["reality"; "hysteria2"; "udp_probe"].

Lemma not_object_get (v : V) k : ~ is_object v -> jget v k = None.
Proof. intros Hn. apply view_other. intros kvs E. apply Hn. by exists kvs. Qed.

Lemma as_object_spec (v : V) : as_object v = Some v /\ is_object v \/ as_object v = None /\ ~ is_object v.
Proof.
  unfold as_object, is_object. destruct (jcase v) eqn:E; try (right; split; [done|]; intros [kvs E2]; congruence).
  left. eauto.
Qed.

(** What one removal keeps. *)
Definition keeps (P : string -> string -> Prop) (v v' : V) : Prop :=
  is_object v' /\ (forall k, ~ In k sections -> jget v' k = jget v k) /\
  (forall s f, P s f -> entry v' s f = entry v s f).

Lemma strip_field_keeps v sf :
  is_object v -> In (fst sf) sections -> keeps (fun s f => (s, f) <> sf) v (strip_field v sf).
Proof.
  intros [kvs Ho] Hs. destruct sf as [s0 f0]. simpl in Hs. unfold strip_field. simpl.
  assert (Hself : keeps (fun s f => (s, f) <> (s0, f0)) v v) by (split; [by exists kvs|]; split; done).
  destruct (jget v s0) as [sec|] eqn:Esec; [|done].
  destruct (is_null sec) eqn:En.
  - assert (Hnone : forall f, jget sec f = None).
    { intros f. apply view_other. intros k Ek. unfold is_null in En. by rewrite Ek in En. }
    split; [by eapply jremove_object|]. split.
    + intros k Hk. rewrite (view_jremove _ _ _ _ Ho). destruct (String.eqb s0 k) eqn:E; [|done]. by apply String.eqb_eq in E as <-.
    + intros s f _. unfold entry. rewrite (view_jremove _ _ _ _ Ho). destruct (String.eqb s0 s) eqn:E; [|done].
      apply String.eqb_eq in E as <-. rewrite Esec. simpl. by rewrite Hnone.
  - destruct (as_object_spec sec) as [[-> [skvs Hsec]]|[-> Hn]]; [|done].
    split; [by eapply jset_object|]. split.
    + intros k Hk. rewrite (view_jset _ _ _ _ _ Ho). destruct (String.eqb s0 k) eqn:E; [|done]. by apply String.eqb_eq in E as <-.
    + intros s f Hne. unfold entry. rewrite (view_jset _ _ _ _ _ Ho). destruct (String.eqb s0 s) eqn:E; [|done].
      apply String.eqb_eq in E as <-. rewrite Esec. simpl. rewrite (view_jremove _ _ _ _ Hsec).
      destruct (String.eqb f0 f) eqn:Ef; [|done]. apply String.eqb_eq in Ef as <-. by destruct Hne.
Qed.

Lemma keeps_trans P Q (v1 v2 v3 : V) : keeps P v1 v2 -> keeps Q v2 v3 -> keeps (fun s f => P s f /\ Q s f) v1 v3.
Proof.
  intros (_ & H1 & H2) (Ho & H3 & H4). split; [done|]. split.
  - intros k Hk. by rewrite H3, H1.
  - intros s f [HP HQ]. by rewrite H4, H2.
Qed.

Lemma strip_fields_keep l v :
  is_object v -> (forall sf, In sf l -> In (fst sf) sections) ->
  keeps (fun s f => ~ In (s, f) l) v (fold_left strip_field l v).
Proof.
  revert v. induction l as [|sf l IH]; intros v Ho Hs; simpl; [by split; [|split]|].
  pose proof (strip_field_keeps v sf Ho (Hs sf (or_introl eq_refl))) as H1.
  pose proof (IH (strip_field v sf) (proj1 H1) (fun x Hx => Hs x (or_intror Hx))) as H2.
  destruct (keeps_trans _ _ _ _ _ H1 H2) as (K1 & K2 & K3). split; [done|]. split; [done|].
  intros s f Hn. apply K3. split; [intros E; apply Hn; by left|intros E; apply Hn; by right].
Qed.

Lemma allowed_sections sf : In sf ALLOWED_FIELDS -> In (fst sf) sections.
Proof.
  intros Hin. repeat (destruct Hin as [<-|Hin]; [simpl; tauto|]). destruct Hin.
Qed.

Lemma strip_keeps v : is_object v -> keeps (fun s f => ~ In (s, f) ALLOWED_FIELDS) v (strip_allowlisted v).
Proof.
  intros Ho. pose proof (strip_fields_keep ALLOWED_FIELDS v Ho allowed_sections) as Hk. unfold strip_allowlisted.
  destruct Ho as [kvs Ho]. rewrite Ho. cbv zeta. set (w := fold_left strip_field ALLOWED_FIELDS v) in *.
  destruct (jget w "udp_probe") as [o|] eqn:Eu; [|done]. destruct (jcase o) as [| | | | |[|kv l]] eqn:Eo; try done.
  destruct Hk as ([wk Hw] & H1 & H2). split; [by eapply jremove_object|]. split.
  - intros k Hn. rewrite (view_jremove _ _ _ _ Hw). destruct (String.eqb "udp_probe" k) eqn:E; [|by apply H1].
    apply String.eqb_eq in E as <-. destruct Hn. simpl. tauto.
  - intros s f Hn. rewrite <- (H2 _ _ Hn). unfold entry. rewrite (view_jremove _ _ _ _ Hw).
    destruct (String.eqb "udp_probe" s) eqn:E; [|done]. apply String.eqb_eq in E as <-. rewrite Eu. simpl.
    by rewrite (view_obj _ _ _ Eo).
Qed.

Lemma plan_changed_spec original_text rev original text candidate :
  toml_config original_text = Some original ->
  is_object (normalized original) -> is_object (normalized candidate) ->
  plan_static_revision original_text rev = Ok (Changed text candidate) ->
  Deployment.validate b64_decode candidate = Ok tt /\ toml_config text = Some candidate /\
  normalized candidate <> normalized original /\
  (forall k, ~ In k sections -> jget (normalized candidate) k = jget (normalized original) k) /\
  (forall k, In k FORBIDDEN_TOP_LEVEL_FIELDS -> jget (normalized candidate) k = jget (normalized original) k) /\
  (forall s f, ~ In (s, f) ALLOWED_FIELDS -> entry (normalized candidate) s f = entry (normalized original) s f).
Proof.
  intros Ho Hoo Hoc. unfold plan_static_revision. rewrite Ho. simpl.
  destruct (Deployment.validate b64_decode original); [|discriminate]. simpl.
  destruct (toml_table original_text) as [table|]; [|discriminate]. simpl.
  destruct (patch rev table) as [table'|]; [|discriminate]. simpl.
  destruct (toml_print table') as [ct|]; [|discriminate]. simpl.
  destruct (toml_config ct) as [c|] eqn:Ec; [|discriminate]. simpl.
  destruct (Deployment.validate b64_decode c) as [[]|] eqn:Ev; [|discriminate]. simpl.
  destruct (jeqb (normalized original) (normalized c)) eqn:E1; [discriminate|].
  destruct (jeqb (strip_allowlisted _) _) eqn:E2; [|discriminate]. intros [= -> ->]. apply jeqb_spec in E2.
  destruct (strip_keeps _ Hoo) as (_ & A1 & A2), (strip_keeps _ Hoc) as (_ & B1 & B2). rewrite <- E2 in B1, B2.
  assert (Htop : forall k, ~ In k sections -> jget (normalized candidate) k = jget (normalized original) k)
    by (intros k Hk; rewrite <- A1, <- B1; done).
  split; [done|]. split; [done|]. split.
  { intros E. apply not_true_iff_false in E1. apply E1, jeqb_spec. done. }
  split; [done|]. split.
  - intros k Hk. apply Htop. intros Hs. revert Hk. simpl in Hs. repeat (destruct Hs as [<-|Hs]; [simpl; intuition discriminate|]).
    destruct Hs.
  - intros s f Hn. by rewrite <- A2, <- B2.
Qed.

(** C16: A planned revision changes nothing outside the allowlist.  The
    candidate is a valid deployment that differs from the current one; every
    top-level setting other than the three sections is the same, in
    particular every identity, role, trust-root and path field, and inside
    the sections every field that is not allowlisted (the ports) is the same;
    whatever the TOML crate printed and reread. *)
Theorem plan_stays_inside_allowlist original_text rev original text candidate :
  toml_config original_text = Some original ->
  is_object (normalized original) -> is_object (normalized candidate) ->
  plan_static_revision original_text rev = Ok (Changed text candidate) ->
  Deployment.validate b64_decode candidate = Ok tt /\ toml_config text = Some candidate /\
  normalized candidate <> normalized original /\
  (forall k, ~ In k sections -> jget (normalized candidate) k = jget (normalized original) k) /\
  (forall k, In k FORBIDDEN_TOP_LEVEL_FIELDS -> jget (normalized candidate) k = jget (normalized original) k) /\
  (forall s f, ~ In (s, f) ALLOWED_FIELDS -> entry (normalized candidate) s f = entry (normalized original) s f).
Proof. apply plan_changed_spec. Qed.
End Plan.

(** ** Witnesses *)

Definition ex_doc : json :=
  JObj [("revision_schema", JNum 1);
        ("static_config", JObj [("reality", JObj [("handshake_server", JStr "www.example.com")]);
                                ("udp_probe", JObj [("ipv4_resolvers", JArr [JStr "1.1.1.1"]); ("retries", JNum 2)])])].

Lemma parse_static_revision_sound_witness :
  exists rev, parse_static_revision (fun _ => Some ex_doc) "{}" = Ok rev /\ revision_ok rev /\ sets rev "udp_probe" "retries" = true.
Proof.
  destruct (parse_static_revision (fun _ => Some ex_doc) "{}") as [rev|e] eqn:E; [|vm_compute in E; discriminate E].
  destruct (parse_static_revision_sound _ _ _ E) as (_ & Hok & doc & sc & [= <-] & _ & Hsc & _ & _ & Hs & _).
  exists rev. split; [reflexivity|]. split; [exact Hok|]. vm_compute in Hsc. injection Hsc as <-.
  rewrite (Hs "udp_probe" "retries"); [reflexivity|]. simpl. tauto.
Defined.

(** A reader that knows two texts. *)
Definition with_handshake (d : Deployment.DeploymentConfig) (host : string) : Deployment.DeploymentConfig :=
  Deployment.Build_DeploymentConfig (Deployment.schema_version d) (Deployment.node_id d) (Deployment.role d) (Deployment.public_host d)
    (Deployment.subscription_host d)
    {| Deployment.re_listen_port := 443; Deployment.re_handshake_server := host; Deployment.re_handshake_port := 443 |}
    (Deployment.hysteria2 d) (Deployment.subscription d) (Deployment.udp_probe d) (Deployment.state_dir d) (Deployment.singbox_binary d)
    (Deployment.access_paths d) (Deployment.peer_endpoints d) (Deployment.google_egress_hairpin d) (Deployment.egress d)
    (Deployment.google_egress_tls_spoof d) (Deployment.exit_principals d) (Deployment.public_ipv4 d) (Deployment.public_ipv6 d).
Definition ex_toml_config (text : string) : option Deployment.DeploymentConfig :=
  if String.eqb text "old" then Some Deployment.ex_relay else if String.eqb text "new" then Some (with_handshake Deployment.ex_relay "www.example.org") else None.
Definition ex_normalized (d : Deployment.DeploymentConfig) : json :=
  JObj [("node_id", JStr (Deployment.node_id d));
        ("reality", JObj [("listen_port", JNum (Deployment.re_listen_port (Deployment.reality d)));
                          ("handshake_server", JStr (Deployment.re_handshake_server (Deployment.reality d)))])].
Definition ex_rev : StaticRevision :=
  {| handshake_server := Some "www.example.org"; hysteria2_mbps := None; udp_ipv4_resolvers := None; udp_ipv6_resolvers := None;
     udp_retries := None; udp_timeout_ms := None; udp_delay_ms := None |}.

Lemma plan_stays_inside_allowlist_witness :
  exists candidate, plan_static_revision Deployment.ex_key ex_toml_config (fun _ => Some []) (fun _ => Some "new") ex_normalized "old" ex_rev
      = Ok (Changed "new" candidate) /\
    entry (ex_normalized candidate) "reality" "listen_port" = Some (JNum 443).
Proof.
  eexists. split; [vm_compute; reflexivity|].
  destruct (plan_stays_inside_allowlist (V := json) Deployment.ex_key ex_toml_config (fun _ => Some []) (fun _ => Some "new") ex_normalized
    "old" ex_rev Deployment.ex_relay "new" (with_handshake Deployment.ex_relay "www.example.org") eq_refl ltac:(eexists; reflexivity) ltac:(eexists; reflexivity)
    ltac:(vm_compute; reflexivity)) as (_ & _ & _ & _ & _ & He).
  exact (He "reality" "listen_port" ltac:(vm_compute; intuition discriminate)).
Defined.
End StaticRevision.
