(* ===== verification/Server.v ===== *)
(** * crates/compat-config/src/server.rs: the sing-box server configuration

    The role-aware renderer of a node's configuration (inbounds with the
    authorized credentials, route rules by role), and the checks [vpn-admin
    doctor] makes of a rendered document.  JSON values are those of [Json.v];
    [config["route"]["rules"] = x] is [set_route]. *)

From S2P Require Import Prelude Strs Net NetText AddressPolicy Authorization Credentials Grants Json Contract.
From S2P Require Import Render Deployment.
From Stdlib Require Import Ascii.

Module Server.
Import Contract Render Deployment.

(** ** Parameters (model.rs) *)

Record RealityServerParams := {
  private_key_hex : string;
  public_key_hex : string;
  short_ids : list string;
  handshake_server : string;
  handshake_port : Z;
  google_egress_hairpin_uuid : option string }.

Record Hysteria2ServerParams := {
  tls_cert_path : string;
  tls_key_path : string;
  obfs_password : option string;
  masquerade_dir_path : option string;
  hp_up_mbps : option Z;
  hp_down_mbps : option Z }.

Record ServerPorts := { vless_reality_port : Z; hysteria2_port : Z }.

Definition for_deployment (d : DeploymentConfig) : ServerPorts :=
  {| vless_reality_port := re_listen_port (reality d); hysteria2_port := hy_listen_port (hysteria2 d) |}.

Definition C16_DENY_IPV4_TEXT : list string :=
  ["0.0.0.0/8"; "10.0.0.0/8"; "100.64.0.0/10"; "127.0.0.0/8"; "169.254.0.0/16"; "172.16.0.0/12"; "192.0.0.0/24";
   "192.0.2.0/24"; "192.168.0.0/16"; "198.18.0.0/15"; "198.51.100.0/24"; "203.0.113.0/24"; "224.0.0.0/4";
   "240.0.0.0/4"].
Definition C16_DENY_IPV6_TEXT : list string :=
  ["::/128"; "::1/128"; "::ffff:0:0/96"; "64:ff9b::/96"; "100::/64"; "2001:db8::/32"; "fc00::/7"; "fe80::/10";
   "ff00::/8"; "fd00:ec2::254/128"].
Definition C16_DENY_TCP_PORT : Z := 25.
Definition PROBE_ALLOWED_IP_CIDRS : list string := ["1.1.1.1/32"].
Definition PROBE_ALLOWED_DOMAINS : list string := ["www.gstatic.com"; "ipv6.icanhazip.com"].
Definition PROBE_ALLOWED_PORT : Z := 443.

(** A CIDR block as written in a rule. *)
Definition parse_cidr (s : string) : option (IpAddr * Z) :=
  match split_on "/" s with
  | [a; l] => match parse_ip a, read_digits 10 128 3 0 0 l with
              | Some ip, Some (len, _, EmptyString) => Some (ip, len)
              | _, _ => None
              end
  | _ => None
  end.

(** The strings denote the blocks of the C-16 tables. *)
Example c16_text_denotes_blocks :
  map parse_cidr C16_DENY_IPV4_TEXT = map (fun b => Some (V4 (fst b), snd b)) C16.C16_DENY_IPV4_CIDRS /\
  map parse_cidr C16_DENY_IPV6_TEXT = map (fun b => Some (V6 (fst b), snd b)) C16.C16_DENY_IPV6_CIDRS.
Proof. vm_compute. done. Qed.

Inductive server_error :=
| InvalidDeployment (e : deploy_error)
| InvalidAuthorizations (e : Authz.auth_error)
| RelayWithoutInbounds.

(** ** Principals *)

Definition probe_users (users : list Grants.CompatUser) (now : Z) : list Grants.CompatUser :=
  List.filter (fun u => Grants.is_active u now && Grants.is_reserved_probe u) users.
Definition probe_principals (users : list Grants.CompatUser) (now : Z) : list string :=
  flat_map (fun u => Grants.active_principal_ids u now) (probe_users users now).

Definition hairpin_principals (users : list Grants.CompatUser) (now : Z) : list string :=
  flat_map (fun u => Grants.active_principal_ids u now)
    (List.filter (fun u => Grants.is_active u now && Grants.google_egress_hairpin u) users).

Definition exit_principal_ids (d : DeploymentConfig) (users : list Grants.CompatUser) (now : Z) : list string :=
  if negb (exit_principals_enabled d) then [] else
  flat_map (fun u => Grants.active_principal_ids u now)
    (List.filter (fun u => Grants.is_active u now && Grants.exit_principal u
                           && negb (Grants.google_egress_hairpin u) && negb (Grants.is_reserved_probe u)) users).

(** The persisted users as an authorization set. *)
Definition projected_authorization (user : Grants.CompatUser) : Authz.Authorization :=
  {| Authz.principal_id := Grants.name user; Authz.credential_id := Grants.id user;
     Authz.class := if starts_with "native_" (Grants.name user) then Authz.Native else Authz.Compatibility;
     Authz.valid_from := Grants.created_at user;
     Authz.valid_until := unwrap_or (Grants.expires_at user) i64_max;
     Authz.revoked := negb (Grants.enabled user);
     Authz.vless_uuid := Some (Grants.u_vless_uuid user);
     Authz.hysteria2_password := Some (Grants.u_hysteria2_password user) |}.
Definition projected (users : list Grants.CompatUser) : Authz.AuthorizationSet :=
  map projected_authorization (List.filter (fun u => starts_with "cred_" (Grants.id u)) users).

(** One entry per authorized grant of an active user. *)
Definition authorized_grants (users : list Grants.CompatUser) (now : Z)
  : list (Grants.CompatUser * Grants.CredentialGrant) :=
  flat_map (fun u => map (fun g => (u, g))
      (List.filter (fun g => Grants.grant_is_authorized g now) (Grants.effective_grants u)))
    (List.filter (fun u => Grants.is_active u now) users).

(** ** The document *)

Section Document.
Context {V : Type} `{JsonOps V, !JsonTree V}.

Definition opt_member (k : string) (o : option V) (v : V) : V :=
  match o with Some x => jset v k x | None => v end.

Definition server_log_options : V := jobj [("level", jstr "fatal"); ("timestamp", jbool true)].

Definition vless_user (ug : Grants.CompatUser * Grants.CredentialGrant) : V :=
  jobj [("name", jstr (Grants.principal_id (snd ug))); ("uuid", jstr (Grants.vless_uuid (snd ug)));
        ("flow", jstr (if Grants.vision_off_experiment (fst ug) then "" else "xtls-rprx-vision"))].
Definition hysteria_user (ug : Grants.CompatUser * Grants.CredentialGrant) : V :=
  jobj [("name", jstr (Grants.principal_id (snd ug))); ("password", jstr (Grants.hysteria2_password (snd ug)))].

Definition hysteria_inbound (users : list Grants.CompatUser) (hysteria : Hysteria2ServerParams) (port now : Z) : V :=
  let base := jobj [("type", jstr "hysteria2"); ("tag", jstr "hysteria2-in"); ("listen", jstr "::");
    ("listen_port", jint port); ("users", jarr (map hysteria_user (authorized_grants users now)));
    ("tls", jobj [("enabled", jbool true); ("certificate_path", jstr (tls_cert_path hysteria));
                  ("key_path", jstr (tls_key_path hysteria))])] in
  let v := opt_member "masquerade" (option_map (fun d => jobj [("type", jstr "file"); ("directory", jstr d)])
                                      (masquerade_dir_path hysteria)) base in
  let v := opt_member "obfs" (option_map (fun p => jobj [("type", jstr "salamander"); ("password", jstr p)])
                                (obfs_password hysteria)) v in
  match hp_up_mbps hysteria, hp_down_mbps hysteria with
  | Some up, Some down => jset (jset v "up_mbps" (jint up)) "down_mbps" (jint down)
  | _, _ => jset v "ignore_client_bandwidth" (jbool true)
  end.

Definition vless_inbound (users : list Grants.CompatUser) (r : RealityServerParams) (port now : Z) : V :=
  jobj [("type", jstr "vless"); ("tag", jstr "vless-reality-in"); ("listen", jstr "::"); ("listen_port", jint port);
    ("users", jarr (map vless_user (authorized_grants users now)));
    ("tls", jobj [("enabled", jbool true); ("server_name", jstr (handshake_server r));
       ("reality", jobj [("enabled", jbool true);
          ("handshake", jobj [("server", jstr (handshake_server r)); ("server_port", jint (handshake_port r))]);
          ("private_key", jstr (private_key_hex r)); ("short_id", jstrs (short_ids r))])]);
    ("multiplex", jobj [("enabled", jbool true)])].

Definition render_singbox_server_config (users : list Grants.CompatUser) (r : RealityServerParams)
  (hysteria : Hysteria2ServerParams) (ports : ServerPorts) (now : Z) : V :=
  jobj [("log", server_log_options);
        ("inbounds", jarr [vless_inbound users r (vless_reality_port ports) now;
                           hysteria_inbound users hysteria (hysteria2_port ports) now]);
        ("outbounds", jarr [jobj [("type", jstr "direct"); ("tag", jstr "direct")]])].

(** ** The route section *)

Definition is_object (v : V) : bool := match jcase v with VObj _ => true | _ => false end.

Definition route_of (config : V) : V :=
  match jget config "route" with Some r => if is_object r then r else jobj [] | None => jobj [] end.
(** [config["route"]["rules"].as_array()]. *)
Definition rules_of (config : V) : option (list V) :=
  match jget config "route" with Some r => get_array r "rules" | None => None end.
Definition existing_rules (config : V) : list V := unwrap_or (rules_of config) [].
(** [config["route"][k] = x]. *)
Definition set_route (config : V) (k : string) (x : V) : V :=
  jset config "route" (jset (route_of config) k x).

Definition inbounds_of (config : V) : option (list V) := get_array config "inbounds".

Definition all_inbound_tags (config : V) : option (list string) :=
  match inbounds_of config with
  | None => None
  | Some inbounds =>
      match omap (fun i => get_str i "tag") inbounds with [] => None | tags => Some tags end
  end.

(** *** C-16 *)

Definition reject_fields : list (string * V) := [("action", jstr "reject"); ("method", jstr "default")].
Definition route_direct_fields : list (string * V) := [("action", jstr "route"); ("outbound", jstr "direct")].

Definition c16_egress_deny_rules (all_inbounds : list string) : list V :=
  [jobj [("inbound", jstrs all_inbounds); ("action", jstr "resolve")];
   jobj ([("inbound", jstrs all_inbounds); ("ip_cidr", jstrs C16_DENY_IPV4_TEXT)] ++ reject_fields);
   jobj ([("inbound", jstrs all_inbounds); ("ip_cidr", jstrs C16_DENY_IPV6_TEXT)] ++ reject_fields);
   jobj ([("inbound", jstrs all_inbounds); ("network", jstr "tcp"); ("port", jint C16_DENY_TCP_PORT)] ++ reject_fields)].

Definition host_prefix (ip : IpAddr) : Z := match ip with V4 _ => 32 | V6 _ => 128 end.

(** [filter(!is_empty).and_then(parse)]. *)
Definition own_ip (o : option string) : option IpAddr :=
  match o with Some EmptyString | None => None | Some s => parse_ip s end.

Definition own_address_deny_rule (all_inbounds : list string) (host ipv4 ipv6 : option string) : option V :=
  match omap own_ip [host; ipv4; ipv6] with
  | [] => None
  | ips => Some (jobj ([("inbound", jstrs all_inbounds);
                        ("ip_cidr", jstrs (map (fun ip => show_cidr ip (host_prefix ip)) ips))] ++ reject_fields))
  end.

Definition own_rule (d : DeploymentConfig) (tags : list string) : list V :=
  option_list (own_address_deny_rule tags (Some (public_host d)) (public_ipv4 d) (public_ipv6 d)).

Definition has_key (k : string) (v : V) : bool := match jget v k with Some _ => true | None => false end.

Fixpoint take_while_count {A} (f : A -> bool) (l : list A) : nat :=
  match l with x :: l' => if f x then S (take_while_count f l') else O | [] => O end.
(** [rules.insert(at + offset, rule)] for each new rule in turn. *)
Definition insert_all {A} (at_ : nat) (new l : list A) : list A := firstn at_ l ++ new ++ skipn at_ l.

Definition insert_after_identity_scoped_rules (config : V) (new_rules : list V) : V :=
  let existing := existing_rules config in
  let insert_at := take_while_count (has_key "auth_user") existing in
  let config := set_route config "rules" (jarr (insert_all insert_at new_rules existing)) in
  set_route config "final" (jstr "direct").

Definition apply_c16_egress_policy (config : V) (d : DeploymentConfig) : V :=
  match all_inbound_tags config with
  | None => config
  | Some tags => insert_after_identity_scoped_rules config (c16_egress_deny_rules tags ++ own_rule d tags)
  end.

(** *** Probe principals *)

Definition selftest_exception (d : DeploymentConfig) (ids : list string) : list (string * V) :=
  [("auth_user", jstrs ids); ("network", jstr "tcp"); ("ip_cidr", jstrs ["127.0.0.1/32"]);
   ("port", jint (su_listen_port (subscription d)))] ++ route_direct_fields.

Definition apply_exit_loopback_selftest_exception (config : V) (d : DeploymentConfig)
  (users : list Grants.CompatUser) (now : Z) : V :=
  match probe_principals users now with
  | [] => config
  | ids => set_route config "rules" (jarr (jobj (selftest_exception d ids) :: existing_rules config))
  end.

Definition probe_rules (ids : list string) : list V :=
  [jobj ([("auth_user", jstrs ids); ("network", jstr "tcp"); ("port", jint PROBE_ALLOWED_PORT);
          ("ip_cidr", jstrs PROBE_ALLOWED_IP_CIDRS)] ++ route_direct_fields);
   jobj ([("auth_user", jstrs ids); ("network", jstr "tcp"); ("port", jint PROBE_ALLOWED_PORT);
          ("domain", jstrs PROBE_ALLOWED_DOMAINS)] ++ route_direct_fields);
   jobj ([("auth_user", jstrs ids)] ++ reject_fields)].

Definition already_probe_scoped (ids : list string) (rule : V) : bool :=
  match get_array rule "auth_user" with
  | Some au => forallb (fun v => match jas_str v with Some s => mem s ids | None => false end) au
  | None => false
  end.

Definition apply_probe_user_confinement (config : V) (users : list Grants.CompatUser) (now : Z) : V :=
  match probe_principals users now with
  | [] => config
  | ids =>
      let existing := existing_rules config in
      let insert_at := take_while_count (already_probe_scoped ids) existing in
      set_route config "rules" (jarr (insert_all insert_at (probe_rules ids) existing))
  end.

(** *** Exit egress *)

Definition exit_egress_rules (d : DeploymentConfig) (hairpin_active : bool) : list V :=
  let policy := match egress d with
                | Some e => eg_ipv6_literal e
                | None => if hairpin_active then RejectGoogle else Allow
                end in
  (if hairpin_active then [jobj [("action", jstr "sniff")]]
   else if bool_decide (policy = RejectGoogle)
        then [jobj [("ip_version", jint 6); ("port", jint 443); ("action", jstr "sniff");
                    ("sniffer", jstrs ["tls"; "quic"]); ("timeout", jstr "100ms")]]
        else []) ++
  (if bool_decide (policy <> Allow) then
     let reject := jobj [("ip_version", jint 6); ("action", jstr "reject"); ("method", jstr "default");
                         ("no_drop", jbool true)] in
     let reject := if bool_decide (policy = RejectGoogle) then
                     let r := jset reject "domain_suffix" (jstrs GOOGLE_EGRESS_DOMAINS) in
                     if negb hairpin_active then jset r "port" (jint 443) else r
                   else reject in
     [reject]
   else []) ++
  match google_egress_tls_spoof d with
  | Some spoof =>
      [jobj [("network", jstr "tcp"); ("port", jint 443); ("action", jstr "sniff"); ("sniffer", jstrs ["tls"]);
             ("timeout", jstr "300ms")];
       jobj [("domain_suffix", jstrs GOOGLE_EGRESS_DOMAINS); ("network", jstr "tcp"); ("port", jint 443);
             ("protocol", jstr "tls"); ("action", jstr "route-options"); ("tls_spoof", jstr (sp_sni spoof));
             ("tls_spoof_method", jstr (TlsSpoofMethod_as_str (sp_method spoof)))]]
  | None => []
  end.

Definition hairpin_outbound (h : GoogleEgressHairpinSection) (uuid : string) : V :=
  jobj [("type", jstr "vless"); ("tag", jstr "google-egress-hairpin"); ("server", jstr (relay_host h));
        ("server_port", jint (relay_port h)); ("uuid", jstr uuid); ("flow", jstr "xtls-rprx-vision");
        ("tls", jobj [("enabled", jbool true); ("server_name", jstr (relay_server_name h));
           ("utls", jobj [("enabled", jbool true); ("fingerprint", jstr "chrome")]);
           ("reality", jobj [("enabled", jbool true); ("public_key", jstr (relay_reality_public_key h));
                             ("short_id", jstr (relay_reality_short_id h))])])].
Definition hairpin_route : V :=
  jobj [("domain_suffix", jstrs GOOGLE_EGRESS_DOMAINS); ("action", jstr "route");
        ("outbound", jstr "google-egress-hairpin")].

Definition apply_google_egress_hairpin (config : V) (h : GoogleEgressHairpinSection) (uuid : string) : V :=
  let config := match get_array config "outbounds" with
                | Some obs => jset config "outbounds" (jarr (obs ++ [hairpin_outbound h uuid]))
                | None => config
                end in
  let config := set_route config "rules" (jarr (existing_rules config ++ [hairpin_route])) in
  set_route config "final" (jstr "direct").

(** *** Relay forwarding *)

Definition REALITY_INBOUND : string := "vless-reality-in".

(** The destination of a target, as an exact address or an exact name. *)
Definition match_host (host : string) (rule : V) : V :=
  match parse_ip host with
  | Some ip => jset rule "ip_cidr" (jstrs [show_cidr ip (host_prefix ip)])
  | None => jset rule "domain" (jstrs [host])
  end.

Definition target_rule (t : RelayTarget) : V :=
  match_host (rt_host t)
    (jobj ([("inbound", jstrs [REALITY_INBOUND]); ("network", jstr "tcp"); ("port", jint (rt_port t))]
           ++ route_direct_fields)).

Definition hairpin_principal_rules (d : DeploymentConfig) (principal : string) : list V :=
  [jobj [("inbound", jstrs [REALITY_INBOUND]); ("auth_user", jstrs [principal]); ("action", jstr "sniff")]] ++
  match google_egress_tls_spoof d with
  | Some spoof =>
      [jobj [("inbound", jstrs [REALITY_INBOUND]); ("auth_user", jstrs [principal]);
             ("domain_suffix", jstrs GOOGLE_EGRESS_DOMAINS); ("network", jstr "tcp"); ("port", jint 443);
             ("protocol", jstr "tls"); ("action", jstr "route-options"); ("tls_spoof", jstr (sp_sni spoof));
             ("tls_spoof_method", jstr (TlsSpoofMethod_as_str (sp_method spoof)))]]
  | None => []
  end ++
  [jobj ([("inbound", jstrs [REALITY_INBOUND]); ("auth_user", jstrs [principal]);
          ("domain_suffix", jstrs GOOGLE_EGRESS_DOMAINS)] ++ route_direct_fields)].

(** *** Exit principals of a relay *)

Definition scope (principals : list string) (rule : V) : V :=
  jset (jset rule "inbound" (jstrs [REALITY_INBOUND])) "auth_user" (jstrs principals).

Definition target_reject_rule (t : RelayTarget) : V :=
  match_host (rt_host t) (jobj ([("network", jstr "tcp"); ("port", jint (rt_port t))] ++ reject_fields)).

Definition exit_principal_rules (d : DeploymentConfig) (principals : list string) : list V :=
  match principals with
  | [] => []
  | _ =>
      map (scope principals)
        (c16_egress_deny_rules [REALITY_INBOUND] ++ own_rule d [REALITY_INBOUND] ++
         map target_reject_rule (relay_targets d) ++ exit_egress_rules d false ++
         [jobj route_direct_fields])
  end.

(** *** The role-aware renderer *)

Definition relay_loopback_rule (d : DeploymentConfig) (ids : list string) : V :=
  jobj ([("inbound", jstrs [REALITY_INBOUND])] ++ selftest_exception d ids).

Definition relay_rules (d : DeploymentConfig) (users : list Grants.CompatUser) (now : Z) : list V :=
  match probe_principals users now with [] => [] | ids => [relay_loopback_rule d ids] end ++
  flat_map (hairpin_principal_rules d) (hairpin_principals users now) ++
  (if exit_principals_enabled d then exit_principal_rules d (exit_principal_ids d users now) else []) ++
  map target_rule (relay_targets d).

Definition final_reject (inbounds : list V) : V := jobj ([("inbound", jarr inbounds)] ++ reject_fields).

Definition render_exit (d : DeploymentConfig) (users : list Grants.CompatUser) (r : RealityServerParams)
  (config : V) (now : Z) : V :=
  let config := match google_egress_hairpin d, google_egress_hairpin_uuid r with
                | Some h, Some uuid => apply_google_egress_hairpin config h uuid
                | _, _ => config
                end in
  let hairpin_active := is_some (google_egress_hairpin d) && is_some (google_egress_hairpin_uuid r) in
  let config := set_route config "rules" (jarr (exit_egress_rules d hairpin_active ++ existing_rules config)) in
  let config := apply_exit_loopback_selftest_exception config d users now in
  let config := apply_c16_egress_policy config d in
  apply_probe_user_confinement config users now.

Definition render_relay (d : DeploymentConfig) (users : list Grants.CompatUser) (config : V) (now : Z)
  : result V server_error :=
  let all_inbounds := match inbounds_of config with
                      | Some inbounds => map (fun i => unwrap_or (jget i "tag") jnull) inbounds
                      | None => []
                      end in
  match all_inbounds with
  | [] => Err RelayWithoutInbounds
  | _ =>
      let rules := relay_rules d users now ++ [final_reject all_inbounds] in
      let config := jset config "route" (jobj [("rules", jarr rules)]) in
      Ok (apply_probe_user_confinement config users now)
  end.

Definition render_server_config_for_deployment (b64_decode : string -> option (list Z)) (d : DeploymentConfig)
  (users : list Grants.CompatUser) (r : RealityServerParams) (hysteria : Hysteria2ServerParams) (now : Z)
  : result V server_error :=
  let? _ := map_err InvalidDeployment (Deployment.validate b64_decode d) in
  let? _ := map_err InvalidAuthorizations (Authz.validate (projected users)) in
  let config := render_singbox_server_config users r hysteria (for_deployment d) now in
  match role d with
  | Exit => Ok (render_exit d users r config now)
  | Relay => render_relay d users config now
  end.

(** ** What doctor checks *)

Context `{!JsonEq V}.

Fixpoint values_eqb (l m : list V) : bool :=
  match l, m with
  | [], [] => true
  | x :: l', y :: m' => jeqb x y && values_eqb l' m'
  | _, _ => false
  end.

Definition is_str (k s : string) (v : V) : bool := bool_decide (get_str v k = Some s).
Definition member_is (k : string) (x v : V) : bool := match jget v k with Some y => jeqb y x | None => false end.

Definition is_c16 (r : V) : bool :=
  negb (has_key "auth_user" r)
  && (is_str "action" "resolve" r || has_key "ip_cidr" r || has_key "domain" r
      || member_is "port" (jint C16_DENY_TCP_PORT) r).
Definition c16_egress_policy_rule_count (doc : V) : nat :=
  match rules_of doc with None => O | Some rules => take_while_count is_c16 (firstn 5 rules) end.

Definition is_loopback_selftest_exception (r : V) : bool :=
  has_key "auth_user" r && member_is "ip_cidr" (jstrs ["127.0.0.1/32"]) r && is_str "action" "route" r.
Definition is_probe (r : V) : bool :=
  has_key "auth_user" r && (is_str "action" "reject" r || has_key "ip_cidr" r || has_key "domain" r)
  && negb (has_key "domain_suffix" r) && negb (has_key "inbound" r).

Definition probe_confinement_rule_count (doc : V) : nat :=
  match rules_of doc with
  | None => O
  | Some rules =>
      let offset := match rules with r :: _ => if is_loopback_selftest_exception r then 1%nat else O | [] => O end in
      match skipn offset rules with
      | a :: b :: c :: _ =>
          if is_probe a && is_probe b && is_probe c && is_str "action" "reject" c then (offset + 3)%nat else O
      | _ => O
      end
  end.

Record RelayPolicyFacts := {
  fail_closed : bool;
  targets : nat;
  f_exit_principal_rules : nat;
  principals : list string }.

Definition is_exit_route (r : V) : bool :=
  match jcase r with
  | VObj o => (length o =? 4)%nat && is_str "action" "route" r && is_str "outbound" "direct" r
              && member_is "inbound" (jstrs [REALITY_INBOUND]) r && is_some (get_array r "auth_user")
  | _ => false
  end.

Definition indexed {A} (l : list A) : list (nat * A) := combine (seq 0 (length l)) l.

Definition hairpin_shaped (r : V) : bool :=
  has_key "auth_user" r && (is_str "action" "sniff" r || has_key "domain_suffix" r).

(** The exit-principal block: its start, its length and the principals it
    names; [None] when the document is refused. *)
Definition exit_block (d : DeploymentConfig) (rules : list V) : option (nat * nat * list string) :=
  match List.filter (fun ir => is_exit_route (snd ir)) (indexed rules) with
  | [] => Some (O, O, [])
  | [(end_, r)] =>
      if negb (exit_principals_enabled d) then None else
      let ps := match get_array r "auth_user" with Some a => omap jas_str a | None => [] end in
      let expected := exit_principal_rules d ps in
      if bool_decide (ps = []) || (S end_ <? length expected)%nat then None else
      let start := (S end_ - length expected)%nat in
      if values_eqb (firstn (length expected) (skipn start rules)) expected
      then Some (start, length expected, sort_stable str_leb ps) else None
  | _ => None
  end.

Definition relay_policy_facts (d : DeploymentConfig) (doc : V) : RelayPolicyFacts :=
  let n := length (relay_targets d) in
  let none b := {| fail_closed := b; targets := n; f_exit_principal_rules := O; principals := [] |} in
  match rules_of doc with
  | None => none false
  | Some rules =>
      match exit_block d rules with
      | None => none false
      | Some (start, len, ps) =>
          let outside i := (len =? 0)%nat || (i <? start)%nat || (start + len <=? i)%nat in
          let hairpin_rules := length (List.filter (fun ir => outside (fst ir) && hairpin_shaped (snd ir)) (indexed rules)) in
          {| fail_closed := match last rules with Some r => is_str "action" "reject" r | None => false end
               && (length rules =? n + 1 + hairpin_rules + probe_confinement_rule_count doc + len)%nat;
             targets := n; f_exit_principal_rules := len; principals := ps |}
      end
  end.

Fixpoint starts_with_values (l prefix : list V) : bool :=
  match prefix, l with
  | [], _ => true
  | x :: p', y :: l' => jeqb y x && starts_with_values l' p'
  | _, [] => false
  end.

Definition exit_egress_policy_matches (d : DeploymentConfig) (doc : V) : bool :=
  match rules_of doc with
  | None => false
  | Some all =>
      let prefix := probe_confinement_rule_count doc in
      if (length all <? prefix)%nat then false else
      let tail := skipn prefix all in
      let tags := match inbounds_of doc with Some ibs => omap (fun i => get_str i "tag") ibs | None => [] end in
      let c16 := c16_egress_deny_rules tags ++ own_rule d tags in
      if negb (starts_with_values tail c16) then false else
      let hairpin := is_some (google_egress_hairpin d) in
      let expected := exit_egress_rules d hairpin ++ (if hairpin then [hairpin_route] else []) in
      values_eqb (skipn (length c16) tail) expected
      && match jget doc "route" with Some r => is_str "final" "direct" r | None => false end
  end.
End Document.

(** ** Lemmas: reading what was written *)

Section Algebra.
Context {V : Type} {JO : JsonOps V} {JL : JsonLaws V} {JT : JsonTree V} {JTL : JsonTreeLaws V}.

(** A document object whose [route], if any, is an object. *)
Definition document (config : V) : Prop :=
  is_obj config /\ forall r, jget config "route" = Some r -> is_obj r.

Lemma document_obj config : document config -> is_obj config.
Proof. by intros [Hc _]. Qed.
Lemma document_route config r : document config -> jget config "route" = Some r -> is_obj r.
Proof. intros [_ Hr]. apply Hr. Qed.

Lemma is_object_obj (v : V) : is_obj v -> is_object v = true.
Proof. intros (kvs & -> & Hnd). unfold is_object. by destruct (jcase_obj kvs Hnd) as (l & -> & _). Qed.

Lemma empty_obj : is_obj (jobj (V := V) []).
Proof. apply is_obj_jobj. constructor. Qed.

Lemma route_of_obj config : document config -> is_obj (route_of config).
Proof.
  intros [_ Hr]. unfold route_of. destruct (jget config "route") as [r|]; [|apply empty_obj].
  rewrite is_object_obj by auto. auto.
Qed.

Lemma set_route_document config k x : document config -> document (set_route config k x).
Proof.
  intros Hd. pose proof (route_of_obj _ Hd) as Hro. destruct Hd as [Hc Hr]. unfold set_route.
  split; [by apply is_obj_jset|]. intros r. rewrite jget_jset by done. intros [= <-]. by apply is_obj_jset.
Qed.

Lemma set_route_get config k x : document config -> jget (set_route config k x) "route" = Some (jset (route_of config) k x).
Proof. intros Hd. unfold set_route. by rewrite jget_jset by by apply document_obj. Qed.

Lemma rules_of_set config l : document config -> rules_of (set_route config "rules" (jarr l)) = Some l.
Proof.
  intros Hd. unfold rules_of. rewrite set_route_get by done. unfold get_array.
  rewrite jget_jset by by apply route_of_obj. simpl. apply jas_array_jarr.
Qed.

Lemma rules_of_set_final config x : document config -> rules_of (set_route config "final" x) = rules_of config.
Proof.
  intros Hd. unfold rules_of. rewrite set_route_get by done. unfold get_array.
  rewrite jget_jset by by apply route_of_obj. simpl. unfold route_of.
  destruct (jget config "route") as [r|] eqn:E; [by rewrite is_object_obj by (by eapply document_route)|].
  by rewrite jget_obj by constructor.
Qed.

Lemma final_of_set config l :
  document config -> jget (route_of (set_route config "rules" (jarr l))) "final" = jget (route_of config) "final".
Proof.
  intros Hd. unfold route_of at 1. rewrite set_route_get by done.
  rewrite is_object_obj by by apply is_obj_jset, route_of_obj. by rewrite jget_jset by by apply route_of_obj.
Qed.

Lemma inbounds_of_set config k x : document config -> inbounds_of (set_route config k x) = inbounds_of config.
Proof. intros Hd. unfold inbounds_of, get_array, set_route. by rewrite jget_jset by by apply document_obj. Qed.

Lemma obj_get kvs k : List.NoDup (map fst kvs) -> jget (jobj (V := V) kvs) k = assoc k kvs.
Proof. apply jget_obj. Qed.

(** *** The base document *)

Lemma base_document users r h ports now : document (render_singbox_server_config (V := V) users r h ports now).
Proof.
  split; [apply is_obj_jobj; lit_nodup|]. intros x. unfold render_singbox_server_config.
  rewrite jget_obj by lit_nodup. discriminate.
Qed.

Lemma base_rules users r h ports now : rules_of (render_singbox_server_config (V := V) users r h ports now) = None.
Proof. unfold rules_of, render_singbox_server_config. by rewrite jget_obj by lit_nodup. Qed.

Lemma base_inbounds users r h ports now :
  inbounds_of (render_singbox_server_config (V := V) users r h ports now) =
  Some [vless_inbound users r (vless_reality_port ports) now; hysteria_inbound users h (hysteria2_port ports) now].
Proof.
  unfold inbounds_of, get_array, render_singbox_server_config. rewrite jget_obj by lit_nodup. apply jas_array_jarr.
Qed.

Lemma opt_member_obj k (o : option V) v : is_obj v -> is_obj (opt_member k o v).
Proof. destruct o; simpl; [apply is_obj_jset|done]. Qed.
Lemma opt_member_get k o (v : V) k' : is_obj v -> k <> k' -> jget (opt_member k o v) k' = jget v k'.
Proof.
  intros Hv Hk. destruct o; simpl; [|done]. rewrite jget_jset by done. by apply String.eqb_neq in Hk as ->.
Qed.

(** The optional members are the only ones besides the fixed ones. *)
Lemma hysteria_inbound_member users h port now k :
  ~ In k ["masquerade"; "obfs"; "up_mbps"; "down_mbps"; "ignore_client_bandwidth"] ->
  jget (hysteria_inbound (V := V) users h port now) k =
  assoc k [("type", jstr "hysteria2"); ("tag", jstr "hysteria2-in"); ("listen", jstr "::");
    ("listen_port", jint port); ("users", jarr (map hysteria_user (authorized_grants users now)));
    ("tls", jobj [("enabled", jbool true); ("certificate_path", jstr (tls_cert_path h));
                  ("key_path", jstr (tls_key_path h))])].
Proof.
  intros Hk. unfold hysteria_inbound. rewrite <- jget_obj by lit_nodup.
  set (base := jobj _). assert (Hb : is_obj base) by (apply is_obj_jobj; lit_nodup).
  set (v1 := opt_member "masquerade" _ base). assert (H1 : is_obj v1) by (by apply opt_member_obj).
  set (v2 := opt_member "obfs" _ v1). assert (H2 : is_obj v2) by (by apply opt_member_obj).
  assert (E2 : jget v2 k = jget base k).
  { unfold v2, v1. rewrite !opt_member_get; try done; try (by apply opt_member_obj); intros <-; apply Hk; simpl; tauto. }
  rewrite <- E2.
  assert (Hs : forall (v : V) m x, is_obj v -> In m ["masquerade"; "obfs"; "up_mbps"; "down_mbps"; "ignore_client_bandwidth"] -> jget (jset v m x) k = jget v k).
  { intros v m x Hv Hm. rewrite jget_jset by done. assert (Hmk : m <> k) by (by intros <-). by apply String.eqb_neq in Hmk as ->. }
  destruct (hp_up_mbps h), (hp_down_mbps h); rewrite ?Hs; try done; try (by apply is_obj_jset); simpl; tauto.
Qed.
Lemma hysteria_inbound_get users h port now k :
  k = "tag" \/ k = "users" ->
  jget (hysteria_inbound (V := V) users h port now) k =
  if String.eqb k "tag" then Some (jstr "hysteria2-in") else Some (jarr (map hysteria_user (authorized_grants users now))).
Proof. intros [-> | ->]; rewrite hysteria_inbound_member; try done; simpl; intuition discriminate. Qed.

Lemma base_tags users r h ports now :
  omap (fun i => get_str i "tag")
    [vless_inbound (V := V) users r (vless_reality_port ports) now; hysteria_inbound users h (hysteria2_port ports) now]
  = ["vless-reality-in"; "hysteria2-in"].
Proof.
  csimpl. unfold get_str. rewrite hysteria_inbound_get by (by left). unfold vless_inbound.
  rewrite jget_obj by lit_nodup. simpl. by rewrite !jas_str_jstr.
Qed.

(** *** Rule shapes *)

Lemma insert_all_app {A} (new a b : list A) : insert_all (length a) new (a ++ b) = a ++ new ++ b.
Proof.
  unfold insert_all. rewrite firstn_app, Nat.sub_diag, firstn_all, skipn_app, Nat.sub_diag, skipn_all.
  simpl. by rewrite app_nil_r.
Qed.

Lemma take_while_split {A} (f : A -> bool) l :
  exists a b, l = a ++ b /\ take_while_count f l = length a /\ forallb f a = true /\
    match b with x :: _ => f x = false | [] => True end.
Proof.
  induction l as [|x l IH]; [by exists [], []|]. simpl. destruct (f x) eqn:E.
  - destruct IH as (a & b & -> & Hl & Hf & Hb). exists (x :: a), b. simpl. by rewrite Hl, Hf, E.
  - by exists [], (x :: l).
Qed.

Lemma jset_has_key (v : V) k x k' : is_obj v -> has_key k' (jset v k x) = String.eqb k k' || has_key k' v.
Proof. intros Hv. unfold has_key. rewrite jget_jset by done. by destruct (String.eqb k k'). Qed.

Lemma exit_egress_no_user d ha : forallb (fun r => negb (has_key (V := V) "auth_user" r)) (exit_egress_rules d ha) = true.
Proof.
  unfold exit_egress_rules. rewrite !forallb_app.
  assert (Hk : forall kvs, List.NoDup (map fst kvs) -> assoc "auth_user" kvs = None -> has_key (V := V) "auth_user" (jobj kvs) = false).
  { intros kvs Hnd E. unfold has_key. by rewrite jget_obj, E. }
  rewrite !andb_true_iff. split; [|split].
  - repeat case_if; simpl; rewrite ?Hk by (lit_nodup || done); done.
  - case_if; [|done]. simpl. rewrite andb_true_r. apply negb_true_iff.
    repeat case_if; rewrite ?jset_has_key by (try apply is_obj_jset; apply is_obj_jobj; lit_nodup); simpl;
      apply Hk; (lit_nodup || done).
  - destruct (google_egress_tls_spoof d); [|done]. simpl. by rewrite !Hk by (lit_nodup || done).
Qed.

Lemma take_while_none {A} (f : A -> bool) l : forallb (fun x => negb (f x)) l = true -> take_while_count f l = O.
Proof. destruct l as [|x l]; simpl; [done|]. by destruct (f x). Qed.
End Algebra.
End Server.
