(* ===== verification/ServerPolicy.v ===== *)
(** * What a rendered server document enforces

    The rules of [render_server_config_for_deployment] (server.rs), evaluated
    the way sing-box documents route rules: in order, the first matching rule
    with a final action ([route], [reject]) decides; [sniff], [resolve] and
    [route-options] update the connection's metadata and evaluation goes on.
    sing-box itself is not part of the repository: the matching of single
    items and the metadata updates are operations of the class [SingBox]. *)

From S2P Require Import Prelude Strs Net NetText AddressPolicy Authorization Credentials Grants Json Contract.
From S2P Require Import Render Deployment Server.

Module ServerPolicy.
Import Contract Render Deployment Server.

(** ** sing-box's route matching *)

(** [item k v c]: the item [k] of a rule, with value [v], matches the
    connection; [effect r c]: the connection after the non-final rule [r]. *)
Class SingBox (V : Type) := {
  conn : Type;
  cn_inbound : conn -> string;
  cn_user : conn -> option string;
  cn_network : conn -> string;
  cn_port : conn -> Z;
  item : string -> V -> conn -> bool;
  effect : V -> conn -> conn }.

(** The documented meaning of the items the policies rely on; resolving and
    sniffing fill in addresses, domain and protocol, and leave the inbound,
    the authenticated user, the network and the port as they were. *)
Class SingBoxLaws (V : Type) `{JsonOps V, SingBox V} := {
  item_inbound l c : item "inbound" (jstrs l) c = mem (cn_inbound c) l;
  item_auth_user l c : item "auth_user" (jstrs l) c = match cn_user c with Some u => mem u l | None => false end;
  item_network s c : item "network" (jstr s) c = String.eqb (cn_network c) s;
  item_port p c : item "port" (jint p) c = (cn_port c =? p);
  effect_inbound r c : cn_inbound (effect r c) = cn_inbound c;
  effect_user r c : cn_user (effect r c) = cn_user c;
  effect_network r c : cn_network (effect r c) = cn_network c;
  effect_port r c : cn_port (effect r c) = cn_port c }.

Inductive verdict := Routed (outbound : string) | Rejected | Unmatched.

Section Evaluation.
Context {V : Type} `{JsonOps V, SB : SingBox V}.

Definition item_or (dflt : bool) (r : V) (c : conn) (k : string) : bool :=
  match jget r k with Some v => item k v c | None => dflt end.

(** The destination items are alternatives, the other items all hold. *)
Definition required_items : list string := ["inbound"; "auth_user"; "network"; "port"; "protocol"; "ip_version"].
Definition destination_items : list string := ["domain"; "domain_suffix"; "ip_cidr"].
Definition matches (r : V) (c : conn) : bool :=
  forallb (item_or true r c) required_items
  && (forallb (fun k => negb (has_key k r)) destination_items || existsb (item_or false r c) destination_items).

Fixpoint decide (rules : list V) (c : conn) : verdict :=
  match rules with
  | [] => Unmatched
  | r :: rest =>
      if matches r c then
        match get_str r "action" with
        | Some "route" => Routed (unwrap_or (get_str r "outbound") "")
        | Some "reject" => Rejected
        | _ => decide rest (effect r c)
        end
      else decide rest c
  end.
End Evaluation.

(** ** The rule list, exactly *)

Definition INBOUNDS : list string := ["vless-reality-in"; "hysteria2-in"].

Section Rules.
Context {V : Type} {JO : JsonOps V} {JL : JsonLaws V} {JT : JsonTree V} {JTL : JsonTreeLaws V}.

Definition hairpin_on (d : DeploymentConfig) (r : RealityServerParams) : bool :=
  is_some (google_egress_hairpin d) && is_some (google_egress_hairpin_uuid r).

Definition exit_tail (d : DeploymentConfig) (r : RealityServerParams) : list V :=
  exit_egress_rules d (hairpin_on d r) ++ (if hairpin_on d r then [hairpin_route] else []).
Definition deny_block (d : DeploymentConfig) (tags : list string) : list V :=
  c16_egress_deny_rules tags ++ own_rule d tags.
Definition confinement (ids : list string) : list V := match ids with [] => [] | _ => probe_rules ids end.
Definition probe_block (first : list string -> V) (ids : list string) : list V :=
  match ids with [] => [] | _ => first ids :: probe_rules ids end.

Definition exit_rules (d : DeploymentConfig) (users : list Grants.CompatUser) (r : RealityServerParams) (now : Z)
  : list V :=
  probe_block (fun ids => jobj (selftest_exception d ids)) (probe_principals users now)
  ++ deny_block d INBOUNDS ++ exit_tail d r.

Lemma hairpin_step d r config :
  document config -> rules_of config = None ->
  let config' := match google_egress_hairpin d, google_egress_hairpin_uuid r with
                 | Some h, Some uuid => apply_google_egress_hairpin config h uuid
                 | _, _ => config
                 end in
  document config' /\ existing_rules config' = (if hairpin_on d r then [hairpin_route] else [])
  /\ inbounds_of config' = inbounds_of config.
Proof.
  intros Hd Hr. unfold hairpin_on, existing_rules.
  destruct (google_egress_hairpin d) as [h|], (google_egress_hairpin_uuid r) as [u|]; simpl; try by rewrite Hr.
  unfold apply_google_egress_hairpin. set (config' := match get_array _ _ with Some _ => _ | None => _ end).
  assert (document config' /\ rules_of config' = None /\ inbounds_of config' = inbounds_of config) as (H1 & H2 & H3).
  { unfold config'. destruct (get_array config "outbounds"); [|done].
    pose proof (document_obj _ Hd) as Ho. repeat split.
    - by apply is_obj_jset.
    - intros x. rewrite jget_jset by done. simpl. by apply document_route.
    - unfold rules_of in *. by rewrite jget_jset by done.
    - unfold inbounds_of, get_array. by rewrite jget_jset by done. }
  rewrite rules_of_set_final by by apply set_route_document. rewrite rules_of_set by done.
  unfold existing_rules. rewrite H2. split_and!; [by repeat apply set_route_document|done|].
  by rewrite !inbounds_of_set by (try apply set_route_document; done).
Qed.

(** *** Insertions *)

Lemma take_while_app {A} (f : A -> bool) a b :
  forallb f a = true -> take_while_count f (a ++ b) = (length a + take_while_count f b)%nat.
Proof. induction a as [|x a IH]; simpl; [done|]. destruct (f x); simpl; [|done]. intros Ha. by rewrite IH. Qed.

Lemma insert_after {A} (f : A -> bool) a b new :
  forallb f a = true -> take_while_count f b = O -> insert_all (take_while_count f (a ++ b)) new (a ++ b) = a ++ new ++ b.
Proof. intros Ha Hb. rewrite take_while_app, Hb, Nat.add_0_r by done. apply insert_all_app. Qed.

Lemma c16_rules config d tags a b :
  document config -> all_inbound_tags config = Some tags -> existing_rules config = a ++ b ->
  forallb (has_key "auth_user") a = true -> forallb (fun r => negb (has_key (V := V) "auth_user" r)) b = true ->
  let config' := apply_c16_egress_policy config d in
  document config' /\ existing_rules config' = a ++ deny_block d tags ++ b /\
  jget (route_of config') "final" = Some (jstr "direct") /\ inbounds_of config' = inbounds_of config.
Proof.
  intros Hd Ht Hr Ha Hb config'. unfold config', apply_c16_egress_policy, insert_after_identity_scoped_rules, existing_rules.
  rewrite Ht. fold (existing_rules config). rewrite Hr, insert_after by (done || by apply take_while_none).
  rewrite rules_of_set_final by by apply set_route_document. rewrite rules_of_set by done.
  split_and!; [by repeat apply set_route_document|done| |by rewrite !inbounds_of_set by (try apply set_route_document; done)].
  unfold route_of at 1. rewrite set_route_get by by apply set_route_document.
  rewrite is_object_obj by by apply is_obj_jset, route_of_obj, set_route_document.
  by rewrite jget_jset by by apply route_of_obj, set_route_document.
Qed.

Lemma confined_rules config users now a b :
  document config -> existing_rules config = a ++ b ->
  forallb (already_probe_scoped (probe_principals users now)) a = true ->
  take_while_count (already_probe_scoped (probe_principals users now)) b = O ->
  let config' := apply_probe_user_confinement config users now in
  existing_rules config' = a ++ confinement (probe_principals users now) ++ b /\
  (document config' /\ jget (route_of config') "final" = jget (route_of config) "final" /\
   inbounds_of config' = inbounds_of config).
Proof.
  intros Hd Hr Ha Hb config'. unfold config', apply_probe_user_confinement, existing_rules in *.
  destruct (probe_principals users now) as [|i ids]; [done|]. rewrite Hr, insert_after, rules_of_set by done.
  split_and!; [done|by apply set_route_document|by apply final_of_set|by rewrite inbounds_of_set].
Qed.

Lemma scoped_literal ids kvs :
  List.NoDup (map fst kvs) -> assoc "auth_user" kvs = Some (jstrs (V := V) ids) ->
  already_probe_scoped ids (jobj kvs) = true.
Proof.
  intros Hnd E. unfold already_probe_scoped. rewrite get_array_obj, E by done. unfold jstrs.
  rewrite jas_array_jarr. apply forallb_forall. intros v (s & <- & Hs)%in_map_iff.
  rewrite jas_str_jstr. by apply mem_In.
Qed.

Lemma scoped_has_user ids (r : V) : has_key "auth_user" r = false -> already_probe_scoped ids r = false.
Proof. unfold has_key, already_probe_scoped, get_array. by destruct (jget r "auth_user"). Qed.

Lemma all_tags_base users r h ports now config :
  inbounds_of config = inbounds_of (render_singbox_server_config (V := V) users r h ports now) ->
  all_inbound_tags config = Some INBOUNDS.
Proof. intros E. unfold all_inbound_tags. rewrite E, base_inbounds, base_tags. done. Qed.

Lemma hairpin_route_no_user : has_key (V := V) "auth_user" hairpin_route = false.
Proof. unfold has_key, hairpin_route. by rewrite jget_obj by lit_nodup. Qed.

Lemma exit_tail_no_user d r : forallb (fun x => negb (has_key (V := V) "auth_user" x)) (exit_tail d r) = true.
Proof.
  unfold exit_tail. rewrite forallb_app, exit_egress_no_user. destruct (hairpin_on d r); [|done].
  simpl. by rewrite hairpin_route_no_user.
Qed.

Lemma existing_of_set config l : document config -> existing_rules (V := V) (set_route config "rules" (jarr l)) = l.
Proof. intros Hd. unfold existing_rules. by rewrite rules_of_set. Qed.

Lemma deny_block_not_scoped d ids tags rest : take_while_count (already_probe_scoped ids) (deny_block d tags ++ rest) = O.
Proof.
  simpl. rewrite scoped_has_user; [done|]. unfold has_key. by rewrite jget_obj by lit_nodup.
Qed.

Definition first_rule (mk : list string -> V) (ids : list string) : list V :=
  match ids with [] => [] | _ => [mk ids] end.

Lemma first_rule_scoped mk ids kvs :
  mk ids = jobj kvs -> List.NoDup (map fst kvs) -> assoc "auth_user" kvs = Some (jstrs ids) ->
  forallb (has_key "auth_user") (first_rule mk ids) = true /\ forallb (already_probe_scoped ids) (first_rule mk ids) = true.
Proof.
  intros E Hnd Ha. unfold first_rule. destruct ids as [|i ids]; [done|]. cbn [forallb].
  rewrite E, scoped_literal by done. unfold has_key. by rewrite jget_obj, Ha.
Qed.

Lemma selftest_step config d users now :
  document config ->
  let config' := apply_exit_loopback_selftest_exception config d users now in
  document config' /\ inbounds_of config' = inbounds_of config /\
  existing_rules config' =
    first_rule (fun ids => jobj (selftest_exception d ids)) (probe_principals users now) ++ existing_rules config.
Proof.
  intros Hd. unfold apply_exit_loopback_selftest_exception. destruct (probe_principals users now); [done|].
  cbn zeta. rewrite existing_of_set, inbounds_of_set by done. by split; [apply set_route_document|].
Qed.

Lemma block_of_first mk ids rest :
  first_rule mk ids ++ confinement ids ++ rest = probe_block mk ids ++ rest.
Proof. by destruct ids. Qed.

Lemma rules_of_existing config l : existing_rules config = l -> l <> [] -> rules_of (V := V) config = Some l.
Proof. unfold existing_rules. destruct (rules_of config); simpl; [by intros ->|by intros <-]. Qed.

(** The exit's rules: the probe block, the denied ranges, the egress policy. *)
Lemma exit_document d users r h ports now :
  let doc := render_exit d users r (render_singbox_server_config (V := V) users r h ports now) now in
  rules_of doc = Some (exit_rules d users r now) /\ jget (route_of doc) "final" = Some (jstr "direct") /\
  inbounds_of doc = inbounds_of (render_singbox_server_config users r h ports now).
Proof.
  intros doc. pose (cfg0 := render_singbox_server_config (V := V) users r h ports now).
  destruct (hairpin_step d r cfg0 (base_document _ _ _ _ _) (base_rules _ _ _ _ _)) as (D1 & R1 & I1).
  unfold doc, render_exit. fold cfg0. set (cfg1 := match google_egress_hairpin d with Some _ => _ | None => _ end) in *.
  fold (hairpin_on d r). rewrite R1. fold (exit_tail d r).
  set (cfg2 := set_route cfg1 "rules" _).
  assert (D2 : document cfg2) by by apply set_route_document.
  destruct (selftest_step cfg2 d users now D2) as (D3 & I3 & R3).
  unfold cfg2 in R3 at 2, I3 at 2. rewrite existing_of_set in R3 by done. rewrite inbounds_of_set, I1 in I3 by done.
  edestruct (first_rule_scoped (fun ids => jobj (selftest_exception d ids)) (probe_principals users now)) as [Ha Hs];
    [done|lit_nodup|done|].
  edestruct c16_rules as (D4 & R4 & F4 & I4); [exact D3|eapply all_tags_base, I3|exact R3|exact Ha|apply exit_tail_no_user|].
  edestruct confined_rules as (R5 & D5 & F5 & I5); [exact D4|exact R4|exact Hs|apply deny_block_not_scoped|].
  rewrite block_of_first in R5. split_and!; [|by rewrite F5|by rewrite I5, I4, I3].
  apply rules_of_existing; [exact R5|]. unfold exit_rules. by destruct (probe_principals users now).
Qed.

(** *** The relay's rules *)

Definition reject_rest : V := jobj ([("inbound", jstrs INBOUNDS)] ++ reject_fields).
Definition hairpin_block (d : DeploymentConfig) (users : list Grants.CompatUser) (now : Z) : list V :=
  flat_map (hairpin_principal_rules d) (hairpin_principals users now).
Definition exit_block_rules (d : DeploymentConfig) (users : list Grants.CompatUser) (now : Z) : list V :=
  exit_principal_rules d (exit_principal_ids d users now).
Definition relay_tail (d : DeploymentConfig) (users : list Grants.CompatUser) (now : Z) : list V :=
  hairpin_block d users now ++ exit_block_rules d users now ++ map target_rule (relay_targets d) ++ [reject_rest].
Definition relay_before (d : DeploymentConfig) (users : list Grants.CompatUser) (now : Z) : list V :=
  first_rule (relay_loopback_rule d) (probe_principals users now) ++ relay_tail d users now.

Lemma relay_rules_split d users now : relay_rules d users now ++ [reject_rest] = relay_before d users now.
Proof.
  unfold relay_rules, relay_before, relay_tail, hairpin_block, exit_block_rules, first_rule.
  rewrite <- !app_assoc. f_equal; [by destruct (probe_principals users now)|]. do 2 f_equal.
  unfold exit_principal_ids. by destruct (exit_principals_enabled d).
Qed.

(** The renderer's relay document, wherever the confinement is inserted. *)
Lemma relay_document d users r h ports now :
  exists doc, render_relay d users (render_singbox_server_config (V := V) users r h ports now) now = Ok doc /\
    inbounds_of doc = inbounds_of (render_singbox_server_config users r h ports now) /\
    rules_of doc = Some (insert_all (take_while_count (already_probe_scoped (probe_principals users now)) (relay_before d users now))
                           (confinement (probe_principals users now)) (relay_before d users now)).
Proof.
  set (cfg0 := render_singbox_server_config (V := V) users r h ports now).
  assert (D0 : document cfg0) by apply base_document.
  assert (Et : match inbounds_of cfg0 with
               | Some l => map (fun i => unwrap_or (jget i "tag") jnull) l | None => [] end = map jstr INBOUNDS).
  { unfold cfg0. rewrite base_inbounds. cbn [map]. rewrite hysteria_inbound_get by (by left).
    unfold vless_inbound. by rewrite jget_obj by lit_nodup. }
  unfold render_relay. rewrite Et. cbn [map INBOUNDS].
  change (final_reject [jstr "vless-reality-in"; jstr "hysteria2-in"]) with reject_rest. rewrite relay_rules_split.
  set (cfg1 := jset cfg0 "route" _).
  assert (D1 : document cfg1).
  { split; [by apply is_obj_jset, document_obj|]. intros x. unfold cfg1. rewrite jget_jset by by apply document_obj.
    intros [= <-]. apply is_obj_jobj. lit_nodup. }
  assert (R1 : rules_of cfg1 = Some (relay_before d users now)).
  { unfold rules_of, cfg1. rewrite jget_jset by by apply document_obj. simpl.
    rewrite get_array_obj by lit_nodup. apply jas_array_jarr. }
  assert (I1 : inbounds_of cfg1 = inbounds_of cfg0).
  { unfold inbounds_of, get_array, cfg1. by rewrite jget_jset by by apply document_obj. }
  eexists. split; [done|]. unfold apply_probe_user_confinement, existing_rules. rewrite R1. cbn [unwrap_or].
  destruct (probe_principals users now) as [|i ids] eqn:E.
  - split; [done|]. rewrite R1. unfold insert_all. by rewrite app_nil_l, firstn_skipn.
  - by rewrite inbounds_of_set, rules_of_set.
Qed.
End Rules.

(** ** Which connections a rule concerns *)

Section Verdicts.
Context {V : Type} {JO : JsonOps V} {JL : JsonLaws V} {JT : JsonTree V} {JTL : JsonTreeLaws V}.
Context {SB : SingBox V} {SBL : SingBoxLaws V}.

Definition named (l : list string) (r : V) : Prop := jget r "auth_user" = Some (jstrs l).
Definition not_user (c : conn) (l : list string) : Prop := forall u, cn_user c = Some u -> ~ In u l.

Lemma named_no_match l r c : named l r -> not_user c l -> matches r c = false.
Proof.
  intros Hn Hu. unfold matches, required_items. cbn [forallb]. unfold item_or at 2. rewrite Hn, item_auth_user.
  destruct (cn_user c) as [u|] eqn:E; [|by rewrite andb_false_r]. specialize (Hu u E).
  apply mem_false in Hu as ->. by rewrite andb_false_r.
Qed.

Lemma named_obj kvs l : List.NoDup (map fst kvs) -> assoc "auth_user" kvs = Some (jstrs l) -> named l (jobj kvs).
Proof. intros Hnd E. unfold named. by rewrite jget_obj. Qed.

Lemma named_scope l r : is_obj r -> named l (scope l r).
Proof. intros Hr. unfold named, scope. rewrite jget_jset by by apply is_obj_jset. done. Qed.

Lemma probe_named ids : Forall (named ids) (probe_rules ids).
Proof. repeat constructor; apply named_obj; (lit_nodup || done). Qed.

Lemma hairpin_named d p : Forall (named [p]) (hairpin_principal_rules d p).
Proof.
  unfold hairpin_principal_rules. rewrite !Forall_app. split_and!; [|destruct (google_egress_tls_spoof d)|];
    repeat constructor; apply named_obj; (lit_nodup || done).
Qed.

Lemma hairpin_block_named d users now :
  Forall (fun r => exists p, In p (hairpin_principals users now) /\ named [p] r) (hairpin_block d users now).
Proof.
  apply List.Forall_forall. intros r (p & Hp & Hr)%in_flat_map. exists p. split; [done|].
  by eapply List.Forall_forall in Hr; [|apply hairpin_named].
Qed.

Lemma match_host_obj host (r : V) : is_obj r -> is_obj (match_host host r).
Proof. intros Hr. unfold match_host. destruct (parse_ip host); by apply is_obj_jset. Qed.

Lemma egress_obj d b : Forall (is_obj (V := V)) (exit_egress_rules d b).
Proof.
  unfold exit_egress_rules. rewrite !Forall_app. split_and!.
  - repeat case_if; repeat constructor; apply is_obj_jobj; lit_nodup.
  - case_if; repeat constructor. repeat case_if; repeat apply is_obj_jset; apply is_obj_jobj; lit_nodup.
  - destruct (google_egress_tls_spoof d); repeat constructor; apply is_obj_jobj; lit_nodup.
Qed.

Lemma deny_block_obj d tags : Forall (is_obj (V := V)) (deny_block d tags).
Proof.
  unfold deny_block, own_rule, own_address_deny_rule. apply Forall_app. split; [repeat constructor; apply is_obj_jobj; lit_nodup|].
  destruct (omap own_ip _); repeat constructor. apply is_obj_jobj. lit_nodup.
Qed.

Lemma exit_named d ps : Forall (named ps) (exit_principal_rules d ps).
Proof.
  unfold exit_principal_rules. destruct ps as [|p ps]; [constructor|]. set (l := p :: ps).
  apply Forall_map. eapply Forall_impl; [|intros r Hr; by apply named_scope].
  rewrite app_assoc. apply Forall_app. split; [apply deny_block_obj|]. rewrite !Forall_app. split_and!.
  - apply Forall_map, Forall_true. intros t. apply match_host_obj, is_obj_jobj. lit_nodup.
  - apply egress_obj.
  - repeat constructor. apply is_obj_jobj. lit_nodup.
Qed.

(** Rules that name other users only are skipped. *)
Lemma decide_skip rs rest c :
  Forall (fun r => exists l, named l r /\ not_user c l) rs -> decide (rs ++ rest) c = decide rest c.
Proof.
  induction 1 as [|r rs (l & Hn & Hu) _ IH]; [done|]. simpl. by rewrite (named_no_match l).
Qed.

Lemma decide_insert new k rules c :
  Forall (fun r => exists l, named l r /\ not_user c l) new -> decide (insert_all k new rules) c = decide rules c.
Proof.
  intros Hnew. revert k c Hnew. induction rules as [|r rules IH]; intros k c Hnew.
  - unfold insert_all. rewrite firstn_nil, skipn_nil, app_nil_r. simpl. rewrite <- (app_nil_r new). by apply decide_skip.
  - destruct k as [|k]; [by apply (decide_skip new (r :: rules))|]. unfold insert_all. cbn [firstn skipn app decide].
    change (firstn k rules ++ new ++ skipn k rules) with (insert_all k new rules).
    assert (Hnew' : forall r', Forall (fun r => exists l, named l r /\ not_user (effect r' c) l) new).
    { intros r'. eapply Forall_impl; [exact Hnew|]. intros x (l & Hn & Hu). exists l. split; [done|].
      unfold not_user. by rewrite effect_user. }
    by rewrite !IH by auto.
Qed.

(** *** Single rules *)

Definition dest_is (host : string) (c : conn) : bool :=
  match parse_ip host with
  | Some ip => item (V := V) "ip_cidr" (jstrs [show_cidr ip (host_prefix ip)]) c
  | None => item (V := V) "domain" (jstrs [host]) c
  end.
Definition tcp_to (port : Z) (c : conn) : bool := String.eqb (cn_network c) "tcp" && (cn_port c =? port).
Definition reaches (c : conn) (t : RelayTarget) : bool := tcp_to (rt_port t) c && dest_is (rt_host t) c.

Definition own_ips (d : DeploymentConfig) : list IpAddr := omap own_ip [Some (public_host d); public_ipv4 d; public_ipv6 d].
(** Denied destinations: C-16 ranges, outgoing SMTP, the address literals that
    the deployment declares as the node's own. *)
Definition denied (d : DeploymentConfig) (c : conn) : bool :=
  item (V := V) "ip_cidr" (jstrs C16_DENY_IPV4_TEXT) c || item (V := V) "ip_cidr" (jstrs C16_DENY_IPV6_TEXT) c
  || tcp_to C16_DENY_TCP_PORT c
  || match own_ips d with
     | [] => false
     | ips => item (V := V) "ip_cidr" (jstrs (map (fun ip => show_cidr ip (host_prefix ip)) ips)) c
     end.

Lemma decide_reject r rest c :
  get_str r "action" = Some "reject" -> decide (r :: rest) c = if matches r c then Rejected else decide rest c.
Proof. intros E. cbn [decide]. by rewrite E. Qed.

Lemma decide_pass a r rest c :
  get_str r "action" = Some a -> In a ["sniff"; "resolve"; "route-options"] ->
  decide (r :: rest) c = if matches r c then decide rest (effect r c) else decide rest c.
Proof. intros E Ha. cbn [decide]. rewrite E. simpl in Ha. destruct Ha as [<-|[<-|[<-|[]]]]; done. Qed.

Lemma decide_route o r rest c :
  get_str r "action" = Some "route" -> get_str r "outbound" = Some o ->
  decide (r :: rest) c = if matches r c then Routed o else decide rest c.
Proof. intros E Eo. cbn [decide]. by rewrite E, Eo. Qed.

Lemma reject_literal kvs : List.NoDup (map fst (kvs ++ reject_fields)) -> get_str (jobj (V := V) (kvs ++ reject_fields)) "action" = Some "reject".
Proof.
  intros Hnd. rewrite get_str_obj by done. rewrite map_app in Hnd.
  assert (assoc "action" (kvs ++ reject_fields) = Some (jstr "reject")) as ->; [|apply jas_str_jstr].
  unfold assoc. induction kvs as [|[k v] kvs IH]; [done|]. simpl in *. inversion Hnd as [|? ? Hk Hnd']; subst.
  destruct (String.eqb k "action") eqn:E; [|by apply IH]. apply String.eqb_eq in E as ->. exfalso. apply Hk.
  rewrite in_app_iff. simpl. tauto.
Qed.

Ltac rule_eval :=
  unfold matches, required_items, destination_items, item_or, has_key; cbn [forallb existsb];
  rewrite ?jget_obj by lit_nodup; simpl;
  rewrite ?item_inbound, ?item_auth_user, ?item_network, ?item_port, ?andb_true_r, ?orb_false_r, ?orb_true_r; simpl.

Lemma matches_host host c kvs :
  List.NoDup (map fst kvs) -> (forall k, In k destination_items -> assoc k kvs = None) ->
  matches (match_host host (jobj kvs)) c = forallb (item_or true (jobj kvs) c) required_items && dest_is host c.
Proof.
  intros Hnd Hk. assert (Ho : is_obj (jobj kvs)) by by apply is_obj_jobj.
  unfold matches, match_host, dest_is, destination_items, required_items, item_or, has_key. cbn [forallb existsb].
  destruct (parse_ip host); rewrite !jget_jset by done; simpl; rewrite !jget_obj by done;
    rewrite ?(Hk "domain"), ?(Hk "domain_suffix"), ?(Hk "ip_cidr") by (simpl; tauto); by rewrite ?orb_false_r.
Qed.

Lemma get_str_match_host host kvs k :
  List.NoDup (map fst kvs) -> k = "action" \/ k = "outbound" ->
  get_str (V := V) (match_host host (jobj kvs)) k = get_str (jobj kvs) k.
Proof.
  intros Hnd Hk. unfold match_host. destruct (parse_ip host); apply get_str_jset_other;
    (by apply is_obj_jobj) || by destruct Hk as [-> | ->].
Qed.

Lemma target_matches t c :
  matches (target_rule t) c = String.eqb (cn_inbound c) REALITY_INBOUND && reaches c t.
Proof.
  unfold target_rule, reaches, tcp_to.
  rewrite matches_host by (lit_nodup || (simpl; intros k Hk; intuition subst; done)).
  unfold required_items, item_or. cbn [forallb]. rewrite !jget_obj by lit_nodup. simpl.
  rewrite item_inbound, item_network, item_port. unfold mem. simpl. by rewrite orb_false_r, !andb_true_r, !andb_assoc.
Qed.

Lemma target_action t : get_str (target_rule t) "action" = Some "route" /\ get_str (target_rule t) "outbound" = Some "direct".
Proof.
  unfold target_rule. rewrite !get_str_match_host by (lit_nodup || tauto). rewrite !get_str_obj by lit_nodup.
  simpl. by rewrite !jas_str_jstr.
Qed.

Lemma decide_targets ts c :
  In (cn_inbound c) INBOUNDS ->
  decide (map target_rule ts ++ [reject_rest]) c =
  if String.eqb (cn_inbound c) REALITY_INBOUND && existsb (reaches c) ts then Routed "direct" else Rejected.
Proof.
  intros Hin. induction ts as [|t ts IH]; cbn [map app decide existsb].
  - assert (Hm : matches reject_rest c = true).
    { unfold reject_rest. rule_eval. by apply (mem_In _ INBOUNDS). }
    rewrite Hm, andb_false_r. unfold reject_rest. by rewrite reject_literal by lit_nodup.
  - rewrite target_matches. destruct (target_action t) as [-> ->]. rewrite IH.
    destruct (String.eqb _ _), (reaches c t); done.
Qed.

(** *** Denied destinations *)

Lemma own_rule_spec d tags :
  own_rule (V := V) d tags = match own_ips d with
    | [] => []
    | ips => [jobj ([("inbound", jstrs tags); ("ip_cidr", jstrs (map (fun ip => show_cidr ip (host_prefix ip)) ips))]
                    ++ reject_fields)]
    end.
Proof. unfold own_rule, own_address_deny_rule. fold (own_ips d). by destruct (own_ips d). Qed.

(** [f] rewrites the rules without changing what they match or do, for the
    connections of interest. *)
Definition transparent (f : V -> V) (c : conn) (r : V) : Prop :=
  get_str (f r) "action" = get_str r "action" /\
  forall c', cn_inbound c' = cn_inbound c -> cn_user c' = cn_user c -> matches (f r) c' = matches r c'.

Definition resolve_rule (tags : list string) : V := jobj [("inbound", jstrs tags); ("action", jstr "resolve")].

Lemma transparent_reject f c r rest c' :
  transparent f c r -> get_str r "action" = Some "reject" ->
  cn_inbound c' = cn_inbound c -> cn_user c' = cn_user c ->
  decide (f r :: rest) c' = if matches r c' then Rejected else decide rest c'.
Proof. intros [A M] E Hi Hu. rewrite decide_reject, M by (done || by rewrite A). done. Qed.

Ltac literal_action := rewrite get_str_obj by lit_nodup; apply jas_str_jstr.

Lemma resolve_step f c tags rest :
  mem (cn_inbound c) tags = true -> transparent f c (resolve_rule tags) ->
  decide (f (resolve_rule tags) :: rest) c = decide rest (effect (f (resolve_rule tags)) c).
Proof.
  intros Hin [A M]. rewrite (decide_pass "resolve"), M; [|done|done| |simpl; tauto].
  - assert (matches (resolve_rule tags) c = true) as ->; [|done]. unfold resolve_rule. by rule_eval.
  - rewrite A. unfold resolve_rule. rewrite get_str_obj by lit_nodup. apply jas_str_jstr.
Qed.

Lemma deny_block_decides f d tags rest c :
  In (cn_inbound c) tags -> Forall (transparent f c) (deny_block d tags) ->
  decide (map f (deny_block d tags) ++ rest) c =
  let c' := effect (f (resolve_rule tags)) c in if denied d c' then Rejected else decide rest c'.
Proof.
  intros Hin. apply mem_In in Hin. unfold deny_block. rewrite Forall_app, map_app, own_rule_spec.
  cbn [c16_egress_deny_rules map]. intros [Hf Ho]. inversion_clear Hf as [|? ? T0 Hf'].
  inversion_clear Hf' as [|? ? T1 Hf]. inversion_clear Hf as [|? ? T2 Hf']. inversion_clear Hf' as [|? ? T3 _].
  rewrite <- app_assoc. cbn [app]. fold (resolve_rule tags) in T0 |- *. rewrite resolve_step by done.
  set (c' := effect _ c). assert (Hi : cn_inbound c' = cn_inbound c) by apply effect_inbound.
  assert (Hu : cn_user c' = cn_user c) by apply effect_user. cbn zeta.
  rewrite !(transparent_reject f c) by (done || literal_action).
  unfold denied, tcp_to. rewrite <- Hi in Hin. rule_eval.
  rewrite !Hin. cbn [andb]. 
  destruct (item "ip_cidr" (jstrs C16_DENY_IPV4_TEXT) c'); [done|].
  destruct (item "ip_cidr" (jstrs C16_DENY_IPV6_TEXT) c'); [done|].
  destruct (_ && (cn_port c' =? C16_DENY_TCP_PORT)); [done|]. cbn [orb]. destruct (own_ips d) as [|i l]; [done|].
  inversion_clear Ho as [|? ? T4 _]. cbn [map app]. rewrite (transparent_reject f c) by (done || literal_action).
  rule_eval. by rewrite Hin.
Qed.

Lemma transparent_id c r : transparent id c r.
Proof. done. Qed.

(** [scope] is transparent for the principals it names, on the relay's
    REALITY inbound. *)
Lemma transparent_scope ps c r :
  is_obj r -> has_key "auth_user" r = false -> jget r "inbound" = None \/ jget r "inbound" = Some (jstrs [REALITY_INBOUND]) ->
  cn_inbound c = REALITY_INBOUND -> (exists u, cn_user c = Some u /\ In u ps) ->
  transparent (scope ps) c r.
Proof.
  intros Hr Ha Hi Hc (u & Hu & Hps). apply mem_In in Hps. unfold scope.
  assert (Hg : forall k, jget (jset (jset r "inbound" (jstrs [REALITY_INBOUND])) "auth_user" (jstrs ps)) k =
    if String.eqb "auth_user" k then Some (jstrs ps) else
    if String.eqb "inbound" k then Some (jstrs [REALITY_INBOUND]) else jget r k).
  { intros k. rewrite !jget_jset by (try apply is_obj_jset; done). done. }
  split; [unfold get_str; by rewrite Hg|]. intros c' Hc' Hu'.
  unfold matches, required_items, destination_items, item_or, has_key. cbn [forallb existsb]. rewrite !Hg. simpl.
  rewrite item_inbound, item_auth_user, Hu', Hu, Hps, Hc', Hc.
  unfold has_key in Ha. destruct (jget r "auth_user"); [done|].
  destruct Hi as [-> | ->]; rewrite ?item_inbound, ?Hc', ?Hc; done.
Qed.

(** *** Where the confinement goes on a relay *)

Definition principals_disjoint (d : DeploymentConfig) (users : list Grants.CompatUser) (now : Z) : Prop :=
  forall p, In p (probe_principals users now) ->
  ~ In p (hairpin_principals users now) /\ ~ In p (exit_principal_ids d users now).

Lemma named_not_scoped l ids r x : named l r -> In x l -> ~ In x ids -> already_probe_scoped ids r = false.
Proof.
  intros Hn Hx Hni. unfold already_probe_scoped, get_array. rewrite Hn. unfold jstrs. rewrite jas_array_jarr.
  apply not_true_iff_false. rewrite forallb_forall. intros Hall. apply Hni.
  specialize (Hall (jstr x) (in_map _ _ _ Hx)). rewrite jas_str_jstr in Hall. by apply mem_In.
Qed.

Lemma target_no_user t : has_key "auth_user" (target_rule (V := V) t) = false.
Proof.
  unfold target_rule, match_host, has_key.
  destruct (parse_ip _); rewrite jget_jset by (apply is_obj_jobj; lit_nodup); by rewrite jget_obj by lit_nodup.
Qed.

Lemma relay_tail_not_scoped d users now :
  principals_disjoint d users now ->
  take_while_count (already_probe_scoped (probe_principals users now)) (relay_tail d users now) = O.
Proof.
  intros Hd. set (ids := probe_principals users now).
  assert (Hhead : forall r (rest : list V), already_probe_scoped ids r = false -> take_while_count (already_probe_scoped ids) (r :: rest) = O)
    by (intros r rest E; simpl; by rewrite E).
  unfold relay_tail, hairpin_block, exit_block_rules.
  destruct (hairpin_principals users now) as [|p ps] eqn:Eh.
  - cbn [flat_map app]. pose proof (exit_named d (exit_principal_ids d users now)) as Hn.
    destruct (exit_principal_ids d users now) as [|p ps] eqn:Ee.
    + cbn [exit_principal_rules app]. destruct (relay_targets d) as [|t ts]; cbn [map app]; apply Hhead, scoped_has_user; [|apply target_no_user].
      unfold reject_rest, has_key. by rewrite jget_obj by lit_nodup.
    + cbn [exit_principal_rules map app c16_egress_deny_rules] in Hn |- *. apply Hhead. inversion_clear Hn as [|? ? Hn1 _].
      apply (named_not_scoped _ _ _ p Hn1); [by left|]. intros Hp. apply Hd in Hp as [_ Hp]. apply Hp. rewrite Ee. by left.
  - cbn [flat_map]. pose proof (hairpin_named d p) as Hn. unfold hairpin_principal_rules in *. cbn [app] in Hn |- *.
    apply Hhead. inversion_clear Hn as [|? ? Hn1 _]. apply (named_not_scoped _ _ _ p Hn1); [by left|].
    intros Hp. apply Hd in Hp as [Hp _]. apply Hp. rewrite Eh. by left.
Qed.

Lemma relay_document_disjoint d users r h ports now :
  principals_disjoint d users now ->
  exists doc, render_relay d users (render_singbox_server_config (V := V) users r h ports now) now = Ok doc /\
    inbounds_of doc = inbounds_of (render_singbox_server_config users r h ports now) /\
    rules_of doc = Some (probe_block (relay_loopback_rule d) (probe_principals users now) ++ relay_tail d users now).
Proof.
  intros Hd. destruct (relay_document d users r h ports now) as (doc & E & Hi & Hr). exists doc. split_and!; [done..|].
  rewrite Hr. unfold relay_before. edestruct (first_rule_scoped (relay_loopback_rule d) (probe_principals users now)) as [_ Hs];
    [done|lit_nodup|done|].
  rewrite insert_after by (done || by apply relay_tail_not_scoped). by rewrite block_of_first.
Qed.

(** *** The probe block *)

Definition probe_allowed (c : conn) : bool :=
  tcp_to PROBE_ALLOWED_PORT c
  && (item (V := V) "ip_cidr" (jstrs PROBE_ALLOWED_IP_CIDRS) c || item (V := V) "domain" (jstrs PROBE_ALLOWED_DOMAINS) c).
Definition selftest_dest (d : DeploymentConfig) (c : conn) : bool :=
  tcp_to (su_listen_port (subscription d)) c && item (V := V) "ip_cidr" (jstrs ["127.0.0.1/32"]) c.

Lemma probe_rules_decide ids c u rest :
  cn_user c = Some u -> In u ids -> decide (probe_rules ids ++ rest) c = if probe_allowed c then Routed "direct" else Rejected.
Proof.
  intros Hu Hin. apply mem_In in Hin. unfold probe_rules, probe_allowed, tcp_to. cbn [app].
  rewrite !(decide_route "direct") by literal_action. rewrite decide_reject by literal_action. rule_eval.
  rewrite Hu, Hin. cbn [andb]. destruct (_ && (cn_port c =? PROBE_ALLOWED_PORT)); [|done].
  by destruct (item "ip_cidr" _ c), (item "domain" _ c).
Qed.

Lemma exit_selftest_decide d ids c u rest :
  cn_user c = Some u -> In u ids ->
  decide (jobj (selftest_exception d ids) :: rest) c = if selftest_dest d c then Routed "direct" else decide rest c.
Proof.
  intros Hu Hin. apply mem_In in Hin. rewrite (decide_route "direct") by literal_action.
  unfold selftest_dest, tcp_to. rule_eval. by rewrite Hu, Hin.
Qed.

Lemma relay_selftest_decide d ids c u rest :
  cn_user c = Some u -> In u ids ->
  decide (relay_loopback_rule d ids :: rest) c =
  if String.eqb (cn_inbound c) REALITY_INBOUND && selftest_dest d c then Routed "direct" else decide rest c.
Proof.
  intros Hu Hin. apply mem_In in Hin. unfold relay_loopback_rule. rewrite (decide_route "direct") by literal_action.
  unfold selftest_dest, tcp_to, REALITY_INBOUND. rule_eval. by rewrite Hu, Hin, orb_false_r, !andb_assoc, andb_true_r.
Qed.

(** ** The role-aware renderer *)

Lemma render_deployment_ok b64 d users r h now doc :
  render_server_config_for_deployment (V := V) b64 d users r h now = Ok doc ->
  let base := render_singbox_server_config users r h (for_deployment d) now in
  match role d with Exit => doc = render_exit d users r base now | Relay => render_relay d users base now = Ok doc end.
Proof.
  unfold render_server_config_for_deployment. destruct (Deployment.validate b64 d); [|done]. simpl.
  destruct (Authz.validate (projected users)); [|done]. simpl. destruct (role d); [by intros [= <-]|done].
Qed.

(** Users that are neither probes nor hairpins see the rest of the list. *)
Lemma decide_plain_prefix d users now c :
  not_user c (probe_principals users now) -> not_user c (hairpin_principals users now) ->
  decide (insert_all (take_while_count (already_probe_scoped (probe_principals users now)) (relay_before d users now))
            (confinement (probe_principals users now)) (relay_before d users now)) c =
  decide (exit_block_rules d users now ++ map target_rule (relay_targets d) ++ [reject_rest]) c.
Proof.
  intros Hp Hh.
  rewrite decide_insert by (unfold confinement; destruct (probe_principals users now) as [|i l]; [constructor|];
    eapply Forall_impl; [apply probe_named|]; eauto).
  unfold relay_before, relay_tail. rewrite decide_skip; [rewrite decide_skip; [done|]|].
  - eapply Forall_impl; [apply hairpin_block_named|]. intros x (p & Hin' & Hn). exists [p]. split; [done|].
    intros u Hu [->|[]]. by apply (Hh u).
  - unfold first_rule. destruct (probe_principals users now) as [|i l]; repeat constructor.
    exists (i :: l). split; [|done]. apply named_obj; (lit_nodup || done).
Qed.

(** C17: A relay forwards a customer's connection exactly when it arrives on the
    REALITY inbound, over TCP, for the host and port of an exit the deployment
    declares as a relay target, and rejects every other connection on either
    inbound: whatever rules the probe, hairpin and exit principals add. *)
Theorem relay_forwards_only_to_declared_exits b64 d users r h now doc c :
  render_server_config_for_deployment b64 d users r h now = Ok doc -> role d = Relay ->
  In (cn_inbound c) INBOUNDS ->
  not_user c (probe_principals users now) -> not_user c (hairpin_principals users now) ->
  not_user c (exit_principal_ids d users now) ->
  exists rules, rules_of doc = Some rules /\
    decide rules c = if String.eqb (cn_inbound c) REALITY_INBOUND && existsb (reaches c) (relay_targets d)
                     then Routed "direct" else Rejected.
Proof.
  intros Hok Hrole Hin Hp Hh He. apply render_deployment_ok in Hok. rewrite Hrole in Hok. cbn zeta in Hok.
  destruct (relay_document d users r h (for_deployment d) now) as (doc' & E & _ & Hr).
  rewrite E in Hok. injection Hok as ->. eexists. split; [exact Hr|].
  rewrite decide_plain_prefix by done. rewrite decide_skip; [by apply decide_targets|].
  eapply Forall_impl; [apply exit_named|]. eauto.
Qed.

(** C18: On an exit, a connection of any user other than a probe is first
    resolved, and is then rejected when its destination is in a C-16 range, is
    outgoing SMTP, or is one of the address literals declared as [public_host],
    [public_ipv4] or [public_ipv6]; only other connections reach the egress
    policy.  An own address that is not declared is not denied
    ([undeclared_own_address_reachable]). *)
Theorem exit_denies_reserved_destinations b64 d users r h now doc c :
  render_server_config_for_deployment b64 d users r h now = Ok doc -> role d = Exit ->
  In (cn_inbound c) INBOUNDS -> not_user c (probe_principals users now) ->
  exists rules, rules_of doc = Some rules /\
    let c' := effect (resolve_rule INBOUNDS) c in
    decide rules c = if denied d c' then Rejected else decide (exit_tail d r) c'.
Proof.
  intros Hok Hrole Hin Hp. apply render_deployment_ok in Hok. rewrite Hrole in Hok. subst doc.
  destruct (exit_document d users r h (for_deployment d) now) as (Hr & _). eexists. split; [exact Hr|].
  unfold exit_rules. rewrite decide_skip.
  - rewrite <- (map_id (deny_block d INBOUNDS)).
    apply (deny_block_decides id); [done|]. apply Forall_true. intros x. apply transparent_id.
  - unfold probe_block. destruct (probe_principals users now) as [|i l]; [constructor|]. constructor.
    + exists (i :: l). split; [|done]. apply named_obj; (lit_nodup || done).
    + eapply Forall_impl; [apply probe_named|]; eauto.
Qed.

(** A probe principal reaches the loopback subscription port, and TCP 443
    of the allowed address and names, and nothing else, in both roles; on a
    relay this needs the probe principals to be neither hairpin nor exit
    principals. *)
Theorem probe_principals_confined b64 d users r h now doc c u :
  render_server_config_for_deployment b64 d users r h now = Ok doc ->
  (role d = Relay -> principals_disjoint d users now) ->
  cn_user c = Some u -> In u (probe_principals users now) ->
  exists rules, rules_of doc = Some rules /\
    decide rules c =
    if match role d with Relay => String.eqb (cn_inbound c) REALITY_INBOUND | Exit => true end && selftest_dest d c
       || probe_allowed c
    then Routed "direct" else Rejected.
Proof.
  intros Hok Hdis Hu Hin. apply render_deployment_ok in Hok. destruct (role d) eqn:Hrole; cbn zeta in Hok.
  - subst doc. destruct (exit_document d users r h (for_deployment d) now) as (Hr & _).
    eexists. split; [exact Hr|]. unfold exit_rules, probe_block.
    destruct (probe_principals users now) as [|i l]; [done|]. cbn [app].
    rewrite (exit_selftest_decide _ _ _ u) by done. change (probe_rules (i :: l) ++ ?x) with (probe_rules (i :: l) ++ x).
    rewrite (probe_rules_decide _ _ u) by done. by destruct (selftest_dest d c).
  - destruct (relay_document_disjoint d users r h (for_deployment d) now (Hdis eq_refl)) as (doc' & E & _ & Hr).
    rewrite E in Hok. injection Hok as ->. eexists. split; [exact Hr|]. unfold probe_block.
    destruct (probe_principals users now) as [|i l]; [done|]. cbn [app].
    rewrite (relay_selftest_decide _ _ _ u) by done.
    rewrite (probe_rules_decide _ _ u) by done. by destruct (_ && selftest_dest d c).
Qed.

(** *** Exit principals *)

Definition no_route (r : V) : Prop :=
  exists a, get_str r "action" = Some a /\ In a ["sniff"; "resolve"; "route-options"; "reject"].

Lemma no_route_obj kvs a :
  List.NoDup (map fst kvs) -> assoc "action" kvs = Some (jstr a) -> In a ["sniff"; "resolve"; "route-options"; "reject"] ->
  no_route (jobj kvs).
Proof. intros Hnd E Ha. exists a. rewrite get_str_obj, E by done. split; [apply jas_str_jstr|done]. Qed.

Lemma no_route_jset r k x : is_obj r -> k <> "action" -> no_route r -> no_route (jset r k x).
Proof. intros Hr Hk (a & Ha & Hin). exists a. by rewrite get_str_jset_other. Qed.

Lemma egress_no_route d b : Forall no_route (exit_egress_rules d b).
Proof.
  unfold exit_egress_rules. rewrite !Forall_app. split_and!.
  - repeat case_if; repeat constructor; eapply no_route_obj; (lit_nodup || done || (simpl; tauto)).
  - case_if; repeat constructor. repeat case_if; repeat (apply no_route_jset; [repeat apply is_obj_jset; apply is_obj_jobj; lit_nodup|done|]);
      eapply no_route_obj; (lit_nodup || done || (simpl; tauto)).
  - destruct (google_egress_tls_spoof d); repeat constructor; eapply no_route_obj; (lit_nodup || done || (simpl; tauto)).
Qed.

(** Rules that route nothing reject or pass the connection on. *)
Lemma decide_no_route rs rest c :
  Forall no_route rs ->
  decide (rs ++ rest) c = Rejected \/
  exists c', cn_inbound c' = cn_inbound c /\ cn_user c' = cn_user c /\ decide (rs ++ rest) c = decide rest c'.
Proof.
  intros Hrs. revert c. induction Hrs as [|r rs (a & Ha & Hin) _ IH]; intros c; [right; by exists c|].
  cbn [app]. destruct (String.eqb a "reject") eqn:E.
  - apply String.eqb_eq in E as ->. rewrite decide_reject by done. destruct (matches r c); [by left|apply IH].
  - apply String.eqb_neq in E. rewrite (decide_pass a) by (done || (simpl in *; intuition congruence)).
    destruct (matches r c); [|apply IH]. destruct (IH (effect r c)) as [?|(c' & H1 & H2 & H3)]; [by left|right].
    exists c'. by rewrite H1, H2, effect_inbound, effect_user.
Qed.

Lemma deny_block_shape d tags :
  Forall (fun r : V => is_obj r /\ has_key "auth_user" r = false /\ jget r "inbound" = Some (jstrs tags)) (deny_block d tags).
Proof.
  unfold deny_block. rewrite own_rule_spec. apply Forall_app.
  split; [|destruct (own_ips d)]; repeat constructor; unfold has_key; rewrite ?jget_obj by lit_nodup;
    try done; apply is_obj_jobj; lit_nodup.
Qed.

Lemma target_rejects_decide ps ts rest c :
  cn_inbound c = REALITY_INBOUND -> (exists u, cn_user c = Some u /\ In u ps) ->
  decide (map (scope ps) (map target_reject_rule ts) ++ rest) c =
  if existsb (reaches c) ts then Rejected else decide rest c.
Proof.
  intros Hi Hu. induction ts as [|t ts IH]; [done|]. cbn [map app existsb].
  assert (T : transparent (scope ps) c (target_reject_rule t)).
  { unfold target_reject_rule. apply transparent_scope; try done.
    - apply match_host_obj, is_obj_jobj. lit_nodup.
    - unfold match_host, has_key. destruct (parse_ip _); rewrite jget_jset, jget_obj by (lit_nodup || apply is_obj_jobj; lit_nodup); done.
    - left. unfold match_host. destruct (parse_ip _); rewrite jget_jset, jget_obj by (lit_nodup || apply is_obj_jobj; lit_nodup); done. }
  rewrite (transparent_reject (scope ps) c) by (done || (unfold target_reject_rule; rewrite get_str_match_host by (lit_nodup || tauto); literal_action)).
  rewrite IH. assert (matches (target_reject_rule t) c = reaches c t) as ->; [|by destruct (reaches c t)].
  unfold target_reject_rule, reaches, tcp_to.
  rewrite matches_host by (lit_nodup || (simpl; intros k Hk; intuition subst; done)).
  unfold required_items, item_or. cbn [forallb]. rewrite !jget_obj by lit_nodup. simpl.
  by rewrite item_network, item_port, !andb_true_r.
Qed.

Lemma scope_no_route ps r : is_obj r -> no_route r -> no_route (scope ps r).
Proof. intros Hr Hn. unfold scope. apply no_route_jset; [by apply is_obj_jset|done|]. by apply no_route_jset. Qed.

Lemma exit_principal_decide d ps rest c :
  ps <> [] -> cn_inbound c = REALITY_INBOUND -> (exists u, cn_user c = Some u /\ In u ps) ->
  let c' := effect (scope ps (resolve_rule [REALITY_INBOUND])) c in
  let verdict := decide (exit_principal_rules d ps ++ rest) c in
  (denied d c' || existsb (reaches c') (relay_targets d) = true -> verdict = Rejected) /\
  (verdict = Rejected \/ verdict = Routed "direct").
Proof.
  intros Hps Hi Hu c' verdict. assert (Hi' : cn_inbound c' = REALITY_INBOUND) by (unfold c'; by rewrite effect_inbound).
  assert (Hu' : exists u, cn_user c' = Some u /\ In u ps) by (unfold c'; by rewrite effect_user).
  assert (E : verdict = if denied d c' || existsb (reaches c') (relay_targets d) then Rejected else
                        decide (map (scope ps) (exit_egress_rules d false) ++ [scope ps (jobj route_direct_fields)] ++ rest) c').
  { unfold verdict, exit_principal_rules. destruct ps as [|p ps]; [done|]. rewrite app_assoc. fold (deny_block (V := V) d [REALITY_INBOUND]).
    rewrite !map_app, <- !app_assoc. rewrite deny_block_decides; [|rewrite Hi; by left|].
    - fold c'. cbn zeta. destruct (denied d c'); [done|]. by rewrite target_rejects_decide.
    - eapply Forall_impl; [apply deny_block_shape|]. intros r (H1 & H2 & H3). apply transparent_scope; tauto. }
  split; [intros Hden; by rewrite E, Hden|]. rewrite E. destruct (denied d c' || _); [by left|].
  destruct (decide_no_route (map (scope ps) (exit_egress_rules d false)) ([scope ps (jobj route_direct_fields)] ++ rest) c')
    as [H1|(c2 & Hi2 & Hu2 & ->)]; [|by left|right].
  - apply Forall_map. eapply Forall_impl; [apply Forall_and; split; [apply egress_obj|apply egress_no_route]|].
    intros r [H1 H2]. by apply scope_no_route.
  - cbn [app]. assert (T : transparent (scope ps) c2 (jobj route_direct_fields)).
    { apply transparent_scope; [apply is_obj_jobj; lit_nodup| |left; by rewrite jget_obj by lit_nodup|congruence|].
      - unfold has_key. by rewrite jget_obj by lit_nodup.
      - by rewrite Hu2. }
    destruct T as [A M]. rewrite (decide_route "direct").
    + rewrite M by done. by rule_eval.
    + rewrite A. literal_action.
    + unfold scope. rewrite !get_str_jset_other by (done || (repeat apply is_obj_jset; apply is_obj_jobj; lit_nodup)). literal_action.
Qed.

(** On a relay that serves exit principals, their connections on the
    REALITY inbound leave directly or are rejected, and never reach a declared
    peer, a C-16 range, the node itself or an SMTP port: a second hop cannot
    bounce to another relay. *)
Theorem exit_principals_never_bounce b64 d users r h now doc c u :
  render_server_config_for_deployment b64 d users r h now = Ok doc -> role d = Relay ->
  cn_inbound c = REALITY_INBOUND -> cn_user c = Some u -> In u (exit_principal_ids d users now) ->
  not_user c (probe_principals users now) -> not_user c (hairpin_principals users now) ->
  exists rules, rules_of doc = Some rules /\
    let c' := effect (scope (exit_principal_ids d users now) (resolve_rule [REALITY_INBOUND])) c in
    (denied d c' || existsb (reaches c') (relay_targets d) = true -> decide rules c = Rejected) /\
    (decide rules c = Rejected \/ decide rules c = Routed "direct").
Proof.
  intros Hok Hrole Hi Hu Hin Hp Hh. apply render_deployment_ok in Hok. rewrite Hrole in Hok. cbn zeta in Hok.
  destruct (relay_document d users r h (for_deployment d) now) as (doc' & E & _ & Hr).
  rewrite E in Hok. injection Hok as ->. eexists. split; [exact Hr|].
  rewrite decide_plain_prefix by done. apply exit_principal_decide; [by intros Hnil; rewrite Hnil in Hin|done|by exists u].
Qed.
End Verdicts.

(** ** A concrete sing-box, and witnesses *)

(** Connections to a literal address or a name; names resolve through a fixed
    table, and nothing is sniffed. *)
Record ex_conn := {
  xc_inbound : string; xc_user : option string; xc_network : string; xc_port : Z;
  xc_ip : option IpAddr; xc_domain : option string }.

Definition in_cidr (s : string) (ip : IpAddr) : bool :=
  match parse_cidr s, ip with
  | Some (V4 b, len), V4 a => cidr4 b len a
  | Some (V6 b, len), V6 a => cidr6 b len a
  | _, _ => false
  end.
Definition strs_of (v : json) : list string := match v with JArr l => omap jas_str l | _ => [] end.
Definition ex_item (k : string) (v : json) (c : ex_conn) : bool :=
  match k, v with
  | "inbound", _ => mem (xc_inbound c) (strs_of v)
  | "auth_user", _ => match xc_user c with Some u => mem u (strs_of v) | None => false end
  | "network", JStr s => String.eqb (xc_network c) s
  | "port", JNum p => xc_port c =? p
  | "ip_cidr", _ => match xc_ip c with Some ip => existsb (fun s => in_cidr s ip) (strs_of v) | None => false end
  | "domain", _ => match xc_domain c with Some n => mem n (strs_of v) | None => false end
  | "domain_suffix", _ =>
      match xc_domain c with
      | Some n => existsb (fun s => String.eqb n s || ends_with ("." +:+ s) n) (strs_of v)
      | None => false
      end
  | _, _ => false
  end.
Definition ex_resolve (n : string) : option IpAddr :=
  if String.eqb n "rebind.example.test" then parse_ip "127.0.0.1" else parse_ip "8.8.8.8".
Definition ex_effect (r : json) (c : ex_conn) : ex_conn :=
  if bool_decide (get_str r "action" = Some "resolve") then
    {| xc_inbound := xc_inbound c; xc_user := xc_user c; xc_network := xc_network c; xc_port := xc_port c;
       xc_ip := match xc_ip c, xc_domain c with None, Some n => ex_resolve n | ip, _ => ip end;
       xc_domain := xc_domain c |}
  else c.

#[export] Instance ex_singbox : SingBox json := {
  conn := ex_conn; cn_inbound := xc_inbound; cn_user := xc_user; cn_network := xc_network; cn_port := xc_port;
  item := ex_item; effect := ex_effect }.

Lemma strs_of_jstrs l : strs_of (jstrs l) = l.
Proof. unfold jstrs. simpl. induction l as [|s l IH]; csimpl; [done|]. by rewrite IH. Qed.

#[export] Instance ex_singbox_laws : SingBoxLaws json.
Proof.
  split; try (by intros; simpl; unfold ex_effect; case_bool_decide); try done; intros l c.
  - change (mem (xc_inbound c) (strs_of (jstrs l)) = mem (xc_inbound c) l). by rewrite strs_of_jstrs.
  - change (match xc_user c with Some u => mem u (strs_of (jstrs l)) | None => false end =
            match xc_user c with Some u => mem u l | None => false end). by rewrite strs_of_jstrs.
Qed.

Definition ex_account (id : string) (probe hairpin exit_ : bool) : Grants.CompatUser :=
  {| Grants.id := id; Grants.name := id; Grants.enabled := true;
     Grants.u_vless_uuid := "11111111-1111-4111-8111-111111111111"; Grants.u_hysteria2_password := "own-password";
     Grants.subscription_token_hash_hex := "7f"; Grants.created_at := 0; Grants.expires_at := None;
     Grants.vision_off_experiment := false; Grants.google_egress_hairpin := hairpin;
     Grants.exit_principal := exit_; Grants.peer_credentials := [];
     Grants.is_reserved_probe := probe; Grants.credentials := [] |}.
Definition ex_users : list Grants.CompatUser :=
  [ex_account "user_1" false false false; ex_account "probe_1" true false false;
   ex_account "hairpin_1" false true false; ex_account "exit_1" false false true].
Definition ex_reality : RealityServerParams :=
  {| private_key_hex := "k"; public_key_hex := "p"; short_ids := ["0a1b"]; handshake_server := "www.example.com";
     handshake_port := 443; google_egress_hairpin_uuid := None |}.
Definition ex_hysteria : Hysteria2ServerParams :=
  {| tls_cert_path := "c"; tls_key_path := "k"; obfs_password := None; masquerade_dir_path := None;
     hp_up_mbps := None; hp_down_mbps := None |}.
Definition with_role (r : NodeRole) (paths : list AccessPathSection) (peers : list PeerEndpointSection) : DeploymentConfig :=
  let d := ex_deployment paths peers in
  {| schema_version := schema_version d; node_id := node_id d; role := r; public_host := "198.41.0.4";
     subscription_host := subscription_host d; reality := reality d; hysteria2 := hysteria2 d;
     subscription := subscription d; udp_probe := None; state_dir := state_dir d; singbox_binary := singbox_binary d;
     access_paths := paths; peer_endpoints := peers; google_egress_hairpin := None; egress := None;
     google_egress_tls_spoof := None;
     exit_principals := if bool_decide (r = Relay) then Some {| xp_enabled := true |} else None;
     public_ipv4 := None; public_ipv6 := None |}.
Definition ex_relay_node : DeploymentConfig :=
  with_role Relay [ex_path "ru" "relay" (Some "reality-1")] [ex_peer "de1.example.test" "ru"].
Definition ex_exit_node : DeploymentConfig := with_role Exit [] [].

Definition ex_render (d : DeploymentConfig) (users : list Grants.CompatUser) : result json server_error :=
  render_server_config_for_deployment ex_key d users ex_reality ex_hysteria 1000.
Definition ex_to_ip (user : string) (port : Z) (ip : string) : ex_conn :=
  {| xc_inbound := REALITY_INBOUND; xc_user := Some user; xc_network := "tcp"; xc_port := port;
     xc_ip := parse_ip ip; xc_domain := None |}.
Definition ex_to_name (user : string) (port : Z) (n : string) : ex_conn :=
  {| xc_inbound := REALITY_INBOUND; xc_user := Some user; xc_network := "tcp"; xc_port := port;
     xc_ip := None; xc_domain := Some n |}.

Ltac other_user := let u := fresh in let E := fresh in let H := fresh in intros u E H; injection E as <-; vm_compute in H; intuition discriminate.

Lemma relay_forwards_only_to_declared_exits_witness :
  exists doc rules, ex_render ex_relay_node ex_users = Ok doc /\ rules_of doc = Some rules /\
    decide (SB := ex_singbox) rules (ex_to_name "user_1" 443 "de1.example.test") = Routed "direct".
Proof.
  destruct (ex_render ex_relay_node ex_users) as [doc|e] eqn:E; [|vm_compute in E; discriminate E].
  destruct (relay_forwards_only_to_declared_exits (V := json) (SB := ex_singbox) _ _ _ _ _ _ _ (ex_to_name "user_1" 443 "de1.example.test") E)
    as (rules & Hr & Hd); [reflexivity|left; reflexivity|other_user|other_user|other_user|].
  exists doc, rules. split; [reflexivity|]. split; [exact Hr|]. rewrite Hd. vm_compute. reflexivity.
Defined.

Lemma exit_denies_reserved_destinations_witness :
  exists doc rules, ex_render ex_exit_node ex_users = Ok doc /\ rules_of doc = Some rules /\
    decide (SB := ex_singbox) rules (ex_to_name "user_1" 80 "rebind.example.test") = Rejected.
Proof.
  destruct (ex_render ex_exit_node ex_users) as [doc|e] eqn:E; [|vm_compute in E; discriminate E].
  destruct (exit_denies_reserved_destinations (V := json) (SB := ex_singbox) _ _ _ _ _ _ _ (ex_to_name "user_1" 80 "rebind.example.test") E)
    as (rules & Hr & Hd); [reflexivity|left; reflexivity|other_user|].
  exists doc, rules. split; [reflexivity|]. split; [exact Hr|]. rewrite Hd. vm_compute. reflexivity.
Defined.

(** A node known by a name that declares no address of its own: a customer
    reaches the node's address, which a node declared by that address
    rejects. *)
Definition with_host (host : string) (d : DeploymentConfig) : DeploymentConfig :=
  {| schema_version := schema_version d; node_id := node_id d; role := role d; public_host := host;
     subscription_host := subscription_host d; reality := reality d; hysteria2 := hysteria2 d;
     subscription := subscription d; udp_probe := udp_probe d; state_dir := state_dir d; singbox_binary := singbox_binary d;
     access_paths := access_paths d; peer_endpoints := peer_endpoints d; google_egress_hairpin := google_egress_hairpin d; egress := egress d;
     google_egress_tls_spoof := google_egress_tls_spoof d; exit_principals := exit_principals d;
     public_ipv4 := public_ipv4 d; public_ipv6 := public_ipv6 d |}.
Definition ex_verdict (d : DeploymentConfig) (c : ex_conn) : option verdict :=
  match ex_render d ex_users with
  | Ok doc => match rules_of doc with Some rules => Some (decide (SB := ex_singbox) rules c) | None => None end
  | Err _ => None
  end.
Lemma undeclared_own_address_reachable :
  ex_verdict ex_exit_node (ex_to_ip "user_1" 80 "198.41.0.4") = Some Rejected /\
  ex_verdict (with_host "de1.example.test" ex_exit_node) (ex_to_ip "user_1" 80 "198.41.0.4") = Some Unmatched.
Proof. split; vm_compute; reflexivity. Qed.

Lemma ex_disjoint : principals_disjoint ex_relay_node ex_users 1000.
Proof. intros p Hp. vm_compute in Hp. destruct Hp as [<-|[]]. split; vm_compute; intuition discriminate. Qed.

Lemma probe_principals_confined_witness :
  exists doc rules, ex_render ex_relay_node ex_users = Ok doc /\ rules_of doc = Some rules /\
    decide (SB := ex_singbox) rules (ex_to_ip "probe_1" 443 "1.1.1.1") = Routed "direct".
Proof.
  destruct (ex_render ex_relay_node ex_users) as [doc|e] eqn:E; [|vm_compute in E; discriminate E].
  destruct (probe_principals_confined (V := json) (SB := ex_singbox) _ _ _ _ _ _ _ (ex_to_ip "probe_1" 443 "1.1.1.1") "probe_1" E)
    as (rules & Hr & Hd); [intros _; apply ex_disjoint|reflexivity|vm_compute; left; reflexivity|].
  exists doc, rules. split; [reflexivity|]. split; [exact Hr|]. rewrite Hd. vm_compute. reflexivity.
Defined.

Lemma exit_principals_never_bounce_witness :
  exists doc rules, ex_render ex_relay_node ex_users = Ok doc /\ rules_of doc = Some rules /\
    decide (SB := ex_singbox) rules (ex_to_name "exit_1" 443 "de1.example.test") = Rejected.
Proof.
  destruct (ex_render ex_relay_node ex_users) as [doc|e] eqn:E; [|vm_compute in E; discriminate E].
  destruct (exit_principals_never_bounce (V := json) (SB := ex_singbox) _ _ _ _ _ _ _ (ex_to_name "exit_1" 443 "de1.example.test") "exit_1" E)
    as (rules & Hr & Hd & _); [reflexivity|reflexivity|reflexivity|vm_compute; left; reflexivity|other_user|other_user|].
  exists doc, rules. split; [reflexivity|]. split; [exact Hr|]. apply Hd. vm_compute. reflexivity.
Defined.

(** A reserved probe account to which [vpn-admin user google-egress-hairpin]
    is applied (the command does not look at [is_reserved_probe]): its hairpin
    rules count as already scoped to the probe, stay ahead of the confinement,
    and the probe credential reaches the hairpin domains, against the comment
    of [apply_probe_user_confinement] that places hairpin rules behind. *)
Lemma hairpin_probe_escapes_confinement :
  exists doc rules, ex_render ex_relay_node [ex_account "probe_1" true true false] = Ok doc /\ rules_of doc = Some rules /\
    decide (SB := ex_singbox) rules (ex_to_name "probe_1" 80 "www.youtube.com") = Routed "direct".
Proof.
  destruct (ex_render ex_relay_node [ex_account "probe_1" true true false]) as [doc|e] eqn:E; [|vm_compute in E; discriminate E].
  vm_compute in E. injection E as <-. do 2 eexists. split; [reflexivity|]. split; [vm_compute; reflexivity|].
  vm_compute. reflexivity.
Qed.
End ServerPolicy.
