(* ===== verification/ServerDoctor.v ===== *)
(** * vpn-admin doctor against the renderer

    The checks doctor makes of a rendered server document (server.rs:
    [relay_policy_facts], [exit_egress_policy_matches] and the rule counts they
    use) accept what [render_server_config_for_deployment] renders, and what
    the two inbounds of that document authorize. *)

From S2P Require Import Prelude Strs Net NetText AddressPolicy Authorization Credentials Grants Json Contract.
From S2P Require Import Render Deployment Server ServerPolicy.

Module ServerDoctor.
Import Contract Render Deployment Server ServerPolicy.

(** ** Positions in a list *)

Lemma indexed_app {A} k (l m : list A) :
  combine (seq k (length (l ++ m))) (l ++ m) = combine (seq k (length l)) l ++ combine (seq (k + length l) (length m)) m.
Proof.
  revert k. induction l as [|x l IH]; intros k; simpl; [by rewrite Nat.add_0_r|].
  rewrite IH. by rewrite <- Nat.add_succ_comm.
Qed.

Lemma indexed_filter_none {A} (g : nat * A -> bool) k l :
  (forall i x, (k <= i < k + length l)%nat -> In x l -> g (i, x) = false) -> List.filter g (combine (seq k (length l)) l) = [].
Proof.
  revert k. induction l as [|x l IH]; intros k Hg; simpl; [done|].
  rewrite Hg by (simpl; auto; lia). apply IH. intros i y Hi Hy. apply Hg; [simpl; lia|by right].
Qed.

Lemma indexed_filter_count {A} (g : nat * A -> bool) (f : A -> bool) k l :
  (forall i x, (k <= i < k + length l)%nat -> g (i, x) = f x) ->
  length (List.filter g (combine (seq k (length l)) l)) = length (List.filter f l).
Proof.
  revert k. induction l as [|x l IH]; intros k Hg; simpl; [done|].
  rewrite Hg by (simpl; lia). assert (E := IH (S k)). destruct (f x); simpl; rewrite E; try done;
    intros i y Hi; apply Hg; simpl; lia.
Qed.

Lemma filter_none {A} (f : A -> bool) l : Forall (fun x => f x = false) l -> List.filter f l = [].
Proof. induction 1 as [|x l Hx _ IH]; simpl; [done|]. by rewrite Hx. Qed.
Lemma filter_every {A} (f : A -> bool) l : Forall (fun x => f x = true) l -> List.filter f l = l.
Proof. induction 1 as [|x l Hx _ IH]; simpl; [done|]. by rewrite Hx, IH. Qed.

(** The one element that satisfies [f], with its position. *)
Lemma indexed_unique {A} (f : A -> bool) a x c :
  Forall (fun y => f y = false) a -> f x = true -> Forall (fun y => f y = false) c ->
  List.filter (fun ir => f (snd ir)) (indexed (a ++ x :: c)) = [(length a, x)].
Proof.
  intros Ha Hx Hc. unfold indexed. rewrite indexed_app, List.filter_app. simpl. rewrite Hx.
  rewrite !indexed_filter_none; [done| |]; intros i y _ Hy; simpl; by eapply List.Forall_forall in Hy; [|eassumption].
Qed.

Lemma indexed_absent {A} (f : A -> bool) l :
  Forall (fun y => f y = false) l -> List.filter (fun ir => f (snd ir)) (indexed l) = [].
Proof.
  intros Hl. unfold indexed. apply indexed_filter_none. intros i y _ Hy. by eapply List.Forall_forall in Hy; [|exact Hl].
Qed.

(** Counting outside a block. *)
Lemma indexed_outside {A} (h : A -> bool) a b c :
  b <> [] ->
  length (List.filter (fun ir => ((length b =? 0)%nat || (fst ir <? length a)%nat || (length a + length b <=? fst ir)%nat)
                                 && h (snd ir)) (indexed (a ++ b ++ c))) =
  (length (List.filter h a) + length (List.filter h c))%nat.
Proof.
  intros Hb. assert (Hn : (length b =? 0)%nat = false) by (by destruct b). rewrite Hn.
  unfold indexed. rewrite !indexed_app, !List.filter_app, !length_app. simpl. f_equal; [|].
  - apply indexed_filter_count. intros i x Hi. simpl. assert ((i <? length a)%nat = true) as -> by (apply Nat.ltb_lt; lia). done.
  - rewrite indexed_filter_none; simpl.
    + apply indexed_filter_count. intros i x Hi. simpl.
      assert ((length a + length b <=? i)%nat = true) as -> by (apply Nat.leb_le; lia). by rewrite orb_true_r.
    + intros i x Hi _. simpl. assert ((i <? length a)%nat = false) as -> by (apply Nat.ltb_ge; lia).
      assert ((length a + length b <=? i)%nat = false) as -> by (apply Nat.leb_gt; lia). done.
Qed.

(** ** The shapes of rules *)

Section Doctor.
Context {V : Type} {JO : JsonOps V} {JL : JsonLaws V} {JT : JsonTree V} {JTL : JsonTreeLaws V}.
Context {JE : JsonEq V} {JEL : JsonEqLaws V}.

Lemma jeqb_refl (x : V) : jeqb x x = true.
Proof. by apply jeqb_spec. Qed.
Lemma values_eqb_refl (l : list V) : values_eqb l l = true.
Proof. induction l as [|x l IH]; simpl; [done|]. by rewrite jeqb_refl. Qed.
Lemma starts_with_values_app (l m : list V) : starts_with_values (l ++ m) l = true.
Proof. induction l as [|x l IH]; simpl; [by destruct m|]. by rewrite jeqb_refl. Qed.

Lemma is_str_obj kvs k s :
  List.NoDup (map fst kvs) ->
  is_str (V := V) k s (jobj kvs) = match assoc k kvs with Some x => bool_decide (jas_str x = Some s) | None => false end.
Proof. intros Hnd. unfold is_str. rewrite get_str_obj by done. by destruct (assoc k kvs). Qed.

Lemma member_is_obj kvs k (x : V) :
  List.NoDup (map fst kvs) -> member_is k x (jobj kvs) = match assoc k kvs with Some y => jeqb y x | None => false end.
Proof. intros Hnd. unfold member_is. by rewrite jget_obj. Qed.

Lemma has_key_obj kvs k :
  List.NoDup (map fst kvs) -> has_key (V := V) k (jobj kvs) = match assoc k kvs with Some _ => true | None => false end.
Proof. intros Hnd. unfold has_key. by rewrite jget_obj. Qed.

Ltac shape := rewrite ?is_str_obj, ?member_is_obj, ?has_key_obj by lit_nodup; simpl; rewrite ?jas_str_jstr, ?jeqb_refl; simpl.

(** A route of exit principals names them and has four members. *)
Lemma exit_route_size kvs : List.NoDup (map fst kvs) -> length kvs <> 4%nat -> is_exit_route (V := V) (jobj kvs) = false.
Proof.
  intros Hnd Hl. unfold is_exit_route. destruct (jcase_obj kvs Hnd) as (l & -> & Hp).
  apply Permutation_length in Hp. by destruct (Nat.eqb_spec (length l) 4); [lia|].
Qed.

Lemma exit_route_no_user (r : V) : has_key "auth_user" r = false -> is_exit_route r = false.
Proof.
  unfold has_key, is_exit_route, get_array. destruct (jget r "auth_user"); [done|]. intros _.
  destruct (jcase r); try done. by rewrite !andb_false_r.
Qed.

Lemma exit_route_no_inbound (r : V) : has_key "inbound" r = false -> is_exit_route r = false.
Proof.
  unfold has_key, is_exit_route, member_is. destruct (jget r "inbound"); [done|]. intros _.
  destruct (jcase r); try done. by rewrite !andb_false_r.
Qed.

Lemma exit_route_no_route (r : V) : no_route r -> is_exit_route r = false.
Proof.
  intros (a & Ha & Hin). unfold is_exit_route, is_str at 1. rewrite Ha. destruct (jcase r); try done.
  rewrite bool_decide_false; [by rewrite !andb_false_r|]. intros [= ->]. simpl in Hin. intuition discriminate.
Qed.

Lemma exit_route_last ps : is_exit_route (V := V) (scope ps (jobj route_direct_fields)) = true.
Proof.
  pose (kvs := [("auth_user", jstrs (V := V) ps); ("inbound", jstrs [REALITY_INBOUND]); ("action", jstr "route");
                ("outbound", jstr "direct")]).
  assert (scope ps (jobj route_direct_fields) = jobj kvs) as ->.
  { unfold scope. rewrite (jset_obj route_direct_fields) by lit_nodup. rewrite jset_obj by lit_nodup. done. }
  unfold is_exit_route. destruct (jcase_obj kvs) as (l & -> & Hp); [lit_nodup|]. unfold kvs.
  apply Permutation_length in Hp. rewrite Hp. simpl. shape. rewrite get_array_obj by lit_nodup. simpl.
  unfold jstrs. by rewrite jas_array_jarr.
Qed.

(** *** The probe block *)

Lemma probe_block_counted first ids (rest : list V) kvs :
  ids <> [] -> first ids = jobj kvs -> List.NoDup (map fst kvs) ->
  assoc "auth_user" kvs = Some (jstrs ids) -> assoc "ip_cidr" kvs = Some (jstrs ["127.0.0.1/32"]) ->
  assoc "action" kvs = Some (jstr "route") ->
  forall doc, rules_of doc = Some (probe_block first ids ++ rest) ->
  probe_confinement_rule_count doc = length (probe_block first ids).
Proof.
  intros Hids E Hnd Ha Hc Hact doc Hr. unfold probe_confinement_rule_count. rewrite Hr.
  destruct ids as [|i ids]; [done|]. cbn [probe_block app probe_rules].
  assert (is_loopback_selftest_exception (first (i :: ids)) = true) as ->.
  { rewrite E. unfold is_loopback_selftest_exception. rewrite has_key_obj, member_is_obj, is_str_obj by done.
    by rewrite Ha, Hc, Hact, jas_str_jstr, jeqb_refl, bool_decide_true. }
  cbn [skipn]. unfold is_probe. by shape.
Qed.

Lemma probe_block_absent doc rules :
  rules_of (V := V) doc = Some rules -> Forall (fun r => is_probe r = false) rules -> probe_confinement_rule_count doc = O.
Proof.
  intros Hr Hall. unfold probe_confinement_rule_count. rewrite Hr. destruct rules as [|r rules]; [done|].
  inversion_clear Hall as [|? ? H1 H2]. destruct (is_loopback_selftest_exception r); cbn [skipn].
  - destruct rules as [|a [|b [|c l]]]; try done. apply Forall_cons in H2 as [Ha _]. cbn. by rewrite Ha.
  - destruct rules as [|b [|c l]]; try done. cbn. by rewrite H1.
Qed.

Lemma not_probe_inbound (r : V) : has_key "inbound" r = true -> is_probe r = false.
Proof. intros E. unfold is_probe. by rewrite E, andb_false_r. Qed.
Lemma not_probe_user (r : V) : has_key "auth_user" r = false -> is_probe r = false.
Proof. intros E. unfold is_probe. by rewrite E. Qed.
Lemma scope_inbound ps (r : V) : is_obj r -> has_key "inbound" (scope ps r) = true.
Proof. intros Hr. unfold scope. by rewrite !jset_has_key by (try apply is_obj_jset; done). Qed.

(** *** The exit-principal block *)

Definition exit_pre (d : DeploymentConfig) : list V :=
  deny_block d [REALITY_INBOUND] ++ map target_reject_rule (relay_targets d) ++ exit_egress_rules d false.

Lemma exit_rules_eq d ps :
  ps <> [] -> exit_principal_rules d ps = map (scope ps) (exit_pre d) ++ [scope ps (jobj (V := V) route_direct_fields)].
Proof.
  intros Hps. unfold exit_principal_rules, exit_pre, deny_block. destruct ps as [|p ps]; [done|].
  rewrite !map_app, <- !app_assoc. done.
Qed.

Lemma target_reject_shape t : is_obj (V := V) (target_reject_rule t) /\ no_route (target_reject_rule (V := V) t).
Proof.
  unfold target_reject_rule. split; [apply match_host_obj, is_obj_jobj; lit_nodup|].
  exists "reject". rewrite get_str_match_host, get_str_obj by (lit_nodup || tauto). split; [apply jas_str_jstr|simpl; tauto].
Qed.

Lemma deny_block_no_route d tags : Forall (no_route (V := V)) (deny_block d tags).
Proof.
  unfold deny_block. rewrite own_rule_spec. apply Forall_app.
  split; [|destruct (own_ips d)]; repeat constructor; eapply no_route_obj; (lit_nodup || done || (simpl; tauto)).
Qed.

Lemma exit_pre_shape d : Forall (fun r => is_obj r /\ no_route r) (exit_pre d).
Proof.
  unfold exit_pre. rewrite !Forall_app. split_and!.
  - apply Forall_and. split; [apply deny_block_obj|apply deny_block_no_route].
  - apply Forall_map, Forall_true. intros t. apply target_reject_shape.
  - apply Forall_and. split; [apply egress_obj|apply egress_no_route].
Qed.

Lemma exit_rules_inbound d ps : Forall (fun r => has_key (V := V) "inbound" r = true) (exit_principal_rules d ps).
Proof.
  destruct ps as [|p ps]; [constructor|]. rewrite exit_rules_eq by done. apply Forall_app. split.
  - apply Forall_map. eapply Forall_impl; [apply exit_pre_shape|]. intros r [Hr _]. by apply scope_inbound.
  - repeat constructor. apply scope_inbound, is_obj_jobj. lit_nodup.
Qed.

(** *** Hairpin and target rules *)

Lemma hairpin_rules_shape d p :
  Forall (fun r => has_key (V := V) "inbound" r = true /\ is_exit_route r = false /\ hairpin_shaped r = true)
    (hairpin_principal_rules d p).
Proof.
  unfold hairpin_principal_rules, hairpin_shaped. rewrite !Forall_app.
  split_and!; [|destruct (google_egress_tls_spoof d)|]; repeat constructor; shape; try done;
    apply exit_route_size; (lit_nodup || done).
Qed.

Lemma hairpin_block_shape d users now :
  Forall (fun r => has_key (V := V) "inbound" r = true /\ is_exit_route r = false /\ hairpin_shaped r = true)
    (hairpin_block d users now).
Proof.
  apply List.Forall_forall. intros r (p & _ & Hr)%in_flat_map. by eapply List.Forall_forall in Hr; [|apply hairpin_rules_shape].
Qed.

Lemma final_rules_shape d :
  Forall (fun r => has_key (V := V) "inbound" r = true /\ has_key "auth_user" r = false)
    (map target_rule (relay_targets d) ++ [reject_rest]).
Proof.
  apply Forall_app. split.
  - apply Forall_map, Forall_true. intros t. split; [|apply target_no_user].
    unfold target_rule, match_host. destruct (parse_ip _); rewrite jset_has_key by (apply is_obj_jobj; lit_nodup); by shape.
  - repeat constructor; unfold reject_rest; by shape.
Qed.

Lemma probe_rules_shape first ids kvs :
  first ids = jobj kvs -> List.NoDup (map fst kvs) -> length kvs <> 4%nat ->
  assoc "action" kvs = Some (jstr "route") -> assoc "domain_suffix" kvs = None ->
  Forall (fun r => is_exit_route (V := V) r = false /\ hairpin_shaped r = false) (probe_block first ids).
Proof.
  intros E Hnd Hl Ha Hd. unfold probe_block. destruct ids as [|i ids]; [constructor|]. constructor.
  - rewrite E. split; [by apply exit_route_size|]. unfold hairpin_shaped.
    rewrite !has_key_obj, is_str_obj, Ha, Hd, jas_str_jstr by done. by rewrite bool_decide_false, andb_false_r.
  - unfold hairpin_shaped. repeat constructor; try (by shape); apply exit_route_no_inbound; by shape.
Qed.

(** ** What doctor finds in rendered documents *)

Lemma exit_accepted d users r h ports now :
  (google_egress_hairpin d <> None -> google_egress_hairpin_uuid r <> None) ->
  exit_egress_policy_matches d (render_exit d users r (render_singbox_server_config (V := V) users r h ports now) now) = true.
Proof.
  intros Hh. set (doc := render_exit _ _ _ _ _). destruct (exit_document (V := V) d users r h ports now) as (Hr & Hf & Hi).
  fold doc in Hr, Hf, Hi. unfold exit_egress_policy_matches. rewrite Hr, Hi, base_inbounds, base_tags.
  assert (Hc : probe_confinement_rule_count doc =
    length (probe_block (fun ids => jobj (V := V) (selftest_exception d ids)) (probe_principals users now))).
  { unfold exit_rules in Hr. destruct (probe_principals users now) as [|i l].
    - apply (probe_block_absent doc _ Hr). apply Forall_app. split; [constructor|]. apply Forall_app. split.
      + eapply Forall_impl; [apply deny_block_shape|]. intros x (_ & Hx & _). by apply not_probe_user.
      + apply List.Forall_forall. intros x Hx. pose proof (exit_tail_no_user (V := V) d r) as Hn.
        rewrite forallb_forall in Hn. apply not_probe_user, negb_true_iff. by apply Hn.
    - eapply probe_block_counted; [done|done|lit_nodup|done|done|done|exact Hr]. }
  rewrite Hc. unfold exit_rules. fold INBOUNDS. fold (deny_block (V := V) d INBOUNDS).
  assert (Nat.ltb (length (probe_block (fun ids => jobj (V := V) (selftest_exception d ids)) (probe_principals users now) ++
            deny_block d INBOUNDS ++ exit_tail d r))
           (length (probe_block (fun ids => jobj (V := V) (selftest_exception d ids)) (probe_principals users now))) = false) as ->
    by (apply Nat.ltb_ge; rewrite length_app; lia).
  rewrite drop_app_length, starts_with_values_app. cbn [negb]. rewrite drop_app_length.
  assert (He : hairpin_on d r = is_some (google_egress_hairpin d)).
  { unfold hairpin_on. destruct (google_egress_hairpin d), (google_egress_hairpin_uuid r); try done. by destruct Hh. }
  unfold exit_tail. rewrite He, values_eqb_refl. cbn [andb]. unfold route_of in Hf.
  destruct (jget doc "route") as [x|]; [|by rewrite jget_obj in Hf by constructor].
  destruct (is_object x); [|by rewrite jget_obj in Hf by constructor].
  unfold is_str, get_str. rewrite Hf, jas_str_jstr. by apply bool_decide_true.
Qed.

(** The parts of a relay document. *)
Section RelayDocument.
Context (d : DeploymentConfig) (users : list Grants.CompatUser) (now : Z) (doc : V).
Let pb := probe_block (relay_loopback_rule (V := V) d) (probe_principals users now).
Let ps := exit_principal_ids d users now.
Hypothesis Hrules : rules_of doc = Some (pb ++ relay_tail d users now).

Lemma relay_probe_count : probe_confinement_rule_count doc = length pb.
Proof.
  unfold pb in *. destruct (probe_principals users now) as [|i l].
  - apply (probe_block_absent doc _ Hrules). unfold relay_tail. apply Forall_app. split; [constructor|].
    apply Forall_app. split; [|apply Forall_app; split].
    + eapply Forall_impl; [apply hairpin_block_shape|]. intros x (Hx & _). by apply not_probe_inbound.
    + eapply Forall_impl; [apply exit_rules_inbound|]. intros x. apply not_probe_inbound.
    + eapply Forall_impl; [apply final_rules_shape|]. intros x (Hx & _). by apply not_probe_inbound.
  - eapply probe_block_counted; [done|done|lit_nodup|done|done|done|exact Hrules].
Qed.

Lemma pb_shape : Forall (fun r => is_exit_route r = false /\ hairpin_shaped r = false) pb.
Proof. eapply probe_rules_shape; [done|lit_nodup|done|done|done]. Qed.

Let before := pb ++ hairpin_block d users now.
Let after := map target_rule (relay_targets d) ++ [reject_rest (V := V)].

Lemma tail_split : pb ++ relay_tail d users now = before ++ exit_principal_rules d ps ++ after.
Proof. unfold relay_tail, before, after, exit_block_rules, ps. by rewrite <- !app_assoc. Qed.

Lemma before_not_exit : Forall (fun r => is_exit_route r = false) before.
Proof.
  apply Forall_app. split; (eapply Forall_impl; [apply pb_shape || apply hairpin_block_shape|]); naive_solver.
Qed.
Lemma after_shape : Forall (fun r => is_exit_route r = false /\ hairpin_shaped r = false) after.
Proof.
  eapply Forall_impl; [apply final_rules_shape|]. intros r (_ & Hr). split; [by apply exit_route_no_user|].
  unfold hairpin_shaped. by rewrite Hr.
Qed.

Lemma relay_exit_block :
  exit_block d (pb ++ relay_tail d users now) = Some
    match ps with
    | [] => (O, O, [])
    | _ => (length before, length (exit_principal_rules (V := V) d ps), sort_stable str_leb ps)
    end.
Proof.
  rewrite tail_split. unfold exit_block.
  assert (Ha : Forall (fun r => is_exit_route r = false) after) by (eapply Forall_impl; [apply after_shape|]; naive_solver).
  assert (ps = [] \/ ps <> []) as [E|Hps] by (destruct (exit_principal_ids d users now); [by left|by right]).
  - rewrite E. rewrite indexed_absent; [done|]. apply Forall_app. split; [apply before_not_exit|done].
  - assert (He : exit_principals_enabled d = true).
    { unfold ps, exit_principal_ids in Hps. by destruct (exit_principals_enabled d). }
    clearbody ps.
    assert (Hn : Forall (fun r => is_exit_route r = false) (before ++ map (scope ps) (exit_pre d))).
    { apply Forall_app. split; [apply before_not_exit|]. apply Forall_map. eapply Forall_impl; [apply exit_pre_shape|].
      intros r [H1 H2]. by apply exit_route_no_route, scope_no_route. }
    set (x := scope ps (jobj (V := V) route_direct_fields)).
    assert (Es : before ++ exit_principal_rules d ps ++ after = (before ++ map (scope ps) (exit_pre d)) ++ x :: after).
    { rewrite exit_rules_eq by done. unfold x. by rewrite <- !app_assoc. }
    rewrite Es, indexed_unique by (done || apply exit_route_last). rewrite He. cbn [negb].
    assert (Hx : get_array x "auth_user" = Some (map jstr ps)).
    { unfold get_array, x. rewrite named_scope by (apply is_obj_jobj; lit_nodup). apply jas_array_jarr. }
    assert (Ho : omap jas_str (map (jstr (V := V)) ps) = ps).
    { clear -JL. induction ps as [|p l IH]; csimpl; [done|]. by rewrite jas_str_jstr, IH. }
    rewrite Hx, Ho, bool_decide_false by done. cbn [orb].
    assert (Hlen : length (exit_principal_rules (V := V) d ps) = S (length (exit_pre d))).
    { rewrite exit_rules_eq, length_app, length_map by done. simpl. lia. }
    rewrite Hlen, length_app, length_map. destruct (Nat.ltb_spec (S (length before + length (exit_pre d))) (S (length (exit_pre d)))); [lia|].
    replace (S (length before + length (exit_pre d)) - S (length (exit_pre d)))%nat with (length before) by lia.
    rewrite <- Es, drop_app_length, <- Hlen, take_app_length, values_eqb_refl. by destruct ps.
Qed.

Lemma hairpin_count_all : length (List.filter hairpin_shaped before) = length (hairpin_block (V := V) d users now).
Proof.
  unfold before. rewrite List.filter_app, filter_none, filter_every; [done| |].
  - eapply Forall_impl; [apply hairpin_block_shape|]. naive_solver.
  - eapply Forall_impl; [apply pb_shape|]. naive_solver.
Qed.

Lemma relay_facts :
  relay_policy_facts d doc =
  {| fail_closed := true; targets := length (relay_targets d);
     f_exit_principal_rules := length (exit_principal_rules (V := V) d ps); principals := sort_stable str_leb ps |}.
Proof.
  unfold relay_policy_facts. rewrite Hrules, relay_exit_block, relay_probe_count.
  assert (Hh : List.filter hairpin_shaped after = []).
  { apply filter_none. eapply Forall_impl; [apply after_shape|]. naive_solver. }
  assert (Hl : last (pb ++ relay_tail d users now) = Some reject_rest).
  { rewrite tail_split. unfold after. rewrite !app_assoc. apply last_snoc. }
  assert (Hr : is_str (V := V) "action" "reject" reject_rest = true).
  { unfold reject_rest. rewrite is_str_obj by lit_nodup. simpl. by rewrite jas_str_jstr. }
  assert (Hlen : length (pb ++ relay_tail d users now) =
    (length (relay_targets d) + 1 + length (hairpin_block (V := V) d users now) + length pb + length (exit_principal_rules (V := V) d ps))%nat).
  { rewrite tail_split. unfold before, after. rewrite !length_app, length_map. simpl. lia. }
  rewrite Hl, Hr, Hlen, tail_split. cbn [andb]. assert (ps = [] \/ ps <> []) as [E|Hps] by (destruct (exit_principal_ids d users now); [by left|by right]).
  - rewrite E. cbn [exit_principal_rules app length Nat.eqb orb andb].
    unfold indexed. rewrite (indexed_filter_count _ hairpin_shaped) by done.
    rewrite List.filter_app, Hh, app_nil_r, hairpin_count_all. f_equal. by rewrite Nat.eqb_refl.
  - clearbody ps. assert (He : exit_principal_rules (V := V) d ps <> []) by by destruct ps.
    destruct ps as [|p l] eqn:Eps; [done|]. rewrite <- Eps in *.
    rewrite indexed_outside, Hh, hairpin_count_all, Nat.add_0_r by done. f_equal. by rewrite Nat.eqb_refl.
Qed.
End RelayDocument.

(** C24: Doctor accepts what the renderer writes: on an exit the egress policy
    matches (given that a configured hairpin has its credential), and on a
    relay (given that probe principals are not also hairpin or exit principals)
    the document is found fail-closed, with the declared targets, the
    exit-principal block of the rendered length and exactly the authorized
    exit principals. *)
Theorem doctor_accepts_rendered b64 d users r h now doc :
  render_server_config_for_deployment (V := V) b64 d users r h now = Ok doc ->
  (role d = Exit -> google_egress_hairpin d <> None -> google_egress_hairpin_uuid r <> None) ->
  (role d = Relay -> principals_disjoint d users now) ->
  match role d with
  | Exit => exit_egress_policy_matches d doc = true
  | Relay => relay_policy_facts d doc =
      {| fail_closed := true; targets := length (relay_targets d);
         f_exit_principal_rules := length (exit_principal_rules (V := V) d (exit_principal_ids d users now));
         principals := sort_stable str_leb (exit_principal_ids d users now) |}
  end.
Proof.
  intros Hok Hh Hd. apply render_deployment_ok in Hok. destruct (role d); cbn zeta in Hok.
  - subst doc. apply exit_accepted. by apply Hh.
  - destruct (relay_document_disjoint (V := V) d users r h (for_deployment d) now (Hd eq_refl)) as (doc' & E & _ & Hr).
    rewrite E in Hok. injection Hok as ->. by apply relay_facts.
Qed.

(** ** The credentials of a document *)

Definition listed (inbound : V) (k : string) : list (option string * option string) :=
  match get_array inbound "users" with
  | Some us => map (fun u => (get_str u "name", get_str u k)) us
  | None => []
  end.

Lemma authorized_grants_spec users now u g :
  In (u, g) (authorized_grants users now) <->
  In u users /\ Grants.is_active u now = true /\ In g (Grants.effective_grants u) /\ Grants.grant_is_authorized g now = true.
Proof.
  unfold authorized_grants. rewrite in_flat_map. split.
  - intros (x & Hx & Hg). apply In_filterb in Hx as [Hx Ha]. apply in_map_iff in Hg as (y & [= -> ->] & Hy).
    apply In_filterb in Hy. tauto.
  - intros (H1 & H2 & H3 & H4). exists u. split; [by apply In_filterb|]. apply in_map, In_filterb. done.
Qed.

Lemma vless_listed users r port now :
  listed (vless_inbound users r port now) "uuid" =
  map (fun ug => (Some (Grants.principal_id (snd ug)), Some (Grants.vless_uuid (snd ug)))) (authorized_grants users now).
Proof.
  unfold listed, vless_inbound. rewrite get_array_obj by lit_nodup. simpl. rewrite jas_array_jarr, map_map.
  apply map_ext. intros ug. unfold vless_user. rewrite !get_str_obj by lit_nodup. simpl. by rewrite !jas_str_jstr.
Qed.

Lemma hysteria_listed users h port now :
  listed (hysteria_inbound users h port now) "password" =
  map (fun ug => (Some (Grants.principal_id (snd ug)), Some (Grants.hysteria2_password (snd ug)))) (authorized_grants users now).
Proof.
  unfold listed, get_array. rewrite hysteria_inbound_get by (by right). simpl. rewrite jas_array_jarr, map_map.
  apply map_ext. intros ug. unfold hysteria_user. rewrite !get_str_obj by lit_nodup. simpl. by rewrite !jas_str_jstr.
Qed.

Lemma rendered_inbounds b64 d users r h now doc :
  render_server_config_for_deployment (V := V) b64 d users r h now = Ok doc ->
  inbounds_of doc = Some [vless_inbound users r (vless_reality_port (for_deployment d)) now;
                          hysteria_inbound users h (hysteria2_port (for_deployment d)) now].
Proof.
  intros Hok. apply render_deployment_ok in Hok. rewrite <- (base_inbounds users r h). destruct (role d); cbn zeta in Hok.
  - subst doc. apply exit_document.
  - destruct (relay_document (V := V) d users r h (for_deployment d) now) as (doc' & E & Hi & _).
    rewrite E in Hok. by injection Hok as ->.
Qed.

(** C23: In both roles the rendered document has the two inbounds, and each
    accepts exactly the credentials of the grants that are authorized now on
    accounts that are active now: nothing expired, revoked or disabled, and
    nothing authorized is missing. *)
Theorem rendered_credentials_exact b64 d users r h now doc :
  render_server_config_for_deployment (V := V) b64 d users r h now = Ok doc ->
  exists vless hysteria, inbounds_of doc = Some [vless; hysteria] /\
    forall name secret,
      (In (Some name, Some secret) (listed vless "uuid") <->
       exists u g, In u users /\ Grants.is_active u now = true /\ In g (Grants.effective_grants u) /\
         Grants.grant_is_authorized g now = true /\ name = Grants.principal_id g /\ secret = Grants.vless_uuid g) /\
      (In (Some name, Some secret) (listed hysteria "password") <->
       exists u g, In u users /\ Grants.is_active u now = true /\ In g (Grants.effective_grants u) /\
         Grants.grant_is_authorized g now = true /\ name = Grants.principal_id g /\ secret = Grants.hysteria2_password g).
Proof.
  intros Hok. apply rendered_inbounds in Hok. do 2 eexists. split; [exact Hok|]. intros name secret.
  rewrite vless_listed, hysteria_listed, !in_map_iff. split; split.
  - intros ([u g] & [= <- <-] & Hin). apply authorized_grants_spec in Hin. exists u, g. tauto.
  - intros (u & g & H1 & H2 & H3 & H4 & -> & ->). exists (u, g). split; [done|]. by apply authorized_grants_spec.
  - intros ([u g] & [= <- <-] & Hin). apply authorized_grants_spec in Hin. exists u, g. tauto.
  - intros (u & g & H1 & H2 & H3 & H4 & -> & ->). exists (u, g). split; [done|]. by apply authorized_grants_spec.
Qed.
End Doctor.

(** ** Witnesses *)

Lemma doctor_accepts_rendered_witness :
  exists doc, ex_render ex_relay_node ex_users = Ok doc /\
    relay_policy_facts ex_relay_node doc =
      {| fail_closed := true; targets := 1; f_exit_principal_rules := 7; principals := ["exit_1"] |}.
Proof.
  destruct (ex_render ex_relay_node ex_users) as [doc|e] eqn:E; [|vm_compute in E; discriminate E].
  exists doc. split; [reflexivity|].
  rewrite (doctor_accepts_rendered (V := json) _ ex_relay_node _ _ _ _ _ E); [vm_compute; reflexivity|discriminate|].
  intros _. apply ex_disjoint.
Defined.

Lemma rendered_credentials_exact_witness :
  exists doc vless hysteria, ex_render ex_exit_node ex_users = Ok doc /\ inbounds_of doc = Some [vless; hysteria] /\
    In (Some "user_1", Some "own-password") (listed hysteria "password").
Proof.
  destruct (ex_render ex_exit_node ex_users) as [doc|e] eqn:E; [|vm_compute in E; discriminate E].
  destruct (rendered_credentials_exact (V := json) _ _ _ _ _ _ _ E) as (v & h & Hi & Hl).
  exists doc, v, h. split; [reflexivity|]. split; [exact Hi|]. apply Hl.
  exists (ex_account "user_1" false false false), (nth 0 (Grants.effective_grants (ex_account "user_1" false false false)) (Grants.ex_grant 0 0 0)).
  repeat split; vm_compute; (reflexivity || tauto).
Defined.

(** [relay_policy_facts] counts rules: a rule that lets every connection out
    directly, in the place of the one forwarding rule, leaves [fail_closed]
    true, although the field is documented as "forward only to declared exits
    or reject". *)
Lemma doctor_counts_target_rules :
  let rules := [jobj route_direct_fields; reject_rest] in
  let doc := jobj (V := json) [("route", jobj [("rules", jarr rules)])] in
  fail_closed (relay_policy_facts ex_relay_node doc) = true /\
  forall c : ex_conn, ServerPolicy.decide (V := json) rules c = Routed "direct".
Proof. split; [vm_compute; reflexivity|]. intros c. reflexivity. Qed.

(** With a hairpin on the probe account, doctor refuses what the renderer
    wrote. *)
Lemma doctor_refuses_hairpin_probe :
  exists doc, ex_render ex_relay_node [ex_account "probe_1" true true false] = Ok doc /\
    fail_closed (relay_policy_facts ex_relay_node doc) = false.
Proof.
  destruct (ex_render ex_relay_node [ex_account "probe_1" true true false]) as [doc|e] eqn:E; [|vm_compute in E; discriminate E].
  vm_compute in E. injection E as <-. eexists. split; [reflexivity|]. vm_compute. reflexivity.
Qed.
End ServerDoctor.
