(* ===== verification/Store.v ===== *)
(** * crates/compat-config/src/store.rs, migrate.rs and ownership.rs

    The user store on disk: parsing of its two formats, the atomic save, the
    explicit migration, and the ownership rule both apply before renaming.

    Files live in a map from paths to content, mode and owner.  Every system
    call takes its outcome from a list of faults: [Fails n] makes the call
    return an error, after [n] bytes when it is a write.  None of the functions
    does anything after an error but return it, so a crash at a call leaves
    what a failure of that call leaves.  A path is a directory and a file name
    (the sources' paths all have both); [ser_users], [de_users] and
    [de_legacy] are the serde implementations of the two formats. *)

From S2P Require Import Prelude Strs Credentials Grants.
From Stdlib Require Import Ascii.

Module Store.

Definition USERS_SCHEMA_VERSION : Z := 1.

Record UsersFile := { schema_version : Z; users : list Grants.CompatUser }.

(** ** Files *)

Record path := { dir : string; name : string }.
#[global] Instance path_eq_dec : EqDecision path.
Proof. solve_decision. Defined.
#[global] Instance path_countable : Countable path.
Proof. refine (inj_countable' (fun p => (dir p, name p)) (fun '(d, n) => {| dir := d; name := n |}) _). by intros []. Defined.

Record file := { content : string; mode : Z; uid : Z; gid : Z }.
Record dirent := { d_mode : Z; d_gid : Z }.
Record FS := { files : gmap path file; dirs : gmap string dirent }.

Inductive fault := Fine | Fails (n : nat).

Inductive store_error :=
| Io
| Parse
| ConfigValidationFailed
| UnsupportedSchema (found max_supported : Z).

(** A computation on the file system under a list of faults. *)
Definition io (A : Type) : Type := FS -> list fault -> result A store_error * FS * list fault.

Definition ret {A} (a : A) : io A := fun fs fl => (Ok a, fs, fl).
Definition throw {A} (e : store_error) : io A := fun fs fl => (Err e, fs, fl).
Definition bind {A B} (m : io A) (k : A -> io B) : io B := fun fs fl =>
  match m fs fl with
  | (Ok a, fs', fl') => k a fs' fl'
  | (Err e, fs', fl') => (Err e, fs', fl')
  end.
Notation "'do!' x := m 'in' k" := (bind m (fun x => k))
  (at level 200, x name, m at level 100, k at level 200) : vpn_scope.

(** A system call: on success [full], on failure [partial n]. *)
Definition syscall {A} (partial : nat -> FS -> FS) (full : FS -> result A store_error * FS) : io A :=
  fun fs fl =>
    match fl with
    | Fails n :: fl' => (Err Io, partial n fs, fl')
    | Fine :: fl' => (full fs, fl')
    | [] => (full fs, [])
    end.
Definition unchanged (n : nat) (fs : FS) : FS := fs.

Definition put (p : path) (f : file) (fs : FS) : FS := {| files := <[p := f]> (files fs); dirs := dirs fs |}.

(** [OpenOptions::write(true).create(true).truncate(true).mode(m).open(p)]: a
    new file belongs to the caller, to the group the system picks for its
    directory ([new_gid]), and takes [m] less the process umask; an existing
    one is truncated and keeps its mode and owner. *)
Section Calls.
Context (me_uid umask : Z) (new_gid : string -> Z).

Definition open_truncate (p : path) (m : Z) : io unit :=
  syscall unchanged (fun fs =>
    let f := match files fs !! p with
             | Some f => {| content := EmptyString; mode := mode f; uid := uid f; gid := gid f |}
             | None => {| content := EmptyString; mode := Z.ldiff m umask; uid := me_uid; gid := new_gid (dir p) |}
             end in
    (Ok tt, put p f fs)).

Definition on_file {A} (p : path) (k : file -> result A store_error * file) (fs : FS)
  : result A store_error * FS :=
  match files fs !! p with
  | Some f => let '(r, f') := k f in (r, put p f' fs)
  | None => (Err Io, fs)
  end.

Definition set_permissions (p : path) (m : Z) : io unit :=
  syscall unchanged (on_file p (fun f =>
    (Ok tt, {| content := content f; mode := m; uid := uid f; gid := gid f |}))).

Definition append (s : string) (f : file) : file :=
  {| content := content f +:+ s; mode := mode f; uid := uid f; gid := gid f |}.

(** [write_all]: a failure may come after some of the bytes. *)
Definition write_all (p : path) (bytes : string) : io unit :=
  syscall (fun n fs => snd (on_file p (fun f => (Ok tt, append (String.substring 0 n bytes) f)) fs))
    (on_file p (fun f => (Ok tt, append bytes f))).

Definition sync_all (p : path) : io unit := syscall unchanged (fun fs => (Ok tt, fs)).

Definition read_file (p : path) : io string :=
  syscall unchanged (on_file p (fun f => (Ok (content f), f))).

Definition chown (p : path) (u g : Z) : io unit :=
  syscall unchanged (on_file p (fun f =>
    (Ok tt, {| content := content f; mode := mode f; uid := u; gid := g |}))).

Definition rename (src dst : path) : io unit :=
  syscall unchanged (fun fs =>
    match files fs !! src with
    | Some f => (Ok tt, {| files := <[dst := f]> (delete src (files fs)); dirs := dirs fs |})
    | None => (Err Io, fs)
    end).

Definition create_dir_all (d : string) : io unit :=
  syscall unchanged (fun fs =>
    (Ok tt, {| files := files fs;
               dirs := match dirs fs !! d with
                       | Some _ => dirs fs
                       | None => <[d := {| d_mode := Z.ldiff 511 umask; d_gid := new_gid d |}]> (dirs fs)
                       end |})).

Definition set_dir_mode_0750 (d : string) : io unit :=
  syscall unchanged (fun fs =>
    match dirs fs !! d with
    | Some e => (Ok tt, {| files := files fs; dirs := <[d := {| d_mode := 488; d_gid := d_gid e |}]> (dirs fs) |})
    | None => (Err Io, fs)
    end).

(** [metadata]: the owner and group of a file, the group of a directory. *)
Definition metadata (p : path) : io (Z * Z) :=
  syscall unchanged (on_file p (fun f => (Ok (uid f, gid f), f))).
Definition dir_metadata (d : string) : io Z :=
  syscall unchanged (fun fs =>
    match dirs fs !! d with Some e => (Ok (d_gid e), fs) | None => (Err Io, fs) end).

(** Errors that are looked at instead of returned. *)
Definition try {A} (m : io A) : io (option A) := fun fs fl =>
  match m fs fl with
  | (Ok a, fs', fl') => (Ok (Some a), fs', fl')
  | (Err _, fs', fl') => (Ok None, fs', fl')
  end.

(** ** ownership.rs *)

Definition preserve_ownership_before_rename (tmp target : path) : io unit :=
  do! meta := try (metadata target) in
  match meta with
  | Some (u, g) => chown tmp u g
  | None =>
      do! own := metadata tmp in
      do! g := dir_metadata (dir target) in
      chown tmp (fst own) g
  end.

(** ** migrate.rs *)

Definition write_file_mode (p : path) (bytes : string) (m : Z) : io unit :=
  do! _ := open_truncate p m in
  do! _ := set_permissions p m in
  do! _ := write_all p bytes in
  sync_all p.

Definition sibling (p : path) (suffix : string) : path :=
  {| dir := dir p; name := name p +:+ suffix |}.

Section Process.
(** The process id and the clock, as they are printed. *)
Context (pid ts : string).

Definition tmp_sibling_path (p : path) : path := sibling p (".tmp." +:+ pid).
Definition backup_path (p : path) : path := sibling p (".pre-migration-" +:+ ts +:+ ".bak").

(** The last step of both atomic writes ignores errors. *)
Definition fsync_parent_dir : io unit :=
  do! _ := try (syscall unchanged (fun fs => (Ok tt, fs)) : io unit) in ret tt.

Definition backup_before_mutate (p : path) : io path :=
  do! bytes := read_file p in
  do! _ := write_file_mode (backup_path p) bytes 384 in
  ret (backup_path p).

Definition atomic_write (p : path) (bytes : string) (m : Z) : io unit :=
  do! _ := create_dir_all (dir p) in
  do! _ := write_file_mode (tmp_sibling_path p) bytes m in
  do! _ := preserve_ownership_before_rename (tmp_sibling_path p) p in
  do! _ := rename (tmp_sibling_path p) p in
  fsync_parent_dir.

(** ** store.rs *)

Context (ser_users : UsersFile -> string) (de_users : string -> option UsersFile)
  (de_legacy : string -> option (list Grants.CompatUser)).

Inductive UsersSchemaState :=
| Missing | Legacy | Current | Future (found : Z) | Corrupted.

(** [Path::exists] is also false when the file cannot be examined. *)
Definition exists_ (p : path) : io bool :=
  do! meta := try (metadata p) in
  ret (match meta with Some _ => true | None => false end).

Definition classify (bytes : string) : UsersSchemaState :=
  match de_users bytes with
  | Some versioned =>
      if USERS_SCHEMA_VERSION <? schema_version versioned then Future (schema_version versioned) else Current
  | None => match de_legacy bytes with Some _ => Legacy | None => Corrupted end
  end.

Definition detect_users_schema (p : path) : io UsersSchemaState :=
  do! ex := exists_ p in
  if negb ex then ret Missing else
  do! bytes := try (read_file p) in
  match bytes with None => ret Corrupted | Some bytes => ret (classify bytes) end.

Definition parse_users_bytes (bytes : string) : result (list Grants.CompatUser) store_error :=
  match de_users bytes with
  | Some versioned =>
      if USERS_SCHEMA_VERSION <? schema_version versioned
      then Err (UnsupportedSchema (schema_version versioned) USERS_SCHEMA_VERSION)
      else Ok (users versioned)
  | None => ok_or (de_legacy bytes) Parse
  end.

Definition lift {A} (r : result A store_error) : io A := fun fs fl => (r, fs, fl).

Definition load_users (p : path) : io (list Grants.CompatUser) :=
  do! ex := exists_ p in
  if negb ex then ret [] else
  do! bytes := read_file p in
  lift (parse_users_bytes bytes).

Definition envelope (us : list Grants.CompatUser) : UsersFile :=
  {| schema_version := USERS_SCHEMA_VERSION; users := us |}.

Definition save_users_atomic (p : path) (us : list Grants.CompatUser) : io unit :=
  do! _ := create_dir_all (dir p) in
  do! _ := set_dir_mode_0750 (dir p) in
  let json := ser_users (envelope us) in
  let tmp := tmp_sibling_path p in
  do! _ := write_file_mode tmp json 416 in
  do! _ := preserve_ownership_before_rename tmp p in
  do! _ := rename tmp p in
  fsync_parent_dir.

Inductive UsersMigrationOutcome := OMissing | AlreadyCurrent | Migrated (backup : path).

Definition migrate_users (p : path) : io UsersMigrationOutcome :=
  do! state := detect_users_schema p in
  match state with
  | Missing => ret OMissing
  | Current => ret AlreadyCurrent
  | Future found => throw (UnsupportedSchema found USERS_SCHEMA_VERSION)
  | Corrupted => throw Parse
  | Legacy =>
      do! bytes := read_file p in
      do! legacy := lift (ok_or (de_legacy bytes) Parse) in
      let json := ser_users (envelope legacy) in
      do! reparsed := lift (ok_or (de_users json) Parse) in
      if negb (schema_version reparsed =? USERS_SCHEMA_VERSION)
         || negb (Nat.eqb (length (users reparsed)) (length legacy))
      then throw Parse else
      do! backup := backup_before_mutate p in
      do! _ := atomic_write p json 416 in
      ret (Migrated backup)
  end.

End Process.
End Calls.

(** ** Reasoning about faulty runs *)

Lemma bind_inv {A B} (m : io A) (k : A -> io B) fs fl r fs' fl' :
  bind m k fs fl = (r, fs', fl') ->
  (exists a fs1 fl1, m fs fl = (Ok a, fs1, fl1) /\ k a fs1 fl1 = (r, fs', fl')) \/
  (exists e, m fs fl = (Err e, fs', fl') /\ r = Err e).
Proof.
  unfold bind. destruct (m fs fl) as [[[a|e] fs1] fl1] eqn:E; intros H.
  - left. by exists a, fs1, fl1.
  - right. injection H as <- <- <-. by exists e.
Qed.

Ltac io_bind H :=
  let a := fresh "a" in let fs := fresh "fs" in let fl := fresh "fl" in let E := fresh "E" in
  let e := fresh "e" in let Er := fresh "Er" in
  apply bind_inv in H as [(a & fs & fl & E & H)|(e & E & Er)].

(** [m] changes no file but those in [S]. *)
Definition frame (S : path -> Prop) {A} (m : io A) : Prop :=
  forall fs fl r fs' fl' q, m fs fl = (r, fs', fl') -> ~ S q -> files fs' !! q = files fs !! q.

Lemma frame_ret S {A} (a : A) : frame S (ret a).
Proof. intros fs fl r fs' fl' q [= <- <- <-]. done. Qed.
Lemma frame_throw S {A} e : frame S (throw (A := A) e).
Proof. intros fs fl r fs' fl' q [= <- <- <-]. done. Qed.
Lemma frame_lift S {A} (r0 : result A store_error) : frame S (lift r0).
Proof. intros fs fl r fs' fl' q [= <- <- <-]. done. Qed.
Lemma frame_bind S {A B} (m : io A) (k : A -> io B) :
  frame S m -> (forall a, frame S (k a)) -> frame S (bind m k).
Proof.
  intros Hm Hk fs fl r fs' fl' q H Hq. io_bind H.
  - rewrite (Hk _ _ _ _ _ _ _ H Hq). by eapply Hm.
  - by eapply Hm.
Qed.
Lemma frame_try S {A} (m : io A) : frame S m -> frame S (try m).
Proof.
  intros Hm fs fl r fs' fl' q. unfold try. destruct (m fs fl) as [[[a|e] fs1] fl1] eqn:E;
    intros [= <- <- <-]; eauto.
Qed.
Lemma frame_syscall S {A} partial (full : FS -> result A store_error * FS) :
  (forall n fs q, ~ S q -> files (partial n fs) !! q = files fs !! q) ->
  (forall fs q, ~ S q -> files (snd (full fs)) !! q = files fs !! q) ->
  frame S (syscall partial full).
Proof.
  intros Hp Hf fs fl r fs' fl' q. unfold syscall. destruct fl as [|[|n] fl0].
  - destruct (full fs) as [r0 fs0] eqn:E. intros [= <- <- <-] Hq. by rewrite <- (Hf fs q Hq), E.
  - destruct (full fs) as [r0 fs0] eqn:E. intros [= <- <- <-] Hq. by rewrite <- (Hf fs q Hq), E.
  - intros [= <- <- <-] Hq. by apply Hp.
Qed.
Lemma frame_weaken (S S' : path -> Prop) {A} (m : io A) :
  (forall q, S q -> S' q) -> frame S m -> frame S' m.
Proof. intros HS Hm fs fl r fs' fl' q E Hq. eapply Hm; eauto. Qed.

Create HintDb frame.
#[export] Hint Resolve frame_ret frame_throw frame_lift frame_bind frame_try frame_syscall : frame.

Lemma on_file_frame {A} p (k : file -> result A store_error * file) fs q :
  q <> p -> files (snd (on_file p k fs)) !! q = files fs !! q.
Proof.
  intros Hq. unfold on_file. destruct (files fs !! p); [|done]. destruct (k f). simpl.
  by rewrite lookup_insert_ne.
Qed.

Lemma syscall_ok {A} partial (full : FS -> result A store_error * FS) fs fl a fs' fl' :
  syscall partial full fs fl = (Ok a, fs', fl') -> full fs = (Ok a, fs') /\ (fl = [] -> fl' = []).
Proof.
  unfold syscall. destruct fl as [|[|n] fl0]; intros H; [| |discriminate];
    (destruct (full fs) as [r0 fs0]; injection H as <- <- <-; done).
Qed.

Lemma on_file_ok {A} p (k : file -> result A store_error * file) fs a fs' :
  on_file p k fs = (Ok a, fs') -> exists f f', files fs !! p = Some f /\ k f = (Ok a, f') /\ fs' = put p f' fs.
Proof.
  unfold on_file. destruct (files fs !! p) as [f|]; [|discriminate].
  destruct (k f) as [r f'] eqn:E. intros [= -> <-]. by exists f, f'.
Qed.

Section Proofs.
Context (me_uid umask : Z) (new_gid : string -> Z) (pid ts : string).
Context (ser_users : UsersFile -> string) (de_users : string -> option UsersFile)
  (de_legacy : string -> option (list Grants.CompatUser)).

Local Notation write_file_mode := (write_file_mode me_uid umask new_gid).
Local Notation tmp := (tmp_sibling_path pid).
Local Notation save_users_atomic := (save_users_atomic me_uid umask new_gid pid ser_users).
Local Notation atomic_write := (atomic_write me_uid umask new_gid pid).
Local Notation load_users := (load_users de_users de_legacy).
Local Notation migrate_users := (migrate_users me_uid umask new_gid pid ts ser_users de_users de_legacy).

Lemma write_file_mode_frame p bytes m : frame (fun q => q = p) (write_file_mode p bytes m).
Proof.
  unfold Store.write_file_mode, open_truncate, set_permissions, write_all, sync_all.
  apply frame_bind; [|intros _; apply frame_bind; [|intros _; apply frame_bind; [|intros _]]];
    apply frame_syscall; try done; intros; try (by apply on_file_frame); simpl; by rewrite lookup_insert_ne.
Qed.

Lemma write_file_mode_ok p bytes m fs fl fs' fl' :
  write_file_mode p bytes m fs fl = (Ok tt, fs', fl') ->
  exists u g, files fs' !! p = Some {| content := bytes; mode := m; uid := u; gid := g |} /\
    dirs fs' = dirs fs /\ (fl = [] -> fl' = []).
Proof.
  unfold Store.write_file_mode. intros H.
  io_bind H; [|discriminate]. apply syscall_ok in E as [E Hl]. injection E as E.
  io_bind H; [|discriminate]. apply syscall_ok in E0 as [E0 Hl0]. apply on_file_ok in E0 as (f1 & f1' & Hf1 & Hk1 & ->).
  io_bind H; [|discriminate]. apply syscall_ok in E0 as [E0 Hl1]. apply on_file_ok in E0 as (f2 & f2' & Hf2 & Hk2 & ->).
  apply syscall_ok in H as [H Hl2]. injection H as <-. injection Hk1 as <- <-. injection Hk2 as _ <-.
  simpl in *. rewrite lookup_insert in Hf2. simpl in Hf2.
  destruct (decide (p = p)); [|done]. injection Hf2 as <-.
  assert (Hc : content f1 = EmptyString /\ dirs fs0 = dirs fs).
  { subst fs0. simpl in Hf1. rewrite lookup_insert in Hf1. destruct (decide (p = p)); [|done].
    destruct (files fs !! p); injection Hf1 as <-; done. }
  destruct Hc as [Hc Hd]. exists (uid f1), (gid f1). unfold append. simpl. rewrite lookup_insert, Hc.
  destruct (decide (p = p)); [|done]. split; [done|]. split; [done|]. auto.
Qed.

Lemma preserve_frame t p : frame (fun q => q = t) (preserve_ownership_before_rename t p).
Proof.
  unfold preserve_ownership_before_rename, metadata, dir_metadata, chown.
  assert (Hid : forall (q : path) k, (forall f, snd (k f) = f) ->
    forall fs, files (snd (on_file (A := Z * Z) q k fs)) = files fs).
  { intros q k Hk fs. unfold on_file. destruct (files fs !! q) as [f|] eqn:E; [|done].
    specialize (Hk f). destruct (k f) as [r f']. simpl in *. subst. by apply insert_id. }
  apply frame_bind; [apply frame_try, frame_syscall; [done|]; intros; by rewrite Hid|].
  intros [[u g]|]; [apply frame_syscall; [done|]; intros; by apply on_file_frame|].
  apply frame_bind; [apply frame_syscall; [done|]; intros; by rewrite Hid|]. intros own.
  apply frame_bind; [apply frame_syscall; [done|]; intros; by destruct (dirs fs !! dir p)|]. intros g.
  apply frame_syscall; [done|]. intros; by apply on_file_frame.
Qed.

Lemma try_ok {A} (m : io A) fs fl o fs' fl' :
  try m fs fl = (Ok o, fs', fl') ->
  exists r, m fs fl = (r, fs', fl') /\ o = match r with Ok a => Some a | Err _ => None end.
Proof.
  unfold try. destruct (m fs fl) as [[[a|e] fs1] fl1]; intros [= <- <- <-]; [by exists (Ok a)|by exists (Err e)].
Qed.

Lemma metadata_spec p fs fl r fs' fl' :
  metadata p fs fl = (r, fs', fl') -> fs' = fs /\ (forall a, r = Ok a -> exists f, files fs !! p = Some f /\ a = (uid f, gid f)) /\
    (fl = [] -> fl' = [] /\ (files fs !! p <> None -> is_ok r = true)).
Proof.
  unfold metadata, syscall, on_file. destruct (files fs !! p) as [f|] eqn:Ef.
  - assert (Hp : put p f fs = fs) by (unfold put; destruct fs; simpl in *; by rewrite insert_id).
    destruct fl as [|[|n] fl0]; intros H; injection H as <- <- <-; rewrite ?Hp; (split; [done|]);
      (split; [|done]); [..|discriminate]; intros a [= <-]; by exists f.
  - destruct fl as [|[|n] fl0]; intros H; injection H as <- <- <-; (split; [done|]); split; done.
Qed.

Lemma preserve_ok t p fs fl fs' fl' f :
  t <> p -> files fs !! t = Some f ->
  preserve_ownership_before_rename t p fs fl = (Ok tt, fs', fl') ->
  exists u g, files fs' !! t = Some {| content := content f; mode := mode f; uid := u; gid := g |} /\
    (fl = [] -> fl' = [] /\ forall old, files fs !! p = Some old -> u = uid old /\ g = gid old).
Proof.
  intros Hne Hf. unfold preserve_ownership_before_rename. intros H.
  assert (Hch : forall u g fs1 fl1, files fs1 !! t = Some f -> chown t u g fs1 fl1 = (Ok tt, fs', fl') ->
    files fs' !! t = Some {| content := content f; mode := mode f; uid := u; gid := g |} /\ (fl1 = [] -> fl' = [])).
  { intros u g fs1 fl1 Hf1 Hc. apply syscall_ok in Hc as [Hc Hl]. apply on_file_ok in Hc as (f1 & f1' & Hf1' & Hk & ->).
    rewrite Hf1 in Hf1'. injection Hf1' as <-. injection Hk as <-. simpl. by rewrite lookup_insert_eq. }
  io_bind H; [|discriminate]. apply try_ok in E as (r & E & ->).
  apply metadata_spec in E as (-> & Hm & Hl). destruct r as [[u g]|e]; simpl in H.
  - apply Hch in H as [H Hl2]; [|done]. exists u, g. split; [done|]. intros Hn. destruct (Hl Hn) as [Hl' _].
    split; [auto|]. intros old Hold. destruct (Hm _ eq_refl) as (f0 & Hf0 & [= -> ->]).
    rewrite Hold in Hf0. by injection Hf0 as <-.
  - io_bind H; [|discriminate]. apply metadata_spec in E as (-> & Hm2 & Hl2).
    io_bind H; [|discriminate]. apply syscall_ok in E as [E Hl3].
    assert (fs0 = fs) as -> by (destruct (dirs fs !! dir p); [by injection E|discriminate]).
    apply Hch in H as [H Hl4]; [|done]. eexists _, _. split; [exact H|]. intros Hn.
    destruct (Hl Hn) as [-> Hok]. destruct (Hl2 eq_refl) as [-> _]. split; [auto|].
    intros old Hold. rewrite Hold in Hok. simpl in Hok. specialize (Hok ltac:(done)). done.
Qed.

Lemma tmp_ne p : tmp p <> p.
Proof.
  intros E. apply (f_equal (fun q => slen (name q))) in E. unfold tmp_sibling_path, sibling in E. simpl in E.
  rewrite !slen_app in E. pose proof (slen_nonneg pid). change (slen ".tmp.") with 5 in E. lia.
Qed.

(** The common tail of both atomic writes. *)
Definition publish (p : path) (bytes : string) (m : Z) : io unit :=
  do! _ := write_file_mode (tmp p) bytes m in
  do! _ := preserve_ownership_before_rename (tmp p) p in
  do! _ := rename (tmp p) p in
  fsync_parent_dir.

Lemma fsync_parent_dir_spec fs fl r fs' fl' :
  fsync_parent_dir fs fl = (r, fs', fl') -> r = Ok tt /\ fs' = fs.
Proof.
  unfold fsync_parent_dir, bind, try, syscall, ret. destruct fl as [|[|n] fl0]; intros H; by injection H as <- <- <-.
Qed.

(** The last steps: the temporary file takes the place of the target. *)
Definition swap (p : path) : io unit :=
  do! _ := preserve_ownership_before_rename (tmp p) p in
  do! _ := rename (tmp p) p in
  fsync_parent_dir.

Lemma swap_spec p f fs fl r fs' fl' :
  files fs !! tmp p = Some f -> swap p fs fl = (r, fs', fl') ->
  (forall q, q <> p -> q <> tmp p -> files fs' !! q = files fs !! q) /\
  match r with
  | Ok _ => exists f', files fs' !! p = Some f' /\ content f' = content f /\ mode f' = mode f /\ files fs' !! tmp p = None /\
      (fl = [] -> forall old, files fs !! p = Some old -> uid f' = uid old /\ gid f' = gid old)
  | Err _ => files fs' !! p = files fs !! p
  end.
Proof.
  unfold swap. intros Hf H. pose proof (tmp_ne p) as Hne.
  io_bind H; [|subst r; pose proof (preserve_frame _ _ _ _ _ _ _ p E) as Hp;
    split; [intros q ? ?; by eapply preserve_frame|]; by rewrite Hp by congruence].
  assert (Hpr : forall q, q <> tmp p -> files fs0 !! q = files fs !! q) by (intros q Hq; by eapply preserve_frame).
  destruct a. apply (preserve_ok _ _ _ _ _ _ _ Hne Hf) in E as (u & g & Hf1 & Hown).
  io_bind H.
  - apply syscall_ok in E as [E _]. rewrite Hf1 in E. injection E as <- <-.
    apply fsync_parent_dir_spec in H as [-> ->]. simpl. split.
    + intros q Hq Hq'. rewrite lookup_insert_ne, lookup_delete_ne by congruence. auto.
    + eexists. rewrite lookup_insert_eq, lookup_insert_ne, lookup_delete_eq by congruence.
      split; [done|]. simpl. do 3 (split; [done|]). intros ->. by destruct (Hown eq_refl) as [_ Ho].
  - subst r. assert (fs' = fs0) as ->.
    { unfold rename, syscall in E. rewrite Hf1 in E. by destruct fl0 as [|[|n] fl2]; simplify_eq. }
    split; [intros; by apply Hpr|]. apply Hpr. congruence.
Qed.

(** What a file looks like after a run that either replaces it or does not. *)
Definition replaced (fs fs' : FS) (fl : list fault) (p : path) (bytes : string) (m : Z)
  (r : result unit store_error) : Prop :=
  (forall q, q <> p -> q <> tmp p -> files fs' !! q = files fs !! q) /\
  match r with
  | Ok _ => exists f, files fs' !! p = Some f /\ content f = bytes /\ mode f = m /\ files fs' !! tmp p = None /\
      (fl = [] -> forall old, files fs !! p = Some old -> uid f = uid old /\ gid f = gid old)
  | Err _ => files fs' !! p = files fs !! p
  end.

Lemma publish_spec p bytes m fs fl r fs' fl' :
  publish p bytes m fs fl = (r, fs', fl') -> replaced fs fs' fl p bytes m r.
Proof.
  unfold publish, replaced. intros H. pose proof (tmp_ne p) as Hne.
  io_bind H; [|subst r; pose proof (write_file_mode_frame _ _ _ _ _ _ _ _ p E) as Hp;
    split; [intros q ? ?; by eapply write_file_mode_frame|]; apply Hp; congruence].
  assert (Hw : forall q, q <> tmp p -> files fs0 !! q = files fs !! q)
    by (intros q Hq; by eapply write_file_mode_frame).
  destruct a. apply write_file_mode_ok in E as (u0 & g0 & Hf & Hd & Hl).
  apply (swap_spec _ _ _ _ _ _ _ Hf) in H as [Ho Hr]. split; [intros q Hq Hq'; rewrite Ho, Hw by done; done|].
  rewrite (Hw p) in Hr by congruence. destruct r; [|done]. destruct Hr as (f' & ? & ? & ? & ? & Hown). exists f'. auto 10.
Qed.

(** ** Loading, saving, migrating *)

(** The result of a load on which no system call fails. *)
Definition loaded (fs : FS) (p : path) : result (list Grants.CompatUser) store_error :=
  match files fs !! p with
  | None => Ok []
  | Some f => parse_users_bytes de_users de_legacy (content f)
  end.

Lemma load_no_fault p fs : load_users p fs [] = (loaded fs p, fs, []).
Proof.
  unfold Store.load_users, exists_, loaded, bind, try, metadata, syscall, on_file, ret.
  destruct (files fs !! p) as [f|] eqn:Ef; simpl; [|done].
  assert (Hp : put p f fs = fs) by (unfold put; destruct fs; simpl in *; by rewrite insert_id).
  rewrite Hp. unfold read_file, syscall, on_file. rewrite Ef, Hp. done.
Qed.

(** A load that returns a list returns the stored one; only a load whose first
    call, examining the file, fails returns the empty list instead. *)
Lemma load_ok p fs fl us fs' fl' :
  load_users p fs fl = (Ok us, fs', fl') -> loaded fs p = Ok us \/ us = [] /\ exists n fl0, fl = Fails n :: fl0.
Proof.
  destruct fl as [|[|n] fl0].
  - rewrite load_no_fault. intros [= -> _ _]. by left.
  - unfold Store.load_users, exists_, loaded, bind, try, metadata, syscall, on_file, ret.
    destruct (files fs !! p) as [f|] eqn:Ef; simpl; [|intros [= <- _ _]; by left].
    assert (Hp : put p f fs = fs) by (unfold put; destruct fs; simpl in *; by rewrite insert_id).
    rewrite Hp. unfold read_file, syscall, on_file. destruct fl0 as [|[|m] fl1]; [| |discriminate];
      rewrite Ef, Hp; intros [= H _ _]; by left.
  - unfold Store.load_users, exists_, bind, try, metadata, syscall, ret. simpl. intros [= <- _ _]. right. eauto.
Qed.

Lemma dir_calls_files (m : io unit) fs fl r fs' fl' :
  frame (fun _ => False) m -> m fs fl = (r, fs', fl') -> files fs' = files fs.
Proof. intros Hm E. apply map_eq. intros q. eapply Hm; [exact E|]. auto. Qed.

Lemma create_dir_frame d : frame (fun _ => False) (create_dir_all umask new_gid d).
Proof. by apply frame_syscall. Qed.
Lemma set_dir_mode_frame d : frame (fun _ => False) (set_dir_mode_0750 d).
Proof. apply frame_syscall; [done|]. intros fs q _. by destruct (dirs fs !! d). Qed.

(** The fault list only shrinks, so an empty one stays empty. *)
Definition quiet {A} (m : io A) : Prop := forall fs r fs' fl', m fs [] = (r, fs', fl') -> fl' = [].
Lemma quiet_syscall {A} partial (full : FS -> result A store_error * FS) : quiet (syscall partial full).
Proof. intros fs r fs' fl'. unfold syscall. destruct (full fs). by intros [= <- <- <-]. Qed.

Lemma replaced_files fs0 fs fs' fl p bytes m r :
  files fs0 = files fs -> replaced fs0 fs' fl p bytes m r -> replaced fs fs' fl p bytes m r.
Proof. unfold replaced. by intros ->. Qed.

Lemma replaced_err fs fs' fl p bytes m e : files fs' = files fs -> replaced fs fs' fl p bytes m (Err e).
Proof. intros Hf. split; [intros q _ _|]; by rewrite Hf. Qed.

Lemma replaced_quiet fs fs' fl fl0 p bytes m r :
  (fl = [] -> fl0 = []) -> replaced fs fs' fl0 p bytes m r -> replaced fs fs' fl p bytes m r.
Proof.
  intros Hq [Ho Hr]. split; [done|]. destruct r; [|done].
  destruct Hr as (f & ? & ? & ? & ? & Hown). exists f. auto 10.
Qed.

Lemma save_spec p us fs fl r fs' fl' :
  save_users_atomic p us fs fl = (r, fs', fl') -> replaced fs fs' fl p (ser_users (envelope us)) 416 r.
Proof.
  unfold Store.save_users_atomic. intros H.
  io_bind H; [|subst r; by eapply replaced_err, dir_calls_files, E; apply create_dir_frame].
  pose proof (dir_calls_files _ _ _ _ _ _ (create_dir_frame _) E) as Hf.
  apply syscall_ok in E as [_ Hq].
  io_bind H; [|subst r; rewrite <- (dir_calls_files _ _ _ _ _ _ (set_dir_mode_frame _) E) in Hf; by apply replaced_err].
  pose proof (dir_calls_files _ _ _ _ _ _ (set_dir_mode_frame _) E) as Hf2.
  apply syscall_ok in E as [_ Hq2].
  apply (publish_spec p) in H. eapply replaced_files; [by rewrite Hf2|]. eapply replaced_quiet; [|exact H]. auto.
Qed.

Lemma atomic_write_spec p bytes m fs fl r fs' fl' :
  atomic_write p bytes m fs fl = (r, fs', fl') -> replaced fs fs' fl p bytes m r.
Proof.
  unfold Store.atomic_write. intros H.
  io_bind H; [|subst r; by eapply replaced_err, dir_calls_files, E; apply create_dir_frame].
  pose proof (dir_calls_files _ _ _ _ _ _ (create_dir_frame _) E) as Hf. apply syscall_ok in E as [_ Hq].
  apply (publish_spec p) in H. eapply replaced_files; [done|]. by eapply replaced_quiet.
Qed.

Section Serde.
Hypothesis serde_roundtrip : forall f, de_users (ser_users f) = Some f.

(** C22: the save is all or nothing.  Whatever system call fails, and after
    however many bytes, [users.json] afterwards loads as exactly the new user
    list if the save reported success and as what it loaded as before if it
    did not; no file but [users.json] and the process's own temporary file is
    touched.  A successful save leaves mode 0640 and no temporary file, and
    when no call failed the previous owner and group. *)
Theorem save_all_or_nothing p us fs fl r fs' fl' :
  save_users_atomic p us fs fl = (r, fs', fl') ->
  (forall q, q <> p -> q <> tmp p -> files fs' !! q = files fs !! q) /\
  match r with
  | Ok _ => fst (fst (load_users p fs' [])) = Ok us /\ files fs' !! tmp p = None /\
      exists f, files fs' !! p = Some f /\ mode f = 416 /\
        (fl = [] -> forall old, files fs !! p = Some old -> uid f = uid old /\ gid f = gid old)
  | Err _ => fst (fst (load_users p fs' [])) = fst (fst (load_users p fs []))
  end.
Proof.
  intros H. apply save_spec in H as [Ho Hr]. split; [done|]. rewrite !load_no_fault. simpl.
  unfold loaded. destruct r as [[]|e].
  - destruct Hr as (f & Hf & Hc & Hm & Ht & Hown). rewrite Hf, Hc. unfold parse_users_bytes.
    rewrite serde_roundtrip. split; [done|]. split; [done|]. by exists f.
  - by rewrite Hr.
Qed.

Lemma backup_ne p : backup_path ts p <> p /\ backup_path ts p <> tmp p.
Proof.
  unfold backup_path, tmp_sibling_path, sibling. split; intros E; apply (f_equal name) in E; simpl in E.
  - apply (f_equal slen) in E. rewrite !slen_app in E. pose proof (slen_nonneg ts).
    change (slen ".pre-migration-") with 15 in E. change (slen ".bak") with 4 in E. lia.
  - apply (inj (String.app (name p))) in E. discriminate.
Qed.

Lemma frame_read p {A} (k : file -> result A store_error * file) :
  (forall f, snd (k f) = f) -> frame (fun _ => False) (syscall unchanged (on_file p k)).
Proof.
  intros Hk. apply frame_syscall; [done|]. intros fs q _. unfold on_file.
  destruct (files fs !! p) as [f|] eqn:E; [|done]. specialize (Hk f). destruct (k f) as [r f']. simpl in *. subst.
  by rewrite insert_id.
Qed.

Lemma read_file_frame p : frame (fun _ => False) (read_file p).
Proof. by apply frame_read. Qed.

Lemma detect_frame p : frame (fun _ => False) (detect_users_schema de_users de_legacy p).
Proof.
  unfold detect_users_schema, exists_, read_file, metadata. apply frame_bind.
  - apply frame_bind; [by apply frame_try, frame_read|intros ?; apply frame_ret].
  - intros b. destruct (negb b); [apply frame_ret|]. apply frame_bind; [by apply frame_try, frame_read|].
    intros [x|]; apply frame_ret.
Qed.

Lemma files_eq_frame {A} (m : io A) fs fl r fs' fl' :
  frame (fun _ => False) m -> m fs fl = (r, fs', fl') -> files fs' = files fs.
Proof. intros Hm E. apply map_eq. intros q. eapply Hm; [exact E|]. auto. Qed.

Lemma read_file_ok p fs fl bytes fs' fl' :
  read_file p fs fl = (Ok bytes, fs', fl') -> exists f, files fs !! p = Some f /\ bytes = content f /\ files fs' = files fs.
Proof.
  intros E. apply syscall_ok in E as [E _]. apply on_file_ok in E as (f & f' & Hf & Hk & ->).
  injection Hk as <- <-. exists f. simpl. by rewrite insert_id.
Qed.

(** The users a legacy file stands for survive its rewriting. *)
Lemma loaded_migrated fs fs' p f f' us :
  files fs !! p = Some f -> de_users (content f) = None -> de_legacy (content f) = Some us ->
  files fs' !! p = Some f' -> content f' = ser_users (envelope us) -> loaded fs' p = loaded fs p.
Proof.
  intros Hf Hn Hl Hf' Hc. unfold loaded, parse_users_bytes. by rewrite Hf, Hf', Hc, serde_roundtrip, Hn, Hl.
Qed.

Lemma detect_legacy p fs fl fs' fl' :
  detect_users_schema de_users de_legacy p fs fl = (Ok Legacy, fs', fl') ->
  exists f us, files fs !! p = Some f /\ de_users (content f) = None /\ de_legacy (content f) = Some us /\
    files fs' = files fs.
Proof.
  intros H. pose proof (files_eq_frame _ _ _ _ _ _ (detect_frame p) H) as Hff.
  unfold detect_users_schema in H. io_bind H; [|discriminate].
  assert (Hf0 : files fs0 = files fs).
  { unfold exists_ in E. io_bind E; [|discriminate]. apply try_ok in E0 as (r & E0 & ->).
    apply metadata_spec in E0 as (-> & _). by injection E as _ <- _. }
  destruct (negb a); [discriminate|]. io_bind H; [|discriminate].
  apply try_ok in E0 as (r & E0 & ->). destruct r as [bytes|]; [|discriminate].
  apply read_file_ok in E0 as (f & Hf & -> & _). injection H as Hc _ _. rewrite Hf0 in Hf.
  unfold classify in Hc. destruct (de_users (content f)) eqn:Eu; [by case_if|].
  destruct (de_legacy (content f)) as [us|] eqn:El; [|discriminate]. by exists f, us.
Qed.

Lemma migrate_current p fs f us :
  files fs !! p = Some f -> content f = ser_users (envelope us) ->
  fst (fst (migrate_users p fs [])) = Ok AlreadyCurrent.
Proof.
  intros Hf Hc. unfold Store.migrate_users, detect_users_schema, exists_, bind, try, metadata, read_file, syscall, on_file.
  assert (Hp : put p f fs = fs) by (unfold put; destruct fs; simpl in *; by rewrite insert_id).
  rewrite Hf, Hp. simpl. rewrite Hf, Hp. simpl. unfold classify. by rewrite Hc, serde_roundtrip.
Qed.

(** Backing up and rewriting a legacy file, faults and all. *)
Lemma rewrite_legacy p f us fs fl (r : result UsersMigrationOutcome store_error) fs' fl' :
  files fs !! p = Some f -> de_users (content f) = None -> de_legacy (content f) = Some us ->
  (do! backup := backup_before_mutate me_uid umask new_gid ts p in
   do! _ := atomic_write p (ser_users (envelope us)) 416 in
   ret (Migrated backup)) fs fl = (r, fs', fl') ->
  loaded fs' p = loaded fs p /\
  forall b, r = Ok (Migrated b) ->
    (exists g, files fs' !! b = Some g /\ content g = content f /\ mode g = 384) /\
    exists f', files fs' !! p = Some f' /\ content f' = ser_users (envelope us).
Proof.
  intros Hf Hn Hl H. destruct (backup_ne p) as [Hbp Hbt].
  assert (Hb : frame (fun q => q = backup_path ts p) (backup_before_mutate me_uid umask new_gid ts p)).
  { unfold backup_before_mutate. apply frame_bind; [eapply frame_weaken; [|by apply frame_read]; done|].
    intros bytes. apply frame_bind; [apply write_file_mode_frame|intros _; apply frame_ret]. }
  io_bind H; [|subst r; split; [|discriminate]; unfold loaded; by rewrite (Hb _ _ _ _ _ p E) by congruence].
  pose proof (Hb _ _ _ _ _ p E ltac:(congruence)) as Hp.
  assert (Hg : exists g, files fs0 !! a = Some g /\ content g = content f /\ mode g = 384 /\ a = backup_path ts p).
  { unfold backup_before_mutate in E. io_bind E; [|discriminate]. apply read_file_ok in E0 as (f1 & Hf1 & -> & Hff).
    rewrite Hf in Hf1. injection Hf1 as <-. io_bind E; [|discriminate]. repeat match goal with u : unit |- _ => destruct u end.
    apply write_file_mode_ok in E0 as (u & g & Hw & _). injection E as <- <- _. eexists. by rewrite Hw. }
  destruct Hg as (g & Hga & Hgc & Hgm & ->).
  io_bind H; apply atomic_write_spec in E0 as [Ho Hr].
  - injection H as <- <- _. destruct Hr as (f' & Hf' & Hc & _). split.
    + eapply loaded_migrated; eauto. 
    + intros b [= <-]. split; [|by exists f']. exists g. by rewrite Ho.
  - subst r. split; [|discriminate]. unfold loaded. by rewrite Hr, Hp.
Qed.

(** Migration never changes what the store means.  Whatever call fails
    during [migrate_users], [users.json] afterwards loads as it did before;
    and when the migration reports success the backup, mode 0600, holds the
    original bytes and migrating again finds the file current. *)
Theorem migration_preserves_users p fs fl r fs' fl' :
  migrate_users p fs fl = (r, fs', fl') ->
  fst (fst (load_users p fs' [])) = fst (fst (load_users p fs [])) /\
  forall b, r = Ok (Migrated b) ->
    (exists f f0, files fs !! p = Some f0 /\ files fs' !! b = Some f /\ content f = content f0 /\ mode f = 384) /\
    fst (fst (migrate_users p fs' [])) = Ok AlreadyCurrent.
Proof.
  intros H. rewrite !load_no_fault. simpl. unfold Store.migrate_users in H.
  io_bind H; [|subst r; apply (files_eq_frame _ _ _ _ _ _ (detect_frame p)) in E; unfold loaded; by rewrite E].
  destruct a; try (injection H as <- <- <-; apply (files_eq_frame _ _ _ _ _ _ (detect_frame p)) in E;
    unfold loaded; rewrite E; done).
  apply detect_legacy in E as (f & us & Hf & Hn & Hl & Hff).
  io_bind H; [|subst r; split; [|discriminate]; unfold loaded;
    rewrite (files_eq_frame _ _ _ _ _ _ (read_file_frame p) E), Hff; done].
  apply read_file_ok in E as (f1 & Hf1 & -> & Hff1). rewrite Hff, Hf in Hf1. injection Hf1 as <-.
  assert (Hfs : files fs1 = files fs) by congruence.
  unfold lift, bind at 1 in H. rewrite Hl in H. simpl in H. unfold bind at 1 in H. rewrite serde_roundtrip in H. simpl in H.
  rewrite Nat.eqb_refl in H. simpl in H. rewrite <- Hfs in Hf.
  destruct (rewrite_legacy _ _ _ _ _ _ _ _ Hf Hn Hl H) as [Hld Hm].
  split; [rewrite Hld; unfold loaded; by rewrite Hfs|]. intros b Hr. destruct (Hm b Hr) as ((g & ? & ? & ?) & f' & Hf' & Hc).
  split; [exists g, f; by rewrite <- Hfs|]. by eapply migrate_current.
Qed.
End Serde.
End Proofs.

(** ** The two formats, and what cannot be examined *)

(** [detect_users_schema] and [load_users] classify the bytes alike. *)
Lemma classify_load de_users de_legacy bytes :
  match classify de_users de_legacy bytes with
  | Current | Legacy => is_ok (parse_users_bytes de_users de_legacy bytes) = true
  | Future v => parse_users_bytes de_users de_legacy bytes = Err (UnsupportedSchema v USERS_SCHEMA_VERSION) /\ 1 < v
  | Corrupted => parse_users_bytes de_users de_legacy bytes = Err Parse
  | Missing => False
  end.
Proof.
  unfold classify, parse_users_bytes, USERS_SCHEMA_VERSION. destruct (de_users bytes) as [v|].
  - destruct (1 <? schema_version v) eqn:E; b2p; auto.
  - by destruct (de_legacy bytes).
Qed.

(** A store that exists but cannot be examined is read as an empty one. *)
Lemma unexaminable_store_is_empty de_users de_legacy p fs fl :
  load_users de_users de_legacy p fs (Fails 0 :: fl) = (Ok [], fs, fl).
Proof. reflexivity. Qed.

(** ** A concrete format, for the witnesses *)

#[global] Instance CredentialClass_countable : Countable Creds.CredentialClass.
Proof.
  refine (inj_countable' (fun c => match c with Creds.Native => true | Creds.Compatibility => false end)
    (fun b : bool => if b then Creds.Native else Creds.Compatibility) _). by intros [].
Defined.
#[global] Instance CredentialGrant_countable : Countable Grants.CredentialGrant.
Proof.
  refine (inj_countable' (fun g => (Grants.principal_id g, Grants.class g, Grants.vless_uuid g,
      Grants.hysteria2_password g, Grants.valid_from g, Grants.valid_until g, Grants.revoked_at g, Grants.generation g))
    (fun '(a, b, c, d, e, f, h, i) => Grants.Build_CredentialGrant a b c d e f h i) _). by intros [].
Defined.
#[global] Instance PeerCredential_countable : Countable Grants.PeerCredential.
Proof.
  refine (inj_countable' (fun c => match c with Grants.PeerVlessReality u => inl u | Grants.PeerHysteria2 p => inr p end)
    (fun s => match s with inl u => Grants.PeerVlessReality u | inr p => Grants.PeerHysteria2 p end) _). by intros [].
Defined.
#[global] Instance CompatUser_countable : Countable Grants.CompatUser.
Proof.
  refine (inj_countable' (fun u => (Grants.id u, Grants.name u, Grants.enabled u, Grants.u_vless_uuid u,
      Grants.u_hysteria2_password u, Grants.subscription_token_hash_hex u, Grants.created_at u,
      (Grants.expires_at u, Grants.vision_off_experiment u, Grants.google_egress_hairpin u, Grants.exit_principal u,
       Grants.peer_credentials u, Grants.is_reserved_probe u, Grants.credentials u)))
    (fun '(a, b, c, d, e, f, g, (h, i, j, k, l, m, n)) => Grants.Build_CompatUser a b c d e f g h i j k l m n) _).
  by intros [].
Defined.
#[global] Instance UsersFile_eq_dec : EqDecision UsersFile.
Proof. solve_decision. Defined.
#[global] Instance UsersFile_countable : Countable UsersFile.
Proof.
  refine (inj_countable' (fun f => (schema_version f, users f))
    (fun '(v, us) => {| schema_version := v; users := us |}) _). by intros [].
Defined.

Fixpoint bits (p : positive) : string :=
  match p with xH => EmptyString | xO p => String "0" (bits p) | xI p => String "1" (bits p) end.
Fixpoint unbits (s : string) : positive :=
  match s with
  | EmptyString => xH
  | String c s => if Ascii.eqb c "0" then xO (unbits s) else xI (unbits s)
  end.
Lemma unbits_bits p : unbits (bits p) = p.
Proof. induction p; simpl; congruence. Qed.

Definition ex_ser (f : UsersFile) : string := bits (encode f).
Definition ex_de (s : string) : option UsersFile :=
  if String.eqb s "[]" then None else decode (unbits s).
Definition ex_legacy (s : string) : option (list Grants.CompatUser) :=
  if String.eqb s "[]" then Some [] else None.
Lemma ex_roundtrip f : ex_de (ex_ser f) = Some f.
Proof.
  unfold ex_de, ex_ser. rewrite unbits_bits, decode_encode.
  destruct (String.eqb (bits (encode f)) "[]") eqn:E; [|done]. b2p. by destruct (encode f).
Qed.

Definition ex_path : path := {| dir := "/var/lib"; name := "users.json" |}.
Definition ex_fs : FS :=
  {| files := {[ ex_path := {| content := "[]"; mode := 416; uid := 0; gid := 990 |} ]};
     dirs := {[ "/var/lib" := {| d_mode := 488; d_gid := 990 |} ]} |}.

(** The write fails after three bytes: the old file is still there. *)
Lemma save_all_or_nothing_witness :
  let run := save_users_atomic 0 18 (fun _ => 0) "7" ex_ser ex_path [] ex_fs [Fine; Fine; Fine; Fine; Fails 3] in
  fst (fst run) = Err Io /\
  fst (fst (load_users ex_de ex_legacy ex_path (snd (fst run)) [])) =
  fst (fst (load_users ex_de ex_legacy ex_path ex_fs [])).
Proof.
  set (run := save_users_atomic _ _ _ _ _ _ _ _ _). destruct run as [[r fs'] fl'] eqn:E. simpl.
  assert (Hr : r = Err Io) by (change r with (fst (fst (r, fs', fl'))); rewrite <- E; vm_compute; reflexivity).
  subst r. split; [reflexivity|].
  exact (proj2 (save_all_or_nothing 0 18 (fun _ => 0) "7" ex_ser ex_de ex_legacy ex_roundtrip ex_path [] ex_fs
    [Fine; Fine; Fine; Fine; Fails 3] (Err Io) fs' fl' E)).
Defined.

Lemma migration_preserves_users_witness :
  let run := migrate_users 0 18 (fun _ => 0) "7" "1700000000" ex_ser ex_de ex_legacy ex_path ex_fs [] in
  fst (fst run) = Ok (Migrated (backup_path "1700000000" ex_path)) /\
  fst (fst (load_users ex_de ex_legacy ex_path (snd (fst run)) [])) =
  fst (fst (load_users ex_de ex_legacy ex_path ex_fs [])).
Proof.
  set (run := migrate_users _ _ _ _ _ _ _ _ _ _ _). destruct run as [[r fs'] fl'] eqn:E. simpl.
  assert (Hr : r = Ok (Migrated (backup_path "1700000000" ex_path)))
    by (change r with (fst (fst (r, fs', fl'))); rewrite <- E; vm_compute; reflexivity).
  split; [exact Hr|].
  exact (proj1 (migration_preserves_users 0 18 (fun _ => 0) "7" "1700000000" ex_ser ex_de ex_legacy ex_roundtrip
    ex_path ex_fs [] r fs' fl' E)).
Defined.

End Store.
