(* ===== verification/ConfigApply.v ===== *)
(** * crates/compat-config/src/server.rs: writing the configuration

    [apply_config_atomically]: write, check with [sing-box check], back up,
    swap; over the file system of [Store.v], where every call may fail.  The
    checker is a parameter: [check bytes] is the exit status of the process on
    a file with that content. *)

From S2P Require Import Prelude Strs Grants Store.

Module ConfigApply.
Import Store.

Section Config.
Context (me_uid umask : Z) (new_gid : string -> Z) (pid : string) (check : string -> bool).

Definition config_backup_path (p : path) : path := sibling p ".bak".

Definition remove_file (p : path) : io unit :=
  syscall unchanged (fun fs =>
    match files fs !! p with
    | Some _ => (Ok tt, {| files := delete p (files fs); dirs := dirs fs |})
    | None => (Err Io, fs)
    end).

Definition file_mode (p : path) : io Z := syscall unchanged (on_file p (fun f => (Ok (mode f), f))).

(** [std::fs::copy]: contents and permission bits. *)
Definition copy (src dst : path) : io unit :=
  do! bytes := read_file src in
  do! m := file_mode src in
  do! _ := open_truncate me_uid umask new_gid dst m in
  do! _ := set_permissions dst m in
  write_all dst bytes.

(** [SingBoxBackend::validate]: the process may fail to run or refuse the
    file. *)
Definition backend_validate (p : path) : io unit :=
  do! bytes := read_file p in
  if check bytes then ret tt else throw ConfigValidationFailed.

(** Errors as values, for [if let Err(e) = ...]. *)
Definition attempt {A} (m : io A) : io (result A store_error) := fun fs fl =>
  let '(r, fs', fl') := m fs fl in (Ok r, fs', fl').

Definition write_config_file_mode_0640 (p : path) (bytes : string) : io unit :=
  write_file_mode me_uid umask new_gid p bytes 416.
Definition set_file_mode_0640 (p : path) : io unit := set_permissions p 416.

Definition keep_backup (p : path) : io unit :=
  do! ex := exists_ p in
  if (ex : bool) then
    do! _ := copy p (config_backup_path p) in
    set_file_mode_0640 (config_backup_path p)
  else ret tt.

Definition apply_config_atomically (bytes : string) (p : path) : io unit :=
  do! _ := create_dir_all umask new_gid (dir p) in
  let tmp_path := tmp_sibling_path pid p in
  do! _ := write_config_file_mode_0640 tmp_path bytes in
  do! checked := attempt (backend_validate tmp_path) in
  match checked with
  | Err e => do! _ := try (remove_file tmp_path) in throw e
  | Ok _ =>
      do! _ := keep_backup p in
      do! _ := preserve_ownership_before_rename tmp_path p in
      do! _ := rename tmp_path p in
      fsync_parent_dir
  end.

(** ** Proofs *)

Local Notation tmp := (tmp_sibling_path pid).
Local Notation bak := config_backup_path.

Lemma bak_ne p : bak p <> p /\ bak p <> tmp p.
Proof.
  unfold config_backup_path, tmp_sibling_path, sibling. split; intros E; apply (f_equal name) in E; simpl in E.
  - apply (f_equal slen) in E. rewrite slen_app in E. change (slen ".bak") with 4 in E. lia.
  - apply (inj (String.app (name p))) in E. discriminate.
Qed.

Lemma on_file_same {A} p (k : file -> result A store_error) fs : files (snd (on_file p (fun f => (k f, f)) fs)) = files fs.
Proof. unfold on_file. destruct (files fs !! p) as [f|] eqn:E; [|done]. simpl. by apply insert_id. Qed.

Lemma file_mode_frame p : frame (fun _ => False) (file_mode p).
Proof. apply frame_syscall; [done|]. intros fs q _. unfold file_mode. by rewrite on_file_same. Qed.
Lemma read_frame p : frame (fun _ => False) (read_file p).
Proof. apply frame_syscall; [done|]. intros fs q _. by rewrite on_file_same. Qed.

Lemma copy_frame src dst : frame (fun q => q = dst) (copy src dst).
Proof.
  unfold copy, open_truncate, set_permissions, write_all.
  apply frame_bind; [eapply frame_weaken, read_frame; done|]. intros bytes.
  apply frame_bind; [eapply frame_weaken, file_mode_frame; done|]. intros m.
  apply frame_bind; [|intros _; apply frame_bind; [|intros _]]; apply frame_syscall; try done;
    intros; try (by apply on_file_frame); simpl; by rewrite lookup_insert_ne.
Qed.

Lemma backend_validate_frame p : frame (fun _ => False) (backend_validate p).
Proof.
  apply frame_bind; [apply read_frame|]. intros bytes. destruct (check bytes); [apply frame_ret|apply frame_throw].
Qed.

Lemma exists_frame p : frame (fun _ => False) (exists_ p).
Proof.
  apply frame_bind; [|intros [?|]; apply frame_ret]. apply frame_try, frame_syscall; [done|].
  intros fs q _. by rewrite (on_file_same p (fun f => Ok (uid f, gid f))).
Qed.

Lemma keep_backup_frame p : frame (fun q => q = bak p) (keep_backup p).
Proof.
  apply frame_bind; [eapply frame_weaken, exists_frame; done|]. intros [|]; [|apply frame_ret].
  apply frame_bind; [apply copy_frame|]. intros _. apply frame_syscall; [done|]. intros. by apply on_file_frame.
Qed.

Lemma read_ok p fs fl bytes fs' fl' :
  read_file p fs fl = (Ok bytes, fs', fl') -> fs' = fs /\ exists f, files fs !! p = Some f /\ content f = bytes.
Proof.
  intros E. apply syscall_ok in E as [E _]. apply on_file_ok in E as (f & f' & Hf & [= <- <-] & ->).
  split; [|by exists f]. unfold put. destruct fs; simpl in *. by rewrite insert_id.
Qed.

(** *** Without faults *)

Lemma quiet_bind {A B} (m : io A) (k : A -> io B) : quiet m -> (forall a, quiet (k a)) -> quiet (bind m k).
Proof. intros Hm Hk fs r fs' fl' E. io_bind E; [|by eapply Hm]. apply Hm in E0 as ->. by eapply Hk. Qed.
Lemma quiet_ret {A} (a : A) : quiet (ret a).
Proof. by intros fs r fs' fl' [= <- <- <-]. Qed.
Lemma quiet_throw {A} e : quiet (throw (A := A) e).
Proof. by intros fs r fs' fl' [= <- <- <-]. Qed.
Lemma quiet_try {A} (m : io A) : quiet m -> quiet (try m).
Proof.
  intros Hm fs r fs' fl'. unfold try. destruct (m fs []) as [[[a|e] fs1] fl1] eqn:E; intros [= <- <- <-]; by eapply Hm.
Qed.

Lemma keep_backup_quiet p : quiet (keep_backup p).
Proof.
  unfold keep_backup, exists_, copy, read_file, file_mode, open_truncate, set_file_mode_0640, set_permissions, write_all, metadata.
  apply quiet_bind; [apply quiet_bind; [apply quiet_try, quiet_syscall|intros [?|]; apply quiet_ret]|].
  intros [|]; [|apply quiet_ret]. repeat first [apply quiet_syscall | apply quiet_bind; [|intros ?]].
Qed.

Lemma read_no_fault p f fs : files fs !! p = Some f -> read_file p fs [] = (Ok (content f), fs, []).
Proof.
  intros Hf. unfold read_file, syscall, on_file. rewrite Hf. unfold put. destruct fs; simpl in *. by rewrite insert_id.
Qed.

Lemma put_get p f fs : files (put p f fs) !! p = Some f.
Proof. apply lookup_insert_eq. Qed.

Lemma keep_backup_ok p fs r fs' fl' old :
  keep_backup p fs [] = (r, fs', fl') -> files fs !! p = Some old ->
  r = Ok tt /\ exists b, files fs' !! bak p = Some b /\ content b = content old /\ mode b = 416.
Proof.
  intros E Hold. destruct (bak_ne p) as [Hb _].
  assert (Hput : put p old fs = fs) by (unfold put; destruct fs; simpl in *; by rewrite insert_id).
  revert E. unfold keep_backup, exists_, bind, try, metadata, syscall, on_file, ret. rewrite Hold, Hput.
  unfold copy, bind. rewrite (read_no_fault _ _ _ Hold). unfold file_mode, syscall, on_file. rewrite Hold, Hput.
  unfold open_truncate, syscall. cbn [files put].
  unfold set_permissions, write_all, set_file_mode_0640, set_permissions, syscall, on_file.
  rewrite !put_get. intros [= <- <- <-]. split; [done|]. rewrite put_get. eexists. split; [done|].
  cbn [content mode append]. split; [|done]. by destruct (files fs !! bak p).
Qed.

(** *** The whole write *)

Lemma frame_all {A} (m : io A) fs fl r fs' fl' :
  frame (fun _ => False) m -> m fs fl = (r, fs', fl') -> files fs' = files fs.
Proof. intros Hm E. apply map_eq. intros q. eapply Hm; [exact E|]. auto. Qed.

(** What happens once the checked file is in place. *)
Lemma publish_checked p f fs fl r fs' fl' :
  files fs !! tmp p = Some f ->
  (do! _ := keep_backup p in swap pid p) fs fl = (r, fs', fl') ->
  (forall q, q <> p -> q <> tmp p -> q <> bak p -> files fs' !! q = files fs !! q) /\
  match r with
  | Ok _ => exists f', files fs' !! p = Some f' /\ content f' = content f /\ mode f' = mode f /\ files fs' !! tmp p = None /\
      (fl = [] -> forall old, files fs !! p = Some old -> uid f' = uid old /\ gid f' = gid old /\
         exists b, files fs' !! bak p = Some b /\ content b = content old /\ mode b = 416)
  | Err _ => files fs' !! p = files fs !! p
  end.
Proof.
  intros Hf H. pose proof (tmp_ne pid p) as Hne. destruct (bak_ne p) as [Hb Hbt]. io_bind H.
  - destruct a. pose proof (keep_backup_frame _ _ _ _ _ _ (tmp p) E) as Ht. pose proof (keep_backup_frame _ _ _ _ _ _ p E) as Hp.
    rewrite <- Ht in Hf by congruence. pose proof (swap_spec pid _ _ _ _ _ _ _ Hf H) as [Ho Hr].
    split; [intros q Hq1 Hq2 Hq3; rewrite Ho by done; by eapply keep_backup_frame|].
    rewrite Hp in Hr by congruence. destruct r; [|done]. destruct Hr as (f' & H1 & H2 & H3 & H4 & Hown).
    exists f'. do 4 (split; [done|]). intros -> old Hold.
    destruct (keep_backup_ok _ _ _ _ _ _ E Hold) as (_ & b & Hbk & Hbc). rewrite <- (Ho (bak p)) in Hbk by done.
    destruct (Hown (keep_backup_quiet _ _ _ _ _ E) old Hold). eauto 10.
  - subst r. split; [intros; by eapply keep_backup_frame|]. eapply keep_backup_frame; [exact E|congruence].
Qed.

Lemma create_write_ok p bytes fs fl a b fs' fl' fs0 fl0 :
  create_dir_all umask new_gid (dir p) fs fl = (Ok a, fs0, fl0) ->
  write_config_file_mode_0640 (tmp p) bytes fs0 fl0 = (Ok b, fs', fl') ->
  (forall q, q <> tmp p -> files fs' !! q = files fs !! q) /\
  (exists u g, files fs' !! tmp p = Some {| content := bytes; mode := 416; uid := u; gid := g |}) /\ (fl = [] -> fl' = []).
Proof.
  intros E1 E2. pose proof (frame_all _ _ _ _ _ _ (create_dir_frame umask new_gid (dir p)) E1) as Hd. apply syscall_ok in E1 as [_ Hq].
  assert (Hw : forall q, q <> tmp p -> files fs' !! q = files fs !! q)
    by (intros q Hn; rewrite <- Hd; by eapply write_file_mode_frame).
  split; [done|]. destruct b. apply write_file_mode_ok in E2 as (u & g & Hf & _ & Hl). split; [eauto|auto].
Qed.

Lemma backend_validate_ok p fs fl fs' fl' :
  backend_validate p fs fl = (Ok tt, fs', fl') ->
  fs' = fs /\ exists f, files fs !! p = Some f /\ check (content f) = true /\ (fl = [] -> fl' = []).
Proof.
  unfold backend_validate. intros H. io_bind H; [|discriminate].
  pose proof E as Eq. apply syscall_ok in Eq as [_ Hq]. apply read_ok in E as (-> & f & Hf & <-).
  destruct (check (content f)) eqn:Ec; [|discriminate]. injection H as <- <-. split; [done|]. by exists f.
Qed.

Lemma remove_frame p : frame (fun q => q = p) (remove_file p).
Proof.
  apply frame_syscall; [done|]. intros fs q Hq. destruct (files fs !! p); [|done]. simpl. by rewrite lookup_delete_ne by congruence.
Qed.

Lemma apply_config_spec bytes p fs fl r fs' fl' :
  apply_config_atomically bytes p fs fl = (r, fs', fl') ->
  (forall q, q <> p -> q <> tmp p -> q <> bak p -> files fs' !! q = files fs !! q) /\
  match r with
  | Ok _ => check bytes = true /\ exists f, files fs' !! p = Some f /\ content f = bytes /\ mode f = 416 /\
      files fs' !! tmp p = None /\
      (fl = [] -> forall old, files fs !! p = Some old ->
         uid f = uid old /\ gid f = gid old /\
         exists b, files fs' !! bak p = Some b /\ content b = content old /\ mode b = 416)
  | Err _ => files fs' !! p = files fs !! p
  end.
Proof.
  unfold apply_config_atomically. intros H. pose proof (tmp_ne pid p) as Hne.
  io_bind H; [|subst r; apply (frame_all _ _ _ _ _ _ (create_dir_frame umask new_gid (dir p))) in E; by rewrite E].
  io_bind H.
  2:{ subst r. pose proof (frame_all _ _ _ _ _ _ (create_dir_frame umask new_gid (dir p)) E) as Hd.
      rewrite <- Hd. split; [intros; by eapply write_file_mode_frame|]. eapply write_file_mode_frame; [exact E0|congruence]. }
  destruct (create_write_ok _ _ _ _ _ _ _ _ _ _ E E0) as (Hw & (u & g & Hf) & Hl). clear E E0.
  io_bind H; unfold attempt in E; destruct (backend_validate (tmp p) fs1 fl1) as [[rv fsv] flv] eqn:Ev; [|discriminate E].
  injection E as <- <- <-. pose proof (frame_all _ _ _ _ _ _ (backend_validate_frame (tmp p)) Ev) as Hv.
  destruct rv as [[]|e].
  - apply backend_validate_ok in Ev as (-> & f0 & Hf0 & Hck & Hq). rewrite Hf in Hf0. injection Hf0 as <-.
    fold (swap pid p) in H. apply (publish_checked _ _ _ _ _ _ _ Hf) in H as [Ho Hr].
    split; [intros q H1 H2 H3; rewrite Ho, Hw by done; done|]. rewrite (Hw p) in Hr by congruence.
    destruct r; [|done]. split; [done|]. destruct Hr as (f' & H1 & H2 & H3 & H4 & H5). exists f'. auto 10.
  - assert (Hend : (forall q, q <> tmp p -> files fs' !! q = files fsv !! q) /\ r = Err e).
    { io_bind H; [|exfalso; unfold try in E; by destruct (remove_file (tmp p) fsv flv) as [[[]] ]].
      injection H as <- <- <-. split; [|done]. intros q Hq. apply try_ok in E as (r0 & E & _).
      eapply (remove_frame (tmp p)); [exact E|done]. }
    destruct Hend as [Hend ->]. rewrite Hv in Hend. split; [intros q H1 H2 H3; rewrite Hend, Hw by done; done|].
    rewrite Hend, Hw by congruence. done.
Qed.

(** [apply_config_atomically] never puts a configuration in place that
    [sing-box check] refused, and never loses the one that is there: whatever
    call fails, the live file is afterwards exactly as before when an error is
    returned, and holds exactly the checked bytes, mode 0640, when it
    succeeds.  Without failed calls the owner is kept and the previous file is
    in the [.bak] copy; no other file is touched. *)
Theorem config_swap_never_invalid bytes p fs fl r fs' fl' :
  apply_config_atomically bytes p fs fl = (r, fs', fl') ->
  (forall q, q <> p -> q <> tmp p -> q <> bak p -> files fs' !! q = files fs !! q) /\
  match r with
  | Ok _ => check bytes = true /\ exists f, files fs' !! p = Some f /\ content f = bytes /\ mode f = 416 /\
      files fs' !! tmp p = None /\
      (fl = [] -> forall old, files fs !! p = Some old ->
         uid f = uid old /\ gid f = gid old /\
         exists b, files fs' !! bak p = Some b /\ content b = content old /\ mode b = 416)
  | Err _ => files fs' !! p = files fs !! p
  end.
Proof. apply apply_config_spec. Qed.

Lemma apply_config_frame bytes p : frame (fun q => dir q = dir p) (apply_config_atomically bytes p).
Proof.
  intros fs fl r fs' fl' q E Hq. apply apply_config_spec in E as [Ho _].
  apply Ho; intros ->; by apply Hq.
Qed.

Lemma copy_ok src dst fs fl fs' fl' :
  copy src dst fs fl = (Ok tt, fs', fl') ->
  exists f f', files fs !! src = Some f /\ files fs' !! dst = Some f' /\ content f' = content f.
Proof.
  unfold copy. intros E. io_bind E; [|discriminate]. apply read_ok in E0 as (-> & f & Hf & <-).
  io_bind E; [|discriminate]. io_bind E; [|discriminate]. apply syscall_ok in E1 as [E1 _]. injection E1 as Hput.
  io_bind E; [|discriminate]. apply syscall_ok in E1 as [E1 _]. apply on_file_ok in E1 as (f1 & f1' & Hf1 & [= <- <-] & ->).
  apply syscall_ok in E as [E _]. apply on_file_ok in E as (f2 & f2' & Hf2 & [= <-] & ->).
  rewrite put_get in Hf2. injection Hf2 as <-. exists f. eexists. split; [done|]. rewrite put_get. split; [done|].
  simpl. subst. rewrite put_get in Hf1. injection Hf1 as <-. by destruct (files _ !! dst).
Qed.

Lemma quiet_attempt {A} (m : io A) : quiet m -> quiet (attempt m).
Proof.
  intros Hm fs r fs' fl'. unfold attempt. destruct (m fs []) as [[r0 fs1] fl1] eqn:E. intros [= <- <- <-]. by eapply Hm.
Qed.

Lemma apply_config_quiet bytes p : quiet (apply_config_atomically bytes p).
Proof.
  unfold apply_config_atomically, create_dir_all, write_config_file_mode_0640, write_file_mode, open_truncate,
    set_permissions, write_all, sync_all, backend_validate, read_file, preserve_ownership_before_rename, metadata,
    dir_metadata, chown, rename, fsync_parent_dir, remove_file.
  repeat first [ apply quiet_ret | apply quiet_throw | apply quiet_syscall | apply quiet_try | apply quiet_attempt
    | apply keep_backup_quiet | apply quiet_bind; [|intros ?] | progress case_match ].
Qed.

Lemma exists_no_fault p f fs : files fs !! p = Some f -> exists_ p fs [] = (Ok true, fs, []).
Proof.
  intros Hf. unfold exists_, bind, try, metadata, syscall, on_file, ret. rewrite Hf. unfold put.
  destruct fs; simpl in *. by rewrite insert_id.
Qed.

Lemma copy_no_fault src dst f fs :
  files fs !! src = Some f ->
  exists fs' f', copy src dst fs [] = (Ok tt, fs', []) /\ files fs' !! dst = Some f' /\ content f' = content f.
Proof.
  intros Hf. assert (Hput : put src f fs = fs) by (unfold put; destruct fs; simpl in *; by rewrite insert_id).
  unfold copy, bind. rewrite (read_no_fault _ _ _ Hf). unfold file_mode, syscall, on_file. rewrite Hf, Hput.
  unfold open_truncate, syscall. cbn [files put]. unfold set_permissions, write_all, syscall, on_file.
  rewrite !put_get. eexists _, _. split; [done|]. rewrite put_get. split; [done|].
  cbn [content append]. by destruct (files fs !! dst).
Qed.
End Config.

(** The checker refuses the new file. *)
Lemma config_swap_never_invalid_witness :
  let run := apply_config_atomically 0 18 (fun _ => 0) "7" (fun _ => false) "{}" ex_path ex_fs [] in
  fst (fst run) = Err ConfigValidationFailed /\ files (snd (fst run)) !! ex_path = files ex_fs !! ex_path.
Proof.
  set (run := apply_config_atomically _ _ _ _ _ _ _ _ _). destruct run as [[r fs'] fl'] eqn:E. simpl.
  assert (Hr : r = Err ConfigValidationFailed) by (change r with (fst (fst (r, fs', fl'))); rewrite <- E; vm_compute; reflexivity).
  subst r. split; [reflexivity|]. subst run. exact (proj2 (config_swap_never_invalid _ _ _ _ _ _ _ _ _ _ _ _ E)).
Defined.
End ConfigApply.
