(* ===== verification/TomlEdit.v ===== *)
(** * compat-config: edits of deployment.toml

    deployment.rs: [migrate_deployment_toml_text], [migrate_deployment_toml],
    [section_line_range], [apply_google_egress_hairpin_toml],
    [apply_exit_egress_toml] and [apply_tls_spoof_toml]; pairing.rs:
    [same_route] and [apply_peer_endpoint_toml].  The TOML parser, the JSON
    projection of a configuration and Rust's debug format of a string are
    parameters. *)

From S2P Require Import Prelude Strs Net NetText AddressPolicy Credentials Grants Json Contract Render.
From S2P Require Import Deployment StaticRevision Store ConfigApply.
From Stdlib Require Import Ascii.

Module TomlEdit.
Import Store ConfigApply Deployment.

Definition nl : string := String newline EmptyString.
Definition unlines (l : list string) : string := foldr (fun line text => line +:+ nl +:+ text) EmptyString l.

(** ** Sections of the text *)

Definition is_table (line : string) : bool := starts_with "[" (trim_start line).
Fixpoint position (f : string -> bool) (l : list string) : option nat :=
  match l with [] => None | x :: l => if f x then Some O else option_map S (position f l) end.
Definition section_line_range (l : list string) (header : string) : option (nat * nat) :=
  match position (fun line => String.eqb (trim_end line) header) l with
  | None => None
  | Some start =>
      let after := drop (S start) l in
      Some (start, match position is_table after with Some i => (S start + i)%nat | None => length l end)
  end.
Definition without_section (l : list string) (header : string) : list string :=
  match section_line_range l header with
  | Some (start, stop) => take start l ++ drop stop l
  | None => l
  end.
(** [while out.last().is_some_and(|l| l.trim().is_empty()) { out.pop(); }] *)
Fixpoint drop_blank (l : list string) : list string :=
  match l with x :: l' => if str_is_empty (trim x) then drop_blank l' else l | [] => [] end.
Definition pop_blank (l : list string) : list string := rev (drop_blank (rev l)).

(** [result.replace("\n\n\n", "\n\n")]: leftmost, not overlapping. *)
Definition is_nl (c : ascii) : bool := Ascii.eqb c newline.
Fixpoint replace_triple (s : string) : string :=
  match s with
  | EmptyString => EmptyString
  | String a s1 =>
      match s1 with
      | String b (String c s') => if is_nl a && is_nl b && is_nl c then nl +:+ nl +:+ replace_triple s' else String a (replace_triple s1)
      | _ => s
      end
  end.
Definition triple : string := nl +:+ nl +:+ nl.
Fixpoint collapse (fuel : nat) (s : string) : string :=
  match fuel with
  | O => s
  | S fuel => if str_contains triple s then collapse fuel (replace_triple s) else s
  end.

Inductive edit_error :=
| EditIo (e : store_error)
| Unparsable
| Invalid (e : deploy_error)
| PatchedUnparsable
| PatchedInvalid (e : deploy_error)
| WrongVersion (n : Z)
| RoleChanged
| ChangesOtherSetting
| ExitOnly
| SectionInvalid (e : deploy_error)
| DifferentPeer.

Section Edit.
(** Rust's [{:?}] of a string. *)
Context (debug : string -> string).

Definition hairpin_block (section : GoogleEgressHairpinSection) : list string :=
  ["[google_egress_hairpin]";
   "relay_host = " +:+ debug (relay_host section);
   "relay_port = " +:+ u64_to_string (relay_port section);
   "relay_server_name = " +:+ debug (relay_server_name section);
   "relay_reality_public_key = " +:+ debug (relay_reality_public_key section);
   "relay_reality_short_id = " +:+ debug (relay_reality_short_id section)].
Definition set_google_egress_hairpin_toml_text (original : string) (section : GoogleEgressHairpinSection) : string :=
  let l := lines original in
  let out := match section_line_range l "[google_egress_hairpin]" with
             | Some (start, stop) => take start l ++ hairpin_block section ++ drop stop l
             | None => pop_blank l ++ [EmptyString] ++ hairpin_block section
             end in
  join_on newline out +:+ nl.

Definition ends_with_nl (s : string) : bool := ends_with_char newline s.
Definition clear_google_egress_hairpin_toml_text (original : string) : string :=
  let l := lines original in
  match section_line_range l "[google_egress_hairpin]" with
  | None => original
  | Some (start, stop) =>
      let result := join_on newline (take start l ++ drop stop l) in
      let result := collapse (String.length result) result in
      if negb (str_is_empty result) && negb (ends_with_nl result) then result +:+ nl else result
  end.

(** A section cut out and, when there is a new one, appended. *)
Definition replace_section_text (original header : string) (section : option string) : string :=
  let out := pop_blank (without_section (lines original) header) in
  let out := match section with Some text => out ++ [text] | None => out end in
  join_on newline out +:+ nl.
Definition egress_text (policy : Ipv6LiteralPolicy) : string :=
  nl +:+ "[egress]" +:+ nl +:+ "ipv6_literal = " +:+ debug (Ipv6LiteralPolicy_as_str policy).
Definition spoof_text (section : TlsSpoofSection) : string :=
  nl +:+ "[google_egress_tls_spoof]" +:+ nl +:+ "sni = " +:+ debug (sp_sni section) +:+ nl +:+
  "method = " +:+ debug (TlsSpoofMethod_as_str (sp_method section)).

Definition opt_line (key : string) (v : option string) : string :=
  match v with Some v => key +:+ " = " +:+ debug v +:+ nl | None => EmptyString end.
Definition peer_block (wanted : PeerEndpointSection) : string :=
  nl +:+ "[[peer_endpoints]]" +:+ nl +:+ "id = " +:+ debug (pe_id wanted) +:+ nl +:+ "tag = " +:+ debug (pe_tag wanted) +:+ nl +:+
  "host = " +:+ debug (pe_host wanted) +:+ nl +:+ "port = " +:+ u64_to_string (pe_port wanted) +:+ nl +:+
  "transport = " +:+ debug "vless_reality" +:+ nl +:+
  opt_line "server_name" (pe_server_name wanted) +:+ opt_line "reality_public_key" (pe_reality_public_key wanted) +:+
  opt_line "reality_short_id" (pe_reality_short_id wanted) +:+
  "failure_domain = " +:+ debug (pe_failure_domain wanted) +:+ nl +:+ "path = " +:+ debug (pe_path wanted) +:+ nl +:+
  (if bool_decide (pe_vless_flow wanted = Render.FlowNone) then "vless_flow = " +:+ debug "none" +:+ nl else EmptyString).
Definition peer_endpoint_text (original : string) (wanted : PeerEndpointSection) : string :=
  trim_end original +:+ nl +:+ peer_block wanted.

(** ** Migration of the text *)

Definition top_level_key (line : string) : option string :=
  let trimmed := trim_start line in
  if starts_with "#" trimmed || starts_with "[" trimmed then None
  else option_map (fun kv => trim (fst kv)) (split_once "=" trimmed).
Fixpoint take_while {A} (f : A -> bool) (l : list A) : list A :=
  match l with x :: l => if f x then x :: take_while f l else [] | [] => [] end.
Definition top_level (l : list string) : list string := take_while (fun line => negb (is_table line)) l.
Definition value_of (l : list string) (wanted : string) : option string :=
  find_map (fun line =>
    match top_level_key line with
    | Some key => if String.eqb key wanted then option_map (fun kv => trim (snd kv)) (split_once "=" line) else None
    | None => None
    end) (top_level l).

Fixpoint digits_val (acc : Z) (s : string) : option Z :=
  match s with
  | EmptyString => Some acc
  | String c s' => if is_ascii_digit c then digits_val (acc * 10 + (byte_val c - 48)) s' else None
  end.
Definition parse_u32 (s : string) : option Z :=
  let s := match s with String "+" s' => s' | _ => s end in
  if str_is_empty s then None else
  match digits_val 0 s with Some n => if n <? 2 ^ 32 then Some n else None | None => None end.

(** [trim_matches] of double quotes. *)
Definition quote : ascii := ascii_of_nat 34.
Definition unquote (s : string) : string := String.string_of_list_ascii (trim_matches (Ascii.eqb quote) (bytes_of s)).

Definition header_lines (l : list string) : list string :=
  let host := unquote (match value_of l "public_host" with Some v => v | None => EmptyString end) in
  ["schema_version = " +:+ u64_to_string DEPLOYMENT_SCHEMA_VERSION]
  ++ (if is_some (value_of l "node_id") then [] else ["node_id = " +:+ debug (default_node_id_for_host host)])
  ++ (if is_some (value_of l "role") then [] else ["role = " +:+ String quote ("exit" +:+ String quote EmptyString)]).

(** The copy loop: the body and whether the header was written. *)
Fixpoint migrate_body (header : string) (l : list string) (in_top_level wrote_header : bool) : string * bool :=
  match l with
  | [] => (EmptyString, wrote_header)
  | line :: l =>
      let in_top_level := in_top_level && negb (is_table line) in
      if in_top_level && bool_decide (top_level_key line = Some "schema_version") then
        let '(body, wrote) := migrate_body header l in_top_level true in
        ((if wrote_header then EmptyString else header) +:+ body, wrote)
      else
        let '(body, wrote) := migrate_body header l in_top_level wrote_header in
        (line +:+ nl +:+ body, wrote)
  end.

Definition migrate_deployment_toml_text (original : string) : option string :=
  let l := lines original in
  let explicit_version := match value_of l "schema_version" with Some v => parse_u32 v | None => None end in
  if bool_decide (explicit_version = Some DEPLOYMENT_SCHEMA_VERSION) && is_some (value_of l "node_id") && is_some (value_of l "role")
  then None else
  let header := unlines (header_lines l) in
  let '(body, wrote_header) := migrate_body header l true false in
  Some (if wrote_header then body else header +:+ body).

(** ** Edits of the file *)

Context (me_uid umask : Z) (new_gid : string -> Z) (pid ts : string) (b64_decode : string -> option (list Z)).
Context {V : Type} `{JsonOps V, !JsonTree V, !JsonEq V}.
Context (toml_config : string -> option DeploymentConfig) (normalized : DeploymentConfig -> V).

Definition eio (A : Type) : Type := FS -> list fault -> result A edit_error * FS * list fault.
Definition eret {A} (a : A) : eio A := fun fs fl => (Ok a, fs, fl).
Definition ethrow {A} (e : edit_error) : eio A := fun fs fl => (Err e, fs, fl).
Definition ebind {A B} (m : eio A) (k : A -> eio B) : eio B := fun fs fl =>
  match m fs fl with (Ok a, fs, fl) => k a fs fl | (Err e, fs, fl) => (Err e, fs, fl) end.
Definition efile {A} (m : io A) : eio A := fun fs fl => let '(r, fs, fl) := m fs fl in (map_err EditIo r, fs, fl).
Definition elift {A} (r : result A edit_error) : eio A := fun fs fl => (r, fs, fl).
Local Notation "'ed!' x := m 'in' k" := (ebind m (fun x => k)) (at level 200, x name, m at level 100, k at level 200).

(** The file as it is, and its configuration. *)
Definition load_original (p : path) : eio (string * DeploymentConfig) :=
  ed! original := efile (read_file p) in
  ed! cfg := elift (ok_or (toml_config original) Unparsable) in
  ed! _ := elift (map_err Invalid (validate b64_decode cfg)) in
  eret (original, cfg).
Definition check_patched (patched : string) : eio DeploymentConfig :=
  ed! cfg := elift (ok_or (toml_config patched) PatchedUnparsable) in
  ed! _ := elift (map_err PatchedInvalid (validate b64_decode cfg)) in
  eret cfg.
Definition unchanged_but (keys : list string) (a b : DeploymentConfig) : bool :=
  jeqb (fold_left jremove keys (normalized a)) (fold_left jremove keys (normalized b)).
Definition same_mode (p : path) : io Z :=
  do! m := file_mode p in ret (Z.land m 511).
(** Backup, then the atomic write; [mode]: given or that of the file. *)
Definition commit_patch (p : path) (patched : string) (mode : option Z) : eio path :=
  ed! backup := efile (backup_before_mutate me_uid umask new_gid ts p) in
  ed! m := (match mode with Some m => eret m | None => efile (same_mode p) end) in
  ed! _ := efile (atomic_write me_uid umask new_gid pid p patched m) in
  eret backup.

Inductive outcome := NothingToDo | AlreadyCurrent | Edited (backup : path).

Definition migrate_deployment_toml (p : path) : eio outcome :=
  ed! there := efile (exists_ p) in
  if negb there then eret NothingToDo else
  ed! x := load_original p in
  let '(original, original_cfg) := x in
  match migrate_deployment_toml_text original with
  | None => eret AlreadyCurrent
  | Some patched =>
      ed! migrated_cfg := check_patched patched in
      if negb (schema_version migrated_cfg =? DEPLOYMENT_SCHEMA_VERSION) then ethrow (WrongVersion (schema_version migrated_cfg)) else
      if negb (bool_decide (role migrated_cfg = role original_cfg)) then ethrow RoleChanged else
      let keys := "schema_version" :: (if str_is_empty (node_id original_cfg) then ["node_id"] else []) in
      if negb (unchanged_but keys original_cfg migrated_cfg) then ethrow ChangesOtherSetting else
      ed! backup := commit_patch p patched (Some 420) in
      eret (Edited backup)
  end.

Definition apply_google_egress_hairpin_toml (p : path) (section : option GoogleEgressHairpinSection) : eio path :=
  ed! x := load_original p in
  let '(original, original_cfg) := x in
  let patched := match section with
                 | Some s => set_google_egress_hairpin_toml_text original s
                 | None => clear_google_egress_hairpin_toml_text original
                 end in
  ed! patched_cfg := check_patched patched in
  if negb (unchanged_but ["google_egress_hairpin"] original_cfg patched_cfg) then ethrow ChangesOtherSetting else
  commit_patch p patched (Some 420).

Definition apply_exit_egress_toml (p : path) (policy : option Ipv6LiteralPolicy) : eio path :=
  ed! x := load_original p in
  let '(original, old) := x in
  if negb (bool_decide (role old = Exit)) then ethrow ExitOnly else
  let patched := replace_section_text original "[egress]" (option_map egress_text policy) in
  ed! new := check_patched patched in
  if negb (unchanged_but ["egress"] old new) then ethrow ChangesOtherSetting else
  commit_patch p patched None.

Definition apply_tls_spoof_toml (p : path) (section : option TlsSpoofSection) : eio path :=
  ed! x := load_original p in
  let '(original, old) := x in
  ed! _ := elift (match section with Some s => map_err SectionInvalid (TlsSpoofSection_validate s) | None => Ok tt end) in
  let patched := replace_section_text original "[google_egress_tls_spoof]" (option_map spoof_text section) in
  ed! new := check_patched patched in
  if negb (unchanged_but ["google_egress_tls_spoof"] old new) then ethrow ChangesOtherSetting else
  commit_patch p patched None.

Definition same_route (existing wanted : PeerEndpointSection) : bool :=
  String.eqb (pe_host existing) (pe_host wanted) && (pe_port existing =? pe_port wanted)
  && bool_decide (pe_transport existing = pe_transport wanted) && bool_decide (pe_server_name existing = pe_server_name wanted)
  && bool_decide (pe_reality_public_key existing = pe_reality_public_key wanted)
  && bool_decide (pe_reality_short_id existing = pe_reality_short_id wanted) && String.eqb (pe_path existing) (pe_path wanted)
  && bool_decide (pe_vless_flow existing = pe_vless_flow wanted) && bool_decide (pe_credential_ref existing = pe_credential_ref wanted).

Definition apply_peer_endpoint_toml (p : path) (wanted : PeerEndpointSection) : eio outcome :=
  ed! x := load_original p in
  let '(original, old) := x in
  match List.find (fun e => String.eqb (pe_id e) (pe_id wanted)) (peer_endpoints old) with
  | Some existing => if same_route existing wanted then eret AlreadyCurrent else ethrow DifferentPeer
  | None =>
      let patched := peer_endpoint_text original wanted in
      ed! new := check_patched patched in
      if negb (unchanged_but ["peer_endpoints"] old new)
         || negb (length (peer_endpoints new) =? S (length (peer_endpoints old)))%nat then ethrow ChangesOtherSetting else
      ed! backup := commit_patch p patched None in
      eret (Edited backup)
  end.

(** ** One type of edits *)

Inductive toml_edit :=
| MigrateSchema
| SetHairpin (section : option GoogleEgressHairpinSection)
| SetEgress (policy : option Ipv6LiteralPolicy)
| SetSpoof (section : option TlsSpoofSection)
| AddPeer (wanted : PeerEndpointSection).

Definition run_edit (e : toml_edit) (p : path) : eio outcome :=
  match e with
  | MigrateSchema => migrate_deployment_toml p
  | SetHairpin s => ed! backup := apply_google_egress_hairpin_toml p s in eret (Edited backup)
  | SetEgress o => ed! backup := apply_exit_egress_toml p o in eret (Edited backup)
  | SetSpoof s => ed! backup := apply_tls_spoof_toml p s in eret (Edited backup)
  | AddPeer w => apply_peer_endpoint_toml p w
  end.
(** The settings an edit may change. *)
Definition edits (e : toml_edit) (old : DeploymentConfig) : list string :=
  match e with
  | MigrateSchema => "schema_version" :: (if str_is_empty (node_id old) then ["node_id"] else [])
  | SetHairpin _ => ["google_egress_hairpin"]
  | SetEgress _ => ["egress"]
  | SetSpoof _ => ["google_egress_tls_spoof"]
  | AddPeer _ => ["peer_endpoints"]
  end.

(** ** Lemmas *)

Local Notation text_of p fs := (option_map content (files fs !! p)).
Local Notation bak := (backup_path ts).
Local Notation tmp := (tmp_sibling_path pid).

Lemma ebind_inv {A B} (m : eio A) (k : A -> eio B) fs fl r fs' fl' : ebind m k fs fl = (r, fs', fl') ->
  (exists a fs1 fl1, m fs fl = (Ok a, fs1, fl1) /\ k a fs1 fl1 = (r, fs', fl')) \/ (exists e, m fs fl = (Err e, fs', fl') /\ r = Err e).
Proof. unfold ebind. destruct (m fs fl) as [[[a|e] fs1] fl1]; [eauto 8|intros [= <- <- <-]; eauto]. Qed.
Lemma efile_inv {A} (m : io A) fs fl r fs' fl' : efile m fs fl = (r, fs', fl') -> exists r0, m fs fl = (r0, fs', fl') /\ r = map_err EditIo r0.
Proof. unfold efile. destruct (m fs fl) as [[r0 fs1] fl1]. intros [= <- <- <-]. eauto. Qed.

Lemma ebind_assoc {A B C} (m : eio A) (k : A -> eio B) (k' : B -> eio C) fs fl :
  ebind (ebind m k) k' fs fl = ebind m (fun a => ebind (k a) k') fs fl.
Proof. unfold ebind. by destruct (m fs fl) as [[[a|e] fs1] fl1]. Qed.

(** Reading changes nothing. *)
Definition reads {A} (m : eio A) : Prop := forall fs fl r fs' fl', m fs fl = (r, fs', fl') -> files fs' = files fs.
Lemma reads_bind {A B} (m : eio A) (k : A -> eio B) : reads m -> (forall a, reads (k a)) -> reads (ebind m k).
Proof.
  intros Hm Hk fs fl r fs' fl' E. apply ebind_inv in E as [(a & fs1 & fl1 & E1 & E)|(e & E & _)]; [|by eapply Hm].
  rewrite (Hk _ _ _ _ _ _ E). by eapply Hm.
Qed.
Lemma reads_lift {A} (r : result A edit_error) : reads (elift r).
Proof. by intros fs fl r0 fs' fl' [= _ <- _]. Qed.
Lemma reads_ret {A} (a : A) : reads (eret a).
Proof. by intros fs fl r0 fs' fl' [= _ <- _]. Qed.
Lemma reads_file {A} (m : io A) : frame (fun _ => False) m -> reads (efile m).
Proof. intros Hm fs fl r fs' fl' E. apply efile_inv in E as (r0 & E & _). by eapply files_eq_frame. Qed.
Lemma load_original_reads p : reads (load_original p).
Proof.
  apply reads_bind; [apply reads_file, read_frame|]. intros o. apply reads_bind; [apply reads_lift|]. intros c.
  apply reads_bind; [apply reads_lift|]. intros _. apply reads_ret.
Qed.
Lemma check_patched_reads patched : reads (check_patched patched).
Proof. apply reads_bind; [apply reads_lift|]. intros c. apply reads_bind; [apply reads_lift|]. intros _. apply reads_ret. Qed.

Lemma load_original_ok p fs fl original cfg fs' fl' : load_original p fs fl = (Ok (original, cfg), fs', fl') ->
  text_of p fs = Some original /\ toml_config original = Some cfg /\ is_ok (validate b64_decode cfg) = true.
Proof.
  unfold load_original. intros E. apply ebind_inv in E as [(o & fs1 & fl1 & E1 & E)|(e & _ & E)]; [|discriminate].
  apply efile_inv in E1 as (r0 & E1 & Hr). destruct r0; [|discriminate]. injection Hr as ->. apply read_file_ok in E1 as (f & Hf & -> & _).
  apply ebind_inv in E as [(c & fs2 & fl2 & E2 & E)|(e & _ & E)]; [|discriminate]. injection E2 as E2 _ _.
  apply ebind_inv in E as [(u & fs3 & fl3 & E3 & E)|(e & _ & E)]; [|discriminate]. injection E3 as E3 _ _. injection E as <- <- _ _.
  rewrite Hf. split; [done|]. destruct (toml_config (content f)); [|discriminate]. injection E2 as ->. split; [done|].
  by destruct (validate b64_decode c).
Qed.
Lemma check_patched_ok patched fs fl cfg fs' fl' : check_patched patched fs fl = (Ok cfg, fs', fl') ->
  toml_config patched = Some cfg /\ is_ok (validate b64_decode cfg) = true.
Proof.
  unfold check_patched. intros E. apply ebind_inv in E as [(c & fs2 & fl2 & E2 & E)|(e & _ & E)]; [|discriminate]. injection E2 as E2 _ _.
  apply ebind_inv in E as [(u & fs3 & fl3 & E3 & E)|(e & _ & E)]; [|discriminate]. injection E3 as E3 _ _. injection E as <- _ _.
  destruct (toml_config patched); [|discriminate]. injection E2 as ->. split; [done|]. by destruct (validate b64_decode c).
Qed.

Lemma backup_spec p fs fl r fs' fl' : backup_before_mutate me_uid umask new_gid ts p fs fl = (r, fs', fl') ->
  (forall q, q <> bak p -> files fs' !! q = files fs !! q) /\ forall b, r = Ok b -> b = bak p /\ text_of b fs' = text_of p fs /\ files fs !! p <> None.
Proof.
  intros E. split.
  - intros q Hq. assert (Hb : frame (fun q => q = bak p) (backup_before_mutate me_uid umask new_gid ts p)).
    { apply frame_bind; [eapply frame_weaken, read_frame; done|]. intros bytes. apply frame_bind; [apply write_file_mode_frame|intros _; apply frame_ret]. }
    by eapply Hb.
  - intros b ->. unfold backup_before_mutate in E. io_bind E; [|discriminate]. apply read_file_ok in E0 as (f & Hf & -> & Hff).
    io_bind E; [|discriminate]. injection E as <- <- _. destruct a. apply write_file_mode_ok in E0 as (u & g & Hw & _).
    split; [done|]. rewrite Hw, Hf. done.
Qed.

Lemma commit_patch_spec p patched mode fs fl r fs' fl' : commit_patch p patched mode fs fl = (r, fs', fl') ->
  (forall q, q <> p -> q <> tmp p -> q <> bak p -> files fs' !! q = files fs !! q) /\
  match r with
  | Ok b => b = bak p /\ text_of p fs' = Some patched /\ text_of b fs' = text_of p fs
  | Err _ => files fs' !! p = files fs !! p
  end.
Proof.
  destruct (backup_ne pid ts p) as [Hbp Hbt]. unfold commit_patch. intros E.
  apply ebind_inv in E as [(b & fs1 & fl1 & E1 & E)|(e & E & ->)]; [|].
  2:{ apply efile_inv in E as (r0 & E & _). apply backup_spec in E as [F _]. split; [auto|]. apply F. congruence. }
  apply efile_inv in E1 as (r1 & E1 & Hr1). destruct r1 as [b1|]; [|discriminate]. injection Hr1 as ->.
  apply backup_spec in E1 as [F1 R1]. destruct (R1 _ eq_refl) as (-> & Hb & _). clear R1.
  apply ebind_inv in E as [(m & fs2 & fl2 & E2 & E)|(e & E & ->)].
  2:{ assert (Hs : files fs' = files fs1).
      { destruct mode; [discriminate|]. eapply reads_file; [|exact E]. apply frame_bind; [apply file_mode_frame|intros ?; apply frame_ret]. }
      rewrite Hs. split; [auto|]. apply F1. congruence. }
  assert (Hs : files fs2 = files fs1).
  { destruct mode; [by injection E2 as _ <- _|]. eapply reads_file; [|exact E2]. apply frame_bind; [apply file_mode_frame|intros ?; apply frame_ret]. }
  apply ebind_inv in E as [(u & fs3 & fl3 & E3 & E)|(e & E & ->)].
  - injection E as <- <- _. apply efile_inv in E3 as (r3 & E3 & Hr3). destruct r3; [|discriminate]. apply atomic_write_spec in E3 as [F3 (f & Hf & Hc & _)].
    rewrite Hs in F3. split; [intros q H1 H2 H3; rewrite F3, F1; done|]. split; [done|]. rewrite Hf. simpl. rewrite Hc. split; [done|].
    rewrite F3; done.
  - apply efile_inv in E as (r3 & E & Hr3). destruct r3 as [|e3]; [discriminate|]. apply atomic_write_spec in E as [F3 R3]. simpl in R3.
    rewrite Hs in F3, R3. split; [intros q H1 H2 H3; rewrite F3, F1; done|]. rewrite R3. apply F1. congruence.
Qed.

(** An edit consumes no faults when there are none. *)
Definition equiet {A} (m : eio A) : Prop := forall fs r fs' fl', m fs [] = (r, fs', fl') -> fl' = [].
Lemma equiet_bind {A B} (m : eio A) (k : A -> eio B) : equiet m -> (forall a, equiet (k a)) -> equiet (ebind m k).
Proof.
  intros Hm Hk fs r fs' fl' E. apply ebind_inv in E as [(a & fs1 & fl1 & E1 & E)|(e & E & _)]; [|by eapply Hm].
  apply Hm in E1 as ->. by eapply Hk.
Qed.
Lemma equiet_lift {A} (r : result A edit_error) : equiet (elift r).
Proof. by intros fs r0 fs' fl' [= <- <- <-]. Qed.
Lemma equiet_ret {A} (a : A) : equiet (eret a).
Proof. by intros fs r0 fs' fl' [= <- <- <-]. Qed.
Lemma equiet_throw {A} e : equiet (ethrow (A := A) e).
Proof. by intros fs r0 fs' fl' [= <- <- <-]. Qed.
Lemma equiet_file {A} (m : io A) : quiet m -> equiet (efile m).
Proof. intros Hm fs r fs' fl' E. apply efile_inv in E as (r0 & E & _). by eapply Hm. Qed.
Lemma commit_patch_quiet p patched mode : equiet (commit_patch p patched mode).
Proof.
  unfold commit_patch, backup_before_mutate, atomic_write, same_mode, file_mode, read_file, write_file_mode, open_truncate, set_permissions, write_all, sync_all,
    preserve_ownership_before_rename, metadata, dir_metadata, chown, rename, create_dir_all, fsync_parent_dir.
  repeat first [ apply equiet_ret | apply equiet_file | apply quiet_ret | apply quiet_throw | apply quiet_syscall | apply quiet_try
               | apply quiet_bind; [|intros ?] | apply equiet_bind; [|intros ?] | case_match ].
Qed.
Lemma run_edit_quiet e p : equiet (run_edit e p).
Proof.
  assert (Hl : equiet (load_original p)) by (apply equiet_bind; [apply equiet_file, quiet_syscall|]; intros ?; repeat (apply equiet_bind; [apply equiet_lift|intros ?]); apply equiet_ret).
  assert (Hc : forall t, equiet (check_patched t)) by (intros t; repeat (apply equiet_bind; [apply equiet_lift|intros ?]); apply equiet_ret).
  unfold run_edit, migrate_deployment_toml, apply_google_egress_hairpin_toml, apply_exit_egress_toml, apply_tls_spoof_toml, apply_peer_endpoint_toml, exists_, metadata.
  repeat first [ exact Hl | apply Hc | apply commit_patch_quiet | apply equiet_ret | apply equiet_throw | apply equiet_lift | apply equiet_file
               | apply quiet_ret | apply quiet_try, quiet_syscall | apply quiet_bind; [|intros ?] | apply equiet_bind; [|intros ?] | case_match ].
Qed.

Context `{!JsonLaws V, !JsonViewLaws V, !JsonEqLaws V}.
Hypothesis normalized_object : forall c, StaticRevision.is_object (normalized c).

Lemma removed_keys keys (v : V) : StaticRevision.is_object v -> forall k, ~ In k keys -> jget (fold_left jremove keys v) k = jget v k.
Proof.
  revert v. induction keys as [|x keys IH]; simpl; intros v [kvs Hv] k Hk; [done|].
  destruct (jremove_object v kvs x Hv) as [kvs' Hv']. rewrite IH; [|by exists kvs'|tauto]. rewrite (view_jremove v kvs x k Hv).
  destruct (String.eqb_spec x k); [tauto|done].
Qed.
Lemma unchanged_but_spec keys a b : unchanged_but keys a b = true -> forall k, ~ In k keys -> jget (normalized b) k = jget (normalized a) k.
Proof.
  unfold unchanged_but. intros E k Hk. apply jeqb_spec in E. apply (f_equal (fun v => jget v k)) in E.
  by rewrite !removed_keys in E by done.
Qed.

(** A committed edit: what was there, what is there, and what it kept. *)
Definition edited (keys : DeploymentConfig -> list string) (extra : DeploymentConfig -> DeploymentConfig -> Prop) (p : path) (fs fs' : FS) (b : path) : Prop :=
  exists original old patched new,
    text_of p fs = Some original /\ toml_config original = Some old /\ is_ok (validate b64_decode old) = true /\
    text_of p fs' = Some patched /\ toml_config patched = Some new /\ is_ok (validate b64_decode new) = true /\
    (forall k, ~ In k (keys old) -> jget (normalized new) k = jget (normalized old) k) /\ extra old new /\
    b = bak p /\ text_of b fs' = Some original.
Definition only_writes (p : path) (fs fs' : FS) : Prop :=
  forall q, q <> p -> q <> tmp p -> q <> bak p -> files fs' !! q = files fs !! q.

Lemma commit_edited keys (extra : DeploymentConfig -> DeploymentConfig -> Prop) p mode original old patched new fs fs1 fl1 r fs' fl' : files fs1 = files fs ->
  text_of p fs = Some original -> toml_config original = Some old -> is_ok (validate b64_decode old) = true ->
  toml_config patched = Some new -> is_ok (validate b64_decode new) = true -> unchanged_but (keys old) old new = true -> extra old new ->
  commit_patch p patched mode fs1 fl1 = (r, fs', fl') ->
  only_writes p fs fs' /\ match r with Ok b => edited keys extra p fs fs' b | Err _ => files fs' !! p = files fs !! p end.
Proof.
  intros Hs Ho Hold Hv1 Hnew Hv2 Hun Hx E. apply commit_patch_spec in E as [F R]. rewrite Hs in *. split; [done|]. destruct r as [b|e]; [|done].
  destruct R as (-> & Hp & Hb). exists original, old, patched, new. rewrite Hb.
  repeat (split; [done|]). split; [by apply unchanged_but_spec|]. done.
Qed.

(** Loading, checking and committing, whatever the guards in between. *)
Lemma loaded_step {A} (k : string * DeploymentConfig -> eio A) (Q : result A edit_error -> FS -> Prop) p fs fl r fs' fl' :
  ebind (load_original p) k fs fl = (r, fs', fl') -> (forall e fs1, files fs1 = files fs -> Q (Err e) fs1) ->
  (forall original old fs1 fl1, files fs1 = files fs -> text_of p fs = Some original -> toml_config original = Some old ->
     is_ok (validate b64_decode old) = true -> k (original, old) fs1 fl1 = (r, fs', fl') -> Q r fs') -> Q r fs'.
Proof.
  intros E HE Hk. apply ebind_inv in E as [([original old] & fs1 & fl1 & E1 & E)|(e & E & ->)].
  - pose proof (load_original_reads _ _ _ _ _ _ E1) as Hs. apply load_original_ok in E1 as (H1 & H2 & H3). by eapply Hk.
  - apply HE. by eapply load_original_reads.
Qed.
Lemma checked_step {A} (k : DeploymentConfig -> eio A) (Q : result A edit_error -> FS -> Prop) patched (fs : FS) fs0 fl r fs' fl' :
  ebind (check_patched patched) k fs0 fl = (r, fs', fl') -> files fs0 = files fs -> (forall e fs1, files fs1 = files fs -> Q (Err e) fs1) ->
  (forall new fs1 fl1, files fs1 = files fs -> toml_config patched = Some new -> is_ok (validate b64_decode new) = true ->
     k new fs1 fl1 = (r, fs', fl') -> Q r fs') -> Q r fs'.
Proof.
  intros E H0 HE Hk. apply ebind_inv in E as [(new & fs1 & fl1 & E1 & E)|(e & E & ->)].
  - pose proof (check_patched_reads _ _ _ _ _ _ E1) as Hs. apply check_patched_ok in E1 as (H1 & H2). apply (Hk new fs1 fl1); [congruence|done..].
  - apply HE. apply check_patched_reads in E. congruence.
Qed.

Definition extra_of (e : toml_edit) (old new : DeploymentConfig) : Prop :=
  match e with
  | MigrateSchema => schema_version new = DEPLOYMENT_SCHEMA_VERSION /\ role new = role old
  | SetEgress _ => role old = Exit
  | AddPeer w => length (peer_endpoints new) = S (length (peer_endpoints old)) /\ Forall (fun x => pe_id x <> pe_id w) (peer_endpoints old)
  | _ => True
  end.

Lemma ebind_throw {A B} e (k : A -> eio B) fs fl : ebind (ethrow e) k fs fl = (Err e, fs, fl).
Proof. done. Qed.
Ltac past_guard E HE :=
  match type of E with context [if negb ?c then ethrow _ else _] =>
    let Hg := fresh "Hg" in
    destruct c eqn:Hg; cbn [negb] in E; cbv iota in E; [|try rewrite ebind_throw in E; injection E as <- <- _; by apply HE]
  end.

(** The property below, for the commands that build on it. *)
Lemma run_edit_spec e p fs fl r fs' fl' : run_edit e p fs fl = (r, fs', fl') ->
  only_writes p fs fs' /\
  match r with
  | Ok (Edited b) => edited (edits e) (extra_of e) p fs fs' b
  | Ok _ | Err _ => files fs' !! p = files fs !! p
  end.
Proof.
  intros E. pattern r, fs'. match goal with |- ?F r fs' => set (Q := F) end.
  assert (HE : forall x fs1, files fs1 = files fs -> Q (Err x) fs1) by (intros x fs1 Hs; split; [intros q _ _ _|]; by rewrite Hs).
  assert (HN : forall o fs1, files fs1 = files fs -> match o with Edited _ => False | _ => True end -> Q (Ok o) fs1)
    by (intros [] fs1 Hs Ho; [| |done]; (split; [intros q _ _ _|]); by rewrite Hs).
  assert (HC : forall mode original old patched new fs1 fl1, files fs1 = files fs -> text_of p fs = Some original -> toml_config original = Some old ->
    is_ok (validate b64_decode old) = true -> toml_config patched = Some new -> is_ok (validate b64_decode new) = true ->
    unchanged_but (edits e old) old new = true -> extra_of e old new ->
    ebind (commit_patch p patched mode) (fun b => eret (Edited b)) fs1 fl1 = (r, fs', fl') -> Q r fs').
  { intros mode original old patched new fs1 fl1 Hs H1 H2 H3 H4 H5 H6 H7 E1.
    apply ebind_inv in E1 as [(b & fs2 & fl2 & E1 & E2)|(x & E1 & ->)].
    - injection E2 as <- <- _. exact (commit_edited _ (extra_of e) _ _ _ _ _ _ _ _ _ _ _ _ Hs H1 H2 H3 H4 H5 H6 H7 E1).
    - exact (commit_edited _ (extra_of e) _ _ _ _ _ _ _ _ _ _ _ _ Hs H1 H2 H3 H4 H5 H6 H7 E1). }
  destruct e as [|section|policy|section|wanted]; cbn [run_edit] in E.
  - apply ebind_inv in E as [(there & fs0 & fl0 & E0 & E)|(x & E & ->)]; [|apply HE; eapply reads_file; [apply exists_frame|exact E]].
    assert (H0 : files fs0 = files fs) by (eapply reads_file; [apply exists_frame|exact E0]). destruct there; simpl negb in E; cbv iota in E.
    2:{ injection E as <- <- _. by apply HN. }
    eapply (loaded_step _ Q); [exact E|intros x fs1 Hs; apply HE; congruence|]. clear E. intros original old fs1 fl1 Hs H1 H2 H3 E. rewrite H0 in *.
    cbv beta iota in E. destruct (migrate_deployment_toml_text original) as [patched|]; [|injection E as <- <- _; by apply HN].
    eapply (checked_step _ Q); [exact E|exact Hs|exact HE|]. clear E. intros new fs2 fl2 Hs2 H4 H5 E. cbv beta in E.
    past_guard E HE. past_guard E HE. past_guard E HE. b2p. apply bool_decide_eq_true in Hg0. by apply (HC _ _ _ _ _ _ _ Hs2 H1 H2 H3 H4 H5) in E.
  - unfold apply_google_egress_hairpin_toml in E. rewrite ebind_assoc in E. eapply (loaded_step _ Q); [exact E|exact HE|].
    clear E. intros original old fs1 fl1 Hs H1 H2 H3 E. cbv beta iota zeta in E. rewrite ebind_assoc in E.
    eapply (checked_step _ Q); [exact E|exact Hs|exact HE|]. clear E. intros new fs2 fl2 Hs2 H4 H5 E. cbv beta in E.
    past_guard E HE. by apply (HC _ _ _ _ _ _ _ Hs2 H1 H2 H3 H4 H5) in E.
  - unfold apply_exit_egress_toml in E. rewrite ebind_assoc in E. eapply (loaded_step _ Q); [exact E|exact HE|].
    clear E. intros original old fs1 fl1 Hs H1 H2 H3 E. cbv beta iota zeta in E. past_guard E HE. rewrite ebind_assoc in E.
    eapply (checked_step _ Q); [exact E|exact Hs|exact HE|]. clear E. intros new fs2 fl2 Hs2 H4 H5 E. cbv beta in E.
    past_guard E HE. apply bool_decide_eq_true in Hg. by apply (HC _ _ _ _ _ _ _ Hs2 H1 H2 H3 H4 H5) in E.
  - unfold apply_tls_spoof_toml in E. rewrite ebind_assoc in E. eapply (loaded_step _ Q); [exact E|exact HE|].
    clear E. intros original old fs1 fl1 Hs H1 H2 H3 E. cbv beta iota zeta in E. rewrite ebind_assoc in E.
    apply ebind_inv in E as [(u & fs3 & fl3 & E3 & E)|(x & E3 & ->)]; [|injection E3 as _ <- _; by apply HE]. injection E3 as _ <- _.
    cbv beta in E. rewrite ebind_assoc in E.
    eapply (checked_step _ Q); [exact E|exact Hs|exact HE|]. clear E. intros new fs2 fl2 Hs2 H4 H5 E. cbv beta in E.
    past_guard E HE. by apply (HC _ _ _ _ _ _ _ Hs2 H1 H2 H3 H4 H5) in E.
  - unfold apply_peer_endpoint_toml in E. eapply (loaded_step _ Q); [exact E|exact HE|].
    clear E. intros original old fs1 fl1 Hs H1 H2 H3 E. cbv beta iota zeta in E.
    destruct (List.find _ (peer_endpoints old)) as [existing|] eqn:Hfind.
    { destruct (same_route existing wanted); injection E as <- <- _; [by apply HN|by apply HE]. }
    eapply (checked_step _ Q); [exact E|exact Hs|exact HE|]. clear E. intros new fs2 fl2 Hs2 H4 H5 E. cbv beta in E.
    rewrite <- negb_andb in E. past_guard E HE. apply andb_prop in Hg as [Hun Hlen]. apply Nat.eqb_eq in Hlen.
    apply (HC _ _ _ _ _ _ _ Hs2 H1 H2 H3 H4 H5 Hun) in E; [done|]. split; [done|]. apply List.Forall_forall. intros x Hx.
    apply (List.find_none _ _ Hfind) in Hx. by apply String.eqb_neq in Hx.
Qed.

(** C30: An edit of [deployment.toml] changes its own section or nothing.  For
    each of the five edits (schema migration, hairpin, egress, TLS spoof, peer
    endpoint), whatever the text edit produces and whatever file operation
    fails: an error leaves the file exactly as it was; a committed edit has
    put in place a text that parses to a valid deployment in which every
    setting other than the edited one is the original's, with the original
    text kept in the backup; a migration has the current schema version and
    the same role, and adds a node identity only where there was none; an
    egress policy is only ever set on an exit; a peer is added exactly once
    and never replaces one with its id.  No other file is touched. *)
Theorem toml_edit_confined e p fs fl r fs' fl' : run_edit e p fs fl = (r, fs', fl') ->
  only_writes p fs fs' /\
  match r with
  | Ok (Edited b) => edited (edits e) (extra_of e) p fs fs' b
  | Ok _ | Err _ => files fs' !! p = files fs !! p
  end.
Proof. apply run_edit_spec. Qed.
End Edit.

(** The loop that collapses blank lines ends with none left. *)
Lemma prefix_length p s : String.prefix p s = true -> (String.length p <= String.length s)%nat.
Proof.
  revert s. induction p as [|a p IH]; intros [|b s]; simpl; try done; [lia|]. destruct (ascii_dec a b); [|done]. intros H%IH. lia.
Qed.
Lemma contains_length p s : str_contains p s = true -> (String.length p <= String.length s)%nat.
Proof.
  induction s as [|a s IH]; cbn [str_contains]; intros [H|H]%orb_prop; try done; try (by apply prefix_length in H). apply IH in H. simpl. lia.
Qed.
Lemma replace_triple_eq a b c s : replace_triple (String a (String b (String c s))) =
  if is_nl a && is_nl b && is_nl c then String newline (String newline (replace_triple s)) else String a (replace_triple (String b (String c s))).
Proof. reflexivity. Qed.
Lemma replace_triple_length s : (String.length (replace_triple s) <= String.length s)%nat.
Proof.
  induction s as [s IH] using (induction_ltof1 _ String.length). unfold ltof in IH.
  destruct s as [|a [|b [|c s]]]; [done..|]. rewrite replace_triple_eq. pose proof (IH s ltac:(simpl; lia)).
  pose proof (IH (String b (String c s)) ltac:(simpl; lia)). destruct (_ && _); cbn [String.length] in *; lia.
Qed.
Lemma replace_triple_shorter s : str_contains triple s = true -> (String.length (replace_triple s) < String.length s)%nat.
Proof.
  induction s as [s IH] using (induction_ltof1 _ String.length). unfold ltof in IH.
  destruct s as [|a [|b [|c s]]]; [intros H%contains_length; simpl in H; lia..|]. rewrite replace_triple_eq. intros H. pose proof (replace_triple_length s). specialize (IH (String b (String c s)) ltac:(simpl; lia)).
  destruct (is_nl a && is_nl b && is_nl c) eqn:E; [cbn [String.length]; lia|]. cbn [str_contains] in H. apply orb_prop in H as [H|H].
  - exfalso. change (String.prefix (String newline (String newline (String newline EmptyString))) (String a (String b (String c s))) = true) in H.
    cbn [String.prefix] in H. unfold is_nl in E. destruct (ascii_dec newline a) as [<-|]; [|done]. destruct (ascii_dec newline b) as [<-|]; [|done].
    destruct (ascii_dec newline c) as [<-|]; [|done]. discriminate E.
  - specialize (IH H). cbn [String.length] in *. lia.
Qed.
Lemma collapse_ends fuel s : (String.length s <= fuel)%nat -> str_contains triple (collapse fuel s) = false.
Proof.
  revert s. induction fuel as [|fuel IH]; intros s Hs; simpl.
  - destruct s; [done|simpl in Hs; lia].
  - destruct (str_contains triple s) eqn:E; [|done]. apply IH. pose proof (replace_triple_shorter s E). lia.
Qed.

(** ** Idempotence of the text migration *)

Definition one_line (s : string) : Prop := str_all (fun c => negb (Ascii.eqb c newline)) s = true /\ strip_cr s = s.

Lemma lines_unlines l : Forall one_line l -> lines (unlines l) = l.
Proof.
  unfold lines. induction 1 as [|x l [Hx Hc] _ IH]; [done|].
  change (unlines (x :: l)) with (x +:+ String newline (unlines l)). rewrite split_on_app by done. simpl. rewrite Hc.
  destruct (split_on newline (unlines l)) eqn:E; [by apply split_on_ne in E|]. by rewrite IH.
Qed.
Lemma split_on_all (P : ascii -> bool) d s : str_all P s = true ->
  Forall (fun w => str_all (fun c => P c && negb (Ascii.eqb c d)) w = true) (split_on d s).
Proof.
  unfold str_all. induction s as [|c s IH]; simpl; [by repeat constructor|]. intros [Hc Hs]%andb_prop. specialize (IH Hs).
  destruct (Ascii.eqb c d) eqn:E; [by constructor|]. destruct IH as [|w ws Hw Hws]; repeat constructor; simpl; try done; by rewrite Hc, E.
Qed.
Lemma strip_cr_id s : str_all (fun c => negb (Ascii.eqb c (ascii_of_nat 13))) s = true -> strip_cr s = s.
Proof.
  unfold str_all. induction s as [|c [|c' s] IH]; [done| |]; intros [Hc Hs]%andb_prop.
  - simpl. apply negb_true_iff in Hc. by rewrite Hc.
  - change (String c (strip_cr (String c' s)) = String c (String c' s)). by rewrite (IH Hs).
Qed.
Lemma str_all_imp (P Q : ascii -> bool) s : (forall c, P c = true -> Q c = true) -> str_all P s = true -> str_all Q s = true.
Proof. unfold str_all. rewrite !forallb_forall. eauto. Qed.
Lemma lines_one_line s : str_all (fun c => negb (Ascii.eqb c (ascii_of_nat 13))) s = true -> Forall one_line (lines s).
Proof.
  intros Hs. apply (split_on_all _ newline) in Hs. unfold lines.
  assert (Hw : forall w, str_all (fun c => negb (Ascii.eqb c (ascii_of_nat 13)) && negb (Ascii.eqb c newline)) w = true -> one_line w /\ strip_cr w = w).
  { intros w Hw. assert (strip_cr w = w) by (apply strip_cr_id; revert Hw; apply str_all_imp; intros c Hc; by b2p).
    repeat split; [|done..]. revert Hw. apply str_all_imp. intros c Hc; by b2p. }
  induction Hs as [|w ws H Hs IH]; [constructor|]. destruct (Hw w H) as [H1 H2]. destruct ws as [|w' ws]; simpl.
  - destruct (str_is_empty w); [constructor|constructor; [done|constructor]].
  - rewrite H2. by constructor.
Qed.

(** The copy loop on lines. *)
Fixpoint migrate_lines (header l : list string) (in_top_level wrote_header : bool) : list string * bool :=
  match l with
  | [] => ([], wrote_header)
  | line :: l =>
      let in_top_level := in_top_level && negb (is_table line) in
      if in_top_level && bool_decide (top_level_key line = Some "schema_version") then
        let '(body, wrote) := migrate_lines header l in_top_level true in ((if wrote_header then [] else header) ++ body, wrote)
      else let '(body, wrote) := migrate_lines header l in_top_level wrote_header in (line :: body, wrote)
  end.
Lemma unlines_app a b : unlines (a ++ b) = unlines a +:+ unlines b.
Proof. induction a as [|x a IH]; [done|]. simpl. rewrite IH. unfold nl. by rewrite !str_app_assoc. Qed.
Lemma migrate_body_lines header l t w :
  migrate_body (unlines header) l t w = (unlines (fst (migrate_lines header l t w)), snd (migrate_lines header l t w)).
Proof.
  revert t w. induction l as [|x l IH]; intros t w; [done|]. simpl.
  destruct (_ && bool_decide _); rewrite IH; destruct (migrate_lines header l _ _) as [body wrote]; simpl; [|done].
  rewrite unlines_app. by destruct w.
Qed.
Lemma migrate_lines_below header l w : migrate_lines header l false w = (l, w).
Proof. revert w. induction l as [|x l IH]; intros w; [done|]. simpl. by rewrite IH. Qed.
Lemma migrate_lines_Forall (P : string -> Prop) header l t w : Forall P header -> Forall P l -> Forall P (fst (migrate_lines header l t w)).
Proof.
  intros Hh Hl. revert t w. induction Hl as [|x l Hx _ IH]; intros t w; simpl; [constructor|].
  destruct (_ && bool_decide _); [specialize (IH (t && negb (is_table x)) true)|specialize (IH (t && negb (is_table x)) w)];
    destruct (migrate_lines header l _ _) as [body wrote]; simpl in *; [|by constructor]. apply Forall_app. split; [by destruct w|done].
Qed.

Definition assigns (wanted line : string) : option string :=
  match top_level_key line with
  | Some key => if String.eqb key wanted then option_map (fun kv => trim (snd kv)) (split_once "=" line) else None
  | None => None
  end.
Lemma value_of_cons x l k : value_of (x :: l) k =
  if is_table x then None else match assigns k x with Some v => Some v | None => value_of l k end.
Proof. unfold value_of, top_level. simpl. by destruct (is_table x). Qed.
Lemma value_of_app a b k : Forall (fun x => is_table x = false) a ->
  value_of (a ++ b) k = match value_of a k with Some v => Some v | None => value_of b k end.
Proof.
  induction 1 as [|x a Hx _ IH]; [done|]. simpl app. rewrite !value_of_cons, Hx. destruct (assigns k x); [done|]. exact IH.
Qed.

Lemma migrate_lines_wrote header l t : snd (migrate_lines header l t true) = true.
Proof.
  revert t. induction l as [|x l IH]; intros t; [done|]. simpl. destruct (_ && bool_decide _);
    specialize (IH (t && negb (is_table x))); by destruct (migrate_lines header l _ _).
Qed.

(** What the copy assigns: a setting other than the version is assigned in the
    copy when it was, or when the header it received does; the version is that
    of the header. *)
Lemma migrate_lines_value header l k w : Forall (fun x => is_table x = false) header -> k <> "schema_version" ->
  is_some (value_of (fst (migrate_lines header l true w)) k) =
  is_some (value_of l k) || (snd (migrate_lines header l true w) && negb w && is_some (value_of header k)).
Proof.
  intros Hh Hk. revert w. induction l as [|x l IH]; intros w; [by destruct w|].
  rewrite value_of_cons. simpl. destruct (is_table x) eqn:Ht; simpl.
  { rewrite migrate_lines_below. simpl. rewrite value_of_cons, Ht. by destruct w. }
  destruct (bool_decide _) eqn:Hb.
  - apply bool_decide_eq_true in Hb. assert (Ha : assigns k x = None).
    { unfold assigns. rewrite Hb. destruct (String.eqb_spec "schema_version" k); [by subst|done]. }
    rewrite Ha. specialize (IH true). pose proof (migrate_lines_wrote header l true) as Hw.
    destruct (migrate_lines header l true true) as [body wrote]. simpl in *. subst wrote. rewrite andb_false_r, orb_false_r in IH.
    destruct w; simpl; [by rewrite orb_false_r|]. rewrite value_of_app by done.
    destruct (value_of header k); simpl; [by rewrite orb_true_r|]. by rewrite orb_false_r.
  - specialize (IH w). destruct (migrate_lines header l true w) as [body wrote]. simpl in *. rewrite value_of_cons, Ht.
    by destruct (assigns k x).
Qed.
Lemma migrate_lines_version header l w : Forall (fun x => is_table x = false) header ->
  value_of (fst (migrate_lines header l true w)) "schema_version" =
  if snd (migrate_lines header l true w) && negb w then value_of header "schema_version" else None.
Proof.
  intros Hh. revert w. induction l as [|x l IH]; intros w; [by destruct w|]. simpl. destruct (is_table x) eqn:Ht; simpl.
  { rewrite migrate_lines_below. simpl. rewrite value_of_cons, Ht. by destruct w. }
  destruct (bool_decide _) eqn:Hb.
  - specialize (IH true). pose proof (migrate_lines_wrote header l true) as Hw. destruct (migrate_lines header l true true) as [body wrote]. simpl in *. subst wrote. simpl in IH.
    destruct w; simpl; [done|]. rewrite value_of_app by done. rewrite IH. by destruct (value_of header _).
  - apply bool_decide_eq_false in Hb. assert (Ha : assigns "schema_version" x = None).
    { unfold assigns. destruct (top_level_key x) as [k|]; [|done]. destruct (String.eqb_spec k "schema_version"); [by subst|done]. }
    specialize (IH w). destruct (migrate_lines header l true w) as [body wrote]. simpl in *. by rewrite value_of_cons, Ht, Ha.
Qed.

Section Idempotence.
Context (debug : string -> string).
Hypothesis debug_quoted : forall s, exists m, debug s = String quote (m +:+ String quote EmptyString) /\ str_all (fun c => negb (Ascii.eqb c newline)) m = true.

Lemma debug_one_line prefix s : one_line prefix -> one_line (prefix +:+ debug s).
Proof.
  intros [Hp Hc]. destruct (debug_quoted s) as (m & -> & Hm). split.
  - unfold str_all in *. rewrite bytes_of_app, forallb_app, Hp. simpl. by rewrite bytes_of_app, forallb_app, Hm.
  - clear Hp Hc.
    assert (H : forall a, strip_cr (a +:+ String quote EmptyString) = a +:+ String quote EmptyString).
    { induction a as [|c [|c' a] IH]; [done..|]. change (String c (strip_cr (String c' a +:+ String quote EmptyString)) = String c (String c' a +:+ String quote EmptyString)).
      by rewrite IH. }
    specialize (H (prefix +:+ String quote m)). by rewrite str_app_assoc in H.
Qed.
Lemma header_lines_flat l : Forall one_line (header_lines debug l) /\ Forall (fun x => is_table x = false) (header_lines debug l) /\
  value_of (header_lines debug l) "schema_version" = Some "2" /\
  is_some (value_of (header_lines debug l) "node_id") = negb (is_some (value_of l "node_id")) /\
  is_some (value_of (header_lines debug l) "role") = negb (is_some (value_of l "role")).
Proof.
  unfold header_lines. assert (forall s, one_line ("node_id = " +:+ debug s)) as Hd by (intros s; apply debug_one_line; by split).
  split; [|destruct (is_some (value_of l "node_id")), (is_some (value_of l "role")); (split; [repeat (constructor; [reflexivity|]); constructor|repeat split])].
  constructor; [by split|]. apply Forall_app. split; [by destruct (is_some _); [|constructor; [apply Hd|]]|].
  destruct (is_some _); constructor; [by split|done].
Qed.

(** The text migration of [deployment.toml] is idempotent, as its
    documentation says: whatever the file holds before or after the first
    table, a migrated text is current and is not migrated again. *)
Theorem migration_idempotent original patched : str_all (fun c => negb (Ascii.eqb c (ascii_of_nat 13))) original = true ->
  migrate_deployment_toml_text debug original = Some patched -> migrate_deployment_toml_text debug patched = None.
Proof.
  intros Hcr. apply lines_one_line in Hcr. unfold migrate_deployment_toml_text at 1. destruct (bool_decide _ && _ && _); [done|].
  set (l := lines original) in *. destruct (header_lines_flat l) as (H1 & H2 & Hv & Hn & Hr). set (h := header_lines debug l) in *.
  rewrite migrate_body_lines. set (m := migrate_lines h l true false). intros [= <-].
  replace (if snd m then _ else _) with (unlines (if snd m then fst m else h ++ fst m)) by (destruct (snd m); [done|apply unlines_app]).
  assert (Hm : Forall one_line (fst m)) by (by apply migrate_lines_Forall).
  unfold migrate_deployment_toml_text. rewrite lines_unlines by (destruct (snd m); [done|by apply Forall_app]).
  pose proof (migrate_lines_version h l false H2) as Ev. pose proof (migrate_lines_value h l "node_id" false H2 ltac:(done)) as En.
  pose proof (migrate_lines_value h l "role" false H2 ltac:(done)) as Er. fold m in Ev, En, Er. rewrite andb_true_r in *. rewrite Hn in En. rewrite Hr in Er.
  destruct (snd m).
  - rewrite Ev, Hv, En, Er. by destruct (is_some (value_of l "node_id")), (is_some (value_of l "role")).
  - rewrite !value_of_app by done. rewrite Hv. simpl in *. rewrite orb_false_r in *.
    destruct (value_of h "node_id"), (value_of h "role"), (value_of (fst m) "node_id"), (value_of (fst m) "role"); simpl in *; try done;
      rewrite <- ?En, <- ?Er in *; done.
Qed.
End Idempotence.

(** ** Witnesses *)

Definition ex_debug (s : string) : string := String quote (s +:+ String quote EmptyString).
Definition ex_file : path := {| dir := "/etc/vpn"; name := "deployment.toml" |}.
Definition ex_wanted : PeerEndpointSection := ex_peer "de1.example.test" "ru".
Definition ex_before : DeploymentConfig := ex_deployment [ex_path "ru" "relay" (Some "reality-1")] [].
Definition ex_toml (text : string) : option DeploymentConfig :=
  if String.eqb text "old" then Some ex_before
  else if String.eqb text (peer_endpoint_text ex_debug "old" ex_wanted) then Some ex_relay else None.
Definition ex_shown (d : DeploymentConfig) : json :=
  JObj [("node_id", JStr (node_id d)); ("peer_endpoints", JNum (Z.of_nat (length (peer_endpoints d))))].
Lemma ex_edit_object c : StaticRevision.is_object (ex_shown c).
Proof. eexists. reflexivity. Qed.
Definition ex_fs : FS :=
  {| files := {[ ex_file := {| content := "old"; mode := 416; uid := 0; gid := 990 |} ]};
     dirs := {[ "/etc/vpn" := {| d_mode := 488; d_gid := 990 |} ]} |}.
Definition ex_edit (fl : list fault) : result outcome edit_error * FS * list fault :=
  run_edit ex_debug 0 18 (fun _ => 990) "7" "1700000000" ex_key ex_toml ex_shown (AddPeer ex_wanted) ex_file ex_fs fl.

(** The peer is added; when the write fails nothing has changed. *)
Lemma toml_edit_confined_witness :
  (exists b, fst (fst (ex_edit [])) = Ok (Edited b) /\
    edited "1700000000" ex_key ex_toml ex_shown (edits (AddPeer ex_wanted)) (extra_of (AddPeer ex_wanted)) ex_file ex_fs (snd (fst (ex_edit []))) b) /\
  let failed := ex_edit (repeat Fine 10 ++ [Fails 3]) in
  is_ok (fst (fst failed)) = false /\ files (snd (fst failed)) !! ex_file = files ex_fs !! ex_file.
Proof.
  split.
  - destruct (ex_edit []) as [[r fs'] fl'] eqn:E. unfold ex_edit in E.
    pose proof (toml_edit_confined (V := json) _ _ _ _ _ _ _ _ ex_shown ex_edit_object _ _ _ _ _ _ _ E) as [_ R].
    assert (Hr : r = Ok (Edited (backup_path "1700000000" ex_file))) by (change r with (fst (fst (r, fs', fl'))); rewrite <- E; vm_compute; reflexivity).
    subst r. eexists. split; [reflexivity|exact R].
  - cbv zeta. destruct (ex_edit (repeat Fine 10 ++ [Fails 3])) as [[r fs'] fl'] eqn:E. unfold ex_edit in E.
    pose proof (toml_edit_confined (V := json) _ _ _ _ _ _ _ _ ex_shown ex_edit_object _ _ _ _ _ _ _ E) as [_ R].
    assert (Hr : is_ok r = false) by (change r with (fst (fst (r, fs', fl'))); rewrite <- E; vm_compute; reflexivity).
    split; [exact Hr|]. destruct r; [discriminate|exact R].
Defined.
End TomlEdit.
