(* ===== verification/AdminApply.v ===== *)
(** * apps/admin: applying an authorization change to the running server

    main.rs ([render_and_apply_singbox_config_with], [apply_users_and_save],
    the parameter files and the applied-config stamp) and service.rs (the
    systemctl wrapper), over the file system of [Store.v].

    The state adds the configuration text the running sing-box has loaded
    ([None]: no process).  systemctl is not part of the repository: each
    invocation takes its outcome from a list, and between any two the process
    may stop or be restarted by systemd, which makes it load the file that is
    in place then.  [Host] holds what one run observes of the machine: the
    binary, the environment variable, the capability drop-in, the handshake
    self-test and the clock. *)

From S2P Require Import Prelude Strs Net NetText AddressPolicy Authorization Credentials Grants Json Contract.
From S2P Require Import Render Deployment Server ServerPolicy Store ConfigApply.
From Stdlib Require Import Ascii.

Module AdminApply.
Import Contract Render Store ConfigApply.

(** ** service.rs *)

Inductive after := Same | Stopped | Reloaded.
Record svc := { ran : bool; success : bool; svc_after : after }.

Record St := { st_fs : FS; st_loaded : option string; st_faults : list fault; st_svc : list svc }.

Definition set_loaded (o : option string) (s : St) : St :=
  {| st_fs := st_fs s; st_loaded := o; st_faults := st_faults s; st_svc := st_svc s |}.

(** [std::env::join]: a directory below the state directory. *)
Definition in_dir (cfg : Deployment.DeploymentConfig) (d n : string) : path :=
  {| dir := Deployment.state_dir cfg +:+ "/" +:+ d; name := n |}.
Definition users_file cfg : path := in_dir cfg "users" "users.json".
Definition singbox_config_file cfg : path := in_dir cfg "sing-box" "config.json".
Definition reality_private_key_file cfg : path := in_dir cfg "reality" "private.key".
Definition reality_public_key_file cfg : path := in_dir cfg "reality" "public.key".
Definition reality_short_id_file cfg : path := in_dir cfg "reality" "short_id.txt".
Definition google_egress_hairpin_uuid_file cfg : path := in_dir cfg "google-egress" "uuid.txt".
Definition hysteria_obfs_password_file cfg : path := in_dir cfg "reality" "hysteria_obfs_password.txt".
Definition hysteria_dir (cfg : Deployment.DeploymentConfig) : string := Deployment.state_dir cfg +:+ "/hysteria".
Definition spoof_stamp_file (cfg : Deployment.DeploymentConfig) : path :=
  {| dir := Deployment.state_dir cfg; name := "tls-spoof-restarted-for.sha256" |}.

Section Service.
Context (target : path).

Definition file_text (p : path) (s : St) : option string := option_map content (files (st_fs s) !! p).

Definition pop (s : St) : svc * St :=
  match st_svc s with
  | x :: l => (x, {| st_fs := st_fs s; st_loaded := st_loaded s; st_faults := st_faults s; st_svc := l |})
  | [] => ({| ran := true; success := true; svc_after := Same |}, s)
  end.
Definition evolve (a : after) (s : St) : St :=
  match a with
  | Same => s
  | Stopped => set_loaded None s
  | Reloaded => set_loaded (file_text target s) s
  end.

(** [run]: one retry when the process could not be started. *)
Definition run (reply : svc -> St -> bool * St) (s : St) : option bool * St :=
  let '(x, s) := pop s in
  let s := evolve (svc_after x) s in
  if ran x then let '(b, s) := reply x s in (Some b, s) else
  let '(y, s) := pop s in
  let s := evolve (svc_after y) s in
  if ran y then let '(b, s) := reply y s in (Some b, s) else (None, s).

Definition query (x : svc) (s : St) : bool * St := (success x, s).
Definition active_reply (x : svc) (s : St) : bool * St :=
  (match st_loaded s with Some _ => true | None => false end, s).
(** A restart that systemctl reports as successful started the process on the
    file in place; it may have died since. *)
Definition reload_reply (x : svc) (s : St) : bool * St :=
  if success x then
    (true, match svc_after x with Stopped => set_loaded None s | _ => set_loaded (file_text target s) s end)
  else (false, s).

Definition answered (r : option bool * St) : bool * St := (unwrap_or (fst r) false, snd r).
Definition is_available (s : St) : bool * St := answered (run query s).
Definition is_unit_installed (s : St) : bool * St := answered (run query s).
Definition is_active (s : St) : bool * St := answered (run active_reply s).
Definition reload_or_restart (s : St) : bool * St :=
  let '(_, s) := run query s in
  answered (run reload_reply s).

Definition MAX_POLLS : nat := 10.
Fixpoint verify_polls (polls : nat) (consecutive_active : Z) (s : St) : bool * St :=
  match polls with
  | O => (false, s)
  | S polls' =>
      let '(up, s) := is_active s in
      if (up : bool) then
        if consecutive_active + 1 =? 3 then (true, s) else verify_polls polls' (consecutive_active + 1) s
      else verify_polls polls' 0 s
  end.
Definition reload_and_verify (s : St) : bool * St :=
  let '(ok, s) := reload_or_restart s in
  if (ok : bool) then verify_polls MAX_POLLS 0 s else (false, s).
End Service.

(** ** main.rs: errors and effects *)

(** What a user command refuses by itself. *)
Inductive refusal :=
| NoSuchUser
| AmbiguousName (count : Z)
| ControlCharacters
| NameTooLong
| NotReservedName
| OrdinaryUserHasName
| NoFreeId
| NoSuchPeerEndpoint
| BadPeerUuid
| EmptyPeerPassword
| WrongPeerTransport
| MissingPeerCredential
| NoPeerCredential
| RenewRefused (e : Grants.grant_error)
| Unparsable
| SyncRefused
| CorruptRevisionStamp
| InputUnreadable.

Inductive admin_error :=
| Refused (e : refusal)
| LoadFailed (e : store_error)
| WriteFailed (e : store_error)
| RealityParams (e : store_error)
| RenderFailed (e : Server.server_error)
| BinaryMissing
| ServiceUnavailable
| DropinFailed
| ApplyFailed (e : store_error)
| ReloadFailed (recovery_reload_ok : bool)
| CapabilitiesMissing
| HandshakeFailed (recovery_reload_ok : bool)
| StampFailed (e : store_error)
| SaveFailed (e : store_error) (rollback_ok : bool).

Definition aio (A : Type) : Type := St -> result A admin_error * St.
Definition aret {A} (a : A) : aio A := fun s => (Ok a, s).
Definition athrow {A} (e : admin_error) : aio A := fun s => (Err e, s).
Definition abind {A B} (m : aio A) (k : A -> aio B) : aio B := fun s =>
  match m s with (Ok a, s') => k a s' | (Err e, s') => (Err e, s') end.
Notation "'go!' x := m 'in' k" := (abind m (fun x => k))
  (at level 200, x name, m at level 100, k at level 200) : vpn_scope.

(** A file operation, its error as a value. *)
Definition lift_result {A} (m : io A) : aio (result A store_error) := fun s =>
  let '(r, fs, fl) := m (st_fs s) (st_faults s) in
  (Ok r, {| st_fs := fs; st_loaded := st_loaded s; st_faults := fl; st_svc := st_svc s |}).
Definition lift_io {A} (wrap : store_error -> admin_error) (m : io A) : aio A :=
  go! r := lift_result m in
  match r with Ok a => aret a | Err e => athrow (wrap e) end.
Definition ask (f : St -> bool * St) : aio bool := fun s => let '(b, s) := f s in (Ok b, s).
Definition attempt_admin {A} (m : aio A) : aio (result A admin_error) := fun s => let '(r, s) := m s in (Ok r, s).

Inductive DropinSync := DUnchanged | DChanged | DSkipped | DFailed.
Inductive RealitySelfTestOutcome := Pass | HandshakeRejected | Inconclusive.
Inductive HandshakeVerification := Ran (o : RealitySelfTestOutcome) | NotRun.
#[global] Instance DropinSync_eq_dec : EqDecision DropinSync.
Proof. solve_decision. Defined.

Record Host := {
  offline_mutation_allowed : bool;
  binary_exists : bool;
  masquerade_exists : bool;
  dropin : DropinSync;
  lacks_capabilities : option bool;
  still_lacks_capabilities : option bool;
  handshake_verification : HandshakeVerification;
  now : Z }.

(** [Path::with_extension] on a file name. *)
Definition file_stem (n : string) : string :=
  let stem := join_on "." (rev (tl (rev (split_on "." n)))) in
  if str_is_empty stem then n else stem.
Definition with_extension (p : path) (ext : string) : path :=
  {| dir := dir p; name := file_stem (name p) +:+ "." +:+ ext |}.

(** ** Lemmas: the service *)

Section ServiceLemmas.
Context (target : path).

(** Only the loaded configuration can change, to nothing or to the file. *)
Definition settles (s s' : St) : Prop :=
  st_fs s' = st_fs s /\ st_faults s' = st_faults s /\
  (st_loaded s' = st_loaded s \/ st_loaded s' = None \/ st_loaded s' = file_text target s).

Lemma settles_refl s : settles s s.
Proof. unfold settles. auto. Qed.
Lemma settles_trans s1 s2 s3 : settles s1 s2 -> settles s2 s3 -> settles s1 s3.
Proof.
  unfold settles, file_text. intros (F1 & L1 & H1) (F2 & L2 & H2). rewrite F2, F1, L2, L1. split; [done|]. split; [done|].
  rewrite F1 in H2. intuition congruence.
Qed.
Lemma pop_settles s x s' : pop s = (x, s') -> settles s s'.
Proof. unfold pop. destruct (st_svc s); intros [= <- <-]; unfold settles; simpl; auto. Qed.
Lemma evolve_settles a s : settles s (evolve target a s).
Proof. destruct a; unfold settles; simpl; auto. Qed.

(** [P] of the answer and of the state it was given in. *)
Lemma run_spec reply (P : bool -> St -> Prop) s r s' :
  (forall x s0 b s1, reply x s0 = (b, s1) -> settles s0 s1 /\ P b s1) ->
  run target reply s = (r, s') -> settles s s' /\ match r with Some b => P b s' | None => True end.
Proof.
  intros Hr. unfold run. destruct (pop s) as [x s1] eqn:E1.
  assert (S1 : settles s (evolve target (svc_after x) s1)) by (eapply settles_trans; [by eapply pop_settles|apply evolve_settles]).
  destruct (ran x).
  - destruct (reply x _) as [b s2] eqn:E2. intros [= <- <-]. apply Hr in E2 as [S2 HP]. split; [by eapply settles_trans|done].
  - destruct (pop (evolve _ _ _)) as [y s2] eqn:E2.
    assert (S2 : settles s (evolve target (svc_after y) s2))
      by (eapply settles_trans; [exact S1|]; eapply settles_trans; [by eapply pop_settles|apply evolve_settles]).
    destruct (ran y); [|by intros [= <- <-]].
    destruct (reply y _) as [b s3] eqn:E3. intros [= <- <-]. apply Hr in E3 as [S3 HP]. split; [by eapply settles_trans|done].
Qed.

Lemma query_settles s r s' : run target query s = (r, s') -> settles s s'.
Proof.
  intros E. eapply (run_spec query (fun _ _ => True)) in E; [by destruct E|]. intros x s0 b s1 [= <- <-].
  split; [apply settles_refl|done].
Qed.

Lemma is_active_spec s b s' : is_active target s = (b, s') -> settles s s' /\ (b = true -> st_loaded s' <> None).
Proof.
  unfold is_active, answered. destruct (run target active_reply s) as [r s1] eqn:E. simpl. intros [= <- <-].
  eapply (run_spec active_reply (fun b s => b = true -> st_loaded s <> None)) in E as [S1 HP].
  - split; [done|]. by destruct r.
  - intros x s0 b s2 [= <- <-]. split; [apply settles_refl|]. by destruct (st_loaded s0).
Qed.

Lemma verify_polls_spec n k s b s' :
  verify_polls target n k s = (b, s') -> settles s s' /\ (b = true -> st_loaded s' <> None).
Proof.
  revert k s. induction n as [|n IH]; intros k s; cbn [verify_polls]; [intros [= <- <-]; by split; [apply settles_refl|]|].
  destruct (is_active target s) as [up s1] eqn:E. apply is_active_spec in E as [S1 H1].
  destruct up; [case_if; [intros [= <- <-]; auto|]|]; intros H2; apply IH in H2 as [S2 H2];
    (split; [by eapply settles_trans|done]).
Qed.

(** A verified reload left the process running on the file in place. *)
Lemma reload_and_verify_spec s b s' :
  reload_and_verify target s = (b, s') ->
  settles s s' /\ (b = true -> st_loaded s' = file_text target s /\ st_loaded s' <> None).
Proof.
  unfold reload_and_verify, reload_or_restart, answered.
  destruct (run target query s) as [r0 s0] eqn:E0. apply query_settles in E0.
  destruct (run target (reload_reply target) s0) as [r1 s1] eqn:E1.
  eapply (run_spec (reload_reply target) (fun b s => b = true -> st_loaded s = None \/ st_loaded s = file_text target s)) in E1 as [S1 H1].
  2:{ intros x sa b0 sb. unfold reload_reply. destruct (success x), (svc_after x); intros [= <- <-];
      unfold settles, file_text; simpl; (split; [auto|]); try (intros ?; auto; discriminate). }
  assert (S01 : settles s s1) by by eapply settles_trans. cbn [fst snd unwrap_or].
  destruct r1 as [[|]|]; cbn [unwrap_or]; [|by intros [= <- <-]|by intros [= <- <-]].
  intros H2. apply verify_polls_spec in H2 as [S2 H2]. split; [by eapply settles_trans|]. intros Hb.
  specialize (H1 eq_refl). specialize (H2 Hb). split; [|done]. destruct S2 as (F2 & _ & L2), S01 as (F1 & _ & _).
  unfold file_text in *. rewrite F1 in *. intuition congruence.
Qed.
End ServiceLemmas.

(** ** systemd_dropin.rs: the content of the capability drop-in *)

Definition nl : string := String (ascii_of_nat 10) EmptyString.
Definition MANAGED_MARKER : string :=
  "# managed by vpn-admin (singbox-vpn): sing-box TLS spoof capabilities. Do not edit; remove [google_egress_tls_spoof] to remove this file.".
Definition CAPABILITIES : string := "CAP_NET_BIND_SERVICE CAP_NET_RAW CAP_NET_ADMIN".
Definition dropin_body : string :=
  "[Service]" +:+ nl +:+ "AmbientCapabilities=" +:+ CAPABILITIES +:+ nl +:+ "CapabilityBoundingSet=" +:+ CAPABILITIES +:+ nl.
Definition desired_tls_spoof_dropin (cfg : Deployment.DeploymentConfig) : option string :=
  option_map (fun _ => MANAGED_MARKER +:+ nl +:+ dropin_body) (Deployment.google_egress_tls_spoof cfg).

(** ** main.rs: the transaction *)

Section Admin.
Context (me_uid umask : Z) (new_gid : string -> Z) (pid : string) (check : string -> bool).
Context (b64_decode : string -> option (list Z)) (b64_encode : list Z -> string) (sha256_hex : string -> string)
  (mul_base_clamped : list Z -> list Z).
Context {V : Type} `{JsonOps V, !JsonTree V, !JsonEq V}.
(** [to_vec_pretty], [to_string] and [from_slice]. *)
Context (ser_pretty ser_compact : V -> string) (de : string -> option V).
Context (ser_users : UsersFile -> string).

Definition applied_config_stamp_path (target : path) : path := with_extension target "applied.sha256".
Definition rendered_config_fingerprint (doc : V) : string := Creds.hash_token sha256_hex (ser_compact doc).

Definition write_secret_file (p : path) (contents : string) : io unit :=
  do! _ := open_truncate me_uid umask new_gid p 384 in
  do! _ := write_all p contents in
  sync_all p.

Definition commit_applied_config_stamp (target : path) (fingerprint : string) : io unit :=
  let stamp := applied_config_stamp_path target in
  let tmp := with_extension stamp ("tmp." +:+ pid) in
  do! _ := write_secret_file tmp fingerprint in
  do! _ := rename tmp stamp in
  fsync_parent_dir.

Definition read_trimmed (p : path) : io string := do! text := read_file p in ret (trim text).

Definition load_reality_params (cfg : Deployment.DeploymentConfig) : io Server.RealityServerParams :=
  do! private_key_hex := read_trimmed (reality_private_key_file cfg) in
  do! public_key_hex := read_trimmed (reality_public_key_file cfg) in
  do! _ := lift (map_err (fun _ => Parse)
             (Creds.validate_reality_keypair b64_decode b64_encode mul_base_clamped private_key_hex public_key_hex)) in
  do! short_id := read_trimmed (reality_short_id_file cfg) in
  do! uuid := try (read_trimmed (google_egress_hairpin_uuid_file cfg)) in
  ret {| Server.private_key_hex := private_key_hex; Server.public_key_hex := public_key_hex;
         Server.short_ids := [short_id];
         Server.handshake_server := Deployment.re_handshake_server (Deployment.reality cfg);
         Server.handshake_port := Deployment.re_handshake_port (Deployment.reality cfg);
         Server.google_egress_hairpin_uuid := uuid |}.

Definition load_hysteria_params (cfg : Deployment.DeploymentConfig) (h : Host) : io Server.Hysteria2ServerParams :=
  do! obfs := try (read_trimmed (hysteria_obfs_password_file cfg)) in
  ret {| Server.tls_cert_path := hysteria_dir cfg +:+ "/cert.pem"; Server.tls_key_path := hysteria_dir cfg +:+ "/key.pem";
         Server.obfs_password := match obfs with Some s => if str_is_empty s then None else Some s | None => None end;
         Server.masquerade_dir_path := if masquerade_exists h then Some (hysteria_dir cfg +:+ "/masquerade") else None;
         Server.hp_up_mbps := Deployment.up_mbps (Deployment.hysteria2 cfg);
         Server.hp_down_mbps := Deployment.down_mbps (Deployment.hysteria2 cfg) |}.

(** [std::fs::read(..).ok()]. *)
Definition peek (p : path) : aio (option string) :=
  go! r := lift_result (read_file p) in aret (match r with Ok text => Some text | Err _ => None end).

Definition target_already_matches (target : path) (doc : V) : aio bool :=
  go! text := peek target in
  aret (match text with
        | Some bytes => match de bytes with Some current => jeqb current doc | None => false end
        | None => false
        end).
Definition applied_stamp_matches (target : path) (fingerprint : string) : aio bool :=
  go! text := peek (applied_config_stamp_path target) in
  aret (match text with Some stamp => String.eqb (trim stamp) fingerprint | None => false end).

Definition spoof_content_hash (cfg : Deployment.DeploymentConfig) : option string :=
  option_map (Creds.hash_token sha256_hex) (desired_tls_spoof_dropin cfg).
Definition caps_restart_due (cfg : Deployment.DeploymentConfig) (h : Host) : aio bool :=
  if bool_decide (lacks_capabilities h = Some true) then
    go! text := peek (spoof_stamp_file cfg) in
    aret (negb (bool_decide (spoof_content_hash cfg = option_map trim text)))
  else aret false.

(** [a && b] on effectful conditions. *)
Definition and_also (b : bool) (m : aio bool) : aio bool := if b then m else aret false.

(** Restoring the [.bak] copy after a failed reload or self-test. *)
Definition recover (target : path) : aio bool :=
  let backup := config_backup_path target in
  go! there := lift_result (exists_ backup) in
  go! restored := and_also (match there with Ok b => b | Err _ => false end)
                    (go! r := lift_result (copy me_uid umask new_gid backup target) in aret (is_ok r)) in
  and_also restored (ask (reload_and_verify target)).

Definition note_capability_restart (cfg : Deployment.DeploymentConfig) (restart : bool) : aio unit :=
  if restart then
    go! _ := match spoof_content_hash cfg with
             | Some hash => lift_result (write_secret_file (spoof_stamp_file cfg) hash)
             | None => lift_result (remove_file (spoof_stamp_file cfg))
             end in
    aret tt
  else aret tt.

(** From the reload to the stamp. *)
Definition reload_and_commit (cfg : Deployment.DeploymentConfig) (target : path) (fingerprint : string)
  (strict_spoof_capabilities capability_restart : bool) (h : Host) : aio bool :=
  go! ok := ask (reload_and_verify target) in
  if negb ok then
    go! recovery_reload_ok := recover target in athrow (ReloadFailed recovery_reload_ok)
  else if strict_spoof_capabilities && bool_decide (still_lacks_capabilities h = Some true)
  then athrow CapabilitiesMissing else
  match handshake_verification h with
  | Ran HandshakeRejected =>
      go! recovery_reload_ok := recover target in athrow (HandshakeFailed recovery_reload_ok)
  | _ =>
      go! _ := lift_io StampFailed (commit_applied_config_stamp target fingerprint) in
      go! _ := note_capability_restart cfg capability_restart in
      aret true
  end.

(** From the checked write to the stamp. *)
Definition write_and_reload (cfg : Deployment.DeploymentConfig) (doc : V)
  (strict_spoof_capabilities capability_restart : bool) (h : Host) : aio bool :=
  let target := singbox_config_file cfg in
  go! _ := lift_io ApplyFailed (apply_config_atomically me_uid umask new_gid pid check (ser_pretty doc) target) in
  go! available := ask (is_available target) in
  if negb available then aret false else
  go! installed := ask (is_unit_installed target) in
  if negb installed then aret false else
  reload_and_commit cfg target (rendered_config_fingerprint doc) strict_spoof_capabilities capability_restart h.

Definition apply_document (cfg : Deployment.DeploymentConfig) (doc : V) (require_live_apply strict_spoof_capabilities : bool)
  (h : Host) : aio bool :=
  let target := singbox_config_file cfg in
  let must_be_live := require_live_apply && negb (offline_mutation_allowed h) in
  if negb (binary_exists h) then if must_be_live then athrow BinaryMissing else aret false else
  go! available := ask (is_available target) in
  go! service_available := and_also available (ask (is_unit_installed target)) in
  if must_be_live && negb service_available then athrow ServiceUnavailable else
  go! target_matches := target_already_matches target doc in
  go! stamp_matches := applied_stamp_matches target (rendered_config_fingerprint doc) in
  if strict_spoof_capabilities && bool_decide (dropin h = DFailed) then athrow DropinFailed else
  go! due := caps_restart_due cfg h in
  let capability_restart := bool_decide (dropin h = DChanged) || due in
  go! current := and_also (negb capability_restart && target_matches && stamp_matches && service_available)
                   (ask (is_active target)) in
  if (current : bool) then aret true else
  write_and_reload cfg doc strict_spoof_capabilities capability_restart h.

Definition render_and_apply_singbox_config_with (cfg : Deployment.DeploymentConfig) (users : list Grants.CompatUser)
  (require_live_apply strict_spoof_capabilities : bool) (h : Host) : aio bool :=
  go! params := lift_result (load_reality_params cfg) in
  match params with
  | Err e => if require_live_apply && negb (offline_mutation_allowed h) then athrow (RealityParams e) else aret false
  | Ok reality =>
      go! hysteria := lift_io RealityParams (load_hysteria_params cfg h) in
      match Server.render_server_config_for_deployment b64_decode cfg users reality hysteria (now h) with
      | Err e => athrow (RenderFailed e)
      | Ok doc => apply_document cfg doc require_live_apply strict_spoof_capabilities h
      end
  end.
Definition render_and_apply_singbox_config cfg users require_live_apply (h : Host) : aio bool :=
  render_and_apply_singbox_config_with cfg users require_live_apply false h.

(** [h] is the host as the change is applied, [h'] as it is rolled back. *)
Definition apply_users_and_save (cfg : Deployment.DeploymentConfig) (previous_users users : list Grants.CompatUser)
  (h h' : Host) : aio bool :=
  go! went_live := render_and_apply_singbox_config cfg users true h in
  go! saved := lift_result (save_users_atomic me_uid umask new_gid pid ser_users (users_file cfg) users) in
  match saved with
  | Ok _ => aret went_live
  | Err save_error =>
      go! rollback := attempt_admin (render_and_apply_singbox_config cfg previous_users true h') in
      athrow (SaveFailed save_error (is_ok rollback))
  end.

(** ** Lemmas: effects *)

Lemma abind_inv {A B} (m : aio A) (k : A -> aio B) s r s' :
  abind m k s = (r, s') ->
  (exists a s1, m s = (Ok a, s1) /\ k a s1 = (r, s')) \/ (exists e, m s = (Err e, s') /\ r = Err e).
Proof.
  unfold abind. destruct (m s) as [[a|e] s1] eqn:E; intros H0; [left; by exists a, s1|right].
  injection H0 as <- <-. by exists e.
Qed.

Ltac a_bind H :=
  let a := fresh "a" in let s := fresh "s" in let E := fresh "E" in let e := fresh "e" in let Er := fresh "Er" in
  apply abind_inv in H as [(a & s & E & H)|(e & E & Er)].

Lemma lift_result_inv {A} (m : io A) s r s' :
  lift_result m s = (r, s') ->
  exists r0 fs fl, m (st_fs s) (st_faults s) = (r0, fs, fl) /\ r = Ok r0 /\
    s' = {| st_fs := fs; st_loaded := st_loaded s; st_faults := fl; st_svc := st_svc s |}.
Proof.
  unfold lift_result. destruct (m (st_fs s) (st_faults s)) as [[r0 fs] fl]. intros [= <- <-]. by exists r0, fs, fl.
Qed.

Lemma lift_io_ok {A} wrap (m : io A) s a s' :
  lift_io wrap m s = (Ok a, s') ->
  exists fs fl, m (st_fs s) (st_faults s) = (Ok a, fs, fl) /\
    s' = {| st_fs := fs; st_loaded := st_loaded s; st_faults := fl; st_svc := st_svc s |}.
Proof.
  unfold lift_io. intros E. a_bind E; [|discriminate]. apply lift_result_inv in E0 as (r0 & fs & fl & E1 & [= ->] & ->).
  destruct r0; [|discriminate]. injection E as <- <-. by exists fs, fl.
Qed.

Lemma lift_io_err {A} wrap (m : io A) s e s' :
  lift_io wrap m s = (Err e, s') ->
  exists e0 fs fl, e = wrap e0 /\ m (st_fs s) (st_faults s) = (Err e0, fs, fl) /\
    s' = {| st_fs := fs; st_loaded := st_loaded s; st_faults := fl; st_svc := st_svc s |}.
Proof.
  unfold lift_io. intros E. a_bind E; apply lift_result_inv in E0 as (r0 & fs & fl & E1 & Hr & ->); [|discriminate].
  injection Hr as ->. destruct r0; [discriminate|]. injection E as <- <-. eauto 6.
Qed.

Lemma attempt_admin_inv {A} (m : aio A) s r s' : attempt_admin m s = (r, s') -> exists r0, r = Ok r0 /\ m s = (r0, s').
Proof. unfold attempt_admin. destruct (m s) as [r0 s0]. intros [= <- <-]. eauto. Qed.

Lemma ask_inv f s r s' : ask f s = (r, s') -> exists b, f s = (b, s') /\ r = Ok b.
Proof. unfold ask. destruct (f s) as [b s1]. intros [= <- <-]. by exists b. Qed.

(** [m] changes no file but those in [S]. *)
Definition aframe (S : path -> Prop) {A} (m : aio A) : Prop :=
  forall s r s' q, m s = (r, s') -> ~ S q -> files (st_fs s') !! q = files (st_fs s) !! q.

Lemma aframe_ret S {A} (a : A) : aframe S (aret a).
Proof. by intros s r s' q [= <- <-]. Qed.
Lemma aframe_throw S {A} e : aframe S (athrow (A := A) e).
Proof. by intros s r s' q [= <- <-]. Qed.
Lemma aframe_bind S {A B} (m : aio A) (k : A -> aio B) : aframe S m -> (forall a, aframe S (k a)) -> aframe S (abind m k).
Proof.
  intros Hm Hk s r s' q E Hq. a_bind E; [rewrite (Hk _ _ _ _ _ E Hq)|]; by eapply Hm.
Qed.
Lemma aframe_lift_result S {A} (m : io A) : frame S m -> aframe S (lift_result m).
Proof. intros Hm s r s' q E Hq. apply lift_result_inv in E as (r0 & fs & fl & E & _ & ->). by eapply Hm. Qed.
Lemma aframe_lift_io S {A} wrap (m : io A) : frame S m -> aframe S (lift_io wrap m).
Proof.
  intros Hm. apply aframe_bind; [by apply aframe_lift_result|]. intros [a|e]; [apply aframe_ret|apply aframe_throw].
Qed.
Lemma aframe_ask S target f : (forall s b s', f s = (b, s') -> settles target s s') -> aframe S (ask f).
Proof. intros Hf s r s' q E _. apply ask_inv in E as (b & E & _). apply Hf in E as (-> & _). done. Qed.
Lemma aframe_and_also S b (m : aio bool) : aframe S m -> aframe S (and_also b m).
Proof. intros Hm. destruct b; [done|apply aframe_ret]. Qed.

Lemma is_available_settles target s b s' : is_available target s = (b, s') -> settles target s s'.
Proof.
  unfold is_available, answered. destruct (run target query s) as [r s1] eqn:E. intros [= <- <-]. by eapply query_settles.
Qed.
Lemma is_unit_installed_settles target s b s' : is_unit_installed target s = (b, s') -> settles target s s'.
Proof. apply is_available_settles. Qed.

(** *** Files *)

Lemma write_secret_frame p contents : frame (fun q => q = p) (write_secret_file p contents).
Proof.
  unfold write_secret_file, open_truncate, write_all, sync_all.
  apply frame_bind; [|intros _; apply frame_bind; [|intros _]]; apply frame_syscall; try done;
    intros; try (by apply on_file_frame); simpl; by rewrite lookup_insert_ne.
Qed.

Lemma rename_frame a b : frame (fun q => q = a \/ q = b) (rename a b).
Proof using Type.
  apply frame_syscall; [done|]. intros fs q Hq. destruct (files fs !! a); [|done]. simpl.
  rewrite lookup_insert_ne, lookup_delete_ne by (intros ->; apply Hq; auto). done.
Qed.

Definition stamp_tmp (target : path) : path := with_extension (applied_config_stamp_path target) ("tmp." +:+ pid).

Lemma fsync_frame S : frame S fsync_parent_dir.
Proof using Type. apply frame_bind; [by apply frame_try, frame_syscall|]. intros ?. apply frame_ret. Qed.

Lemma commit_stamp_frame target fp :
  frame (fun q => q = applied_config_stamp_path target \/ q = stamp_tmp target) (commit_applied_config_stamp target fp).
Proof.
  unfold commit_applied_config_stamp. fold (stamp_tmp target).
  apply frame_bind; [eapply frame_weaken, write_secret_frame; intros q ->; by right|]. intros _.
  apply frame_bind; [eapply frame_weaken, rename_frame; intros q [-> | ->]; auto|]. intros _. apply fsync_frame.
Qed.

Lemma read_trimmed_frame p : frame (fun _ => False) (read_trimmed p).
Proof. apply frame_bind; [apply read_frame|]. intros ?. apply frame_ret. Qed.

Lemma load_reality_frame cfg : frame (fun _ => False) (load_reality_params cfg).
Proof.
  unfold load_reality_params. repeat first [apply frame_ret | apply frame_lift | apply read_trimmed_frame
    | apply frame_try | apply frame_bind; [|intros ?]].
Qed.
Lemma load_hysteria_frame cfg h : frame (fun _ => False) (load_hysteria_params cfg h).
Proof. apply frame_bind; [apply frame_try, read_trimmed_frame|]. intros ?. apply frame_ret. Qed.

(** The files an apply may write. *)
Definition own_files (cfg : Deployment.DeploymentConfig) (q : path) : Prop :=
  dir q = dir (singbox_config_file cfg) \/ q = spoof_stamp_file cfg.

Lemma users_not_own cfg : ~ own_files cfg (users_file cfg).
Proof.
  unfold own_files, users_file, singbox_config_file, in_dir, spoof_stamp_file. simpl. intros [E|E].
  - apply (inj (String.app (Deployment.state_dir cfg))) in E. discriminate.
  - apply (f_equal name) in E. discriminate.
Qed.

Lemma peek_frame S p : aframe S (peek p).
Proof.
  apply aframe_bind; [apply aframe_lift_result; eapply frame_weaken, read_frame; done|]. intros ?. apply aframe_ret.
Qed.

Lemma recover_frame cfg : aframe (own_files cfg) (recover (singbox_config_file cfg)).
Proof.
  unfold recover. apply aframe_bind; [apply aframe_lift_result; eapply frame_weaken, exists_frame; done|]. intros there.
  apply aframe_bind; [|intros restored; apply aframe_and_also; eapply aframe_ask; intros s0 b s1 E; by eapply reload_and_verify_spec].
  apply aframe_and_also, aframe_bind; [|intros ?; apply aframe_ret].
  apply aframe_lift_result. eapply frame_weaken, copy_frame. intros q ->. by left.
Qed.

Lemma note_frame cfg b : aframe (own_files cfg) (note_capability_restart cfg b).
Proof.
  unfold note_capability_restart. destruct b; [|apply aframe_ret]. apply aframe_bind; [|intros ?; apply aframe_ret].
  destruct (spoof_content_hash cfg); apply aframe_lift_result; eapply frame_weaken;
    [|apply write_secret_frame| |apply remove_frame]; intros q ->; by right.
Qed.

Lemma commit_own cfg fp : frame (own_files cfg) (commit_applied_config_stamp (singbox_config_file cfg) fp).
Proof. eapply frame_weaken, commit_stamp_frame. intros q [-> | ->]; by left. Qed.

Lemma reload_and_commit_frame cfg fp strict cr h :
  aframe (own_files cfg) (reload_and_commit cfg (singbox_config_file cfg) fp strict cr h).
Proof.
  unfold reload_and_commit.
  apply aframe_bind; [eapply aframe_ask; intros s0 b s1 E; by eapply reload_and_verify_spec|]. intros ok. case_if.
  - apply aframe_bind; [apply recover_frame|]. intros ?. apply aframe_throw.
  - case_if; [apply aframe_throw|].
    assert (Hc : aframe (own_files cfg) (go! _ := lift_io StampFailed (commit_applied_config_stamp (singbox_config_file cfg) fp) in
      go! _ := note_capability_restart cfg cr in aret true)).
    { apply aframe_bind; [apply aframe_lift_io, commit_own|]. intros ?.
      apply aframe_bind; [apply note_frame|]. intros ?. apply aframe_ret. }
    destruct (handshake_verification h) as [[]|]; try exact Hc.
    apply aframe_bind; [apply recover_frame|]. intros ?. apply aframe_throw.
Qed.

Lemma ask_frame S target f : f = is_available target \/ f = is_unit_installed target \/ f = is_active target -> aframe S (ask f).
Proof.
  intros Hf. eapply aframe_ask. intros s0 b s1 E. destruct Hf as [-> | [-> | ->]];
    [by eapply is_available_settles|by eapply is_unit_installed_settles|by eapply is_active_spec].
Qed.

Lemma apply_document_frame cfg doc live strict h : aframe (own_files cfg) (apply_document cfg doc live strict h).
Proof.
  unfold apply_document, write_and_reload, target_already_matches, applied_stamp_matches, caps_restart_due.
  repeat first
    [ apply aframe_ret | apply aframe_throw | apply peek_frame | apply reload_and_commit_frame
    | apply aframe_and_also | apply (ask_frame _ (singbox_config_file cfg)); tauto
    | apply aframe_lift_io; eapply frame_weaken, apply_config_frame; intros ? ?; by left
    | apply aframe_bind; [|intros ?] | case_if ].
Qed.

Lemma render_and_apply_frame cfg us live strict h : aframe (own_files cfg) (render_and_apply_singbox_config_with cfg us live strict h).
Proof.
  unfold render_and_apply_singbox_config_with.
  apply aframe_bind; [apply aframe_lift_result; eapply frame_weaken, load_reality_frame; done|]. intros [reality|e].
  - apply aframe_bind; [apply aframe_lift_io; eapply frame_weaken, load_hysteria_frame; done|]. intros hy.
    destruct (Server.render_server_config_for_deployment _ _ _ _ _ _); [apply apply_document_frame|apply aframe_throw].
  - case_if; [apply aframe_throw|apply aframe_ret].
Qed.

(** ** The running configuration *)

Context {JEL : JsonEqLaws V}.
Hypothesis serde : forall v, de (ser_pretty v) = Some v.

(** The stamp is honest: where it names the document in the file, a running
    process has loaded that document. *)
Definition stamp_honest (cfg : Deployment.DeploymentConfig) (s : St) : Prop :=
  let target := singbox_config_file cfg in
  forall doc c stamp, file_text (applied_config_stamp_path target) s = Some stamp ->
    trim stamp = rendered_config_fingerprint doc -> file_text target s = Some c -> de c = Some doc ->
    st_loaded s <> None -> exists l, st_loaded s = Some l /\ de l = Some doc.

(** Steps that write no file. *)
Definition drifts (target : path) (s s' : St) : Prop :=
  files (st_fs s') = files (st_fs s) /\
  (st_loaded s' = st_loaded s \/ st_loaded s' = None \/ st_loaded s' = file_text target s) /\
  (st_faults s = [] -> st_faults s' = []).

Lemma drifts_refl t s : drifts t s s.
Proof. unfold drifts. auto. Qed.
Lemma drifts_trans t s1 s2 s3 : drifts t s1 s2 -> drifts t s2 s3 -> drifts t s1 s3.
Proof.
  unfold drifts, file_text. intros (F1 & H1 & Q1) (F2 & H2 & Q2). rewrite F2, F1. split; [done|]. rewrite F1 in H2.
  split; [clear Q1 Q2; intuition congruence|auto].
Qed.
Lemma settles_drifts t s s' : settles t s s' -> drifts t s s'.
Proof. unfold settles, drifts. intros (-> & -> & H1). auto. Qed.
Lemma drifts_text t s s' p : drifts t s s' -> file_text p s' = file_text p s.
Proof. unfold drifts, file_text. by intros (-> & _). Qed.
Lemma drifts_honest cfg s s' : drifts (singbox_config_file cfg) s s' -> stamp_honest cfg s -> stamp_honest cfg s'.
Proof.
  intros Hd Hh doc c stamp. rewrite !(drifts_text _ _ _ _ Hd). intros H1 H2 H3 H4 H5.
  destruct Hd as (_ & [E|[E|E]] & _); [|congruence|].
  - rewrite E in *. by eapply Hh.
  - rewrite E in *. rewrite H3. by exists c.
Qed.

Lemma current_honest cfg s : st_loaded s = file_text (singbox_config_file cfg) s -> stamp_honest cfg s.
Proof. intros E doc c stamp _ _ Hc Hd _. rewrite E, Hc. by exists c. Qed.

Lemma lift_quiet_drifts {A} t (m : io A) s r s' :
  frame (fun _ => False) m -> quiet m -> lift_result m s = (r, s') -> drifts t s s'.
Proof.
  intros Hm Hq E. apply lift_result_inv in E as (r0 & fs & fl & E & _ & ->). split; [simpl; by eapply frame_all|].
  split; [by left|]. simpl. intros Hf. rewrite Hf in E. by eapply Hq.
Qed.

Lemma peek_inv t p s r s' :
  peek p s = (r, s') -> drifts t s s' /\ exists o, r = Ok o /\ (forall c, o = Some c -> file_text p s = Some c).
Proof.
  unfold peek. intros E. a_bind E; [|by apply lift_result_inv in E0 as (? & ? & ? & _ & ? & _)].
  injection E as <- <-. split; [eapply lift_quiet_drifts; [apply read_frame|apply quiet_syscall|exact E0]|].
  eexists. split; [done|]. intros c. apply lift_result_inv in E0 as (r0 & fs & fl & E & [= ->] & ->).
  destruct r0 as [text|]; [|done]. intros [= <-]. apply read_ok in E as (_ & f & Hf & <-). unfold file_text. by rewrite Hf.
Qed.

Lemma ask_drifts t f s r s' :
  f = is_available t \/ f = is_unit_installed t \/ f = is_active t \/ f = reload_and_verify t ->
  ask f s = (r, s') -> drifts t s s' /\ exists b, r = Ok b /\ f s = (b, s').
Proof.
  intros Hf E. apply ask_inv in E as (b & E & ->). split; [|by exists b]. apply settles_drifts.
  destruct Hf as [-> | [-> | [-> | ->]]]; [by eapply is_available_settles|by eapply is_unit_installed_settles
    |by eapply is_active_spec|by eapply reload_and_verify_spec].
Qed.

Lemma and_also_inv t f b s r s' :
  f = is_available t \/ f = is_unit_installed t \/ f = is_active t \/ f = reload_and_verify t ->
  and_also b (ask f) s = (r, s') -> drifts t s s' /\ exists a, r = Ok a /\ (a = true -> b = true /\ f s = (true, s')).
Proof.
  intros Hf. destruct b; simpl.
  - intros E. apply (ask_drifts t) in E as [Hd (b & -> & E)]; [|done]. split; [done|]. exists b. split; [done|]. by intros ->.
  - intros [= <- <-]. split; [apply drifts_refl|]. by exists false.
Qed.

(** The write, the reload and the stamp leave the process on the document. *)
Lemma reload_and_commit_live cfg fp strict cr h s s' :
  reload_and_commit cfg (singbox_config_file cfg) fp strict cr h s = (Ok true, s') ->
  file_text (singbox_config_file cfg) s' = file_text (singbox_config_file cfg) s /\
  st_loaded s' = file_text (singbox_config_file cfg) s /\ st_loaded s' <> None.
Proof.
  set (t := singbox_config_file cfg). unfold reload_and_commit. intros E. a_bind E; [|discriminate].
  apply ask_inv in E0 as (b & E0 & [= ->]). apply reload_and_verify_spec in E0 as [S1 H1].
  destruct b; cbn [negb] in E; [|a_bind E; discriminate]. destruct (H1 eq_refl) as [Hl Hn]. clear H1.
  case_if; [discriminate|].
  assert (Ec : (go! _ := lift_io StampFailed (commit_applied_config_stamp t fp) in
      go! _ := note_capability_restart cfg cr in aret true) s0 = (Ok true, s'))
    by (destruct (handshake_verification h) as [[]|]; try exact E; a_bind E; discriminate). clear E.
  a_bind Ec; [|discriminate]. apply lift_io_ok in E as (fs & fl & E & ->).
  assert (Ht : files fs !! t = files (st_fs s0) !! t).
  { eapply commit_stamp_frame; [exact E|]. intros [E1|E1]; apply (f_equal name) in E1; discriminate. }
  a_bind Ec; [|discriminate]. injection Ec as <-.
  assert (Hn1 : files (st_fs s1) !! t = files fs !! t /\ st_loaded s1 = st_loaded s0).
  { revert E0. unfold note_capability_restart. destruct cr; intros E0; [|by inversion E0; subst]. a_bind E0; [|discriminate].
    inversion E0; subst; clear E0. assert (Hsp : t <> spoof_stamp_file cfg) by (intros E2; apply (f_equal name) in E2; discriminate).
    destruct (spoof_content_hash cfg); apply lift_result_inv in E1 as (r0 & fs2 & fl2 & E1 & _ & ->); (split; [|done]);
      [eapply write_secret_frame|eapply remove_frame]; try exact E1; exact Hsp. }
  destruct Hn1 as [Hf1 Hl1]. destruct S1 as (F1 & _ & _). unfold file_text in *. rewrite Hf1, Ht, F1, Hl1. done.
Qed.

Lemma target_matches_inv t doc s r s' :
  target_already_matches t doc s = (r, s') ->
  drifts t s s' /\ exists b, r = Ok b /\ (b = true -> exists c, file_text t s = Some c /\ de c = Some doc).
Proof.
  unfold target_already_matches. intros E. a_bind E; apply (peek_inv t) in E0 as [D (o & Ho & Ht)]; [|discriminate].
  injection Ho as ->. injection E as <- <-. split; [done|]. eexists. split; [done|].
  destruct o as [c|]; [|done]. destruct (de c) as [v|] eqn:Ed; [|done]. intros Hj. apply jeqb_spec in Hj as ->.
  exists c. split; [by apply Ht|done].
Qed.

Lemma stamp_matches_inv t fp s r s' :
  applied_stamp_matches t fp s = (r, s') ->
  drifts t s s' /\ exists b, r = Ok b /\
    (b = true -> exists stamp, file_text (applied_config_stamp_path t) s = Some stamp /\ trim stamp = fp).
Proof.
  unfold applied_stamp_matches. intros E. a_bind E; apply (peek_inv t) in E0 as [D (o & Ho & Ht)]; [|discriminate].
  injection Ho as ->. injection E as <- <-. split; [done|]. eexists. split; [done|].
  destruct o as [c|]; [|done]. intros Hs. apply String.eqb_eq in Hs. exists c. split; [by apply Ht|done].
Qed.

Lemma restart_due_inv t cfg h s r s' : caps_restart_due cfg h s = (r, s') -> drifts t s s' /\ exists b, r = Ok b.
Proof.
  unfold caps_restart_due. case_if; intros E.
  - a_bind E; apply (peek_inv t) in E0 as [D (o & Ho & Ht)]; [|discriminate]. injection E as <- <-. eauto.
  - injection E as <- <-. split; [apply drifts_refl|eauto].
Qed.

(** The three ways an apply ends: before the write, on a configuration that is
    already current, or with the write. *)
Lemma apply_document_inv cfg doc live strict h s r s' :
  let t := singbox_config_file cfg in
  apply_document cfg doc live strict h s = (r, s') ->
  (drifts t s s' /\ r <> Ok true /\ forall b, r <> Err (ReloadFailed b) /\ r <> Err (HandshakeFailed b)) \/
  (r = Ok true /\ drifts t s s' /\ st_loaded s' <> None /\
   (exists c, file_text t s' = Some c /\ de c = Some doc) /\
   (exists stamp, file_text (applied_config_stamp_path t) s' = Some stamp /\ trim stamp = rendered_config_fingerprint doc)) \/
  (exists s1 cr, drifts t s s1 /\ write_and_reload cfg doc strict cr h s1 = (r, s')).
Proof.
  intros t. unfold apply_document. fold t. intros E.
  destruct (binary_exists h); cbn [negb] in E; [|left; case_if; injection E as <- <-; eauto using drifts_refl].
  a_bind E; apply (ask_drifts t) in E0 as [D1 (b1 & Hb & _)]; [|tauto|discriminate|tauto]. injection Hb as ->.
  a_bind E; apply (and_also_inv t) in E0 as [D2 (b2 & Hb & _)]; [|tauto|discriminate|tauto]. injection Hb as ->.
  assert (D12 := drifts_trans _ _ _ _ D1 D2).
  case_if; [injection E as <- <-; eauto|].
  a_bind E; apply target_matches_inv in E0 as [D3 (b3 & Hb & H3)]; [|discriminate]. injection Hb as ->.
  a_bind E; apply stamp_matches_inv in E0 as [D4 (b4 & Hb & H4)]; [|discriminate]. injection Hb as ->.
  assert (D34 := drifts_trans _ _ _ _ D3 D4).
  case_if; [injection E as <- <-; eauto 6 using drifts_trans|].
  a_bind E; apply (restart_due_inv t) in E0 as [D5 (b5 & Hb)]; [|discriminate]. injection Hb as ->.
  a_bind E; apply (and_also_inv t) in E0 as [D6 (b6 & Hb & H6)]; [|tauto|discriminate|tauto]. injection Hb as ->.
  assert (D56 := drifts_trans _ _ _ _ D5 D6).
  right. destruct b6; [left|right; eauto 6 using drifts_trans].
  injection E as <- <-. split; [done|]. split; [eauto using drifts_trans|]. destruct (H6 eq_refl) as [Hc Ha].
  apply is_active_spec in Ha as [_ Ha]. split; [by apply Ha|].
  rewrite !andb_true_iff in Hc. destruct Hc as [[[_ Hb3] Hb4] _]. destruct (H3 Hb3) as (c & Hc & Hd), (H4 Hb4) as (st & Hst & Hfp).
  assert (D36 := drifts_trans _ _ _ _ D34 D56). split; [exists c|exists st].
  - by rewrite (drifts_text _ _ _ _ D36).
  - by rewrite (drifts_text _ _ _ _ (drifts_trans _ _ _ _ D4 D56)).
Qed.

Lemma apply_config_keeps_stamp cfg bytes fs fl r fs' fl' :
  apply_config_atomically me_uid umask new_gid pid check bytes (singbox_config_file cfg) fs fl = (r, fs', fl') ->
  files fs' !! applied_config_stamp_path (singbox_config_file cfg) = files fs !! applied_config_stamp_path (singbox_config_file cfg).
Proof. intros E. apply apply_config_spec in E as [F _]. apply F; intros E1; apply (f_equal name) in E1; discriminate. Qed.

(** The reached write. *)
Lemma write_and_reload_inv cfg doc strict cr h s r s' :
  let t := singbox_config_file cfg in
  write_and_reload cfg doc strict cr h s = (r, s') ->
  (exists e, r = Err (ApplyFailed e) /\ file_text t s' = file_text t s /\ st_loaded s' = st_loaded s /\
     file_text (applied_config_stamp_path t) s' = file_text (applied_config_stamp_path t) s) \/
  exists fs fl s1, apply_config_atomically me_uid umask new_gid pid check (ser_pretty doc) t (st_fs s) (st_faults s) = (Ok tt, fs, fl) /\
    drifts t {| st_fs := fs; st_loaded := st_loaded s; st_faults := fl; st_svc := st_svc s |} s1 /\
    ((r = Ok false /\ s' = s1) \/
     reload_and_commit cfg t (rendered_config_fingerprint doc) strict cr h s1 = (r, s')).
Proof.
  intros t. unfold write_and_reload. fold t. intros E.
  a_bind E; 
    [|left; apply lift_io_err in E0 as (e0 & fs & fl & -> & Ew & ->); exists e0; split; [done|]; unfold file_text; simpl;
      pose proof (apply_config_keeps_stamp cfg _ _ _ _ _ _ Ew) as Hst; fold t in Hst; rewrite Hst;
      apply apply_config_spec in Ew as [_ Ew]; by rewrite Ew].
  destruct a. apply lift_io_ok in E0 as (fs & fl & Ew & ->). right. exists fs, fl.
  a_bind E; apply (ask_drifts t) in E0 as [D1 (b1 & Hb & _)]; [|tauto|discriminate|tauto]. injection Hb as ->.
  destruct b1; cbn [negb] in E; [|injection E as <- <-; eauto 6].
  a_bind E; apply (ask_drifts t) in E0 as [D2 (b2 & Hb & _)]; [|tauto|discriminate|tauto]. injection Hb as ->.
  assert (D12 := drifts_trans _ _ _ _ D1 D2).
  destruct b2; cbn [negb] in E; [eauto 6|injection E as <- <-; eauto 6].
Qed.

Lemma applied_text bytes t fs0 fl0 fs fl a l fl' v :
  apply_config_atomically me_uid umask new_gid pid check bytes t fs0 fl0 = (Ok a, fs, fl) ->
  file_text t {| st_fs := fs; st_loaded := l; st_faults := fl'; st_svc := v |} = Some bytes.
Proof. intros E. apply apply_config_spec in E as [_ (_ & f & Hf & <- & _)]. unfold file_text. simpl. by rewrite Hf. Qed.

Lemma apply_document_live cfg doc live strict h s s' :
  stamp_honest cfg s -> apply_document cfg doc live strict h s = (Ok true, s') ->
  (exists c, st_loaded s' = Some c /\ de c = Some doc) /\ stamp_honest cfg s'.
Proof.
  intros Hh E. apply apply_document_inv in E as [(_ & E & _)|[(_ & D & Hl & (c & Hc & Hd) & (st & Hst & Hfp))|(s1 & cr & D & E)]]; [done| |].
  - apply (drifts_honest cfg _ _ D) in Hh. split; [|done]. by eapply (Hh doc c st).
  - apply write_and_reload_inv in E as [(e & E & _)|(fs & fl & s2 & Ew & D2 & [[E _]|E])]; try discriminate.
    apply reload_and_commit_live in E as (Hf & Hl & _).
    rewrite (drifts_text _ _ _ _ D2), (applied_text _ _ _ _ _ _ _ _ _ _ Ew) in Hf, Hl.
    split; [exists (ser_pretty doc); auto|]. apply current_honest. by rewrite Hl.
Qed.

(** *** Going back *)

(** A completed recovery has the [.bak] text in place; a verified one has it running. *)
Lemma recover_spec t s r s' b :
  st_faults s = [] -> files (st_fs s) !! config_backup_path t = Some b -> recover t s = (r, s') ->
  exists ok, r = Ok ok /\ file_text t s' = Some (content b) /\ (ok = true -> st_loaded s' = Some (content b)).
Proof.
  intros Hq Hb. unfold recover, lift_result, ask, abind, aret, and_also. rewrite Hq, (exists_no_fault _ _ _ Hb).
  destruct (copy_no_fault me_uid umask new_gid (config_backup_path t) t b (st_fs s) Hb) as (fs & f & Hc & Hf & Hfc).
  cbn [st_fs st_faults st_loaded st_svc]. rewrite Hc. cbn [is_ok].
  destruct (reload_and_verify t _) as [ok s1] eqn:E. intros [= <- <-].
  apply reload_and_verify_spec in E as [(F & _) Hl]. unfold file_text in *. cbn [st_fs] in *. rewrite F, Hf. rewrite Hf in Hl.
  cbn [option_map] in *. rewrite Hfc in *. exists ok. split; [done|]. split; [done|]. intros ->. by apply Hl.
Qed.

Lemma recover_throw {A} t s (k : bool -> admin_error) (r : result A admin_error) s' b :
  st_faults s = [] -> files (st_fs s) !! config_backup_path t = Some b ->
  (go! x := recover t in athrow (k x)) s = (r, s') ->
  exists ok, r = Err (k ok) /\ file_text t s' = Some (content b) /\ (ok = true -> st_loaded s' = Some (content b)).
Proof.
  intros Hq Hb E. a_bind E; apply (recover_spec _ _ _ _ _ Hq Hb) in E0 as (ok & Hr & H1); [|discriminate].
  injection Hr as ->. injection E as <- <-. eauto.
Qed.

(** An error leaves the old text in place, except the two that are raised on a
    verified reload; a recovery reported as verified has it running. *)
Definition rolled_back (t : path) (old : string) (e : admin_error) (s' : St) : Prop :=
  match e with
  | CapabilitiesMissing | StampFailed _ => True
  | ReloadFailed ok | HandshakeFailed ok => file_text t s' = Some old /\ (ok = true -> st_loaded s' = Some old)
  | _ => file_text t s' = Some old
  end.

Lemma note_total cfg cr s r s' : note_capability_restart cfg cr s = (r, s') -> r = Ok tt.
Proof.
  unfold note_capability_restart. destruct cr; intros E; [|by injection E as <- <-]. a_bind E; [by injection E as <- <-|].
  destruct (spoof_content_hash cfg); apply lift_result_inv in E0 as (? & ? & ? & _ & ? & _); discriminate.
Qed.

Lemma reload_and_commit_back cfg fp strict cr h s e s' b :
  st_faults s = [] -> files (st_fs s) !! config_backup_path (singbox_config_file cfg) = Some b ->
  reload_and_commit cfg (singbox_config_file cfg) fp strict cr h s = (Err e, s') ->
  rolled_back (singbox_config_file cfg) (content b) e s'.
Proof.
  set (t := singbox_config_file cfg). intros Hq Hb. unfold reload_and_commit. intros E. a_bind E.
  2:{ apply ask_inv in E0 as (? & _ & ?). discriminate. }
  apply ask_inv in E0 as (ok & E0 & [= ->]). apply reload_and_verify_spec in E0 as [(F & Q & _) _].
  rewrite <- F in Hb. rewrite <- Q in Hq.
  destruct ok; cbn [negb] in E; [|by apply (recover_throw _ _ _ _ _ _ Hq Hb) in E as (ok & [= ->] & H1)].
  case_if; [by injection E as <- <-|].
  assert (Ec : (go! _ := lift_io StampFailed (commit_applied_config_stamp t fp) in
      go! _ := note_capability_restart cfg cr in aret true) s0 = (Err e, s') -> rolled_back t (content b) e s').
  { intros Ec. a_bind Ec; [|injection Er as ->; by apply lift_io_err in E0 as (? & _ & _ & -> & _)].
    exfalso. a_bind Ec; [discriminate|]. by apply note_total in E1. }
  destruct (handshake_verification h) as [[]|]; try by apply Ec.
  by apply (recover_throw _ _ _ _ _ _ Hq Hb) in E as (ok & [= ->] & H1).
Qed.

Lemma load_reality_quiet cfg : quiet (load_reality_params cfg).
Proof.
  unfold load_reality_params, read_trimmed, read_file. repeat first [apply quiet_ret | apply quiet_syscall | apply quiet_try
    | apply quiet_bind; [|intros ?]]. unfold lift. destruct (map_err _ _); [apply quiet_ret|apply quiet_throw].
Qed.
Lemma load_hysteria_quiet cfg h : quiet (load_hysteria_params cfg h).
Proof.
  unfold load_hysteria_params, read_trimmed, read_file. repeat first [apply quiet_ret | apply quiet_syscall | apply quiet_try
    | apply quiet_bind; [|intros ?]].
Qed.

(** [doc] is the configuration of these users under the key files as they are. *)
Definition rendering (cfg : Deployment.DeploymentConfig) (us : list Grants.CompatUser) (h : Host) (s : St) (doc : V) : Prop :=
  exists reality hysteria fs1 fl1 fs2 fl2,
    load_reality_params cfg (st_fs s) (st_faults s) = (Ok reality, fs1, fl1) /\
    load_hysteria_params cfg h fs1 fl1 = (Ok hysteria, fs2, fl2) /\
    Server.render_server_config_for_deployment b64_decode cfg us reality hysteria (now h) = Ok doc.

(** An apply that reaches a document has rendered it from the users. *)
Lemma render_and_apply_inv cfg us live strict h s r s' :
  render_and_apply_singbox_config_with cfg us live strict h s = (r, s') ->
  (drifts (singbox_config_file cfg) s s' /\ (r = Ok false \/ exists e, r = Err e /\
     match e with RealityParams _ | RenderFailed _ => True | _ => False end)) \/
  exists s1 doc, drifts (singbox_config_file cfg) s s1 /\ rendering cfg us h s doc /\
    apply_document cfg doc live strict h s1 = (r, s').
Proof.
  set (t := singbox_config_file cfg). unfold render_and_apply_singbox_config_with. intros E.
  a_bind E; [|apply lift_result_inv in E0 as (? & ? & ? & _ & ? & _); discriminate].
  assert (D1 : drifts t s s0) by (eapply lift_quiet_drifts; [apply load_reality_frame|apply load_reality_quiet|exact E0]).
  destruct a as [reality|e]; 
    [|case_if; injection E as <- <-; [left; split; [eassumption|right; eexists; split; [reflexivity|exact I]]|left; auto]].
  apply lift_result_inv in E0 as (r0 & fs1 & fl1 & E0 & [= <-] & ->). set (s0 := Build_St _ _ _ _) in *.
  a_bind E; [apply lift_io_ok in E1 as (fs & fl & E1 & ->)|apply lift_io_err in E1 as (e0 & fs & fl & -> & E1 & ->)];
    set (s2 := Build_St fs _ fl _) in *;
    (assert (D2 : drifts t s0 s2) by (eapply (lift_quiet_drifts t (load_hysteria_params cfg h)); [apply load_hysteria_frame|apply load_hysteria_quiet|];
       unfold lift_result; by rewrite E1));
    assert (D12 := drifts_trans _ _ _ _ D1 D2); [|subst r; left; split; [eassumption|right; eexists; split; [reflexivity|exact I]]].
  destruct (Server.render_server_config_for_deployment _ _ _ _ _ _) as [doc|e] eqn:Er; 
    [|injection E as <- <-; left; split; [eassumption|right; eexists; split; [reflexivity|exact I]]].
  right. exists s2, doc. split; [done|]. split; [|done]. exists reality, a, fs1, fl1, fs, fl. auto.
Qed.

(** C8: A change the running server does not survive is undone.  When no file
    operation fails and a configuration was in place, every failing apply
    (the parameter files, the rendering, the service, the checker, the reload
    or the handshake self-test) leaves exactly that configuration in the file;
    and when the recovery after a failed reload or a rejected handshake is
    reported as successful, exactly that configuration is what the process has
    loaded.  The exceptions are the two errors raised after a verified reload
    of the new one: missing capabilities and an unwritable stamp. *)
Theorem failed_apply_restores_previous cfg us live strict h s e s' old :
  st_faults s = [] -> file_text (singbox_config_file cfg) s = Some old ->
  render_and_apply_singbox_config_with cfg us live strict h s = (Err e, s') ->
  rolled_back (singbox_config_file cfg) old e s'.
Proof.
  set (t := singbox_config_file cfg). intros Hq Hold E.
  assert (Hstay : forall s1, drifts t s s1 -> file_text t s1 = Some old) by (intros s1 D; by rewrite (drifts_text _ _ _ _ D)).
  apply render_and_apply_inv in E as [[D [E|(e0 & [= ->] & He)]]|(s1 & doc & D & _ & E)]; [discriminate| |].
  { apply Hstay in D. by destruct e0. }
  apply apply_document_inv in E as [(D1 & _ & He)|[(E & _)|(s2 & cr & D1 & E)]]; [|discriminate|].
  { pose proof (Hstay _ (drifts_trans _ _ _ _ D D1)). destruct e; try done; by destruct (He recovery_reload_ok). }
  assert (D12 := drifts_trans _ _ _ _ D D1). pose proof (Hstay _ D12) as Ht2.
  apply write_and_reload_inv in E as [(e0 & [= ->] & E & _)|(fs & fl & s3 & Ew & D3 & [[E _]|E])]; [unfold rolled_back; fold t in E; by rewrite E|discriminate|].
  assert (Hq2 : st_faults s2 = []) by by apply D12. rewrite Hq2 in Ew. pose proof (apply_config_quiet _ _ _ _ _ _ _ _ _ _ _ Ew) as ->.
  destruct (files (st_fs s2) !! t) as [f|] eqn:Hf; unfold file_text in Ht2; fold t in Ew; rewrite Hf in Ht2; [|discriminate].
  apply apply_config_spec in Ew as [_ (_ & f0 & _ & _ & _ & _ & Hbak)].
  destruct (Hbak eq_refl f Hf) as (_ & _ & b & Hb & Hbc & _). destruct D3 as (F3 & _ & Q3). cbn [st_fs st_faults] in *.
  injection Ht2 as <-. rewrite <- Hbc. eapply reload_and_commit_back; [by apply Q3|by rewrite F3|exact E].
Qed.

(** The process runs the document [doc]. *)
Definition runs (doc : V) (s : St) : Prop := exists c, st_loaded s = Some c /\ de c = Some doc.

Lemma render_and_apply_live cfg us live strict h s s' :
  stamp_honest cfg s -> render_and_apply_singbox_config_with cfg us live strict h s = (Ok true, s') ->
  (exists doc c, rendering cfg us h s doc /\ st_loaded s' = Some c /\ de c = Some doc) /\ stamp_honest cfg s'.
Proof.
  intros Hh E. apply render_and_apply_inv in E as [[_ [E|(e & E & _)]]|(s1 & doc & D & Hr & E)]; [discriminate|discriminate|].
  apply (drifts_honest _ _ _ D) in Hh. apply (apply_document_live _ _ _ _ _ _ _ Hh) in E as [(c & Hc) Hh']. eauto 6.
Qed.

(** *** When a stamp can be trusted *)

(** The two ways an apply ends without knowing what the process runs: the
    configuration was written (at most) but not reloaded, and a recovery that
    was not verified. *)
Definition settled (r : result bool admin_error) : bool :=
  match r with
  | Ok live => live
  | Err (ReloadFailed recovered) | Err (HandshakeFailed recovered) => recovered
  | Err _ => true
  end.

(** Between two applies everything may change but the configuration and its
    stamp; the process may stop or be restarted on the file in place. *)
Definition meanwhile (cfg : Deployment.DeploymentConfig) (s s' : St) : Prop :=
  let t := singbox_config_file cfg in
  file_text t s' = file_text t s /\ file_text (applied_config_stamp_path t) s' = file_text (applied_config_stamp_path t) s /\
  (st_loaded s' = st_loaded s \/ st_loaded s' = None \/ st_loaded s' = file_text t s).

(** The node's life up to [s], from a state without a stamp or with the process
    on the file in place, through settled applies of any deployment in this
    state directory. *)
Inductive trusted (cfg : Deployment.DeploymentConfig) : St -> Prop :=
| trusted_unstamped s : file_text (applied_config_stamp_path (singbox_config_file cfg)) s = None -> trusted cfg s
| trusted_current s : st_loaded s = file_text (singbox_config_file cfg) s -> trusted cfg s
| trusted_meanwhile s s' : trusted cfg s -> meanwhile cfg s s' -> trusted cfg s'
| trusted_applied cfg' us live strict h s r s' :
    trusted cfg s -> Deployment.state_dir cfg' = Deployment.state_dir cfg ->
    render_and_apply_singbox_config_with cfg' us live strict h s = (r, s') -> settled r = true -> trusted cfg s'.

Lemma honest_same cfg cfg' s : Deployment.state_dir cfg' = Deployment.state_dir cfg -> stamp_honest cfg' s <-> stamp_honest cfg s.
Proof. intros E. unfold stamp_honest, singbox_config_file, in_dir. by rewrite E. Qed.

Lemma meanwhile_honest cfg s s' : meanwhile cfg s s' -> stamp_honest cfg s -> stamp_honest cfg s'.
Proof.
  intros (Ht & Hst & Hl) Hh doc c stamp. rewrite Ht, Hst. intros H1 H2 H3 H4 H5.
  destruct Hl as [E|[E|E]]; rewrite E in *; [by eapply Hh|done|]. rewrite H3. by exists c.
Qed.

(** A verified recovery has the process on the file in place. *)
Lemma recover_current t s s' : recover t s = (Ok true, s') -> st_loaded s' = file_text t s'.
Proof.
  unfold recover. intros E. a_bind E; [|discriminate]. a_bind E; [|discriminate]. destruct a0; [|discriminate].
  apply ask_inv in E as (b & E & [= <-]). apply reload_and_verify_spec in E as [(F & _) Hl].
  destruct (Hl eq_refl) as [Hl' _]. unfold file_text in *. by rewrite F.
Qed.

Lemma recover_total t s r s' : recover t s = (r, s') -> exists b, r = Ok b.
Proof.
  unfold recover. intros E. a_bind E; [|apply lift_result_inv in E0 as (? & ? & ? & _ & ? & _); congruence].
  a_bind E; [destruct a0; [apply ask_inv in E as (b & _ & ->); eauto|injection E as <- <-; eauto]|].
  exfalso. unfold and_also in E1. case_match; [|discriminate]. apply abind_inv in E1 as [(? & ? & _ & ?)|(? & E2 & _)]; [discriminate|].
  apply lift_result_inv in E2 as (? & ? & ? & _ & ? & _); congruence.
Qed.

(** So has every other end of a reload. *)
Lemma reload_and_commit_current cfg fp strict cr h s r s' :
  reload_and_commit cfg (singbox_config_file cfg) fp strict cr h s = (r, s') -> settled r = true ->
  st_loaded s' = file_text (singbox_config_file cfg) s'.
Proof.
  set (t := singbox_config_file cfg). intros E0 Hs. destruct r as [[|]|e]; [|discriminate|].
  { apply reload_and_commit_live in E0 as (Hf & Hl & _). fold t in Hf, Hl. congruence. }
  revert E0. unfold reload_and_commit. intros E. a_bind E; [|apply ask_inv in E0 as (? & _ & ?); discriminate].
  apply ask_inv in E0 as (ok & E0 & [= ->]). apply reload_and_verify_spec in E0 as [(F & _) H1].
  assert (Hrec : forall k x, (go! x := recover t in athrow (A := bool) (k x)) x = (Err e, s') ->
    (forall b, k b = ReloadFailed b) \/ (forall b, k b = HandshakeFailed b) -> st_loaded s' = file_text t s').
  { intros k x Ex Hk. a_bind Ex; [|by apply recover_total in E0 as [? ?]]. injection Ex as <- <-.
    assert (a = true) as -> by (by destruct Hk as [Hk|Hk]; rewrite Hk in Hs). by eapply recover_current. }
  destruct ok; cbn [negb] in E; [|by apply (Hrec _ _ E); left]. destruct (H1 eq_refl) as [Hl _].
  assert (H0 : st_loaded s0 = file_text t s0) by (unfold file_text in *; by rewrite F).
  case_if; [by injection E as _ <-|].
  assert (Ec : (go! _ := lift_io StampFailed (commit_applied_config_stamp t fp) in
      go! _ := note_capability_restart cfg cr in aret true) s0 = (Err e, s') -> st_loaded s' = file_text t s').
  { intros Ec. a_bind Ec; [exfalso; a_bind Ec; [discriminate|]; by apply note_total in E1|].
    apply lift_io_err in E0 as (e1 & fs & fl & _ & E0 & ->). simpl. rewrite H0. unfold file_text. simpl.
    rewrite (commit_stamp_frame _ _ _ _ _ _ _ t E0); [done|]. intros [E1|E1]; apply (f_equal name) in E1; discriminate. }
  destruct (handshake_verification h) as [[]|]; try by apply Ec. by apply (Hrec _ _ E); right.
Qed.

Lemma settled_honest cfg us live strict h s r s' :
  render_and_apply_singbox_config_with cfg us live strict h s = (r, s') -> settled r = true ->
  stamp_honest cfg s -> stamp_honest cfg s'.
Proof.
  intros E Hs Hh. apply render_and_apply_inv in E as [[D _]|(s1 & doc & D & _ & E)]; apply (drifts_honest _ _ _ D) in Hh; [done|].
  apply apply_document_inv in E as [(D1 & _)|[(_ & D1 & _)|(s2 & cr & D1 & E)]]; apply (drifts_honest _ _ _ D1) in Hh; [done|done|].
  apply write_and_reload_inv in E as [(e & _ & H1 & H2 & H3)|(fs & fl & s3 & _ & _ & [[-> _]|E])]; [|discriminate|].
  - eapply meanwhile_honest; [|exact Hh]. unfold meanwhile. auto.
  - by eapply current_honest, reload_and_commit_current.
Qed.

Lemma trusted_honest cfg s : trusted cfg s -> stamp_honest cfg s.
Proof.
  induction 1 as [s E|s E|s s' _ IH Hm|cfg' us live strict h s r s' _ IH Hd E Hs].
  - intros doc c stamp E1. congruence.
  - by apply current_honest.
  - by eapply meanwhile_honest.
  - apply (honest_same _ _ _ Hd). apply (settled_honest _ _ _ _ _ _ _ _ E Hs). by apply (honest_same _ _ _ Hd).
Qed.

(** C7: "Applied" means running.  When an apply reports success, whatever the
    service answered and whatever file operation failed on the way, it rendered
    one document from the deployment, the key files and the given users, and
    either the running sing-box has loaded exactly that document, or the apply
    wrote nothing because the file in place is that document, the stamp names
    it and a process is up.  In a trusted state (since there was no stamp, or
    since the process ran the file in place, no apply ended as written but not
    reloaded or with an unverified recovery) the process has loaded exactly
    that document in both cases. *)
Theorem applied_config_is_live cfg us live strict h s s' :
  render_and_apply_singbox_config_with cfg us live strict h s = (Ok true, s') ->
  let t := singbox_config_file cfg in
  exists doc, rendering cfg us h s doc /\
    (runs doc s' \/
     files (st_fs s') = files (st_fs s) /\ st_loaded s' <> None /\ (exists c, file_text t s' = Some c /\ de c = Some doc) /\
     (exists stamp, file_text (applied_config_stamp_path t) s' = Some stamp /\ trim stamp = rendered_config_fingerprint doc)) /\
    (trusted cfg s -> runs doc s').
Proof.
  intros E t. apply render_and_apply_inv in E as [[_ [E|(e & E & _)]]|(s1 & doc & D & Hr & E)]; [discriminate|discriminate|].
  exists doc. split; [done|]. split.
  - apply apply_document_inv in E as [(_ & E & _)|[(_ & D1 & H1 & H2 & H3)|(s2 & cr & D1 & E)]]; [done| |left].
    + right. destruct (drifts_trans _ _ _ _ D D1) as [F _]. auto.
    + apply write_and_reload_inv in E as [(e & E & _)|(fs & fl & s3 & Ew & D3 & [[E _]|E])]; try discriminate.
      apply reload_and_commit_live in E as (_ & Hl & _). rewrite (drifts_text _ _ _ _ D3), (applied_text _ _ _ _ _ _ _ _ _ _ Ew) in Hl.
      exists (ser_pretty doc). auto.
  - intros Ht. apply trusted_honest, (drifts_honest _ _ _ D) in Ht. by apply (apply_document_live _ _ _ _ _ _ _ Ht) in E as [? _].
Qed.

(** ** users.json follows the server *)

Context (de_users : string -> option UsersFile) (de_legacy : string -> option (list Grants.CompatUser)).
Hypothesis serde_users : forall f, de_users (ser_users f) = Some f.

Definition stored_users (cfg : Deployment.DeploymentConfig) (s : St) : result (list Grants.CompatUser) store_error :=
  fst (fst (load_users de_users de_legacy (users_file cfg) (st_fs s) [])).

Lemma stored_same cfg s s' :
  files (st_fs s') !! users_file cfg = files (st_fs s) !! users_file cfg -> stored_users cfg s' = stored_users cfg s.
Proof. unfold stored_users. rewrite !load_no_fault. simpl. unfold loaded. by intros ->. Qed.

Lemma saved_users_spec cfg us s r s' :
  lift_result (save_users_atomic me_uid umask new_gid pid ser_users (users_file cfg) us) s = (r, s') ->
  st_loaded s' = st_loaded s /\
  exists r0, r = Ok r0 /\ match r0 with Ok _ => stored_users cfg s' = Ok us | Err _ => stored_users cfg s' = stored_users cfg s end.
Proof.
  intros E. apply lift_result_inv in E as (r0 & fs & fl & E & -> & ->). split; [done|]. exists r0. split; [done|].
  apply save_spec in E as [_ E]. destruct r0 as [a|e]; [|by apply stored_same].
  destruct E as (f & Hf & Hc & _). unfold stored_users. rewrite load_no_fault. simpl. unfold loaded.
  rewrite Hf, Hc. unfold parse_users_bytes. by rewrite serde_users.
Qed.

Lemma apply_keeps_users cfg us live strict h s r s' :
  render_and_apply_singbox_config_with cfg us live strict h s = (r, s') -> stored_users cfg s' = stored_users cfg s.
Proof. intros E. apply stored_same. eapply render_and_apply_frame; [exact E|apply users_not_own]. Qed.

Lemma apply_users_and_save_spec cfg previous us h h' s r s' :
  apply_users_and_save cfg previous us h h' s = (r, s') ->
  match r with
  | Ok went_live => stored_users cfg s' = Ok us /\
      (went_live = true -> stamp_honest cfg s -> exists doc c, rendering cfg us h s doc /\ st_loaded s' = Some c /\ de c = Some doc)
  | Err _ => stored_users cfg s' = stored_users cfg s
  end.
Proof.
  unfold apply_users_and_save, render_and_apply_singbox_config. intros E.
  a_bind E; pose proof (apply_keeps_users _ _ _ _ _ _ _ _ E0) as Hk; [|by subst r].
  a_bind E; apply saved_users_spec in E1 as [Hl (r0 & Hr & Hs)]; [|discriminate]. injection Hr as ->.
  destruct r0 as [u|e].
  - injection E as <- <-. split; [done|]. intros -> Hh. rewrite Hl. by eapply render_and_apply_live.
  - a_bind E; apply attempt_admin_inv in E1 as (r1 & Hr & E1); [|discriminate]. injection Hr as ->.
    injection E as <- <-. apply apply_keeps_users in E1. by rewrite E1, Hs, Hk.
Qed.

(** [apply_users_and_save] publishes a change in [users.json] only after
    the server took it.  On success the file loads as exactly the new users
    and, when the call says the change went live and the stamp was to be
    trusted, the running sing-box has loaded the configuration rendered from
    them; on every error (apply, reload,
    save; whatever call fails) the file still loads as it did before. *)
Theorem users_published_after_apply cfg previous us h h' s r s' :
  apply_users_and_save cfg previous us h h' s = (r, s') ->
  match r with
  | Ok went_live => stored_users cfg s' = Ok us /\
      (went_live = true -> trusted cfg s -> exists doc c, rendering cfg us h s doc /\ st_loaded s' = Some c /\ de c = Some doc)
  | Err _ => stored_users cfg s' = stored_users cfg s
  end.
Proof.
  intros E. apply apply_users_and_save_spec in E. destruct r; [|done]. destruct E as [H1 H2]. split; [done|].
  intros Hl Ht. by apply H2, trusted_honest.
Qed.
End Admin.

(** ** Witnesses *)

(** A JSON text format with an exact inverse. *)
Fixpoint json_to_tree (v : json) : gen_tree (bool + Z + string) :=
  match v with
  | JNull => GenNode 0 []
  | JBool b => GenLeaf (inl (inl b))
  | JNum z => GenLeaf (inl (inr z))
  | JStr s => GenLeaf (inr s)
  | JArr l => GenNode 1 (map json_to_tree l)
  | JObj kvs => GenNode 2 (map (fun kv => GenNode 3 [GenLeaf (inr (fst kv)); json_to_tree (snd kv)]) kvs)
  end.
Fixpoint tree_to_json (t : gen_tree (bool + Z + string)) : json :=
  match t with
  | GenLeaf (inl (inl b)) => JBool b
  | GenLeaf (inl (inr z)) => JNum z
  | GenLeaf (inr s) => JStr s
  | GenNode 1 l => JArr (map tree_to_json l)
  | GenNode 2 l =>
      JObj (map (fun t => match t with GenNode 3 [GenLeaf (inr k); v] => (k, tree_to_json v) | _ => (EmptyString, JNull) end) l)
  | _ => JNull
  end.
Lemma tree_roundtrip : forall v, tree_to_json (json_to_tree v) = v.
Proof.
  fix IH 1. intros [|b|z|s|l|kvs]; simpl; try done; f_equal; rewrite map_map.
  - induction l as [|x l IHl]; [done|]. simpl. by rewrite IH, IHl.
  - induction kvs as [|[k x] l IHl]; [done|]. simpl. by rewrite IH, IHl.
Qed.
Definition ex_print (v : json) : string := bits (encode (json_to_tree v)).
Definition ex_parse (s : string) : option json := option_map tree_to_json (decode (unbits s)).
Lemma ex_serde v : ex_parse (ex_print v) = Some v.
Proof. unfold ex_parse, ex_print. rewrite unbits_bits, decode_encode. simpl. by rewrite tree_roundtrip. Qed.

Definition plain (text : string) : file := {| content := text; mode := 416; uid := 0; gid := 990 |}.
Definition ex_node : Deployment.DeploymentConfig := ServerPolicy.ex_exit_node.
Definition ex_disk : FS :=
  {| files := {[ reality_private_key_file ex_node := plain "key"; reality_public_key_file ex_node := plain "key";
                 reality_short_id_file ex_node := plain "0a1b"; singbox_config_file ex_node := plain "old";
                 users_file ex_node := plain "[]" ]};
     dirs := {[ dir (users_file ex_node) := {| d_mode := 488; d_gid := 990 |};
                dir (singbox_config_file ex_node) := {| d_mode := 488; d_gid := 990 |} ]} |}.
Definition ex_host : Host :=
  {| offline_mutation_allowed := false; binary_exists := true; masquerade_exists := false; dropin := DUnchanged;
     lacks_capabilities := None; still_lacks_capabilities := None; handshake_verification := Ran Pass; now := 1000 |}.
Definition ex_start (l : list svc) : St := {| st_fs := ex_disk; st_loaded := Some "old"; st_faults := []; st_svc := l |}.
Definition yes : svc := {| ran := true; success := true; svc_after := Same |}.
Definition no : svc := {| ran := true; success := false; svc_after := Same |}.

Definition ex_apply (us : list Grants.CompatUser) (h : Host) (s : St) : result bool admin_error * St :=
  render_and_apply_singbox_config_with 0 18 (fun _ => 990) "7" (fun _ => true) Deployment.ex_key (fun _ => "key")
    (fun _ => "00") (fun l => l) (V := json) ex_print json_print ex_parse ex_node us true false h s.

Definition ex_publish (h : Host) (s : St) : result bool admin_error * St :=
  apply_users_and_save 0 18 (fun _ => 990) "7" (fun _ => true) Deployment.ex_key (fun _ => "key")
    (fun _ => "00") (fun l => l) (V := json) ex_print json_print ex_parse ex_ser ex_node [] ServerPolicy.ex_users h h s.

(** The result of a run, without evaluating the state it ends in. *)
Lemma run_result {A B} (run : A * B) a : fst run = a -> exists b, run = (a, b).
Proof. destruct run as [x b]. intros <-. by exists b. Qed.

Local Notation ex_trusted := (trusted 0 18 (fun _ => 990) "7" (fun _ => true) Deployment.ex_key (fun _ => "key")
    (fun _ => "00") (fun l => l) (V := json) ex_print json_print ex_parse ex_node).
Lemma ex_start_trusted l : ex_trusted (ex_start l).
Proof. apply trusted_unstamped. vm_compute. reflexivity. Qed.

(** The users are applied; the next apply finds them current and writes nothing. *)
Lemma applied_config_is_live_witness :
  exists s1 s2 c doc, ex_apply ServerPolicy.ex_users ex_host (ex_start []) = (Ok true, s1) /\
    ex_apply ServerPolicy.ex_users ex_host s1 = (Ok true, s2) /\ st_loaded s2 = Some c /\ ex_parse c = Some doc.
Proof.
  destruct (run_result (ex_apply ServerPolicy.ex_users ex_host (ex_start [])) (Ok true) ltac:(vm_compute; reflexivity)) as [s1 E1].
  assert (Hs : s1 = snd (ex_apply ServerPolicy.ex_users ex_host (ex_start []))) by (rewrite E1; reflexivity).
  destruct (run_result (ex_apply ServerPolicy.ex_users ex_host s1) (Ok true) ltac:(rewrite Hs; vm_compute; reflexivity)) as [s2 E2].
  exists s1, s2. unfold ex_apply in E1, E2.
  destruct (applied_config_is_live _ _ _ _ _ _ _ _ _ _ _ _ ex_serde _ _ _ _ _ _ _ E2) as (doc & _ & _ & Hl).
  destruct Hl as (c & Hc & Hd); [by eapply trusted_applied; [apply ex_start_trusted|reflexivity|exact E1|reflexivity]|].
  exists c, doc. auto.
Defined.

(** The reload of the new configuration fails, the one of the old succeeds. *)
Lemma failed_apply_restores_previous_witness :
  exists s', ex_apply ServerPolicy.ex_users ex_host (ex_start [yes; yes; yes; yes; yes; no]) = (Err (ReloadFailed true), s') /\
    file_text (singbox_config_file ex_node) s' = Some "old" /\ st_loaded s' = Some "old".
Proof.
  destruct (run_result (ex_apply ServerPolicy.ex_users ex_host (ex_start [yes; yes; yes; yes; yes; no]))
    (Err (ReloadFailed true)) ltac:(vm_compute; reflexivity)) as [s' E].
  exists s'. split; [exact E|]. unfold ex_apply in E.
  apply failed_apply_restores_previous with (old := "old") in E; [|apply json_eq_laws|reflexivity|vm_compute; reflexivity].
  destruct E as [Hf Hl]. auto.
Defined.

Lemma users_published_after_apply_witness :
  exists s', ex_publish ex_host (ex_start []) = (Ok true, s') /\ stored_users ex_de ex_legacy ex_node s' = Ok ServerPolicy.ex_users.
Proof.
  destruct (run_result (ex_publish ex_host (ex_start [])) (Ok true) ltac:(vm_compute; reflexivity)) as [s' E].
  exists s'. split; [exact E|]. unfold ex_publish in E.
  exact (proj1 (users_published_after_apply _ _ _ _ _ _ _ _ _ _ _ _ _ ex_serde ex_de ex_legacy ex_roundtrip
    _ _ _ _ _ _ (Ok true) _ E)).
Defined.

(** ** Two gaps *)

Definition ex_rejected : Host :=
  {| offline_mutation_allowed := false; binary_exists := true; masquerade_exists := false; dropin := DUnchanged;
     lacks_capabilities := None; still_lacks_capabilities := None;
     handshake_verification := Ran HandshakeRejected; now := 1000 |}.
(** Four availability checks, the reset, the restart and three polls succeed;
    then the recovery's reset does and its restart fails. *)
Definition ex_bad_recovery : list svc := repeat yes 10 ++ [no].

Lemma texts_differ (a b : option string) :
  match a, b with Some x, Some y => negb (String.eqb x y) | _, _ => false end = true -> a <> b.
Proof. intros H ->. destruct b; [|done]. by rewrite String.eqb_refl in H. Qed.

(** A stamp survives a failed recovery: [user_1] alone is live; adding the
    others fails its self-test and the restart on the restored file fails too,
    so the process keeps the configuration that was rejected; applying
    [user_1] again then reports success without touching it. *)
Lemma stale_stamp_after_failed_recovery :
  let us1 := firstn 1 ServerPolicy.ex_users in
  let first := ex_apply us1 ex_host (ex_start []) in
  let s1 := {| st_fs := st_fs (snd first); st_loaded := st_loaded (snd first); st_faults := []; st_svc := ex_bad_recovery |} in
  let second := ex_apply ServerPolicy.ex_users ex_rejected s1 in
  let third := ex_apply us1 ex_host (snd second) in
  fst first = Ok true /\ fst second = Err (HandshakeFailed false) /\ fst third = Ok true /\
  st_loaded (snd third) <> st_loaded (snd first).
Proof.
  intros us1 first s1 second third. do 3 (split; [vm_compute; reflexivity|]). apply texts_differ. vm_compute. reflexivity.
Qed.

(** The second availability check decides after the write: an apply that must
    be live reports [Ok false], and [users.json] is replaced, although the
    process still runs the old configuration and offline changes are not
    allowed. *)
Lemma unavailable_after_write_is_published :
  let r := ex_publish ex_host (ex_start [yes; yes; no]) in
  offline_mutation_allowed ex_host = false /\ fst r = Ok false /\ st_loaded (snd r) = Some "old" /\
  stored_users ex_de ex_legacy ex_node (snd r) = Ok ServerPolicy.ex_users.
Proof. intros r. do 3 (split; [vm_compute; reflexivity|]). vm_compute. reflexivity. Qed.
End AdminApply.
