(* ===== verification/AdminSteps.v ===== *)
(** * apps/admin: commands as steps

    A command is a sequence of file operations, service calls and applies that
    may stop with an error of its own type: the monad [rio], the lemmas that
    say which files a step may change, and the restart of the second unit,
    vpn-subscription. *)

From S2P Require Import Prelude Strs Grants Json Deployment Store ConfigApply AdminApply.

Module AdminSteps.
Import Store ConfigApply AdminApply.

(** [read_to_string] with the error kinds the code distinguishes: [Ok None] is
    [NotFound]. *)
Definition read_optional (p : path) : io (option string) :=
  syscall unchanged (fun fs => (Ok (option_map content (files fs !! p)), fs)).

Definition rio (X A : Type) : Type := St -> result A X * St.

Section Steps.
Context {X : Type}.
Definition rret {A} (a : A) : rio X A := fun s => (Ok a, s).
Definition rthrow {A} (e : X) : rio X A := fun s => (Err e, s).
Definition rbind {A B} (m : rio X A) (k : A -> rio X B) : rio X B := fun s =>
  match m s with (Ok a, s') => k a s' | (Err e, s') => (Err e, s') end.

(** A step whose error is a value, and one whose error is wrapped. *)
Definition embed {A} (m : aio A) : rio X (result A admin_error) := fun s => let '(r, s) := m s in (Ok r, s).
Definition raise {A} (wrap : admin_error -> X) (m : aio A) : rio X A :=
  rbind (embed m) (fun r => match r with Ok a => rret a | Err e => rthrow (wrap e) end).
Definition rfile {A} (m : io A) : rio X (result A store_error) := fun s =>
  let '(r, fs, fl) := m (st_fs s) (st_faults s) in
  (Ok r, {| st_fs := fs; st_loaded := st_loaded s; st_faults := fl; st_svc := st_svc s |}).
Definition rfail {A} (wrap : store_error -> X) (m : io A) : rio X A :=
  rbind (rfile m) (fun r => match r with Ok a => rret a | Err e => rthrow (wrap e) end).
Definition rlift {A} (r : result A X) : rio X A := fun s => (r, s).
Definition rask (f : St -> bool * St) : rio X bool := fun s => let '(b, s) := f s in (Ok b, s).

End Steps.
Notation "'rev!' x := m 'in' k" := (rbind m (fun x => k))
  (at level 10, x name, m at level 100, k at level 200) : vpn_scope.

(** The unit [vpn-subscription]; only sing-box's own configuration is tracked. *)
Section Subscription.
Context (target : path).
Fixpoint sub_polls (polls : nat) (consecutive_active : Z) (s : St) : bool * St :=
  match polls with
  | O => (false, s)
  | S polls' =>
      let '(up, s) := answered (run target query s) in
      if (up : bool) then
        if consecutive_active + 1 =? 3 then (true, s) else sub_polls polls' (consecutive_active + 1) s
      else sub_polls polls' 0 s
  end.
Definition sub_reload_and_verify (s : St) : bool * St :=
  let '(_, s) := run target query s in
  let '(ok, s) := answered (run target query s) in
  if (ok : bool) then sub_polls MAX_POLLS 0 s else (false, s).
End Subscription.

(** ** Which files a step may change *)

Section Lemmas.
Context {X : Type}.
Definition rframe (S : path -> Prop) {A} (m : rio X A) : Prop :=
  forall s r s' q, m s = (r, s') -> ~ S q -> files (st_fs s') !! q = files (st_fs s) !! q.

Lemma rbind_inv {A B} (m : rio X A) (k : A -> rio X B) s r s' : rbind m k s = (r, s') ->
  (exists a s1, m s = (Ok a, s1) /\ k a s1 = (r, s')) \/ (exists e, m s = (Err e, s') /\ r = Err e).
Proof. unfold rbind. destruct (m s) as [[a|e] s1]; [eauto|intros [= <- <-]; eauto]. Qed.

Lemma rframe_ret S {A} (a : A) : rframe S (rret (X := X) a).
Proof. by intros s r s' q [= <- <-]. Qed.
Lemma rframe_throw S {A} e : rframe S (rthrow (X := X) (A := A) e).
Proof. by intros s r s' q [= <- <-]. Qed.
Lemma rframe_lift S {A} (r : result A X) : rframe S (rlift r).
Proof. by intros s r0 s' q [= <- <-]. Qed.
Lemma rframe_bind S {A B} (m : rio X A) (k : A -> rio X B) : rframe S m -> (forall a, rframe S (k a)) -> rframe S (rbind m k).
Proof.
  intros Hm Hk s r s' q E Hq. apply rbind_inv in E as [(a & s1 & E1 & E)|(e & E & _)]; [rewrite (Hk _ _ _ _ _ E Hq)|]; by eapply Hm.
Qed.
Lemma rframe_embed (S S' : path -> Prop) {A} (m : aio A) : (forall q, S q -> S' q) -> aframe S m -> rframe S' (embed (X := X) m).
Proof.
  intros HS Hm s r s' q. unfold embed. destruct (m s) as [r0 s0] eqn:E. intros [= <- <-] Hq. eapply Hm; [exact E|naive_solver].
Qed.
Lemma rframe_file (S S' : path -> Prop) {A} (m : io A) : (forall q, S q -> S' q) -> frame S m -> rframe S' (rfile (X := X) m).
Proof.
  intros HS Hm s r s' q. unfold rfile. destruct (m (st_fs s) (st_faults s)) as [[r0 fs] fl] eqn:E. intros [= <- <-] Hq.
  eapply Hm; [exact E|naive_solver].
Qed.
Lemma rframe_raise S S' {A} (wrap : admin_error -> X) (m : aio A) : (forall q, S q -> S' q) -> aframe S m -> rframe S' (raise wrap m).
Proof. intros HS Hm. apply rframe_bind; [by eapply rframe_embed|]. intros [a|e]; [apply rframe_ret|apply rframe_throw]. Qed.
Lemma rframe_fail S S' {A} (wrap : store_error -> X) (m : io A) : (forall q, S q -> S' q) -> frame S m -> rframe S' (rfail wrap m).
Proof. intros HS Hm. apply rframe_bind; [by eapply rframe_file|]. intros [a|e]; [apply rframe_ret|apply rframe_throw]. Qed.
Lemma rframe_ask S target f : (forall s b s', f s = (b, s') -> settles target s s') -> rframe S (rask (X := X) f).
Proof. intros Hf s r s' q. unfold rask. destruct (f s) as [b s1] eqn:E. intros [= <- <-] _. by destruct (Hf _ _ _ E) as [-> _]. Qed.

Lemma query_answer target s b s' : answered (run target query s) = (b, s') -> settles target s s'.
Proof. unfold answered. destruct (run target query s) as [r s1] eqn:E. intros [= <- <-]. by eapply query_settles. Qed.
Lemma sub_polls_settles target n k s b s' : sub_polls target n k s = (b, s') -> settles target s s'.
Proof.
  revert k s. induction n as [|n IH]; intros k s; cbn [sub_polls]; [intros [= <- <-]; apply settles_refl|].
  destruct (answered (run target query s)) as [up s1] eqn:E. apply query_answer in E.
  destruct up; [case_if; [by intros [= <- <-]|]|]; intros H1; apply IH in H1; by eapply settles_trans.
Qed.
Lemma sub_reload_settles target s b s' : sub_reload_and_verify target s = (b, s') -> settles target s s'.
Proof.
  unfold sub_reload_and_verify. destruct (run target query s) as [r0 s0] eqn:E0. apply query_settles in E0.
  destruct (answered (run target query s0)) as [ok s1] eqn:E1. apply query_answer in E1.
  assert (S1 : settles target s s1) by by eapply settles_trans.
  destruct ok; [|by intros [= <- <-]]. intros H1. apply sub_polls_settles in H1. by eapply settles_trans.
Qed.
Lemma ask_available_frame S target : rframe S (rask (X := X) (is_available target)).
Proof. eapply rframe_ask. intros s0 b s1. apply is_available_settles. Qed.
Lemma ask_installed_frame S target : rframe S (rask (X := X) (is_unit_installed target)).
Proof. eapply rframe_ask. intros s0 b s1. apply is_unit_installed_settles. Qed.
Lemma ask_subscription_frame S target : rframe S (rask (X := X) (sub_reload_and_verify target)).
Proof. eapply rframe_ask. intros s0 b s1. apply sub_reload_settles. Qed.

Lemma read_optional_frame p : frame (fun _ => False) (read_optional p).
Proof. by apply frame_syscall. Qed.
Lemma rfile_inv {A} (m : io A) s r s' : rfile (X := X) m s = (r, s') ->
  exists r0 fs fl, m (st_fs s) (st_faults s) = (r0, fs, fl) /\ r = Ok r0 /\ st_fs s' = fs /\ st_loaded s' = st_loaded s.
Proof. unfold rfile. destruct (m (st_fs s) (st_faults s)) as [[r0 fs] fl]. intros [= <- <-]. by exists r0, fs, fl. Qed.

Lemma rfail_inv {A} (wrap : store_error -> X) (m : io A) s r s' : rfail wrap m s = (r, s') ->
  exists r0 fs fl, m (st_fs s) (st_faults s) = (r0, fs, fl) /\ r = map_err wrap r0 /\ st_fs s' = fs /\ st_loaded s' = st_loaded s.
Proof.
  unfold rfail, rbind. destruct (rfile m s) as [r0 s0] eqn:E. intros H0. apply rfile_inv in E as (r1 & fs & fl & E & -> & Hf & Hl).
  exists r1, fs, fl. destruct r1 as [a|e]; injection H0 as <- <-; done.
Qed.

Lemma read_optional_inv p s r s' : rfile (X := X) (read_optional p) s = (r, s') ->
  st_fs s' = st_fs s /\ (r = Ok (Ok (file_text p s)) \/ exists e, r = Ok (Err e)).
Proof.
  intros E. apply rfile_inv in E as (r0 & fs & fl & E & -> & Hf & _). rewrite Hf.
  unfold read_optional, syscall, unchanged in E.
  destruct (st_faults s) as [|[|n] ?]; injection E as <- <- <-; unfold file_text; eauto.
Qed.

Lemma use_frame S q {A} (m : rio X A) s r s' :
  m s = (r, s') -> rframe S m -> ~ S q -> files (st_fs s') !! q = files (st_fs s) !! q.
Proof. intros E Hm. by eapply Hm. Qed.

Definition same_files (s s' : St) : Prop := forall q, files (st_fs s') !! q = files (st_fs s) !! q.
Lemma read_only {A} (m : rio X A) s r s' : rframe (fun _ => False) m -> m s = (r, s') -> same_files s s'.
Proof. intros Hm E q. eapply Hm; [exact E|tauto]. Qed.

Lemma removed_spec p s r s' : rfile (X := X) (remove_file p) s = (r, s') ->
  (forall q, q <> p -> files (st_fs s') !! q = files (st_fs s) !! q) /\
  match r with Ok (Ok _) => file_text p s' = None | _ => st_fs s' = st_fs s end.
Proof.
  intros E. apply rfile_inv in E as (r0 & fs & fl & E & -> & Hf & _). rewrite Hf. split.
  - intros q Hq. eapply remove_frame; [exact E|done].
  - unfold file_text. rewrite Hf. revert E. unfold remove_file, syscall, unchanged.
    destruct (st_faults s) as [|[|n] ?]; [| |by intros [= <- <- _]];
      (destruct (files (st_fs s) !! p); intros [= <- <- _]; [simpl; by rewrite lookup_delete_eq|done]).
Qed.

Lemma rfile_total {A} (m : io A) s : exists r0 s', rfile (X := X) m s = (Ok r0, s').
Proof. unfold rfile. destruct (m (st_fs s) (st_faults s)) as [[r0 fs] fl]. eauto. Qed.
Lemma rfail_rfile {A} (wrap : store_error -> X) (m : io A) s r s' : rfail wrap m s = (r, s') -> exists r0, rfile (X := X) m s = (Ok r0, s') /\ r = map_err wrap r0.
Proof.
  intros E. apply rbind_inv in E as [(r0 & s1 & E1 & E)|(e & E & _)].
  - exists r0. destruct r0; injection E as <- <-; done.
  - apply rfile_inv in E as (? & ? & ? & _ & [=] & _).
Qed.

Lemma read_text_inv (wrap : store_error -> X) p s r s' : rfail wrap (read_file p) s = (r, s') ->
  (forall q, files (st_fs s') !! q = files (st_fs s) !! q) /\ forall t, r = Ok t -> file_text p s = Some t.
Proof.
  intros E. split; [eapply read_only; [|exact E]; eapply rframe_fail; [|apply read_frame]; done|]. intros t ->.
  apply rfail_inv in E as (r0 & fs & fl & E1 & Hr & _). destruct r0 as [t0|]; [|discriminate]. injection Hr as <-.
  apply syscall_ok in E1 as [E1 _]. apply on_file_ok in E1 as (f & f' & Hf & [= <- <-] & _). unfold file_text. by rewrite Hf.
Qed.

(** *** Which errors a step may end in *)

Definition throws (P : X -> Prop) {A} (m : rio X A) : Prop := forall s e s', m s = (Err e, s') -> P e.
Lemma throws_ret P {A} (a : A) : throws P (rret (X := X) a).
Proof. by intros s e s' [=]. Qed.
Lemma throws_throw (P : X -> Prop) {A} e : P e -> throws P (rthrow (X := X) (A := A) e).
Proof. by intros HP s e0 s' [= <- <-]. Qed.
Lemma throws_bind P {A B} (m : rio X A) (k : A -> rio X B) : throws P m -> (forall a, throws P (k a)) -> throws P (rbind m k).
Proof. intros Hm Hk s e s' E. apply rbind_inv in E as [(a & s1 & _ & E)|(e0 & E & [= ->])]; [by eapply Hk|by eapply Hm]. Qed.
Lemma throws_file P {A} (m : io A) : throws P (rfile (X := X) m).
Proof. intros s e s' E. by apply rfile_inv in E as (? & ? & ? & _ & ? & _). Qed.
Lemma throws_ask P f : throws P (rask (X := X) f).
Proof. intros s e s'. unfold rask. by destruct (f s). Qed.
Lemma throws_fail (P : X -> Prop) {A} (wrap : store_error -> X) (m : io A) : (forall e, P (wrap e)) -> throws P (rfail wrap m).
Proof. intros HP. apply throws_bind; [apply throws_file|]. intros [a|e]; [apply throws_ret|by apply throws_throw]. Qed.
Lemma throws_raise (P : X -> Prop) {A} (wrap : admin_error -> X) (m : aio A) : (forall e, P (wrap e)) -> throws P (raise wrap m).
Proof.
  intros HP. apply throws_bind; [intros s e s'; unfold embed; by destruct (m s)|].
  intros [a|e]; [apply throws_ret|by apply throws_throw].
Qed.
Lemma throws_lift (P : X -> Prop) {A E} (wrap : E -> X) (r : result A E) : (forall e, P (wrap e)) -> throws P (rlift (map_err wrap r)).
Proof. intros HP s e s'. unfold rlift. destruct r; [discriminate|]. by intros [= <- <-]. Qed.

Lemma sibling_ne p a b : a <> b -> sibling p a <> sibling p b.
Proof. intros Hab E. apply (f_equal name) in E. apply (inj (String.app (name p))) in E. done. Qed.
End Lemmas.

(** *** Whole files *)

Section Writes.
Context {X : Type} (me_uid umask : Z) (new_gid : string -> Z) (pid : string).
Local Notation write_text p text m := (atomic_write me_uid umask new_gid pid p text m).

Lemma write_text_spec p text m s r s' : rfile (X := X) (write_text p text m) s = (r, s') -> exists r0, r = Ok r0 /\
  (forall q, q <> p -> q <> tmp_sibling_path pid p -> files (st_fs s') !! q = files (st_fs s) !! q) /\
  match r0 with Ok _ => file_text p s' = Some text | Err _ => files (st_fs s') !! p = files (st_fs s) !! p end.
Proof.
  intros E. apply rfile_inv in E as (r0 & fs & fl & E & -> & Hf & _). exists r0. split; [done|]. rewrite Hf.
  apply atomic_write_spec in E as [Ho Hr]. split; [done|]. destruct r0; [|done].
  destruct Hr as (f & Hp & Hc & _). unfold file_text. rewrite Hf, Hp. simpl. by rewrite Hc.
Qed.

Lemma write_secret_ok p contents fs fl fs' fl' :
  write_secret_file me_uid umask new_gid p contents fs fl = (Ok tt, fs', fl') ->
  option_map content (files fs' !! p) = Some contents.
Proof.
  unfold write_secret_file. intros E.
  io_bind E; [|discriminate]. apply syscall_ok in E0 as [Hp _]. injection Hp as _ Hp.
  io_bind E; [|discriminate]. apply syscall_ok in E0 as [E0 _]. apply on_file_ok in E0 as (f & f' & Hf & [= <- <-] & ->).
  apply syscall_ok in E as [[= <-] _]. simpl. rewrite lookup_insert. destruct (decide (p = p)); [|done]. simpl. f_equal.
  assert (content f = EmptyString) as ->; [|done]. rewrite <- Hp in Hf. simpl in Hf. rewrite lookup_insert in Hf.
  destruct (decide (p = p)); [|done]. injection Hf as <-. by destruct (files fs !! p).
Qed.
End Writes.
End AdminSteps.
