(* ===== verification/Archive.v ===== *)
(** * apps/admin: what a backup archive may contain

    main.rs: [BACKUP_MANIFEST], [is_allowed_backup_path],
    [normalized_archive_path] and [extract_validated_backup].  An archive is
    what the tar crate reads of it, entry by entry, with the outcome of its
    [unpack_in]; the staging directory is a map from paths to what was
    extracted there. *)

From S2P Require Import Prelude Strs.
From Stdlib Require Import Ascii.

Module Archive.

(** ** Paths *)

(** [std::path::Component] on Unix. *)
Inductive component := RootDir | CurDir | ParentDir | Normal (part : string).

Definition piece_components (piece : string) : list component :=
  if String.eqb piece "" || String.eqb piece "." then [] else if String.eqb piece ".." then [ParentDir] else [Normal piece].
Definition leading_components (s : string) (pieces : list string) : list component :=
  if String.prefix "/" s then [RootDir]
  else match pieces with first :: _ => if String.eqb first "." then [CurDir] else [] | [] => [] end.
(** [Path::components]. *)
Definition components (s : string) : list component :=
  let pieces := split_on (ascii_of_nat 47) s in leading_components s pieces ++ flat_map piece_components pieces.

Inductive archive_error :=
| Unreadable
| TooManyEntries
| UnsafePath
| RootNotDirectory
| DuplicateEntry (p : list string)
| UnexpectedEntry (p : list string)
| SpecialFile (p : list string)
| EntryTooLarge (p : list string) (size : Z)
| SizeOverflow
| TotalTooLarge
| ExtractFailed (p : list string)
| WouldEscape (p : list string).

Fixpoint normalize (l : list component) (normalized : list string) : result (list string) archive_error :=
  match l with
  | [] => Ok normalized
  | CurDir :: l => normalize l normalized
  | Normal part :: l => normalize l (normalized ++ [part])
  | (ParentDir | RootDir) :: _ => Err UnsafePath
  end.
Definition normalized_archive_path (s : string) : result (list string) archive_error := normalize (components s) [].

(** ** The manifest *)

Definition BACKUP_MANIFEST : list (list string) :=
  [["users"; "users.json"]; ["reality"; "private.key"]; ["reality"; "public.key"]; ["reality"; "short_id.txt"];
   ["hysteria"; "cert.pem"]; ["hysteria"; "key.pem"]; ["reality"; "hysteria_obfs_password.txt"]].

Definition path_eqb (p q : list string) : bool := bool_decide (p = q).
Definition is_parent (p rel : list string) : bool :=
  match removelast rel with [] => false | parent => path_eqb p parent end.
Definition is_allowed_backup_path (p : list string) : bool :=
  path_eqb p ["deployment.toml"] || existsb (fun rel => path_eqb p rel || is_parent p rel) BACKUP_MANIFEST.

(** ** Extraction *)

Inductive tar_type := TarFile | TarDir | TarOther.
Record tar_entry := {
  te_path : option string;      (** [entry.path()], [None] when it cannot be read *)
  te_type : tar_type;
  te_size : Z;
  te_bytes : string;
  te_unpack : option bool }.    (** [entry.unpack_in(dir)] *)

Inductive staged := StagedFile (bytes : string) | StagedDir.
Notation staging := (gmap (list string) staged).

Definition MAX_ENTRIES : nat := 32.
Definition MAX_ENTRY_BYTES : Z := 32 * 1024 * 1024.
Definition MAX_TOTAL_BYTES : Z := 64 * 1024 * 1024.

Definition staged_node (e : tar_entry) : staged := match te_type e with TarFile => StagedFile (te_bytes e) | _ => StagedDir end.
Definition checked_add_u64 (a b : Z) : option Z := if a + b <? 2 ^ 64 then Some (a + b) else None.

Record progress := { seen : gset (list string); total_bytes : Z; count : nat; dir : staging }.

(** One pass of the loop. *)
Definition extract_entry (next : option tar_entry) (s : progress) : result progress archive_error :=
  let? entry := ok_or next Unreadable in
  let count := S (count s) in
  if (MAX_ENTRIES <? count)%nat then Err TooManyEntries else
  let? raw_path := ok_or (te_path entry) Unreadable in
  let? p := normalized_archive_path raw_path in
  if bool_decide (p = []) then
    match te_type entry with
    | TarDir => Ok {| seen := seen s; total_bytes := total_bytes s; count := count; dir := dir s |}
    | _ => Err RootNotDirectory
    end else
  if bool_decide (p ∈ seen s) then Err (DuplicateEntry p) else
  if negb (is_allowed_backup_path p) then Err (UnexpectedEntry p) else
  if (match te_type entry with TarOther => true | _ => false end) then Err (SpecialFile p) else
  let size := te_size entry in
  if MAX_ENTRY_BYTES <? size then Err (EntryTooLarge p size) else
  let? total := ok_or (checked_add_u64 (total_bytes s) size) SizeOverflow in
  if MAX_TOTAL_BYTES <? total then Err TotalTooLarge else
  match te_unpack entry with
  | None => Err (ExtractFailed p)
  | Some false => Err (WouldEscape p)
  | Some true => Ok {| seen := {[p]} ∪ seen s; total_bytes := total; count := count; dir := <[p := staged_node entry]> (dir s) |}
  end.

Fixpoint extract_entries (l : list (option tar_entry)) (s : progress) : result progress archive_error :=
  match l with
  | [] => Ok s
  | next :: l => let? s := extract_entry next s in extract_entries l s
  end.

(** [None]: the archive cannot be opened or has no readable header. *)
Definition extract_validated_backup (archive : option (list (option tar_entry))) : result staging archive_error :=
  let? entries := ok_or archive Unreadable in
  let? s := extract_entries entries {| seen := ∅; total_bytes := 0; count := 0; dir := ∅ |} in
  Ok (dir s).

(** ** What an accepted archive is *)

(** An entry with its path. *)
Definition entry_of (next : option tar_entry) : option (list string * tar_entry) :=
  match next with
  | None => None
  | Some e =>
      match te_path e with
      | None => None
      | Some raw => match normalized_archive_path raw with Ok p => Some (p, e) | Err _ => None end
      end
  end.
Fixpoint entries_of (l : list (option tar_entry)) : option (list (list string * tar_entry)) :=
  match l with
  | [] => Some []
  | next :: l => match entry_of next, entries_of l with Some x, Some es => Some (x :: es) | _, _ => None end
  end.
Definition is_root (x : list string * tar_entry) : bool := match fst x with [] => true | _ => false end.
Definition plain (x : list string * tar_entry) : Prop :=
  let '(p, e) := x in
  if is_root x then te_type e = TarDir
  else is_allowed_backup_path p = true /\ te_type e <> TarOther /\ te_size e <= MAX_ENTRY_BYTES /\ te_unpack e = Some true.
Definition payload (es : list (list string * tar_entry)) := List.filter (fun x => negb (is_root x)) es.
Definition sizes (es : list (list string * tar_entry)) : Z := foldr (fun x n => te_size (snd x) + n) 0 es.
Definition contents (es : list (list string * tar_entry)) : staging :=
  list_to_map (map (fun x => (fst x, staged_node (snd x))) es).

Record acceptable (l : list (option tar_entry)) (es : list (list string * tar_entry)) (already : gset (list string)) (room : nat) (left : Z) : Prop := {
  acc_read : entries_of l = Some es;
  acc_count : (length l <= room)%nat;
  acc_plain : Forall plain es;
  acc_unique : List.NoDup (map fst (payload es));
  acc_fresh : Forall (fun x => fst x ∉ already) (payload es);
  acc_size : sizes (payload es) <= left }.

Definition u64_size (next : option tar_entry) : Prop := match next with Some e => 0 <= te_size e < 2 ^ 64 | None => True end.

Lemma sizes_nonneg l es : Forall u64_size l -> entries_of l = Some es -> 0 <= sizes (payload es).
Proof.
  revert es. induction l as [|[e|] l IH]; simpl; intros es Hu E; try discriminate; [by injection E as <-|].
  inversion Hu as [|? ? Hs Hu']. subst. destruct (te_path e); [|discriminate]. destruct (normalized_archive_path _) as [p|]; [|discriminate].
  destruct (entries_of l) as [es'|]; [|discriminate]. injection E as <-. specialize (IH es' Hu' eq_refl).
  unfold payload. simpl. destruct (negb _); simpl; [|done]. simpl in Hs. fold (payload es'). lia.
Qed.

(** The outcome of one pass. *)
Definition advance (x : list string * tar_entry) (s : progress) : progress :=
  if is_root x then {| seen := seen s; total_bytes := total_bytes s; count := S (count s); dir := dir s |}
  else {| seen := {[fst x]} ∪ seen s; total_bytes := total_bytes s + te_size (snd x); count := S (count s);
          dir := <[fst x := staged_node (snd x)]> (dir s) |}.

Lemma extract_entry_iff next s s' : u64_size next -> 0 <= total_bytes s <= MAX_TOTAL_BYTES ->
  extract_entry next s = Ok s' <->
  exists x, entry_of next = Some x /\ (count s < MAX_ENTRIES)%nat /\ plain x /\
    (is_root x = false -> fst x ∉ seen s /\ total_bytes s + te_size (snd x) <= MAX_TOTAL_BYTES) /\ s' = advance x s.
Proof.
  intros Hu Ht. unfold extract_entry, entry_of. destruct next as [e|]; simpl; [|split; [discriminate|by intros (? & ? & _)]].
  destruct (Nat.ltb_spec MAX_ENTRIES (S (count s))); [split; [discriminate|]; intros (x & _ & Hc & _); lia|].
  destruct (te_path e) as [raw|]; simpl; [|split; [discriminate|by intros (? & ? & _)]].
  destruct (normalized_archive_path raw) as [p|]; simpl; [|split; [discriminate|by intros (? & ? & _)]].
  assert (Hx : forall P : list string * tar_entry -> Prop, (exists x, Some (p, e) = Some x /\ (count s < MAX_ENTRIES)%nat /\ P x) <-> P (p, e)).
  { intros P. split; [by intros (x & [= <-] & _ & Hp)|]. intros Hp. exists (p, e). split; [done|]. split; [lia|done]. }
  rewrite Hx. unfold advance, plain, is_root. cbn [fst snd]. simpl in Hu. clear Hx.
  destruct p as [|part p]; [rewrite bool_decide_true by done|rewrite bool_decide_false by done].
  { destruct (te_type e); (split; [|by intros (? & _ & ->)]); try discriminate. intros [= <-]. done. }
  set (q := part :: p). destruct (bool_decide_reflect (q ∈ seen s)); [split; [discriminate|]; intros (_ & Hf & _); by destruct (Hf eq_refl)|].
  destruct (is_allowed_backup_path q); simpl; [|split; [discriminate|]; by intros ((? & _) & _)].
  unfold checked_add_u64, MAX_ENTRY_BYTES, MAX_TOTAL_BYTES in *.
  destruct (te_type e) eqn:Ety; [| |split; [discriminate|]; by intros ((_ & ? & _) & _)];
    (destruct (Z.ltb_spec (32 * 1024 * 1024) (te_size e)); [split; [discriminate|]; intros ((_ & _ & ? & _) & _); lia|]);
    (destruct (Z.ltb_spec (total_bytes s + te_size e) (2 ^ 64)) as [?|Hbig]; [|exfalso; change (2 ^ 64) with 18446744073709551616 in Hbig; lia]); simpl;
    (destruct (Z.ltb_spec (64 * 1024 * 1024) (total_bytes s + te_size e)); [split; [discriminate|]; intros (_ & Hf & _); destruct (Hf eq_refl); lia|]);
    (destruct (te_unpack e) as [[|]|]; [|split; [discriminate|]; by intros ((_ & _ & _ & ?) & _)..]);
    (split; [intros [= <-]|by intros (_ & _ & ->)]); repeat split; done.
Qed.

Lemma acceptable_cons next l es already room left :
  acceptable (next :: l) es already room left <->
  exists x es' room', es = x :: es' /\ room = S room' /\ entry_of next = Some x /\ plain x /\
    (is_root x = false -> fst x ∉ already) /\
    acceptable l es' (if is_root x then already else {[fst x]} ∪ already) room' (if is_root x then left else left - te_size (snd x)).
Proof.
  split.
  - intros [Hr Hc Hp Hu Hf Hs]. simpl in Hr, Hc. destruct (entry_of next) as [x|]; [|discriminate].
    destruct (entries_of l) as [es'|] eqn:El; [|discriminate]. injection Hr as <-. destruct room as [|room']; [lia|].
    exists x, es', room'. inversion Hp. subst. unfold payload in *. simpl in *. destruct (is_root x); simpl in *.
    + repeat split; try done; unfold payload; try done; lia.
    + inversion Hu as [|? ? Hn Hu']. inversion Hf as [|? ? Hf1 Hf2]. subst. repeat split; try done; unfold payload; try lia.
      apply List.Forall_forall. intros y Hy. apply (proj1 (List.Forall_forall _ _) Hf2) in Hy as Hny.
      rewrite not_elem_of_union, not_elem_of_singleton. split; [|done]. intros Heq. apply Hn. rewrite <- Heq. by apply in_map.
  - intros (x & es' & room' & -> & -> & Hx & Hpl & Hfx & [Hr Hc Hp Hu Hf Hs]).
    constructor; simpl; rewrite ?Hx, ?Hr; try done; [lia|by constructor|..]; unfold payload in *; simpl; destruct (is_root x); simpl in *; try done; try lia.
    + constructor; [|done]. intros Hin. apply in_map_iff in Hin as (y & Heq & Hy). apply (proj1 (List.Forall_forall _ _) Hf) in Hy.
      rewrite not_elem_of_union, not_elem_of_singleton in Hy. by destruct Hy.
    + constructor; [by apply Hfx|]. eapply Forall_impl; [exact Hf|]. intros y. simpl. rewrite not_elem_of_union. tauto.
Qed.

Lemma contents_payload x es d : (is_root x = false -> ~ In (fst x) (map fst (payload es))) ->
  contents (payload (x :: es)) ∪ d = contents (payload es) ∪ (if is_root x then d else <[fst x := staged_node (snd x)]> d).
Proof.
  intros Hn. unfold payload. simpl. destruct (is_root x); simpl; [done|]. specialize (Hn eq_refl). fold (payload es).
  unfold contents. simpl. rewrite <- insert_union_l. rewrite insert_union_r; [done|].
  apply not_elem_of_list_to_map. rewrite <- list_fmap_compose. simpl. intros Hin. apply Hn. apply list_elem_of_In in Hin. exact Hin.
Qed.

Lemma advance_acceptable x s l es :
  acceptable l es (seen (advance x s)) (MAX_ENTRIES - count (advance x s)) (MAX_TOTAL_BYTES - total_bytes (advance x s)) <->
  acceptable l es (if is_root x then seen s else {[fst x]} ∪ seen s) (MAX_ENTRIES - S (count s))
    (if is_root x then MAX_TOTAL_BYTES - total_bytes s else MAX_TOTAL_BYTES - total_bytes s - te_size (snd x)).
Proof. unfold advance. destruct (is_root x); simpl; [done|]. by rewrite Z.sub_add_distr. Qed.

Lemma advance_bounds next x s : u64_size next -> entry_of next = Some x -> (count s < MAX_ENTRIES)%nat -> 0 <= total_bytes s <= MAX_TOTAL_BYTES ->
  (is_root x = false -> total_bytes s + te_size (snd x) <= MAX_TOTAL_BYTES) ->
  (count (advance x s) <= MAX_ENTRIES)%nat /\ 0 <= total_bytes (advance x s) <= MAX_TOTAL_BYTES.
Proof.
  unfold entry_of, advance. intros Hu He Hc Ht Hs. destruct next as [e|]; [|discriminate]. destruct (te_path e); [|discriminate].
  destruct (normalized_archive_path _); [|discriminate]. injection He as <-. simpl in Hu. destruct (is_root _); simpl in *; [lia|].
  specialize (Hs eq_refl). lia.
Qed.

Lemma advance_dir x l es s already room left : acceptable l (x :: es) already room left ->
  contents (payload es) ∪ dir (advance x s) = contents (payload (x :: es)) ∪ dir s.
Proof.
  intros [_ _ _ Hu _ _]. rewrite contents_payload.
  - unfold advance. by destruct (is_root x).
  - intros Hr Hin. unfold payload in Hu. simpl in Hu. rewrite Hr in Hu. simpl in Hu. by inversion Hu.
Qed.

Lemma extract_entries_iff l : Forall u64_size l -> forall s d, (count s <= MAX_ENTRIES)%nat -> 0 <= total_bytes s <= MAX_TOTAL_BYTES ->
  (exists s', extract_entries l s = Ok s' /\ dir s' = d) <->
  exists es, acceptable l es (seen s) (MAX_ENTRIES - count s) (MAX_TOTAL_BYTES - total_bytes s) /\ d = contents (payload es) ∪ dir s.
Proof.
  induction 1 as [|next l Hu Hl IH]; intros s d Hc Ht; simpl.
  - unfold contents. split.
    + intros (s' & [= <-] & <-). exists []. split; [constructor; simpl; try constructor; try done; lia|]. simpl. by rewrite (left_id_L ∅ _).
    + intros (es & [Hr _ _ _ _ _] & ->). injection Hr as <-. exists s. split; [done|]. simpl. by rewrite (left_id_L ∅ _).
  - split.
    + intros (s' & E & <-). destruct (extract_entry next s) as [s1|] eqn:E1; [|discriminate]. simpl in E.
      apply extract_entry_iff in E1 as (x & Hx & Hlt & Hpl & Hroom & ->); [|done|done].
      destruct (advance_bounds next x s) as [Hc1 Ht1]; [done|done|done|done|intros Hr; by destruct (Hroom Hr)|].
      destruct (proj1 (IH _ (dir s') Hc1 Ht1) (ex_intro _ s' (conj E eq_refl))) as (es & Hacc & ->).
      rewrite advance_acceptable in Hacc. assert (Hall : acceptable (next :: l) (x :: es) (seen s) (MAX_ENTRIES - count s) (MAX_TOTAL_BYTES - total_bytes s)).
      { apply acceptable_cons. exists x, es, (MAX_ENTRIES - S (count s))%nat. split; [done|]. split; [lia|]. split; [done|]. split; [done|].
        split; [|done]. intros Hr. by destruct (Hroom Hr). }
      exists (x :: es). split; [done|]. by eapply advance_dir.
    + intros (es0 & Hall & ->). pose proof Hall as Hcons. apply acceptable_cons in Hcons as (x & es & room' & -> & Hroom & Hx & Hpl & Hf & Hacc).
      assert (Hlt : (count s < MAX_ENTRIES)%nat) by lia. replace room' with (MAX_ENTRIES - S (count s))%nat in Hacc by lia.
      pose proof (sizes_nonneg l es Hl (acc_read _ _ _ _ _ Hacc)) as Hnn. pose proof (acc_size _ _ _ _ _ Hacc) as Hsz.
      assert (Hfit : is_root x = false -> total_bytes s + te_size (snd x) <= MAX_TOTAL_BYTES) by (intros Hr; rewrite Hr in Hsz; lia).
      destruct (advance_bounds next x s) as [Hc1 Ht1]; [done..|]. apply advance_acceptable in Hacc.
      destruct (proj2 (IH _ (contents (payload es) ∪ dir (advance x s)) Hc1 Ht1)) as (s' & E & Hd); [by exists es|].
      exists s'. split; [|by rewrite Hd; eapply advance_dir].
      assert (E1 : extract_entry next s = Ok (advance x s)) by (apply extract_entry_iff; [done|done|]; exists x; auto 10).
      by rewrite E1.
Qed.

Lemma extract_iff l st : Forall u64_size l -> extract_validated_backup (Some l) = Ok st <->
  exists es, acceptable l es ∅ MAX_ENTRIES MAX_TOTAL_BYTES /\ st = contents (payload es).
Proof.
  intros Hu. unfold extract_validated_backup. simpl.
  pose proof (extract_entries_iff l Hu {| seen := ∅; total_bytes := 0; count := 0; dir := ∅ |} st) as Hiff. simpl in Hiff.
  rewrite Z.sub_0_r in Hiff. setoid_rewrite (right_id_L ∅ _) in Hiff. rewrite <- Hiff by (unfold MAX_TOTAL_BYTES; lia).
  destruct (extract_entries _ _) as [s'|e]; simpl; split.
  - intros [= <-]. by exists s'.
  - by intros (? & [= <-] & <-).
  - discriminate.
  - by intros (? & ? & _).
Qed.

(** C15: What may come out of a backup archive.  Extraction succeeds exactly
    for the archives of at most 32 readable entries in which every path is
    free of [..] and of a leading slash, every entry but a root directory is a
    plain file or directory, named [deployment.toml], by the manifest or as a
    directory of the manifest, and at most 32 MiB long, no path comes twice,
    and all sizes together are at most 64 MiB; and what is then staged is
    exactly the content of those entries under those paths, nothing more. *)
Theorem extraction_confined l st : Forall u64_size l ->
  extract_validated_backup (Some l) = Ok st <->
  exists es, acceptable l es ∅ MAX_ENTRIES MAX_TOTAL_BYTES /\ st = contents (payload es).
Proof. apply extract_iff. Qed.

(** Nothing is ever staged outside this list. *)
Lemma staged_paths_listed l st p n : Forall u64_size l -> extract_validated_backup (Some l) = Ok st -> st !! p = Some n ->
  In p (["deployment.toml"] :: BACKUP_MANIFEST ++ [["users"]; ["reality"]; ["hysteria"]]).
Proof.
  intros Hu E Hp. apply extract_iff in E as (es & [_ _ Hpl _ _ _] & ->); [|done].
  apply elem_of_list_to_map_2, list_elem_of_In, in_map_iff in Hp as ([q e] & [= -> _] & Hin). apply filter_In in Hin as [Hin Hr].
  apply (proj1 (List.Forall_forall _ _) Hpl) in Hin. unfold plain in Hin. apply negb_true_iff in Hr. rewrite Hr in Hin. destruct Hin as [Ha _].
  clear -Ha. unfold is_allowed_backup_path, path_eqb, is_parent, BACKUP_MANIFEST in *. simpl in *.
  repeat (apply orb_prop in Ha as [Ha|Ha]; [try (apply orb_prop in Ha as [Ha|Ha]); apply bool_decide_eq_true in Ha; subst; simpl; tauto|]). discriminate.
Qed.

Definition ex_entry (p : string) (ty : tar_type) (bytes : string) : option tar_entry :=
  Some {| te_path := Some p; te_type := ty; te_size := slen bytes; te_bytes := bytes; te_unpack := Some true |}.
Definition ex_archive : list (option tar_entry) :=
  [ex_entry "./" TarDir ""; ex_entry "./users" TarDir ""; ex_entry "./users/users.json" TarFile "[]";
   ex_entry "./reality/private.key" TarFile "key"; ex_entry "./reality/public.key" TarFile "key"; ex_entry "./reality/short_id.txt" TarFile "0a1b"].

Lemma extraction_confined_witness :
  exists es, acceptable ex_archive es ∅ MAX_ENTRIES MAX_TOTAL_BYTES /\ contents (payload es) !! ["reality"; "private.key"] = Some (StagedFile "key").
Proof.
  assert (Hv : match extract_validated_backup (Some ex_archive) with Ok st => st !! ["reality"; "private.key"] | Err _ => None end = Some (StagedFile "key"))
    by (vm_compute; reflexivity).
  destruct (extract_validated_backup (Some ex_archive)) as [st|e] eqn:E; [|discriminate Hv].
  apply extraction_confined in E as (es & Hacc & ->); [|repeat apply List.Forall_cons; try apply List.Forall_nil; vm_compute; (split; [intros [=]|reflexivity])].
  exists es. split; [exact Hacc|exact Hv].
Defined.

(** The same archive with a link, a parent path or a second copy is refused. *)
Example hostile_archives_refused :
  map (fun x => is_ok (extract_validated_backup (Some (ex_archive ++ [x]))))
    [ex_entry "hysteria/key.pem" TarOther ""; ex_entry "users/../../etc/passwd" TarFile ""; ex_entry "/etc/passwd" TarFile "";
     ex_entry "users/users.json" TarFile ""; ex_entry "users/other" TarFile ""] = [false; false; false; false; false].
Proof. vm_compute. reflexivity. Qed.
End Archive.
