(* ===== verification/LeasePool.v ===== *)
(** * apps/provisioning-agent/src/lease_pool.rs

    The node-side lease pool: slot minting on the batch grid, the rotation and
    renewal decisions, the pool plan, the control-plane sync, and the tick that
    orders persistence, apply and report.

    Random material is an argument ([draw], what the generators returned for a
    slot's mint), as are the clock readings and the outcomes of file, process
    and network operations.  Timestamps are [i64] and wrap where the code adds
    or subtracts unchecked. *)

From S2P Require Import Prelude Strs Authorization Credentials Json.
From Stdlib Require Import Ascii.

Module LeasePool.
Import Creds.

Definition MAX_POOL_SIZE : Z := 1024.
Definition DEFAULT_BATCH_SECS : Z := 600.
Definition DEFAULT_MIN_REMAINING_SECS : Z := 600.

Record Slot := {
  slot : Z;
  generation : Z;
  valid_until : Z;
  principal_id : string;
  credential_id : string;
  class : Authz.CredentialClass;
  valid_from : Z;
  revoked : bool;
  vless_uuid : string;
  hysteria2_password : string;
  reported : bool }.

#[global] Instance Slot_eq_dec : EqDecision Slot.
Proof. solve_decision. Defined.

Record LeaseState := { slots : list Slot; applied : bool; last_rotation_at : Z }.

#[global] Instance LeaseState_eq_dec : EqDecision LeaseState.
Proof. solve_decision. Defined.

Record RemoteSlot := {
  r_generation : Z; r_state : string; r_urgent : bool; r_extend_to : option Z }.

(** The [HashMap] of the remote view, as the function [get]. *)
Record RemoteView := {
  as_of : Z; min_remaining : Z; r_slots : gmap Z RemoteSlot }.

(** ** The grid *)

Definition round_down_to_grid (t grid : Z) : Z := wrap_i64 (t / grid * grid).

Definition clamp_batch_interval (secs : Z) : Z := clamp 60 DEFAULT_BATCH_SECS secs.

Definition lifetime_floor (grid : Z) : Z := Z.max (DEFAULT_MIN_REMAINING_SECS + grid + 60) 900.
Definition clamp_lifetime (secs grid : Z) : Z :=
  clamp (lifetime_floor grid) Authz.NATIVE_LEASE_SECS (wrap_i64 secs).

(** ** Minting *)

(** What the generators return for one mint. *)
Record fresh := {
  f_principal : string; f_credential : string; f_uuid : string; f_password : string }.

Definition mint (f : fresh) (slot generation now lifetime grid : Z) : Slot :=
  {| slot := slot; generation := generation;
     valid_until := round_down_to_grid (wrap_i64 (now + lifetime)) grid;
     principal_id := f_principal f; credential_id := f_credential f; class := Authz.Native;
     valid_from := now; revoked := false; vless_uuid := f_uuid f;
     hysteria2_password := f_password f; reported := false |}.

(** ** Rotation decisions *)

Inductive Why := Expired | Urgent | Deferrable.

#[global] Instance Why_eq_dec : EqDecision Why.
Proof. solve_decision. Defined.

Definition candidate (remote : option RemoteView) (now : Z) (s : Slot) : option (Z * Why) :=
  let min_remaining :=
    match remote with Some r => min_remaining r | None => DEFAULT_MIN_REMAINING_SECS end in
  if valid_until s <=? now then Some (slot s, Expired) else
  let leasable_until := wrap_i64 (valid_until s - min_remaining) in
  if negb (reported s) && (leasable_until <=? now) then Some (slot s, Deferrable) else
  match remote with
  | None => None
  | Some r =>
      match r_slots r !! slot s with
      | Some rs =>
          if r_generation rs =? generation s then
            if String.eqb (r_state rs) "revoked"
            then Some (slot s, if r_urgent rs then Urgent else Deferrable)
            else if String.eqb (r_state rs) "active" && (leasable_until <=? as_of r)
            then Some (slot s, Deferrable)
            else None
          else None
      | None => None
      end
  end.

Definition rotation_candidates (state : LeaseState) (remote : option RemoteView) (now : Z)
  : list (Z * Why) :=
  omap (candidate remote now) (slots state).

Definition slots_to_rotate (state : LeaseState) (remote : option RemoteView) (now grid : Z)
  : list Z :=
  let candidates := rotation_candidates state remote now in
  let forced := existsb (fun c => negb (bool_decide (snd c = Deferrable))) candidates in
  let boundary_passed := last_rotation_at state / grid <? now / grid in
  if forced || (negb (bool_decide (candidates = [])) && boundary_passed)
  then map fst candidates else [].

(** ** Renewal *)

Definition extend (s : Slot) (now next : Z) : Slot :=
  {| slot := slot s; generation := generation s; valid_until := next;
     principal_id := principal_id s; credential_id := credential_id s; class := class s;
     valid_from := now; revoked := false; vless_uuid := vless_uuid s;
     hysteria2_password := hysteria2_password s; reported := reported s |}.

(** One iteration of the loop: the slot and whether it was extended. *)
Definition adopt_one (remote : RemoteView) (now cap grid : Z) (s : Slot) : Slot * bool :=
  match r_slots remote !! slot s with
  | None => (s, false)
  | Some rs =>
      if negb (r_generation rs =? generation s) || negb (String.eqb (r_state rs) "leased")
         || (valid_until s <=? now)
      then (s, false)
      else match r_extend_to rs with
           | Some t =>
               let next := Z.min (round_down_to_grid t grid) cap in
               if valid_until s <? next then (extend s now next, true) else (s, false)
           | None => (s, false)
           end
  end.

Definition adopt_extensions (state : LeaseState) (remote : RemoteView) (now lifetime grid : Z)
  : LeaseState * Z :=
  let cap := round_down_to_grid (wrap_i64 (now + lifetime)) grid in
  let rs := map (adopt_one remote now cap grid) (slots state) in
  let n := Z.of_nat (length (List.filter snd rs)) in
  ({| slots := map fst rs; applied := if 0 <? n then false else applied state;
      last_rotation_at := last_rotation_at state |}, n).

(** ** The plan *)

Definition with_principal (s : Slot) (p : string) : Slot :=
  {| slot := slot s; generation := generation s; valid_until := valid_until s;
     principal_id := p; credential_id := credential_id s; class := class s;
     valid_from := valid_from s; revoked := revoked s; vless_uuid := vless_uuid s;
     hysteria2_password := hysteria2_password s; reported := reported s |}.

Definition wrap_u64 (z : Z) : Z := z mod 2 ^ 64.

Definition rotate_slot (f : fresh) (existing : Slot) (now lifetime grid : Z) : Slot :=
  with_principal (mint f (slot existing) (wrap_u64 (generation existing + 1)) now lifetime grid)
                 (principal_id existing).

(** [iter_mut().find(..)]: replace the first slot with the number. *)
Fixpoint replace_first (n : Z) (g : Slot -> Slot) (l : list Slot) : list Slot :=
  match l with
  | [] => []
  | s :: l' => if slot s =? n then g s :: l' else s :: replace_first n g l'
  end.

Definition plan_step (draw : Z -> fresh) (rotate : list Z) (now lifetime grid : Z)
  (acc : list Slot * bool) (n : Z) : list Slot * bool :=
  let '(l, changed) := acc in
  match List.find (fun s => slot s =? n) l with
  | Some existing =>
      if existsb (Z.eqb n) rotate
      then (replace_first n (fun e => rotate_slot (draw n) e now lifetime grid) l, true)
      else (l, changed)
  | None => (l ++ [mint (draw n) n 1 now lifetime grid], true)
  end.

(** [0..size as u32] *)
Definition range_u32 (size : Z) : list Z := map Z.of_nat (seq 0 (Z.to_nat size)).

Definition plan (draw : Z -> fresh) (state : LeaseState) (size : Z) (rotate : list Z)
  (now lifetime grid : Z) : LeaseState * bool :=
  let size := Z.min size MAX_POOL_SIZE in
  let kept := List.filter (fun s => slot s <? size) (slots state) in
  let changed := negb (length kept =? length (slots state))%nat in
  let '(l, changed) :=
    fold_left (plan_step draw rotate now lifetime grid) (range_u32 size) (kept, changed) in
  ({| slots := sort_by_key slot l; applied := if changed then false else applied state;
      last_rotation_at := last_rotation_at state |}, changed).

(** [load_state]'s migration of a legacy record. *)
Definition migrate_slot (f : fresh) (s : Slot) : Slot :=
  {| slot := slot s; generation := generation s; valid_until := valid_until s;
     principal_id := if str_is_empty (principal_id s) then f_principal f else principal_id s;
     credential_id := if str_is_empty (credential_id s) then f_credential f else credential_id s;
     class := class s;
     valid_from := if valid_from s =? 0
                   then wrap_i64 (valid_until s - Authz.NATIVE_LEASE_SECS) else valid_from s;
     revoked := revoked s; vless_uuid := vless_uuid s;
     hysteria2_password := hysteria2_password s; reported := reported s |}.

(** [decoded]: what reading the file gave ([None]: not found). *)
Definition load_state (draw : Z -> fresh) (decoded : option LeaseState) : LeaseState :=
  match decoded with
  | Some state =>
      {| slots := map (fun s => migrate_slot (draw (slot s)) s) (slots state);
         applied := applied state; last_rotation_at := last_rotation_at state |}
  | None => {| slots := []; applied := false; last_rotation_at := 0 |}
  end.

(** ** Documents *)

(** [vpn_admin_input]: the slot set handed to [vpn-admin lease-pool sync]. *)
Record AdminSlot := {
  a_slot : Z; a_principal_id : string; a_credential_id : string;
  a_class : Authz.CredentialClass; a_valid_from : Z; a_revoked : bool;
  a_vless_uuid : string; a_hysteria2_password : string; a_expires_at : Z }.

Definition admin_slot (s : Slot) : AdminSlot :=
  {| a_slot := slot s; a_principal_id := principal_id s; a_credential_id := credential_id s;
     a_class := class s; a_valid_from := valid_from s; a_revoked := revoked s;
     a_vless_uuid := vless_uuid s; a_hysteria2_password := hysteria2_password s;
     a_expires_at := valid_until s |}.
Definition vpn_admin_input (state : LeaseState) : list AdminSlot := map admin_slot (slots state).

Inductive tick_error :=
| SaveFailed | ApplyFailed | NotLive | SyncFailed
| Rfc3339Format | MissingAsOf | BadAsOf | BadExtendTo.

Definition class_name (c : Authz.CredentialClass) : string :=
  match c with Authz.Native => "native" | Authz.Compatibility => "compatibility" end.

Section Documents.
Context {V : Type} `{HJ : JsonOps V}.
(** RFC 3339 formatting and parsing of the [time] crate. *)
Context (format3339 : Z -> option string) (parse3339 : string -> option Z).

Definition rfc3339 (t : Z) : result string tick_error := ok_or (format3339 t) Rfc3339Format.

Definition sync_item (s : Slot) : result V tick_error :=
  let? from := rfc3339 (valid_from s) in
  let? until := rfc3339 (valid_until s) in
  Ok (jobj ([("slot", jint (slot s)); ("generation", jint (generation s));
             ("principal_id", jstr (principal_id s)); ("credential_id", jstr (credential_id s));
             ("class", jstr (class_name (class s))); ("valid_from", jstr from);
             ("revoked", jbool (revoked s)); ("valid_until", jstr until)]
            ++ (if reported s then []
                else [("vless_uuid", jstr (vless_uuid s));
                      ("hysteria2_password", jstr (hysteria2_password s))]))).

Fixpoint sync_items (l : list Slot) : result (list V) tick_error :=
  match l with
  | [] => Ok []
  | s :: l' =>
      let? v := sync_item s in
      let? vs := sync_items l' in
      Ok (v :: vs)
  end.

Definition sync_body (state : LeaseState) (obfs : option string) (lifetime grid : Z)
  : result V tick_error :=
  let? items := sync_items (slots state) in
  Ok (jobj ([("slots", jarr items);
             ("policy", jobj [("rotation_batch_interval_secs", jint grid);
                              ("slot_lifetime_secs", jint lifetime)])]
            ++ match obfs with Some p => [("hysteria2_obfs_password", jstr p)] | None => [] end)).

(** [slot as u32] *)
Definition as_u32 (z : Z) : Z := z mod 2 ^ 32.

Definition absorb_item (m : gmap Z RemoteSlot) (item : V) : result (gmap Z RemoteSlot) tick_error :=
  match get_u64 item "slot", get_u64 item "generation", get_str item "state" with
  | Some slot, Some generation, Some st =>
      let? extend_to :=
        match get_str item "extend_to" with
        | Some t => let? u := ok_or (parse3339 t) BadExtendTo in Ok (Some u)
        | None => Ok None
        end in
      Ok (<[as_u32 slot := {| r_generation := generation; r_state := st;
                              r_urgent := bool_decide (get_bool item "urgent" = Some true);
                              r_extend_to := extend_to |}]> m)
  | _, _, _ => Ok m
  end.

Fixpoint absorb_items (m : gmap Z RemoteSlot) (items : list V)
  : result (gmap Z RemoteSlot) tick_error :=
  match items with
  | [] => Ok m
  | i :: items' => let? m' := absorb_item m i in absorb_items m' items'
  end.

(** The control plane stored this generation of the slot. *)
Definition known (m : gmap Z RemoteSlot) (s : Slot) : bool :=
  match m !! slot s with Some r => r_generation r =? generation s | None => false end.
Definition known_revoked (m : gmap Z RemoteSlot) (s : Slot) : bool :=
  match m !! slot s with
  | Some r => (r_generation r =? generation s) && String.eqb (r_state r) "revoked"
  | None => false
  end.

Definition absorb_slot (m : gmap Z RemoteSlot) (s : Slot) : Slot :=
  {| slot := slot s; generation := generation s; valid_until := valid_until s;
     principal_id := principal_id s; credential_id := credential_id s; class := class s;
     valid_from := valid_from s; revoked := known_revoked m s; vless_uuid := vless_uuid s;
     hysteria2_password := hysteria2_password s; reported := known m s |}.

Definition absorb_sync_response (state : LeaseState) (resp : V)
  : result (LeaseState * RemoteView) tick_error :=
  let? as_of_s := ok_or (get_str resp "as_of") MissingAsOf in
  let? as_of := ok_or (parse3339 as_of_s) BadAsOf in
  let min_remaining :=
    match get_i64 resp "min_remaining_seconds" with
    | Some z => z | None => DEFAULT_MIN_REMAINING_SECS end in
  let? m := absorb_items ∅ (match get_array resp "slots" with Some l => l | None => [] end) in
  Ok ({| slots := map (absorb_slot m) (slots state); applied := applied state;
         last_rotation_at := last_rotation_at state |},
      {| as_of := as_of; min_remaining := min_remaining; r_slots := m |}).

(** ** The tick *)

Record Config := {
  lease_pool_size : Z; rotation_batch_interval_secs : Z; lease_slot_lifetime_secs : Z }.

Record Pool := {
  state : LeaseState;
  remote : option RemoteView;
  obfs_password : option string;
  obfs_reported : bool;
  applied_this_process : bool }.

(** What the tick leaves behind outside the process: the state file, the slot
    set the running sing-box was last proven to hold ([None]: unknown, after an
    apply that did not prove itself), and the sync requests sent. *)
Record World := {
  disk : option LeaseState;
  live : option (list AdminSlot);
  sent : list (list Slot) }.

(** Outcomes of the effects of one tick, in the order the code performs them. *)
Record Env := {
  now1 : Z;
  draw : Z -> fresh;
  save_planned : bool;
  apply_reply : option V;      (** [None]: vpn-admin failed or timed out *)
  save_applied : bool;
  sync_due : bool;
  sync_reply : option V;       (** [None]: the request failed *)
  now2 : Z;
  save_synced : bool }.

Definition set_state (p : Pool) (s : LeaseState) : Pool :=
  {| state := s; remote := remote p; obfs_password := obfs_password p;
     obfs_reported := obfs_reported p; applied_this_process := applied_this_process p |}.

(** Atomic replace: a failed save leaves the old file. *)
Definition save (ok : bool) (s : LeaseState) (w : World) : World * result unit tick_error :=
  if ok then ({| disk := Some s; live := live w; sent := sent w |}, Ok tt)
  else (w, Err SaveFailed).

Definition mark_applied (s : LeaseState) : LeaseState :=
  {| slots := slots s; applied := true; last_rotation_at := last_rotation_at s |}.

Definition apply (e : Env) (p : Pool) (w : World) : Pool * World * result unit tick_error :=
  let unknown := {| disk := disk w; live := None; sent := sent w |} in
  match apply_reply e with
  | None => (p, unknown, Err ApplyFailed)
  | Some parsed =>
      if negb (bool_decide (get_bool parsed "live" = Some true)) then (p, unknown, Err NotLive) else
      let obfs := get_str parsed "hysteria2_obfs_password" in
      let s := mark_applied (state p) in
      let p := {| state := s; remote := remote p; obfs_password := obfs;
                  obfs_reported := if bool_decide (obfs = obfs_password p)
                                   then obfs_reported p else false;
                  applied_this_process := true |} in
      let w := {| disk := disk w; live := Some (vpn_admin_input s); sent := sent w |} in
      let '(w, r) := save (save_applied e) s w in (p, w, r)
  end.

(** From the plan to the apply: the local half of the tick. *)
Definition tick_local (cfg : Config) (e : Env) (p : Pool) (w : World)
  : Pool * World * result bool tick_error :=
  let grid := clamp_batch_interval (rotation_batch_interval_secs cfg) in
  let lifetime := clamp_lifetime (lease_slot_lifetime_secs cfg) grid in
  let rotate := slots_to_rotate (state p) (remote p) (now1 e) grid in
  let st := {| slots := slots (state p); applied := applied (state p);
               last_rotation_at := match rotate with [] => last_rotation_at (state p)
                                   | _ => now1 e end |} in
  let '(st, changed) := plan (draw e) st (lease_pool_size cfg) rotate (now1 e) lifetime grid in
  let p := set_state p st in
  let '(w, r) := if changed then save (save_planned e) st w else (w, Ok tt) in
  match r with
  | Err x => (p, w, Err x)
  | Ok _ =>
      if negb (applied (state p)) || negb (applied_this_process p) then
        let '(p, w, r) := apply e p w in
        match r with Err x => (p, w, Err x) | Ok _ => (p, w, Ok true) end
      else (p, w, Ok changed)
  end.

(** Report and absorb: the network half. *)
Definition tick_sync (cfg : Config) (e : Env) (p : Pool) (w : World)
  : Pool * World * result unit tick_error :=
  let grid := clamp_batch_interval (rotation_batch_interval_secs cfg) in
  let lifetime := clamp_lifetime (lease_slot_lifetime_secs cfg) grid in
  let obfs := if obfs_reported p then None else obfs_password p in
  match sync_body (state p) obfs lifetime grid with
  | Err x => (p, w, Err x)
  | Ok _ =>
      let w := {| disk := disk w; live := live w; sent := slots (state p) :: sent w |} in
      match sync_reply e with
      | None => (p, w, Err SyncFailed)
      | Some resp =>
          match absorb_sync_response (state p) resp with
          | Err x => (p, w, Err x)
          | Ok (st, view) =>
              let '(st, _) := adopt_extensions st view (now2 e) lifetime grid in
              let before := state p in
              let p := {| state := st; remote := Some view; obfs_password := obfs_password p;
                          obfs_reported :=
                            if bool_decide (get_bool resp "obfs_stored" = Some true)
                               || negb (bool_decide (is_Some (obfs_password p)))
                            then true else obfs_reported p;
                          applied_this_process := applied_this_process p |} in
              if bool_decide (st = before) then (p, w, Ok tt)
              else let '(w, r) := save (save_synced e) st w in (p, w, r)
          end
      end
  end.

Definition tick (cfg : Config) (e : Env) (p : Pool) (w : World)
  : Pool * World * result unit tick_error :=
  let '(p, w, r) := tick_local cfg e p w in
  match r with
  | Err x => (p, w, Err x)
  | Ok dirty =>
      if (lease_pool_size cfg =? 0) && bool_decide (slots (state p) = []) then (p, w, Ok tt) else
      if negb (sync_due e || dirty) then (p, w, Ok tt) else
      tick_sync cfg e p w
  end.

End Documents.

(** ** The grid and the mint *)

(** A clock reading far from the [i64] limits. *)
Definition sane_time (t : Z) : Prop := 0 <= t <= 2 ^ 61.

Lemma wrap_small62 z : - 2 ^ 62 <= z <= 2 ^ 62 -> wrap_i64 z = z.
Proof. intros. apply wrap_i64_id. unfold in_i64, i64_min, i64_max. lia. Qed.

Lemma round_down_spec t grid : 0 < grid <= 2 ^ 61 -> - 2 ^ 61 <= t <= 2 ^ 62 ->
  round_down_to_grid t grid mod grid = 0 /\ t - grid < round_down_to_grid t grid <= t.
Proof.
  intros Hg Ht. pose proof (Z.div_mod t grid ltac:(lia)) as Hd.
  pose proof (Z.mod_pos_bound t grid ltac:(lia)). unfold round_down_to_grid.
  rewrite wrap_small62 by lia. rewrite Z.mod_mul by lia. lia.
Qed.

Lemma clamp_batch_bounds s : 60 <= clamp_batch_interval s <= 600.
Proof. apply clamp_bounds. unfold DEFAULT_BATCH_SECS. lia. Qed.

Lemma clamp_lifetime_bounds s g : 60 <= g <= 600 ->
  lifetime_floor g <= clamp_lifetime s g <= 1800 /\ lifetime_floor g <= 1800.
Proof.
  intros. unfold clamp_lifetime, lifetime_floor, Authz.NATIVE_LEASE_SECS, DEFAULT_MIN_REMAINING_SECS.
  pose proof (clamp_bounds (Z.max (600 + g + 60) 900) (30 * 60) (wrap_i64 s) ltac:(lia)). lia.
Qed.

(** For every configured interval and lifetime, the clamps never meet an
    inverted range, a freshly minted slot ends on the batch grid, at most 30
    minutes after it starts, and still has more than 60 seconds of leasable
    window left under the default minimum. *)
Theorem mint_window f n g now batch_secs lifetime_secs :
  sane_time now ->
  let grid := clamp_batch_interval batch_secs in
  let lifetime := clamp_lifetime lifetime_secs grid in
  let s := mint f n g now lifetime grid in
  lifetime_floor grid <= Authz.NATIVE_LEASE_SECS
  /\ valid_until s mod grid = 0
  /\ valid_from s < valid_until s <= valid_from s + Authz.NATIVE_LEASE_SECS
  /\ now + 60 < valid_until s - DEFAULT_MIN_REMAINING_SECS.
Proof.
  intros Hn grid lifetime s. unfold sane_time in Hn.
  pose proof (clamp_batch_bounds batch_secs) as Hg. fold grid in Hg.
  destruct (clamp_lifetime_bounds lifetime_secs grid Hg) as [Hl Hf]. fold lifetime in Hl.
  split; [exact Hf|]. unfold s, mint, Authz.NATIVE_LEASE_SECS, DEFAULT_MIN_REMAINING_SECS.
  cbn [valid_until valid_from]. unfold lifetime_floor, DEFAULT_MIN_REMAINING_SECS in Hl.
  rewrite wrap_small62 by lia.
  destruct (round_down_spec (now + lifetime) grid) as [Hm Hr]; [lia|lia|].
  split; [done|]. lia.
Qed.

(** ** Rotation *)

Definition expired (now : Z) (s : Slot) : Prop := valid_until s <= now.

(** The control plane reports the slot's current generation in [state]. *)
Definition remote_is (r : RemoteView) (s : Slot) (rs : RemoteSlot) : Prop :=
  r_slots r !! slot s = Some rs /\ r_generation rs = generation s.

Lemma candidate_expired r now s : expired now s -> candidate r now s = Some (slot s, Expired).
Proof. unfold candidate, expired. intros. by replace (valid_until s <=? now) with true by lia. Qed.

Lemma candidate_slot r now s c : candidate r now s = Some c -> fst c = slot s.
Proof. unfold candidate. intros H. repeat case_scrut; simplify_eq; done. Qed.

(** A slot the control plane knows under its current generation, unexpired,
    with a leasable window left or already reported. *)
Lemma candidate_known r rs now s :
  ~ expired now s -> reported s = true -> remote_is r s rs ->
  candidate (Some r) now s =
    if String.eqb (r_state rs) "revoked"
    then Some (slot s, if r_urgent rs then Urgent else Deferrable)
    else if String.eqb (r_state rs) "active" && (wrap_i64 (valid_until s - min_remaining r) <=? as_of r)
    then Some (slot s, Deferrable) else None.
Proof.
  unfold expired, candidate. intros He Hr [Hl Hg].
  replace (valid_until s <=? now) with false by lia. rewrite Hr, Hl, Hg, Z.eqb_refl. done.
Qed.

Lemma In_slots_to_rotate_forced st r now grid s w :
  In s (slots st) -> candidate r now s = Some (slot s, w) -> w <> Deferrable ->
  In (slot s) (slots_to_rotate st r now grid).
Proof.
  intros Hs Hc Hw. unfold slots_to_rotate.
  assert (Hin : In (slot s, w) (rotation_candidates st r now)).
  { unfold rotation_candidates. apply In_filter_map. eauto. }
  rewrite (proj2 (existsb_exists _ _)).
  - simpl. change (slot s) with (fst (slot s, w)). by apply in_map.
  - exists (slot s, w). split; [done|]. simpl. by rewrite bool_decide_false.
Qed.

Lemma In_slots_to_rotate st r now grid n :
  In n (slots_to_rotate st r now grid) ->
  exists s c, In s (slots st) /\ slot s = n /\ candidate r now s = Some c.
Proof.
  unfold slots_to_rotate. case_if; [|intros []]. rewrite in_map_iff. intros (c & <- & Hc).
  unfold rotation_candidates in Hc. apply In_filter_map in Hc as (s & Hs & Hc).
  exists s, c. split; [done|]. split; [|done]. symmetry. by eapply candidate_slot.
Qed.

(** Which slots a tick rotates.  An expired slot rotates at once, with or
    without a control plane, and so does an urgently revoked current
    generation; a reported, unexpired slot that the control plane holds as
    leased is never rotated; and when nothing is expired or urgent and the
    batch window of the last rotation is not over, nothing rotates. *)
Theorem rotation_policy st r now grid :
  List.NoDup (map slot (slots st)) ->
  (forall s, In s (slots st) -> expired now s -> In (slot s) (slots_to_rotate st r now grid))
  /\ (forall v s rs, r = Some v -> In s (slots st) -> reported s = true -> remote_is v s rs ->
        r_state rs = "revoked" -> r_urgent rs = true ->
        In (slot s) (slots_to_rotate st r now grid))
  /\ (forall v s rs, r = Some v -> In s (slots st) -> reported s = true -> remote_is v s rs ->
        ~ expired now s -> r_state rs = "leased" ->
        ~ In (slot s) (slots_to_rotate st r now grid))
  /\ ((forall s c, In s (slots st) -> candidate r now s = Some c -> snd c = Deferrable) ->
        now / grid <= last_rotation_at st / grid -> slots_to_rotate st r now grid = []).
Proof.
  intros Hnd. split; [|split; [|split]].
  - intros s Hs He. eapply In_slots_to_rotate_forced; [done|by apply candidate_expired|done].
  - intros v s rs -> Hs Hr Hrem Hst Hu. destruct (Z.le_gt_cases (valid_until s) now) as [He|He].
    + eapply In_slots_to_rotate_forced; [done|by apply candidate_expired|done].
    + eapply In_slots_to_rotate_forced; [done|..].
      * rewrite (candidate_known v rs) by (done || unfold expired; lia). rewrite Hst, Hu. done.
      * done.
  - intros v s rs -> Hs Hr Hrem He Hst Hin.
    apply In_slots_to_rotate in Hin as (s' & c & Hs' & Heq & Hc).
    assert (s' = s) as -> by (by eapply NoDup_map_inj).
    rewrite (candidate_known v rs) in Hc by done. by rewrite Hst in Hc.
  - intros Hd Hb. unfold slots_to_rotate.
    rewrite (proj2 (existsb_false_iff _ _)).
    + replace (_ <? _) with false by lia. by rewrite andb_false_r.
    + intros c Hc. unfold rotation_candidates in Hc. apply In_filter_map in Hc as (s & Hs & Hc).
      by rewrite (bool_decide_true _ (Hd s c Hs Hc)).
Qed.

(** ** Renewal *)

(** Adopting control-plane renewals never shortens a slot, never moves a
    slot's end past [now + lifetime] or off the grid, touches only unexpired
    slots whose current generation the control plane reports as leased with an
    extension, changes no identity, secret or generation, and asks for a new
    apply exactly when some slot changed. *)
Theorem adopt_extensions_safe st v now lifetime grid st' n :
  sane_time now -> 60 <= grid <= 600 -> 0 <= lifetime <= 1800 ->
  adopt_extensions st v now lifetime grid = (st', n) ->
  Forall2 (fun s s' =>
    s' = s \/
    (exists rs next, remote_is v s rs /\ r_state rs = "leased" /\ ~ expired now s
      /\ is_Some (r_extend_to rs) /\ s' = extend s now next
      /\ valid_until s < next <= now + lifetime))
    (slots st) (slots st')
  /\ (applied st' = true -> applied st = true /\ slots st' = slots st)
  /\ (n = 0 <-> slots st' = slots st).
Proof.
  unfold sane_time. intros Hn Hg Hl H. unfold adopt_extensions in H. injection H as <- <-.
  rewrite wrap_small62 by lia.
  destruct (round_down_spec (now + lifetime) grid) as [_ Hcap]; [lia|lia|].
  set (cap := round_down_to_grid _ _) in *.
  assert (Hone : forall s, let '(s', b) := adopt_one v now cap grid s in
    (b = false /\ s' = s) \/ (b = true /\ exists rs next, remote_is v s rs /\ r_state rs = "leased"
      /\ ~ expired now s /\ is_Some (r_extend_to rs) /\ s' = extend s now next
      /\ valid_until s < next <= now + lifetime)).
  { intros s. unfold adopt_one. destruct (r_slots v !! slot s) as [rs|] eqn:Er; [|by left].
    destruct (_ || _) eqn:Eg; [by left|]. apply orb_false_iff in Eg as [Eg E3].
    apply orb_false_iff in Eg as [E1 E2]. apply negb_false_iff in E1, E2.
    apply Z.eqb_eq in E1. apply String.eqb_eq in E2.
    destruct (r_extend_to rs) as [t|] eqn:Et; [|by left].
    destruct (_ <? Z.min _ _) eqn:En; [|by left]. right. split; [done|].
    exists rs, (Z.min (round_down_to_grid t grid) cap). unfold expired.
    split; [by split|]. split; [done|]. split; [lia|]. split; [by eexists|]. split; [done|lia]. }
  simpl. split.
  - clear -Hone. induction (slots st) as [|s l IH]; simpl; constructor; [|done].
    specialize (Hone s). destruct (adopt_one v now cap grid s) as [s' b].
    destruct Hone as [[_ ->]|[_ H]]; auto.
  - assert (Hz : Z.of_nat (length (List.filter snd (map (adopt_one v now cap grid) (slots st)))) = 0
      <-> map fst (map (adopt_one v now cap grid) (slots st)) = slots st).
    { clear -Hone. induction (slots st) as [|s l IH]; [done|]. specialize (Hone s). simpl.
      destruct (adopt_one v now cap grid s) as [s' b]. simpl.
      destruct Hone as [[-> ->]|(-> & rs & next & _ & _ & _ & _ & -> & Hlt)].
      - rewrite IH. split; [by intros ->|by intros [= ->]].
      - cbn [length]. split; [lia|]. intros [= Hx _]. exfalso.
        apply (f_equal valid_until) in Hx. simpl in Hx. lia. }
    split; [|exact Hz]. intros Ha.
    destruct (0 <? _) eqn:E in Ha; [discriminate|]. split; [done|]. apply Hz. lia.
Qed.

(** ** The plan *)

Definition lookup_slot (l : list Slot) (n : Z) : option Slot :=
  List.find (fun s => slot s =? n) l.

(** What the plan makes of slot [n]. *)
Definition planned (draw : Z -> fresh) (rotate : list Z) (now lifetime grid n : Z)
  (old : option Slot) : Slot :=
  match old with
  | Some e => if existsb (Z.eqb n) rotate then rotate_slot (draw n) e now lifetime grid else e
  | None => mint (draw n) n 1 now lifetime grid
  end.

Lemma lookup_slot_Some l n s : lookup_slot l n = Some s -> In s l /\ slot s = n.
Proof. unfold lookup_slot. intros H. apply List.find_some in H as [H1 H2]. split; [done|lia]. Qed.

Lemma lookup_slot_None l n : lookup_slot l n = None <-> ~ In n (map slot l).
Proof.
  unfold lookup_slot. rewrite find_none_iff, in_map_iff. split.
  - intros H (s & <- & Hs). specialize (H s Hs). lia.
  - intros H s Hs. destruct (slot s =? n) eqn:E; [|done]. destruct H. exists s. split; [lia|done].
Qed.

Lemma lookup_slot_app l l' n :
  lookup_slot (l ++ l') n = match lookup_slot l n with Some s => Some s | None => lookup_slot l' n end.
Proof.
  unfold lookup_slot. induction l as [|s l IH]; simpl; [done|]. by destruct (slot s =? n).
Qed.

Lemma replace_first_map n g l : (forall s, slot (g s) = slot s) ->
  map slot (replace_first n g l) = map slot l.
Proof.
  intros Hg. induction l as [|s l IH]; simpl; [done|].
  destruct (slot s =? n); simpl; by rewrite ?Hg, ?IH.
Qed.

Lemma lookup_replace_first n g l m : (forall s, slot (g s) = slot s) ->
  lookup_slot (replace_first n g l) m =
    if m =? n then option_map g (lookup_slot l n) else lookup_slot l m.
Proof.
  intros Hg. unfold lookup_slot. induction l as [|s l IH]; simpl; [by destruct (m =? n)|].
  destruct (Z.eqb_spec (slot s) n) as [E|E]; simpl.
  - rewrite Hg, E. destruct (Z.eqb_spec n m) as [->|Hm]; [by rewrite Z.eqb_refl|].
    by replace (m =? n) with false by lia.
  - rewrite IH. destruct (Z.eqb_spec (slot s) m) as [Em|Em]; [|done].
    by replace (m =? n) with false by lia.
Qed.

Section PlanLemmas.
Context (draw : Z -> fresh) (rotate : list Z) (now lifetime grid : Z).
Notation stepf := (plan_step draw rotate now lifetime grid).
Notation target := (planned draw rotate now lifetime grid).

Lemma plan_step_lookup l b n m :
  lookup_slot (fst (stepf (l, b) n)) m =
    if m =? n then Some (target n (lookup_slot l n)) else lookup_slot l m.
Proof.
  unfold plan_step. fold (lookup_slot l n). destruct (lookup_slot l n) as [e|] eqn:El.
  - cbn [planned]. destruct (lookup_slot_Some _ _ _ El) as [_ Hn].
    destruct (existsb (Z.eqb n) rotate) eqn:Er; cbn [fst].
    + rewrite lookup_replace_first by done. by rewrite El.
    + destruct (Z.eqb_spec m n) as [->|]; [done|done].
  - cbn [planned fst]. rewrite lookup_slot_app.
    destruct (Z.eqb_spec m n) as [->|Hm].
    + rewrite El. unfold lookup_slot. simpl. by rewrite Z.eqb_refl.
    + destruct (lookup_slot l m); [done|]. unfold lookup_slot. simpl.
      by replace (n =? m) with false by lia.
Qed.

Lemma plan_step_slots l b n :
  List.NoDup (map slot l) ->
  List.NoDup (map slot (fst (stepf (l, b) n)))
  /\ (forall m, In m (map slot (fst (stepf (l, b) n))) <-> In m (map slot l) \/ m = n).
Proof.
  intros Hnd. unfold plan_step. fold (lookup_slot l n). destruct (lookup_slot l n) as [e|] eqn:El.
  - destruct (lookup_slot_Some _ _ _ El) as [He Hn].
    assert (Hin : In n (map slot l)) by (rewrite <- Hn; by apply in_map).
    destruct (existsb (Z.eqb n) rotate); cbn [fst]; rewrite ?replace_first_map by done;
      (split; [done|]); intros m; split; auto; intros [?| ->]; done.
  - apply lookup_slot_None in El. cbn [fst]. rewrite map_app. simpl. split.
    + apply NoDup_ListNoDup. apply NoDup_app. rewrite <- !NoDup_ListNoDup in *.
      split; [done|]. split; [|apply NoDup_singleton].
      intros x Hx%list_elem_of_In Hy%list_elem_of_In. destruct Hy as [<-|[]]. done.
    + intros m. rewrite in_app_iff. simpl. intuition congruence.
Qed.

Lemma plan_fold ns : forall l b, List.NoDup ns -> List.NoDup (map slot l) ->
  let l' := fst (fold_left stepf ns (l, b)) in
  List.NoDup (map slot l')
  /\ (forall m, In m (map slot l') <-> In m (map slot l) \/ In m ns)
  /\ (forall m, lookup_slot l' m =
        if existsb (Z.eqb m) ns then Some (target m (lookup_slot l m)) else lookup_slot l m).
Proof.
  induction ns as [|n ns IH]; intros l b Hn Hl; [by simpl; intuition|].
  inversion Hn as [|? ? Hnin Hn']; subst. cbn [fold_left].
  destruct (plan_step_slots l b n Hl) as [Hl1 Hin1].
  pose proof (plan_step_lookup l b n) as Hlk. destruct (stepf (l, b) n) as [l1 b1]. cbn [fst] in *.
  destruct (IH l1 b1 Hn' Hl1) as (H1 & H2 & H3). split; [done|]. split.
  - intros m. rewrite H2, Hin1. simpl. intuition.
  - intros m. rewrite H3, Hlk. cbn [existsb]. destruct (Z.eqb_spec m n) as [->|Hm].
    + simpl. destruct (existsb (Z.eqb n) ns) eqn:E; [|done]. exfalso.
      apply existsb_exists in E as (x & Hx & ?). apply Hnin. by replace n with x by lia.
    + by simpl.
Qed.

(** The flag is never cleared, and records every change of the list. *)
Lemma plan_fold_flag ns : forall l, snd (fold_left stepf ns (l, true)) = true.
Proof.
  induction ns as [|m ms IH]; intros l; [done|]. cbn [fold_left]. unfold plan_step at 2.
  repeat case_scrut; simplify_eq; apply IH.
Qed.

Lemma plan_fold_unchanged ns : forall l b,
  snd (fold_left stepf ns (l, b)) = false -> fold_left stepf ns (l, b) = (l, false) /\ b = false.
Proof.
  induction ns as [|n ns IH]; intros l b H; [by simpl in *; subst|].
  cbn [fold_left] in *. unfold plan_step at 2 in H. unfold plan_step at 2.
  repeat case_scrut; simplify_eq; auto; by rewrite plan_fold_flag in H.
Qed.
End PlanLemmas.

Lemma range_u32_In size n : In n (range_u32 size) <-> 0 <= n < size.
Proof.
  unfold range_u32. rewrite in_map_iff. split.
  - intros (k & <- & Hk). apply in_seq in Hk. lia.
  - intros H. exists (Z.to_nat n). rewrite in_seq. lia.
Qed.

Lemma range_u32_NoDup size : List.NoDup (range_u32 size).
Proof. unfold range_u32. apply List.NoDup_map_NoDup_ForallPairs; [intros x y _ _; lia|apply seq_NoDup]. Qed.

Lemma range_u32_sorted size : StronglySorted Z.le (range_u32 size).
Proof.
  unfold range_u32. generalize 0%nat as a. induction (Z.to_nat size) as [|k IH]; intros a; [constructor|].
  simpl. constructor; [apply IH|]. apply List.Forall_forall. intros x Hx.
  apply in_map_iff in Hx as (j & <- & Hj). apply in_seq in Hj. lia.
Qed.

Lemma map_sorted {A} (key : A -> Z) l :
  StronglySorted (fun a b => key a <= key b) l -> StronglySorted Z.le (map key l).
Proof.
  induction 1 as [|x l Hs IH Hx]; simpl; constructor; [done|].
  apply List.Forall_forall. intros y Hy. apply in_map_iff in Hy as (z & <- & Hz).
  rewrite List.Forall_forall in Hx. auto.
Qed.

(** A list with the keys [0..size), each once, sorted by key. *)
Lemma sorted_range {A} (key : A -> Z) (l : list A) size :
  List.NoDup (map key l) -> (forall n, In n (map key l) <-> 0 <= n < size) ->
  map key (sort_by_key key l) = range_u32 size.
Proof.
  intros Hnd Hin. eapply (StronglySorted_unique Z.le).
  - apply map_sorted, sort_by_key_sorted.
  - apply range_u32_sorted.
  - unfold sort_by_key. rewrite <- (sort_stable_perm (key_leb key) l).
    apply Permutation.NoDup_Permutation; [done|apply range_u32_NoDup|].
    intros n. by rewrite Hin, range_u32_In.
Qed.

(** After [plan] the pool holds exactly the slots [0..min(size, 1024)), in
    order, each once: a slot that existed and is not rotated is untouched, a
    rotated one has the next generation, its old principal and fresh material,
    a missing one starts at generation 1; and the returned flag is false only
    when nothing changed, in which case [applied] is kept, while any change
    clears it. *)
Theorem plan_exact draw st size rotate now lifetime grid st' changed :
  List.NoDup (map slot (slots st)) -> (forall s, In s (slots st) -> 0 <= slot s) -> 0 <= size ->
  plan draw st size rotate now lifetime grid = (st', changed) ->
  map slot (slots st') = range_u32 (Z.min size MAX_POOL_SIZE)
  /\ (forall s', In s' (slots st') ->
       s' = planned draw rotate now lifetime grid (slot s') (lookup_slot (slots st) (slot s')))
  /\ (changed = true -> applied st' = false)
  /\ (changed = false -> applied st' = applied st /\ slots st' = sort_by_key slot (slots st)).
Proof.
  intros Hnd Hpos Hsz H. unfold plan in H. set (sz := Z.min size MAX_POOL_SIZE) in *.
  set (kept := List.filter (fun s => slot s <? sz) (slots st)) in *.
  set (b0 := negb _) in H.
  pose proof (plan_fold_unchanged draw rotate now lifetime grid (range_u32 sz) kept b0) as Hun.
  assert (Hk : List.NoDup (map slot kept)) by (by apply Authz.NoDup_map_filter).
  destruct (plan_fold draw rotate now lifetime grid (range_u32 sz) kept b0 (range_u32_NoDup sz) Hk)
    as (H1 & H2 & H3).
  destruct (fold_left _ _ _) as [l ch] eqn:Ef. cbn [fst snd] in *. injection H as <- <-. cbn [slots applied].
  assert (Hrange : forall n, In n (map slot l) <-> 0 <= n < sz).
  { intros n. rewrite H2, range_u32_In. split; [|auto]. intros [Hn|]; [|done].
    apply in_map_iff in Hn as (s & <- & Hs). apply In_filterb in Hs as [Hs Hlt].
    specialize (Hpos s Hs). lia. }
  split; [by apply sorted_range|]. split; [|split].
  - intros s' Hs'. unfold sort_by_key in Hs'. apply In_sort_stable in Hs'.
    assert (Hr : 0 <= slot s' < sz) by (apply Hrange; by apply in_map).
    assert (Hl : lookup_slot l (slot s') = Some s').
    { destruct (lookup_slot l (slot s')) as [s|] eqn:E.
      - apply lookup_slot_Some in E as [Hs Heq]. f_equal. by eapply NoDup_map_inj.
      - apply lookup_slot_None in E. destruct E. by apply in_map. }
    rewrite H3 in Hl. rewrite (proj2 (existsb_exists _ _)) in Hl
      by (exists (slot s'); rewrite range_u32_In, Z.eqb_refl; done).
    injection Hl as Hl. rewrite <- Hl at 1. f_equal.
    clear -Hr. unfold kept, lookup_slot. induction (slots st) as [|x xs IH]; [done|]. simpl.
    destruct (slot x <? sz) eqn:E; simpl; destruct (Z.eqb_spec (slot x) (slot s')); try done; lia.
  - by intros ->.
  - intros ->. destruct (Hun eq_refl) as [[= ->] Hb0]. split; [done|]. f_equal.
    unfold b0 in Hb0. apply negb_false_iff, Nat.eqb_eq in Hb0. by apply filter_all_length.
Qed.

(** ** The tick *)

(** The part of an admin slot that decides which credential works and until
    when; the revocation flag is the control plane's and is absorbed without a
    new apply (the rotation it causes is what applies). *)
Definition credential_of (a : AdminSlot) : Z * string * string * Z * string * string * Z :=
  (a_slot a, a_principal_id a, a_credential_id a, a_valid_from a, a_vless_uuid a,
   a_hysteria2_password a, a_expires_at a).

Definition proven (s : LeaseState) (w : World) : Prop :=
  exists l, live w = Some l /\ map credential_of l = map credential_of (vpn_admin_input s).

(** What the process relies on between ticks. *)
Definition pool_inv (p : Pool) (w : World) : Prop :=
  applied (state p) = true -> applied_this_process p = true ->
  StronglySorted (fun a b => slot a <= slot b) (slots (state p)) /\ proven (state p) w.

Section TickLemmas.
Context {V : Type} `{HJ : JsonOps V}.
Context (format3339 : Z -> option string) (parse3339 : string -> option Z).

Lemma plan_unchanged_id dr st size rotate now lifetime grid st' :
  plan dr st size rotate now lifetime grid = (st', false) ->
  slots st' = sort_by_key slot (slots st) /\ applied st' = applied st.
Proof.
  unfold plan. intros H.
  match type of H with context [fold_left ?f ?ns ?a] =>
    pose proof (plan_fold_unchanged dr rotate now lifetime grid ns (fst a) (snd a)) as Hun;
    cbn [fst snd] in Hun; destruct (fold_left f ns a) as [l ch] eqn:Ef end.
  cbn [snd] in Hun. injection H as <- ->. cbn [slots applied]. split; [|done].
  destruct (Hun eq_refl) as [[= ->] Hb]. f_equal. apply negb_false_iff, Nat.eqb_eq in Hb.
  by apply filter_all_length.
Qed.

Lemma plan_changed dr st size rotate now lifetime grid st' :
  plan dr st size rotate now lifetime grid = (st', true) ->
  applied st' = false /\ StronglySorted (fun a b => slot a <= slot b) (slots st').
Proof.
  unfold plan. destruct (fold_left _ _ _) as [l ch]. intros H. injection H as <- ->.
  split; [done|apply sort_by_key_sorted].
Qed.

Lemma plan_sorted dr st size rotate now lifetime grid st' b :
  plan dr st size rotate now lifetime grid = (st', b) ->
  StronglySorted (fun a b => slot a <= slot b) (slots st').
Proof.
  destruct b; intros Hp; [by apply plan_changed in Hp as [_ Hp]|].
  apply plan_unchanged_id in Hp as [-> _]. apply sort_by_key_sorted.
Qed.

Lemma absorb_credentials st resp st' v :
  absorb_sync_response parse3339 st resp = Ok (st', v) ->
  applied st' = applied st
  /\ map credential_of (vpn_admin_input st') = map credential_of (vpn_admin_input st)
  /\ map slot (slots st') = map slot (slots st).
Proof.
  unfold absorb_sync_response. intros Ha. inv_bind. simpl. split; [done|].
  unfold vpn_admin_input. simpl. rewrite !map_map. split; by apply map_ext.
Qed.

Lemma sorted_of_map (l l' : list Slot) : map slot l = map slot l' ->
  StronglySorted (fun a b => slot a <= slot b) l -> StronglySorted (fun a b => slot a <= slot b) l'.
Proof.
  revert l'. induction l as [|x l IH]; intros [|y l'] E Hs; try discriminate; [constructor|].
  injection E as E1 E2. inversion Hs as [|? ? Hs' Hx]; subst. constructor; [by apply IH|].
  apply List.Forall_forall. intros z Hz. rewrite List.Forall_forall in Hx.
  apply (in_map slot) in Hz. rewrite <- E2 in Hz. apply in_map_iff in Hz as (u & Eu & Hu).
  specialize (Hx u Hu). lia.
Qed.

Lemma adopt_applied st v now lifetime grid st' n :
  adopt_extensions st v now lifetime grid = (st', n) -> applied st' = true ->
  applied st = true /\ slots st' = slots st.
Proof.
  unfold adopt_extensions. intros E Ha. injection E as <- <-. cbn [applied slots] in *.
  destruct (0 <? _) eqn:En in Ha; [discriminate|]. split; [done|]. clear Ha.
  set (cap := round_down_to_grid _ _) in *. clearbody cap.
  induction (slots st) as [|s l IH]; [done|]. simpl in *.
  assert (Hone : snd (adopt_one v now cap grid s) = false -> fst (adopt_one v now cap grid s) = s).
  { unfold adopt_one. by repeat case_scrut. }
  destruct (adopt_one v now cap grid s) as [s' []]; simpl in *; [exfalso; apply Z.ltb_ge in En; lia|].
  rewrite IH by done. by rewrite Hone.
Qed.

(** After the local half succeeds the running configuration is proven to hold
    the in-memory slots. *)
Lemma tick_local_inv cfg e p w p' w' r :
  tick_local cfg e p w = (p', w', r) -> pool_inv p w ->
  pool_inv p' w' /\ (is_ok r = true -> applied (state p') = true /\ applied_this_process p' = true)
  /\ sent w' = sent w.
Proof.
  unfold tick_local. intros H0 Hinv.
  destruct (plan _ _ _ _ _ _ _) as [st ch] eqn:Ep.
  assert (Hst := plan_sorted _ _ _ _ _ _ _ _ _ Ep).
  destruct (if ch then save _ _ _ else _) as [w1 r1] eqn:Es.
  assert (Hw1 : live w1 = live w /\ sent w1 = sent w).
  { destruct ch; [unfold save in Es; destruct (save_planned e)|]; by simplify_eq. }
  assert (Hinv1 : pool_inv (set_state p st) w1).
  { intros Ha Hp. cbn [state set_state applied_this_process] in *.
    destruct ch; [apply plan_changed in Ep as [Ep _]; congruence|].
    apply plan_unchanged_id in Ep as [Hsl Hap]. rewrite Hap in Ha.
    destruct (Hinv Ha Hp) as [Hso (l & Hl & Hm)]. cbn [slots] in Hsl.
    rewrite sort_by_key_id in Hsl by done. split; [done|].
    exists l. rewrite (proj1 Hw1). split; [done|]. unfold vpn_admin_input in *. by rewrite Hsl. }
  destruct r1 as [|x]; [|simplify_eq; split; [done|]; split; [done|apply Hw1]].
  destruct (negb _ || negb _) eqn:Eb.
  - destruct (apply e (set_state p st) w1) as [[p2 w2] r2] eqn:Ea.
    assert (Hap : pool_inv p2 w2 /\ (is_ok r2 = true -> applied (state p2) = true
      /\ applied_this_process p2 = true) /\ sent w2 = sent w1).
    { unfold apply in Ea. destruct (apply_reply e) as [parsed|].
      2:{ simplify_eq. split; [|done]. intros Ha Hp. cbn [state set_state applied_this_process] in *.
          rewrite Ha, Hp in Eb. discriminate. }
      destruct (negb (bool_decide _)) eqn:El.
      { simplify_eq. split; [|done]. intros Ha Hp. cbn [state set_state applied_this_process] in *.
          rewrite Ha, Hp in Eb. discriminate. }
      unfold save in Ea. destruct (save_applied e); simplify_eq; cbn [state applied_this_process sent];
        (split; [|done]); intros _ _; (split; [done|]); eexists; done. }
    destruct Hap as (H1 & H2 & H3). rewrite (proj2 Hw1) in H3.
    destruct r2; simplify_eq; auto.
  - simplify_eq. split; [done|]. split; [|tauto]. intros _. apply orb_false_iff in Eb as [E1 E2].
    split; by apply negb_false_iff.
Qed.

Lemma tick_sync_inv cfg e p w p' w' r :
  tick_sync format3339 parse3339 cfg e p w = (p', w', r) ->
  pool_inv p w ->
  pool_inv p' w' /\ live w' = live w /\ (sent w' = sent w \/ sent w' = slots (state p) :: sent w).
Proof.
  unfold tick_sync. intros E Hinv.
  destruct (sync_body _ _ _ _ _) as [body|]; [|by simplify_eq; auto].
  destruct (sync_reply e) as [resp|]; [|by simplify_eq; auto].
  destruct (absorb_sync_response _ _ _) as [[st view]|] eqn:Ea; [|by simplify_eq; auto].
  destruct (adopt_extensions _ _ _ _ _) as [st2 n] eqn:Ex.
  assert (Hinv' : forall d, pool_inv {| state := st2; remote := Some view; obfs_password := obfs_password p;
    obfs_reported := d; applied_this_process := applied_this_process p |} w).
  { intros d Hap Hpr. cbn [state applied_this_process] in *.
    destruct (adopt_applied _ _ _ _ _ _ _ Ex Hap) as [Hap1 Hsl].
    destruct (absorb_credentials _ _ _ _ Ea) as (Hap2 & Hcr & Hms). rewrite Hap2 in Hap1.
    destruct (Hinv Hap1 Hpr) as [Hs (l & Hl & Hm)]. rewrite Hsl. split.
    - by apply (sorted_of_map (slots (state p))).
    - exists l. split; [done|]. rewrite Hm, <- Hcr. unfold vpn_admin_input. by rewrite Hsl. }
  destruct (bool_decide (st2 = state p)); [|unfold save in E; destruct (save_synced e)];
    simplify_eq; cbn [live sent]; (split; [|auto]); intros Hap Hpr; apply (Hinv' _ Hap Hpr).
Qed.

End TickLemmas.

Section TickTheorems.
Context {V : Type} `{HJ : JsonOps V}.
Context (format3339 : Z -> option string) (parse3339 : string -> option Z).

(** A sequence of ticks, whatever each of them returned. *)
Fixpoint run (cfg : Config) (es : list (Env (V := V))) (p : Pool) (w : World) : Pool * World :=
  match es with
  | [] => (p, w)
  | e :: es' => let '(p', w', _) := tick format3339 parse3339 cfg e p w in run cfg es' p' w'
  end.

Lemma tick_inv cfg e p w p' w' r :
  tick format3339 parse3339 cfg e p w = (p', w', r) -> pool_inv p w ->
  pool_inv p' w'
  /\ (sent w' = sent w \/ exists s, sent w' = slots s :: sent w /\ proven s w').
Proof.
  unfold tick. intros E Hinv. destruct (tick_local cfg e p w) as [[p1 w1] r1] eqn:El.
  destruct (tick_local_inv _ _ _ _ _ _ _ El Hinv) as (Hinv1 & Hok & Hs1).
  destruct r1 as [dirty|]; [|by simplify_eq; auto]. destruct (Hok eq_refl) as [Ha Hp].
  destruct (_ && _); [by simplify_eq; auto|]. destruct (negb _); [by simplify_eq; auto|].
  destruct (tick_sync_inv format3339 parse3339 _ _ _ _ _ _ _ E Hinv1) as (Hinv2 & Hl & Hs).
  split; [done|]. destruct Hs as [->| ->]; [by left|]. rewrite Hs1. right. exists (state p1).
  split; [done|]. destruct (Hinv1 Ha Hp) as [_ (l & Hl1 & Hm)]. exists l. by rewrite Hl.
Qed.

Lemma run_inv cfg es : forall p w p' w',
  run cfg es p w = (p', w') -> pool_inv p w -> pool_inv p' w'.
Proof.
  induction es as [|e es IH]; intros p w p' w' E Hinv; simpl in E; [by simplify_eq|].
  destruct (tick format3339 parse3339 cfg e p w) as [[p1 w1] r1] eqn:Et.
  eapply IH; [done|]. by eapply tick_inv.
Qed.

(** C1: whatever sequence of ticks follows a process start, with saves,
    applies and requests succeeding or failing in any pattern, every slot set
    the agent reports to the control plane is, at that moment, the set the
    running sing-box was last proven to hold: same slots, principals,
    credential ids, secrets and validity windows. *)
Theorem reported_slots_are_live cfg es e p0 w0 p w p' w' r :
  applied_this_process p0 = false -> run cfg es p0 w0 = (p, w) ->
  tick format3339 parse3339 cfg e p w = (p', w', r) ->
  sent w' = sent w
  \/ exists s, sent w' = slots s :: sent w /\ exists l, live w' = Some l
       /\ map credential_of l = map credential_of (vpn_admin_input s).
Proof.
  intros Hp Hrun Ht. eapply tick_inv in Ht as [_ Ht]; [exact Ht|].
  eapply run_inv; [done|]. intros _ Hpr. congruence.
Qed.

(** The state file holds the slots in memory. *)
Definition disk_current (p : Pool) (w : World) : Prop :=
  exists d, disk w = Some d /\ slots d = slots (state p).

(** Persist before apply.  When the state file holds the in-memory slots
    at the start of a tick, then after the local half either it still does,
    whatever the apply and the second save did, or the first save failed and
    the running configuration was not touched. *)
Theorem persist_before_apply cfg e p w p' w' r :
  StronglySorted (fun a b => slot a <= slot b) (slots (state p)) ->
  disk_current p w -> tick_local cfg e p w = (p', w', r) ->
  disk_current p' w' \/ (r = Err SaveFailed /\ live w' = live w /\ disk w' = disk w).
Proof.
  intros Hs (d & Hd & Hsl) E. unfold tick_local in E.
  destruct (plan _ _ _ _ _ _ _) as [st ch] eqn:Ep.
  destruct (if ch then save _ _ _ else _) as [w1 r1] eqn:Es.
  assert (Hcases : (exists d1, disk w1 = Some d1 /\ slots d1 = slots st /\ r1 = Ok tt)
                   \/ (r1 = Err SaveFailed /\ w1 = w)).
  { destruct ch; [unfold save in Es; destruct (save_planned e); simplify_eq; [left|by right]|].
    - by exists st.
    - simplify_eq. left. exists d. apply plan_unchanged_id in Ep as [Hp _]. cbn [slots] in Hp.
      rewrite sort_by_key_id in Hp by done. by rewrite Hp. }
  destruct Hcases as [(d1 & Hd1 & Hs1 & ->)|[-> ->]]; [|simplify_eq; by right].
  left. destruct (negb _ || negb _); [|simplify_eq; by exists d1].
  unfold apply in E. destruct (apply_reply e) as [parsed|]; [|simplify_eq; by exists d1].
  destruct (negb (bool_decide _)); [simplify_eq; by exists d1|].
  unfold save in E. destruct (save_applied e); simplify_eq; [by eexists|by exists d1].
Qed.

End TickTheorems.

(** ** Witnesses *)

Definition ex_fresh (n : Z) : fresh :=
  {| f_principal := generate_native_principal_id (repeat n 16);
     f_credential := generate_credential_id (repeat (n + 1) 16);
     f_uuid := generate_uuid_v4 (repeat (n + 2) 16); f_password := hex_bytes (repeat n 24) |}.
Definition ex_cfg : Config :=
  {| lease_pool_size := 2; rotation_batch_interval_secs := 600; lease_slot_lifetime_secs := 1800 |}.
Definition ex_env (save_ok save2_ok : bool) : Env (V := json) :=
  {| now1 := 1000000; draw := ex_fresh; save_planned := save_ok;
     apply_reply := Some (JObj [("live", JBool true)]); save_applied := save2_ok;
     sync_due := true; sync_reply := None; now2 := 1000001; save_synced := true |}.
Definition ex_pool : Pool :=
  {| state := load_state ex_fresh None; remote := None; obfs_password := None;
     obfs_reported := false; applied_this_process := false |}.
Definition ex_world : World := {| disk := None; live := None; sent := [] |}.
Definition ex_format (t : Z) : option string := Some "t".
Definition ex_parse (s : string) : option Z := Some 0.
Definition ex_slot (n : Z) : Slot := mint (ex_fresh n) n 1 1000000 1800 600.
Definition ex_state : LeaseState :=
  {| slots := [ex_slot 0; ex_slot 1]; applied := true; last_rotation_at := 1000000 |}.
Definition ex_view : RemoteView :=
  {| as_of := 1000100; min_remaining := 600;
     r_slots := {[ 0 := {| r_generation := 1; r_state := "leased"; r_urgent := false;
                           r_extend_to := Some 1002700 |} ]} |}.

Lemma mint_window_witness :
  valid_until (mint (ex_fresh 0) 0 1 1000000 (clamp_lifetime 99999 (clamp_batch_interval 0))
    (clamp_batch_interval 0)) mod (clamp_batch_interval 0) = 0.
Proof.
  refine (proj1 (proj2 (mint_window (ex_fresh 0) 0 1 1000000 0 99999 _))). unfold sane_time. lia.
Defined.

Lemma rotation_policy_witness :
  In 0 (slots_to_rotate ex_state None 1002000 600) /\ slots_to_rotate ex_state None 1000000 600 = [].
Proof.
  split; [|reflexivity].
  refine (proj1 (rotation_policy ex_state None 1002000 600 _) (ex_slot 0) _ _).
  - repeat constructor; simpl; lia.
  - by left.
  - unfold expired. vm_compute. discriminate.
Defined.

Lemma adopt_extensions_safe_witness :
  exists st', fst (adopt_extensions ex_state ex_view 1000200 1800 600) = st'
    /\ (applied st' = true -> applied ex_state = true /\ slots st' = slots ex_state).
Proof.
  destruct (adopt_extensions ex_state ex_view 1000200 1800 600) as [st' n] eqn:E.
  exists st'. split; [reflexivity|].
  refine (proj1 (proj2 (adopt_extensions_safe ex_state ex_view 1000200 1800 600 st' n _ _ _ E)));
    unfold sane_time; lia.
Defined.

Lemma plan_exact_witness :
  map slot (slots (fst (plan ex_fresh ex_state 3 [1] 1000600 1800 600))) = [0; 1; 2].
Proof.
  destruct (plan ex_fresh ex_state 3 [1] 1000600 1800 600) as [st' b] eqn:E.
  refine (proj1 (plan_exact ex_fresh ex_state 3 [1] 1000600 1800 600 st' b _ _ _ E)); [| |lia].
  - repeat constructor; simpl; lia.
  - intros s [<-|[<-|[]]]; simpl; lia.
Defined.

Lemma reported_slots_are_live_witness :
  exists p' w' r, tick ex_format ex_parse ex_cfg (ex_env true true) ex_pool ex_world = (p', w', r)
    /\ length (sent w') = 1%nat
    /\ (sent w' = sent ex_world \/ exists s, sent w' = slots s :: sent ex_world /\ exists l, live w' = Some l
         /\ map credential_of l = map credential_of (vpn_admin_input s)).
Proof.
  destruct (tick ex_format ex_parse ex_cfg (ex_env true true) ex_pool ex_world) as [[p' w'] r] eqn:E.
  exists p', w', r. split; [reflexivity|]. split.
  - change w' with (snd (fst (p', w', r))). rewrite <- E. vm_compute. reflexivity.
  - refine (reported_slots_are_live ex_format ex_parse ex_cfg [] (ex_env true true)
      ex_pool ex_world ex_pool ex_world p' w' r _ _ E); reflexivity.
Defined.

Lemma persist_before_apply_witness :
  exists p' w' r, tick_local ex_cfg (ex_env true false)
     (set_state ex_pool ex_state) {| disk := Some ex_state; live := None; sent := [] |} = (p', w', r)
   /\ (disk_current p' w' \/ (r = Err SaveFailed /\ live w' = None /\ disk w' = Some ex_state)).
Proof.
  destruct (tick_local ex_cfg (ex_env true false)
     (set_state ex_pool ex_state) {| disk := Some ex_state; live := None; sent := [] |}) as [[p' w'] r] eqn:E.
  exists p', w', r. split; [reflexivity|].
  refine (persist_before_apply ex_cfg (ex_env true false) _ _ p' w' r _ _ E).
  - repeat constructor; simpl; lia.
  - exists ex_state. done.
Defined.

(** A failed first save is not retried: the next tick sees nothing to plan,
    skips the save and applies slots that the state file has never held. *)
Lemma unsaved_slots_can_go_live :
  let '(_, w) := run ex_format ex_parse ex_cfg [ex_env false true; ex_env false false] ex_pool ex_world in
  disk w = None /\ option_map length (live w) = Some 2%nat.
Proof. vm_compute. split; reflexivity. Qed.

End LeasePool.
