(* ===== verification/AdminReconcile.v ===== *)
(** * apps/admin/src/lease_pool.rs and apps/admin/src/external_authorization.rs

    vpn-admin's two reconcilers: the lease-slot set and the control-plane
    authorization set, each projected onto the shared user store, of which each
    owns only a part.  The subscription-token hash of a new user is that of a
    random token that is thrown away: an argument ([token_hash], per user id). *)

From S2P Require Import Prelude Strs Authorization Credentials Grants.
From Stdlib Require Import Ascii.

Module AdminReconcile.
Import Grants.

(** The record both reconcilers start from when the store has no user. *)
Definition blank_user (id_ name_ : string) (enabled_ : bool) (hash : string) (now : Z) : CompatUser :=
  {| id := id_; name := name_; enabled := enabled_; u_vless_uuid := ""; u_hysteria2_password := "";
     subscription_token_hash_hex := hash; created_at := now; expires_at := None;
     vision_off_experiment := false; google_egress_hairpin := false; exit_principal := false;
     peer_credentials := []; is_reserved_probe := false; credentials := [] |}.

(** ** Lease slots *)

Definition LEASE_USER_PREFIX : string := "lease-".
Definition MAX_SLOTS : Z := 4096.

Record LeaseSlotInput := {
  slot : Z;
  s_vless_uuid : string;
  s_hysteria2_password : string;
  s_expires_at : Z;
  s_principal_id : option string;
  s_credential_id : option string;
  s_class : option Authz.CredentialClass;
  s_valid_from : option Z;
  s_revoked : bool }.

(** [{slot:04}]: decimal, padded with zeros to four digits. *)
Fixpoint zeros (n : nat) : string :=
  match n with O => EmptyString | S n' => String "0" (zeros n') end.
Definition pad4 (n : Z) : string :=
  let d := u64_to_string n in zeros (4 - String.length d) +:+ d.
Definition lease_user_id (slot : Z) : string := LEASE_USER_PREFIX +:+ pad4 slot.

Definition is_lease_user (user : CompatUser) : bool :=
  starts_with LEASE_USER_PREFIX (id user)
  || (starts_with "cred_" (id user) && starts_with "native_" (name user)).

Definition valid_uuid (s : string) : bool := (slen s =? 36) && Authz.uuid_chars 0 s.
Definition valid_password (s : string) : bool :=
  (16 <=? slen s) && (slen s <=? 128) && str_all (in_range 0x21 0x7e) s.

Inductive reconcile_error :=
| TooManySlots
| SlotRange (slot : Z)
| MalformedCredential (slot : Z)
| NoExpiry (slot : Z)
| PartialMetadata (slot : Z)
| RevokedWithoutMetadata (slot : Z)
| InvalidSet (e : Authz.auth_error)
| DuplicateUuids
| UuidCollision
| NotCompatibility
| IdCollision.

Definition present {A} (o : option A) : Z := match o with Some _ => 1 | None => 0 end.
Definition metadata_count (s : LeaseSlotInput) : Z :=
  present (s_principal_id s) + present (s_credential_id s) + present (s_class s)
  + present (s_valid_from s).

(** One iteration of the checking loop: the authorization it pushes, if any. *)
Definition check_slot (seen : list Z) (s : LeaseSlotInput)
  : result (option Authz.Authorization) reconcile_error :=
  if (MAX_SLOTS <=? slot s) || existsb (Z.eqb (slot s)) seen then Err (SlotRange (slot s)) else
  if negb (valid_uuid (s_vless_uuid s)) || negb (valid_password (s_hysteria2_password s))
  then Err (MalformedCredential (slot s)) else
  if s_expires_at s <=? 0 then Err (NoExpiry (slot s)) else
  if negb (metadata_count s =? 0) && negb (metadata_count s =? 4)
  then Err (PartialMetadata (slot s)) else
  match s_principal_id s, s_credential_id s, s_class s, s_valid_from s with
  | Some p, Some c, Some k, Some from =>
      Ok (Some {| Authz.principal_id := p; Authz.credential_id := c; Authz.class := k;
                  Authz.valid_from := from; Authz.valid_until := s_expires_at s;
                  Authz.revoked := s_revoked s; Authz.vless_uuid := Some (s_vless_uuid s);
                  Authz.hysteria2_password := Some (s_hysteria2_password s) |})
  | _, _, _, _ =>
      if s_revoked s then Err (RevokedWithoutMetadata (slot s)) else Ok None
  end.

Fixpoint check_slots (seen : list Z) (l : list LeaseSlotInput)
  : result (list Authz.Authorization) reconcile_error :=
  match l with
  | [] => Ok []
  | s :: l' =>
      let? o := check_slot seen s in
      let? rest := check_slots (slot s :: seen) l' in
      Ok (match o with Some a => a :: rest | None => rest end)
  end.

Definition slot_user_id (s : LeaseSlotInput) : string :=
  match s_credential_id s with Some c => c | None => lease_user_id (slot s) end.

Definition find_user (users : list CompatUser) (i : string) : option CompatUser :=
  List.find (fun u => String.eqb (id u) i) users.

Definition lease_user (token_hash : string -> string) (users : list CompatUser) (now : Z)
  (s : LeaseSlotInput) : CompatUser :=
  let i := slot_user_id s in
  let user := match find_user users i with
              | Some existing => existing
              | None => blank_user i i true (token_hash i) now
              end in
  {| id := id user; name := match s_principal_id s with Some p => p | None => i end;
     enabled := negb (s_revoked s); u_vless_uuid := to_ascii_lowercase (s_vless_uuid s);
     u_hysteria2_password := s_hysteria2_password s;
     subscription_token_hash_hex := subscription_token_hash_hex user;
     created_at := match s_valid_from s with Some f => f | None => created_at user end;
     expires_at := Some (s_expires_at s); vision_off_experiment := false;
     google_egress_hairpin := false; exit_principal := exit_principal user;
     peer_credentials := peer_credentials user; is_reserved_probe := is_reserved_probe user;
     credentials := credentials user |}.

(** [changed] compares the serialized lists; every field is serialized or has
    one value when skipped, so that is equality of the lists. *)
Definition reconcile_leases (token_hash : string -> string) (users : list CompatUser)
  (input : list LeaseSlotInput) (now : Z) : result (list CompatUser * bool) reconcile_error :=
  if MAX_SLOTS <? Z.of_nat (length input) then Err TooManySlots else
  let? authorizations := check_slots [] input in
  let? _ := map_err InvalidSet (Authz.validate authorizations) in
  let lease_uuids := btree_set (map (fun s => to_ascii_lowercase (s_vless_uuid s)) input) in
  if negb (length lease_uuids =? length input)%nat then Err DuplicateUuids else
  if existsb (fun u => negb (is_lease_user u)
                       && existsb (String.eqb (to_ascii_lowercase (u_vless_uuid u))) lease_uuids) users
  then Err UuidCollision else
  let next := List.filter (fun u => negb (is_lease_user u)) users
              ++ map (lease_user token_hash users now) (sort_by_key slot input) in
  Ok (next, negb (bool_decide (next = users))).

(** ** Control-plane authorizations *)

Definition is_external (user : CompatUser) : bool :=
  starts_with "cred_" (id user) && starts_with "ext_" (name user).

Definition auth_uuid (a : Authz.Authorization) : option string :=
  option_map to_ascii_lowercase (Authz.vless_uuid a).

(** The loop over the UUIDs: [uuids] are those inserted so far. *)
Fixpoint collect_uuids (uuids : list string) (l : list Authz.Authorization)
  : result (list string) reconcile_error :=
  match l with
  | [] => Ok uuids
  | a :: l' =>
      match auth_uuid a with
      | Some u => if existsb (String.eqb u) uuids then Err DuplicateUuids
                  else collect_uuids (u :: uuids) l'
      | None => collect_uuids uuids l'
      end
  end.

Definition find_external (users : list CompatUser) (i : string) : option CompatUser :=
  List.find (fun u => String.eqb (id u) i && is_external u) users.

Definition external_user (token_hash : string -> string) (users : list CompatUser) (now : Z)
  (a : Authz.Authorization) : CompatUser :=
  let user := match find_external users (Authz.credential_id a) with
              | Some u => u
              | None => blank_user (Authz.credential_id a) (Authz.principal_id a) false
                          (token_hash (Authz.credential_id a)) now
              end in
  {| id := id user; name := Authz.principal_id a; enabled := negb (Authz.revoked a);
     u_vless_uuid := match auth_uuid a with Some u => u | None => "" end;
     u_hysteria2_password := match Authz.hysteria2_password a with Some p => p | None => "" end;
     subscription_token_hash_hex := subscription_token_hash_hex user;
     created_at := Authz.valid_from a; expires_at := Some (Authz.valid_until a);
     vision_off_experiment := vision_off_experiment user;
     google_egress_hairpin := google_egress_hairpin user; exit_principal := exit_principal user;
     peer_credentials := peer_credentials user; is_reserved_probe := is_reserved_probe user;
     credentials := credentials user |}.

Definition cred_leb (a b : Authz.Authorization) : bool :=
  str_leb (Authz.credential_id a) (Authz.credential_id b).

Definition reconcile_external (token_hash : string -> string) (users : list CompatUser)
  (input : list Authz.Authorization) (now : Z) : result (list CompatUser * bool) reconcile_error :=
  let? _ := map_err InvalidSet (Authz.validate input) in
  if existsb (fun a => negb (Authz.class_eqb (Authz.class a) Authz.Compatibility)) input
  then Err NotCompatibility else
  let? uuids := collect_uuids [] input in
  if existsb (fun u => negb (is_external u)
                       && existsb (String.eqb (to_ascii_lowercase (u_vless_uuid u))) uuids) users
  then Err UuidCollision else
  if existsb (fun u => negb (is_external u)
                       && existsb (fun a => String.eqb (Authz.credential_id a) (id u)) input) users
  then Err IdCollision else
  let next := List.filter (fun u => negb (is_external u)) users
              ++ map (external_user token_hash users now) (sort_stable cred_leb input) in
  Ok (next, negb (bool_decide (next = users))).

(** ** Ownership: each reconciler replaces its own users and keeps the others *)

Section Ownership.
Context (own : CompatUser -> bool).

Lemma filter_others users new :
  (forall u, In u new -> own u = true) ->
  List.filter (fun u => negb (own u)) (List.filter (fun u => negb (own u)) users ++ new)
  = List.filter (fun u => negb (own u)) users.
Proof.
  intros Hnew. rewrite List.filter_app.
  replace (List.filter (fun u => negb (own u)) new) with (@nil CompatUser).
  - rewrite app_nil_r. induction users as [|u l IH]; simpl; [done|].
    destruct (own u) eqn:E; simpl; rewrite ?E; simpl; by rewrite ?IH.
  - induction new as [|u l IH]; [done|]. simpl. rewrite (Hnew u (or_introl eq_refl)). simpl.
    apply IH. intros; apply Hnew; by right.
Qed.

(** The users another reconciler owns survive, in order. *)
Lemma filter_disjoint (other : CompatUser -> bool) users new :
  (forall u, other u = true -> own u = false) -> (forall u, In u new -> own u = true) ->
  List.filter other (List.filter (fun u => negb (own u)) users ++ new) = List.filter other users.
Proof.
  intros Hd Hnew. rewrite List.filter_app.
  replace (List.filter other new) with (@nil CompatUser).
  - rewrite app_nil_r. induction users as [|u l IH]; simpl; [done|].
    destruct (own u) eqn:E; simpl.
    + destruct (other u) eqn:Eo; [specialize (Hd u Eo); congruence|done].
    + destruct (other u); by rewrite IH.
  - induction new as [|u l IH]; [done|]. simpl. destruct (other u) eqn:Eo.
    + specialize (Hd u Eo). rewrite (Hnew u (or_introl eq_refl)) in Hd. discriminate.
    + apply IH. intros; apply Hnew; by right.
Qed.

(** Looking up an owned id after a reconcile finds the user written for it. *)
Lemma find_owned {A} (key : A -> string) (mk : A -> CompatUser) (test : CompatUser -> bool) users l a :
  (forall u, In u users -> test u = false) ->
  (forall x, In x l -> test (mk x) = String.eqb (key x) (key a)) ->
  List.NoDup (map key l) -> In a l ->
  List.find test (users ++ map mk l) = Some (mk a).
Proof.
  intros Hu Ht Hnd Ha. induction users as [|u users IH]; simpl.
  - clear Hu. induction l as [|x l IH]; [done|]. simpl. rewrite (Ht x (or_introl eq_refl)).
    inversion Hnd as [|? ? Hx Hnd']; subst.
    destruct (String.eqb_spec (key x) (key a)) as [E|E].
    + f_equal. f_equal. destruct Ha as [->|Ha]; [done|]. exfalso. apply Hx. rewrite E. by apply in_map.
    + destruct Ha as [->|Ha]; [done|]. apply IH; auto. intros; apply Ht; by right.
  - rewrite (Hu u (or_introl eq_refl)). apply IH. intros; apply Hu; by right.
Qed.
End Ownership.

(** ** External authorizations *)

Lemma external_user_id th users now a : id (external_user th users now a) = Authz.credential_id a.
Proof.
  unfold external_user. cbn [id]. destruct (find_external _ _) as [u|] eqn:E; [|done].
  unfold find_external in E. apply List.find_some in E as [_ E]. b2p. done.
Qed.

Lemma external_user_owned th users now a :
  Authz.item_ok a -> Authz.class a = Authz.Compatibility -> is_external (external_user th users now a) = true.
Proof.
  intros [_ Hc Hp _ _] Hcl. unfold is_external. rewrite external_user_id.
  rewrite (Authz.validate_id_prefix _ _ _ Hc). simpl. by rewrite Hcl in Hp.
Qed.

Lemma external_user_active th users now a t :
  Authz.item_ok a -> is_active (external_user th users now a) t = Authz.is_active_at a t.
Proof.
  intros [_ Hc _ _ _]. unfold is_active. rewrite external_user_id.
  rewrite (Authz.validate_id_prefix _ _ _ Hc). done.
Qed.

(** What acceptance means, and the list that is written. *)
Lemma reconcile_external_ok th users input now next ch :
  reconcile_external th users input now = Ok (next, ch) <->
  Authz.validate input = Ok tt
  /\ (forall a, In a input -> Authz.class a = Authz.Compatibility)
  /\ (exists uuids, collect_uuids [] input = Ok uuids
       /\ forall u, In u users -> is_external u = false ->
            ~ In (to_ascii_lowercase (u_vless_uuid u)) uuids)
  /\ (forall u a, In u users -> is_external u = false -> In a input -> Authz.credential_id a <> id u)
  /\ next = List.filter (fun u => negb (is_external u)) users
             ++ map (external_user th users now) (sort_stable cred_leb input)
  /\ ch = negb (bool_decide (next = users)).
Proof.
  unfold reconcile_external. destruct (Authz.validate input) as [[]|]; cbn [map_err result_bind];
    [|by split; [discriminate|intros [? _]]].
  destruct (existsb _ input) eqn:E1.
  { split; [discriminate|]. intros (_ & H & _). apply existsb_exists in E1 as (a & Ha & Hc).
    by rewrite (H a Ha) in Hc. }
  assert (Hc : forall a, In a input -> Authz.class a = Authz.Compatibility).
  { intros a Ha. rewrite existsb_false_iff in E1. specialize (E1 a Ha).
    by destruct (Authz.class a). }
  destruct (collect_uuids [] input) as [uuids|]; cbn [result_bind].
  2:{ split; [discriminate|]. intros (_ & _ & (x & Hx & _) & _). discriminate. }
  destruct (existsb _ users) eqn:E2.
  { split; [discriminate|]. intros (_ & _ & (us & [= <-] & H) & _). exfalso.
    apply existsb_exists in E2 as (u & Hu & Hx). b2p. apply existsb_exists in H1 as (v & Hv & Heq).
    b2p. subst. by apply (H u). }
  match goal with |- context [if existsb ?f users then _ else _] => destruct (existsb f users) eqn:E3 end.
  { split; [discriminate|]. intros (_ & _ & _ & H & _). exfalso.
    apply existsb_exists in E3 as (u & Hu & Hx). b2p. apply existsb_exists in H1 as (v & Hv & Heq).
    b2p. by apply (H u v). }
  rewrite existsb_false_iff in E2, E3. split.
  - intros H. injection H as <- <-. repeat (split; [done|]). split; [exists uuids; split; [done|]|].
    + intros u Hu Hx Hin. specialize (E2 u Hu). rewrite Hx in E2. simpl in E2.
      rewrite existsb_false_iff in E2. specialize (E2 _ Hin). by rewrite String.eqb_refl in E2.
    + split; [|done]. intros u a Hu Hx Ha Heq. specialize (E3 u Hu). rewrite Hx in E3. simpl in E3.
      rewrite existsb_false_iff in E3. specialize (E3 a Ha). by rewrite Heq, String.eqb_refl in E3.
  - intros (_ & _ & _ & _ & -> & ->). done.
Qed.

Lemma external_next_owned th users input now u :
  Authz.validate input = Ok tt -> (forall a, In a input -> Authz.class a = Authz.Compatibility) ->
  In u (map (external_user th users now) (sort_stable cred_leb input)) -> is_external u = true.
Proof.
  intros Hv Hc Hu. apply in_map_iff in Hu as (a & <- & Ha). apply In_sort_stable in Ha.
  apply external_user_owned; [by apply Authz.validate_items_of in Hv as [Hv _]; auto|auto].
Qed.

(** Looking the external users up again in a store that already holds them
    finds each one, whatever the clock and the token hash. *)
Lemma external_users_stable th users input now th' now' keep :
  let new := map (external_user th users now) (sort_stable cred_leb input) in
  (forall u, In u new -> is_external u = true) ->
  List.NoDup (map Authz.credential_id input) ->
  (forall u, In u keep -> is_external u = false) ->
  map (external_user th' (keep ++ new) now') (sort_stable cred_leb input) = new.
Proof.
  intros new Hown Hnd Hkeep. apply map_ext_in. intros a Ha. unfold external_user at 1.
  replace (find_external _ _) with (Some (external_user th users now a)); [done|].
  symmetry. apply (find_owned Authz.credential_id).
  - intros u Hin. rewrite (Hkeep _ Hin). apply andb_false_r.
  - intros x Hx. rewrite external_user_id, (Hown (external_user th users now x)); [apply andb_true_r|].
    by apply in_map.
  - eapply Permutation_NoDup; [apply Permutation_map, sort_stable_perm|done].
  - done.
Qed.

(** C2: an accepted external sync makes the user store implement the
    authorization set.  Users it does not own (native leases, probes, legacy
    and operator-managed ones) are kept unchanged and in order; the external
    users that are active at any instant [t] are exactly one per authorization
    of [AuthorizationSet::active_at(t)], with its id, principal and secrets;
    and repeating the sync changes nothing. *)
Theorem external_sync_refines th users input now next ch :
  reconcile_external th users input now = Ok (next, ch) ->
  List.filter (fun u => negb (is_external u)) next = List.filter (fun u => negb (is_external u)) users
  /\ List.filter is_lease_user next = List.filter is_lease_user users
  /\ (forall t u, In u next /\ is_external u = true /\ is_active u t = true <->
        exists a, In a (Authz.active_at input t) /\ u = external_user th users now a)
  /\ (forall th' now', reconcile_external th' next input now' = Ok (next, false)).
Proof.
  intros H. apply reconcile_external_ok in H as (Hv & Hc & (uuids & Hcol & Hu) & Hid & -> & _).
  set (new := map (external_user th users now) (sort_stable cred_leb input)).
  assert (Hown : forall u, In u new -> is_external u = true)
    by (intros u; by apply external_next_owned).
  destruct (Authz.validate_items_of _ Hv) as [Hok Hnd].
  split; [by apply filter_others|]. split.
  { apply filter_disjoint; [|done]. intros u. unfold is_lease_user, is_external. intros Hl.
    destruct (starts_with "cred_" (id u)) eqn:Ec; [|done]. simpl in *.
    apply starts_with_spec in Ec as [x Ex]. rewrite Ex in Hl. simpl in Hl.
    apply starts_with_spec in Hl as [y Ey]. by rewrite Ey. }
  split.
  - intros t u. split.
    + intros (Hin & Hx & Ha). apply in_app_iff in Hin as [Hin|Hin].
      { apply In_filterb in Hin as [_ Hin]. by rewrite Hx in Hin. }
      apply in_map_iff in Hin as (a & <- & Hin). apply In_sort_stable in Hin. exists a. split; [|done].
      rewrite external_user_active in Ha by auto. apply Authz.In_active_at. split; [done|].
      unfold Authz.is_active_at in Ha. b2p. auto.
    + intros (a & Ha & ->). apply Authz.In_active_at in Ha as (Ha & Hr & Hw).
      assert (Hn : In (external_user th users now a) new) by (apply in_map, In_sort_stable; done).
      split; [apply in_app_iff; by right|]. split; [auto|].
      rewrite external_user_active by auto. unfold Authz.is_active_at. rewrite Hr. simpl. lia.
  - intros th' now'. apply reconcile_external_ok. split; [done|]. split; [done|].
    assert (Hold : forall u, In u (List.filter (fun u => negb (is_external u)) users ++ new) ->
      is_external u = false -> In u users).
    { intros u Hin Hx. apply in_app_iff in Hin as [Hin|Hin]; [by apply In_filterb in Hin as [Hin _]|].
      rewrite Hown in Hx; done. }
    split; [exists uuids; split; [done|]; auto|]. split; [auto|].
    rewrite filter_others by done. fold new.
    assert (Hkeep : forall u, In u (List.filter (fun u => negb (is_external u)) users) ->
      is_external u = false) by (intros u Hk; apply In_filterb in Hk as [_ Hk]; by apply negb_true_iff).
    pose proof (external_users_stable th users input now th' now' _ Hown Hnd Hkeep) as Hsame.
    fold new in Hsame.
    rewrite Hsame. split; [done|]. by rewrite bool_decide_true.
Qed.

(** ** Lease slots *)

(** The authorization a slot with full metadata stands for. *)
Definition slot_auth (s : LeaseSlotInput) : option Authz.Authorization :=
  match s_principal_id s, s_credential_id s, s_class s, s_valid_from s with
  | Some p, Some c, Some k, Some from =>
      Some {| Authz.principal_id := p; Authz.credential_id := c; Authz.class := k;
              Authz.valid_from := from; Authz.valid_until := s_expires_at s;
              Authz.revoked := s_revoked s; Authz.vless_uuid := Some (s_vless_uuid s);
              Authz.hysteria2_password := Some (s_hysteria2_password s) |}
  | _, _, _, _ => None
  end.

Lemma check_slot_auth seen s o : check_slot seen s = Ok o -> o = slot_auth s.
Proof.
  unfold check_slot, slot_auth. intros H. repeat case_scrut; simplify_eq; done.
Qed.

Lemma check_slots_auth seen l auths : check_slots seen l = Ok auths -> auths = omap slot_auth l.
Proof.
  revert seen auths. induction l as [|s l IH]; intros seen auths H; simpl in H; [by simplify_eq|].
  destruct (check_slot seen s) as [o|] eqn:E; cbn [result_bind] in H; [|discriminate].
  destruct (check_slots _ l) as [rest|] eqn:El; cbn [result_bind] in H; [|discriminate].
  apply check_slot_auth in E. apply IH in El. simplify_eq. cbn. by destruct (slot_auth s).
Qed.

(** What the agent sends: full metadata, native class. *)
Definition native_slot (s : LeaseSlotInput) : Prop :=
  exists a, slot_auth s = Some a /\ Authz.class a = Authz.Native.

Lemma native_slot_fields s a : slot_auth s = Some a ->
  slot_user_id s = Authz.credential_id a /\ s_credential_id s = Some (Authz.credential_id a)
  /\ s_principal_id s = Some (Authz.principal_id a)
  /\ s_valid_from s = Some (Authz.valid_from a) /\ s_expires_at s = Authz.valid_until a
  /\ s_revoked s = Authz.revoked a.
Proof.
  unfold slot_auth, slot_user_id. intros H. repeat case_scrut; simplify_eq; done.
Qed.

Lemma lease_user_id_eq th users now s : id (lease_user th users now s) = slot_user_id s.
Proof.
  unfold lease_user. cbn [id]. destruct (find_user _ _) as [u|] eqn:E; [|done].
  unfold find_user in E. apply List.find_some in E as [_ E]. by b2p.
Qed.

Lemma reconcile_leases_inv th users input now next ch :
  reconcile_leases th users input now = Ok (next, ch) ->
  Authz.validate (omap slot_auth input) = Ok tt
  /\ next = List.filter (fun u => negb (is_lease_user u)) users
            ++ map (lease_user th users now) (sort_by_key slot input)
  /\ ch = negb (bool_decide (next = users)).
Proof.
  unfold reconcile_leases. intros H. case_if; [discriminate|].
  destruct (check_slots [] input) as [auths|] eqn:Ec; cbn [result_bind] in H; [|discriminate].
  destruct (Authz.validate auths) as [[]|] eqn:Ev; cbn [map_err result_bind] in H; [|discriminate].
  apply check_slots_auth in Ec as ->. repeat case_if; try discriminate. injection H as <- <-. done.
Qed.

(** The guards a repeated sync meets again. *)
Lemma reconcile_leases_again th users input now next ch th' now' users' :
  reconcile_leases th users input now = Ok (next, ch) ->
  (forall u, In u users' -> is_lease_user u = false -> In u users) ->
  reconcile_leases th' users' input now' =
    let n' := List.filter (fun u => negb (is_lease_user u)) users'
              ++ map (lease_user th' users' now') (sort_by_key slot input) in
    Ok (n', negb (bool_decide (n' = users'))).
Proof.
  unfold reconcile_leases. intros H Hu. destruct (MAX_SLOTS <? _); [discriminate|].
  destruct (check_slots [] input) as [auths|]; cbn [result_bind] in *; [|discriminate].
  destruct (Authz.validate auths) as [[]|]; cbn [map_err result_bind] in *; [|discriminate].
  destruct (negb (length _ =? length input)%nat); [discriminate|].
  destruct (existsb _ users) eqn:E in H; [discriminate|].
  match goal with |- context [existsb ?f users'] => replace (existsb f users') with false; [done|] end.
  symmetry. apply existsb_false_iff. intros u Hin. rewrite existsb_false_iff in E.
  destruct (is_lease_user u) eqn:El; [done|].
  specialize (E u (Hu u Hin El)). by rewrite El in E.
Qed.

Lemma native_ids l : (forall s, In s l -> native_slot s) ->
  map slot_user_id l = map Authz.credential_id (omap slot_auth l).
Proof.
  induction l as [|s l IH]; intros Hn; [done|].
  destruct (Hn s (or_introl eq_refl)) as (a & Ha & _). cbn. rewrite Ha. cbn.
  rewrite (proj1 (native_slot_fields _ _ Ha)). f_equal. apply IH. intros; apply Hn; by right.
Qed.

Section LeaseSync.
Context (th : string -> string) (users : list CompatUser) (input : list LeaseSlotInput) (now : Z).
Context (Hnative : forall s, In s input -> native_slot s).
Context (Hval : Authz.validate (omap slot_auth input) = Ok tt).
(** No user the lease pool does not own has the id of a slot's credential. *)
Context (Hclash : forall u s, In u users -> is_lease_user u = false -> In s input ->
  s_credential_id s <> Some (id u)).

Lemma slot_item_ok s : In s input ->
  exists a, slot_auth s = Some a /\ Authz.class a = Authz.Native /\ Authz.item_ok a.
Proof using Hnative Hval.
  intros Hs. destruct (Hnative s Hs) as (a & Ha & Hc). exists a. split; [done|]. split; [done|].
  apply Authz.validate_items_of in Hval as [Hok _]. apply Hok. apply In_filter_map. eauto.
Qed.

Lemma lease_user_owned s : In s input -> is_lease_user (lease_user th users now s) = true.
Proof using Hnative Hval.
  intros Hs. destruct (slot_item_ok s Hs) as (a & Ha & Hc & [_ Hcr Hp _ _]).
  destruct (native_slot_fields _ _ Ha) as (Hi & _ & Hn & _). unfold is_lease_user.
  rewrite lease_user_id_eq, Hi, (Authz.validate_id_prefix _ _ _ Hcr). unfold lease_user. cbn [name].
  rewrite Hn. rewrite Hc in Hp. rewrite Hp. apply orb_true_r.
Qed.

Lemma lease_user_active s a t : In s input -> slot_auth s = Some a ->
  is_active (lease_user th users now s) t = Authz.is_active_at a t.
Proof using Hnative Hval.
  intros Hs Ha. destruct (slot_item_ok s Hs) as (a' & Ha' & _ & [_ Hcr _ _ _]). simplify_eq.
  destruct (native_slot_fields _ _ Ha) as (Hi & _ & _ & Hf & He & Hr). unfold is_active.
  rewrite lease_user_id_eq, Hi, (Authz.validate_id_prefix _ _ _ Hcr). unfold lease_user.
  cbn [enabled created_at expires_at]. by rewrite Hf, He, Hr.
Qed.

Lemma slot_ids_nodup : List.NoDup (map slot_user_id input).
Proof using Hnative Hval.
  rewrite native_ids by done. by apply Authz.validate_items_of in Hval as [_ Hnd].
Qed.

(** A second run rebuilds each lease user from the one the first run wrote. *)
Lemma lease_user_stable th' now' s :
  In s input ->
  lease_user th' (List.filter (fun u => negb (is_lease_user u)) users
                  ++ map (lease_user th users now) (sort_by_key slot input)) now' s
  = lease_user th users now s.
Proof using Hnative Hval Hclash.
  intros Hs. destruct (slot_item_ok s Hs) as (a & Ha & _ & _).
  destruct (native_slot_fields _ _ Ha) as (Hi & Hcid & _ & Hf & _ & _).
  unfold lease_user at 1. replace (find_user _ _) with (Some (lease_user th users now s)).
  - unfold lease_user. cbn. by rewrite Hf.
  - symmetry. apply (find_owned slot_user_id).
    + intros u Hu. apply In_filterb in Hu as [Hu Hl]. apply negb_true_iff in Hl.
      apply String.eqb_neq. intros E. apply (Hclash u s); [done|done|done|]. congruence.
    + intros x _. by rewrite lease_user_id_eq.
    + eapply Permutation_NoDup; [apply Permutation_map, sort_stable_perm|apply slot_ids_nodup].
    + by apply In_sort_stable.
Qed.
End LeaseSync.

(** An accepted lease-pool sync of native slots, none of whose credential
    ids belongs to another kind of user, makes the user store implement the
    slot set: other users are kept unchanged and in order (external ones among
    them), the lease users active at any instant are exactly one per slot that
    is not revoked and whose window contains it, and repeating the sync
    changes nothing, so it restarts nothing. *)
Theorem lease_sync_refines th users input now next ch :
  reconcile_leases th users input now = Ok (next, ch) ->
  (forall s, In s input -> native_slot s) ->
  (forall u s, In u users -> is_lease_user u = false -> In s input -> s_credential_id s <> Some (id u)) ->
  List.filter (fun u => negb (is_lease_user u)) next = List.filter (fun u => negb (is_lease_user u)) users
  /\ List.filter is_external next = List.filter is_external users
  /\ (forall t u, In u next /\ is_lease_user u = true /\ is_active u t = true <->
        exists s a, In s input /\ slot_auth s = Some a /\ Authz.is_active_at a t = true
          /\ u = lease_user th users now s)
  /\ (forall th' now', reconcile_leases th' next input now' = Ok (next, false)).
Proof.
  intros H Hn Hclash. pose proof H as Hagain.
  apply reconcile_leases_inv in H as (Hv & -> & _).
  set (new := map (lease_user th users now) (sort_by_key slot input)).
  assert (Hown : forall u, In u new -> is_lease_user u = true).
  { intros u Hu. apply in_map_iff in Hu as (s & <- & Hs). apply In_sort_stable in Hs.
    by apply lease_user_owned with (input := input). }
  split; [by apply filter_others|]. split.
  { apply filter_disjoint; [|done]. intros u. unfold is_lease_user, is_external. intros Hx.
    apply andb_true_iff in Hx as [H1 H2].
    apply starts_with_spec in H1 as [x ->], H2 as [y ->].
    rewrite starts_with_app. reflexivity. }
  split.
  - intros t u. split.
    + intros (Hin & Hl & Ha). apply in_app_iff in Hin as [Hin|Hin].
      { apply In_filterb in Hin as [_ Hin]. by rewrite Hl in Hin. }
      apply in_map_iff in Hin as (s & <- & Hs). apply In_sort_stable in Hs.
      destruct (slot_item_ok input Hn Hv s Hs) as (a & Hsa & _ & _). exists s, a.
      rewrite (lease_user_active th users input now Hn Hv s a) in Ha by done. done.
    + intros (s & a & Hs & Hsa & Ha & ->).
      assert (Hnew : In (lease_user th users now s) new) by (apply in_map, In_sort_stable; done).
      split; [apply in_app_iff; by right|]. split; [auto|].
      by rewrite (lease_user_active th users input now Hn Hv s a).
  - intros th' now'. rewrite (reconcile_leases_again _ _ _ _ _ _ th' now' _ Hagain).
    + cbv zeta. rewrite filter_others by done. fold new.
      assert (Hsame : map (lease_user th' (List.filter (fun u => negb (is_lease_user u)) users ++ new) now')
        (sort_by_key slot input) = new).
      { apply map_ext_in. intros s Hs. apply In_sort_stable in Hs. by apply lease_user_stable. }
      rewrite Hsame. by rewrite bool_decide_true.
    + intros u Hin Hl. apply in_app_iff in Hin as [Hin|Hin].
      * by apply In_filterb in Hin as [Hin _].
      * by rewrite (Hown u Hin) in Hl.
Qed.

(** ** Witnesses *)

Definition ex_hash (i : string) : string := "h" +:+ i.
Definition ex_ext : list Authz.Authorization :=
  [Authz.ex_auth "cred_opaque001" Authz.Compatibility 100 170000].
Definition ex_slot_input (n : Z) : LeaseSlotInput :=
  {| slot := n; s_vless_uuid := Creds.generate_uuid_v4 (repeat n 16);
     s_hysteria2_password := Creds.hex_bytes (repeat n 24); s_expires_at := 2800;
     s_principal_id := Some (Creds.generate_native_principal_id (repeat n 16));
     s_credential_id := Some (Creds.generate_credential_id (repeat n 16));
     s_class := Some Authz.Native; s_valid_from := Some 1000; s_revoked := false |}.
Definition ex_input : list LeaseSlotInput := [ex_slot_input 2; ex_slot_input 1].

Lemma external_sync_refines_witness :
  exists next ch, reconcile_external ex_hash [ex_user] ex_ext 150 = Ok (next, ch) /\ ch = true
    /\ reconcile_external ex_hash next ex_ext 999 = Ok (next, false).
Proof.
  destruct (reconcile_external ex_hash [ex_user] ex_ext 150) as [[next ch]|e] eqn:E;
    [|vm_compute in E; discriminate].
  exists next, ch. split; [reflexivity|]. split.
  - vm_compute in E. congruence.
  - exact (proj2 (proj2 (proj2 (external_sync_refines _ _ _ _ _ _ E))) ex_hash 999).
Defined.

Lemma lease_sync_refines_witness :
  exists next ch, reconcile_leases ex_hash [ex_user] ex_input 1500 = Ok (next, ch) /\ length next = 3%nat
    /\ reconcile_leases ex_hash next ex_input 1600 = Ok (next, false).
Proof.
  destruct (reconcile_leases ex_hash [ex_user] ex_input 1500) as [[next ch]|e] eqn:E;
    [|vm_compute in E; discriminate].
  exists next, ch. split; [reflexivity|]. split.
  - vm_compute in E. injection E as <- <-. reflexivity.
  - refine (proj2 (proj2 (proj2 (lease_sync_refines _ _ _ _ _ _ E _ _))) ex_hash 1600).
    + intros s [<-|[<-|[]]]; eexists; split; reflexivity.
    + intros u s [<-|[]] _ [<-|[<-|[]]]; discriminate.
Defined.

(** The lease writer does not refuse a credential id that another kind of user
    already has: the store then holds two users with one id. *)
Lemma lease_id_clash_accepted :
  let clash := blank_user (Creds.generate_credential_id (repeat 1 16)) "operator" true "h" 0 in
  exists next ch, reconcile_leases ex_hash [clash] [ex_slot_input 1] 1500 = Ok (next, ch)
    /\ map id next = [id clash; id clash].
Proof.
  cbv zeta. eexists _, _. split; [vm_compute; reflexivity|reflexivity].
Qed.

End AdminReconcile.
