(* ===== verification/AdminUsers.v ===== *)
(** * apps/admin/src/main.rs: the commands that change the user store

    [vpn-admin user ...], [lease-pool-sync] and [external-authorizations]:
    each loads [users.json], edits the list, and either applies the change to
    the running server before it saves ([apply_users_and_save]) or only saves.
    What the operating system draws at random and the clock are inputs of a
    run; printing is not modelled, the value a command returns is what its
    message depends on. *)

From S2P Require Import Prelude Strs Net NetText AddressPolicy Authorization Credentials Grants Json Contract.
From S2P Require Import Render Deployment Server ServerPolicy ServerDoctor Store ConfigApply AdminApply.
From S2P Require Import AdminReconcile.
From Stdlib Require Import Ascii.

Module AdminUsers.
Import Creds Store ConfigApply AdminApply Grants.

(** ** Field updates *)

Definition set_enabled (x : bool) (u : CompatUser) : CompatUser :=
  {| id := id u; name := name u; enabled := x; u_vless_uuid := u_vless_uuid u;
     u_hysteria2_password := u_hysteria2_password u; subscription_token_hash_hex := subscription_token_hash_hex u;
     created_at := created_at u; expires_at := expires_at u; vision_off_experiment := vision_off_experiment u;
     google_egress_hairpin := google_egress_hairpin u; exit_principal := exit_principal u;
     peer_credentials := peer_credentials u; is_reserved_probe := is_reserved_probe u;
     credentials := credentials u |}.
Definition set_expires_at (x : option Z) (u : CompatUser) : CompatUser :=
  {| id := id u; name := name u; enabled := enabled u; u_vless_uuid := u_vless_uuid u;
     u_hysteria2_password := u_hysteria2_password u; subscription_token_hash_hex := subscription_token_hash_hex u;
     created_at := created_at u; expires_at := x; vision_off_experiment := vision_off_experiment u;
     google_egress_hairpin := google_egress_hairpin u; exit_principal := exit_principal u;
     peer_credentials := peer_credentials u; is_reserved_probe := is_reserved_probe u;
     credentials := credentials u |}.
Definition set_vision_off (x : bool) (u : CompatUser) : CompatUser :=
  {| id := id u; name := name u; enabled := enabled u; u_vless_uuid := u_vless_uuid u;
     u_hysteria2_password := u_hysteria2_password u; subscription_token_hash_hex := subscription_token_hash_hex u;
     created_at := created_at u; expires_at := expires_at u; vision_off_experiment := x;
     google_egress_hairpin := google_egress_hairpin u; exit_principal := exit_principal u;
     peer_credentials := peer_credentials u; is_reserved_probe := is_reserved_probe u;
     credentials := credentials u |}.
Definition set_hairpin (x : bool) (u : CompatUser) : CompatUser :=
  {| id := id u; name := name u; enabled := enabled u; u_vless_uuid := u_vless_uuid u;
     u_hysteria2_password := u_hysteria2_password u; subscription_token_hash_hex := subscription_token_hash_hex u;
     created_at := created_at u; expires_at := expires_at u; vision_off_experiment := vision_off_experiment u;
     google_egress_hairpin := x; exit_principal := exit_principal u; peer_credentials := peer_credentials u;
     is_reserved_probe := is_reserved_probe u; credentials := credentials u |}.
Definition set_token_hash (x : string) (u : CompatUser) : CompatUser :=
  {| id := id u; name := name u; enabled := enabled u; u_vless_uuid := u_vless_uuid u;
     u_hysteria2_password := u_hysteria2_password u; subscription_token_hash_hex := x; created_at := created_at u;
     expires_at := expires_at u; vision_off_experiment := vision_off_experiment u;
     google_egress_hairpin := google_egress_hairpin u; exit_principal := exit_principal u;
     peer_credentials := peer_credentials u; is_reserved_probe := is_reserved_probe u;
     credentials := credentials u |}.
Definition set_vless_uuid (x : string) (u : CompatUser) : CompatUser :=
  {| id := id u; name := name u; enabled := enabled u; u_vless_uuid := x;
     u_hysteria2_password := u_hysteria2_password u; subscription_token_hash_hex := subscription_token_hash_hex u;
     created_at := created_at u; expires_at := expires_at u; vision_off_experiment := vision_off_experiment u;
     google_egress_hairpin := google_egress_hairpin u; exit_principal := exit_principal u;
     peer_credentials := peer_credentials u; is_reserved_probe := is_reserved_probe u;
     credentials := credentials u |}.
Definition set_password (x : string) (u : CompatUser) : CompatUser :=
  {| id := id u; name := name u; enabled := enabled u; u_vless_uuid := u_vless_uuid u; u_hysteria2_password := x;
     subscription_token_hash_hex := subscription_token_hash_hex u; created_at := created_at u;
     expires_at := expires_at u; vision_off_experiment := vision_off_experiment u;
     google_egress_hairpin := google_egress_hairpin u; exit_principal := exit_principal u;
     peer_credentials := peer_credentials u; is_reserved_probe := is_reserved_probe u;
     credentials := credentials u |}.
Definition set_peers (x : list (string * PeerCredential)) (u : CompatUser) : CompatUser :=
  {| id := id u; name := name u; enabled := enabled u; u_vless_uuid := u_vless_uuid u;
     u_hysteria2_password := u_hysteria2_password u; subscription_token_hash_hex := subscription_token_hash_hex u;
     created_at := created_at u; expires_at := expires_at u; vision_off_experiment := vision_off_experiment u;
     google_egress_hairpin := google_egress_hairpin u; exit_principal := exit_principal u; peer_credentials := x;
     is_reserved_probe := is_reserved_probe u; credentials := credentials u |}.
Definition set_credentials (x : list CredentialGrant) (u : CompatUser) : CompatUser :=
  {| id := id u; name := name u; enabled := enabled u; u_vless_uuid := u_vless_uuid u;
     u_hysteria2_password := u_hysteria2_password u; subscription_token_hash_hex := subscription_token_hash_hex u;
     created_at := created_at u; expires_at := expires_at u; vision_off_experiment := vision_off_experiment u;
     google_egress_hairpin := google_egress_hairpin u; exit_principal := exit_principal u;
     peer_credentials := peer_credentials u; is_reserved_probe := is_reserved_probe u; credentials := x |}.

(** ** Finding and editing a user *)

(** [find_user_mut] and the change made through the reference. *)
Fixpoint find_user_mut (users : list CompatUser) (uid : string) (mutate : CompatUser -> result CompatUser refusal)
  : result (list CompatUser) refusal :=
  match users with
  | [] => Err NoSuchUser
  | u :: rest =>
      if String.eqb (id u) uid then let? u' := mutate u in Ok (u' :: rest)
      else let? rest' := find_user_mut rest uid mutate in Ok (u :: rest')
  end.

Definition find_user (users : list CompatUser) (uid : string) : option CompatUser :=
  List.find (fun u => String.eqb (id u) uid) users.

Definition resolve_user_selector (users : list CompatUser) (selector : string) : result CompatUser refusal :=
  match find_user users selector with
  | Some by_id => Ok by_id
  | None =>
      match List.filter (fun u => negb (is_reserved_probe u) && String.eqb (name u) selector) users with
      | [] => Err NoSuchUser
      | [only] => Ok only
      | many => Err (AmbiguousName (Z.of_nat (length many)))
      end
  end.

(** [cmd_user_list]: the rows printed. *)
Definition cmd_user_list (users : list CompatUser) : list (string * string * bool) :=
  map (fun u => (id u, name u, enabled u)) (List.filter (fun u => negb (is_reserved_probe u)) users).

(** ** Creating *)

Definition MAX_USER_DISPLAY_NAME_CHARS : Z := 128.
Definition validate_user_display_name (n : string) : result unit refusal :=
  if Render.has_control n then Err ControlCharacters else
  if MAX_USER_DISPLAY_NAME_CHARS <? Render.chars_count n then Err NameTooLong else Ok tt.

Definition PROBE_USER_NAME : string := "arcana-probe".
Definition RESERVED_SELFTEST_USER_NAME : string := "arcana-selftest".

(** What one run draws: candidate ids until one is free, and secrets. *)
Record Draws := {
  d_ids : list (list Z);
  d_uuid : list Z;
  d_password : list Z;
  d_token : list Z;
  d_principal : list Z }.

(** [while users.iter().any(|u| u.id == id)]. *)
Fixpoint draw_id (draws : list (list Z)) (users : list CompatUser) : result string refusal :=
  match draws with
  | [] => Err NoFreeId
  | b :: rest =>
      let candidate := generate_user_id b in
      if existsb (fun u => String.eqb (id u) candidate) users then draw_id rest users else Ok candidate
  end.

Section Tokens.
Context (b64_encode hex_encode : list Z -> string) (sha256_hex : string -> string).

Definition new_user (uid n : string) (expires : option Z) (now : Z) (probe : bool) (d : Draws) : CompatUser :=
  {| id := uid; name := n; enabled := true; u_vless_uuid := generate_uuid_v4 (d_uuid d);
     u_hysteria2_password := generate_hysteria2_password hex_encode (d_password d);
     subscription_token_hash_hex := hash_token sha256_hex (generate_subscription_token b64_encode (d_token d));
     created_at := now; expires_at := expires; vision_off_experiment := false; google_egress_hairpin := false;
     exit_principal := false; peer_credentials := []; is_reserved_probe := probe; credentials := [] |}.
Definition build_new_operator_user (uid n : string) (expires : option Z) (now : Z) (d : Draws) : CompatUser :=
  new_user uid n expires now false d.
End Tokens.

(** ** Peer credentials *)

Definition find_peer_endpoint (cfg : Deployment.DeploymentConfig) (endpoint_id : string)
  : result Deployment.PeerEndpointSection refusal :=
  ok_or (List.find (fun p => String.eqb (Deployment.pe_id p) endpoint_id) (Deployment.peer_endpoints cfg)) NoSuchPeerEndpoint.

Definition peer_credential_from_flags (peer : Deployment.PeerEndpointSection) (uuid password : option string)
  : result PeerCredential refusal :=
  match Deployment.pe_transport peer, uuid, password with
  | VlessReality, Some u, None =>
      if negb (is_uuid_v4_shaped (trim u)) then Err BadPeerUuid else Ok (PeerVlessReality (trim u))
  | Hysteria2, None, Some p => if str_is_empty (trim p) then Err EmptyPeerPassword else Ok (PeerHysteria2 p)
  | VlessReality, _, Some _ => Err WrongPeerTransport
  | Hysteria2, Some _, _ => Err WrongPeerTransport
  | _, None, None => Err MissingPeerCredential
  end.

(** [trim_end_matches(['\r', '\n'])]. *)
Definition is_newline (c : ascii) : bool := (Ascii.eqb c (ascii_of_nat 10) || Ascii.eqb c (ascii_of_nat 13))%bool.
Fixpoint trim_newlines (s : string) : string :=
  match s with
  | EmptyString => EmptyString
  | String c rest =>
      match trim_newlines rest with
      | EmptyString => if is_newline c then EmptyString else String c EmptyString
      | rest' => String c rest'
      end
  end.
Definition read_secret_from_stdin (line : string) : result string refusal :=
  let value := trim_newlines line in
  if str_is_empty (trim value) then Err MissingPeerCredential else Ok value.

Inductive PeerCredentialSource := Stdin (line : string) | Arguments (uuid password : option string).

Definition peer_credential_from_source (peer : Deployment.PeerEndpointSection) (source : PeerCredentialSource)
  : result PeerCredential refusal :=
  match source with
  | Stdin line =>
      let? value := read_secret_from_stdin line in
      match Deployment.pe_transport peer with
      | VlessReality => peer_credential_from_flags peer (Some value) None
      | Hysteria2 => peer_credential_from_flags peer None (Some value)
      end
  | Arguments uuid password => peer_credential_from_flags peer uuid password
  end.

Definition insert_peer (endpoint_id : string) (credential : PeerCredential) (require_existing : bool) (u : CompatUser)
  : result CompatUser refusal :=
  if require_existing && negb (contains_key endpoint_id (peer_credentials u)) then Err NoPeerCredential
  else Ok (set_peers (btree_insert endpoint_id credential (peer_credentials u)) u).
Definition remove_peer (endpoint_id : string) (u : CompatUser) : result CompatUser refusal :=
  if contains_key endpoint_id (peer_credentials u)
  then Ok (set_peers (btree_remove endpoint_id (peer_credentials u)) u) else Err NoPeerCredential.

(** ** Renewing a native grant *)

Fixpoint renew_principal (principal : string) (until now : Z) (l : list CredentialGrant)
  : result (list CredentialGrant) refusal :=
  match l with
  | [] => Ok []
  | g :: rest =>
      if String.eqb (principal_id g) principal
      then let? g' := map_err RenewRefused (renew_until g until now) in Ok (g' :: rest)
      else let? rest' := renew_principal principal until now rest in Ok (g :: rest')
  end.
Definition renew_or_mint (hex_encode : list Z -> string) (now : Z) (d : Draws) (u : CompatUser) : result CompatUser refusal :=
  let new_valid_until := now + NATIVE_LEASE_SECS in
  match current_grant u Native now with
  | Some g =>
      let? l := renew_principal (principal_id g) new_valid_until now (credentials u) in Ok (set_credentials l u)
  | None =>
      let grant := Grants.new (generate_hysteria2_password hex_encode (d_password d)) (generate_principal_id hex_encode Native (d_principal d))
                     Native (generate_uuid_v4 (d_uuid d)) now new_valid_until in
      Ok (set_credentials (credentials u ++ [grant]) u)
  end.

(** ** The commands *)

(** What the message of a command depends on. *)
Inductive outcome := Applied (went_live : bool) | Stored | Reused (uid : string).

Section Commands.
Context (me_uid umask : Z) (new_gid : string -> Z) (pid : string) (check : string -> bool).
Context (b64_decode : string -> option (list Z)) (b64_encode hex_encode : list Z -> string) (sha256_hex : string -> string)
  (mul_base_clamped : list Z -> list Z).
Context {V : Type} `{JsonOps V, !JsonTree V, !JsonEq V}.
Context (ser_pretty ser_compact : V -> string) (de : string -> option V).
Context (ser_users : UsersFile -> string) (de_users : string -> option UsersFile)
  (de_legacy : string -> option (list CompatUser)).
(** The two synchronisation documents as serde reads them. *)
Context (de_slots : string -> option (list AdminReconcile.LeaseSlotInput))
  (de_authorizations : string -> option (list Authz.Authorization)) (token_hash : string -> string).
Context (cfg : Deployment.DeploymentConfig) (d : Draws).
(** The host as the change is applied and as it is rolled back. *)
Context (h h' : Host).

Definition load_store : aio (list CompatUser) := lift_io LoadFailed (load_users de_users de_legacy (users_file cfg)).
Definition save_store (us : list CompatUser) : aio unit :=
  lift_io WriteFailed (save_users_atomic me_uid umask new_gid pid ser_users (users_file cfg) us).
Definition refuse {A} (r : result A refusal) : aio A := match r with Ok a => aret a | Err e => athrow (Refused e) end.
Definition apply_and_save (previous us : list CompatUser) : aio outcome :=
  go! went_live := apply_users_and_save me_uid umask new_gid pid check b64_decode b64_encode sha256_hex mul_base_clamped
                     ser_pretty ser_compact de ser_users cfg previous us h h' in
  aret (Applied went_live).
Definition apply_only (us : list CompatUser) : aio outcome :=
  go! went_live := render_and_apply_singbox_config me_uid umask new_gid pid check b64_decode b64_encode sha256_hex
                     mul_base_clamped ser_pretty ser_compact de cfg us true h in
  aret (Applied went_live).

Definition cmd_user_create (n : string) (expires : option Z) : aio outcome :=
  go! _ := refuse (validate_user_display_name n) in
  go! users := load_store in
  go! uid := refuse (draw_id (d_ids d) users) in
  apply_and_save users (users ++ [build_new_operator_user b64_encode hex_encode sha256_hex uid n expires (now h) d]).

Definition cmd_user_create_probe (requested : option string) : aio outcome :=
  let n := Render.unwrap_or requested RESERVED_SELFTEST_USER_NAME in
  if negb (String.eqb n PROBE_USER_NAME) && negb (String.eqb n RESERVED_SELFTEST_USER_NAME)
  then athrow (Refused NotReservedName) else
  go! users := load_store in
  match List.find (fun u => String.eqb (name u) n) users with
  | Some existing => if negb (is_reserved_probe existing) then athrow (Refused OrdinaryUserHasName) else aret (Reused (id existing))
  | None =>
      go! uid := refuse (draw_id (d_ids d) users) in
      apply_and_save users (users ++ [new_user b64_encode hex_encode sha256_hex uid n None (now h) true d])
  end.

(** Load, change one user, apply, save. *)
Definition change_user (uid : string) (mutate : CompatUser -> result CompatUser refusal) : aio outcome :=
  go! users := load_store in
  go! users' := refuse (find_user_mut users uid mutate) in
  apply_and_save users users'.
(** The same without the running server. *)
Definition change_stored_user (uid : string) (mutate : CompatUser -> result CompatUser refusal) : aio outcome :=
  go! users := load_store in
  go! users' := refuse (find_user_mut users uid mutate) in
  go! _ := save_store users' in
  aret Stored.

Definition cmd_user_set_enabled (uid : string) (on : bool) : aio outcome := change_user uid (fun u => Ok (set_enabled on u)).
Definition cmd_user_vision_off_experiment (uid : string) (on : bool) : aio outcome :=
  change_user uid (fun u => Ok (set_vision_off on u)).
Definition cmd_user_google_egress_hairpin (uid : string) (on : bool) : aio outcome :=
  change_user uid (fun u => Ok (set_hairpin on u)).
Definition rotate_and_apply (uid : string) (mutate : CompatUser -> CompatUser) : aio outcome :=
  change_user uid (fun u => Ok (mutate u)).
Definition cmd_user_rotate_vless (uid : string) : aio outcome := rotate_and_apply uid (set_vless_uuid (generate_uuid_v4 (d_uuid d))).
Definition cmd_user_rotate_hysteria (uid : string) : aio outcome :=
  rotate_and_apply uid (set_password (generate_hysteria2_password hex_encode (d_password d))).
Definition cmd_user_rotate_credentials (uid : string) : aio outcome :=
  rotate_and_apply uid (fun u => set_password (generate_hysteria2_password hex_encode (d_password d))
                                   (set_vless_uuid (generate_uuid_v4 (d_uuid d)) u)).
Definition cmd_user_renew_native (uid : string) : aio outcome := change_user uid (renew_or_mint hex_encode (now h) d).
Definition cmd_user_rotate_token (uid : string) : aio outcome :=
  change_stored_user uid (fun u => Ok (set_token_hash (hash_token sha256_hex (generate_subscription_token b64_encode (d_token d))) u)).

Definition cmd_user_set_expiry (uid : string) (expires : option Z) : aio outcome :=
  go! users := load_store in
  match find_user users uid with
  | None => athrow (Refused NoSuchUser)
  | Some before =>
      go! users' := refuse (find_user_mut users uid (fun u => Ok (set_expires_at expires u))) in
      match find_user users' uid with
      | None => athrow (Refused NoSuchUser)
      | Some after =>
          if Bool.eqb (is_active before (now h)) (is_active after (now h))
          then go! _ := save_store users' in aret Stored
          else apply_and_save users users'
      end
  end.

Definition cmd_user_remove (uid : string) : aio outcome :=
  go! users := load_store in
  let rest := List.filter (fun u => negb (String.eqb (id u) uid)) users in
  if (length rest =? length users)%nat then athrow (Refused NoSuchUser) else apply_and_save users rest.

Definition cmd_user_peer_set (uid endpoint_id : string) (source : PeerCredentialSource) (require_existing : bool) : aio outcome :=
  go! peer := refuse (find_peer_endpoint cfg endpoint_id) in
  go! credential := refuse (peer_credential_from_source peer source) in
  change_stored_user uid (insert_peer endpoint_id credential require_existing).
Definition cmd_user_peer_remove (uid endpoint_id : string) : aio outcome := change_stored_user uid (remove_peer endpoint_id).

Definition read_input (p : path) : aio string :=
  go! r := lift_result (read_file p) in match r with Ok text => aret text | Err _ => athrow (Refused InputUnreadable) end.

Definition cmd_lease_pool_sync (input : path) : aio outcome :=
  go! text := read_input input in
  go! parsed := refuse (ok_or (de_slots text) Unparsable) in
  go! users := load_store in
  go! reconciled := refuse (map_err (fun _ => SyncRefused) (AdminReconcile.reconcile_leases token_hash users parsed (now h))) in
  if snd reconciled then apply_and_save users (fst reconciled) else apply_only (fst reconciled).
Definition cmd_external_authorizations (input : path) : aio outcome :=
  go! text := read_input input in
  go! parsed := refuse (ok_or (de_authorizations text) Unparsable) in
  go! users := load_store in
  go! reconciled := refuse (map_err (fun _ => SyncRefused) (AdminReconcile.reconcile_external token_hash users parsed (now h))) in
  if snd reconciled then apply_and_save users (fst reconciled) else apply_only (fst reconciled).

Inductive UserCommand :=
| Create (n : string) (expires : option Z)
| CreateProbe (n : option string)
| SetEnabled (uid : string) (on : bool)
| SetExpiry (uid : string) (expires : option Z)
| VisionOffExperiment (uid : string) (on : bool)
| GoogleEgressHairpin (uid : string) (on : bool)
| RotateToken (uid : string)
| RotateVless (uid : string)
| RotateHysteria (uid : string)
| RotateCredentials (uid : string)
| RenewNative (uid : string)
| Remove (uid : string)
| PeerSet (uid endpoint_id : string) (source : PeerCredentialSource) (require_existing : bool)
| PeerRemove (uid endpoint_id : string).

Definition run_command (c : UserCommand) : aio outcome :=
  match c with
  | Create n e => cmd_user_create n e
  | CreateProbe n => cmd_user_create_probe n
  | SetEnabled u on => cmd_user_set_enabled u on
  | SetExpiry u e => cmd_user_set_expiry u e
  | VisionOffExperiment u on => cmd_user_vision_off_experiment u on
  | GoogleEgressHairpin u on => cmd_user_google_egress_hairpin u on
  | RotateToken u => cmd_user_rotate_token u
  | RotateVless u => cmd_user_rotate_vless u
  | RotateHysteria u => cmd_user_rotate_hysteria u
  | RotateCredentials u => cmd_user_rotate_credentials u
  | RenewNative u => cmd_user_renew_native u
  | Remove u => cmd_user_remove u
  | PeerSet u e s r => cmd_user_peer_set u e s r
  | PeerRemove u e => cmd_user_peer_remove u e
  end.

(** ** What a command does to the list *)

Definition edit (c : UserCommand) (us : list CompatUser) : result (list CompatUser) refusal :=
  match c with
  | Create n e =>
      let? _ := validate_user_display_name n in
      let? uid := draw_id (d_ids d) us in
      Ok (us ++ [build_new_operator_user b64_encode hex_encode sha256_hex uid n e (now h) d])
  | CreateProbe requested =>
      let n := Render.unwrap_or requested RESERVED_SELFTEST_USER_NAME in
      if negb (String.eqb n PROBE_USER_NAME) && negb (String.eqb n RESERVED_SELFTEST_USER_NAME) then Err NotReservedName else
      match List.find (fun u => String.eqb (name u) n) us with
      | Some existing => if is_reserved_probe existing then Ok us else Err OrdinaryUserHasName
      | None =>
          let? uid := draw_id (d_ids d) us in
          Ok (us ++ [new_user b64_encode hex_encode sha256_hex uid n None (now h) true d])
      end
  | SetEnabled uid on => find_user_mut us uid (fun u => Ok (set_enabled on u))
  | SetExpiry uid e => find_user_mut us uid (fun u => Ok (set_expires_at e u))
  | VisionOffExperiment uid on => find_user_mut us uid (fun u => Ok (set_vision_off on u))
  | GoogleEgressHairpin uid on => find_user_mut us uid (fun u => Ok (set_hairpin on u))
  | RotateToken uid =>
      find_user_mut us uid (fun u => Ok (set_token_hash (hash_token sha256_hex (generate_subscription_token b64_encode (d_token d))) u))
  | RotateVless uid => find_user_mut us uid (fun u => Ok (set_vless_uuid (generate_uuid_v4 (d_uuid d)) u))
  | RotateHysteria uid => find_user_mut us uid (fun u => Ok (set_password (generate_hysteria2_password hex_encode (d_password d)) u))
  | RotateCredentials uid =>
      find_user_mut us uid (fun u => Ok (set_password (generate_hysteria2_password hex_encode (d_password d))
                                           (set_vless_uuid (generate_uuid_v4 (d_uuid d)) u)))
  | RenewNative uid => find_user_mut us uid (renew_or_mint hex_encode (now h) d)
  | Remove uid =>
      let rest := List.filter (fun u => negb (String.eqb (id u) uid)) us in
      if (length rest =? length us)%nat then Err NoSuchUser else Ok rest
  | PeerSet uid ep source req =>
      let? peer := find_peer_endpoint cfg ep in
      let? credential := peer_credential_from_source peer source in
      find_user_mut us uid (insert_peer ep credential req)
  | PeerRemove uid ep => find_user_mut us uid (remove_peer ep)
  end.

(** ** Lemmas: effects *)

Local Notation stored := (stored_users de_users de_legacy cfg).
Local Notation honest := (stamp_honest sha256_hex ser_compact de cfg).
Local Notation trusted_state := (trusted me_uid umask new_gid pid check b64_decode b64_encode sha256_hex mul_base_clamped
  ser_pretty ser_compact de cfg).
Local Notation load_at s := (load_users de_users de_legacy (users_file cfg) (st_fs s) (st_faults s)).

(** The process has loaded the configuration of [us], rendered under the key
    files as they were in [s]. *)
Definition serves (us : list CompatUser) (s s' : St) : Prop :=
  exists s1 doc c, files (st_fs s1) = files (st_fs s) /\
    rendering b64_decode b64_encode mul_base_clamped cfg us h s1 doc /\ st_loaded s' = Some c /\ de c = Some doc.

Definition untouched (s s' : St) : Prop := files (st_fs s') = files (st_fs s) /\ st_loaded s' = st_loaded s.

Lemma untouched_refl s : untouched s s.
Proof. done. Qed.
Lemma untouched_stored s s' : untouched s s' -> stored s' = stored s.
Proof. intros [E _]. apply stored_same. by rewrite E. Qed.

Lemma refuse_ok {A} (r : result A refusal) s a s' : refuse r s = (Ok a, s') -> r = Ok a /\ s' = s.
Proof. destruct r; [intros [= -> ->]; auto|discriminate]. Qed.
Lemma refuse_err {A} (r : result A refusal) s e s' : refuse r s = (Err e, s') -> s' = s /\ exists e0, r = Err e0 /\ e = Refused e0.
Proof. destruct r; [discriminate|]. intros [= <- <-]. eauto. Qed.

Lemma load_users_frame p : frame (fun _ => False) (load_users de_users de_legacy p).
Proof.
  apply frame_bind; [apply exists_frame|]. intros [|]; simpl; [|apply frame_ret].
  apply frame_bind; [apply read_frame|]. intros bytes. apply frame_lift.
Qed.
Lemma load_users_quiet p : quiet (load_users de_users de_legacy p).
Proof.
  unfold load_users, exists_, metadata, read_file.
  apply quiet_bind; [apply quiet_bind; [apply quiet_try, quiet_syscall|intros ?; apply quiet_ret]|].
  intros [|]; simpl; [|apply quiet_ret]. apply quiet_bind; [apply quiet_syscall|]. intros bytes.
  unfold lift. by intros fs r fs' fl' [= <- <- <-].
Qed.

(** A load is what [load_users] returns; it writes nothing. *)
Lemma load_store_spec s :
  exists s1, untouched s s1 /\ (honest s -> honest s1) /\
    load_store s = (match load_at s with (Ok us, _, _) => Ok us | (Err e, _, _) => Err (LoadFailed e) end, s1).
Proof.
  unfold load_store, lift_io, abind, lift_result. destruct (load_at s) as [[r fs] fl] eqn:E.
  set (s1 := Build_St fs _ fl _). exists s1.
  assert (Hd : drifts (singbox_config_file cfg) s s1).
  { eapply (lift_quiet_drifts _ (load_users de_users de_legacy (users_file cfg)));
      [apply load_users_frame|apply load_users_quiet|]. unfold lift_result. by rewrite E. }
  split; [split; [apply Hd|done]|]. split; [by apply drifts_honest|]. by destruct r.
Qed.

Context {JEL : JsonEqLaws V}.
Hypothesis serde : forall v, de (ser_pretty v) = Some v.
Hypothesis serde_users : forall f, de_users (ser_users f) = Some f.

(** How a run ends when the edited list is [us']; [T] says that the stamp is to
    be relied on. *)
Definition published (T : Prop) (us' : list CompatUser) (s : St) (r : result outcome admin_error) (s' : St) : Prop :=
  match r with
  | Ok (Applied live) => stored s' = Ok us' /\ (live = true -> T -> serves us' s s')
  | Ok Stored => stored s' = Ok us' /\ st_loaded s' = st_loaded s
  | Ok (Reused _) => untouched s s'
  | Err _ => stored s' = stored s
  end.

Lemma published_after (T T1 : Prop) us' s s1 r s' : (T -> T1) -> untouched s s1 -> published T1 us' s1 r s' -> published T us' s r s'.
Proof.
  intros HT Hu. pose proof (untouched_stored _ _ Hu) as Hs. destruct Hu as [Hf Hl].
  destruct r as [[live| |uid]|e]; simpl; rewrite ?Hs, ?Hl; try done.
  - intros [H1 H2]. split; [done|]. intros Hlive Ht. destruct (H2 Hlive (HT Ht)) as (s2 & doc & c & E & Hr). exists s2, doc, c. by rewrite <- Hf.
  - intros [E1 E2]. split; congruence.
Qed.

Lemma apply_and_save_spec previous us s r s' :
  apply_and_save previous us s = (r, s') -> published (honest s) us s r s'.
Proof.
  unfold apply_and_save. intros E.
  apply abind_inv in E as [(live & s1 & E & E1)|(e & E & ->)];
    eapply (apply_users_and_save_spec _ _ _ _ _ _ _ _ _ _ _ _ _ serde de_users de_legacy serde_users) in E.
  - injection E1 as <- <-. destruct E as [H1 H2]. split; [done|]. intros Hl Hh.
    destruct (H2 Hl Hh) as (doc & c & Hr). by exists s, doc, c.
  - done.
Qed.

Lemma apply_and_save_ok previous us s out s' :
  apply_and_save previous us s = (Ok out, s') -> exists live, out = Applied live.
Proof.
  intros E. apply abind_inv in E as [(live & s1 & _ & E1)|(e & _ & E1)]; [|discriminate]. injection E1 as <- <-. eauto.
Qed.

Lemma apply_only_spec us s r s' :
  apply_only us s = (r, s') ->
  stored s' = stored s /\
  match r with Ok out => exists live, out = Applied live /\ (live = true -> honest s -> serves us s s') | Err _ => True end.
Proof.
  unfold apply_only, render_and_apply_singbox_config. intros E.
  apply abind_inv in E as [(live & s1 & E & E1)|(e & E & ->)]; pose proof (apply_keeps_users _ _ _ _ _ _ _ _ _ _ _ _ de_users de_legacy _ _ _ _ _ _ _ _ E) as Hk.
  - injection E1 as <- <-. split; [done|]. exists live. split; [done|]. intros -> Hh.
    apply render_and_apply_live in E as [(doc & c & Hr) _]; [|done|done|done]. by exists s, doc, c.
  - done.
Qed.

Lemma save_store_spec us s r s' :
  (go! _ := save_store us in aret Stored) s = (r, s') -> published (honest s) us s r s'.
Proof.
  unfold save_store, lift_io. intros E. apply abind_inv in E as [(a & s1 & E & E1)|(e & E & ->)];
    apply abind_inv in E as [(r0 & s2 & E & E2)|(e2 & E & E3)];
    apply (saved_users_spec _ _ _ _ _ de_users de_legacy serde_users) in E as [Hl (r1 & Hr & Hs)]; try discriminate;
    injection Hr as ->; destruct r1; try discriminate.
  - injection E2 as <- <-. injection E1 as <- <-. done.
  - injection E2 as <- <-. done.
Qed.

(** A command that edits by [f] what it loads. *)
Definition commanded (f : list CompatUser -> result (list CompatUser) refusal) (s : St) (r : result outcome admin_error)
  (s' : St) : Prop :=
  match load_at s with
  | (Ok us, _, _) =>
      match f us with
      | Ok us' => published (honest s) us' s r s'
      | Err e => r = Err (Refused e) /\ untouched s s'
      end
  | (Err _, _, _) =>
      ((exists e, r = Err (LoadFailed e)) \/ (exists e, r = Err (Refused e) /\ forall us, f us = Err e)) /\ untouched s s'
  end.

Lemma load_then (k : list CompatUser -> aio outcome) f s r s' :
  (go! users := load_store in k users) s = (r, s') ->
  (forall us s1, untouched s s1 -> k us s1 = (r, s') ->
     match f us with Ok us' => published (honest s1) us' s1 r s' | Err e => r = Err (Refused e) /\ untouched s1 s' end) ->
  commanded f s r s'.
Proof.
  intros E Hk. destruct (load_store_spec s) as (s1 & Hu & Hh1 & Hl). unfold commanded. unfold abind in E.
  rewrite Hl in E. destruct (load_at s) as [[[us|e] fs] fl]; [|injection E as <- <-; eauto 6].
  specialize (Hk us s1 Hu E). destruct (f us) as [us'|e]; [by eapply published_after|].
  destruct Hk as [-> [H1 H2]]. split; [done|]. destruct Hu as [H3 H4]. split; congruence.
Qed.

(** A refusal before the rest of a command. *)
Lemma refuse_then {A} (x : result A refusal) (k : A -> aio outcome) s r s' :
  (go! a := refuse x in k a) s = (r, s') ->
  match x with Ok a => k a s = (r, s') | Err e => r = Err (Refused e) /\ s' = s end.
Proof. destruct x; simpl; [done|]. by intros [= <- <-]. Qed.

Lemma commanded_refused f s r s' e :
  (forall us, f us = Err e) -> r = Err (Refused e) -> s' = s -> commanded f s r s'.
Proof.
  intros Hf -> ->. unfold commanded. destruct (load_at s) as [[[us|e0] fs] fl]; [rewrite Hf; by split|].
  split; [right; eauto|done].
Qed.

Lemma change_user_spec uid mutate s r s' :
  change_user uid mutate s = (r, s') -> commanded (fun us => find_user_mut us uid mutate) s r s'.
Proof.
  intros E. eapply load_then; [exact E|]. intros us s1 _ E1. apply refuse_then in E1.
  destruct (find_user_mut us uid mutate); [by eapply apply_and_save_spec|]. destruct E1 as [-> ->]. by split.
Qed.
Lemma change_stored_user_spec uid mutate s r s' :
  change_stored_user uid mutate s = (r, s') -> commanded (fun us => find_user_mut us uid mutate) s r s'.
Proof.
  intros E. eapply load_then; [exact E|]. intros us s1 _ E1. apply refuse_then in E1.
  destruct (find_user_mut us uid mutate); [by eapply save_store_spec|]. destruct E1 as [-> ->]. by split.
Qed.

Lemma find_user_mut_some us uid m :
  find_user us uid = None -> find_user_mut us uid m = Err NoSuchUser.
Proof.
  induction us as [|u us IH]; [done|]. unfold find_user. simpl. destruct (String.eqb (id u) uid); [done|].
  intros E. by rewrite IH.
Qed.
Lemma find_user_mut_found us uid f b :
  (forall u, id (f u) = id u) -> find_user us uid = Some b ->
  exists us', find_user_mut us uid (fun u => Ok (f u)) = Ok us' /\ find_user us' uid = Some (f b).
Proof.
  intros Hf. induction us as [|u us IH]; [done|]. unfold find_user. simpl. destruct (String.eqb (id u) uid) eqn:E.
  - intros [= ->]. eexists. split; [done|]. simpl. by rewrite Hf, E.
  - intros Hb. destruct (IH Hb) as (us' & -> & Hus). eexists. split; [done|]. simpl. by rewrite E.
Qed.

Lemma set_expiry_spec uid e s r s' :
  cmd_user_set_expiry uid e s = (r, s') -> commanded (edit (SetExpiry uid e)) s r s'.
Proof.
  intros E. eapply load_then; [exact E|]. intros us s1 _ E1. cbn [edit]. cbv beta in E1.
  destruct (find_user us uid) as [b|] eqn:Eb.
  - destruct (find_user_mut_found us uid (set_expires_at e) b ltac:(done) Eb) as (us' & Eu & Ea).
    apply refuse_then in E1. rewrite Eu in E1 |- *. rewrite Ea in E1.
    case_match; [by eapply save_store_spec|by eapply apply_and_save_spec].
  - rewrite find_user_mut_some by done. injection E1 as <- <-. by split.
Qed.

Lemma create_spec n e s r s' :
  cmd_user_create n e s = (r, s') -> commanded (edit (Create n e)) s r s'.
Proof.
  intros E. apply refuse_then in E. destruct (validate_user_display_name n) as [[]|e0] eqn:En.
  - eapply load_then; [exact E|]. intros us s1 _ E1. apply refuse_then in E1. cbn [edit]. rewrite En. simpl.
    destruct (draw_id (d_ids d) us); [by eapply apply_and_save_spec|]. destruct E1 as [-> ->]. by split.
  - destruct E as [-> ->]. eapply commanded_refused; [|done|done]. intros us. cbn [edit]. by rewrite En.
Qed.

Lemma create_probe_spec n s r s' :
  cmd_user_create_probe n s = (r, s') -> commanded (edit (CreateProbe n)) s r s'.
Proof.
  intros E. unfold cmd_user_create_probe in E. set (nm := Render.unwrap_or n _) in E.
  destruct (negb (String.eqb nm PROBE_USER_NAME) && negb (String.eqb nm RESERVED_SELFTEST_USER_NAME)) eqn:En.
  { injection E as <- <-. eapply commanded_refused; [|done|done]. intros us. cbn [edit]. cbv zeta. fold nm. by rewrite En. }
  eapply load_then; [exact E|]. intros us s1 _ E1. cbn [edit]. cbv zeta. fold nm. rewrite En. cbv beta in E1.
  destruct (List.find _ us) as [u|].
  - destruct (is_reserved_probe u); injection E1 as <- <-; by split.
  - apply refuse_then in E1. destruct (draw_id (d_ids d) us); [by eapply apply_and_save_spec|]. destruct E1 as [-> ->]. by split.
Qed.

Lemma remove_spec uid s r s' :
  cmd_user_remove uid s = (r, s') -> commanded (edit (Remove uid)) s r s'.
Proof.
  intros E. eapply load_then; [exact E|]. intros us s1 _ E1. cbn [edit]. cbv beta zeta in E1 |- *.
  destruct (length _ =? length us)%nat; [injection E1 as <- <-; by split|by eapply apply_and_save_spec].
Qed.

Lemma commanded_ext f g s r s' : (forall us, f us = g us) -> commanded f s r s' -> commanded g s r s'.
Proof.
  intros Hfg. unfold commanded. destruct (load_at s) as [[[us|e] fs] fl]; [by rewrite Hfg|].
  intros [[Hr|(e0 & Hr & Hf)] Hu]; (split; [|done]); [by left|right]. exists e0. split; [done|]. intros us. by rewrite <- Hfg.
Qed.

Lemma peer_set_spec uid ep source req s r s' :
  cmd_user_peer_set uid ep source req s = (r, s') -> commanded (edit (PeerSet uid ep source req)) s r s'.
Proof.
  intros E. apply refuse_then in E.
  destruct (find_peer_endpoint cfg ep) as [peer|e] eqn:Ep;
    [|destruct E as [-> ->]; eapply commanded_refused; [intros us; cbn [edit]; by rewrite Ep|done|done]].
  apply refuse_then in E. destruct (peer_credential_from_source peer source) as [cr|e] eqn:Ec;
    [|destruct E as [-> ->]; eapply commanded_refused; [intros us; cbn [edit]; rewrite Ep; simpl; by rewrite Ec|done|done]].
  eapply commanded_ext; [|by eapply change_stored_user_spec]. intros us. cbn [edit]. rewrite Ep. simpl. by rewrite Ec.
Qed.

Lemma run_command_spec c s r s' :
  run_command c s = (r, s') -> commanded (edit c) s r s'.
Proof.
  destruct c; cbn [run_command]; intros E;
    first [ by eapply create_spec | by eapply create_probe_spec | by eapply set_expiry_spec | by eapply remove_spec
          | by eapply peer_set_spec | by eapply change_user_spec | by eapply change_stored_user_spec ].
Qed.

(** *** The stored list *)

(** Examining [users.json], the first file operation of a load, is answered. *)
Definition examined (s : St) : Prop := match st_faults s with Fails _ :: _ => False | _ => True end.

(** A load that is answered returns the stored list; one whose first call fails
    finds no file and returns the empty list. *)
Lemma load_at_stored s us fs fl : load_at s = (Ok us, fs, fl) -> (examined s \/ us <> []) -> stored s = Ok us.
Proof.
  unfold stored_users, examined. rewrite load_no_fault. intros E He. apply load_ok in E as [E|(-> & n & fl0 & E)]; [done|].
  rewrite E in He. by destruct He.
Qed.

(** A command that edits the stored list by [f]. *)
Definition refines (T : Prop) (f : list CompatUser -> result (list CompatUser) refusal) (s : St) (r : result outcome admin_error)
  (s' : St) : Prop :=
  match stored s with
  | Ok us =>
      match f us with
      | Ok us' => published T us' s r s'
      | Err e => (r = Err (Refused e) \/ exists e', r = Err (LoadFailed e')) /\ untouched s s'
      end
  | Err _ => (exists e, r = Err e) /\ untouched s s'
  end.

Lemma commanded_refines (T : Prop) f s r s' : (T -> honest s) -> examined s -> commanded f s r s' -> refines T f s r s'.
Proof.
  intros HT He. unfold commanded, refines. destruct (load_at s) as [[[us|e] fs] fl] eqn:El.
  - rewrite (load_at_stored _ _ _ _ El) by auto. destruct (f us); [|intros [Hr Hu]; auto]. by apply published_after.
  - intros [Hr Hu]. destruct (stored s) as [us|]; [|destruct Hr as [[? ->]|(? & -> & _)]; eauto].
    destruct (f us) eqn:Ef; [|split; [|done]; destruct Hr as [Hr|(? & -> & Hf)]; [auto|rewrite Hf in Ef; injection Ef as <-; auto]].
    destruct Hr as [[? ->]|(? & -> & _)]; by apply untouched_stored.
Qed.

(** Which commands reach the running server: all but those that change what
    only the subscription service reads, and a deadline that does not change
    whether the account is active now. *)
Definition ends_as (c : UserCommand) (s : St) (o : outcome) : Prop :=
  match c with
  | RotateToken _ | PeerSet _ _ _ _ | PeerRemove _ _ => o = Stored
  | SetExpiry uid e => exists us u, stored s = Ok us /\ find_user us uid = Some u /\
      if Bool.eqb (is_active u (now h)) (is_active (set_expires_at e u) (now h)) then o = Stored else exists live, o = Applied live
  | CreateProbe _ => (exists live, o = Applied live) \/
      exists us u, stored s = Ok us /\ In u us /\ is_reserved_probe u = true /\ o = Reused (id u)
  | _ => exists live, o = Applied live
  end.

Lemma load_store_stored s us s1 : examined s -> load_store s = (Ok us, s1) -> stored s = Ok us.
Proof.
  intros He E. destruct (load_store_spec s) as (s2 & _ & _ & E2). rewrite E in E2. injection E2 as E2 ->.
  destruct (load_at s) as [[[us'|] fs] fl] eqn:El; [|discriminate]. injection E2 as ->. by eapply load_at_stored; eauto.
Qed.
Lemma apply_and_save_applied previous us s o s' : apply_and_save previous us s = (Ok o, s') -> exists live, o = Applied live.
Proof. intros E. apply abind_inv in E as [(live & s1 & _ & E)|(e & _ & [=])]. injection E as <- _. by exists live. Qed.
Lemma change_user_applied uid mutate s o s' : change_user uid mutate s = (Ok o, s') -> exists live, o = Applied live.
Proof.
  intros E. apply abind_inv in E as [(us & s1 & _ & E)|(e & _ & [=])]. apply abind_inv in E as [(us' & s2 & _ & E)|(e & _ & [=])].
  by apply apply_and_save_applied in E.
Qed.
Lemma save_store_stored us s o s' : (go! _ := save_store us in aret Stored) s = (Ok o, s') -> o = Stored.
Proof. intros E. apply abind_inv in E as [(u & s1 & _ & E)|(e & _ & [=])]. by injection E as <- _. Qed.
Lemma change_stored_user_stored uid mutate s o s' : change_stored_user uid mutate s = (Ok o, s') -> o = Stored.
Proof.
  intros E. apply abind_inv in E as [(us & s1 & _ & E)|(e & _ & [=])]. apply abind_inv in E as [(us' & s2 & _ & E)|(e & _ & [=])].
  by apply save_store_stored in E.
Qed.
Lemma set_expiry_ends uid e s o s' : examined s -> cmd_user_set_expiry uid e s = (Ok o, s') -> ends_as (SetExpiry uid e) s o.
Proof.
  intros He E. apply abind_inv in E as [(us & s1 & El & E)|(x & _ & [=])]. apply load_store_stored in El; [|done].
  destruct (find_user us uid) as [b|] eqn:Eb; [|discriminate]. exists us, b. split; [done|]. split; [done|].
  destruct (find_user_mut_found us uid (set_expires_at e) b ltac:(done) Eb) as (us' & Eu & Ea). rewrite Eu in E.
  apply abind_inv in E as [(us2 & s2 & E2 & E)|(x & _ & [=])]. injection E2 as <- <-. rewrite Ea in E.
  destruct (Bool.eqb _ _); [by apply save_store_stored in E|by apply apply_and_save_applied in E].
Qed.
Lemma create_probe_ends n s o s' : examined s -> cmd_user_create_probe n s = (Ok o, s') -> ends_as (CreateProbe n) s o.
Proof.
  intros He E. unfold cmd_user_create_probe in E. cbv zeta in E. destruct (_ && _) in E; [discriminate|].
  apply abind_inv in E as [(us & s1 & El & E)|(x & _ & [=])]. apply load_store_stored in El; [|done].
  destruct (List.find _ us) as [u|] eqn:Ef in E.
  - destruct (is_reserved_probe u) eqn:Ep; [|discriminate]. injection E as <- _. right. exists us, u. by apply List.find_some in Ef as [].
  - left. apply abind_inv in E as [(uid & s2 & _ & E)|(x & _ & [=])]. by apply apply_and_save_applied in E.
Qed.
Lemma run_command_ends c s o s' : examined s -> run_command c s = (Ok o, s') -> ends_as c s o.
Proof.
  intros He E. destruct c; cbn [run_command] in E;
    first [by eapply create_probe_ends | by eapply set_expiry_ends | by eapply change_user_applied | by eapply change_stored_user_stored | idtac].
  - apply abind_inv in E as [(u & s1 & _ & E)|(e & _ & [=])]. apply abind_inv in E as [(us & s2 & _ & E)|(e & _ & [=])].
    apply abind_inv in E as [(uid & s3 & _ & E)|(e & _ & [=])]. by apply apply_and_save_applied in E.
  - apply abind_inv in E as [(us & s1 & _ & E)|(e & _ & [=])]. cbv beta zeta in E. case_match; [discriminate|]. by apply apply_and_save_applied in E.
  - apply abind_inv in E as [(p & s1 & _ & E)|(e & _ & [=])]. apply abind_inv in E as [(cr & s2 & _ & E)|(e & _ & [=])].
    by eapply change_stored_user_stored.
Qed.

(** C9: Every user command does to the store exactly what its edit says, or
    nothing.  When examining [users.json] does not itself fail and the file
    loads as [us]: a command whose edit of [us] is refused returns that refusal
    (or could not read the file) and changes neither a file nor the process;
    otherwise on success [users.json] loads as exactly the edited list, a
    command that reports the change as live in a trusted state leaves the
    process serving that list, and a command that only stores leaves the
    process alone; on every failure of any file operation, of the renderer, of
    the checker or of the service [users.json] loads as before.  When the file
    does not load, every command fails and changes nothing.  Only the commands
    that change a token or a peer credential, and a new deadline that leaves
    the account as active as it was, are stored without the server. *)
Theorem user_command_refines c s r s' :
  examined s -> run_command c s = (r, s') ->
  refines (trusted_state s) (edit c) s r s' /\ (forall o, r = Ok o -> ends_as c s o).
Proof.
  intros He E. split; [|intros o ->; by eapply run_command_ends].
  eapply commanded_refines; [intros Ht; by eapply trusted_honest|done|by apply run_command_spec].
Qed.

(** *** The two synchronisations *)

(** A synchronisation that changes the list publishes it; one that does not
    still brings the process to it. *)
Lemma sync_spec (reconcile : list CompatUser -> result (list CompatUser * bool) refusal) s r s' :
  (go! users := load_store in
   go! reconciled := refuse (reconcile users) in
   if snd reconciled then apply_and_save users (fst reconciled) else apply_only (fst reconciled)) s = (r, s') ->
  match r with
  | Ok out => exists us next changed live fs fl,
      load_at s = (Ok us, fs, fl) /\ reconcile us = Ok (next, changed) /\ out = Applied live /\
      stored s' = (if changed then Ok next else stored s) /\ (live = true -> honest s -> serves next s s')
  | Err _ => stored s' = stored s
  end.
Proof.
  intros E. destruct (load_store_spec s) as (s1 & Hu & Hh1 & Hl). unfold abind at 1 in E. rewrite Hl in E.
  pose proof (untouched_stored _ _ Hu) as Hs.
  destruct (load_at s) as [[[us|e] fs] fl]; [|by injection E as <- <-]. apply refuse_then in E.
  destruct (reconcile us) as [[next changed]|e] eqn:Er; [|destruct E as [-> ->]; done]. cbn [fst snd] in E. destruct changed.
  - destruct r as [out|e]; [|apply apply_and_save_spec in E; by rewrite E].
    destruct (apply_and_save_ok _ _ _ _ _ E) as [live ->].
    apply apply_and_save_spec in E. apply (published_after _ _ _ _ _ _ _ Hh1 Hu) in E as [H1 H2].
    exists us, next, true, live, fs, fl. auto 10.
  - apply apply_only_spec in E as [H1 H2]. rewrite Hs in H1. destruct r as [out|e]; [|done].
    destruct H2 as (live & -> & H2). exists us, next, false, live, fs, fl. repeat split; try done. intros Hlive Hh.
    destruct (H2 Hlive (Hh1 Hh)) as (s2 & doc & c & Hf & Hr). exists s2, doc, c. destruct Hu as [Hu _]. by rewrite <- Hu.
Qed.

Lemma read_input_inv p s r s' :
  read_input p s = (r, s') -> untouched s s' /\ (honest s -> honest s') /\ match r with Ok _ => True | Err _ => r = Err (Refused InputUnreadable) end.
Proof.
  unfold read_input. intros E. apply abind_inv in E as [(a & s1 & E & E1)|(e & E & ->)].
  - assert (Hd : drifts (singbox_config_file cfg) s s1)
      by (eapply lift_quiet_drifts; [apply read_frame|apply quiet_syscall|exact E]).
    apply lift_result_inv in E as (r0 & fs & fl & _ & [= ->] & Hs1).
    assert (Hu : untouched s s1) by (split; [apply Hd|by rewrite Hs1]).
    destruct r0; injection E1 as <- <-; (split; [done|]; split; [by apply drifts_honest|done]).
  - by apply lift_result_inv in E as (? & ? & ? & _ & ? & _).
Qed.

(** How a synchronisation by [reconcile] ends. *)
Definition synchronised (reconcile : list CompatUser -> result (list CompatUser * bool) refusal) (s : St)
  (r : result outcome admin_error) (s' : St) : Prop :=
  match r with
  | Ok out => exists us next changed live s1 fs fl,
      untouched s s1 /\ load_at s1 = (Ok us, fs, fl) /\ reconcile us = Ok (next, changed) /\ out = Applied live /\
      stored s' = (if changed then Ok next else stored s) /\ (live = true -> honest s -> serves next s s')
  | Err _ => stored s' = stored s
  end.

(** Reading and parsing the document first. *)
Lemma sync_command_spec {A} (parse : string -> option A) (reconcile : A -> list CompatUser -> result (list CompatUser * bool) refusal)
  input s r s' :
  (go! text := read_input input in
   go! parsed := refuse (ok_or (parse text) Unparsable) in
   go! users := load_store in
   go! reconciled := refuse (reconcile parsed users) in
   if snd reconciled then apply_and_save users (fst reconciled) else apply_only (fst reconciled)) s = (r, s') ->
  stored s' = stored s /\ (exists e, r = Err e) \/
  exists text parsed, parse text = Some parsed /\ synchronised (reconcile parsed) s r s'.
Proof.
  intros E. apply abind_inv in E as [(text & s1 & E0 & E)|(e & E & ->)];
    apply read_input_inv in E0 as (Hu & Hh1 & _) || apply read_input_inv in E as (Hu & _ & _).
  2:{ left. split; [by apply untouched_stored|eauto]. }
  pose proof (untouched_stored _ _ Hu) as Hs. apply refuse_then in E.
  destruct (parse text) as [parsed|] eqn:Ep; simpl in E; [|destruct E as [-> ->]; eauto].
  right. exists text, parsed. split; [done|]. apply sync_spec in E. unfold synchronised.
  destruct r as [out|e]; [|by rewrite E].
  destruct E as (us & next & changed & live & fs & fl & H1 & H2 & H3 & H4 & H5).
  exists us, next, changed, live, s1, fs, fl. rewrite <- Hs. do 5 (split; [done|]).
  intros Hl Hh. destruct (H5 Hl (Hh1 Hh)) as (s2 & doc & c & Hf & Hr). exists s2, doc, c. destruct Hu as [Hu _]. by rewrite <- Hu.
Qed.

(** Both synchronisation commands are transactions over their reconciler.
    Whatever fails (reading, parsing, loading, reconciling, applying, saving),
    an error leaves [users.json] loading as before; on success it loads as the
    reconciled list (or stays, when the reconciler changed nothing), and when
    the command reports the state as live, and the stamp was honest, the process serves exactly the
    reconciled list: also when nothing had to be written. *)
Theorem sync_commands_transactional input s r s' :
  (cmd_lease_pool_sync input s = (r, s') ->
   stored s' = stored s /\ (exists e, r = Err e) \/
   exists text slots, de_slots text = Some slots /\
     synchronised (fun us => map_err (fun _ => SyncRefused) (AdminReconcile.reconcile_leases token_hash us slots (now h))) s r s') /\
  (cmd_external_authorizations input s = (r, s') ->
   stored s' = stored s /\ (exists e, r = Err e) \/
   exists text auths, de_authorizations text = Some auths /\
     synchronised (fun us => map_err (fun _ => SyncRefused) (AdminReconcile.reconcile_external token_hash us auths (now h))) s r s').
Proof.
  split; intros E; [eapply (sync_command_spec de_slots _) in E|eapply (sync_command_spec de_authorizations _) in E]; done.
Qed.
End Commands.

(** ** Witnesses *)

Definition ex_draws : Draws :=
  {| d_ids := [repeat 1 16; repeat 2 16]; d_uuid := repeat 3 16; d_password := repeat 4 24; d_token := repeat 5 32;
     d_principal := repeat 6 12 |}.
(** [users.json] holds [us]; the service answers [l], the file system [fl]. *)
Definition ex_with (us : list CompatUser) (fl : list fault) (l : list svc) : St :=
  {| st_fs := {| files := <[users_file ex_node := plain (ex_ser (envelope us))]> (files ex_disk); dirs := dirs ex_disk |};
     st_loaded := Some "old"; st_faults := fl; st_svc := l |}.
Definition ex_run (c : UserCommand) (s : St) : result outcome admin_error * St :=
  run_command 0 18 (fun _ => 990) "7" (fun _ => true) Deployment.ex_key (fun _ => "key") hex_bytes (fun _ => "00") (fun l => l)
    (V := json) ex_print json_print ex_parse ex_ser ex_de ex_legacy ex_node ex_draws ex_host ex_host c s.
Definition ex_sync (s : St) : result outcome admin_error * St :=
  cmd_lease_pool_sync 0 18 (fun _ => 990) "7" (fun _ => true) Deployment.ex_key (fun _ => "key") (fun _ => "00") (fun l => l)
    (V := json) ex_print json_print ex_parse ex_ser ex_de ex_legacy (fun _ => Some AdminReconcile.ex_input) AdminReconcile.ex_hash
    ex_node ex_host ex_host (reality_short_id_file ex_node) s.

Lemma ex_with_unstamped us fl l : file_text (applied_config_stamp_path (singbox_config_file ex_node)) (ex_with us fl l) = None.
Proof.
  unfold file_text, ex_with. cbn [st_fs files].
  rewrite lookup_insert_ne by (intros E; apply (f_equal Store.name) in E; discriminate). vm_compute. reflexivity.
Qed.
Lemma ex_with_honest us fl l : stamp_honest (V := json) (fun _ => "00") json_print ex_parse ex_node (ex_with us fl l).
Proof. intros doc c stamp E. rewrite ex_with_unstamped in E. discriminate. Qed.
Lemma ex_load us l : load_users ex_de ex_legacy (users_file ex_node) (st_fs (ex_with us [] l)) [] = (Ok us, st_fs (ex_with us [] l), []).
Proof.
  rewrite load_no_fault. unfold loaded, ex_with. cbn [st_fs files]. rewrite lookup_insert_eq. unfold parse_users_bytes.
  cbn [content plain]. by rewrite ex_roundtrip.
Qed.

Lemma ex_stored us l : stored_users ex_de ex_legacy ex_node (ex_with us [] l) = Ok us.
Proof. unfold stored_users. by rewrite ex_load. Qed.

Lemma user_command_refines_witness :
  exists s' us', ex_run (SetEnabled "user_1" false) (ex_with ServerPolicy.ex_users [] []) = (Ok (Applied true), s') /\
    edit (fun _ => "key") hex_bytes (fun _ => "00") ex_node ex_draws ex_host (SetEnabled "user_1" false) ServerPolicy.ex_users = Ok us' /\
    stored_users ex_de ex_legacy ex_node s' = Ok us'.
Proof.
  destruct (run_result (ex_run (SetEnabled "user_1" false) (ex_with ServerPolicy.ex_users [] [])) (Ok (Applied true))
    ltac:(vm_compute; reflexivity)) as [s' E].
  exists s'. eexists. split; [exact E|]. split; [vm_compute; reflexivity|]. unfold ex_run in E.
  apply (user_command_refines _ _ _ _ _ _ _ _ _ _ _ _ _ _ _ _ _ _ _ _ ex_serde ex_roundtrip) in E as [E _]; [|exact I].
  unfold refines in E. rewrite ex_stored in E. exact (proj1 E).
Defined.

Lemma sync_commands_transactional_witness :
  exists s' slots us next changed, ex_sync (ex_with ServerPolicy.ex_users [] []) = (Ok (Applied true), s') /\
    map_err (fun _ => SyncRefused) (AdminReconcile.reconcile_leases AdminReconcile.ex_hash us slots 1000) = Ok (next, changed) /\
    stored_users ex_de ex_legacy ex_node s' =
      if changed then Ok next else stored_users ex_de ex_legacy ex_node (ex_with ServerPolicy.ex_users [] []).
Proof.
  destruct (run_result (ex_sync (ex_with ServerPolicy.ex_users [] [])) (Ok (Applied true)) ltac:(vm_compute; reflexivity)) as [s' E].
  unfold ex_sync in E.
  pose proof (sync_commands_transactional 0 18 (fun _ => 990) "7" (fun _ => true) Deployment.ex_key (fun _ => "key") (fun _ => "00")
    (fun l => l) (V := json) ex_print json_print ex_parse ex_ser ex_de ex_legacy (fun _ => Some AdminReconcile.ex_input) (fun _ => None)
    AdminReconcile.ex_hash ex_node ex_host ex_host ex_serde ex_roundtrip (reality_short_id_file ex_node)
    (ex_with ServerPolicy.ex_users [] []) (Ok (Applied true)) s') as [H _].
  destruct (H E) as [(_ & e & Hbad)|(text & slots & Hp & Hs)]; [discriminate Hbad|].
  destruct Hs as (us & next & changed & live & s1 & fs & fl & _ & _ & Hr & _ & Hst & _).
  exists s', slots, us, next, changed. split; [exact E|]. split; [exact Hr|exact Hst].
Defined.

(** A list that cannot be examined for a moment loads as empty, so creating a
    user then drops every other account. *)
Lemma create_after_failed_stat_drops_users :
  let r := ex_run (Create "new" None) (ex_with ServerPolicy.ex_users [Fails 0] []) in
  fst r = Ok (Applied true) /\
  option_map (map name) (match stored_users ex_de ex_legacy ex_node (snd r) with Ok us => Some us | Err _ => None end) = Some ["new"].
Proof. intros r. split; vm_compute; reflexivity. Qed.
End AdminUsers.
