(* ===== verification/AdminRevocation.v ===== *)
(** * What the user commands mean for the running server

    The list edits of [AdminUsers.v], their locality, and their end-to-end
    effect through the renderer: a disabled or removed account is rejected by
    the process once the command reports the change as live, a rotated secret
    too (for an account without grants of its own), and the expiry command may
    skip the server exactly because the document would be the same. *)

From S2P Require Import Prelude Strs Net NetText AddressPolicy Authorization Credentials Grants Json Contract.
From S2P Require Import Render Deployment Server ServerPolicy ServerDoctor Store ConfigApply AdminApply.
From S2P Require Import AdminReconcile AdminUsers.
From Stdlib Require Import Ascii.

Module AdminRevocation.
Import Creds Store ConfigApply AdminApply Grants AdminUsers.

(** ** One account changes *)

(** [us'] is [us] with one account replaced. *)
Definition replaced_one (uid : string) (mutate : CompatUser -> result CompatUser refusal) (us us' : list CompatUser) : Prop :=
  exists l u u' r, us = l ++ u :: r /\ us' = l ++ u' :: r /\ id u = uid /\ mutate u = Ok u' /\ ~ In uid (map id l).

Lemma find_user_mut_local us uid mutate us' :
  find_user_mut us uid mutate = Ok us' -> replaced_one uid mutate us us'.
Proof.
  revert us'. induction us as [|u us IH]; intros us'; simpl; [discriminate|]. destruct (String.eqb (id u) uid) eqn:E.
  - destruct (mutate u) as [u'|] eqn:Em; [|discriminate]. intros [= <-]. apply String.eqb_eq in E.
    exists [], u, u', us. repeat split; try done. intros [].
  - destruct (find_user_mut us uid mutate) as [rest|]; [|discriminate]. intros [= <-]. apply String.eqb_neq in E.
    destruct (IH _ eq_refl) as (l & x & x' & r & -> & -> & H1 & H2 & H3).
    exists (u :: l), x, x', r. repeat split; try done. simpl. intros [?|?]; done.
Qed.

(** The account is the same one: its identity and its role are kept. *)
Definition same_account (u u' : CompatUser) : Prop :=
  id u' = id u /\ name u' = name u /\ created_at u' = created_at u /\ is_reserved_probe u' = is_reserved_probe u /\
  exit_principal u' = exit_principal u.

Definition target (c : UserCommand) : option string :=
  match c with
  | Create _ _ | CreateProbe _ => None
  | SetEnabled u _ | SetExpiry u _ | VisionOffExperiment u _ | GoogleEgressHairpin u _ | RotateToken u | RotateVless u
  | RotateHysteria u | RotateCredentials u | RenewNative u | Remove u | PeerSet u _ _ _ | PeerRemove u _ => Some u
  end.

Definition others (uid : string) (us : list CompatUser) : list CompatUser :=
  List.filter (fun u => negb (String.eqb (id u) uid)) us.

Lemma others_app uid l r : others uid (l ++ r) = others uid l ++ others uid r.
Proof. apply List.filter_app. Qed.

Lemma replaced_local uid m us us' :
  (forall u u', m u = Ok u' -> same_account u u') -> replaced_one uid m us us' ->
  map id us' = map id us /\ others uid us' = others uid us /\ In uid (map id us) /\
  Forall2 (fun u u' => same_account u u' /\ (id u <> uid -> u' = u)) us us'.
Proof.
  intros Hm (l & u & u' & r & -> & -> & Hu & E & Hl). apply Hm in E as Hs. pose proof (proj1 Hs) as Hid.
  rewrite !map_app, !others_app. simpl. rewrite Hid, Hu, String.eqb_refl. simpl. repeat split; try done.
  - apply in_or_app. simpl. auto.
  - assert (Hr : forall k, Forall2 (fun u u' => same_account u u' /\ (id u <> uid -> u' = u)) k k)
      by (intros k; induction k; constructor; [repeat split|done]).
    apply Forall2_app; [apply Hr|]. constructor; [split; [done|]; congruence|apply Hr].
Qed.

(** ** Drawing an id *)

Lemma draw_id_fresh draws us uid : draw_id draws us = Ok uid -> ~ In uid (map id us).
Proof.
  induction draws as [|b draws IH]; [discriminate|]. simpl.
  destruct (existsb _ us) eqn:E; [done|]. intros [= <-] Hin. apply in_map_iff in Hin as (u & Hu & Hin).
  apply not_true_iff_false in E. apply E. apply existsb_exists. exists u. by rewrite Hu, String.eqb_refl.
Qed.

(** The loop ends: among more distinct candidates than users one is free. *)
Lemma draw_id_total draws us :
  List.NoDup (map generate_user_id draws) -> (length us < length draws)%nat -> exists uid, draw_id draws us = Ok uid.
Proof.
  intros Hnd Hlen. destruct (draw_id draws us) as [uid|e] eqn:E; [eauto|]. exfalso.
  assert (Hall : incl (map generate_user_id draws) (map id us)).
  { clear Hnd Hlen. induction draws as [|b draws IH]; [by intros ? []|]. simpl in E.
    destruct (existsb _ us) eqn:Ex; [|discriminate]. apply existsb_exists in Ex as (u & Hin & Hu). apply String.eqb_eq in Hu.
    intros x [<-|Hx]; [|by apply IH]. rewrite <- Hu. by apply in_map. }
  apply NoDup_incl_length in Hall; [|done]. rewrite !length_map in Hall. lia.
Qed.

Section Edits.
Context (b64_encode hex_encode : list Z -> string) (sha256_hex : string -> string).
Context (cfg : Deployment.DeploymentConfig) (d : Draws) (h : Host).
Local Notation edit := (edit b64_encode hex_encode sha256_hex cfg d h).

Lemma edit_shape c us us' :
  edit c us = Ok us' ->
  match c with
  | Create _ _ | CreateProbe _ =>
      us' = us \/ exists u, us' = us ++ [u] /\ ~ In (id u) (map id us) /\ enabled u = true /\ credentials u = []
  | Remove uid => us' = others uid us /\ In uid (map id us)
  | _ => exists uid m, target c = Some uid /\ replaced_one uid m us us' /\ forall u u', m u = Ok u' -> same_account u u'
  end.
Proof.
  assert (Hf : forall uid m, find_user_mut us uid m = Ok us' -> (forall u u', m u = Ok u' -> same_account u u') ->
    Some uid = target c -> exists uid m, target c = Some uid /\ replaced_one uid m us us' /\ forall u u', m u = Ok u' -> same_account u u').
  { intros uid m E Hm Ht. exists uid, m. split; [done|]. split; [by apply find_user_mut_local|done]. }
  destruct c as [n e|n|uid0 on|uid0 e|uid0 on|uid0 on|uid0|uid0|uid0|uid0|uid0|uid0|uid0 endpoint_id source req|uid0 endpoint_id];
    cbn [AdminUsers.edit]; intros E;
    try (eapply Hf; [exact E| |reflexivity]; intros u u' Em; injection Em as <-; by repeat split).
  - destruct (validate_user_display_name n) as [[]|]; [|discriminate]. simpl in E.
    destruct (draw_id (d_ids d) us) as [uid|] eqn:Ed; [|discriminate]. injection E as <-. right. eexists. split; [done|].
    split; [by eapply draw_id_fresh|done].
  - cbv zeta in E. case_if; [discriminate|]. destruct (List.find _ us) as [u|]; [case_if; [|discriminate]; injection E as <-; by left|].
    destruct (draw_id (d_ids d) us) as [uid|] eqn:Ed; [|discriminate]. injection E as <-. right. eexists. split; [done|].
    split; [by eapply draw_id_fresh|done].
  - eapply Hf; [exact E| |reflexivity]. intros u u'. unfold renew_or_mint. destruct (current_grant u Native (now h)).
    + destruct (renew_principal _ _ _ _); [|discriminate]. intros [= <-]. by repeat split.
    + intros [= <-]. by repeat split.
  - cbv zeta in E. destruct (length _ =? length us)%nat eqn:El; [discriminate|]. injection E as <-. split; [done|].
    apply Nat.eqb_neq in El. destruct (in_dec String.string_dec uid0 (map id us)) as [Hin|Hn]; [done|]. exfalso. apply El. f_equal.
    apply ServerDoctor.filter_every. apply List.Forall_forall. intros u Hu. apply negb_true_iff, String.eqb_neq. intros <-. by apply Hn, in_map.
  - destruct (find_peer_endpoint cfg endpoint_id) as [peer|]; [|discriminate]. simpl in E.
    destruct (peer_credential_from_source peer source); [|discriminate]. simpl in E. eapply Hf; [exact E| |reflexivity].
    intros u u'. unfold insert_peer. case_if; [discriminate|]. intros [= <-]. by repeat split.
  - eapply Hf; [exact E| |reflexivity]. intros u u'. unfold remove_peer. case_if; [|discriminate]. intros [= <-]. by repeat split.
Qed.

(** A user command touches the one account it names.  A creation appends
    one account under an id no other has (or finds the reserved one already
    there), a removal drops exactly the accounts with the id, and every other
    command keeps the list in order with all other accounts as they were and
    the named one with its id, name, creation time and role; ids that were
    unique stay unique. *)
Theorem edits_stay_local c us us' :
  edit c us = Ok us' ->
  (List.NoDup (map id us) -> List.NoDup (map id us')) /\
  match c with
  | Create _ _ | CreateProbe _ =>
      us' = us \/ exists u, us' = us ++ [u] /\ ~ In (id u) (map id us) /\ enabled u = true /\ credentials u = []
  | Remove uid => us' = others uid us /\ In uid (map id us)
  | _ => exists uid, target c = Some uid /\ In uid (map id us) /\ map id us' = map id us /\
           Forall2 (fun u u' => same_account u u' /\ (id u <> uid -> u' = u)) us us'
  end.
Proof.
  intros E. apply edit_shape in E.
  assert (Hnew : (us' = us \/ exists u, us' = us ++ [u] /\ ~ In (id u) (map id us) /\ enabled u = true /\ credentials u = []) ->
    List.NoDup (map id us) -> List.NoDup (map id us')).
  { intros [-> | (u & -> & Hu & _)]; [done|]. intros Hnd. rewrite map_app. simpl.
    apply (Permutation.Permutation_NoDup (Permutation.Permutation_cons_append (map id us) (id u))). by constructor. }
  assert (Hone : (exists uid m, target c = Some uid /\ replaced_one uid m us us' /\ forall u u', m u = Ok u' -> same_account u u') ->
    (List.NoDup (map id us) -> List.NoDup (map id us')) /\
    exists uid, target c = Some uid /\ In uid (map id us) /\ map id us' = map id us /\
      Forall2 (fun u u' => same_account u u' /\ (id u <> uid -> u' = u)) us us').
  { intros (uid & m & Ht & Hr & Hm). apply (replaced_local _ _ _ _ Hm) in Hr as (H1 & _ & H2 & H3).
    rewrite H1. split; [done|]. by exists uid. }
  destruct c; try (by apply Hone); [by split; [apply Hnew|]|by split; [apply Hnew|]|].
  destruct E as [-> Hin]. split; [|done]. unfold others. clear. induction us as [|u us IH]; simpl; [done|].
  inversion 1 as [|? ? Hn Hnd]; subst. destruct (negb (String.eqb (id u) _)); simpl; [|by apply IH].
  constructor; [|by apply IH]. intros Hin. apply Hn. apply in_map_iff in Hin as (x & <- & Hx).
  apply in_map. by apply List.filter_In in Hx as [Hx _].
Qed.
End Edits.

(** ** The expiry shortcut *)

Section Render.
Context {V : Type} `{JsonOps V, !JsonTree V}.

(** What a document says about users. *)
Lemma render_congr b64 dep us us' r hy t :
  Server.projected us' = Server.projected us ->
  map (Server.vless_user (V := V)) (Server.authorized_grants us' t) = map Server.vless_user (Server.authorized_grants us t) ->
  map (Server.hysteria_user (V := V)) (Server.authorized_grants us' t) = map Server.hysteria_user (Server.authorized_grants us t) ->
  Server.probe_principals us' t = Server.probe_principals us t ->
  Server.hairpin_principals us' t = Server.hairpin_principals us t ->
  Server.exit_principal_ids dep us' t = Server.exit_principal_ids dep us t ->
  Server.render_server_config_for_deployment (V := V) b64 dep us' r hy t = Server.render_server_config_for_deployment b64 dep us r hy t.
Proof.
  intros H1 H2 H3 H4 H5 H6. unfold Server.render_server_config_for_deployment. rewrite H1.
  assert (Hc : forall p, Server.render_singbox_server_config (V := V) us' r hy p t = Server.render_singbox_server_config us r hy p t).
  { intros p. unfold Server.render_singbox_server_config, Server.vless_inbound, Server.hysteria_inbound. by rewrite H2, H3. }
  rewrite Hc. unfold Server.render_exit, Server.render_relay, Server.relay_rules, Server.apply_exit_loopback_selftest_exception,
    Server.apply_probe_user_confinement. by rewrite H4, H5, H6.
Qed.

Definition authorized_of (u : CompatUser) (t : Z) : list CredentialGrant :=
  List.filter (fun g => grant_is_authorized g t) (effective_grants u).
(** What the document takes from a grant. *)
Definition material (g : CredentialGrant) : string * string * string := (principal_id g, vless_uuid g, hysteria2_password g).

Lemma expiry_material e u t :
  t < i64_max -> is_active u t = true -> is_active (set_expires_at e u) t = true ->
  map material (authorized_of (set_expires_at e u) t) = map material (authorized_of u t).
Proof.
  intros Ht. unfold is_active, authorized_of, effective_grants. cbn [expires_at set_expires_at credentials id enabled created_at].
  destruct (credentials u); [|done]. rewrite !andb_true_iff. intros [_ H1] [_ H2].
  unfold grant_is_authorized, is_revoked_at. cbn [revoked_at valid_from valid_until List.filter u_vless_uuid set_expires_at].
  assert (Hu : (t <? match expires_at u with Some x => x | None => i64_max end) = true) by (destruct (expires_at u); [done|by apply Z.ltb_lt]).
  assert (He : (t <? match e with Some x => x | None => i64_max end) = true) by (destruct e; [done|by apply Z.ltb_lt]).
  rewrite Hu, He. by destruct (negb false && _ && true).
Qed.

Lemma material_map {B} (f : string * string * string -> B) (g : CredentialGrant -> B) l l' :
  (forall x, g x = f (material x)) -> map material l' = map material l -> map g l' = map g l.
Proof.
  intros Hg E. rewrite !(map_ext _ _ Hg), <- !(map_map material f). by rewrite E.
Qed.

(** Contributions of one account to the lists of the document. *)
Definition listing {B} (P : CompatUser -> bool) (f : CompatUser -> list B) (us : list CompatUser) : list B :=
  flat_map f (List.filter P us).
Lemma listing_replace {B} (P : CompatUser -> bool) (f : CompatUser -> list B) l u u' r :
  P u' = P u -> (P u = true -> f u' = f u) -> listing P f (l ++ u' :: r) = listing P f (l ++ u :: r).
Proof.
  intros HP Hf. unfold listing. rewrite !List.filter_app, !flat_map_app. simpl. rewrite HP.
  destruct (P u); [|done]. simpl. by rewrite Hf.
Qed.

Lemma grants_listing {B} (f : CompatUser * CredentialGrant -> B) us t :
  map f (Server.authorized_grants us t) =
  listing (fun u => is_active u t) (fun u => map (fun g => f (u, g)) (authorized_of u t)) us.
Proof.
  unfold Server.authorized_grants, listing. induction (List.filter _ us) as [|u l IH]; [done|].
  simpl. rewrite map_app, IH, map_map. done.
Qed.

Section Shortcut.
Context (t : Z) (e : option Z) (l r : list CompatUser) (u : CompatUser).
Context (Ht : t < i64_max) (Hid : starts_with "cred_" (id u) = false)
  (Ha : is_active (set_expires_at e u) t = is_active u t).
Local Notation u' := (set_expires_at e u).

Lemma shortcut_principals (P : CompatUser -> bool) :
  P u' = P u -> listing (fun x => is_active x t && P x) (fun x => active_principal_ids x t) (l ++ u' :: r) =
                listing (fun x => is_active x t && P x) (fun x => active_principal_ids x t) (l ++ u :: r).
Proof.
  intros HP. apply listing_replace; [by rewrite Ha, HP|]. intros [H1 _]%andb_prop. unfold active_principal_ids.
  rewrite Ha, H1. simpl. apply (material_map (fun m => fst (fst m))); [done|]. apply expiry_material; congruence.
Qed.

Lemma shortcut_grants {B} (f : CompatUser * CredentialGrant -> B) (k : bool -> string * string * string -> B) :
  (forall x g, f (x, g) = k (vision_off_experiment x) (material g)) ->
  map f (Server.authorized_grants (l ++ u' :: r) t) = map f (Server.authorized_grants (l ++ u :: r) t).
Proof.
  intros Hf. rewrite !grants_listing. apply listing_replace; [done|]. intros H1.
  rewrite (map_ext _ _ (Hf u')), (map_ext _ _ (Hf u)). apply (material_map (k (vision_off_experiment u))); [done|].
  apply expiry_material; congruence.
Qed.

Lemma shortcut_projected : Server.projected (l ++ u' :: r) = Server.projected (l ++ u :: r).
Proof. unfold Server.projected. rewrite !List.filter_app. simpl. by rewrite Hid. Qed.

Lemma shortcut_render b64 dep rp hy :
  Server.render_server_config_for_deployment (V := V) b64 dep (l ++ u' :: r) rp hy t =
  Server.render_server_config_for_deployment b64 dep (l ++ u :: r) rp hy t.
Proof.
  apply render_congr; [apply shortcut_projected| | | | |].
  - by apply (shortcut_grants _ (fun v m => jobj [("name", jstr (fst (fst m))); ("uuid", jstr (snd (fst m)));
      ("flow", jstr (if v then "" else "xtls-rprx-vision"))])).
  - by apply (shortcut_grants _ (fun v m => jobj [("name", jstr (fst (fst m))); ("password", jstr (snd m))])).
  - by apply (shortcut_principals is_reserved_probe).
  - by apply (shortcut_principals google_egress_hairpin).
  - unfold Server.exit_principal_ids. case_if; [done|].
    rewrite !(List.filter_ext (fun u => is_active u t && exit_principal u && negb (google_egress_hairpin u) && negb (is_reserved_probe u))
      (fun u => is_active u t && (exit_principal u && negb (google_egress_hairpin u) && negb (is_reserved_probe u))))
      by (intros x; by rewrite !andb_assoc).
    by apply (shortcut_principals (fun x => exit_principal x && negb (google_egress_hairpin x) && negb (is_reserved_probe x))).
Qed.
End Shortcut.

(** The expiry command may leave the server alone.  When it decides to
    store a new deadline without touching the server, because the account is
    active before and after (or neither), the configuration of the edited list
    is the very document of the old list, whatever the deployment and its key
    files, for every account that is not a control-plane credential. *)
Theorem expiry_shortcut_sound b64e hexe sha dep d h b64 uid e us us' b r hy :
  starts_with "cred_" uid = false -> now h < i64_max -> find_user us uid = Some b ->
  is_active (set_expires_at e b) (now h) = is_active b (now h) ->
  edit b64e hexe sha dep d h (SetExpiry uid e) us = Ok us' ->
  Server.render_server_config_for_deployment (V := V) b64 dep us' r hy (now h) =
  Server.render_server_config_for_deployment b64 dep us r hy (now h).
Proof.
  intros Hid Ht Hb Ha E. apply find_user_mut_local in E as (l & u & u' & rest & -> & -> & Hu & [= <-] & Hl).
  assert (u = b) as ->.
  { revert Hb. unfold find_user. clear -Hu Hl. induction l as [|x l IH]; simpl.
    - rewrite Hu, String.eqb_refl. by intros [= ->].
    - destruct (String.eqb (id x) uid) eqn:E; [|intros; apply IH; [|done]; simpl in Hl; tauto].
      apply String.eqb_eq in E. simpl in Hl. tauto. }
  apply shortcut_render; [done|by rewrite Hu|done].
Qed.
End Render.

(** ** Revocation, end to end *)

Section EndToEnd.
Context (me_uid umask : Z) (new_gid : string -> Z) (pid : string) (check : string -> bool).
Context (b64_decode : string -> option (list Z)) (b64_encode hex_encode : list Z -> string) (sha256_hex : string -> string)
  (mul_base_clamped : list Z -> list Z).
Context {V : Type} `{JsonOps V, !JsonTree V, !JsonEq V, !JsonLaws V, !JsonTreeLaws V, !JsonEqLaws V}.
Context (ser_pretty ser_compact : V -> string) (de : string -> option V).
Context (ser_users : UsersFile -> string) (de_users : string -> option UsersFile)
  (de_legacy : string -> option (list CompatUser)).
Context (cfg : Deployment.DeploymentConfig) (d : Draws) (h h' : Host).
Hypothesis serde : forall v, de (ser_pretty v) = Some v.
Hypothesis serde_users : forall f, de_users (ser_users f) = Some f.

Local Notation honest := (stamp_honest sha256_hex ser_compact de cfg).
Local Notation trusted_state := (trusted me_uid umask new_gid pid check b64_decode b64_encode sha256_hex mul_base_clamped
  ser_pretty ser_compact de cfg).
Local Notation run := (run_command me_uid umask new_gid pid check b64_decode b64_encode hex_encode sha256_hex mul_base_clamped
  ser_pretty ser_compact de ser_users de_users de_legacy cfg d h h').
Local Notation load_at s := (load_users de_users de_legacy (users_file cfg) (st_fs s) (st_faults s)).
Local Notation listed := (ServerDoctor.listed (V := V)).

(** [u] is one of [us], active, and [g] one of its authorized grants. *)
Definition admits (us : list CompatUser) (u : CompatUser) (g : CredentialGrant) : Prop :=
  In u us /\ is_active u (now h) = true /\ In g (effective_grants u) /\ grant_is_authorized g (now h) = true.

(** The process accepts credentials of [us] only, by [P]. *)
Definition accepts_only (s' : St) (P : string -> string -> Prop) : Prop :=
  exists text doc vless hysteria, st_loaded s' = Some text /\ de text = Some doc /\
    Server.inbounds_of doc = Some [vless; hysteria] /\
    forall n secret, In (Some n, Some secret) (listed vless "uuid" ++ listed hysteria "password") -> P n secret.

Lemma serves_accepts us s s' :
  serves b64_decode b64_encode mul_base_clamped de cfg h us s s' ->
  accepts_only s' (fun n secret => exists u g, admits us u g /\ n = principal_id g /\ (secret = vless_uuid g \/ secret = hysteria2_password g)).
Proof.
  intros (s1 & doc & text & _ & Hr & Hl & Hd). destruct Hr as (rp & hy & fs1 & fl1 & fs2 & fl2 & _ & _ & Hr).
  apply ServerDoctor.rendered_inbounds in Hr. exists text, doc. do 2 eexists. split; [done|]. split; [done|]. split; [exact Hr|].
  intros n secret Hin. apply in_app_or in Hin. rewrite ServerDoctor.vless_listed, ServerDoctor.hysteria_listed in Hin.
  destruct Hin as [Hin|Hin]; apply in_map_iff in Hin as ([u g] & [= <- <-] & Hin);
    apply ServerDoctor.authorized_grants_spec in Hin; exists u, g; unfold admits; simpl; tauto.
Qed.

Lemma accepts_weaken s' (P Q : string -> string -> Prop) : (forall n x, P n x -> Q n x) -> accepts_only s' P -> accepts_only s' Q.
Proof. intros HPQ (text & doc & v & hy & H1 & H2 & H3 & H4). exists text, doc, v, hy. eauto 10. Qed.

Lemma live_command c s s' :
  honest s -> run c s = (Ok (Applied true), s') ->
  exists us us' fs fl, load_at s = (Ok us, fs, fl) /\ edit b64_encode hex_encode sha256_hex cfg d h c us = Ok us' /\
    serves b64_decode b64_encode mul_base_clamped de cfg h us' s s'.
Proof.
  intros Hh E. apply (run_command_spec _ _ _ _ _ _ _ _ _ _ _ _ _ _ _ _ _ _ _ _ serde serde_users) in E.
  unfold commanded in E. destruct (load_at s) as [[[us|e] fs] fl]; [|by destruct E as [[[? [=]]|(? & [=] & _)] _]].
  destruct (edit _ _ _ _ _ _ c us) as [us'|e] eqn:Ee; [|by destruct E]. destruct E as [_ E].
  exists us, us', fs, fl. auto.
Qed.

(** C10: A revocation reported as live is in force.  When disabling or removing
    an account in a trusted state ends with "live", [users.json] held a list of
    users, and the running sing-box has loaded a document in whose two inbounds
    every accepted credential is an authorized grant of another account of that
    list that is active now: none of the named account's secrets is accepted
    any more.  (Disabling changes the first account with the id, so there the
    ids of the list have to be distinct.) *)
Theorem revoked_account_rejected c uid s s' :
  c = SetEnabled uid false \/ c = Remove uid -> trusted_state s -> run c s = (Ok (Applied true), s') ->
  exists us, stored_users de_users de_legacy cfg s = Ok us /\
    ((c = SetEnabled uid false -> List.NoDup (map id us)) ->
     accepts_only s' (fun n secret => exists u g, admits us u g /\ id u <> uid /\ n = principal_id g /\
       (secret = vless_uuid g \/ secret = hysteria2_password g))).
Proof.
  intros Hc Ht E. apply trusted_honest in Ht; [|done]. destruct (live_command _ _ _ Ht E) as (us & us' & fs & fl & Hl & Ee & Hs).
  exists us. split.
  { eapply load_at_stored; [exact Hl|right]. intros ->. by destruct Hc as [-> | ->]. }
  intros Hnd. eapply accepts_weaken; [|by eapply serves_accepts]. intros n x (u & g & (Hin & Ha & Hg & Hau) & Hn & Hx).
  exists u, g. cut (In u us /\ id u <> uid); [intros [? ?]; unfold admits; auto 10|]. destruct Hc as [-> | ->].
  - specialize (Hnd eq_refl). apply find_user_mut_local in Ee as (l & v & v' & r & -> & -> & Hv & [= <-] & Hnl).
    rewrite map_app in Hnd. simpl in Hnd. rewrite Hv in Hnd. apply List.NoDup_remove in Hnd as [_ Hnd].
    apply in_app_or in Hin as [Hin|[<-|Hin]].
    + split; [apply in_or_app; auto|]. intros <-. by apply Hnl, in_map.
    + unfold is_active in Ha. discriminate Ha.
    + split; [apply in_or_app; simpl; auto|]. intros <-. apply Hnd, in_or_app. right. by apply in_map.
  - cbn [edit] in Ee. cbv zeta in Ee. case_match; [discriminate|]. injection Ee as <-.
    apply List.filter_In in Hin as [Hin Hne]. apply negb_true_iff, String.eqb_neq in Hne. done.
Qed.

(** A rotation reported as live is in force, for an account that
    authenticates by its own secrets: of this account the running sing-box
    accepts the new secrets only. *)
Theorem rotated_secrets_replaced uid s s' us :
  honest s -> stored_users de_users de_legacy cfg s = Ok us -> List.NoDup (map id us) ->
  (forall u, In u us -> id u = uid -> credentials u = []) ->
  run (RotateCredentials uid) s = (Ok (Applied true), s') ->
  accepts_only s' (fun n secret =>
    secret = generate_uuid_v4 (d_uuid d) \/ secret = generate_hysteria2_password hex_encode (d_password d) \/
    exists u g, admits us u g /\ id u <> uid /\ n = principal_id g /\ (secret = vless_uuid g \/ secret = hysteria2_password g)).
Proof.
  intros Hh Hst Hnd Hcr E. destruct (live_command _ _ _ Hh E) as (us0 & us' & fs & fl & Hl & Ee & Hs).
  assert (us0 = us) as ->.
  { eapply load_at_stored in Hl; [congruence|right]. by intros ->. }
  eapply accepts_weaken; [|by eapply serves_accepts]. intros n x (u & g & (Hin & Ha & Hg & Hau) & Hn & Hx).
  apply find_user_mut_local in Ee as (l & v & v' & r & -> & -> & Hv & [= <-] & Hnl).
  rewrite map_app in Hnd. simpl in Hnd. rewrite Hv in Hnd. apply List.NoDup_remove in Hnd as [_ Hnd].
  assert (Hother : In u (l ++ v :: r) -> id u <> uid -> exists u g, admits (l ++ v :: r) u g /\ id u <> uid /\ n = principal_id g /\
    (x = vless_uuid g \/ x = hysteria2_password g)) by (intros ? ?; exists u, g; unfold admits; tauto).
  apply in_app_or in Hin as [Hin|[<-|Hin]].
  - right; right. apply Hother; [apply in_or_app; auto|]. intros <-. by apply Hnl, in_map.
  - assert (Hv0 : credentials v = []) by (apply Hcr; [apply in_or_app; simpl; auto|done]).
    unfold effective_grants in Hg. cbn [credentials set_password set_vless_uuid] in Hg. rewrite Hv0 in Hg.
    destruct Hg as [<-|[]]. simpl in Hx. tauto.
  - right; right. apply Hother; [apply in_or_app; simpl; auto|]. intros <-. apply Hnd, in_or_app. right. by apply in_map.
Qed.
End EndToEnd.

(** ** Witnesses *)

Local Notation ex_edit := (edit (fun _ => "key") hex_bytes (fun _ => "00") ex_node ex_draws ex_host).

Lemma edits_stay_local_witness :
  exists us', ex_edit (Remove "user_1") ServerPolicy.ex_users = Ok us' /\ us' = others "user_1" ServerPolicy.ex_users.
Proof.
  destruct (ex_edit (Remove "user_1") ServerPolicy.ex_users) as [us'|e] eqn:E; [|vm_compute in E; discriminate E].
  exists us'. split; [reflexivity|]. exact (proj1 (proj2 (edits_stay_local _ _ _ _ _ _ _ _ _ E))).
Defined.

Lemma expiry_shortcut_sound_witness :
  exists us', ex_edit (SetExpiry "user_1" (Some 5000)) ServerPolicy.ex_users = Ok us' /\
    ServerPolicy.ex_render ServerPolicy.ex_relay_node us' = ServerPolicy.ex_render ServerPolicy.ex_relay_node ServerPolicy.ex_users.
Proof.
  destruct (ex_edit (SetExpiry "user_1" (Some 5000)) ServerPolicy.ex_users) as [us'|e] eqn:E; [|vm_compute in E; discriminate E].
  exists us'. split; [reflexivity|].
  apply (expiry_shortcut_sound (V := json) (fun _ => "key") hex_bytes (fun _ => "00") ServerPolicy.ex_relay_node ex_draws ex_host
    Deployment.ex_key "user_1" (Some 5000) ServerPolicy.ex_users us' (ServerPolicy.ex_account "user_1" false false false)
    ServerPolicy.ex_reality ServerPolicy.ex_hysteria); [reflexivity|vm_compute; reflexivity|reflexivity|reflexivity|exact E].
Defined.

Lemma ex_users_nodup : List.NoDup (map id ServerPolicy.ex_users).
Proof. apply NoDup_ListNoDup. apply (bool_decide_unpack _). vm_compute. exact I. Qed.

Lemma revoked_account_rejected_witness :
  exists s' text, ex_run (SetEnabled "user_1" false) (ex_with ServerPolicy.ex_users [] []) = (Ok (Applied true), s') /\
    st_loaded s' = Some text.
Proof.
  destruct (run_result (ex_run (SetEnabled "user_1" false) (ex_with ServerPolicy.ex_users [] [])) (Ok (Applied true))
    ltac:(vm_compute; reflexivity)) as [s' E]. unfold ex_run in E.
  destruct (revoked_account_rejected _ _ _ _ _ _ _ _ _ _ _ _ _ _ _ _ _ _ _ _ ex_serde ex_roundtrip _ "user_1" _ _
    (or_introl eq_refl) (trusted_unstamped _ _ _ _ _ _ _ _ _ _ _ _ _ _ (ex_with_unstamped _ _ _)) E) as (us & Hus & Hacc).
  rewrite ex_stored in Hus. injection Hus as <-.
  destruct (Hacc (fun _ => ex_users_nodup)) as (text & doc & v & hy & Hl & _).
  exists s', text. split; [exact E|exact Hl].
Defined.

Lemma rotated_secrets_replaced_witness :
  exists s' text, ex_run (RotateCredentials "user_1") (ex_with ServerPolicy.ex_users [] []) = (Ok (Applied true), s') /\
    st_loaded s' = Some text.
Proof.
  destruct (run_result (ex_run (RotateCredentials "user_1") (ex_with ServerPolicy.ex_users [] [])) (Ok (Applied true))
    ltac:(vm_compute; reflexivity)) as [s' E]. unfold ex_run in E.
  destruct (rotated_secrets_replaced _ _ _ _ _ _ _ _ _ _ _ _ _ _ _ _ _ _ _ _ ex_serde ex_roundtrip "user_1" _ _ _
    (ex_with_honest _ _ _) (ex_stored _ _) ex_users_nodup
    ltac:(intros u [<-|[<-|[<-|[<-|[]]]]] Hu; vm_compute in Hu; (reflexivity || discriminate Hu)) E) as (text & doc & v & hy & Hl & _).
  exists s', text. split; [exact E|exact Hl].
Defined.

(** ** Gaps *)

(** Renewing gives an operator account a grant of its own, and from then on
    its own secrets are not accepted: the client that was handed them is
    locked out. *)
Lemma renew_native_locks_out_own_secrets :
  let u := ServerPolicy.ex_account "user_1" false false false in
  exists u', renew_or_mint hex_bytes 1000 ex_draws u = Ok u' /\ u_vless_uuid u' = u_vless_uuid u /\
    map vless_uuid (authorized_of u 1000) = [u_vless_uuid u] /\
    existsb (String.eqb (u_vless_uuid u)) (map vless_uuid (authorized_of u' 1000)) = false.
Proof. eexists. split; [reflexivity|]. repeat split; vm_compute; reflexivity. Qed.

(** And rotating the secrets of such an account changes nothing at all in the
    document. *)
Lemma rotation_ignored_with_grants :
  exists us us', ex_edit (RenewNative "user_1") ServerPolicy.ex_users = Ok us /\
    ex_edit (RotateCredentials "user_1") us = Ok us' /\
    ServerPolicy.ex_render ServerPolicy.ex_exit_node us' = ServerPolicy.ex_render ServerPolicy.ex_exit_node us.
Proof. do 2 eexists. repeat split; vm_compute; reflexivity. Qed.

(** Clearing the deadline of an active control-plane credential stores a list
    that no longer renders: every later apply fails. *)
Definition ex_credential : CompatUser :=
  {| id := "cred_opaque001"; name := "ext_opaque001"; enabled := true;
     u_vless_uuid := "00000000-0000-4000-8000-000000000001"; u_hysteria2_password := "0123456789abcdef";
     subscription_token_hash_hex := ""; created_at := 100; expires_at := Some 170000; vision_off_experiment := false;
     google_egress_hairpin := false; exit_principal := false; peer_credentials := []; is_reserved_probe := false;
     credentials := [] |}.
Lemma cleared_expiry_breaks_rendering :
  let r := ex_run (SetExpiry "cred_opaque001" None) (ex_with [ex_credential] [] []) in
  fst r = Ok Stored /\ stored_users ex_de ex_legacy ex_node (snd r) = Ok [set_expires_at None ex_credential] /\
  fst (ex_apply [ex_credential] ex_host (snd r)) = Ok true /\
  fst (ex_apply [set_expires_at None ex_credential] ex_host (snd r)) =
    Err (RenderFailed (Server.InvalidAuthorizations (Authz.LifetimeOutsidePolicy "cred_opaque001"))).
Proof. intros r. repeat split; vm_compute; reflexivity. Qed.
End AdminRevocation.
