(* ===== verification/AdminRevision.v ===== *)
(** * apps/admin: applying revisions

    main.rs [cmd_apply_revision] (the staleness guard, the users path and the
    revision stamp) and static_apply.rs (the transaction around an allowlisted
    change of [deployment.toml]), over the apply transaction of [AdminApply.v]
    and the planner of [StaticRevision.v].  The name service that resolves the
    handshake server is an input of a run. *)

From S2P Require Import Prelude Strs Net NetText AddressPolicy Authorization Credentials Grants Json Contract.
From S2P Require Import Render Deployment StaticRevision Server ServerPolicy ServerDoctor Store ConfigApply.
From S2P Require Import AdminApply AdminSteps AdminReconcile AdminUsers.
From Stdlib Require Import Ascii.

Module AdminRevision.
Import Store ConfigApply AdminApply AdminSteps.

Inductive RevisionStampState := Missing | Present (revision : Z) | Corrupt.

Definition applied_revision_stamp_path (cfg : Deployment.DeploymentConfig) : path :=
  {| dir := dir (users_file cfg); name := "applied_revision.json" |}.

Inductive revision_outcome := Skipped | Recorded | AppliedRevision.

Inductive revision_error :=
| StampCorrupt
| InputMissing
| InputInvalid
| Admin (e : admin_error)
| StampNotRecorded (e : store_error)
| StaticRejected (e : StaticRevision.rev_error)
| BackupUnreadable
| BackupInvalid
| RestoreFailed
| RecoveryApply (e : admin_error)
| RecoverySubscription
| BackupNotRemoved
| ConfigUnreadable
| ConfigInvalid
| PolicyChanged (section : string)
| PreflightFailed
| HandshakeUnresolved
| StageFailed
| StaticFailed (e : option admin_error) (toml_restored singbox_restored subscription_restored : bool).

Notation rrio := (rio revision_error).

Section Revision.
Context (me_uid umask : Z) (new_gid : string -> Z) (pid : string) (check : string -> bool).
Context (b64_decode : string -> option (list Z)) (b64_encode : list Z -> string) (sha256_hex : string -> string)
  (mul_base_clamped : list Z -> list Z).
Context {V : Type} `{JsonOps V, !JsonTree V, !JsonEq V}.
Context (ser_pretty ser_compact : V -> string) (de : string -> option V).
Context (ser_users : UsersFile -> string) (de_users : string -> option UsersFile)
  (de_legacy : string -> option (list Grants.CompatUser)).
Context (toml_config : string -> option Deployment.DeploymentConfig) (toml_table : string -> option (list (string * StaticRevision.toml)))
  (toml_print : list (string * StaticRevision.toml) -> option string) (normalized : Deployment.DeploymentConfig -> V).
(** The host as changes are applied and as they are rolled back, and the
    addresses the handshake server resolves to. *)
Context (h h' : Host) (resolve : string -> Z -> option (list IpAddr)).

(** ** The stamp *)

Definition read_applied_revision_state (cfg : Deployment.DeploymentConfig) : rrio RevisionStampState :=
  rev! r := rfile (read_optional (applied_revision_stamp_path cfg)) in
  rret (match r with
        | Ok None => Missing
        | Err _ => Corrupt
        | Ok (Some text) =>
            match de text with
            | Some v => match get_u64 v "revision" with Some n => Present n | None => Corrupt end
            | None => Corrupt
            end
        end).

Definition read_applied_revision (cfg : Deployment.DeploymentConfig) : rrio (option Z) :=
  rev! state := read_applied_revision_state cfg in
  rret (match state with Present revision => Some revision | Missing | Corrupt => None end).

Definition commit_applied_revision_stamp (cfg : Deployment.DeploymentConfig) (revision : Z) : io unit :=
  let stamp := applied_revision_stamp_path cfg in
  let tmp := with_extension stamp ("tmp." +:+ pid) in
  do! _ := write_secret_file me_uid umask new_gid tmp (ser_compact (jobj [("revision", jint revision)])) in
  do! _ := rename tmp stamp in
  fsync_parent_dir.

(** ** static_apply.rs *)

Local Notation apply cfg us hs :=
  (render_and_apply_singbox_config me_uid umask new_gid pid check b64_decode b64_encode sha256_hex mul_base_clamped
     ser_pretty ser_compact de cfg us true hs).
Local Notation write_text p text m := (atomic_write me_uid umask new_gid pid p text m).

Definition static_revision_backup_path (config_path : path) : path := sibling config_path ".static-revision.bak".

(** [deployment_toml_mode]: [None] when the file cannot be examined. *)
Definition mode_of (p : path) : io Z := syscall unchanged (fun fs =>
  match files fs !! p with Some f => (Ok (Z.land (mode f) 511), fs) | None => (Err Io, fs) end).
Definition deployment_toml_mode (p : path) : rrio Z :=
  rev! r := rfile (mode_of p) in rret (match r with Ok m => m | Err _ => 420 end).

(** The services brought back to [restored]. *)
Definition reconverge (restored : Deployment.DeploymentConfig) : rrio unit :=
  rev! users := rfail (fun e => Admin (LoadFailed e)) (load_users de_users de_legacy (users_file restored)) in
  rev! _ := raise RecoveryApply (apply restored users h) in
  rev! available := rask (is_available (singbox_config_file restored)) in
  rev! installed := (if (available : bool) then rask (is_unit_installed (singbox_config_file restored)) else rret false) in
  if (installed : bool) then
    rev! ok := rask (sub_reload_and_verify (singbox_config_file restored)) in
    if (ok : bool) then rret tt else rthrow RecoverySubscription
  else rret tt.

(** Restoring the text [text], which is the configuration [restored]. *)
Definition restore_deployment (config_path : path) (text : string) (restored : Deployment.DeploymentConfig) : rrio unit :=
  rev! m := deployment_toml_mode config_path in
  rev! _ := rfail (fun _ => RestoreFailed) (write_text config_path text m) in
  rev! _ := reconverge restored in
  rfail (fun _ => BackupNotRemoved) (remove_file (static_revision_backup_path config_path)).

Definition recover_interrupted_apply (config_path : path) : rrio unit :=
  rev! r := rfile (read_optional (static_revision_backup_path config_path)) in
  match r with
  | Ok None => rret tt
  | Err _ => rthrow BackupUnreadable
  | Ok (Some text) =>
      match toml_config text with
      | None => rthrow BackupInvalid
      | Some restored =>
          if negb (is_ok (Deployment.validate b64_decode restored)) then rthrow BackupInvalid else
          restore_deployment config_path text restored
      end
  end.

(** One render of the pre-flight. *)
Definition preflight_render (cfg : Deployment.DeploymentConfig) (users : list Grants.CompatUser) : rrio V :=
  rev! reality := rfail (fun _ => PreflightFailed) (load_reality_params b64_decode b64_encode mul_base_clamped cfg) in
  rev! hysteria := rfail (fun _ => PreflightFailed) (load_hysteria_params cfg h) in
  rlift (map_err (fun _ => PreflightFailed)
           (Server.render_server_config_for_deployment b64_decode cfg users reality hysteria (now h))).

(** [current[section] != proposed[section]] (indexing a missing key is null). *)
Definition same_section (a b : V) (k : string) : bool :=
  jeqb (Render.unwrap_or (jget a k) jnull) (Render.unwrap_or (jget b k) jnull).
Definition preflight_security_policy_unchanged (original candidate : Deployment.DeploymentConfig)
  (users : list Grants.CompatUser) : rrio unit :=
  rev! current := preflight_render original users in
  rev! proposed := preflight_render candidate users in
  match List.find (fun k => negb (same_section current proposed k)) ["route"; "outbounds"; "dns"] with
  | Some k => rthrow (PolicyChanged k)
  | None => rret tt
  end.

Definition handshake_resolves (cfg : Deployment.DeploymentConfig) : bool :=
  let host := Deployment.re_handshake_server (Deployment.reality cfg) in
  is_ok (StaticRevision.validate_handshake_server host) &&
  match resolve host (Deployment.re_handshake_port (Deployment.reality cfg)) with
  | Some answers => is_ok (PublicResolver.validate_handshake_server_addresses answers)
  | None => false
  end.

Definition served_endpoint_inputs_changed (original candidate : Deployment.DeploymentConfig) (rev : StaticRevision.StaticRevision) : bool :=
  StaticRevision.touches_served_endpoints rev
  && (negb (String.eqb (Deployment.re_handshake_server (Deployment.reality original)) (Deployment.re_handshake_server (Deployment.reality candidate)))
      || negb (bool_decide (Deployment.up_mbps (Deployment.hysteria2 original) = Deployment.up_mbps (Deployment.hysteria2 candidate)))
      || negb (bool_decide (Deployment.down_mbps (Deployment.hysteria2 original) = Deployment.down_mbps (Deployment.hysteria2 candidate)))).

Definition load_config (config_path : path) : rrio Deployment.DeploymentConfig :=
  rev! text := rfail (fun _ => ConfigUnreadable) (read_file config_path) in
  match toml_config text with
  | Some cfg => if is_ok (Deployment.validate b64_decode cfg) then rret cfg else rthrow ConfigInvalid
  | None => rthrow ConfigInvalid
  end.

(** The candidate made live; whether vpn-subscription was touched, and the
    error. *)
Definition try_candidate (original candidate : Deployment.DeploymentConfig) (rev : StaticRevision.StaticRevision)
  (users : list Grants.CompatUser) : rrio (bool * result unit (option admin_error)) :=
  rev! r := embed (apply candidate users h) in
  match r with
  | Err e => rret (false, Err (Some e))
  | Ok _ =>
      if served_endpoint_inputs_changed original candidate rev then
        rev! available := rask (is_available (singbox_config_file candidate)) in
        rev! installed := (if (available : bool) then rask (is_unit_installed (singbox_config_file candidate)) else rret false) in
        if (installed : bool) then
          rev! ok := rask (sub_reload_and_verify (singbox_config_file candidate)) in
          rret (true, if (ok : bool) then Ok tt else Err None)
        else if negb (offline_mutation_allowed h) then rret (false, Err None) else rret (false, Ok tt)
      else rret (false, Ok tt)
  end.

(** Going back to the original. *)
Definition roll_back (config_path : path) (original_text : string) (m : Z) (original : Deployment.DeploymentConfig)
  (users : list Grants.CompatUser) (subscription_touched : bool) (e : option admin_error) : rrio revision_outcome :=
  rev! toml := rfile (write_text config_path original_text m) in
  let toml_restored := is_ok toml in
  rev! singbox_restored := (if toml_restored then rev! r := embed (apply original users h') in rret (is_ok r) else rret false) in
  rev! subscription_restored :=
    (if subscription_touched then rask (sub_reload_and_verify (singbox_config_file original)) else rret true) in
  rev! _ := (if toml_restored then rev! _ := rfile (remove_file (static_revision_backup_path config_path)) in rret tt else rret tt) in
  rthrow (StaticFailed e toml_restored singbox_restored subscription_restored).

(** From the backup on. *)
Definition stage_and_apply (config_path : path) (revision : Z) (rev : StaticRevision.StaticRevision) (original_text : string)
  (original : Deployment.DeploymentConfig) (candidate_text : string) (candidate : Deployment.DeploymentConfig)
  (users : list Grants.CompatUser) : rrio revision_outcome :=
  let backup := static_revision_backup_path config_path in
  rev! m := deployment_toml_mode config_path in
  rev! _ := rfail (fun _ => StageFailed) (write_text backup original_text 384) in
  rev! staged := rfile (write_text config_path candidate_text m) in
  match staged with
  | Err _ => rev! _ := rfile (remove_file backup) in rthrow StageFailed
  | Ok _ =>
      rev! out := try_candidate original candidate rev users in
      match snd out with
      | Ok _ =>
          rev! _ := rfail StampNotRecorded (commit_applied_revision_stamp candidate revision) in
          rev! _ := rfile (remove_file backup) in
          rret AppliedRevision
      | Err e => roll_back config_path original_text m original users (fst out) e
      end
  end.

Definition cmd_apply_static_revision (config_path : path) (revision : Z) (bytes : string) : rrio revision_outcome :=
  rev! rev := rlift (map_err StaticRejected (StaticRevision.parse_static_revision de bytes)) in
  rev! _ := recover_interrupted_apply config_path in
  rev! original_text := rfail (fun _ => ConfigUnreadable) (read_file config_path) in
  rev! original := load_config config_path in
  rev! plan := rlift (map_err StaticRejected
                 (StaticRevision.plan_static_revision b64_decode toml_config toml_table toml_print normalized original_text rev)) in
  match plan with
  | StaticRevision.Unchanged =>
      rev! _ := rfail StampNotRecorded (commit_applied_revision_stamp original revision) in
      rret Recorded
  | StaticRevision.Changed candidate_text candidate =>
      rev! users := rfail (fun e => Admin (LoadFailed e)) (load_users de_users de_legacy (users_file original)) in
      rev! _ := preflight_security_policy_unchanged original candidate users in
      rev! _ := (if negb (offline_mutation_allowed h) && negb (handshake_resolves candidate) then rthrow HandshakeUnresolved
                 else rret tt) in
      stage_and_apply config_path revision rev original_text original candidate_text candidate users
  end.

(** ** main.rs: [cmd_apply_revision] *)

Definition apply_users_revision (cfg : Deployment.DeploymentConfig) (revision : Z) (bytes : string) : rrio revision_outcome :=
  rev! candidate_users := rlift (map_err (fun _ => InputInvalid) (parse_users_bytes de_users de_legacy bytes)) in
  rev! previous_users := rfail (fun e => Admin (LoadFailed e)) (load_users de_users de_legacy (users_file cfg)) in
  rev! _ := raise Admin (apply_users_and_save me_uid umask new_gid pid check b64_decode b64_encode sha256_hex mul_base_clamped
                           ser_pretty ser_compact de ser_users cfg previous_users candidate_users h h') in
  rev! _ := rfail StampNotRecorded (commit_applied_revision_stamp cfg revision) in
  rret AppliedRevision.

Definition apply_revision_document (cfg : Deployment.DeploymentConfig) (config_path : path) (revision : Z) (input : path)
  : rrio revision_outcome :=
  rev! bytes := rfail (fun _ => InputMissing) (read_file input) in
  if match de bytes with Some doc => StaticRevision.is_static_revision_document doc | None => false end
  then cmd_apply_static_revision config_path revision bytes else apply_users_revision cfg revision bytes.

Definition cmd_apply_revision (cfg : Deployment.DeploymentConfig) (config_path : path) (revision : Z) (input : path)
  : rrio revision_outcome :=
  rev! state := read_applied_revision_state cfg in
  match state with
  | Corrupt => rthrow StampCorrupt
  | Present applied => if revision <=? applied then rret Skipped else apply_revision_document cfg config_path revision input
  | Missing => apply_revision_document cfg config_path revision input
  end.

Lemma mode_of_frame p : frame (fun _ => False) (mode_of p).
Proof. apply frame_syscall; [done|]. intros fs x _. by destruct (files fs !! p). Qed.
(** ** The stamp file *)

Definition stamp_tmp_path (cfg : Deployment.DeploymentConfig) : path :=
  with_extension (applied_revision_stamp_path cfg) ("tmp." +:+ pid).

Lemma stamp_tmp_ne cfg : stamp_tmp_path cfg <> applied_revision_stamp_path cfg.
Proof. intros E. apply (f_equal name) in E. discriminate. Qed.

Lemma commit_revision_frame cfg revision :
  frame (fun x => x = applied_revision_stamp_path cfg \/ x = stamp_tmp_path cfg) (commit_applied_revision_stamp cfg revision).
Proof.
  unfold commit_applied_revision_stamp. fold (stamp_tmp_path cfg).
  apply frame_bind; [eapply frame_weaken, write_secret_frame; intros x ->; by right|]. intros _.
  apply frame_bind; [eapply frame_weaken, rename_frame; intros x [-> | ->]; auto|]. intros _. apply fsync_frame.
Qed.

Definition stamp_text (revision : Z) : string := ser_compact (jobj [("revision", jint revision)]).

(** The stamp is replaced whole or left as it was. *)
Lemma commit_revision_spec cfg revision fs fl r fs' fl' :
  commit_applied_revision_stamp cfg revision fs fl = (r, fs', fl') ->
  match r with
  | Ok _ => option_map content (files fs' !! applied_revision_stamp_path cfg) = Some (stamp_text revision)
  | Err _ => files fs' !! applied_revision_stamp_path cfg = files fs !! applied_revision_stamp_path cfg
  end.
Proof.
  unfold commit_applied_revision_stamp. fold (stamp_tmp_path cfg) (stamp_text revision). intros E.
  pose proof (stamp_tmp_ne cfg) as Hne.
  io_bind E; [|subst r; eapply write_secret_frame; [exact E0|congruence]].
  assert (Hk : files fs0 !! applied_revision_stamp_path cfg = files fs !! applied_revision_stamp_path cfg)
    by (eapply write_secret_frame; [exact E0|congruence]).
  destruct a. apply write_secret_ok in E0.
  io_bind E.
  - apply syscall_ok in E1 as [E1 _]. destruct (files fs0 !! stamp_tmp_path cfg) as [f|]; [|discriminate].
    injection E1 as _ <-. pose proof (fsync_frame (fun _ => False) _ _ _ _ _ (applied_revision_stamp_path cfg) E (fun x => x)) as Hf.
    assert (exists u, r = Ok u) as [u ->].
    { unfold fsync_parent_dir, bind, try in E. destruct (syscall _ _ _ _) as [[[] ?] ?]; injection E as <- _ _; eauto. }
    rewrite Hf. simpl. rewrite lookup_insert. destruct (decide _); [|done]. by simpl in *.
  - subst r. rewrite <- Hk. revert E1. unfold rename, syscall.
    destruct fl0 as [|[|n] fl0]; [| |by intros [= _ <- _]];
      (destruct (files fs0 !! stamp_tmp_path cfg); [discriminate|]; by intros [= _ <- _]).
Qed.

(** What the guard reads when no system call fails. *)
Definition stamp_state (cfg : Deployment.DeploymentConfig) (s : St) : RevisionStampState :=
  match file_text (applied_revision_stamp_path cfg) s with
  | None => Missing
  | Some text =>
      match de text with
      | Some v => match get_u64 v "revision" with Some n => Present n | None => Corrupt end
      | None => Corrupt
      end
  end.

Lemma read_state_inv cfg s r s' : read_applied_revision_state cfg s = (r, s') ->
  st_fs s' = st_fs s /\ (r = Ok (stamp_state cfg s) \/ r = Ok Corrupt).
Proof.
  intros E. apply rbind_inv in E as [(a & s1 & E1 & E)|(e & E & _)];
    [|apply read_optional_inv in E as [_ [?|(? & ?)]]; discriminate].
  apply read_optional_inv in E1 as [Hf E1]. injection E as <- <-. split; [done|].
  destruct E1 as [[= ->]|(e & [= ->])]; [left|by right]. unfold stamp_state. by destruct (file_text _ _).
Qed.

(** ** The files of a transaction *)

Section Files.
Context (config_path : path).
Local Notation bak := (static_revision_backup_path config_path).

(** The deployment file lies outside the state directory. *)
Definition apart (cfg : Deployment.DeploymentConfig) : Prop :=
  dir config_path <> dir (users_file cfg) /\ dir config_path <> dir (singbox_config_file cfg) /\
  dir config_path <> Deployment.state_dir cfg.

Lemma apart_own cfg q : apart cfg -> dir q = dir config_path -> ~ own_files cfg q.
Proof. intros (_ & H1 & H2) Hq [E|E]; [congruence|]. apply H2. rewrite <- Hq, E. done. Qed.
Lemma apart_stamp cfg q : apart cfg -> dir q = dir config_path -> q <> applied_revision_stamp_path cfg /\ q <> stamp_tmp_path cfg.
Proof. intros (H1 & _) Hq. split; intros E; apply H1; rewrite <- Hq, E; done. Qed.
Lemma stamp_not_own cfg : ~ own_files cfg (applied_revision_stamp_path cfg).
Proof.
  intros [E|E].
  - unfold applied_revision_stamp_path, users_file, singbox_config_file, in_dir in E. simpl in E.
    apply (inj (String.app (Deployment.state_dir cfg))) in E. discriminate.
  - apply (f_equal name) in E. discriminate.
Qed.

Lemma backup_not_config : bak <> config_path.
Proof.
  intros E. apply (f_equal (fun q => slen (name q))) in E. unfold static_revision_backup_path, sibling in E. simpl in E.
  rewrite slen_app in E. change (slen ".static-revision.bak") with 20 in E. lia.
Qed.
Lemma bak_tmp_ne : tmp_sibling_path pid bak <> config_path.
Proof.
  intros E. apply (f_equal (fun q => slen (name q))) in E. unfold tmp_sibling_path, static_revision_backup_path, sibling in E. simpl in E.
  rewrite !slen_app in E. change (slen ".static-revision.bak") with 20 in E. change (slen ".tmp.") with 5 in E. pose proof (slen_nonneg pid). lia.
Qed.
Lemma tmp_bak_ne : tmp_sibling_path pid config_path <> bak.
Proof. apply sibling_ne. discriminate. Qed.

Lemma mode_frame S p : rframe S (deployment_toml_mode p).
Proof. apply rframe_bind; [by eapply rframe_file, mode_of_frame|]. intros ?. apply rframe_ret. Qed.

Lemma mode_ok p s r s' : deployment_toml_mode p s = (r, s') ->
  exists m, r = Ok m /\ forall q, files (st_fs s') !! q = files (st_fs s) !! q.
Proof.
  intros E. pose proof (fun q => use_frame (fun _ => False) q _ _ _ _ E (mode_frame _ _) (fun x => x)) as F.
  apply rbind_inv in E as [(m & s1 & _ & E)|(e & E & _)]; [injection E as <- <-; by eexists|].
  apply rfile_inv in E as (? & ? & ? & _ & [=] & _).
Qed.

Lemma apply_frame cfg us hs :
  aframe (own_files cfg) (apply cfg us hs).
Proof. apply render_and_apply_frame. Qed.

Ltac r_frame :=
  repeat first
    [ apply rframe_ret | apply rframe_throw | apply rframe_lift
    | apply ask_available_frame | apply ask_installed_frame | apply ask_subscription_frame | apply mode_frame
    | eapply rframe_raise; [|apply apply_frame]; intros ? ?; tauto
    | eapply rframe_embed; [|apply apply_frame]; intros ? ?; tauto
    | eapply rframe_fail; [|apply AdminUsers.load_users_frame]; done
    | eapply rframe_fail; [|apply read_frame]; done
    | eapply rframe_fail; [|apply remove_frame]; intros ? ->; tauto
    | eapply rframe_file; [|apply remove_frame]; intros ? ->; tauto
    | eapply rframe_file; [|apply read_optional_frame]; done
    | eapply rframe_fail; [|apply load_reality_frame]; done
    | eapply rframe_fail; [|apply load_hysteria_frame]; done
    | apply rframe_bind; [|intros ?] | case_match ].

(** *** Going back to a leftover backup *)

Lemma reconverge_frame restored : rframe (own_files restored) (reconverge restored).
Proof. unfold reconverge. r_frame. Qed.

Lemma restore_spec text restored s r s' : apart restored -> restore_deployment config_path text restored s = (r, s') ->
  (forall q, dir q <> dir config_path -> ~ own_files restored q -> files (st_fs s') !! q = files (st_fs s) !! q) /\
  match r with
  | Ok _ => file_text config_path s' = Some text /\ file_text bak s' = None
  | Err _ => file_text bak s' = file_text bak s
  end.
Proof.
  intros Hap. unfold restore_deployment. intros E.
  apply rbind_inv in E as [(m & s1 & E1 & E)|(e & E & _)]; [|by apply mode_ok in E as (? & ? & _)].
  apply mode_ok in E1 as (m0 & [= <-] & F1). cbv beta in E. pose proof backup_not_config as Nb. pose proof tmp_bak_ne as Nu.
  assert (Hown : forall q, dir q = dir config_path -> ~ own_files restored q) by (intros q Hq; by apply apart_own).
  apply rbind_inv in E as [(u & s2 & E2 & E)|(e & E2 & ->)]; cbv beta in *; apply rfail_rfile in E2 as (r2 & E2 & Hr2);
    apply write_text_spec in E2 as (r0 & [= <-] & F2 & W); (destruct r2 as [u'|e']; simplify_eq/=).
  2: { split; [intros q Hq _; rewrite F2, F1; [done|intros ->; by apply Hq..]|]. unfold file_text. by rewrite F2, F1 by congruence. }
  apply rbind_inv in E as [(u & s3 & E3 & E)|(e & E3 & ->)]; cbv beta in *;
    pose proof (fun q => use_frame _ q _ _ _ _ E3 (reconverge_frame _)) as F3.
  2: { split; [intros q Hq Ho; rewrite F3, F2, F1; [done|intros ->; by apply Hq..|done]|].
       unfold file_text. by rewrite F3, F2, F1 by first [by apply Hown | congruence]. }
  apply rfail_rfile in E as (r4 & E4 & ->). apply removed_spec in E4 as [F4 R]. split.
  - intros q Hq Ho. rewrite F4, F3, F2, F1; [done|intros ->; by apply Hq..|done|intros ->; by apply Hq].
  - destruct r4 as [u4|e4]; simpl.
    + split; [|done]. unfold file_text in *. by rewrite F4, F3 by first [by apply Hown | congruence].
    + unfold file_text. rewrite R. by rewrite F3, F2, F1 by first [by apply Hown | congruence].
Qed.

Lemma recover_inv s r s' : recover_interrupted_apply config_path s = (r, s') ->
  (st_fs s' = st_fs s /\ (r = Ok tt -> file_text bak s = None)) \/
  (exists t c s1, file_text bak s = Some t /\ toml_config t = Some c /\ Deployment.validate b64_decode c = Ok tt /\
     st_fs s1 = st_fs s /\ restore_deployment config_path t c s1 = (r, s')).
Proof.
  intros E. apply rbind_inv in E as [(a & s1 & E1 & E)|(e & E & _)];
    [|apply read_optional_inv in E as [_ [?|(? & ?)]]; discriminate].
  apply read_optional_inv in E1 as [F1 [[= ->]|(e & [= ->])]]; cbv beta in E; [|injection E as <- <-; by left].
  destruct (file_text bak s) as [t|]; [|injection E as <- <-; by left].
  destruct (toml_config t) as [c|] eqn:Hc; [|injection E as <- <-; by left].
  destruct (Deployment.validate b64_decode c) as [[]|] eqn:Hv; [|injection E as <- <-; by left].
  right. by exists t, c, s1.
Qed.

(** *** The transaction *)

Lemma commit_stamp_spec cfg revision (wrap : store_error -> revision_error) s r s' : rfail wrap (commit_applied_revision_stamp cfg revision) s = (r, s') ->
  (forall q, q <> applied_revision_stamp_path cfg -> q <> stamp_tmp_path cfg -> files (st_fs s') !! q = files (st_fs s) !! q) /\
  match r with
  | Ok _ => file_text (applied_revision_stamp_path cfg) s' = Some (stamp_text revision)
  | Err e => files (st_fs s') !! applied_revision_stamp_path cfg = files (st_fs s) !! applied_revision_stamp_path cfg /\
      exists e0, e = wrap e0
  end.
Proof.
  intros E. apply rfail_inv in E as (r0 & fs & fl & E & -> & <- & _). split.
  - intros q H1 H2. eapply commit_revision_frame; [exact E|]. tauto.
  - apply commit_revision_spec in E. destruct r0; simpl; [done|eauto].
Qed.

Lemma try_candidate_spec original candidate rv users s r s' :
  try_candidate original candidate rv users s = (r, s') ->
  (exists out, r = Ok out) /\ (forall q, ~ own_files candidate q -> files (st_fs s') !! q = files (st_fs s) !! q).
Proof.
  intros E. split.
  - unfold try_candidate, embed, rbind, rask, rret in E.
    destruct (apply candidate users h s) as [[a|e] s0]; [|injection E as <- _; eauto].
    destruct (served_endpoint_inputs_changed _ _ _); [|injection E as <- _; eauto].
    destruct (is_available _ s0) as [[] s1]; [destruct (is_unit_installed _ s1) as [[] s2]; [destruct (sub_reload_and_verify _ s2) as [? s3]|]|];
      (try destruct (negb _)); injection E as <- _; eauto.
  - intros q Hq. eapply (use_frame (own_files candidate)); [exact E| |exact Hq]. unfold try_candidate. r_frame.
Qed.

Lemma roll_back_spec text m original users touched e s r s' :
  apart original -> roll_back config_path text m original users touched e s = (r, s') ->
  (forall q, dir q <> dir config_path -> ~ own_files original q -> files (st_fs s') !! q = files (st_fs s) !! q) /\
  exists tr sr ur, r = Err (StaticFailed e tr sr ur) /\
    (if tr : bool then file_text config_path s' = Some text /\ (file_text bak s' = file_text bak s \/ file_text bak s' = None)
     else file_text bak s' = file_text bak s).
Proof.
  intros Hap. unfold roll_back. intros E.
  apply rbind_inv in E as [(r0 & s1 & E1 & E)|(e0 & E & _)]; [|by apply write_text_spec in E as (? & ? & _)].
  apply write_text_spec in E1 as (r1 & [= <-] & F1 & W). cbv beta zeta in E.
  assert (F2 : forall q, ~ (own_files original q \/ q = bak) -> files (st_fs s') !! q = files (st_fs s1) !! q).
  { intros q Hq. eapply (use_frame (fun q => own_files original q \/ q = bak)); [exact E| |exact Hq]. r_frame. }
  assert (Hown : ~ own_files original config_path) by by apply apart_own.
  split.
  { intros q Hq Ho. rewrite F2, F1; [done|intros ->; by apply Hq..|]. intros [?|Hb]; [done|]. by rewrite Hb in Hq. }
  assert (exists sr ur, r = Err (StaticFailed e (is_ok r0) sr ur)) as (sr & ur & Hr).
  { destruct r0 as [u|e0], touched; simpl in E; unfold rbind, embed, rask, rret, rthrow in E;
      (try destruct (apply original users h' s1) as [? s2]; simpl in E);
      (try destruct (sub_reload_and_verify _ _) as [? s3]; simpl in E);
      (try match type of E with context [@rfile ?X _ ?m ?x] => destruct (rfile_total (X := X) m x) as (? & ? & Er); rewrite Er in E end);
      injection E as <- <-; eauto. }
  assert (Hb : forall q, q = bak -> file_text q s1 = file_text q s).
  { intros q ->. unfold file_text. rewrite F1; [done|apply backup_not_config|]. intros Hb. symmetry in Hb. by apply tmp_bak_ne in Hb. }
  assert (Hc : is_ok r0 = true -> file_text config_path s' = Some text).
  { destruct r0 as [u|e0]; [|done]. intros _. unfold file_text in *. rewrite F2; [done|].
    intros [?|Hx]; [done|]. symmetry in Hx. by apply backup_not_config in Hx. }
  exists (is_ok r0), sr, ur. split; [done|].
  assert (Ho : ~ own_files original bak) by by apply apart_own.
  assert (Hend : file_text bak s' = file_text bak s \/ is_ok r0 = true /\ file_text bak s' = None).
  { apply rbind_inv in E as [(b1 & s2 & E2 & E)|(e1 & E2 & _)]; cbv beta in *;
      apply (use_frame (own_files original) bak) in E2; try exact Ho; try (r_frame; fail).
    2: { left. rewrite <- Hb by done. unfold file_text. by rewrite E2. }
    apply rbind_inv in E as [(b2 & s3 & E3 & E)|(e1 & E3 & _)]; cbv beta in *;
      apply (use_frame (own_files original) bak) in E3; try exact Ho; try (r_frame; fail).
    2: { left. rewrite <- Hb by done. unfold file_text. by rewrite E3, E2. }
    assert (Hs3 : file_text bak s3 = file_text bak s) by (rewrite <- Hb by done; unfold file_text; by rewrite E3, E2).
    destruct r0 as [u|e0]; simpl in *; [|injection E as <- <-; by left].
    destruct (rfile_total (X := revision_error) (remove_file bak) s3) as (r4 & s4 & E4). unfold rbind, rret, rthrow in E. rewrite E4 in E. injection E as <- <-.
    apply removed_spec in E4 as [_ R]. destruct r4; [right; auto|left]. unfold file_text in *. by rewrite R. }
  destruct (is_ok r0); [|by destruct Hend as [?|[? _]]]. split; [by apply Hc|]. destruct Hend as [?|[_ ?]]; auto.
Qed.

(** Every path below the state directory is determined by it. *)
Lemma own_same a b q : Deployment.state_dir a = Deployment.state_dir b -> own_files a q <-> own_files b q.
Proof. intros E. unfold own_files, singbox_config_file, in_dir, spoof_stamp_file. by rewrite E. Qed.
Lemma apart_same a b : Deployment.state_dir a = Deployment.state_dir b -> apart a -> apart b.
Proof. intros E. unfold apart, users_file, singbox_config_file, in_dir. by rewrite E. Qed.
Lemma stamp_same a b : Deployment.state_dir a = Deployment.state_dir b -> applied_revision_stamp_path a = applied_revision_stamp_path b.
Proof. intros E. unfold applied_revision_stamp_path, users_file, in_dir. by rewrite E. Qed.
Lemma stamp_tmp_same a b : Deployment.state_dir a = Deployment.state_dir b -> stamp_tmp_path a = stamp_tmp_path b.
Proof. intros E. unfold stamp_tmp_path. by rewrite (stamp_same _ _ E). Qed.

(** The deployment text a later run starts from: a leftover backup comes first. *)
Definition committed (s : St) : option string :=
  match file_text bak s with Some text => Some text | None => file_text config_path s end.

(** What an error leaves of the text [text], [planned] being the candidate that
    was to replace it: a rollback has it back in the file, or reports that the
    file could not be restored and has it in the backup; a revision that went
    live but was not recorded has the candidate in the file and [text] in the
    backup; every other error leaves [text] in the file. *)
Definition kept (text : string) (planned : option string) (e : revision_error) (s' : St) : Prop :=
  match e with
  | StaticFailed _ toml_restored _ _ =>
      if toml_restored then file_text config_path s' = Some text else file_text bak s' = Some text
  | StampNotRecorded _ =>
      match planned with
      | Some candidate_text => file_text config_path s' = Some candidate_text /\ file_text bak s' = Some text
      | None => file_text config_path s' = Some text
      end
  | _ => file_text config_path s' = Some text
  end.
Definition plain_error (e : revision_error) : Prop :=
  match e with StaticFailed _ _ _ _ | StampNotRecorded _ => False | _ => True end.
Lemma plain_error_dec e : plain_error e \/ ~ plain_error e.
Proof. destruct e; simpl; auto. Qed.

(** The files a transaction of [cfg] may change. *)
Definition transaction_files (cfg : Deployment.DeploymentConfig) (q : path) : Prop :=
  dir q = dir config_path \/ own_files cfg q \/ q = applied_revision_stamp_path cfg \/ q = stamp_tmp_path cfg.

(** After the candidate was staged. *)
Lemma decide_spec revision rv original_text m original candidate_text candidate users s r s' :
  apart original -> Deployment.state_dir candidate = Deployment.state_dir original ->
  file_text config_path s = Some candidate_text -> file_text bak s = Some original_text ->
  (rev! out := try_candidate original candidate rv users in
   match snd out with
   | Ok _ =>
       rev! _ := rfail StampNotRecorded (commit_applied_revision_stamp candidate revision) in
       rev! _ := rfile (remove_file bak) in
       rret AppliedRevision
   | Err e => roll_back config_path original_text m original users (fst out) e
   end) s = (r, s') ->
  (forall q, ~ transaction_files original q -> files (st_fs s') !! q = files (st_fs s) !! q) /\
  match r with
  | Ok out => out = AppliedRevision /\ file_text config_path s' = Some candidate_text /\
      file_text (applied_revision_stamp_path original) s' = Some (stamp_text revision) /\
      (file_text bak s' = None \/ file_text bak s' = Some original_text)
  | Err e => files (st_fs s') !! applied_revision_stamp_path original = files (st_fs s) !! applied_revision_stamp_path original /\
      committed s' = Some original_text /\ kept original_text (Some candidate_text) e s'
  end.
Proof.
  intros Hap Hd Hc Hb E. apply rbind_inv in E as [(out & s1 & E1 & E)|(e & E & _)]; [|by apply try_candidate_spec in E as [[? ?] _]].
  apply try_candidate_spec in E1 as [_ F1]. cbv beta in E.
  assert (F : forall q, ~ own_files original q -> files (st_fs s1) !! q = files (st_fs s) !! q)
    by (intros q Hq; apply F1; by rewrite own_same). clear F1.
  assert (Hown : forall q, dir q = dir config_path -> ~ own_files original q) by (intros q Hq; by apply apart_own).
  pose proof (apart_stamp original config_path Hap eq_refl) as [Hc1 Hc2].
  pose proof (apart_stamp original bak Hap eq_refl) as [Hb1 Hb2].
  assert (Hb' : file_text bak s1 = Some original_text) by (unfold file_text; by rewrite F by by apply Hown).
  assert (Hc' : file_text config_path s1 = Some candidate_text) by (unfold file_text; by rewrite F by by apply Hown).
  destruct (snd out) as [u|e].
  - apply rbind_inv in E as [(u0 & s2 & E2 & E)|(e & E2 & ->)]; cbv beta in *; apply commit_stamp_spec in E2 as [F2 W];
      rewrite (stamp_same _ _ Hd), (stamp_tmp_same _ _ Hd) in *.
    + destruct (rfile_total (X := revision_error) (remove_file bak) s2) as (r0 & s3 & E3). unfold rbind, rret in E. rewrite E3 in E. injection E as <- <-.
      apply removed_spec in E3 as [F3 R3]. unfold transaction_files. split; [|split; [done|split; [|split]]].
      * intros q Hq. rewrite F3, F2, F by (try intros ->; tauto). done.
      * unfold file_text. rewrite F3 by (intros Hx; symmetry in Hx; by apply backup_not_config in Hx). by rewrite F2.
      * unfold file_text. by rewrite F3 by congruence.
      * destruct r0; [by left|right]. unfold file_text. rewrite R3. by rewrite F2.
    + unfold transaction_files. split; [intros q Hq; rewrite F2, F by tauto; done|].
      destruct W as [-> (e0 & ->)]. rewrite F by apply stamp_not_own. split; [done|]. unfold committed, kept.
      assert (file_text bak s' = Some original_text) as ->; [unfold file_text; by rewrite F2|].
      split; [done|]. split; [|done]. unfold file_text. by rewrite F2.
  - apply roll_back_spec in E as [F2 (tr & sr & ur & -> & W)]; [|done]. unfold transaction_files. split; [|split].
    + intros q Hq. rewrite F2, F by tauto. done.
    + rewrite F2, F; [done|apply stamp_not_own| |apply stamp_not_own]. intros Hx. by apply (proj1 Hap).
    + unfold committed, kept. destruct tr; [|by rewrite W, Hb']. destruct W as [-> [-> | ->]]; [by rewrite Hb'|done].
Qed.

Lemma stage_spec revision rv original_text original candidate_text candidate users s r s' :
  apart original -> Deployment.state_dir candidate = Deployment.state_dir original ->
  file_text config_path s = Some original_text -> file_text bak s = None ->
  stage_and_apply config_path revision rv original_text original candidate_text candidate users s = (r, s') ->
  (forall q, ~ transaction_files original q -> files (st_fs s') !! q = files (st_fs s) !! q) /\
  match r with
  | Ok out => out = AppliedRevision /\ file_text config_path s' = Some candidate_text /\
      file_text (applied_revision_stamp_path original) s' = Some (stamp_text revision) /\
      (file_text bak s' = None \/ file_text bak s' = Some original_text)
  | Err e => files (st_fs s') !! applied_revision_stamp_path original = files (st_fs s) !! applied_revision_stamp_path original /\
      committed s' = Some original_text /\ kept original_text (Some candidate_text) e s'
  end.
Proof.
  intros Hap Hd Hc Hn. unfold stage_and_apply. intros E.
  apply rbind_inv in E as [(m & s1 & E1 & E)|(e & E & _)]; [|by apply mode_ok in E as (? & ? & _)].
  apply mode_ok in E1 as (m0 & [= <-] & F1). cbv beta in E.
  assert (Hst : forall q, dir q = dir config_path -> applied_revision_stamp_path original <> q)
    by (intros q Hq Hx; by destruct (apart_stamp _ _ Hap Hq)).
  pose proof backup_not_config as Nb. pose proof bak_tmp_ne as Nt. pose proof tmp_bak_ne as Nu. unfold transaction_files.
  apply rbind_inv in E as [(u & s2 & E2 & E)|(e & E2 & ->)]; cbv beta in *; apply rfail_rfile in E2 as (r2 & E2 & Hr2);
    apply write_text_spec in E2 as (r0 & [= <-] & F2 & W); (destruct r2 as [u'|e']; simplify_eq/=).
  2: { split; [intros q Hq; rewrite F2, F1; [done|intros ->; apply Hq; by left..]|].
       split; [by rewrite F2, F1 by by apply Hst|]. unfold committed, file_text in *. rewrite W, F1, F2, F1 by congruence.
       destruct (files (st_fs s) !! bak); [discriminate|done]. }
  apply rbind_inv in E as [(r3 & s3 & E3 & E)|(e & E3 & ->)]; cbv beta in *; [|by apply write_text_spec in E3 as (? & ? & _)].
  apply write_text_spec in E3 as (r0 & [= <-] & F3 & W3). destruct r3 as [u3|e3].
  - eapply decide_spec in E as [F4 R]; [|done|done|exact W3|unfold file_text in *; by rewrite F3 by congruence].
    split; [intros q Hq; rewrite F4, F3, F2, F1; [done|intros ->; apply Hq; by left..|done]|].
    destruct r; [done|]. destruct R as [R R']. split; [|done]. rewrite R, F3, F2, F1 by by apply Hst. done.
  - destruct (rfile_total (X := revision_error) (remove_file bak) s3) as (r0 & s4 & E4). unfold rbind, rthrow in E. rewrite E4 in E. injection E as <- <-.
    apply removed_spec in E4 as [F4 R4]. split; [|split].
    + intros q Hq. rewrite F4, F3, F2, F1; [done|intros ->; apply Hq; by left..].
    + by rewrite F4, F3, F2, F1 by by apply Hst.
    + unfold committed. assert (Hc4 : file_text config_path s4 = Some original_text)
        by (unfold file_text in *; by rewrite F4, W3, F2, F1 by congruence).
      rewrite Hc4. destruct r0; [by rewrite R4|]. unfold file_text in *. rewrite R4, F3 by congruence. by rewrite W.
Qed.

(** *** A static revision *)

Context `{!JsonLaws V, !JsonViewLaws V, !JsonEqLaws V}.
(** The serde form of a configuration is an object that shows its state directory. *)
Hypothesis normalized_object : forall c, StaticRevision.is_object (normalized c).
Hypothesis normalized_state_dir : forall c, jget (normalized c) "state_dir" = Some (jstr (Deployment.state_dir c)).

Lemma candidate_state_dir text rv original ct candidate : toml_config text = Some original ->
  StaticRevision.plan_static_revision b64_decode toml_config toml_table toml_print normalized text rv = Ok (StaticRevision.Changed ct candidate) ->
  Deployment.state_dir candidate = Deployment.state_dir original.
Proof.
  intros Ho Hp. eapply StaticRevision.plan_changed_spec in Hp as (_ & _ & _ & Hs & _); [|done..].
  specialize (Hs "state_dir"). rewrite !normalized_state_dir in Hs.
  assert (Hi : jstr (Deployment.state_dir candidate) = jstr (Deployment.state_dir original)).
  { apply (inj Some), Hs. intros Hin. repeat destruct Hin as [Hin|Hin]; try discriminate; done. }
  apply (f_equal jas_str) in Hi. rewrite !jas_str_jstr in Hi. by injection Hi.
Qed.

(** Every deployment text on disk names the state directory of [cfg]. *)
Definition one_state_dir (cfg : Deployment.DeploymentConfig) (s : St) : Prop :=
  forall p t c, p = config_path \/ p = bak -> file_text p s = Some t -> toml_config t = Some c ->
    Deployment.state_dir c = Deployment.state_dir cfg.

Lemma recover_interrupted_spec cfg s r s' : apart cfg -> one_state_dir cfg s -> recover_interrupted_apply config_path s = (r, s') ->
  (forall q, dir q <> dir config_path -> ~ own_files cfg q -> files (st_fs s') !! q = files (st_fs s) !! q) /\
  match r with
  | Ok _ => file_text config_path s' = committed s /\ file_text bak s' = None
  | Err _ => committed s' = committed s
  end.
Proof.
  intros Hap Hone E. apply recover_inv in E as [[F Hr]|(t & c & s1 & Hb & Hc & _ & F & E)].
  - rewrite F. split; [done|]. unfold committed, file_text in *. rewrite F. destruct r as [[]|]; [|done]. by rewrite (Hr eq_refl).
  - assert (Hd : Deployment.state_dir c = Deployment.state_dir cfg) by (eapply Hone; [by right|done..]).
    apply restore_spec in E as [G R]; [|by eapply apart_same]. rewrite F in G. split.
    + intros q Hq Ho. apply G; [done|]. by rewrite own_same.
    + unfold committed. rewrite Hb. destruct r; [done|]. rewrite R. unfold file_text in *. rewrite F. by rewrite Hb.
Qed.

(** What an error of a static revision leaves.  [committed s] is the text to go
    back to; an error before anything was staged leaves the file alone, unless
    it came from going back to the text of an interrupted revision. *)
Definition failure_left (bytes : string) (s : St) (e : revision_error) (s' : St) : Prop :=
  match e with
  | StaticFailed _ toml_restored _ _ => (if toml_restored then file_text config_path s' else file_text bak s') = committed s
  | StampNotRecorded _ => exists text rv, committed s = Some text /\ StaticRevision.parse_static_revision de bytes = Ok rv /\
      match StaticRevision.plan_static_revision b64_decode toml_config toml_table toml_print normalized text rv with
      | Ok StaticRevision.Unchanged => file_text config_path s' = Some text
      | Ok (StaticRevision.Changed candidate_text _) => file_text config_path s' = Some candidate_text /\ file_text bak s' = Some text
      | Err _ => False
      end
  | _ => file_text bak s = None -> file_text config_path s' = file_text config_path s
  end.

Lemma plain_left bytes s e s' text :
  plain_error e -> committed s = Some text -> file_text config_path s' = Some text -> failure_left bytes s e s'.
Proof. intros He Hc H1. unfold committed in Hc. destruct e; try done; intros Hb; rewrite Hb in Hc; congruence. Qed.
Lemma kept_left bytes s e s' text rv ct c :
  committed s = Some text -> StaticRevision.parse_static_revision de bytes = Ok rv ->
  StaticRevision.plan_static_revision b64_decode toml_config toml_table toml_print normalized text rv = Ok (StaticRevision.Changed ct c) ->
  kept text (Some ct) e s' -> failure_left bytes s e s'.
Proof.
  intros Hc Hp Hpl Hk. destruct (plain_error_dec e) as [He|He]; [eapply plain_left; [done..|by destruct e]|].
  destruct e; try done; simpl in *; [exists text, rv; by rewrite Hpl|rewrite Hc; by case_match].
Qed.

(** What a static revision may end in. *)
Definition static_outcome (cfg : Deployment.DeploymentConfig) (revision : Z) (bytes : string) (s : St)
  (r : result revision_outcome revision_error) (s' : St) : Prop :=
  let stamp := applied_revision_stamp_path cfg in
  match r with
  | Err e => committed s' = committed s /\ files (st_fs s') !! stamp = files (st_fs s) !! stamp /\ failure_left bytes s e s'
  | Ok out => file_text stamp s' = Some (stamp_text revision) /\
      exists text rv, committed s = Some text /\ StaticRevision.parse_static_revision de bytes = Ok rv /\
        match StaticRevision.plan_static_revision b64_decode toml_config toml_table toml_print normalized text rv with
        | Ok StaticRevision.Unchanged => out = Recorded /\ committed s' = Some text
        | Ok (StaticRevision.Changed candidate_text _) => out = AppliedRevision /\ file_text config_path s' = Some candidate_text /\
            (file_text bak s' = None \/ file_text bak s' = Some text)
        | Err _ => False
        end
  end.

Lemma same_committed s s' : (forall q, files (st_fs s') !! q = files (st_fs s) !! q) -> committed s' = committed s.
Proof. intros F. unfold committed, file_text. by rewrite !F. Qed.

Lemma load_config_inv s r s' : load_config config_path s = (r, s') ->
  (forall q, files (st_fs s') !! q = files (st_fs s) !! q) /\
  forall c, r = Ok c -> exists t, file_text config_path s = Some t /\ toml_config t = Some c.
Proof.
  intros E. split; [eapply read_only; [|exact E]; unfold load_config; r_frame|]. intros c ->.
  apply rbind_inv in E as [(t & s1 & E1 & E)|(e & _ & ?)]; [|discriminate].
  apply rfail_inv in E1 as (r0 & fs & fl & E1 & Hr & _). destruct r0 as [t0|]; [|discriminate]. injection Hr as <-.
  apply syscall_ok in E1 as [E1 _]. apply on_file_ok in E1 as (f & f' & Hf & [= <- <-] & _). exists (content f).
  unfold file_text. rewrite Hf. split; [done|]. cbv beta in E. destruct (toml_config (content f)) as [c'|]; [|discriminate].
  destruct (is_ok _); [by injection E as <- _|discriminate].
Qed.

Ltac plain_steps :=
  repeat first [ apply throws_ret | by apply throws_throw | apply throws_file | apply throws_ask | by apply throws_fail | by apply throws_raise
               | by apply throws_lift | apply throws_bind; [|intros ?] | case_match | case_if ].
Lemma load_config_plain : throws plain_error (load_config config_path).
Proof. unfold load_config. plain_steps. Qed.
Lemma users_load_plain p : throws plain_error (rfail (fun e => Admin (LoadFailed e)) (load_users de_users de_legacy p)).
Proof. plain_steps. Qed.
Lemma preflight_plain original candidate users : throws plain_error (preflight_security_policy_unchanged original candidate users).
Proof. unfold preflight_security_policy_unchanged, preflight_render. plain_steps. Qed.
Lemma recover_plain : throws plain_error (recover_interrupted_apply config_path).
Proof. unfold recover_interrupted_apply, restore_deployment, deployment_toml_mode, reconverge. plain_steps. Qed.

(** From the committed text [text] on. *)
Lemma planned_spec cfg revision rv bytes text s0 s r s' :
  apart cfg -> StaticRevision.parse_static_revision de bytes = Ok rv ->
  (forall c, toml_config text = Some c -> Deployment.state_dir c = Deployment.state_dir cfg) ->
  committed s0 = Some text -> file_text config_path s = Some text -> file_text bak s = None ->
  files (st_fs s) !! applied_revision_stamp_path cfg = files (st_fs s0) !! applied_revision_stamp_path cfg ->
  (rev! original := load_config config_path in
   rev! plan := rlift (map_err StaticRejected
                 (StaticRevision.plan_static_revision b64_decode toml_config toml_table toml_print normalized text rv)) in
   match plan with
   | StaticRevision.Unchanged =>
       rev! _ := rfail StampNotRecorded (commit_applied_revision_stamp original revision) in
       rret Recorded
   | StaticRevision.Changed candidate_text candidate =>
       rev! users := rfail (fun e => Admin (LoadFailed e)) (load_users de_users de_legacy (users_file original)) in
       rev! _ := preflight_security_policy_unchanged original candidate users in
       rev! _ := (if negb (offline_mutation_allowed h) && negb (handshake_resolves candidate) then rthrow HandshakeUnresolved
                  else rret tt) in
       stage_and_apply config_path revision rv text original candidate_text candidate users
   end) s = (r, s') ->
  (forall q, ~ transaction_files cfg q -> files (st_fs s') !! q = files (st_fs s) !! q) /\
  static_outcome cfg revision bytes s0 r s'.
Proof.
  intros Hap Hp Hd H0 Hc Hb Hst E.
  assert (Herr : forall e sx, plain_error e -> (forall q, files (st_fs sx) !! q = files (st_fs s) !! q) ->
    (forall q, ~ transaction_files cfg q -> files (st_fs sx) !! q = files (st_fs s) !! q) /\ static_outcome cfg revision bytes s0 (Err e) sx).
  { intros e sx He F. split; [done|]. split; [|split; [by rewrite F|]].
    - rewrite H0. unfold committed, file_text in *. rewrite !F, Hc. by destruct (files (st_fs s) !! bak).
    - eapply plain_left; [done|exact H0|]. unfold file_text in *. by rewrite F. }
  apply rbind_inv in E as [(original & s1 & E1 & E)|(e & E1 & ->)];
    [|apply Herr; [by apply (load_config_plain _ _ _ E1)|by apply load_config_inv in E1 as [? _]]].
  apply load_config_inv in E1 as [F1 Ho].
  cbv beta in E. destruct (Ho _ eq_refl) as (t & Ht & Hto). rewrite Hc in Ht. injection Ht as <-. pose proof (Hd _ Hto) as Hdo.
  apply rbind_inv in E as [(plan & s2 & E2 & E)|(e & E2 & ->)]; unfold rlift in E2; injection E2 as Hplan <-;
    [|apply Herr; [destruct (StaticRevision.plan_static_revision _ _ _ _ _ text rv); [discriminate|by injection Hplan as <-]|done]].
  destruct (StaticRevision.plan_static_revision _ _ _ _ _ text rv) as [plan'|] eqn:Hpl; [|discriminate]. injection Hplan as ->.
  cbv beta in E. destruct plan as [|ct candidate].
  - assert (Hcb : forall sx, (forall q, q <> applied_revision_stamp_path cfg -> q <> stamp_tmp_path cfg -> files (st_fs sx) !! q = files (st_fs s1) !! q) ->
      ((forall q, ~ transaction_files cfg q -> files (st_fs sx) !! q = files (st_fs s) !! q) /\ file_text config_path sx = Some text) /\
      committed sx = committed s0).
    { intros sx F. split; [split; [intros q Hq; rewrite F, F1; [done|intros ->; apply Hq; unfold transaction_files; tauto..]|]|].
      { unfold file_text in *. destruct (apart_stamp cfg config_path Hap eq_refl). by rewrite F, F1. }
      rewrite H0. unfold committed, file_text in *. destruct (apart_stamp cfg bak Hap eq_refl), (apart_stamp cfg config_path Hap eq_refl).
      rewrite (F bak), (F config_path), !F1, Hc by done.
      by destruct (files (st_fs s) !! bak). }
    apply rbind_inv in E as [(u & s3 & E3 & E)|(e & E3 & ->)]; apply commit_stamp_spec in E3 as [F3 W];
      rewrite (stamp_same _ _ Hdo), (stamp_tmp_same _ _ Hdo) in *; apply Hcb in F3 as [F3 C3].
    + injection E as <- <-. split; [apply F3|]. split; [done|]. exists text, rv. rewrite Hpl, C3. done.
    + split; [apply F3|]. split; [done|]. destruct W as [W (e0 & ->)]. split; [by rewrite W, F1|].
      exists text, rv. rewrite Hpl. split; [done|]. split; [done|]. apply F3.
  - assert (Hdc : Deployment.state_dir candidate = Deployment.state_dir original) by by eapply candidate_state_dir.
    assert (Hq : forall sx sy, same_files s sx -> same_files sx sy -> same_files s sy) by (intros sx sy A B q; by rewrite B).
    apply rbind_inv in E as [(users & s3 & E3 & E)|(e & E3 & ->)]; [|assert (He := users_load_plain _ _ _ _ E3)]; apply read_only in E3; try (r_frame; fail);
      [|by apply Herr, (Hq _ _ F1 E3)].
    apply (Hq _ _ F1) in E3. cbv beta in E.
    apply rbind_inv in E as [(? & s4 & E4 & E)|(e & E4 & ->)]; [|assert (He := preflight_plain _ _ _ _ _ _ E4)]; apply read_only in E4;
      try (unfold preflight_security_policy_unchanged, preflight_render; r_frame; fail); [|by apply Herr, (Hq _ _ E3 E4)].
    apply (Hq _ _ E3) in E4. cbv beta in E.
    apply rbind_inv in E as [(? & s5 & E5 & E)|(e & E5 & ->)];
      [|assert (He : plain_error e) by (destruct (_ && _) in E5; [by injection E5 as <- _|discriminate])];
      apply read_only in E5; try (r_frame; fail); [|by apply Herr, (Hq _ _ E4 E5)].
    apply (Hq _ _ E4) in E5. cbv beta in E. clear Hq E3 E4.
    apply stage_spec in E as [F R]; [|eapply apart_same; [symmetry; exact Hdo|done]|done|unfold file_text in *; by rewrite E5..].
    unfold transaction_files in F. rewrite (stamp_same _ _ Hdo), (stamp_tmp_same _ _ Hdo) in *. split.
    + intros q Hq. rewrite F, E5; [done|]. unfold transaction_files in Hq. by rewrite (own_same original cfg).
    + unfold static_outcome. rewrite E5, Hst in R. destruct r as [out|e]; [|destruct R as (R1 & R2 & R3); rewrite H0; split; [done|]; split; [done|by eapply kept_left]].
      destruct R as (-> & R1 & R2 & R3). split; [done|]. exists text, rv. by rewrite Hpl.
Qed.

Lemma static_spec cfg revision bytes s r s' : apart cfg -> one_state_dir cfg s ->
  cmd_apply_static_revision config_path revision bytes s = (r, s') ->
  (forall q, ~ transaction_files cfg q -> files (st_fs s') !! q = files (st_fs s) !! q) /\
  static_outcome cfg revision bytes s r s'.
Proof.
  intros Hap Hone. unfold cmd_apply_static_revision. intros E.
  apply rbind_inv in E as [(rv & s1 & E1 & E)|(e & E1 & ->)]; injection E1 as Hp <-;
    [|split; [done|]; split; [done|]; split; [done|]; destruct (StaticRevision.parse_static_revision de bytes); [discriminate|by injection Hp as <-]].
  destruct (StaticRevision.parse_static_revision de bytes) as [rv'|] eqn:Hparse; [|discriminate]. injection Hp as ->.
  cbv beta in E. assert (Hst : dir (applied_revision_stamp_path cfg) <> dir config_path) by (intros Hx; by apply (proj1 Hap)).
  assert (Ft : forall sx, (forall q, dir q <> dir config_path -> ~ own_files cfg q -> files (st_fs sx) !! q = files (st_fs s) !! q) ->
    forall q, ~ transaction_files cfg q -> files (st_fs sx) !! q = files (st_fs s) !! q)
    by (intros sx F q Hq; apply F; unfold transaction_files in Hq; tauto).
  apply rbind_inv in E as [(u & s2 & E2 & E)|(e & E2 & ->)];
    [|pose proof (recover_plain _ _ _ E2) as He; pose proof (recover_inv _ _ _ E2) as Hi]; apply (recover_interrupted_spec cfg) in E2 as [F2 R2]; try done.
  2: { split; [by apply Ft|]. split; [done|]. split; [apply F2; [done|apply stamp_not_own]|].
       assert (Hl : file_text bak s = None -> file_text config_path s' = file_text config_path s).
       { intros Hb. destruct Hi as [[Hf _]|(t & c & s1 & Hb' & _)]; [unfold file_text; by rewrite Hf|congruence]. }
       by destruct e. }
  cbv beta in E. destruct R2 as [Hc2 Hb2].
  apply rbind_inv in E as [(text & s3 & E3 & E)|(e & E3 & ->)]; [|assert (He : e = ConfigUnreadable) by (by apply rfail_inv in E3 as ([|] & ? & ? & _ & [= ->] & _))];
    apply read_text_inv in E3 as [F3 Ht].
  2: { split; [apply Ft; intros q Hq Ho; by rewrite F3, F2|].
       split; [rewrite <- Hc2; unfold committed, file_text in *; rewrite !F3; by destruct (files (st_fs s2) !! bak)|].
       split; [rewrite F3; apply F2; [done|apply stamp_not_own]|]. subst e. intros Hb. unfold file_text in *. rewrite F3, Hc2.
       unfold committed, file_text. by rewrite Hb. }
  cbv beta in E. specialize (Ht _ eq_refl). rewrite Hc2 in Ht.
  eapply (planned_spec cfg revision rv bytes text s) in E as [F4 R4]; try done.
  - split; [|done]. intros q Hq. rewrite F4, F3 by done. by apply Ft.
  - intros c Hcc. unfold committed in Ht. destruct (file_text bak s) as [tb|] eqn:Hbk; (eapply Hone; [|by rewrite <- Ht|done]; auto).
  - unfold file_text in *. rewrite F3. congruence.
  - unfold file_text in *. by rewrite F3.
  - rewrite F3. apply F2; [done|apply stamp_not_own].
Qed.


(** *** One revision *)

Hypothesis serde_compact : forall v, de (ser_compact v) = Some v.

Lemma stamp_recorded cfg revision s : in_u64 revision = true ->
  file_text (applied_revision_stamp_path cfg) s = Some (stamp_text revision) -> stamp_state cfg s = Present revision.
Proof.
  intros Hr Hs. unfold stamp_state. rewrite Hs. unfold stamp_text. rewrite serde_compact. unfold get_u64.
  rewrite jget_obj by (repeat constructor; simpl; tauto). simpl. by rewrite jas_u64_jint.
Qed.
Lemma stamp_kept cfg s s' : files (st_fs s') !! applied_revision_stamp_path cfg = files (st_fs s) !! applied_revision_stamp_path cfg ->
  stamp_state cfg s' = stamp_state cfg s.
Proof. intros E. unfold stamp_state, file_text. by rewrite E. Qed.

Lemma users_apply_frame cfg previous us :
  aframe (fun q => own_files cfg q \/ q = users_file cfg \/ q = tmp_sibling_path pid (users_file cfg))
    (apply_users_and_save me_uid umask new_gid pid check b64_decode b64_encode sha256_hex mul_base_clamped
       ser_pretty ser_compact de ser_users cfg previous us h h').
Proof.
  assert (Ha : forall us hs, aframe (fun q => own_files cfg q \/ q = users_file cfg \/ q = tmp_sibling_path pid (users_file cfg)) (apply cfg us hs))
    by (intros us0 hs s0 r0 s1 q E Hq; eapply apply_frame; [exact E|tauto]).
  unfold apply_users_and_save. apply aframe_bind; [apply Ha|]. intros went_live.
  apply aframe_bind; [apply aframe_lift_result; intros fs fl r fs' fl' q E Hq; apply save_spec in E as [E _]; apply E; tauto|].
  intros [u|e]; [apply aframe_ret|]. apply aframe_bind; [|intros ?; apply aframe_throw].
  intros s0 r0 s1 q E Hq. apply attempt_admin_inv in E as (r1 & _ & E). by eapply Ha.
Qed.

Lemma users_revision_spec cfg revision bytes s r s' : apply_users_revision cfg revision bytes s = (r, s') ->
  match r with
  | Ok out => out = AppliedRevision /\ file_text (applied_revision_stamp_path cfg) s' = Some (stamp_text revision)
  | Err _ => files (st_fs s') !! applied_revision_stamp_path cfg = files (st_fs s) !! applied_revision_stamp_path cfg
  end.
Proof.
  unfold apply_users_revision. intros E.
  set (S := fun q => own_files cfg q \/ q = users_file cfg \/ q = tmp_sibling_path pid (users_file cfg)).
  assert (HS : ~ S (applied_revision_stamp_path cfg)).
  { intros [Hx|[Hx|Hx]]; [by apply stamp_not_own in Hx|apply (f_equal name) in Hx; discriminate..]. }
  apply rbind_inv in E as [(us & s1 & E1 & E)|(e & E1 & ->)]; injection E1 as _ <-; [|done]. cbv beta in E.
  apply rbind_inv in E as [(pu & s2 & E2 & E)|(e & E2 & ->)];
    apply (use_frame S (applied_revision_stamp_path cfg)) in E2; try exact HS; try (r_frame; fail); [|done].
  cbv beta in E. apply rbind_inv in E as [(w & s3 & E3 & E)|(e & E3 & ->)];
    apply (use_frame S (applied_revision_stamp_path cfg)) in E3; try exact HS;
    try (eapply rframe_raise; [|apply users_apply_frame]; done); [|congruence].
  cbv beta in E. apply rbind_inv in E as [(w' & s4 & E4 & E)|(e & E4 & ->)]; apply commit_stamp_spec in E4 as [_ W].
  - by injection E as <- <-.
  - destruct W as [W _]. congruence.
Qed.

(** The stamp before and after one command. *)
Definition stamp_step (cfg : Deployment.DeploymentConfig) (revision : Z) (s : St) (r : result revision_outcome revision_error) (s' : St) : Prop :=
  match r with
  | Ok Skipped => st_fs s' = st_fs s /\ exists applied, stamp_state cfg s = Present applied /\ revision <= applied
  | Ok _ => stamp_state cfg s' = Present revision /\
      (stamp_state cfg s = Missing \/ exists applied, stamp_state cfg s = Present applied /\ applied < revision)
  | Err _ => stamp_state cfg s' = stamp_state cfg s
  end /\ (stamp_state cfg s = Corrupt -> r = Err StampCorrupt /\ st_fs s' = st_fs s).

Lemma document_spec cfg revision input s r s' : in_u64 revision = true -> apart cfg -> one_state_dir cfg s ->
  apply_revision_document cfg config_path revision input s = (r, s') ->
  match r with
  | Ok out => out <> Skipped /\ stamp_state cfg s' = Present revision
  | Err _ => stamp_state cfg s' = stamp_state cfg s
  end.
Proof.
  intros Hr Hap Hone. unfold apply_revision_document. intros E.
  apply rbind_inv in E as [(bytes & s1 & E1 & E)|(e & E1 & ->)]; apply read_text_inv in E1 as [F1 _]; [|apply stamp_kept, F1].
  cbv beta in E. rewrite <- (stamp_kept cfg s s1) by apply F1. case_match.
  - apply (static_spec cfg) in E as [_ E]; [|done|intros p t c Hp Ht; apply (Hone p t c Hp); unfold file_text in *; by rewrite <- F1].
    unfold static_outcome in E. destruct r as [out|e]; [|by apply stamp_kept, E].
    destruct E as [Hs (text & rv & _ & _ & Hpl)]. split; [|by apply stamp_recorded].
    case_match; [|done]. case_match; destruct Hpl as [-> _]; discriminate.
  - apply users_revision_spec in E. destruct r as [out|e]; [|by apply stamp_kept]. destruct E as [-> E]. split; [done|by apply stamp_recorded].
Qed.

Lemma revision_spec cfg revision input s r s' : in_u64 revision = true -> apart cfg -> one_state_dir cfg s ->
  cmd_apply_revision cfg config_path revision input s = (r, s') -> stamp_step cfg revision s r s'.
Proof.
  intros Hr Hap Hone. unfold cmd_apply_revision, stamp_step. intros E.
  apply rbind_inv in E as [(st & s1 & E1 & E)|(e & E & _)]; [|by apply read_state_inv in E as [_ [?|?]]].
  apply read_state_inv in E1 as [F1 Hst]. cbv beta in E.
  assert (Hk : stamp_state cfg s1 = stamp_state cfg s) by (apply stamp_kept; by rewrite F1).
  assert (Hone1 : one_state_dir cfg s1) by (intros p t c Hp Ht; apply (Hone p t c Hp); unfold file_text in *; by rewrite <- F1).
  assert (Hstop : st = Corrupt -> (match r with Ok _ => False | Err _ => stamp_state cfg s' = stamp_state cfg s end) /\ r = Err StampCorrupt /\ st_fs s' = st_fs s)
    by (intros ->; injection E as <- <-; done).
  destruct Hst as [[= ->]|[= ->]]; [|destruct Hstop as (A & -> & B); done].
  destruct (stamp_state cfg s) as [|applied|] eqn:Hs; [| |destruct Hstop as (A & -> & B); done].
  - apply document_spec in E; [|done..]. split; [|done]. destruct r as [[]|e]; destruct E; [done|auto..|congruence].
  - destruct (Z.leb_spec revision applied); [injection E as <- <-; split; [|done]; split; [done|]; exists applied; split; [done|lia]|].
    apply document_spec in E; [|done..]. split; [|done]. destruct r as [[]|e]; [by destruct E| | |congruence];
      (split; [apply E|right; exists applied; split; [done|lia]]).
Qed.
End Files.
End Revision.

(** ** A node's revisions *)

Section History.
Context (me_uid umask : Z) (new_gid : string -> Z) (check : string -> bool).
Context (b64_decode : string -> option (list Z)) (b64_encode : list Z -> string) (sha256_hex : string -> string)
  (mul_base_clamped : list Z -> list Z).
Context {V : Type} `{JsonOps V, !JsonTree V, !JsonEq V, !JsonLaws V, !JsonViewLaws V, !JsonEqLaws V}.
Context (ser_pretty ser_compact : V -> string) (de : string -> option V).
Context (ser_users : UsersFile -> string) (de_users : string -> option UsersFile)
  (de_legacy : string -> option (list Grants.CompatUser)).
Context (toml_config : string -> option Deployment.DeploymentConfig) (toml_table : string -> option (list (string * StaticRevision.toml)))
  (toml_print : list (string * StaticRevision.toml) -> option string) (normalized : Deployment.DeploymentConfig -> V).
Hypothesis normalized_object : forall c, StaticRevision.is_object (normalized c).
Hypothesis normalized_state_dir : forall c, jget (normalized c) "state_dir" = Some (jstr (Deployment.state_dir c)).
Hypothesis serde_compact : forall v, de (ser_compact v) = Some v.
Context (cfg : Deployment.DeploymentConfig) (config_path : path).

Local Notation command pid h h' resolve := (cmd_apply_revision me_uid umask new_gid pid check b64_decode b64_encode sha256_hex
  mul_base_clamped ser_pretty ser_compact de ser_users de_users de_legacy toml_config toml_table toml_print normalized h h' resolve).

(** The revisions that reported success, in order.  Between two commands
    anything may happen to the node except to the stamp file. *)
Inductive history : St -> list Z -> St -> Prop :=
| no_more s : history s [] s
| elsewhere s s1 l s' :
    files (st_fs s1) !! applied_revision_stamp_path cfg = files (st_fs s) !! applied_revision_stamp_path cfg ->
    history s1 l s' -> history s l s'
| command_run pid h h' resolve revision input s r s1 l s' :
    in_u64 revision = true -> one_state_dir toml_config config_path cfg s ->
    command pid h h' resolve cfg config_path revision input s = (r, s1) ->
    history s1 l s' ->
    history s (match r with Ok Skipped | Err _ => l | Ok _ => revision :: l end) s'.

(** [stamp_state] moved forward by the revisions [l]. *)
Definition stamped (st : RevisionStampState) (l : list Z) : RevisionStampState :=
  match last l with Some n => Present n | None => st end.
Definition above (st : RevisionStampState) (l : list Z) : Prop :=
  match st with Missing => True | Present n => Forall (fun m => n < m) l | Corrupt => l = [] end.

Lemma above_cons n l : StronglySorted Z.lt l -> above (Present n) l -> StronglySorted Z.lt (n :: l).
Proof. intros Hl Ha. by constructor. Qed.
Lemma above_weaken a n l : a < n -> above (Present n) l -> above (Present a) (n :: l).
Proof. intros Ha Hn. constructor; [done|]. eapply Forall_impl; [exact Hn|]. simpl. intros. lia. Qed.
Lemma stamped_cons st n l : stamped st (n :: l) = stamped (Present n) l.
Proof. unfold stamped. rewrite last_cons. by destruct (last l). Qed.

(** C11: Over the whole life of a node (commands with any revision and input in
    any order, whatever fails during each of them, and anything happening in
    between that leaves the stamp file alone) the revisions that report
    success strictly increase, all lie above the revision recorded at the
    start, and the stamp always names the last of them; once the stamp is
    unreadable no command applies anything. *)
Theorem applied_revisions_increase s l s' : apart config_path cfg -> history s l s' ->
  StronglySorted Z.lt l /\ above (stamp_state de cfg s) l /\ stamp_state de cfg s' = stamped (stamp_state de cfg s) l.
Proof.
  intros Hap Hh. induction Hh as [s|s s1 l s' Hk _ IH|pid h h' resolve revision input s r s1 l s' Hr Hone E _ IH].
  - split; [constructor|]. split; [|done]. by destruct (stamp_state de cfg s); simpl.
  - by rewrite <- (stamp_kept de cfg s s1 Hk).
  - eapply revision_spec in E as [E Hc]; [|done..]. destruct IH as (Hs & Ha & Hl).
    assert (Hsame : stamp_state de cfg s1 = stamp_state de cfg s -> StronglySorted Z.lt l /\ above (stamp_state de cfg s) l /\
      stamp_state de cfg s' = stamped (stamp_state de cfg s) l) by (intros <-; done).
    assert (Hnew : stamp_state de cfg s1 = Present revision ->
      (stamp_state de cfg s = Missing \/ exists a, stamp_state de cfg s = Present a /\ a < revision) ->
      StronglySorted Z.lt (revision :: l) /\ above (stamp_state de cfg s) (revision :: l) /\
      stamp_state de cfg s' = stamped (stamp_state de cfg s) (revision :: l)).
    { intros E1 E0. rewrite E1 in *. rewrite stamped_cons. split; [by apply above_cons|]. split; [|done].
      destruct E0 as [-> |(a & -> & Hlt)]; [done|by apply above_weaken]. }
    destruct r as [[]|e]; [apply Hsame, stamp_kept; by destruct E as [-> _]|by destruct E; apply Hnew..|by apply Hsame].
Qed.
End History.

(** ** Witnesses *)

Definition ex_config : path := {| dir := "/etc/vpn"; name := "deployment.toml" |}.
Definition ex_input : path := {| dir := "/tmp"; name := "revision.json" |}.
Definition ex_candidate : Deployment.DeploymentConfig := StaticRevision.with_handshake ex_node "www.example.org".
Definition ex_toml (text : string) : option Deployment.DeploymentConfig :=
  if String.eqb text "old" then Some ex_node else if String.eqb text "new" then Some ex_candidate else None.
Definition ex_shown (d : Deployment.DeploymentConfig) : json :=
  JObj [("state_dir", JStr (Deployment.state_dir d));
        ("reality", JObj [("handshake_server", JStr (Deployment.re_handshake_server (Deployment.reality d)))])].
Definition ex_document : json :=
  JObj [("revision_schema", JNum 1);
        ("static_config", JObj [("reality", JObj [("handshake_server", JStr "www.example.org")])])].
Definition ex_revision_disk : FS :=
  {| files := <[ex_config := plain "old"]> (<[ex_input := plain (ex_print ex_document)]> (files ex_disk)); dirs := dirs ex_disk |}.
Definition ex_begin (fl : list fault) (l : list svc) : St :=
  {| st_fs := ex_revision_disk; st_loaded := Some "old"; st_faults := fl; st_svc := l |}.
Definition ex_resolve (_ : string) (_ : Z) : option (list IpAddr) := Some [V4 (ipv4 93 184 216 34)].

Definition ex_static (n : Z) (s : St) : result revision_outcome revision_error * St :=
  cmd_apply_static_revision 0 18 (fun _ => 990) "7" (fun _ => true) Deployment.ex_key (fun _ => "key") (fun _ => "00") (fun l => l)
    (V := json) ex_print ex_print ex_parse ex_de ex_legacy ex_toml (fun _ => Some []) (fun _ => Some "new") ex_shown ex_host ex_host ex_resolve
    ex_config n (ex_print ex_document) s.
Definition ex_revise (n : Z) (s : St) : result revision_outcome revision_error * St :=
  cmd_apply_revision 0 18 (fun _ => 990) "7" (fun _ => true) Deployment.ex_key (fun _ => "key") (fun _ => "00") (fun l => l)
    (V := json) ex_print ex_print ex_parse ex_ser ex_de ex_legacy ex_toml (fun _ => Some []) (fun _ => Some "new") ex_shown ex_host ex_host
    ex_resolve ex_node ex_config n ex_input s.

Definition ex_history : St -> list Z -> St -> Prop :=
  history 0 18 (fun _ => 990) (fun _ => true) Deployment.ex_key (fun _ => "key") (fun _ => "00") (fun l => l)
    (V := json) ex_print ex_print ex_parse ex_ser ex_de ex_legacy ex_toml (fun _ => Some []) (fun _ => Some "new") ex_shown ex_node ex_config.

Lemma ex_apart : apart ex_config ex_node.
Proof. repeat split; discriminate. Qed.
Lemma ex_one_state_dir s : one_state_dir ex_toml ex_config ex_node s.
Proof.
  intros p t c _ _. unfold ex_toml. destruct (String.eqb t "old"); [by intros [= <-]|].
  destruct (String.eqb t "new"); [by intros [= <-]|discriminate].
Qed.
Lemma ex_shown_object c : StaticRevision.is_object (ex_shown c).
Proof. eexists. reflexivity. Qed.
Lemma ex_shown_state_dir c : jget (ex_shown c) "state_dir" = Some (jstr (Deployment.state_dir c)).
Proof. reflexivity. Qed.


(** Revision 5 is applied, the next one finds nothing to change. *)
Lemma applied_revisions_increase_witness :
  exists s1 s2, ex_revise 5 (ex_begin [] []) = (Ok AppliedRevision, s1) /\ ex_revise 9 s1 = (Ok Recorded, s2) /\
    stamp_state ex_parse ex_node s2 = Present 9.
Proof.
  destruct (run_result (ex_revise 5 (ex_begin [] [])) (Ok AppliedRevision) ltac:(vm_compute; reflexivity)) as [s1 E1].
  assert (Hs : s1 = snd (ex_revise 5 (ex_begin [] []))) by (rewrite E1; reflexivity).
  destruct (run_result (ex_revise 9 s1) (Ok Recorded) ltac:(rewrite Hs; vm_compute; reflexivity)) as [s2 E2].
  exists s1, s2. split; [exact E1|]. split; [exact E2|]. unfold ex_revise in E1, E2.
  assert (Hh : ex_history (ex_begin [] []) [5; 9] s2).
  { eapply command_run in E1; [exact E1|reflexivity|apply ex_one_state_dir|].
    eapply command_run in E2; [exact E2|reflexivity|apply ex_one_state_dir|]. apply no_more. }
  destruct (applied_revisions_increase _ _ _ _ _ _ _ _ _ _ _ _ _ _ _ _ _ _ ex_shown_object ex_shown_state_dir ex_serde _ _ _ _ _ ex_apart Hh)
    as (_ & _ & Hst).
  rewrite Hst. reflexivity.
Defined.

(** ** Three gaps of the static transaction *)

(** When the stamp cannot be written, the error leaves the candidate in the
    file and running; nothing is restored or reloaded. *)
Lemma unrecorded_revision_stays_live :
  let r := ex_static 5 (ex_begin (repeat Fine 65 ++ [Fails 0]) []) in
  fst r = Err (StampNotRecorded Io) /\ file_text ex_config (snd r) = Some "new" /\
  file_text (static_revision_backup_path ex_config) (snd r) = Some "old" /\
  st_loaded (snd r) = file_text (singbox_config_file ex_node) (snd r) /\
  st_loaded (snd r) <> st_loaded (ex_begin [] []).
Proof. intros r. do 4 (split; [vm_compute; reflexivity|]). apply texts_differ. vm_compute. reflexivity. Qed.

(** The candidate's reload fails and so does the one that should bring the
    original back: the error says that the pre-apply [deployment.toml] is kept
    in the backup, but the backup is gone, so no later run re-converges the
    services. *)
Lemma incomplete_rollback_drops_backup :
  let r := ex_static 5 (ex_begin [] (repeat yes 5 ++ [no] ++ repeat yes 5 ++ [no])) in
  fst r = Err (StaticFailed (Some (ReloadFailed true)) true false true) /\
  file_text (static_revision_backup_path ex_config) (snd r) = None.
Proof. intros r. split; vm_compute; reflexivity. Qed.

(** When removing the backup fails after the commit, the revision reports
    success and is stamped; the next static revision takes the backup for an
    interrupted apply and starts by going back to the text from before. *)
Lemma leftover_backup_undoes_revision :
  let first := ex_static 5 (ex_begin (repeat Fine 70 ++ [Fails 0]) []) in
  fst first = Ok AppliedRevision /\ stamp_state ex_parse ex_node (snd first) = Present 5 /\
  file_text ex_config (snd first) = Some "new" /\
  let next := recover_interrupted_apply 0 18 (fun _ => 990) "7" (fun _ => true) Deployment.ex_key (fun _ => "key") (fun _ => "00")
    (fun l => l) (V := json) ex_print ex_print ex_parse ex_de ex_legacy ex_toml ex_host ex_config (snd first) in
  fst next = Ok tt /\ file_text ex_config (snd next) = Some "old".
Proof. intros first. do 3 (split; [vm_compute; reflexivity|]). split; vm_compute; reflexivity. Qed.
End AdminRevision.
