(* ===== verification/AdminRotate.v ===== *)
(** * apps/admin: rotating key material

    main.rs: [cmd_init], [cmd_reality_rotate] and [cmd_hysteria_obfs_rotate]
    with their helpers.  A rotation stages and checks the candidate
    configuration, backs up the key files, installs the new ones, swaps the
    configuration, restarts both units and goes back when a step fails.  The
    key generator (sing-box), the random draws, the group database and the
    name service are inputs. *)

From S2P Require Import Prelude Strs Net NetText AddressPolicy Credentials Grants Json Contract Render.
From S2P Require Import Deployment StaticRevision Server ServerPolicy Store ConfigApply AdminApply AdminSteps Archive AdminUsers AdminRevision.
From Stdlib Require Import Ascii.

Module AdminRotate.
Import Store ConfigApply AdminApply AdminSteps.

(** Which step of a rotation failed. *)
Inductive rotate_step := InstallKey (p : path) | FilePolicy | ApplyCandidate (e : store_error) | ReloadSingbox | RestartSubscription | SelfTest.

(** Why a restore is refused, and where one failed. *)
Inductive restore_refusal :=
| NoUsers | UsersUnreadable (e : store_error) | NoPrivateKey | KeyPartMissing (rel : list string) | KeysUnreadable (e : store_error) | KeysIncoherent
| ArchivedDeploymentUnreadable (e : store_error) | ArchivedDeploymentInvalid | RoleMismatch | NodeMismatch | TlsHalf | DirsFailed (e : store_error).
Inductive restore_step := Installing (e : store_error) | ApplyingRestored (e : admin_error) | RestartingSubscription.

Inductive rotate_error :=
| RotateNoBinary
| KeygenFailed
| KeygenUnparsable (field : string)
| KeygenIncoherent
| ParamsUnreadable (e : store_error)
| CandidateRefused (e : Server.server_error)
| StagingFailed (e : store_error)
| CheckRefused (e : store_error)
| NotControllable
| BackupFailed (e : store_error)
| InstallFailed (e : store_error)
| KeysetIncomplete (public_key short_id : bool)
| InitUnresolved
| InitFailed (e : store_error)
| RotationFailed (step : rotate_step) (files_restored singbox_recovered sub_recovered : bool)
| ArchiveRefused (e : Archive.archive_error)
| RestoreRefused (why : restore_refusal)
| RestoreFailed (step : restore_step) (recovered : bool).

(** [text.lines().find_map(..)] on the generator's output. *)
Definition field_of_line (field line : string) : option string :=
  let line := trim line in
  match strip_prefix (field +:+ ":") line with
  | Some s => Some (trim s)
  | None => option_map trim (strip_prefix (field +:+ " ") line)
  end.
Definition extract_field (text field : string) : option string :=
  find_map (field_of_line field) (split_on (ascii_of_nat 10) text).

Section Rotate.
Context (me_uid umask : Z) (new_gid : string -> Z) (pid : string) (check : string -> bool).
Context (b64_decode : string -> option (list Z)) (b64_encode : list Z -> string) (hex_encode : list Z -> string)
  (mul_base_clamped : list Z -> list Z).
Context {V : Type} `{JsonOps V, !JsonTree V, !JsonEq V}.
Context (ser_pretty : V -> string).
Context (de_users : string -> option UsersFile) (de_legacy : string -> option (list Grants.CompatUser)).
Context (h : Host) (resolve : string -> Z -> option (list IpAddr)).
(** The generator's output ([None]: it could not be run or failed), the bytes
    drawn for the short id and the obfuscation password, and the group ids. *)
Context (keygen : option string) (short_id_bytes obfs_bytes : list Z) (group_gid : string -> option Z).

Definition generate_reality_keypair : result (string * string * string) rotate_error :=
  let? text := ok_or keygen KeygenFailed in
  let? private_key := ok_or (extract_field text "PrivateKey") (KeygenUnparsable "PrivateKey") in
  let? public_key := ok_or (extract_field text "PublicKey") (KeygenUnparsable "PublicKey") in
  let? _ := map_err (fun _ => KeygenIncoherent)
              (Creds.validate_reality_keypair b64_decode b64_encode mul_base_clamped private_key public_key) in
  Ok (private_key, public_key, Creds.generate_short_id hex_encode short_id_bytes).

(** ** Transaction backups *)

Definition rotate_backup_path (p : path) : path := sibling p ".rotate-bak".

(** [OpenOptions::create_new]. *)
Definition create_new (p : path) (m : Z) : io unit :=
  syscall unchanged (fun fs =>
    match files fs !! p with
    | Some _ => (Err Io, fs)
    | None => (Ok tt, put p {| content := EmptyString; mode := Z.ldiff m umask; uid := me_uid; gid := new_gid (dir p) |} fs)
    end).
Definition open_read (p : path) : io unit := syscall unchanged (on_file p (fun f => (Ok tt, f))).
Definition stat (p : path) : io (Z * Z * Z) := syscall unchanged (on_file p (fun f => (Ok (mode f, uid f, gid f), f))).

Definition backup_for_rotate (src : path) : io (option path) :=
  let bak := rotate_backup_path src in
  do! stale := exists_ bak in
  if (stale : bool) then throw Io else
  do! there := exists_ src in
  if negb there then ret None else
  do! _ := open_read src in
  do! _ := create_new bak 384 in
  do! text := read_file src in
  do! _ := write_all bak text in
  do! _ := sync_all bak in
  do! meta := stat src in
  do! _ := set_permissions bak (fst (fst meta)) in
  do! _ := try (chown bak (snd (fst meta)) (snd meta)) in
  ret (Some bak).

Definition restore_from_rotate_backup (dst : path) : io unit :=
  let bak := rotate_backup_path dst in
  do! there := exists_ bak in
  if (there : bool) then
    do! _ := rename bak dst in
    fsync_parent_dir
  else ret tt.

(** [remove_file], a missing file being no error. *)
Definition remove_if_present (p : path) : io unit :=
  syscall unchanged (fun fs => (Ok tt, {| files := delete p (files fs); dirs := dirs fs |})).

(** ** Installing a key file *)

Definition install_tmp (p : path) : path := sibling p ".rotate-tmp".
(** The new file with the mode and owner of the old. *)
Definition stage_key (target : path) (contents : string) : io unit :=
  let tmp := install_tmp target in
  do! _ := write_secret_file me_uid umask new_gid tmp contents in
  do! meta := try (stat target) in
  do! _ := match meta with Some m => set_permissions tmp (fst (fst m)) | None => ret tt end in
  preserve_ownership_before_rename tmp target.
Definition install_rotated_key_file (target : path) (contents : string) : io unit :=
  do! _ := stage_key target contents in
  rename (install_tmp target) target.

Definition apply_restored_file_policy (p : path) (group : string) : io unit :=
  do! _ := set_permissions p 416 in
  if me_uid =? 0 then
    match group_gid group with
    | None => throw Io
    | Some g => chown p 0 g
    end
  else ret tt.

Definition write_config_for_validation (p : path) (text : string) : io unit :=
  do! _ := create_dir_all umask new_gid (dir p) in
  do! _ := open_truncate me_uid umask new_gid p 438 in
  write_all p text.

(** ** The steps both rotations share *)

Local Notation step := (rio rotate_error).

(** [a && b] on service answers. *)
Definition and_then (m k : step bool) : step bool :=
  rev! b := m in if (b : bool) then k else rret false.

Definition stage_and_check (tmp_validate : path) (text : string) : step unit :=
  rev! staged := rfile (write_config_for_validation tmp_validate text) in
  match staged with
  | Err e => rev! _ := rfile (remove_file tmp_validate) in rthrow (StagingFailed e)
  | Ok _ =>
      rev! checked := rfile (backend_validate check tmp_validate) in
      rev! _ := rfile (remove_file tmp_validate) in
      match checked with Ok _ => rret tt | Err e => rthrow (CheckRefused e) end
  end.

(** Both units, and each by itself. *)
Definition unit_controllable (target : path) : step bool :=
  and_then (rask (is_available target)) (rask (is_unit_installed target)).
Definition controllable (target : path) : step bool :=
  if offline_mutation_allowed h then rret true
  else and_then (unit_controllable target) (unit_controllable target).

(** [!available || !installed || reload_and_verify().is_ok()]. *)
Definition recovered (target : path) (reload : St -> bool * St) : step bool :=
  rev! ok := unit_controllable target in
  if (ok : bool) then rask reload else rret true.

(** One file of a rollback. *)
Definition roll_back_file (p : path) (did_exist : bool) : io unit :=
  if did_exist then restore_from_rotate_backup p else remove_if_present p.
Fixpoint roll_back_files (l : list (path * bool)) : step bool :=
  match l with
  | [] => rret true
  | (p, did_exist) :: l =>
      rev! r := rfile (roll_back_file p did_exist) in
      rev! rest := roll_back_files l in
      rret (is_ok r && rest)
  end.
Definition roll_back_config (target : path) (config_applied : bool) : step bool :=
  if config_applied then
    rev! there := rfile (exists_ (config_backup_path target)) in
    match there with
    | Ok true => rev! r := rfile (copy me_uid umask new_gid (config_backup_path target) target) in rret (is_ok r)
    | _ => rret false
    end
  else rret true.
Definition rollback {A} (target : path) (keys : list (path * bool)) (config_applied : bool) (reason : rotate_step) : step A :=
  rev! keys_ok := roll_back_files keys in
  rev! config_ok := roll_back_config target config_applied in
  rev! singbox_recovered := recovered target (reload_and_verify target) in
  rev! sub_recovered := recovered target (sub_reload_and_verify target) in
  rthrow (RotationFailed reason (keys_ok && config_ok) singbox_recovered sub_recovered).

(** [apply_config_atomically], then both restarts; whether each went live. *)
Definition restart {A} (target : path) (reload : St -> bool * St) (fail : step A) (k : bool -> step A) : step A :=
  rev! ok := unit_controllable target in
  if (ok : bool) then
    rev! up := rask reload in
    if (up : bool) then k true else fail
  else k false.
Definition swap_and_restart {A} (target : path) (text : string) (keys : list (path * bool)) (k : bool -> bool -> step A) : step A :=
  rev! applied := rfile (apply_config_atomically me_uid umask new_gid pid check text target) in
  match applied with
  | Err e => rollback target keys false (ApplyCandidate e)
  | Ok _ =>
      restart target (reload_and_verify target) (rollback target keys true ReloadSingbox) (fun singbox_reloaded_live =>
      restart target (sub_reload_and_verify target) (rollback target keys true RestartSubscription) (fun sub_restarted_live =>
      k singbox_reloaded_live sub_restarted_live))
  end.

Fixpoint remove_all (l : list path) : step unit :=
  match l with [] => rret tt | p :: l => rev! _ := rfile (remove_file p) in remove_all l end.

(** ** [cmd_reality_rotate] *)

(** Backups of the whole keyset; which files existed. *)
Fixpoint prepare_backups (todo prepared : list path) : step (list bool) :=
  match todo with
  | [] => rret []
  | p :: todo =>
      rev! r := rfile (backup_for_rotate p) in
      match r with
      | Ok backup =>
          rev! rest := prepare_backups todo (prepared ++ match backup with Some b => [b] | None => [] end) in
          rret (Deployment.is_some backup :: rest)
      | Err e => rev! _ := remove_all prepared in rthrow (BackupFailed e)
      end
  end.

Fixpoint install_keys {A} (target : path) (keys : list (path * bool)) (todo : list (path * string)) (k : step A) : step A :=
  match todo with
  | [] => k
  | (p, contents) :: todo =>
      rev! r := rfile (install_rotated_key_file p contents) in
      match r with
      | Err _ => rollback target keys false (InstallKey p)
      | Ok _ => install_keys target keys todo k
      end
  end.

Definition key_files (cfg : Deployment.DeploymentConfig) : list path :=
  [reality_private_key_file cfg; reality_public_key_file cfg; reality_short_id_file cfg].

(** The candidate configuration: rendered, staged, checked. *)
Definition candidate_reality (cfg : Deployment.DeploymentConfig) (keys : string * string * string) (uuid : option string) : Server.RealityServerParams :=
  {| Server.private_key_hex := fst (fst keys); Server.public_key_hex := snd (fst keys); Server.short_ids := [snd keys];
     Server.handshake_server := Deployment.re_handshake_server (Deployment.reality cfg);
     Server.handshake_port := Deployment.re_handshake_port (Deployment.reality cfg);
     Server.google_egress_hairpin_uuid := uuid |}.

Definition reality_candidate (cfg : Deployment.DeploymentConfig) (keys : string * string * string) : step V :=
  rev! uuid := rfail ParamsUnreadable (try (read_trimmed (google_egress_hairpin_uuid_file cfg))) in
  rev! users := rfail ParamsUnreadable (load_users de_users de_legacy (users_file cfg)) in
  rev! hysteria := rfail ParamsUnreadable (load_hysteria_params cfg h) in
  rlift (map_err CandidateRefused
    (Server.render_server_config_for_deployment b64_decode cfg users (candidate_reality cfg keys uuid) hysteria (now h))).

(** The outcome: whether both units run on the new material. *)
Definition commit_rotation (target : path) (keys : list (path * bool)) (self_test : bool) (singbox_live sub_live : bool) : step bool :=
  let rejected := self_test && singbox_live && sub_live &&
    match handshake_verification h with Ran HandshakeRejected => true | _ => false end in
  if rejected then rollback target keys true SelfTest else
  rev! _ := remove_all (map (fun k => rotate_backup_path (fst k)) keys) in
  rret (singbox_live && sub_live).

Definition cmd_reality_rotate (cfg : Deployment.DeploymentConfig) : step bool :=
  let target := singbox_config_file cfg in
  if negb (binary_exists h) then rthrow RotateNoBinary else
  rev! keys := rlift generate_reality_keypair in
  rev! doc := reality_candidate cfg keys in
  rev! _ := stage_and_check (with_extension target "rotate-candidate.json") (ser_pretty doc) in
  rev! ok := controllable target in
  if negb ok then rthrow NotControllable else
  rev! existed := prepare_backups (key_files cfg) [] in
  let backed := combine (key_files cfg) existed in
  install_keys target backed (combine (key_files cfg) [fst (fst keys); snd (fst keys); snd keys])
    (swap_and_restart target (ser_pretty doc) backed (commit_rotation target backed true)).

(** ** [cmd_hysteria_obfs_rotate] *)

Definition obfs_candidate (cfg : Deployment.DeploymentConfig) (password : string) : step V :=
  rev! reality := rfail ParamsUnreadable (load_reality_params b64_decode b64_encode mul_base_clamped cfg) in
  rev! hysteria := rfail ParamsUnreadable (load_hysteria_params cfg h) in
  rev! users := rfail ParamsUnreadable (load_users de_users de_legacy (users_file cfg)) in
  let hysteria := {| Server.tls_cert_path := Server.tls_cert_path hysteria; Server.tls_key_path := Server.tls_key_path hysteria;
                     Server.obfs_password := Some password; Server.masquerade_dir_path := Server.masquerade_dir_path hysteria;
                     Server.hp_up_mbps := Server.hp_up_mbps hysteria; Server.hp_down_mbps := Server.hp_down_mbps hysteria |} in
  rlift (map_err CandidateRefused (Server.render_server_config_for_deployment b64_decode cfg users reality hysteria (now h))).

(** From the backup of the old password on. *)
Definition replace_obfs_password (target obfs_path : path) (password text : string) : step bool :=
  rev! existed := rfail BackupFailed (exists_ obfs_path) in
  rev! backup := rfail BackupFailed (backup_for_rotate obfs_path) in
  rev! installed := rfile (install_rotated_key_file obfs_path password) in
  match installed with
  | Err e =>
      rev! _ := remove_all (match backup with Some b => [b] | None => [] end) in
      rthrow (InstallFailed e)
  | Ok _ =>
      let keys := [(obfs_path, existed)] in
      let k := swap_and_restart target text keys (commit_rotation target keys false) in
      if (existed : bool) then k else
      rev! policy := rfile (apply_restored_file_policy obfs_path "vpn-subscription") in
      match policy with Ok _ => k | Err _ => rollback target keys false FilePolicy end
  end.

Definition cmd_hysteria_obfs_rotate (cfg : Deployment.DeploymentConfig) : step bool :=
  let obfs_path := hysteria_obfs_password_file cfg in
  let target := singbox_config_file cfg in
  if negb (binary_exists h) then rthrow RotateNoBinary else
  rev! _ := rfail ParamsUnreadable (create_dir_all umask new_gid (dir obfs_path)) in
  let candidate_password := Creds.generate_hysteria2_obfs_password hex_encode obfs_bytes in
  rev! doc := obfs_candidate cfg candidate_password in
  rev! _ := stage_and_check (with_extension target "obfs-rotate-candidate.json") (ser_pretty doc) in
  rev! ok := controllable target in
  if negb ok then rthrow NotControllable else
  replace_obfs_password target obfs_path candidate_password (ser_pretty doc).

(** ** [cmd_init] *)

(** What [init] did. *)
Inductive init_outcome := AlreadyInitialised | Rotated (live : bool) | Generated.

Definition first_keys (cfg : Deployment.DeploymentConfig) : step init_outcome :=
  rev! keys := rlift generate_reality_keypair in
  rev! _ := rfail InitFailed
    (do! _ := install_rotated_key_file (reality_private_key_file cfg) (fst (fst keys)) in
     do! _ := install_rotated_key_file (reality_public_key_file cfg) (snd (fst keys)) in
     do! _ := install_rotated_key_file (reality_short_id_file cfg) (snd keys) in
     do! _ := set_permissions (reality_public_key_file cfg) 416 in
     do! _ := set_permissions (reality_short_id_file cfg) 416 in
     do! _ := fsync_parent_dir in
     do! _ := install_rotated_key_file (hysteria_obfs_password_file cfg) (Creds.generate_hysteria2_obfs_password hex_encode obfs_bytes) in
     do! _ := set_permissions (hysteria_obfs_password_file cfg) 416 in
     fsync_parent_dir) in
  rret Generated.

Definition cmd_init (cfg : Deployment.DeploymentConfig) (rotate : bool) : step init_outcome :=
  if negb (offline_mutation_allowed h) && negb (AdminRevision.handshake_resolves resolve cfg) then rthrow InitUnresolved else
  rev! _ := rfail InitFailed
    (do! _ := create_dir_all umask new_gid (dir (reality_private_key_file cfg)) in
     do! _ := create_dir_all umask new_gid (hysteria_dir cfg) in
     create_dir_all umask new_gid (dir (users_file cfg))) in
  rev! deployment_exists := rfail InitFailed (exists_ (singbox_config_file cfg)) in
  rev! has_private := rfail InitFailed (exists_ (reality_private_key_file cfg)) in
  if (has_private : bool) then
    if negb rotate then
      rev! pub := rfail InitFailed (exists_ (reality_public_key_file cfg)) in
      rev! complete := (if (pub : bool) then rfail InitFailed (exists_ (reality_short_id_file cfg)) else rret false) in
      if (complete : bool) then rret AlreadyInitialised else
      rev! pub := rfail InitFailed (exists_ (reality_public_key_file cfg)) in
      rev! sid := rfail InitFailed (exists_ (reality_short_id_file cfg)) in
      rthrow (KeysetIncomplete pub sid)
    else rev! live := cmd_reality_rotate cfg in rret (Rotated live)
  else if (deployment_exists : bool) then rev! live := cmd_reality_rotate cfg in rret (Rotated live)
  else first_keys cfg.

(** ** Lemmas: file operations *)

Lemma on_file_read_ok {A} p (k : file -> result A store_error) fs fl a fs' fl' :
  syscall unchanged (on_file p (fun f => (k f, f))) fs fl = (Ok a, fs', fl') ->
  files fs' = files fs /\ exists f, files fs !! p = Some f /\ k f = Ok a.
Proof.
  intros E. apply syscall_ok in E as [E _]. apply on_file_ok in E as (f & f' & Hf & Hk & ->). injection Hk as Hk <-.
  split; [|eauto]. simpl. by apply insert_id.
Qed.

Lemma exists_inv p fs fl r fs' fl' : exists_ p fs fl = (r, fs', fl') ->
  files fs' = files fs /\ exists b : bool, r = Ok b /\ (b = true -> files fs !! p <> None) /\
  (fl = [] -> b = match files fs !! p with Some _ => true | None => false end).
Proof.
  unfold exists_. intros E. io_bind E.
  - unfold try in E0. destruct (metadata p fs fl) as [[[m|e] fs1] fl1] eqn:Em; injection E0 as <- <- <-; injection E as <- <- <-.
    + apply on_file_read_ok in Em as [Hf (f & Hp & _)]. split; [done|]. exists true. rewrite Hp. auto.
    + unfold metadata, syscall, unchanged in Em.
      destruct fl as [|[|n] fl]; [| |injection Em as _ <- _; split; [done|]; exists false; split; [done|]; split; discriminate];
        (unfold on_file in Em; destruct (files fs !! p); [discriminate|]; injection Em as _ <- _; split; [done|];
         exists false; split; [done|]; split; [discriminate|done]).
  - unfold try in E0. destruct (metadata p fs fl) as [[[m|e'] fs1] fl1]; discriminate.
Qed.

Lemma exists_missing p fs : files fs !! p = None -> exists_ p fs [] = (Ok false, fs, []).
Proof. intros Hf. unfold exists_, bind, try, metadata, syscall, on_file, ret. by rewrite Hf. Qed.

Lemma rotate_backup_ne p : rotate_backup_path p <> p.
Proof.
  intros E. apply (f_equal (fun q => slen (name q))) in E. unfold rotate_backup_path, sibling in E. simpl in E.
  rewrite slen_app in E. change (slen ".rotate-bak") with 11 in E. lia.
Qed.

Lemma backup_frame p : frame (fun q => q = rotate_backup_path p) (backup_for_rotate p).
Proof.
  unfold backup_for_rotate, open_read, create_new, read_file, write_all, sync_all, stat, set_permissions, chown.
  assert (Hr : forall (A : Type) x (k : file -> result A store_error) S, frame S (syscall unchanged (on_file x (fun f => (k f, f))))).
  { intros A x k S. apply frame_syscall; [done|]. intros fs q _. by rewrite on_file_same. }
  assert (He : forall x S, frame S (exists_ x)) by (intros x S; eapply frame_weaken, exists_frame; done).
  repeat first
    [ apply frame_ret | apply frame_throw | apply He | apply Hr | apply frame_bind; [|intros ?] | case_match | apply frame_try
    | apply frame_syscall; intros; try done; try (by apply on_file_frame);
        (destruct (files fs !! rotate_backup_path p); [done|]; simpl; by rewrite lookup_insert_ne) ].
Qed.

Lemma insert_here {A} (m : gmap path A) p x : <[p := x]> m !! p = Some x.
Proof. rewrite lookup_insert. by destruct (decide (p = p)). Qed.

Lemma file_eta f : {| content := content f; mode := mode f; uid := uid f; gid := gid f |} = f.
Proof. by destruct f. Qed.

Lemma chown_content p u g fs fl r fs' fl' : chown p u g fs fl = (r, fs', fl') ->
  option_map content (files fs' !! p) = option_map content (files fs !! p).
Proof.
  unfold chown, syscall, unchanged, on_file. destruct (files fs !! p) as [f|] eqn:Hf.
  - destruct fl as [|[|n] fl]; intros [= _ <- _]; cbn [files put]; rewrite ?insert_here, ?Hf; done.
  - destruct fl as [|[|n] fl]; intros [= _ <- _]; by rewrite Hf.
Qed.

(** A backup that was made has the content of the file. *)
Lemma backup_copied src fs fl b fs' fl' : backup_for_rotate src fs fl = (Ok (Some b), fs', fl') ->
  b = rotate_backup_path src /\ exists f, files fs !! src = Some f /\
    option_map content (files fs' !! rotate_backup_path src) = Some (content f).
Proof.
  unfold backup_for_rotate. set (bak := rotate_backup_path src). pose proof (rotate_backup_ne src) as Hne. fold bak in Hne. intros E.
  io_bind E; [|discriminate]. pose proof (exists_inv _ _ _ _ _ _ E0) as (F0 & b0 & [= ->] & _ & _). destruct b0; [discriminate|].
  io_bind E; [|discriminate]. pose proof (exists_inv _ _ _ _ _ _ E1) as (F1 & b1 & [= ->] & _ & _).
  destruct b1; [|discriminate]. simpl negb in E. cbv iota in E.
  io_bind E; [|discriminate]. apply on_file_read_ok in E2 as [F2 _].
  io_bind E; [|discriminate]. apply syscall_ok in E2 as [E2 _].
  destruct (files fs2 !! bak) eqn:Hb; [discriminate|]. injection E2 as _ E2.
  io_bind E; [|discriminate]. apply on_file_read_ok in E3 as [F4 (f & Hf & [= <-])].
  io_bind E; [|discriminate]. apply syscall_ok in E3 as [E3 _]. apply on_file_ok in E3 as (g & g' & Hg & [= <- <-] & ->).
  io_bind E; [|discriminate]. apply syscall_ok in E3 as [[= _ <-] _].
  io_bind E; [|discriminate]. apply on_file_read_ok in E3 as [F5 _].
  io_bind E; [|discriminate]. apply syscall_ok in E3 as [E3 _]. apply on_file_ok in E3 as (k & k' & Hk & [= <- <-] & ->).
  assert (Hgc : content g = EmptyString).
  { rewrite F4, <- E2 in Hg. simpl in Hg. rewrite insert_here in Hg. by injection Hg as <-. }
  assert (Hkc : content k = content f). { rewrite F5 in Hk. simpl in Hk. rewrite insert_here in Hk. injection Hk as <-. simpl. by rewrite Hgc. }
  io_bind E; [|discriminate]. injection E as <- <- <-. split; [done|]. exists f. split.
  { rewrite <- E2 in Hf. simpl in Hf. rewrite lookup_insert_ne in Hf by done. by rewrite F2, F1, F0 in Hf. }
  unfold try in E3. destruct (chown _ _ _ _ _) as [[rc fsc] flc] eqn:Ec.
  apply chown_content in Ec. assert (fs6 = fsc) as -> by (by destruct rc; injection E3). rewrite Ec. simpl. rewrite insert_here. simpl. by rewrite Hkc.
Qed.

(** Without a fault it is the file itself. *)
Lemma backup_no_fault src fs : files fs !! rotate_backup_path src = None ->
  exists fs', match files fs !! src with
    | Some f => backup_for_rotate src fs [] = (Ok (Some (rotate_backup_path src)), fs', []) /\ files fs' !! rotate_backup_path src = Some f
    | None => backup_for_rotate src fs [] = (Ok None, fs', [])
    end.
Proof.
  intros Hb. pose proof (rotate_backup_ne src) as Hne. set (bak := rotate_backup_path src) in *.
  destruct (files fs !! src) as [f|] eqn:Hs; unfold backup_for_rotate; fold bak; unfold bind at 1; rewrite (exists_missing bak fs) by done;
    unfold bind at 1; [rewrite (exists_no_fault src f fs) by done|rewrite (exists_missing src fs) by done; by exists fs].
  assert (Hput : put src f fs = fs) by (unfold put; destruct fs; simpl in *; by rewrite insert_id).
  unfold open_read, create_new, read_file, write_all, sync_all, stat, set_permissions, chown, try, bind, syscall, on_file, ret, negb.
  rewrite Hs, Hput, Hb. cbn [files put dirs]. rewrite lookup_insert_ne, Hs by done.
  repeat (rewrite ?insert_here; cbn [files put dirs fst snd append content mode uid gid];
          rewrite ?lookup_insert_ne by done; rewrite ?Hs).
  eexists. split; [reflexivity|]. cbn [files put dirs]. rewrite ?insert_here. f_equal. by destruct f.
Qed.

Lemma install_tmp_ne p : install_tmp p <> p.
Proof.
  intros E. apply (f_equal (fun q => slen (name q))) in E. unfold install_tmp, sibling in E. simpl in E.
  rewrite slen_app in E. change (slen ".rotate-tmp") with 11 in E. lia.
Qed.

Lemma rename_spec a b fs fl r fs' fl' : a <> b -> rename a b fs fl = (r, fs', fl') ->
  match r with
  | Ok _ => files fs' !! b = files fs !! a /\ files fs !! a <> None
  | Err _ => files fs' = files fs
  end.
Proof.
  intros Hne. unfold rename, syscall, unchanged. destruct (files fs !! a) as [f|] eqn:Ha;
    (destruct fl as [|[|n] fl]; intros [= <- <- _]; try done); simpl; by rewrite insert_here.
Qed.

Lemma stat_frame p : frame (fun _ => False) (stat p).
Proof. apply frame_syscall; [done|]. intros fs q _. by rewrite on_file_same. Qed.
Lemma set_permissions_frame p m : frame (fun q => q = p) (set_permissions p m).
Proof. apply frame_syscall; [done|]. intros fs q Hq. by apply on_file_frame. Qed.

Lemma stage_key_frame p contents : frame (fun q => q = install_tmp p) (stage_key p contents).
Proof.
  apply frame_bind; [apply write_secret_frame|]. intros _. apply frame_bind; [eapply frame_weaken, frame_try, stat_frame; done|].
  intros meta. apply frame_bind; [|intros _; apply preserve_frame]. destruct meta; [apply set_permissions_frame|apply frame_ret].
Qed.
Lemma stage_key_ok p contents fs fl fs' fl' : stage_key p contents fs fl = (Ok tt, fs', fl') ->
  option_map content (files fs' !! install_tmp p) = Some contents.
Proof.
  pose proof (install_tmp_ne p) as Hne. unfold stage_key. set (tmp := install_tmp p) in *. intros E.
  io_bind E; [|discriminate]. destruct a. apply write_secret_ok in E0.
  io_bind E; [|discriminate].
  assert (F1 : files fs1 !! tmp = files fs0 !! tmp) by (exact (frame_try _ _ (stat_frame p) _ _ _ _ _ tmp E1 (fun x => x))).
  io_bind E; [|discriminate].
  assert (exists f, files fs2 !! tmp = Some f /\ content f = contents) as (f & Hf & Hc).
  { rewrite <- F1 in E0. destruct (files fs1 !! tmp) as [g|] eqn:Hg; [|discriminate]. injection E0 as E0. destruct a as [m|].
    - apply syscall_ok in E2 as [E2 _]. apply on_file_ok in E2 as (k & k' & Hk & [= <- <-] & ->). rewrite Hg in Hk. injection Hk as <-.
      simpl. rewrite insert_here. eexists. split; [reflexivity|]. done.
    - injection E2 as _ <- _. by exists g. }
  apply (preserve_ok _ _ _ _ _ _ _ Hne Hf) in E as (u & g & -> & _). simpl. by rewrite Hc.
Qed.

(** A key file is replaced whole or left as it was. *)
Lemma install_spec p contents fs fl r fs' fl' : install_rotated_key_file p contents fs fl = (r, fs', fl') ->
  (forall q, q <> p -> q <> install_tmp p -> files fs' !! q = files fs !! q) /\
  match r with
  | Ok _ => option_map content (files fs' !! p) = Some contents
  | Err _ => files fs' !! p = files fs !! p
  end.
Proof.
  pose proof (install_tmp_ne p) as Hne. intros E. io_bind E.
  - pose proof (fun q => stage_key_frame _ _ _ _ _ _ _ q E0) as F0. destruct a. apply stage_key_ok in E0.
    split; [intros q H1 H2; rewrite <- F0 by done; eapply rename_frame; [exact E|by intros [?|?]]|].
    apply rename_spec in E; [|done]. destruct r; [by destruct E as [-> _]|]. rewrite E. by apply F0, not_eq_sym.
  - subst r. pose proof (fun q => stage_key_frame _ _ _ _ _ _ _ q E0) as F0. split; [auto|]. by apply F0, not_eq_sym.
Qed.

(** ** Lemmas: going back *)

Lemma restore_backup_spec p fs fl r fs' fl' : restore_from_rotate_backup p fs fl = (r, fs', fl') ->
  (forall q, q <> p -> q <> rotate_backup_path p -> files fs' !! q = files fs !! q) /\
  (files fs' !! p = files fs !! p \/ files fs' !! p = files fs !! rotate_backup_path p /\ files fs !! rotate_backup_path p <> None) /\
  (fl = [] -> forall f, files fs !! rotate_backup_path p = Some f -> r = Ok tt /\ files fs' !! p = Some f).
Proof.
  pose proof (rotate_backup_ne p) as Hne. unfold restore_from_rotate_backup. set (bak := rotate_backup_path p) in *. intros E.
  io_bind E; [|pose proof (exists_inv _ _ _ _ _ _ E0) as (_ & ? & ? & _); discriminate].
  pose proof (exists_inv _ _ _ _ _ _ E0) as (F0 & b & [= ->] & _ & Hq).
  assert (L0 : fl = [] -> fl0 = []). { intros ->. revert E0. unfold exists_. apply quiet_bind; [apply quiet_try, quiet_syscall|intros ?; apply quiet_ret]. }
  destruct b.
  2: { injection E as <- <- <-. rewrite F0. split; [done|]. split; [by left|]. intros Hl f Hf. rewrite Hf in Hq. by specialize (Hq Hl). }
  io_bind E.
  - pose proof (fun q => rename_frame _ _ _ _ _ _ _ q E1) as F1. pose proof (rename_spec _ _ _ _ _ _ _ Hne E1) as [R1 R2].
    pose proof (fun q => fsync_frame (fun _ => False) _ _ _ _ _ q E (fun x => x)) as F2. rewrite F0 in *. split; [|split].
    + intros q H1 H2. rewrite F2, F1; [done|by intros [?|?]].
    + right. split; [|done]. by rewrite F2, R1.
    + intros Hl f Hf. rewrite F2, R1, Hf. split; [|done]. rewrite (L0 Hl) in E1.
      unfold fsync_parent_dir, bind, try in E. destruct (syscall _ _ _ _) as [[[] ?] ?]; by injection E as <- _ _.
  - subst r. pose proof (rename_spec _ _ _ _ _ _ _ Hne E1) as R1. simpl in R1. rewrite R1, F0. split; [done|]. split; [by left|].
    intros Hl f Hf. rewrite (L0 Hl) in E1. unfold rename, syscall in E1. rewrite F0, Hf in E1. discriminate.
Qed.

(** ** Lemmas: runs without a fault *)

Local Notation K p s := (files (st_fs s) !! p).
Definition calm (s : St) : Prop := st_faults s = [].
Definition rquiet {A} (m : step A) : Prop := forall s r s', m s = (r, s') -> calm s -> calm s'.

Lemma rquiet_ret {A} (a : A) : rquiet (rret a).
Proof. by intros s r s' [= <- <-]. Qed.
Lemma rquiet_throw {A} e : rquiet (rthrow (A := A) e).
Proof. by intros s r s' [= <- <-]. Qed.
Lemma rquiet_bind {A B} (m : step A) (k : A -> step B) : rquiet m -> (forall a, rquiet (k a)) -> rquiet (rbind m k).
Proof.
  intros Hm Hk s r s' E Hc. apply rbind_inv in E as [(a & s1 & E1 & E)|(e & E & _)]; [|by eapply Hm].
  eapply Hk; [exact E|]. by eapply Hm.
Qed.
Lemma rquiet_file {A} (m : io A) : quiet m -> rquiet (rfile m).
Proof.
  intros Hm s r s' E Hc. unfold rfile in E. rewrite Hc in E. destruct (m (st_fs s) []) as [[r0 fs] fl] eqn:Em.
  apply Hm in Em as ->. by injection E as <- <-.
Qed.
Lemma rquiet_ask target f : (forall s b s', f s = (b, s') -> settles target s s') -> rquiet (rask f).
Proof.
  intros Hf s r s' E Hc. unfold rask in E. destruct (f s) as [b s1] eqn:Ef. injection E as <- <-.
  apply Hf in Ef as (_ & Ef & _). unfold calm. by rewrite Ef.
Qed.
Lemma unit_controllable_quiet target : rquiet (unit_controllable target).
Proof.
  unfold unit_controllable, and_then. apply rquiet_bind; [eapply rquiet_ask; intros ? ? ?; apply is_available_settles|].
  intros [|]; [eapply rquiet_ask; intros ? ? ?; apply is_unit_installed_settles|apply rquiet_ret].
Qed.

Ltac q_io :=
  unfold exists_, metadata, dir_metadata, stat, open_read, create_new, read_file, write_all, sync_all, set_permissions, chown, rename,
    remove_file, remove_if_present, fsync_parent_dir, open_truncate, create_dir_all, preserve_ownership_before_rename, write_secret_file,
    stage_key, install_rotated_key_file, backup_for_rotate, restore_from_rotate_backup, roll_back_file, write_config_for_validation,
    backend_validate, copy, file_mode, apply_restored_file_policy;
  repeat first [ apply quiet_ret | apply quiet_throw | apply quiet_syscall | apply quiet_try | apply quiet_bind; [|intros ?] | case_match ].

Lemma install_quiet p contents : quiet (install_rotated_key_file p contents).
Proof. q_io. Qed.
Lemma backup_quiet p : quiet (backup_for_rotate p).
Proof. q_io. Qed.
Lemma roll_back_file_quiet p ex : quiet (roll_back_file p ex).
Proof. q_io. Qed.
Lemma remove_quiet p : quiet (remove_file p).
Proof. q_io. Qed.
Lemma copy_quiet src dst : quiet (copy me_uid umask new_gid src dst).
Proof. q_io. Qed.
Lemma exists_quiet p : quiet (exists_ p).
Proof. q_io. Qed.
Lemma policy_quiet p group : quiet (apply_restored_file_policy p group).
Proof. q_io. Qed.
Lemma create_dir_quiet d : quiet (create_dir_all umask new_gid d).
Proof. q_io. Qed.

Lemma remove_all_frame l : rframe (fun q => In q l) (remove_all l).
Proof.
  induction l as [|p l IH]; simpl; [apply rframe_ret|]. apply rframe_bind; [eapply rframe_file, remove_frame; intros q ->; by left|].
  intros _. intros s r s' q E Hq. eapply IH; [exact E|]. intros Hin. apply Hq. by right.
Qed.

(** ** Lemmas: the keyset *)

(** The files of a keyset, their backups and temporary files are all
    different, and none is in the directory of the configuration. *)
Record layout (target : path) (ks : list path) : Prop := {
  lay_nodup : List.NoDup ks;
  lay_backup p q : In p ks -> In q ks -> rotate_backup_path p <> q;
  lay_backups p q : In p ks -> In q ks -> p <> q -> rotate_backup_path p <> rotate_backup_path q;
  lay_tmp p q : In p ks -> In q ks -> install_tmp p <> q /\ install_tmp p <> rotate_backup_path q;
  lay_target p : In p ks -> dir p <> dir target }.

Lemma layout_cons target p ks : layout target (p :: ks) -> layout target ks.
Proof.
  intros [H1 H2 H3 H4 H5]. constructor; [by inversion H1|intros x y Hx Hy; apply H2|intros x y Hx Hy; apply H3|intros x y Hx Hy; apply H4|intros x Hx; apply H5];
    by right.
Qed.

(** The backup of one file, as the run found it. *)
Definition backed_up (s s' : St) (p : path) (ex : bool) : Prop :=
  if ex then exists f, K p s = Some f /\ file_text (rotate_backup_path p) s' = Some (content f) /\
               (calm s -> K (rotate_backup_path p) s' = Some f)
  else calm s -> K p s = None.

Lemma backup_step p s r s1 : rfile (X := rotate_error) (backup_for_rotate p) s = (r, s1) ->
  (forall q, q <> rotate_backup_path p -> K q s1 = K q s) /\ (calm s -> calm s1) /\
  exists r0, r = Ok r0 /\ forall b, r0 = Ok b -> backed_up s s1 p (Deployment.is_some b) /\ (b = None \/ b = Some (rotate_backup_path p)).
Proof.
  intros E. pose proof (rquiet_file _ (backup_quiet p) _ _ _ E) as Hq.
  apply rfile_inv in E as (r0 & fs & fl & E & -> & Hf & _). rewrite Hf.
  split; [intros q Hne; by eapply backup_frame|]. split; [done|]. exists r0. split; [done|]. intros b ->. unfold backed_up, calm, file_text. rewrite Hf.
  assert (Hcalm : st_faults s = [] -> match b with Some _ => exists f, K p s = Some f /\ files fs !! rotate_backup_path p = Some f | None => K p s = None end).
  { intros Hc. rewrite Hc in E. destruct (K (rotate_backup_path p) s) as [f|] eqn:Hb.
    - unfold backup_for_rotate, bind in E. rewrite (exists_no_fault _ f) in E by done. discriminate.
    - apply backup_no_fault in Hb as [fs' Hb]. destruct (K p s) as [f|]; [destruct Hb as [Hb Hb']|]; rewrite E in Hb; injection Hb as -> -> _; eauto. }
  destruct b as [b|]; simpl; [|auto]. pose proof (backup_copied _ _ _ _ _ _ E) as (-> & f & Hp & Hc). split; [|auto].
  exists f. split; [done|]. split; [done|]. intros Hl. destruct (Hcalm Hl) as (g & Hg & ->). congruence.
Qed.

Lemma Forall2_impl_in {A B} (P Q : A -> B -> Prop) l k :
  Forall2 P l k -> (forall x y, In x l -> In y k -> P x y -> Q x y) -> Forall2 Q l k.
Proof. induction 1; intros HQ; constructor; [apply HQ; simpl; auto|]. apply IHForall2. intros. apply HQ; simpl; auto. Qed.

Lemma prepare_spec target todo prepared s r s' : layout target todo -> prepare_backups todo prepared s = (r, s') ->
  match r with
  | Ok existed => Forall2 (backed_up s s') todo existed /\ (calm s -> calm s') /\
      forall q, (forall p, In p todo -> q <> rotate_backup_path p) -> K q s' = K q s
  | Err e => (exists e', e = BackupFailed e') /\
      forall q, (forall p, In p todo -> q <> rotate_backup_path p) -> ~ In q prepared -> K q s' = K q s
  end.
Proof.
  revert prepared s r s'. induction todo as [|p todo IH]; intros prepared s r s' Hlay; cbn [prepare_backups]; intros E.
  { injection E as <- <-. split; [constructor|done]. }
  apply rbind_inv in E as [(r0 & s1 & E1 & E)|(e & E & _)]; [|by apply backup_step in E as (_ & _ & ? & ? & _)].
  apply backup_step in E1 as (F1 & C1 & r1 & [= <-] & Hb). cbv beta in E. destruct r0 as [b|e0].
  - destruct (Hb _ eq_refl) as [Hbk Hbn]. apply rbind_inv in E as [(rest & s2 & E2 & E)|(e & E & ->)]; cbv beta in *.
    + injection E as <- <-. apply IH in E2 as (H2 & C2 & F2); [|by eapply layout_cons]. destruct Hlay as [Hnd Hb1 Hb2 _ _].
      inversion Hnd as [|? ? Hnin Hnd']. subst. split; [|split; [auto|]].
      * constructor.
        -- unfold backed_up, file_text in *. rewrite F2; [done|]. intros x Hx. apply Hb2; [by left|by right|]. by intros <-.
        -- eapply Forall2_impl_in; [exact H2|]. intros x ex Hx _. unfold backed_up.
           rewrite F1 by (intros ->; by apply (Hb1 p (rotate_backup_path p)); [left|right|]). destruct ex; [|auto].
           intros (f & Hf & Ht & Hc). exists f. auto.
      * intros q Hq. rewrite F2, F1; [done|by apply Hq; left|intros x Hx; apply Hq; by right].
    + apply IH in E as [He F2]; [|by eapply layout_cons]. split; [done|]. intros q Hq Hn. rewrite F2, F1; [done|by apply Hq; left|intros x Hx; apply Hq; by right|].
      intros Hin. apply in_app_or in Hin as [Hin|Hin]; [done|]. destruct Hbn as [-> | ->]; simpl in Hin; [done|].
      destruct Hin as [<-|[]]. by apply (Hq p); [left|].
  - apply rbind_inv in E as [(u & s2 & E2 & E)|(e & E2 & ->)]; cbv beta in *.
    + injection E as <- <-. split; [by eexists|]. intros q Hq Hn. rewrite <- F1 by (apply Hq; by left).
      eapply (use_frame (fun q => In q prepared)); [exact E2|apply remove_all_frame|done].
    + exfalso. revert E2. clear. induction prepared as [|x l IH] in s1 |- *; simpl; [discriminate|]. intros E.
      apply rbind_inv in E as [(a & s2 & _ & E)|(e' & E & _)]; [by eapply IH|]. apply rfile_inv in E as (? & ? & ? & _ & [=] & _).
Qed.

(** Nothing changed. *)
Definition untouched (target : path) (ks : list path) (s s' : St) : Prop :=
  Forall (fun p => K p s' = K p s) ks /\ K target s' = K target s.

Lemma prepare_untouched target ks s (e : rotate_error) s' : layout target ks -> prepare_backups ks [] s = (Err e, s') ->
  (exists e', e = BackupFailed e') /\ untouched target ks s s'.
Proof.
  intros Hlay E. eapply prepare_spec in E as (He & F); [|done]. split; [done|]. split.
  - apply List.Forall_forall. intros p Hp. apply F; [|by intros []]. intros q Hq. by apply not_eq_sym, (lay_backup _ _ Hlay).
  - apply F; [|by intros []]. intros p Hp ->. by apply (lay_target _ _ Hlay p).
Qed.

(** Some of the new files are in place. *)
Definition placed (todo : list (path * string)) (s s1 : St) : Prop :=
  (calm s -> calm s1) /\ st_loaded s1 = st_loaded s /\
  (forall q, ~ In q (map fst todo) -> (forall p, In p (map fst todo) -> q <> install_tmp p) -> K q s1 = K q s) /\
  Forall (fun pc => K (fst pc) s1 = K (fst pc) s \/ file_text (fst pc) s1 = Some (snd pc)) todo.

Lemma install_step p contents s r s1 : rfile (X := rotate_error) (install_rotated_key_file p contents) s = (r, s1) ->
  (calm s -> calm s1) /\ st_loaded s1 = st_loaded s /\ (forall q, q <> p -> q <> install_tmp p -> K q s1 = K q s) /\
  exists r0, r = Ok r0 /\ match r0 with Ok _ => file_text p s1 = Some contents | Err _ => K p s1 = K p s end.
Proof.
  intros E. pose proof (rquiet_file _ (install_quiet p contents) _ _ _ E) as Hq.
  apply rfile_inv in E as (r0 & fs & fl & E & -> & Hf & Hl). apply install_spec in E as [F R]. unfold file_text. rewrite Hf. eauto 10.
Qed.

Lemma placed_refl todo s : placed todo s s.
Proof. split; [done|]. split; [done|]. split; [done|]. apply List.Forall_forall. auto. Qed.

Lemma install_inv {A} target keys todo (k : step A) s r s' : layout target (map fst todo) -> install_keys target keys todo k s = (r, s') ->
  (exists s1, k s1 = (r, s') /\ placed todo s s1 /\ Forall (fun pc => file_text (fst pc) s1 = Some (snd pc)) todo) \/
  (exists p s1, rollback target keys false (InstallKey p) s1 = (r, s') /\ placed todo s s1).
Proof.
  revert s. induction todo as [|[p c] todo IH]; intros s Hlay; cbn [install_keys]; intros E.
  { left. exists s. split; [done|]. split; [apply placed_refl|constructor]. }
  apply rbind_inv in E as [(r0 & s1 & E1 & E)|(e & E & _)]; [|by apply install_step in E as (_ & _ & _ & ? & ? & _)].
  apply install_step in E1 as (C1 & L1 & F1 & r1 & [= <-] & R1). cbv beta in E. pose proof Hlay as Hlay0. destruct Hlay0 as [Hnd _ _ Ht _].
  simpl in Hnd. inversion Hnd as [|? ? Hnin Hnd']. subst. cbn [map fst] in Ht.
  assert (Hsame : forall pc, In pc todo -> K (fst pc) s1 = K (fst pc) s).
  { intros pc Hin. apply F1; [intros <-; by apply Hnin, in_map|]. intros Hx. eapply (proj1 (Ht p (fst pc) (or_introl eq_refl) (or_intror (in_map fst _ _ Hin)))). done. }
  assert (Hstep : forall s2, placed todo s1 s2 ->
    (K p s1 = K p s \/ file_text p s1 = Some c) -> placed ((p, c) :: todo) s s2).
  { intros s2 (C2 & L2 & F2 & P2) Hp. split; [auto|]. split; [congruence|]. split.
    - intros q Hq Hqt. cbn [map fst] in *. rewrite F2, F1; [done|..]; [intros ->; apply Hq; by left|apply Hqt; by left| |intros y Hy; apply Hqt; by right].
      intros Hin. apply Hq. by right.
    - constructor.
      + cbn [fst snd]. unfold file_text in *. rewrite F2; [done|done|]. intros y Hy Hx.
        eapply (proj1 (Ht y p (or_intror Hy) (or_introl eq_refl))). done.
      + apply List.Forall_forall. intros pc Hin. apply (proj1 (List.Forall_forall _ _) P2) in Hin as Hpc. by rewrite <- (Hsame _ Hin). }
  destruct r0 as [u|e0].
  - apply IH in E as [(s2 & E2 & P2 & W2)|(q & s2 & E2 & P2)]; [| |by eapply layout_cons].
    + left. exists s2. split; [done|]. split; [apply Hstep; [done|by right]|]. constructor; [|done]. cbn [fst snd]. unfold file_text in *.
      destruct P2 as (_ & _ & F2 & _). rewrite F2; [done|done|]. intros y Hy Hx. eapply (proj1 (Ht y p (or_intror Hy) (or_introl eq_refl))). done.
    + right. exists q, s2. split; [done|]. apply Hstep; [done|by right].
  - right. exists p, s1. split; [done|]. apply Hstep; [apply placed_refl|by left].
Qed.

(** One file of a rollback: kept, or what it was before the rotation. *)
Definition undone (s s' : St) (p : path) (ex : bool) : Prop :=
  (K p s' = K p s \/ if ex then K p s' = K (rotate_backup_path p) s /\ K (rotate_backup_path p) s <> None else K p s' = None) /\
  (calm s -> if ex then forall f, K (rotate_backup_path p) s = Some f -> K p s' = Some f else K p s' = None).

Lemma roll_back_step p ex s r s1 : rfile (X := rotate_error) (roll_back_file p ex) s = (r, s1) ->
  (calm s -> calm s1) /\ undone s s1 p ex /\ (forall q, q <> p -> q <> rotate_backup_path p -> K q s1 = K q s) /\ exists r0, r = Ok r0.
Proof.
  intros E. pose proof (rquiet_file _ (roll_back_file_quiet p ex) _ _ _ E) as Hq.
  apply rfile_inv in E as (r0 & fs & fl & E & -> & Hf & _). unfold undone. rewrite Hf. split; [done|].
  destruct ex; simpl in E.
  - apply restore_backup_spec in E as (F & R & C). split; [|eauto]. split; [done|]. intros Hc f Hb. by apply C.
  - unfold remove_if_present, syscall, unchanged in E.
    unfold calm. destruct (st_faults s) as [|[|n] ?]; injection E as <- <- <-; simpl; rewrite ?lookup_delete_eq;
      (split; [split; [auto|done]|]); (split; [|eauto]); intros q H1 _; try done; by rewrite lookup_delete_ne.
Qed.

Lemma roll_back_files_spec target keys s r s' : layout target (map fst keys) -> roll_back_files keys s = (r, s') ->
  (exists b, r = Ok b) /\ (calm s -> calm s') /\ Forall (fun k => undone s s' (fst k) (snd k)) keys /\
  (forall q, (forall p, In p (map fst keys) -> q <> p /\ q <> rotate_backup_path p) -> K q s' = K q s).
Proof.
  revert s r s'. induction keys as [|[p ex] keys IH]; intros s r s' Hlay; cbn [roll_back_files]; intros E.
  { injection E as <- <-. split; [eauto|]. split; [done|]. split; [constructor|done]. }
  apply rbind_inv in E as [(r0 & s1 & E1 & E)|(e & E & _)]; [|by apply roll_back_step in E as (_ & _ & _ & ? & ?)].
  apply roll_back_step in E1 as (C1 & U1 & F1 & _). cbv beta in E. pose proof Hlay as Hlay0. destruct Hlay0 as [Hnd Hb Hbb _ _].
  simpl in Hnd. inversion Hnd as [|? ? Hnin Hnd']. subst. cbn [map fst] in *.
  assert (Hrest : forall r2 s2, roll_back_files keys s1 = (r2, s2) -> (exists b, r2 = Ok b) /\ (calm s -> calm s2) /\
    Forall (fun k => undone s s2 (fst k) (snd k)) ((p, ex) :: keys) /\
    (forall q, (forall x, p = x \/ In x (map fst keys) -> q <> x /\ q <> rotate_backup_path x) -> K q s2 = K q s)).
  { intros r2 s2 E2. apply IH in E2 as (Hr & C2 & U2 & F2); [|by eapply layout_cons]. split; [done|]. split; [auto|]. split.
    - constructor.
      + cbn [fst snd]. unfold undone in *. rewrite F2; [done|]. intros x Hx. split; [by intros <-|]. apply not_eq_sym, Hb; [by right|by left].
      + apply List.Forall_forall. intros [x ex'] Hin. apply (proj1 (List.Forall_forall _ _) U2) in Hin as Hu. cbn [fst snd] in *.
        apply (in_map fst) in Hin. cbn [fst] in Hin. assert (x <> p) by (intros ->; done).
        unfold undone in *. rewrite !F1 in Hu; [split; [apply Hu|intros Hc; apply Hu; auto]|..]; try done;
          [apply Hb; [by right|by left]|apply Hbb; [by right|by left|done]|apply not_eq_sym, Hb; [by left|by right]].
    - intros q Hq. rewrite F2, F1; [done|apply Hq; by left..|]. intros x Hx. apply Hq. by right. }
  apply rbind_inv in E as [(b & s2 & E2 & E)|(e & E2 & ->)]; cbv beta in *; apply Hrest in E2 as (Hr & C2 & U2 & F2).
  - injection E as <- <-. split; [eauto|]. auto.
  - destruct Hr as [b Hr]. discriminate.
Qed.

Lemma unit_controllable_frame S target : rframe S (unit_controllable target).
Proof.
  unfold unit_controllable, and_then.
  repeat first [ apply rframe_ret | apply ask_available_frame | apply ask_installed_frame | apply rframe_bind; [|intros ?] | case_match ].
Qed.
Lemma unit_controllable_total target s : exists b s', unit_controllable target s = (Ok b, s').
Proof.
  unfold unit_controllable, and_then, rbind, rask, rret. destruct (is_available target s) as [[] s1]; [|eauto].
  destruct (is_unit_installed target s1). eauto.
Qed.
Lemma recovered_frame S target reload : (forall s b s', reload s = (b, s') -> settles target s s') -> rframe S (recovered target reload).
Proof.
  intros Hf. unfold recovered, unit_controllable, and_then.
  repeat first [ apply rframe_ret | apply ask_available_frame | apply ask_installed_frame | apply (rframe_ask _ _ _ Hf)
               | apply rframe_bind; [|intros ?] | case_match ].
Qed.
Lemma recovered_total target reload s : exists b s', recovered target reload s = (Ok b, s').
Proof.
  unfold recovered, unit_controllable, and_then, rbind, rask, rret. destruct (is_available target s) as [[] s1]; [|eauto].
  destruct (is_unit_installed target s1) as [[] s2]; [|eauto]. destruct (reload s2). eauto.
Qed.
Lemma singbox_reload_settles target s b s' : reload_and_verify target s = (b, s') -> settles target s s'.
Proof. apply reload_and_verify_spec. Qed.

Lemma roll_back_config_spec target applied s r s' : roll_back_config target applied s = (r, s') ->
  (exists b, r = Ok b) /\ (forall q, q <> target -> K q s' = K q s) /\ (applied = false -> s' = s) /\
  (calm s -> applied = true -> forall f, K (config_backup_path target) s = Some f -> file_text target s' = Some (content f)).
Proof.
  unfold roll_back_config. destruct applied; [|intros [= <- <-]; split; [eauto|]; done]. intros E.
  apply rbind_inv in E as [(a & s1 & E1 & E)|(e & E & _)]; [|by apply rfile_inv in E as (? & ? & ? & _ & ? & _)].
  pose proof (rquiet_file _ (exists_quiet _) _ _ _ E1) as C1. apply rfile_inv in E1 as (r1 & fs & fl & E1 & [= <-] & Hf & _).
  apply exists_inv in E1 as (F1 & b & -> & _ & Hb). cbv beta in E. destruct b.
  - apply rbind_inv in E as [(r2 & s2 & E2 & E)|(e & E & _)]; [|by apply rfile_inv in E as (? & ? & ? & _ & ? & _)].
    injection E as <- <-. apply rfile_inv in E2 as (r3 & fs2 & fl2 & E2 & [= <-] & Hf2 & _). split; [eauto|].
    pose proof (fun q => copy_frame _ _ _ _ _ _ _ _ _ _ q E2) as F2. rewrite Hf in *. split.
    { intros q Hq. rewrite Hf2, F2, F1; done. }
    split; [done|]. intros Hc _ f Hbk. specialize (C1 Hc). unfold calm in C1. rewrite C1 in E2. rewrite <- F1 in Hbk.
    destruct (copy_no_fault me_uid umask new_gid _ target _ _ Hbk) as (fs3 & f3 & E3 & Hf3 & Hc3). rewrite E2 in E3. injection E3 as -> -> _.
    unfold file_text. rewrite Hf2, Hf3. simpl. by rewrite Hc3.
  - injection E as <- <-. split; [eauto|]. split; [intros q _; by rewrite Hf, F1|]. split; [done|]. intros Hc _ f Hbk.
    specialize (Hb Hc). by rewrite Hbk in Hb.
Qed.

Lemma rollback_spec {A} target keys applied reason s (r : result A rotate_error) s' : layout target (map fst keys) ->
  rollback target keys applied reason s = (r, s') ->
  (exists ok b1 b2, r = Err (RotationFailed reason ok b1 b2)) /\
  Forall (fun k => undone s s' (fst k) (snd k)) keys /\ (applied = false -> K target s' = K target s) /\
  (calm s -> applied = true -> forall f, K (config_backup_path target) s = Some f -> file_text target s' = Some (content f)).
Proof.
  intros Hlay E. unfold rollback in E.
  apply rbind_inv in E as [(kb & s1 & E1 & E)|(e & E & _)]; [|by apply (roll_back_files_spec target) in E as ([? ?] & _)].
  apply (roll_back_files_spec target) in E1 as (_ & C1 & U1 & F1); [|done]. cbv beta in E.
  apply rbind_inv in E as [(cb & s2 & E2 & E)|(e & E & _)]; [|by apply roll_back_config_spec in E as ([? ?] & _)].
  apply roll_back_config_spec in E2 as (_ & F2 & N2 & R2). cbv beta in E.
  destruct (recovered_total target (reload_and_verify target) s2) as (b1 & s3 & E3). unfold rbind at 1 in E. rewrite E3 in E.
  destruct (recovered_total target (sub_reload_and_verify target) s3) as (b2 & s4 & E4). unfold rbind at 1 in E. rewrite E4 in E. injection E as <- <-.
  pose proof (fun q => recovered_frame (fun _ => False) _ _ (singbox_reload_settles target) _ _ _ q E3 (fun x => x)) as F3.
  pose proof (fun q => recovered_frame (fun _ => False) _ _ (sub_reload_settles target) _ _ _ q E4 (fun x => x)) as F4.
  assert (Hd : forall q, dir q = dir target -> K q s1 = K q s).
  { intros q Hq. apply F1. intros p Hp. pose proof (lay_target _ _ Hlay p Hp) as Hne. split; intros ->; by apply Hne. }
  split; [eauto|]. split; [|split].
  - apply List.Forall_forall. intros k Hin. apply (proj1 (List.Forall_forall _ _) U1) in Hin as Hu. apply (in_map fst) in Hin.
    assert (Hne : fst k <> target) by (intros Hx; apply (lay_target _ _ Hlay _ Hin); by rewrite Hx).
    unfold undone in *. by rewrite F4, F3, F2 by done.
  - intros Ha. rewrite F4, F3, (N2 Ha). by apply Hd.
  - intros Hc Ha f Hf. unfold file_text. rewrite F4, F3. apply R2; [auto|done|]. by rewrite Hd.
Qed.

(** ** Lemmas: the swap and the restarts *)

Lemma restart_inv {A} target reload (P : St -> Prop) (fail : step A) (k : bool -> step A) s r s' :
  (forall s0 b s1, reload s0 = (b, s1) -> settles target s0 s1 /\ (b = true -> P s1)) ->
  restart target reload fail k s = (r, s') ->
  exists s1, settles target s s1 /\ (fail s1 = (r, s') \/ exists live, k live s1 = (r, s') /\ (live = true -> P s1)).
Proof.
  intros Hr. unfold restart, unit_controllable, and_then, rbind, rask, rret.
  destruct (is_available target s) as [b1 s1] eqn:E1. apply is_available_settles in E1.
  destruct b1; [|intros E; exists s1; split; [done|]; right; by exists false].
  destruct (is_unit_installed target s1) as [b2 s2] eqn:E2. apply is_unit_installed_settles in E2.
  assert (S2 : settles target s s2) by by eapply settles_trans.
  destruct b2; [|intros E; exists s2; split; [done|]; right; by exists false].
  destruct (reload s2) as [b3 s3] eqn:E3. apply Hr in E3 as [S3 HP].
  destruct b3; intros E; (exists s3; split; [by eapply settles_trans|]); [right; exists true; auto|by left].
Qed.

Lemma remove_all_loaded l s r s' : remove_all l s = (r, s') -> st_loaded s' = st_loaded s /\ r = Ok tt.
Proof.
  revert s. induction l as [|p l IH]; simpl; intros s E; [by injection E as <- <-|].
  apply rbind_inv in E as [(a & s1 & E1 & E)|(e & E & _)]; [|by apply rfile_inv in E as (? & ? & ? & _ & ? & _)].
  apply rfile_inv in E1 as (? & ? & ? & _ & _ & _ & <-). by apply IH.
Qed.

Lemma settled_calm target s s' : settles target s s' -> calm s -> calm s'.
Proof. unfold calm. by intros (_ & -> & _). Qed.

(** What a swap leaves: the new configuration and the keys as they stand, or
    the keys rolled back and the configuration from its backup. *)
Definition swapped (target : path) (text : string) (keys : list (path * bool)) (s : St) (r : result bool rotate_error) (s' : St) : Prop :=
  match r with
  | Ok live => check text = true /\ file_text target s' = Some text /\ Forall (fun k => K (fst k) s' = K (fst k) s) keys /\
      (live = true -> st_loaded s' = Some text \/ st_loaded s' = None)
  | Err e => (exists reason ok b1 b2, e = RotationFailed reason ok b1 b2) /\ Forall (fun k => undone s s' (fst k) (snd k)) keys /\
      (calm s -> forall old, K target s = Some old -> file_text target s' = Some (content old))
  end.

Lemma commit_rotation_spec target keys self_test singbox_live sub_live s r s' : layout target (map fst keys) ->
  commit_rotation target keys self_test singbox_live sub_live s = (r, s') ->
  rollback target keys true SelfTest s = (r, s') \/
  (r = Ok (singbox_live && sub_live) /\ st_loaded s' = st_loaded s /\ K target s' = K target s /\
   Forall (fun k => K (fst k) s' = K (fst k) s) keys).
Proof.
  intros Hlay. unfold commit_rotation. case_match; [auto|]. intros E. right.
  apply rbind_inv in E as [(a & s1 & E1 & E)|(e & E & _)]; [|by apply remove_all_loaded in E as [_ ?]].
  injection E as <- <-. pose proof (remove_all_loaded _ _ _ _ E1) as [L1 _].
  assert (Hk : forall q, (forall k, In k keys -> q <> rotate_backup_path (fst k)) -> K q s1 = K q s).
  { intros q Hq. eapply remove_all_frame; [exact E1|]. intros Hin. apply in_map_iff in Hin as (k & <- & Hin). by apply (Hq k). }
  split; [done|]. split; [done|]. split.
  - apply Hk. intros k Hin ->. by apply (lay_target _ _ Hlay (fst k)); [apply in_map|].
  - apply List.Forall_forall. intros k Hin. apply Hk. intros k' Hin'. apply not_eq_sym, (lay_backup _ _ Hlay); by apply in_map.
Qed.

Lemma undone_from s s1 s' p ex : K p s1 = K p s -> K (rotate_backup_path p) s1 = K (rotate_backup_path p) s -> (calm s -> calm s1) ->
  undone s1 s' p ex -> undone s s' p ex.
Proof. unfold undone. intros -> -> Hc [H1 H2]. split; [done|]. intros Hs. apply H2, Hc, Hs. Qed.

Lemma rolled_back_after {target text keys s s1 r s' reason} : layout target (map fst keys) ->
  (forall k, In k keys -> K (fst k) s1 = K (fst k) s /\ K (rotate_backup_path (fst k)) s1 = K (rotate_backup_path (fst k)) s) ->
  (calm s -> calm s1) ->
  (calm s -> forall old, K target s = Some old -> exists b, K (config_backup_path target) s1 = Some b /\ content b = content old) ->
  rollback target keys true reason s1 = (r, s') -> swapped target text keys s r s'.
Proof.
  intros Hlay Hk Hc Hb E. apply rollback_spec in E as ((ok & b1 & b2 & ->) & U & _ & R); [|done].
  split; [eauto|]. split.
  - apply List.Forall_forall. intros k Hin. apply (proj1 (List.Forall_forall _ _) U) in Hin as Hu.
    destruct (Hk k Hin). by apply (undone_from s s1).
  - intros Hcalm old Hold. destruct (Hb Hcalm old Hold) as (b & Hb1 & <-). by apply R; [apply Hc| |].
Qed.

Lemma swap_and_restart_spec target text keys self_test s r s' : layout target (map fst keys) ->
  swap_and_restart target text keys (commit_rotation target keys self_test) s = (r, s') -> swapped target text keys s r s'.
Proof.
  intros Hlay E. unfold swap_and_restart in E.
  apply rbind_inv in E as [(r0 & s1 & E1 & E)|(e & E & _)]; [|by apply rfile_inv in E as (? & ? & ? & _ & ? & _)].
  pose proof (rquiet_file _ (apply_config_quiet me_uid umask new_gid pid check text target) _ _ _ E1) as C1.
  apply rfile_inv in E1 as (r1 & fs & fl & E1 & [= <-] & Hf & _). cbv beta in E.
  pose proof (fun q => apply_config_frame _ _ _ _ _ _ _ _ _ _ _ _ q E1) as F1. apply apply_config_spec in E1 as [_ R1]. rewrite <- Hf in *.
  assert (Hk : forall k, In k keys -> K (fst k) s1 = K (fst k) s /\ K (rotate_backup_path (fst k)) s1 = K (rotate_backup_path (fst k)) s).
  { intros k Hin. pose proof (lay_target _ _ Hlay _ (in_map fst _ _ Hin)). split; by apply F1. }
  destruct r0 as [u|e0].
  2:{ apply rollback_spec in E as ((ok & b1 & b2 & ->) & U & N & _); [|done]. split; [eauto|]. split.
      - apply List.Forall_forall. intros k Hin. apply (proj1 (List.Forall_forall _ _) U) in Hin as Hu.
        destruct (Hk k Hin). by apply (undone_from s s1).
      - intros _ old Hold. unfold file_text. by rewrite N, R1, Hold. }
  destruct R1 as (Hck & f & Hnew & Htext & _ & _ & Hbak).
  assert (Hb : calm s -> forall old, K target s = Some old -> exists b, K (config_backup_path target) s1 = Some b /\ content b = content old).
  { intros Hc old Hold. destruct (Hbak Hc old Hold) as (_ & _ & b & ? & ? & _). eauto. }
  assert (Hback : forall s2 reason, st_fs s2 = st_fs s1 -> (calm s1 -> calm s2) ->
    rollback target keys true reason s2 = (r, s') -> swapped target text keys s r s').
  { intros s2 reason F2 C2 E2. eapply rolled_back_after; [done| | | |exact E2]; try rewrite F2; auto. }
  apply (restart_inv _ _ (fun s => st_loaded s = file_text target s)) in E as (s2 & S2 & [E|(live & E & Hl)]).
  3:{ intros sa b sb Hr. apply reload_and_verify_spec in Hr as [Sr Hr]. split; [done|]. intros Hb0. destruct (Hr Hb0) as [-> _].
      unfold file_text. by rewrite (proj1 Sr). }
  - eapply Hback; [apply S2|by apply (settled_calm target)|exact E].
  - apply (restart_inv _ _ (fun _ => True)) in E as (s3 & S3 & [E|(live' & E & _)]).
    3:{ intros sa b sb Hr. split; [by apply sub_reload_settles in Hr|done]. }
    all: pose proof (fun Hc => settled_calm _ _ _ S3 (settled_calm _ _ _ S2 Hc)) as C3.
    + eapply Hback; [by rewrite (proj1 S3), (proj1 S2)|exact C3|exact E].
    + apply commit_rotation_spec in E as [E|(-> & L & HT & HK)]; [| |done].
      * eapply Hback; [by rewrite (proj1 S3), (proj1 S2)|exact C3|exact E].
      * destruct S2 as (F2 & _ & _), S3 as (F3 & _ & L3). unfold swapped, file_text in *. rewrite HT, F3, F2, Hnew. simpl. rewrite Htext.
        split; [done|]. split; [done|]. split.
        -- apply List.Forall_forall. intros k Hin. apply (proj1 (List.Forall_forall _ _) HK) in Hin as Hq.
           rewrite Hq, F3, F2. by apply Hk.
        -- intros Hlive. apply andb_prop in Hlive as [-> _]. specialize (Hl eq_refl). rewrite F2, Hnew in *. simpl in *. rewrite Htext in *.
           rewrite L. destruct L3 as [-> |[-> | ->]]; auto.
Qed.

(** ** Lemmas: one key through a rotation *)

Definition rotated_or_kept (p : path) (new : string) (s s' : St) : Prop :=
  (calm s -> K p s' = K p s) /\ (file_text p s' = file_text p s \/ file_text p s' = Some new \/ file_text p s' = None).

(** A rollback without faults brings back the file itself. *)
Lemma undo_exact p ex s0 s1 s2 s' : backed_up s0 s1 p ex -> K (rotate_backup_path p) s2 = K (rotate_backup_path p) s1 ->
  undone s2 s' p ex -> calm s0 -> calm s2 -> K p s' = K p s0.
Proof.
  intros Hb H2 [_ Hcalm] Hs Hs2. specialize (Hcalm Hs2). rewrite H2 in Hcalm. destruct ex; simpl in Hb; [|by rewrite Hcalm, Hb].
  destruct Hb as (f & Hf & _ & Hbk). rewrite Hf. apply Hcalm. by apply Hbk.
Qed.

Lemma key_verdict p new ex s0 s1 s2 s' : backed_up s0 s1 p ex -> K p s1 = K p s0 ->
  K (rotate_backup_path p) s2 = K (rotate_backup_path p) s1 -> (K p s2 = K p s1 \/ file_text p s2 = Some new) ->
  (calm s0 -> calm s2) -> undone s2 s' p ex -> rotated_or_kept p new s0 s'.
Proof.
  intros Hb H1 H2 H3 Hc Hun. split; [intros Hs; by eapply undo_exact; eauto|]. destruct Hun as [Hu _].
  unfold file_text. rewrite H2, H1 in *. destruct Hu as [Hu|Hu].
  - rewrite Hu. destruct H3 as [-> |Hn]; [auto|]. unfold file_text in Hn. rewrite Hn. auto.
  - destruct ex; [|right; right; by rewrite Hu]. destruct Hb as (f & Hf & Hbt & _), Hu as [-> _].
    unfold file_text in Hbt. rewrite Hbt, Hf. auto.
Qed.

Lemma append_inj_l (a x y : string) : a +:+ x = a +:+ y -> x = y.
Proof. induction a; simpl; [done|]. intros [= E]. auto. Qed.

(** File names decide it. *)
Definition names_apart (ns : list string) : bool :=
  bool_decide (NoDup ns) &&
  forallb (fun n => forallb (fun m =>
    negb (String.eqb (n +:+ ".rotate-bak") m) && negb (String.eqb (n +:+ ".rotate-tmp") m) &&
    negb (String.eqb (n +:+ ".rotate-tmp") (m +:+ ".rotate-bak")) &&
    (String.eqb n m || negb (String.eqb (n +:+ ".rotate-bak") (m +:+ ".rotate-bak")))) ns) ns.

Lemma layout_by_names target ks : names_apart (map name ks) = true -> (forall p, In p ks -> dir p <> dir target) -> layout target ks.
Proof.
  unfold names_apart. intros Hn Hd. apply andb_prop in Hn as [Hnd Hall]. apply bool_decide_eq_true in Hnd.
  assert (Hpq : forall p q, In p ks -> In q ks -> (name p +:+ ".rotate-bak" <> name q /\ name p +:+ ".rotate-tmp" <> name q) /\
    name p +:+ ".rotate-tmp" <> name q +:+ ".rotate-bak" /\ (name p = name q \/ name p +:+ ".rotate-bak" <> name q +:+ ".rotate-bak")).
  { intros p q Hp Hq. rewrite forallb_forall in Hall. specialize (Hall _ (in_map name _ _ Hp)). rewrite forallb_forall in Hall.
    specialize (Hall _ (in_map name _ _ Hq)). rewrite !andb_true_iff, !negb_true_iff, orb_true_iff, negb_true_iff in Hall.
    destruct Hall as (((H1 & H2) & H3) & H4). rewrite String.eqb_neq in *. rewrite String.eqb_eq in H4. auto. }
  assert (Hinj : forall p q, In p ks -> In q ks -> name p = name q -> p = q).
  { clear -Hnd. induction ks as [|x l IH]; simpl in *; [done|]. apply NoDup_cons in Hnd as [Hx Hl].
    assert (Hno : forall q, In q l -> name x <> name q) by (intros q Hq Heq; apply Hx; rewrite Heq; apply list_elem_of_In; by apply in_map).
    intros p q [<-|Hp] [<-|Hq] Heq; [done|by destruct (Hno q)|by destruct (Hno p)|by apply IH]. }
  constructor; [| | | |done].
  - apply NoDup_ListNoDup. by apply (NoDup_fmap_1 name).
  - intros p q Hp Hq E. apply (f_equal name) in E. by destruct (Hpq p q Hp Hq) as [[? _] _].
  - intros p q Hp Hq Hne E. apply (f_equal name) in E. destruct (Hpq p q Hp Hq) as (_ & _ & [He|?]); [|done]. by apply Hne, Hinj.
  - intros p q Hp Hq. destruct (Hpq p q Hp Hq) as ([_ ?] & ? & _). split; intros E; by apply (f_equal name) in E.
Qed.

Lemma keyset_layout cfg : layout (singbox_config_file cfg) (key_files cfg).
Proof.
  apply layout_by_names; [reflexivity|]. simpl. intros p Hp E. destruct_or! Hp; try done; subst p; by apply append_inj_l in E.
Qed.

(** ** Lemmas: before the first change *)

Lemma reality_candidate_reads cfg keys : rframe (fun _ => False) (reality_candidate cfg keys).
Proof.
  unfold reality_candidate.
  repeat first [ apply rframe_lift
               | eapply rframe_fail; [|first [apply frame_try, read_trimmed_frame|apply AdminUsers.load_users_frame|apply load_hysteria_frame]]; done
               | apply rframe_bind; [|intros ?] ].
Qed.
Lemma rquiet_lift {A} (r : result A rotate_error) : rquiet (rlift r).
Proof. by intros s r0 s' [= <- <-]. Qed.
Lemma rquiet_fail {A} wrap (m : io A) : quiet m -> rquiet (rfail wrap m).
Proof. intros Hm. apply rquiet_bind; [by apply rquiet_file|]. intros [a|e]; [apply rquiet_ret|apply rquiet_throw]. Qed.
Lemma read_trimmed_quiet p : quiet (read_trimmed p).
Proof. unfold read_trimmed. q_io. Qed.
Lemma reality_candidate_quiet cfg keys : rquiet (reality_candidate cfg keys).
Proof.
  unfold reality_candidate.
  repeat first [ apply rquiet_lift
               | apply rquiet_fail; first [apply quiet_try, read_trimmed_quiet|apply AdminUsers.load_users_quiet|apply load_hysteria_quiet]
               | apply rquiet_bind; [|intros ?] ].
Qed.

Lemma stage_and_check_frame tmp text : rframe (fun q => q = tmp) (stage_and_check tmp text).
Proof.
  unfold stage_and_check. apply rframe_bind.
  - eapply rframe_file; [intros q Hq; exact Hq|]. unfold write_config_for_validation.
    apply frame_bind; [eapply frame_weaken, create_dir_frame; done|]. intros _. apply frame_bind; [apply frame_syscall; [done|]; intros fs q Hq; simpl; by rewrite lookup_insert_ne|].
    intros _. apply frame_syscall; intros; by apply on_file_frame.
  - intros [u|e]; repeat first [ apply rframe_ret | apply rframe_throw | apply rframe_bind; [|intros ?] | case_match
      | eapply rframe_file, remove_frame; by intros | eapply rframe_file, backend_validate_frame; done ].
Qed.
Lemma stage_and_check_quiet tmp text : rquiet (stage_and_check tmp text).
Proof.
  unfold stage_and_check.
  repeat first [ apply rquiet_ret | apply rquiet_throw | apply rquiet_bind; [|intros ?] | case_match | apply rquiet_file; q_io ].
Qed.
Lemma controllable_frame target : rframe (fun _ => False) (controllable target).
Proof.
  unfold controllable, unit_controllable, and_then.
  repeat first [ apply rframe_ret | apply ask_available_frame | apply ask_installed_frame | apply rframe_bind; [|intros ?] | case_match ].
Qed.
Lemma controllable_quiet target : rquiet (controllable target).
Proof.
  unfold controllable, and_then.
  repeat first [ apply rquiet_ret | apply unit_controllable_quiet | apply rquiet_bind; [|intros ?] | case_match ].
Qed.

(** ** Lemmas: the whole rotation of a keyset *)

Lemma Forall2_three {A B C} (P : A -> B -> Prop) (Q : A * B -> Prop) (R : A * C -> Prop) (S : A -> C -> Prop) ks ex new :
  Forall2 P ks ex -> length new = length ks -> Forall Q (combine ks ex) -> Forall R (combine ks new) ->
  (forall p e c, In p ks -> P p e -> Q (p, e) -> R (p, c) -> S p c) -> Forall2 S ks new.
Proof.
  intros HP. revert new. induction HP as [|p e ks ex Hp HP IH]; intros [|c new] Hl HQ HR HS; try discriminate; constructor.
  - inversion HQ. inversion HR. subst. eapply HS; eauto. by left.
  - inversion HQ. inversion HR. subst. injection Hl as Hl. apply IH; [done..|]. intros. eapply HS; eauto. by right.
Qed.

Lemma fst_combine {A B} (l : list A) (k : list B) : length l = length k -> map fst (combine l k) = l.
Proof. revert k. induction l as [|x l IH]; intros [|y k]; try done. intros [= Hl]. simpl. by rewrite IH. Qed.

Definition rotate_keyset (target : path) (ks : list path) (new : list string) (text : string) : step bool :=
  rev! existed := prepare_backups ks [] in
  install_keys target (combine ks existed) (combine ks new)
    (swap_and_restart target text (combine ks existed) (commit_rotation target (combine ks existed) true)).

Definition rotation (target : path) (ks : list path) (new : list string) (text : string) (s : St) (r : result bool rotate_error) (s' : St) : Prop :=
  match r with
  | Ok live => check text = true /\ file_text target s' = Some text /\ Forall2 (fun p c => file_text p s' = Some c) ks new /\
      (live = true -> st_loaded s' = Some text \/ st_loaded s' = None)
  | Err (RotationFailed _ _ _ _) => Forall2 (fun p c => rotated_or_kept p c s s') ks new /\
      (calm s -> forall old, K target s = Some old -> file_text target s' = Some (content old))
  | Err _ => untouched target ks s s'
  end.

Lemma rotate_keyset_spec target ks new text s r s' : layout target ks -> length new = length ks ->
  rotate_keyset target ks new text s = (r, s') -> rotation target ks new text s r s'.
Proof.
  intros Hlay Hlen E. apply rbind_inv in E as [(existed & s1 & E1 & E)|(e & E & ->)].
  2:{ apply (prepare_untouched _ _ _ _ _ Hlay) in E as [(e' & ->) HU]. exact HU. }
  eapply prepare_spec in E1 as (B1 & C1 & F1); [|done].
  pose proof (Forall2_length _ _ _ B1) as Hex.
  assert (Hlay1 : layout target (map fst (combine ks existed))) by by rewrite fst_combine.
  assert (Hlay2 : layout target (map fst (combine ks new))) by by rewrite fst_combine.
  assert (Hold : forall p, In p ks -> K p s1 = K p s)
    by (intros p Hp; apply F1; intros q Hq; by apply not_eq_sym, (lay_backup _ _ Hlay)).
  assert (Ht : forall s2, placed (combine ks new) s1 s2 -> K target s2 = K target s).
  { intros s2 (_ & _ & F2 & _). rewrite fst_combine in F2 by done. rewrite F2, F1; [done|..];
      [intros p Hp|intros Hp|intros p Hp]; [intros ->|eapply (lay_target _ _ Hlay); done|intros ->]; by eapply (lay_target _ _ Hlay). }
  assert (Hverdict : forall s2, placed (combine ks new) s1 s2 ->
    Forall (fun k => undone s2 s' (fst k) (snd k)) (combine ks existed) -> Forall2 (fun p c => rotated_or_kept p c s s') ks new).
  { intros s2 (C2 & _ & F2 & P2) U. rewrite fst_combine in F2 by done. eapply Forall2_three; [exact B1|done|exact U|exact P2|].
    intros p ex c Hp Hb Hu Hpl. eapply key_verdict; [exact Hb|by apply Hold| |exact Hpl|auto|exact Hu].
    apply F2; [intros Hin; by apply (lay_backup _ _ Hlay p _ Hp Hin)|]. intros q Hq. by apply not_eq_sym, (lay_tmp _ _ Hlay). }
  apply install_inv in E as [(s2 & E & P2 & W2)|(p & s2 & E & P2)]; [| |done].
  - apply swap_and_restart_spec in E; [|done]. destruct r as [live|e].
    + destruct E as (Hc & Htx & HK & Hl). split; [done|]. split; [done|]. split; [|done].
      eapply Forall2_three; [exact B1|done|exact HK|exact W2|]. intros q ex c _ _ Hq Hw. unfold file_text in *. simpl in *. by rewrite Hq.
    + destruct E as ((reason & ok & b1 & b2 & ->) & U & Hcfg). split; [by eapply Hverdict|].
      intros Hc old Ho. apply Hcfg; [apply P2; auto|]. by rewrite (Ht _ P2).
  - apply rollback_spec in E as ((ok & b1 & b2 & ->) & U & N & _); [|done]. split; [by eapply Hverdict|].
    intros _ old Ho. unfold file_text. by rewrite N, (Ht _ P2), Ho.
Qed.

Lemma rotation_from target ks new text s0 s r s' : untouched target ks s0 s -> (calm s0 -> calm s) ->
  rotation target ks new text s r s' -> rotation target ks new text s0 r s'.
Proof.
  intros [HK HT] HC. destruct r as [live|e]; [done|].
  assert (HU : untouched target ks s s' -> untouched target ks s0 s').
  { intros [H1 H2]. split; [|by rewrite H2]. apply List.Forall_forall. intros p Hp.
    rewrite (proj1 (List.Forall_forall _ _) H1 p Hp). by apply (proj1 (List.Forall_forall _ _) HK). }
  destruct e; try exact HU. intros [H1 H2]. rewrite HT in H2. split; [|auto]. eapply Forall2_impl_in; [exact H1|].
  intros p c Hp _ [V1 V2]. apply (proj1 (List.Forall_forall _ _) HK) in Hp. unfold rotated_or_kept, file_text in *.
  rewrite Hp in V1, V2. auto.
Qed.

Lemma untouched_frame S target ks {A} (m : step A) s r s' : rframe S m -> m s = (r, s') ->
  (forall q, In q ks \/ q = target -> ~ S q) -> untouched target ks s s'.
Proof.
  intros Hm E HS. split; [apply List.Forall_forall; intros p Hp|]; eapply Hm; try exact E; apply HS; auto.
Qed.

(** The errors of the steps before the first change. *)
Definition early (e : rotate_error) : bool := match e with RotationFailed _ _ _ _ | RestoreFailed _ _ => false | _ => true end.
Definition fails_early {A} (m : step A) : Prop := forall s e s', m s = (Err e, s') -> early e = true.

Lemma early_bind {A B} (m : step A) (k : A -> step B) : fails_early m -> (forall a, fails_early (k a)) -> fails_early (rbind m k).
Proof. intros Hm Hk s e s' E. apply rbind_inv in E as [(a & s1 & _ & E)|(e' & E & [= <-])]; [by eapply Hk|by eapply Hm]. Qed.
Lemma early_ret {A} (a : A) : fails_early (rret a).
Proof. by intros s e s' [= _ _]. Qed.
Lemma early_throw {A} e : early e = true -> fails_early (rthrow (A := A) e).
Proof. by intros He s e' s' [= <- _]. Qed.
Lemma early_file {A} (m : io A) : fails_early (rfile m).
Proof. intros s e s' E. by apply rfile_inv in E as (? & ? & ? & _ & ? & _). Qed.
Lemma early_fail {A} wrap (m : io A) : (forall e, early (wrap e) = true) -> fails_early (rfail wrap m).
Proof. intros Hw. apply early_bind; [apply early_file|]. intros [a|e]; [apply early_ret|by apply early_throw]. Qed.
Lemma early_ask f : fails_early (rask f).
Proof. intros s e s'. unfold rask. by destruct (f s). Qed.
Lemma early_lift {A} (r : result A rotate_error) : (forall e, r = Err e -> early e = true) -> fails_early (rlift r).
Proof. intros Hr s e s' [= -> _]. auto. Qed.

Lemma early_keypair e : generate_reality_keypair = Err e -> early e = true.
Proof.
  unfold generate_reality_keypair. destruct keygen as [text|]; simpl; [|by intros [= <-]].
  destruct (extract_field text "PrivateKey"); simpl; [|by intros [= <-]]. destruct (extract_field text "PublicKey"); simpl; [|by intros [= <-]].
  destruct (Creds.validate_reality_keypair _ _ _ _ _); simpl; [done|by intros [= <-]].
Qed.
Lemma early_candidate cfg keys : fails_early (reality_candidate cfg keys).
Proof.
  unfold reality_candidate. repeat first [ apply early_fail; done | apply early_bind; [|intros ?] ].
  apply early_lift. intros e. destruct (Server.render_server_config_for_deployment _ _ _ _ _ _); simpl; [done|by intros [= <-]].
Qed.
Lemma early_stage tmp text : fails_early (stage_and_check tmp text).
Proof.
  unfold stage_and_check.
  repeat first [ apply early_ret | apply early_throw; done | apply early_file | apply early_bind; [|intros ?] | case_match ].
Qed.
Lemma early_controllable target : fails_early (controllable target).
Proof.
  unfold controllable, unit_controllable, and_then.
  repeat first [ apply early_ret | apply early_ask | apply early_bind; [|intros ?] | case_match ].
Qed.

(** The steps before the first change change nothing. *)
Lemma preflight {A B} S target ks (m : step A) (k : A -> step B) (Q : result B rotate_error -> St -> Prop) s0 s r s' :
  rbind m k s = (r, s') -> untouched target ks s0 s -> (calm s0 -> calm s) ->
  rframe S m -> (forall q, In q ks \/ q = target -> ~ S q) -> rquiet m -> fails_early m ->
  (forall e s1, early e = true -> untouched target ks s0 s1 -> Q (Err e) s1) ->
  (forall a s1, m s = (Ok a, s1) -> untouched target ks s0 s1 -> (calm s0 -> calm s1) -> k a s1 = (r, s') -> Q r s') -> Q r s'.
Proof.
  intros E U0 C0 Hf HS Hq Hearly HE Hk.
  assert (HU : forall r1 s1, m s = (r1, s1) -> untouched target ks s0 s1).
  { intros r1 s1 E1. destruct U0 as [U1 U2], (untouched_frame _ target ks _ _ _ _ Hf E1 HS) as [V1 V2]. split; [|by rewrite V2].
    apply List.Forall_forall. intros p Hp. rewrite (proj1 (List.Forall_forall _ _) V1 p Hp). by apply (proj1 (List.Forall_forall _ _) U1). }
  apply rbind_inv in E as [(a & s1 & E1 & E)|(e & E & ->)].
  - apply (Hk a s1 E1); [by eapply HU|intros Hc; eapply Hq; eauto|exact E].
  - apply HE; [by eapply Hearly|by eapply HU].
Qed.

Lemma staged_elsewhere cfg ext q : ext <> "json" -> In q (key_files cfg) \/ q = singbox_config_file cfg ->
  q <> with_extension (singbox_config_file cfg) ext.
Proof.
  intros Hext [Hq| ->] E.
  - apply (lay_target _ _ (keyset_layout cfg) q Hq). by rewrite E.
  - apply (f_equal name) in E. by injection E as E.
Qed.

(** C13: A rotation of the REALITY key pair is all or nothing.  On success the
    three key files hold the pair and the short id just generated, the
    configuration file holds the configuration rendered for exactly them,
    accepted by [sing-box check], and when the command reports that it went
    live the process runs that configuration (or has stopped since).  On an
    error before the first key file is written, whichever it is, no key file
    and no byte of the configuration has changed.  On a failure after it, each
    key file holds its old content, the new content, or is gone, never a torn
    mixture; and when the file operations of the run succeed, so that the
    failure came from the checker, from either service or from the handshake
    self-test, every key file is back exactly as it was, owner and mode
    included, and so is the text of the configuration. *)
Theorem reality_rotation_atomic cfg s r s' : cmd_reality_rotate cfg s = (r, s') ->
  match r with
  | Ok live => exists private_key public_key short_id doc,
      generate_reality_keypair = Ok (private_key, public_key, short_id) /\
      fst (reality_candidate cfg (private_key, public_key, short_id) s) = Ok doc /\
      rotation (singbox_config_file cfg) (key_files cfg) [private_key; public_key; short_id] (ser_pretty doc) s r s'
  | Err (RotationFailed _ _ _ _) => exists private_key public_key short_id,
      generate_reality_keypair = Ok (private_key, public_key, short_id) /\
      Forall2 (fun p c => rotated_or_kept p c s s') (key_files cfg) [private_key; public_key; short_id] /\
      (calm s -> forall old, K (singbox_config_file cfg) s = Some old -> file_text (singbox_config_file cfg) s' = Some (content old))
  | Err _ => untouched (singbox_config_file cfg) (key_files cfg) s s'
  end.
Proof.
  pose proof (keyset_layout cfg) as Hlay. unfold cmd_reality_rotate. set (target := singbox_config_file cfg) in *. intros E.
  pattern r, s'. match goal with |- ?F r s' => set (Q := F) end.
  assert (HE : forall e s1, early e = true -> untouched target (key_files cfg) s s1 -> Q (Err e) s1) by by intros [] s1.
  assert (U0 : untouched target (key_files cfg) s s) by (split; [by apply List.Forall_forall|done]).
  destruct (negb (binary_exists h)); [injection E as <- <-; by apply HE|].
  eapply (preflight (fun _ => False)); [exact E|exact U0|done|apply rframe_lift|by intros ? ? []|apply rquiet_lift|apply early_lift, early_keypair|exact HE|]. clear E U0.
  intros [[private_key public_key] short_id] s0 [= Hg <-] U0 C0 E.
  eapply (preflight (fun _ => False)); [exact E|exact U0|exact C0|apply reality_candidate_reads|by intros ? ? []|apply reality_candidate_quiet|apply early_candidate|exact HE|].
  clear E U0 C0. intros doc s1 Hdoc U1 C1 E.
  eapply (preflight (fun q => q = with_extension target "rotate-candidate.json"));
    [exact E|exact U1|exact C1|apply stage_and_check_frame|intros q Hq; by apply staged_elsewhere|apply stage_and_check_quiet|apply early_stage|exact HE|].
  clear E U1 C1. intros [] s2 _ U2 C2 E.
  eapply (preflight (fun _ => False)); [exact E|exact U2|exact C2|apply controllable_frame|by intros ? ? []|apply controllable_quiet|apply early_controllable|exact HE|].
  clear E U2 C2. intros ok s3 _ U3 C3 E. destruct ok; simpl negb in E; cbv iota in E; [|injection E as <- <-; by apply HE].
  apply rotate_keyset_spec in E; [|done|done]. apply (rotation_from _ _ _ _ _ _ _ _ U3 C3) in E. destruct r as [live|e].
  - exists private_key, public_key, short_id, doc. by rewrite Hdoc.
  - destruct e; try exact E. destruct E. by exists private_key, public_key, short_id.
Qed.

(** ** Lemmas: the obfuscation password *)

Lemma obfs_layout cfg : layout (singbox_config_file cfg) [hysteria_obfs_password_file cfg].
Proof. apply layout_by_names; [reflexivity|]. intros p [<-|[]] E. by apply append_inj_l in E. Qed.

Lemma obfs_candidate_reads cfg password : rframe (fun _ => False) (obfs_candidate cfg password).
Proof.
  unfold obfs_candidate.
  repeat first [ apply rframe_lift
               | eapply rframe_fail; [|first [apply load_reality_frame|apply AdminUsers.load_users_frame|apply load_hysteria_frame]]; done
               | apply rframe_bind; [|intros ?] ].
Qed.
Lemma obfs_candidate_quiet cfg password : rquiet (obfs_candidate cfg password).
Proof.
  unfold obfs_candidate.
  repeat first [ apply rquiet_lift
               | apply rquiet_fail; first [apply load_reality_quiet|apply AdminUsers.load_users_quiet|apply load_hysteria_quiet]
               | apply rquiet_bind; [|intros ?] ].
Qed.
Lemma early_obfs_candidate cfg password : fails_early (obfs_candidate cfg password).
Proof.
  unfold obfs_candidate. repeat first [ apply early_fail; done | apply early_bind; [|intros ?] ].
  apply early_lift. intros e. destruct (Server.render_server_config_for_deployment _ _ _ _ _ _); simpl; [done|by intros [= <-]].
Qed.

Lemma set_permissions_content p m fs fl r fs' fl' : set_permissions p m fs fl = (r, fs', fl') ->
  option_map content (files fs' !! p) = option_map content (files fs !! p).
Proof.
  unfold set_permissions, syscall, unchanged, on_file. destruct (files fs !! p) as [f|] eqn:Hf.
  - destruct fl as [|[|n] fl]; intros [= _ <- _]; cbn [files put]; rewrite ?insert_here, ?Hf; done.
  - destruct fl as [|[|n] fl]; intros [= _ <- _]; by rewrite Hf.
Qed.
Lemma policy_spec p group s r s' : rfile (X := rotate_error) (apply_restored_file_policy p group) s = (r, s') ->
  (calm s -> calm s') /\ file_text p s' = file_text p s /\ (forall q, q <> p -> K q s' = K q s) /\ exists r0, r = Ok r0.
Proof.
  intros E. pose proof (rquiet_file _ (policy_quiet p group) _ _ _ E) as Hq. apply rfile_inv in E as (r0 & fs & fl & E & -> & Hf & _).
  unfold file_text. rewrite Hf. split; [done|]. split; [|split; [|eauto]].
  - unfold apply_restored_file_policy in E. io_bind E; [|by apply set_permissions_content in E0].
    apply set_permissions_content in E0. rewrite <- E0. destruct (me_uid =? 0); [|by injection E as _ <- _].
    destruct (group_gid group); [by apply chown_content in E|by injection E as _ <- _].
  - intros q Hne. eapply (frame_weaken (fun q => q = p)); [intros ? Hx; exact Hx| |exact E|done].
    unfold apply_restored_file_policy. apply frame_bind; [apply set_permissions_frame|]. intros _.
    repeat case_match; [apply frame_syscall; [done|]; intros; by apply on_file_frame|apply frame_throw|apply frame_ret].
Qed.

Definition obfs_rotation (target p : path) (password text : string) (s : St) (r : result bool rotate_error) (s' : St) : Prop :=
  match r with
  | Ok live => check text = true /\ file_text target s' = Some text /\ file_text p s' = Some password /\
      (live = true -> st_loaded s' = Some text \/ st_loaded s' = None)
  | Err (RotationFailed _ _ _ _) => calm s -> K p s' = K p s /\
      forall old, K target s = Some old -> file_text target s' = Some (content old)
  | Err _ => untouched target [p] s s'
  end.

(** [si]: the state with the new file in place. *)
Lemma obfs_after_install target p password text existed s si r s' :
  layout target [p] -> (calm s -> calm si) -> K target si = K target s ->
  (calm s -> if existed : bool then exists f, K p s = Some f /\ K (rotate_backup_path p) si = Some f else K p s = None) ->
  (file_text p si = Some password /\ swapped target text [(p, existed)] si r s' \/
   rollback target [(p, existed)] false FilePolicy si = (r, s')) ->
  obfs_rotation target p password text s r s'.
Proof.
  intros Hlay Hc Ht Hb Hrun.
  assert (Hback : undone si s' p existed -> calm s -> K p s' = K p s).
  { intros [_ Hu] Hs. specialize (Hu (Hc Hs)). specialize (Hb Hs). destruct existed; [|by rewrite Hu].
    destruct Hb as (f & -> & Hf). by apply Hu. }
  destruct Hrun as [[Hp Hsw]|E].
  - destruct r as [live|e].
    + destruct Hsw as (H1 & H2 & H3 & H4). inversion H3 as [|? ? Hk _]. subst. simpl in Hk. unfold obfs_rotation, file_text in *. rewrite Hk. auto.
    + destruct Hsw as ((reason & ok & b1 & b2 & ->) & HU & Hcfg). inversion HU as [|? ? Hu _]. subst. intros Hs. split; [by apply Hback|].
      intros old Ho. apply Hcfg; [auto|by rewrite Ht].
  - apply rollback_spec in E as ((ok & b1 & b2 & ->) & HU & N & _); [|done]. inversion HU as [|? ? Hu _]. subst. intros Hs.
    split; [by apply Hback|]. intros old Ho. unfold file_text. by rewrite N, Ht, Ho.
Qed.

Lemma exists_step wrap p s r s' : rfail (X := rotate_error) wrap (exists_ p) s = (r, s') ->
  same_files s s' /\ (calm s -> calm s') /\ exists b : bool, r = Ok b /\ (calm s -> b = match K p s with Some _ => true | None => false end).
Proof.
  intros E. pose proof (rquiet_fail wrap _ (exists_quiet p) _ _ _ E) as Hq. apply rfail_rfile in E as (r0 & E & ->).
  apply rfile_inv in E as (r1 & fs & fl & E & [= ->] & Hf & _). apply exists_inv in E as (F & b & -> & _ & Hb).
  split; [intros q; by rewrite Hf, F|]. split; [done|]. exists b. split; [done|]. apply Hb.
Qed.

(** Without a fault the backup is the file, when there was one. *)
Lemma obfs_backup_exact p s0 s s1 s2 existed backup : rfail BackupFailed (exists_ p) s = (Ok existed, s1) -> K p s1 = K p s0 ->
  calm s -> calm s1 -> backed_up s1 s2 p (Deployment.is_some (A := path) backup) ->
  if existed then exists f, K p s0 = Some f /\ K (rotate_backup_path p) s2 = Some f else K p s0 = None.
Proof.
  intros E1 Hp C0 C1 Hback. rewrite <- Hp. apply exists_step in E1 as (F1 & _ & b & [= ->] & Hb).
  rewrite (Hb C0). unfold backed_up in Hback. rewrite F1 in *. destruct (K p s) as [f|]; [|done].
  destruct (Deployment.is_some backup); [|by discriminate (Hback C1)]. destruct Hback as (g & [= <-] & _ & Hg). exists f. auto.
Qed.

Lemma replace_obfs_spec target p password text s0 s r s' : layout target [p] -> untouched target [p] s0 s -> (calm s0 -> calm s) ->
  replace_obfs_password target p password text s = (r, s') -> obfs_rotation target p password text s0 r s'.
Proof.
  intros Hlay U0 C0 E. assert (Hin : In p [p]) by by left. pose proof (lay_target _ _ Hlay p Hin) as Hdir.
  pose proof (lay_tmp _ _ Hlay p p Hin Hin) as [_ Htmp]. pose proof (rotate_backup_ne p) as Hbne.
  pattern r, s'. match goal with |- ?F r s' => set (Q := F) end.
  assert (HE : forall e s1, early e = true -> untouched target [p] s0 s1 -> Q (Err e) s1) by by intros [] s1.
  eapply (preflight (fun _ => False)); [exact E|exact U0|exact C0|eapply rframe_fail, exists_frame; done|by intros ? ? []|apply rquiet_fail, exists_quiet|by apply early_fail|exact HE|].
  clear E U0. intros existed s1 E1 U1 C1 E.
  eapply (preflight (fun q => q = rotate_backup_path p));
    [exact E|exact U1|exact C1|eapply rframe_fail, backup_frame; auto| |apply rquiet_fail, backup_quiet|by apply early_fail|exact HE|].
  { intros q [[<-|[]]| ->]; [by apply not_eq_sym|]. intros ->. by apply Hdir. }
  clear E. intros backup s2 E2 U2 C2 E.
  apply rfail_rfile in E2 as (r2 & E2 & Hr2). destruct r2 as [b2|]; [|discriminate]. injection Hr2 as <-.
  apply backup_step in E2 as (F2 & _ & r3 & [= <-] & Hb). destruct (Hb _ eq_refl) as [Hback Hbn]. clear Hb.
  assert (Hex : calm s0 -> if existed then exists f, K p s0 = Some f /\ K (rotate_backup_path p) s2 = Some f else K p s0 = None).
  { intros Hc. inversion U1 as [Hk _]. inversion Hk. eapply obfs_backup_exact; [exact E1|done|auto..|exact Hback]. }
  apply rbind_inv in E as [(r4 & s3 & E3 & E)|(e & E & _)]; [|by apply install_step in E as (_ & _ & _ & ? & ? & _)].
  apply install_step in E3 as (C3 & _ & F3 & r5 & [= <-] & R3). cbv beta in E.
  assert (Ht3 : K target s3 = K target s0).
  { rewrite F3 by (intros ->; by apply Hdir). apply U2. }
  assert (Hb3 : K (rotate_backup_path p) s3 = K (rotate_backup_path p) s2) by (by apply F3; [|apply not_eq_sym]).
  destruct r4 as [u|e].
  2:{ apply rbind_inv in E as [(u & s4 & E4 & E)|(e4 & E4 & _)]; [|by apply remove_all_loaded in E4 as [_ ?]]. injection E as <- <-.
      pose proof (fun q => remove_all_frame _ _ _ _ q E4) as F4. apply HE; [done|].
      assert (Hkeep : forall q, q <> rotate_backup_path p -> K q s4 = K q s3).
      { intros q Hq. apply F4. destruct Hbn as [-> | ->]; simpl; [by intros []|]. intros [<-|[]]. done. }
      split; [|rewrite Hkeep; [done|intros Hx; apply Hdir; by rewrite Hx]]. constructor; [|constructor].
      rewrite Hkeep by by apply not_eq_sym. rewrite R3. destruct U2 as [Hk _]. by inversion Hk. }
  assert (Hdone : forall s4, (calm s0 -> calm s4) -> K target s4 = K target s0 -> K (rotate_backup_path p) s4 = K (rotate_backup_path p) s2 ->
    (file_text p s4 = Some password /\ swapped target text [(p, existed)] s4 r s' \/
     rollback target [(p, existed)] false FilePolicy s4 = (r, s')) -> obfs_rotation target p password text s0 r s').
  { intros s4 C4 T4 B4 Hrun. eapply obfs_after_install; [done|exact C4|done|rewrite B4; exact Hex|exact Hrun]. }
  destruct existed.
  { apply swap_and_restart_spec in E; [|done]. apply (Hdone s3); auto. }
  apply rbind_inv in E as [(r6 & s4 & E4 & E)|(e & E & _)]; [|by apply policy_spec in E as (_ & _ & _ & ? & ?)].
  apply policy_spec in E4 as (C4 & T4 & F4 & _). cbv beta in E. apply (Hdone s4); [auto|..].
  - rewrite F4; [done|]. intros Hx. apply Hdir. by rewrite Hx.
  - by rewrite F4.
  - destruct r6; [left|by right]. split; [by rewrite T4|]. by apply swap_and_restart_spec in E.
Qed.

(** A rotation of the obfuscation password is all or nothing: on success the
    file holds the generated password and the configuration file what was
    rendered for it and accepted by [sing-box check]; on an error before the
    new file is in place neither has changed; on a later failure of a run
    whose file operations succeed both are back as they were. *)
Theorem obfs_rotation_atomic cfg s r s' : cmd_hysteria_obfs_rotate cfg s = (r, s') ->
  let password := Creds.generate_hysteria2_obfs_password hex_encode obfs_bytes in
  match r with
  | Ok _ => exists s0 doc, same_files s s0 /\ fst (obfs_candidate cfg password s0) = Ok doc /\
      obfs_rotation (singbox_config_file cfg) (hysteria_obfs_password_file cfg) password (ser_pretty doc) s r s'
  | Err _ => exists text, obfs_rotation (singbox_config_file cfg) (hysteria_obfs_password_file cfg) password text s r s'
  end.
Proof.
  pose proof (obfs_layout cfg) as Hlay. cbv zeta. set (password := Creds.generate_hysteria2_obfs_password _ _).
  unfold cmd_hysteria_obfs_rotate. fold password. set (target := singbox_config_file cfg) in *. set (p := hysteria_obfs_password_file cfg) in *. intros E.
  assert (Hin : In p [p]) by by left. pose proof (lay_target _ _ Hlay p Hin) as Hdir.
  pattern r, s'. match goal with |- ?F r s' => set (Q := F) end.
  assert (HE : forall e s1, early e = true -> untouched target [p] s s1 -> Q (Err e) s1) by (intros [] s1 ? HU; try done; by exists EmptyString).
  assert (U0 : untouched target [p] s s) by (split; [by apply List.Forall_forall|done]).
  destruct (negb (binary_exists h)); [injection E as <- <-; by apply HE|].
  assert (Hmk : quiet (create_dir_all umask new_gid (dir p))) by q_io.
  eapply (preflight (fun _ => False)); [exact E|exact U0|done|eapply rframe_fail, create_dir_frame; done|by intros ? ? []|by apply rquiet_fail|by apply early_fail|exact HE|].
  clear E U0. intros [] s0 E0 U0 C0 E.
  assert (S0 : same_files s s0) by (eapply read_only; [eapply rframe_fail, create_dir_frame; done|exact E0]).
  eapply (preflight (fun _ => False)); [exact E|exact U0|exact C0|apply obfs_candidate_reads|by intros ? ? []|apply obfs_candidate_quiet|apply early_obfs_candidate|exact HE|].
  clear E U0 C0. intros doc s1 Hdoc U1 C1 E.
  eapply (preflight (fun q => q = with_extension target "obfs-rotate-candidate.json"));
    [exact E|exact U1|exact C1|apply stage_and_check_frame| |apply stage_and_check_quiet|apply early_stage|exact HE|].
  { intros q [[<-|[]]| ->]; [intros Hx; apply Hdir; by rewrite Hx|by apply (staged_elsewhere cfg); [|right]]. }
  clear E U1 C1. intros [] s2 _ U2 C2 E.
  eapply (preflight (fun _ => False)); [exact E|exact U2|exact C2|apply controllable_frame|by intros ? ? []|apply controllable_quiet|apply early_controllable|exact HE|].
  clear E U2 C2. intros ok s3 _ U3 C3 E. destruct ok; simpl negb in E; cbv iota in E; [|injection E as <- <-; by apply HE].
  assert (HQ : obfs_rotation target p password (ser_pretty doc) s r s' -> Q r s').
  { intros Ho. destruct r; [|by exists (ser_pretty doc)]. exists s0, doc. by rewrite Hdoc. }
  apply HQ. by eapply replace_obfs_spec.
Qed.

(** ** Lemmas: init *)

(** Running [init] again keeps the keys: when a private key is there, no
    rotation is asked for and no file operation fails, no file changes. *)
Theorem init_keeps_existing_keys cfg s r s' : calm s -> K (reality_private_key_file cfg) s <> None ->
  cmd_init cfg false s = (r, s') ->
  same_files s s' /\ match r with
    | Ok o => o = AlreadyInitialised /\ Forall (fun p => K p s <> None) (key_files cfg)
    | Err (InitUnresolved | InitFailed _) => True
    | Err (KeysetIncomplete pub sid) => pub = match K (reality_public_key_file cfg) s with Some _ => true | None => false end /\
        sid = match K (reality_short_id_file cfg) s with Some _ => true | None => false end /\ pub && sid = false
    | Err _ => False
    end.
Proof.
  intros Hc Hp. unfold cmd_init. case_match; [by intros [= <- <-]|]. intros E.
  assert (Hmk : forall d, quiet (create_dir_all umask new_gid d)) by (intros d; q_io).
  match type of E with rbind (rfail _ ?m) _ _ = _ => assert (Hm : frame (fun _ => False) m /\ quiet m) end.
  { split; repeat first [apply frame_bind; [|intros _]|apply quiet_bind; [|intros _]|apply create_dir_frame|apply Hmk]. }
  destruct Hm as [Hm1 Hm2].
  apply rbind_inv in E as [([] & s1 & E1 & E)|(e & E & ->)].
  2:{ split; [eapply read_only; [eapply rframe_fail, Hm1; done|exact E]|]. apply rfail_rfile in E as (r0 & _ & Hr).
      destruct r0; [discriminate|]. by injection Hr as ->. }
  assert (F1 : same_files s s1) by (eapply read_only; [eapply rframe_fail, Hm1; done|exact E1]).
  assert (C1 : calm s1) by (by eapply (rquiet_fail _ _ Hm2)). clear E1.
  apply rbind_inv in E as [(x & s2 & E2 & E)|(e & E & _)]; [|by apply exists_step in E as (_ & _ & ? & ? & _)].
  apply exists_step in E2 as (F2 & C2 & _). specialize (C2 C1).
  apply rbind_inv in E as [(y & s3 & E3 & E)|(e & E & _)]; [|by apply exists_step in E as (_ & _ & ? & ? & _)].
  apply exists_step in E3 as (F3 & C3 & b & [= ->] & Hb). specialize (C3 C2). rewrite F2, F1 in Hb.
  destruct (K (reality_private_key_file cfg) s) as [f|] eqn:Hf; [|done]. rewrite (Hb C2) in E. simpl negb in E. cbv iota in E.
  assert (Hstep : forall p wrap sa (k : bool -> step init_outcome), calm sa -> same_files s sa ->
    rbind (rfail wrap (exists_ p)) k sa = (r, s') ->
    exists sb, calm sb /\ same_files s sb /\ k (match K p s with Some _ => true | None => false end) sb = (r, s')).
  { intros p wrap sa k Ca Fa Ea. apply rbind_inv in Ea as [(b0 & sb & Eb & Ea)|(e & Ea & _)]; [|by apply exists_step in Ea as (_ & _ & ? & ? & _)].
    apply exists_step in Eb as (Fb & Cb & b1 & [= ->] & Hb1). exists sb. rewrite (Hb1 Ca), Fa in Ea. split; [auto|]. split; [|done].
    intros q. by rewrite Fb, Fa. }
  assert (S3 : same_files s s3) by (intros q; by rewrite F3, F2, F1).
  apply Hstep in E as (s4 & C4 & S4 & E); [|done|done].
  assert (Hrest : forall sa, calm sa -> same_files s sa -> forall pub sid,
    pub = match K (reality_public_key_file cfg) s with Some _ => true | None => false end ->
    sid = match K (reality_short_id_file cfg) s with Some _ => true | None => false end -> pub && sid = false ->
    (rev! pub := rfail InitFailed (exists_ (reality_public_key_file cfg)) in
     rev! sid := rfail InitFailed (exists_ (reality_short_id_file cfg)) in rthrow (KeysetIncomplete pub sid)) sa = (r, s') ->
    same_files s s' /\ r = Err (KeysetIncomplete pub sid)).
  { intros sa Ca Sa pub sid Hpub Hsid Hand Ea. apply Hstep in Ea as (sb & Cb & Sb & Ea); [|done|done].
    apply Hstep in Ea as (sc & _ & Sc & Ea); [|done|done]. injection Ea as <- <-. by rewrite Hpub, Hsid. }
  destruct (K (reality_public_key_file cfg) s) as [g|] eqn:Hpub; [|by apply (Hrest _ C4 S4 false _ eq_refl eq_refl eq_refl) in E as [? ->]].
  apply Hstep in E as (s5 & C5 & S5 & E); [|done|done].
  destruct (K (reality_short_id_file cfg) s) as [g'|] eqn:Hsid; [|by apply (Hrest _ C5 S5 true false eq_refl eq_refl eq_refl) in E as [? ->]].
  injection E as <- <-. split; [done|]. split; [done|]. by repeat (apply Forall_cons; split; [congruence|]).
Qed.
End Rotate.

(** ** Concrete runs *)

Definition ex_keygen : option string := Some ("PrivateKey: newkey" +:+ AdminApply.nl +:+ "PublicKey: key").
Definition ex_rotate_disk : FS :=
  {| files := files ex_disk; dirs := <[dir (reality_private_key_file ex_node) := {| d_mode := 488; d_gid := 990 |}]> (dirs ex_disk) |}.
Definition ex_rotate_start (fl : list fault) (l : list svc) : St :=
  {| st_fs := ex_rotate_disk; st_loaded := Some "old"; st_faults := fl; st_svc := l |}.
Definition ex_rotate (s : St) : result bool rotate_error * St :=
  cmd_reality_rotate 0 18 (fun _ => 990) "7" (fun _ => true) Deployment.ex_key (fun _ => "key") (fun _ => "0badc0de") (fun l => l)
    (V := json) ex_print ex_de ex_legacy ex_host ex_keygen [1] ex_node s.
Definition ex_init (s : St) : result init_outcome rotate_error * St :=
  cmd_init 0 18 (fun _ => 990) "7" (fun _ => true) Deployment.ex_key (fun _ => "key") (fun _ => "0badc0de") (fun l => l)
    (V := json) ex_print ex_de ex_legacy ex_host AdminRevision.ex_resolve ex_keygen [1] [2] ex_node false s.
Definition ex_obfs (s : St) : result bool rotate_error * St :=
  cmd_hysteria_obfs_rotate 0 18 (fun _ => 990) "7" (fun _ => true) Deployment.ex_key (fun _ => "key") (fun _ => "0badc0de") (fun l => l)
    (V := json) ex_print ex_de ex_legacy ex_host [2] (fun _ => Some 990) ex_node s.

(** sing-box does not come up on the new keys. *)
Lemma reality_rotation_atomic_witness :
  exists s', ex_rotate (ex_rotate_start [] (repeat yes 7 ++ [no])) = (Err (RotationFailed ReloadSingbox true true true), s') /\
    Forall (fun p => files (st_fs s') !! p = files ex_rotate_disk !! p) (key_files ex_node).
Proof.
  destruct (run_result (ex_rotate (ex_rotate_start [] (repeat yes 7 ++ [no]))) (Err (RotationFailed ReloadSingbox true true true))
    ltac:(vm_compute; reflexivity)) as [s' E].
  exists s'. split; [exact E|]. unfold ex_rotate in E.
  apply reality_rotation_atomic in E as (k1 & k2 & k3 & _ & HF & _).
  inversion HF as [|? ? ? ? [Hp1 _] HF1]. inversion HF1 as [|? ? ? ? [Hp2 _] HF2]. inversion HF2 as [|? ? ? ? [Hp3 _] _].
  repeat apply List.Forall_cons; [apply Hp1|apply Hp2|apply Hp3|apply List.Forall_nil]; reflexivity.
Defined.

Lemma obfs_rotation_atomic_witness :
  exists s', ex_obfs (ex_rotate_start [] []) = (Ok true, s') /\ file_text (hysteria_obfs_password_file ex_node) s' = Some "0badc0de".
Proof.
  destruct (run_result (ex_obfs (ex_rotate_start [] [])) (Ok true) ltac:(vm_compute; reflexivity)) as [s' E].
  exists s'. split; [exact E|]. unfold ex_obfs in E.
  apply obfs_rotation_atomic in E as (s0 & doc & _ & _ & _ & _ & Hp & _).
  exact Hp.
Defined.

Lemma init_keeps_existing_keys_witness :
  exists s', ex_init (ex_rotate_start [] []) = (Ok AlreadyInitialised, s') /\ same_files (ex_rotate_start [] []) s'.
Proof.
  destruct (run_result (ex_init (ex_rotate_start [] [])) (Ok AlreadyInitialised) ltac:(vm_compute; reflexivity)) as [s' E].
  exists s'. split; [exact E|]. unfold ex_init in E.
  apply init_keeps_existing_keys in E as [E _]; [exact E|reflexivity|vm_compute; discriminate].
Defined.

(** ** What the runs show *)

(** A backup that fails halfway is not removed: the attempt removes the
    backups it had finished, and the partial one makes every later rotation
    refuse, whatever it finds. *)
Lemma failed_backup_blocks_rotation :
  let run := ex_rotate (ex_rotate_start (repeat Fine 14 ++ [Fails 1]) []) in
  fst run = Err (BackupFailed Io) /\ file_text (rotate_backup_path (reality_private_key_file ex_node)) (snd run) = Some "k" /\
  st_faults (snd run) = [] /\ fst (ex_rotate (snd run)) = Err (BackupFailed Io).
Proof. vm_compute. auto. Qed.

(** One failed stat of the private key while the backups are made takes it
    for a file that did not exist: a later failure then deletes the key and
    reports that everything was restored. *)
Lemma missed_stat_deletes_live_key :
  let run := ex_rotate (ex_rotate_start (repeat Fine 10 ++ [Fails 1]) (repeat yes 7 ++ [no])) in
  fst run = Err (RotationFailed ReloadSingbox true true true) /\ st_faults (snd run) = [] /\
  file_text (reality_private_key_file ex_node) (ex_rotate_start [] []) = Some "key" /\
  file_text (reality_private_key_file ex_node) (snd run) = None.
Proof. vm_compute. auto. Qed.
End AdminRotate.
