(* ===== verification/AdminRestore.v ===== *)
(** * apps/admin: backup and restore

    main.rs: [stage_backup_contents], [refuse_cross_node_restore] and
    [cmd_restore].  The archive has been read and staged by
    [Archive.extract_validated_backup]; reading the staging directory can fail
    like any other call. *)

From S2P Require Import Prelude Strs Common Net NetText Credentials Grants Json Render Deployment Server ServerPolicy.
From S2P Require Import Store ConfigApply AdminApply AdminSteps Archive AdminUsers AdminRevision AdminRotate.
From Stdlib Require Import Ascii.

Module AdminRestore.
Import Store ConfigApply AdminApply AdminSteps AdminRotate.

(** The accessors of [BACKUP_MANIFEST]. *)
Definition in_hysteria (cfg : Deployment.DeploymentConfig) (n : string) : path := {| dir := hysteria_dir cfg; name := n |}.
Definition manifest_path (cfg : Deployment.DeploymentConfig) (rel : list string) : path :=
  match rel with
  | ["users"; _] => users_file cfg
  | ["hysteria"; n] => in_hysteria cfg n
  | [_; n] => in_dir cfg "reality" n
  | _ => users_file cfg
  end.
Definition users_rel : list string := ["users"; "users.json"].
Definition restore_targets (cfg : Deployment.DeploymentConfig) : list (list string * path) :=
  map (fun rel => (rel, manifest_path cfg rel)) (List.filter (fun rel => negb (Archive.path_eqb rel users_rel)) Archive.BACKUP_MANIFEST).

(** ** Reading the staging directory *)

Definition staged_bytes (st : gmap (list string) Archive.staged) (rel : list string) : option string :=
  match st !! rel with Some (Archive.StagedFile bytes) => Some bytes | _ => None end.
Definition staged_stat (st : gmap (list string) Archive.staged) (rel : list string) : io unit :=
  syscall unchanged (fun fs => (match st !! rel with Some _ => Ok tt | None => Err Io end, fs)).
Definition staged_exists (st : gmap (list string) Archive.staged) (rel : list string) : io bool :=
  do! m := try (staged_stat st rel) in ret (match m with Some _ => true | None => false end).
(** [std::fs::read], [std::fs::read_to_string]. *)
Definition staged_read (st : gmap (list string) Archive.staged) (rel : list string) : io string :=
  syscall unchanged (fun fs => (ok_or (staged_bytes st rel) Io, fs)).
Definition utf8 (text : string) : bool := utf8_valid (map (fun c => Z.of_nat (nat_of_ascii c)) (bytes_of text)).
Definition staged_text (st : gmap (list string) Archive.staged) (rel : list string) : io string :=
  do! bytes := staged_read st rel in if utf8 bytes then ret bytes else throw Io.

(** The group a restored file belongs to. *)
Definition restore_group (rel : list string) : string :=
  if existsb (Archive.path_eqb rel) [["reality"; "public.key"]; ["reality"; "short_id.txt"]; ["reality"; "hysteria_obfs_password.txt"]]
  then "vpn-subscription" else "sing-box".

Section Restore.
Context (me_uid umask : Z) (new_gid : string -> Z) (pid : string) (check : string -> bool).
Context (b64_decode : string -> option (list Z)) (b64_encode : list Z -> string) (sha256_hex : string -> string)
  (mul_base_clamped : list Z -> list Z).
Context {V : Type} `{JsonOps V, !JsonTree V, !JsonEq V}.
Context (ser_pretty ser_compact : V -> string) (de : string -> option V).
Context (ser_users : UsersFile -> string) (de_users : string -> option UsersFile)
  (de_legacy : string -> option (list Grants.CompatUser)) (toml_config : string -> option Deployment.DeploymentConfig).
(** The host while the restored state is applied and while it is rolled back. *)
Context (h h' : Host) (group_gid : string -> option Z).

Local Notation step := (rio rotate_error).
Local Notation policy := (apply_restored_file_policy me_uid group_gid).

(** ** [cmd_backup]: staging *)

Definition copy_if_exists (src dst : path) : io unit :=
  do! there := exists_ src in
  if negb there then ret tt else
  do! _ := create_dir_all umask new_gid (dir dst) in
  copy me_uid umask new_gid src dst.
Fixpoint copy_all (l : list (path * path)) : io unit :=
  match l with [] => ret tt | (src, dst) :: l => do! _ := copy_if_exists src dst in copy_all l end.
(** [dir.join(rel)]. *)
Definition join (d : string) (rel : list string) : path :=
  match rel with
  | [n] => {| dir := d; name := n |}
  | sub :: n :: _ => {| dir := d +:+ "/" +:+ sub; name := n |}
  | [] => {| dir := d; name := EmptyString |}
  end.
Definition stage_backup_contents (cfg : Deployment.DeploymentConfig) (config_path : path) (d : string) : io unit :=
  copy_all ((config_path, join d ["deployment.toml"]) :: map (fun rel => (manifest_path cfg rel, join d rel)) Archive.BACKUP_MANIFEST).

(** ** [cmd_restore]: checks *)

Definition refuse_cross_node_restore (cfg : Deployment.DeploymentConfig) (st : gmap (list string) Archive.staged) : step unit :=
  rev! there := rfail (fun e => RestoreRefused (ArchivedDeploymentUnreadable e)) (staged_exists st ["deployment.toml"]) in
  if negb there then rret tt else
  rev! text := rfail (fun e => RestoreRefused (ArchivedDeploymentUnreadable e)) (staged_text st ["deployment.toml"]) in
  match toml_config text with
  | None => rthrow (RestoreRefused ArchivedDeploymentInvalid)
  | Some archived =>
      if negb (bool_decide (Deployment.role archived = Deployment.role cfg)) then rthrow (RestoreRefused RoleMismatch) else
      if negb (String.eqb (Deployment.node_id archived) "") && negb (String.eqb (Deployment.node_id cfg) "")
         && negb (String.eqb (Deployment.node_id archived) (Deployment.node_id cfg))
      then rthrow (RestoreRefused NodeMismatch) else rret tt
  end.

Definition staged_users (st : gmap (list string) Archive.staged) : step (list Grants.CompatUser) :=
  rev! there := rfail (fun e => RestoreRefused (UsersUnreadable e)) (staged_exists st users_rel) in
  if negb there then rthrow (RestoreRefused NoUsers) else
  rev! bytes := rfail (fun e => RestoreRefused (UsersUnreadable e)) (staged_read st users_rel) in
  rlift (map_err (fun e => RestoreRefused (UsersUnreadable e)) (parse_users_bytes de_users de_legacy bytes)).

Fixpoint require_staged (st : gmap (list string) Archive.staged) (l : list (list string)) : step unit :=
  match l with
  | [] => rret tt
  | rel :: l =>
      rev! there := rfail (fun e => RestoreRefused (KeysUnreadable e)) (staged_exists st rel) in
      if negb there then rthrow (RestoreRefused (KeyPartMissing rel)) else require_staged st l
  end.

Definition check_keyset (st : gmap (list string) Archive.staged) : step unit :=
  rev! there := rfail (fun e => RestoreRefused (KeysUnreadable e)) (staged_exists st ["reality"; "private.key"]) in
  if negb there then rthrow (RestoreRefused NoPrivateKey) else
  rev! _ := require_staged st [["reality"; "public.key"]; ["reality"; "short_id.txt"]] in
  rev! restored_private := rfail (fun e => RestoreRefused (KeysUnreadable e)) (staged_text st ["reality"; "private.key"]) in
  rev! restored_public := rfail (fun e => RestoreRefused (KeysUnreadable e)) (staged_text st ["reality"; "public.key"]) in
  rlift (map_err (fun _ => RestoreRefused KeysIncoherent)
    (Creds.validate_reality_keypair b64_decode b64_encode mul_base_clamped (trim restored_private) (trim restored_public))).

Definition check_tls_pair (st : gmap (list string) Archive.staged) : step unit :=
  rev! cert := rfail (fun e => RestoreRefused (KeysUnreadable e)) (staged_exists st ["hysteria"; "cert.pem"]) in
  rev! key := rfail (fun e => RestoreRefused (KeysUnreadable e)) (staged_exists st ["hysteria"; "key.pem"]) in
  if Bool.eqb cert key then rret tt else rthrow (RestoreRefused TlsHalf).

(** ** [cmd_restore]: the transaction *)

Definition regenerate_singbox_config (cfg : Deployment.DeploymentConfig) (hs : Host) : aio bool :=
  go! users := lift_io LoadFailed (load_users de_users de_legacy (users_file cfg)) in
  render_and_apply_singbox_config me_uid umask new_gid pid check b64_decode b64_encode sha256_hex mul_base_clamped
    ser_pretty ser_compact de cfg users true hs.

Definition restart_subscription (target : path) (otherwise : bool) : step bool :=
  rev! ok := unit_controllable target in
  if (ok : bool) then rask (sub_reload_and_verify target) else rret otherwise.

(** Whether the previous state is back and running. *)
Definition roll_back_restore (cfg : Deployment.DeploymentConfig) (keys : list (path * bool)) : step bool :=
  rev! files_ok := roll_back_files keys in
  rev! applied := embed (regenerate_singbox_config cfg h') in
  rev! sub_ok := restart_subscription (singbox_config_file cfg) (offline_mutation_allowed h) in
  rret (files_ok && is_ok applied && sub_ok).
Definition fail_restore {A} (cfg : Deployment.DeploymentConfig) (keys : list (path * bool)) (why : restore_step) : step A :=
  rev! recovered := roll_back_restore cfg keys in rthrow (RestoreFailed why recovered).

Definition install_target (st : gmap (list string) Archive.staged) (rel : list string) (dest : path) : io unit :=
  do! there := staged_exists st rel in
  if negb there then ret tt else
  do! text := staged_text st rel in
  do! _ := install_rotated_key_file me_uid umask new_gid dest text in
  policy dest (restore_group rel).
Fixpoint install_targets (st : gmap (list string) Archive.staged) (l : list (list string * path)) : io unit :=
  match l with [] => ret tt | (rel, dest) :: l => do! _ := install_target st rel dest in install_targets st l end.
Definition install_all (cfg : Deployment.DeploymentConfig) (st : gmap (list string) Archive.staged) (users : list Grants.CompatUser) : io unit :=
  do! _ := save_users_atomic me_uid umask new_gid pid ser_users (users_file cfg) users in
  do! _ := policy (users_file cfg) "vpn-subscription" in
  do! _ := install_targets st (restore_targets cfg) in
  do! _ := fsync_parent_dir in
  fsync_parent_dir.

Definition restore_dirs (cfg : Deployment.DeploymentConfig) : io unit :=
  do! _ := create_dir_all umask new_gid (dir (reality_private_key_file cfg)) in
  do! _ := create_dir_all umask new_gid (hysteria_dir cfg) in
  create_dir_all umask new_gid (dir (users_file cfg)).

(** The restored files in place: applied, or all back. *)
Definition commit_restore (cfg : Deployment.DeploymentConfig) (keys : list (path * bool)) : step (bool * bool) :=
  let target := singbox_config_file cfg in
  rev! applied := embed (regenerate_singbox_config cfg h) in
  match applied with
  | Err e => fail_restore cfg keys (ApplyingRestored e)
  | Ok went_live =>
      rev! ok := unit_controllable target in
      rev! up := (if (ok : bool) then rask (sub_reload_and_verify target) else rret true) in
      if negb up then fail_restore cfg keys RestartingSubscription else
      rev! _ := remove_all (map (fun k => rotate_backup_path (fst k)) (List.filter snd keys)) in
      rret (went_live, ok)
  end.

(** The files with their flags, in the order they are rolled back. *)
Definition restore_keys (cfg : Deployment.DeploymentConfig) (existed : list bool) : list (path * bool) :=
  combine (map snd (restore_targets cfg)) (tl existed) ++ [(users_file cfg, hd false existed)].

Definition replace_state (cfg : Deployment.DeploymentConfig) (st : gmap (list string) Archive.staged) (users : list Grants.CompatUser) : step (bool * bool) :=
  rev! existed := prepare_backups me_uid umask new_gid (users_file cfg :: map snd (restore_targets cfg)) [] in
  let keys := restore_keys cfg existed in
  rev! installed := rfile (install_all cfg st users) in
  match installed with
  | Err e => fail_restore cfg keys (Installing e)
  | Ok _ => commit_restore cfg keys
  end.

Definition cmd_restore (cfg : Deployment.DeploymentConfig) (archive : option (list (option Archive.tar_entry))) : step (bool * bool) :=
  rev! st := rlift (map_err ArchiveRefused (Archive.extract_validated_backup archive)) in
  rev! restored_users := staged_users st in
  rev! _ := check_keyset st in
  rev! _ := refuse_cross_node_restore cfg st in
  rev! _ := check_tls_pair st in
  rev! ok := controllable h (singbox_config_file cfg) in
  if negb ok then rthrow NotControllable else
  rev! _ := rfail (fun e => RestoreRefused (DirsFailed e)) (restore_dirs cfg) in
  replace_state cfg st restored_users.

(** ** Lemmas: the staging directory *)

Lemma staged_stat_frame S st rel : frame S (staged_stat st rel).
Proof. by apply frame_syscall. Qed.
Lemma staged_exists_frame S st rel : frame S (staged_exists st rel).
Proof. apply frame_bind; [apply frame_try, staged_stat_frame|]. intros ?. apply frame_ret. Qed.
Lemma staged_read_frame S st rel : frame S (staged_read st rel).
Proof. by apply frame_syscall. Qed.
Lemma staged_text_frame S st rel : frame S (staged_text st rel).
Proof. apply frame_bind; [apply staged_read_frame|]. intros ?. case_match; [apply frame_ret|apply frame_throw]. Qed.
Lemma staged_exists_quiet st rel : quiet (staged_exists st rel).
Proof. apply quiet_bind; [apply quiet_try, quiet_syscall|]. intros ?. apply quiet_ret. Qed.
Lemma staged_read_quiet st rel : quiet (staged_read st rel).
Proof. apply quiet_syscall. Qed.
Lemma staged_text_quiet st rel : quiet (staged_text st rel).
Proof. apply quiet_bind; [apply staged_read_quiet|]. intros ?. case_match; [apply quiet_ret|apply quiet_throw]. Qed.

Lemma staged_read_ok st rel fs fl a fs' fl' : staged_read st rel fs fl = (Ok a, fs', fl') -> staged_bytes st rel = Some a /\ fs' = fs.
Proof.
  unfold staged_read. intros E. apply syscall_ok in E as [E _]. injection E as E <-. split; [|done].
  destruct (staged_bytes st rel); [by injection E as ->|discriminate].
Qed.
Lemma staged_text_ok st rel fs fl a fs' fl' : staged_text st rel fs fl = (Ok a, fs', fl') -> staged_bytes st rel = Some a /\ fs' = fs.
Proof.
  unfold staged_text. intros E. io_bind E; [|discriminate]. apply staged_read_ok in E0 as [E0 ->].
  destruct (utf8 a0); [|discriminate]. by injection E as -> -> _.
Qed.
Lemma staged_exists_spec st rel fs fl r fs' fl' : staged_exists st rel fs fl = (r, fs', fl') ->
  fs' = fs /\ exists b, r = Ok b /\ (fl = [] -> b = match st !! rel with Some _ => true | None => false end).
Proof.
  unfold staged_exists, bind, try, staged_stat, syscall, unchanged, ret.
  destruct fl as [|[|n] fl]; destruct (st !! rel); intros [= <- <- _]; (split; [done|]); eexists; (split; [reflexivity|]); done.
Qed.

(** ** Lemmas: the checks change nothing *)

Ltac early_steps :=
  repeat first [ apply early_ret | apply early_throw; done | apply early_fail; done | apply early_bind; [|intros ?] | case_match ].
Ltac quiet_steps :=
  repeat first [ apply rquiet_ret | apply rquiet_throw | apply rquiet_lift
               | apply rquiet_fail; first [apply staged_exists_quiet|apply staged_read_quiet|apply staged_text_quiet]
               | apply rquiet_bind; [|intros ?] | case_match ].
Ltac frame_steps :=
  repeat first [ apply rframe_ret | apply rframe_throw | apply rframe_lift
               | eapply rframe_fail; [intros ? Hq; exact Hq|]; first [apply staged_exists_frame|apply staged_read_frame|apply staged_text_frame]
               | apply rframe_bind; [|intros ?] | case_match ].

Definition harmless {A} (m : step A) : Prop := rframe (fun _ => False) m /\ rquiet m /\ fails_early m.

Lemma staged_users_harmless st : harmless (staged_users st).
Proof.
  unfold staged_users. split; [frame_steps|]. split; [quiet_steps|]. early_steps. apply early_lift. intros e.
  destruct (parse_users_bytes de_users de_legacy _); [discriminate|]. by intros [= <-].
Qed.
Lemma require_staged_harmless st l : harmless (require_staged st l).
Proof.
  induction l as [|rel l (IH1 & IH2 & IH3)]; cbn [require_staged]; [split; [apply rframe_ret|split; [apply rquiet_ret|apply early_ret]]|].
  split; [|split]; [apply rframe_bind|apply rquiet_bind|apply early_bind]; try (intros [|]; simpl; try done);
    [frame_steps|apply rframe_throw|quiet_steps|apply rquiet_throw|early_steps|by apply early_throw].
Qed.
Lemma check_keyset_harmless st : harmless (check_keyset st).
Proof.
  destruct (require_staged_harmless st [["reality"; "public.key"]; ["reality"; "short_id.txt"]]) as (R1 & R2 & R3). unfold check_keyset.
  split; [|split]; [apply rframe_bind|apply rquiet_bind|apply early_bind]; [frame_steps| |quiet_steps| |early_steps|];
    (intros [|]; simpl; [|first [apply rframe_throw|apply rquiet_throw|by apply early_throw]]).
  - apply rframe_bind; [done|]. intros _. frame_steps.
  - apply rquiet_bind; [done|]. intros _. quiet_steps.
  - apply early_bind; [done|]. intros _. early_steps. apply early_lift. intros e.
    destruct (Creds.validate_reality_keypair _ _ _ _ _); [discriminate|]. by intros [= <-].
Qed.
Lemma cross_node_harmless cfg st : harmless (refuse_cross_node_restore cfg st).
Proof. unfold refuse_cross_node_restore. split; [frame_steps|]. split; [quiet_steps|early_steps]. Qed.
Lemma tls_pair_harmless st : harmless (check_tls_pair st).
Proof. unfold check_tls_pair. split; [frame_steps|]. split; [quiet_steps|early_steps]. Qed.

(** ** Lemmas: where things are *)

Definition restore_files (cfg : Deployment.DeploymentConfig) : list path := users_file cfg :: map snd (restore_targets cfg).

Lemma restore_dir cfg p : In p (restore_files cfg) ->
  exists d, dir p = Deployment.state_dir cfg +:+ "/" +:+ d /\ (d = "users" \/ d = "reality" \/ d = "hysteria").
Proof. intros Hp. simpl in Hp. destruct_or! Hp; try done; subst p; eexists; (split; [reflexivity|]); auto. Qed.

Lemma restore_layout cfg : layout (singbox_config_file cfg) (restore_files cfg).
Proof.
  apply layout_by_names; [vm_compute; reflexivity|]. intros p Hp E. apply restore_dir in Hp as (d & Hd & Hc). rewrite Hd in E.
  apply append_inj_l in E. destruct Hc as [-> |[-> | ->]]; discriminate.
Qed.
Lemma restore_not_own cfg p : In p (restore_files cfg) -> ~ own_files cfg p.
Proof.
  intros Hp [E|E]; [by apply (lay_target _ _ (restore_layout cfg) p)|]. apply restore_dir in Hp as (d & Hd & _). rewrite E in Hd.
  simpl in Hd. apply (f_equal slen) in Hd. rewrite !slen_app in Hd. change (slen "/") with 1 in Hd. pose proof (slen_nonneg d). lia.
Qed.

(** ** Lemmas: installing *)

(** The files an install may write. *)
Definition touched (cfg : Deployment.DeploymentConfig) (q : path) : Prop :=
  In q (restore_files cfg) \/ q = tmp_sibling_path pid (users_file cfg) \/ exists p, In p (restore_files cfg) /\ q = install_tmp p.

Lemma target_dir cfg p : In p (map snd (restore_targets cfg)) -> dir p <> dir (users_file cfg).
Proof.
  intros Hp E. simpl in Hp. destruct_or! Hp; try done; subst p; try (unfold in_hysteria, hysteria_dir in E; simpl in E); by apply append_inj_l in E.
Qed.

Lemma backup_untouched cfg p : In p (restore_files cfg) -> ~ touched cfg (rotate_backup_path p).
Proof.
  intros Hp [Hq|[E|(q & Hq & E)]].
  - by eapply (lay_backup _ _ (restore_layout cfg) p).
  - assert (Hd : dir p = dir (users_file cfg)) by by apply (f_equal dir) in E.
    destruct Hp as [<-|Hp]; [|by apply target_dir in Hp].
    apply (f_equal name) in E. by injection E.
  - by eapply (proj2 (lay_tmp _ _ (restore_layout cfg) q p Hq Hp)).
Qed.

Lemma policy_frame p group : frame (fun q => q = p) (policy p group).
Proof.
  unfold apply_restored_file_policy. apply frame_bind; [apply set_permissions_frame|]. intros _.
  repeat case_match; [apply frame_syscall; [done|]; intros; by apply on_file_frame|apply frame_throw|apply frame_ret].
Qed.
Lemma install_key_frame p contents : frame (fun q => q = p \/ q = install_tmp p) (install_rotated_key_file me_uid umask new_gid p contents).
Proof. intros fs fl r fs' fl' q E Hq. apply install_spec in E as [F _]. apply F; tauto. Qed.

(** One target: replaced by what the archive has, or kept. *)
Definition restored_from (st : gmap (list string) Archive.staged) (rel : list string) (p : path) (quiet_run : bool) (fs fs' : FS) : Prop :=
  (files fs' !! p = files fs !! p /\ (quiet_run = true -> st !! rel = None)) \/
  (exists text, staged_bytes st rel = Some text /\ option_map content (files fs' !! p) = Some text).

Definition no_faults (fl : list fault) : bool := match fl with [] => true | _ => false end.

Lemma policy_content p group fs fl r fs' fl' : policy p group fs fl = (r, fs', fl') ->
  option_map content (files fs' !! p) = option_map content (files fs !! p).
Proof.
  unfold apply_restored_file_policy. intros E. io_bind E; [|by apply set_permissions_content in E0].
  apply set_permissions_content in E0. rewrite <- E0. destruct (me_uid =? 0); [|by injection E as _ <- _].
  destruct (group_gid group); [by apply chown_content in E|by injection E as _ <- _].
Qed.

Lemma install_target_frame st rel p : frame (fun q => q = p \/ q = install_tmp p) (install_target st rel p).
Proof.
  unfold install_target. apply frame_bind; [apply staged_exists_frame|]. intros [|]; simpl; [|apply frame_ret].
  apply frame_bind; [apply staged_text_frame|]. intros text. apply frame_bind; [apply install_key_frame|]. intros _.
  eapply frame_weaken, policy_frame. intros q ->. by left.
Qed.
Lemma install_target_ok st rel p fs fl fs' fl' : install_target st rel p fs fl = (Ok tt, fs', fl') ->
  restored_from st rel p (no_faults fl) fs fs'.
Proof.
  unfold install_target, restored_from. intros E. io_bind E; [|discriminate].
  pose proof (staged_exists_spec _ _ _ _ _ _ _ E0) as (-> & b & [= ->] & Hb). destruct b; simpl in E.
  - right. io_bind E; [|discriminate]. apply staged_text_ok in E1 as [E1 ->]. exists a. split; [done|].
    io_bind E; [|discriminate]. apply install_spec in E2 as [_ R2]. apply policy_content in E. by rewrite E.
  - injection E as <- _. left. split; [done|]. intros Hq. destruct fl; [|discriminate]. specialize (Hb eq_refl).
    by destruct (st !! rel).
Qed.

Lemma install_targets_frame st l : frame (fun q => exists p, In p (map snd l) /\ (q = p \/ q = install_tmp p)) (install_targets st l).
Proof.
  induction l as [|[rel p] l IH]; cbn [install_targets]; [apply frame_ret|]. apply frame_bind.
  - eapply frame_weaken, install_target_frame. intros q Hq. exists p. split; [by left|done].
  - intros _. eapply frame_weaken, IH. intros q (x & Hx & Hq). exists x. split; [by right|done].
Qed.
Lemma install_target_quiet st rel p : quiet (install_target st rel p).
Proof.
  unfold install_target. apply quiet_bind; [apply staged_exists_quiet|]. intros [|]; simpl; [|apply quiet_ret].
  apply quiet_bind; [apply staged_text_quiet|]. intros text. apply quiet_bind; [apply install_quiet|]. intros _. apply policy_quiet.
Qed.
Lemma install_targets_quiet st l : quiet (install_targets st l).
Proof. induction l as [|[rel p] l IH]; cbn [install_targets]; [apply quiet_ret|]. apply quiet_bind; [apply install_target_quiet|]. by intros _. Qed.

Lemma no_faults_quiet {A} (m : io A) fs fl r fs' fl' : quiet m -> m fs fl = (r, fs', fl') -> no_faults fl = true -> no_faults fl' = true.
Proof. intros Hm E Hf. destruct fl; [|discriminate]. by apply Hm in E as ->. Qed.

Lemma install_targets_ok target st l fs fl fs' fl' : layout target (map snd l) -> install_targets st l fs fl = (Ok tt, fs', fl') ->
  Forall (fun x => restored_from st (fst x) (snd x) (no_faults fl) fs fs') l.
Proof.
  revert fs fl. induction l as [|[rel p] l IH]; cbn [install_targets]; intros fs fl Hlay E; [constructor|].
  io_bind E; [|discriminate]. destruct a. pose proof (install_target_ok _ _ _ _ _ _ _ E0) as R0.
  pose proof (fun q => install_target_frame _ _ _ _ _ _ _ _ q E0) as F0. pose proof (no_faults_quiet _ _ _ _ _ _ (install_target_quiet _ _ _) E0) as Q0.
  pose proof (fun q => install_targets_frame _ _ _ _ _ _ _ q E) as F1. pose proof Hlay as [Hnd _ _ Ht _]. simpl in Hnd.
  inversion Hnd as [|? ? Hn _]. subst. constructor; simpl.
  - unfold restored_from in *. rewrite F1; [done|]. intros (x & Hx & [-> | ->]); [done|].
    eapply (proj1 (Ht x _ (or_intror Hx) (or_introl eq_refl))); reflexivity.
  - pose proof (IH _ _ (layout_cons _ _ _ Hlay) E) as Hall. apply List.Forall_forall. intros [rel' p'] Hin.
    apply (proj1 (List.Forall_forall _ _) Hall) in Hin as Hr. apply (in_map snd) in Hin. simpl in *. unfold restored_from in *.
    rewrite F0 in Hr; [|intros [-> | ->]; [done|]; eapply (proj1 (Ht p _ (or_introl eq_refl) (or_intror Hin))); reflexivity].
    destruct Hr as [[H1 H2]|Hr]; [left; auto|by right].
Qed.

Lemma save_frame p us : frame (fun q => q = p \/ q = tmp_sibling_path pid p) (save_users_atomic me_uid umask new_gid pid ser_users p us).
Proof. intros fs fl r fs' fl' q E Hq. apply save_spec in E as [F _]. apply F; tauto. Qed.
Lemma save_quiet p us : quiet (save_users_atomic me_uid umask new_gid pid ser_users p us).
Proof.
  unfold save_users_atomic, write_file_mode, open_truncate, set_permissions, write_all, sync_all, preserve_ownership_before_rename, metadata,
    dir_metadata, chown, rename, fsync_parent_dir, create_dir_all, set_dir_mode_0750.
  repeat first [ apply quiet_ret | apply quiet_throw | apply quiet_syscall | apply quiet_try | apply quiet_bind; [|intros ?] | case_match ].
Qed.
Lemma fsync_quiet : quiet fsync_parent_dir.
Proof. unfold fsync_parent_dir. apply quiet_bind; [apply quiet_try, quiet_syscall|]. intros ?. apply quiet_ret. Qed.

Lemma install_all_frame cfg st us : frame (touched cfg) (install_all cfg st us).
Proof.
  unfold install_all, touched. apply frame_bind.
  { eapply frame_weaken, save_frame. intros q [-> | ->]; [left; by left|auto]. }
  intros _. apply frame_bind; [eapply frame_weaken, policy_frame; intros q ->; left; by left|]. intros _. apply frame_bind.
  - eapply frame_weaken, install_targets_frame. intros q (p & Hp & [-> | ->]); [left; by right|]. right. right. exists p. split; [by right|done].
  - intros _. apply frame_bind; [apply fsync_frame|]. intros _. apply fsync_frame.
Qed.
Lemma install_all_quiet cfg st us : quiet (install_all cfg st us).
Proof.
  apply quiet_bind; [apply save_quiet|]. intros _. apply quiet_bind; [apply policy_quiet|]. intros _.
  apply quiet_bind; [apply install_targets_quiet|]. intros _. apply quiet_bind; [apply fsync_quiet|]. intros _. apply fsync_quiet.
Qed.

Lemma install_all_ok cfg st us fs fl fs' fl' : install_all cfg st us fs fl = (Ok tt, fs', fl') ->
  option_map content (files fs' !! users_file cfg) = Some (ser_users (envelope us)) /\
  Forall (fun x => restored_from st (fst x) (snd x) (no_faults fl) fs fs') (restore_targets cfg).
Proof.
  pose proof (restore_layout cfg) as Hlay. unfold install_all. intros E.
  io_bind E; [|discriminate]. pose proof (no_faults_quiet _ _ _ _ _ _ (save_quiet _ _) E0) as Q0.
  apply save_spec in E0 as [F0 (f & Hf & Hc & _)].
  io_bind E; [|discriminate]. pose proof (no_faults_quiet _ _ _ _ _ _ (policy_quiet _ _ _ _) E0) as Q1.
  pose proof (fun q => policy_frame _ _ _ _ _ _ _ q E0) as F1. apply policy_content in E0.
  io_bind E; [|discriminate]. destruct a1. pose proof (fun q => install_targets_frame _ _ _ _ _ _ _ q E1) as F2.
  apply (install_targets_ok (singbox_config_file cfg)) in E1; [|by eapply layout_cons].
  assert (Hs : files fs' = files fs2).
  { io_bind E; [|discriminate]. etransitivity; [eapply frame_all; [apply fsync_frame|exact E]|eapply frame_all; [apply fsync_frame|exact E2]]. }
  rewrite Hs. pose proof Hlay as [Hnd _ _ Ht _]. inversion Hnd as [|? ? Hn _]. subst. split.
  - rewrite F2, E0, Hf, <- Hc; [done|]. intros (p & Hp & [E2|E2]); [by rewrite E2 in Hn|].
    by apply (proj1 (Ht p (users_file cfg) (or_intror Hp) (or_introl eq_refl))).
  - apply List.Forall_forall. intros [rel p] Hin. apply (proj1 (List.Forall_forall _ _) E1) in Hin as Hr. apply (in_map snd) in Hin.
    simpl fst in *. simpl snd in *. unfold restored_from in *. rewrite Hs.
    rewrite F1 in Hr by (intros ->; done). rewrite F0 in Hr; [|intros ->; done|].
    + destruct Hr as [[H1 H2]|Hr]; [left; auto|by right].
    + intros ->. by apply target_dir in Hin.
Qed.

(** ** Lemmas: an apply consumes no faults when there are none *)

Definition aquiet {A} (m : aio A) : Prop := forall s r s', m s = (r, s') -> calm s -> calm s'.

Lemma aquiet_ret {A} (a : A) : aquiet (aret a).
Proof. by intros s r s' [= <- <-]. Qed.
Lemma aquiet_throw {A} e : aquiet (athrow (A := A) e).
Proof. by intros s r s' [= <- <-]. Qed.
Lemma aquiet_bind {A B} (m : aio A) (k : A -> aio B) : aquiet m -> (forall a, aquiet (k a)) -> aquiet (abind m k).
Proof.
  intros Hm Hk s r s' E Hc. apply abind_inv in E as [(a & s1 & E1 & E)|(e & E & _)]; [|by eapply Hm].
  eapply Hk; [exact E|]. by eapply Hm.
Qed.
Lemma aquiet_result {A} (m : io A) : quiet m -> aquiet (lift_result m).
Proof.
  intros Hm s r s' E Hc. apply lift_result_inv in E as (r0 & fs & fl & E & _ & ->). unfold calm in *. rewrite Hc in E. simpl. by eapply Hm.
Qed.
Lemma aquiet_io {A} wrap (m : io A) : quiet m -> aquiet (lift_io wrap m).
Proof. intros Hm. apply aquiet_bind; [by apply aquiet_result|]. intros [a|e]; [apply aquiet_ret|apply aquiet_throw]. Qed.
Lemma aquiet_ask target f : (forall s b s', f s = (b, s') -> settles target s s') -> aquiet (ask f).
Proof. intros Hf s r s' E Hc. apply ask_inv in E as (b & E & _). apply Hf in E. by eapply settled_calm. Qed.

Lemma secret_quiet p contents : quiet (write_secret_file me_uid umask new_gid p contents).
Proof. apply quiet_bind; [apply quiet_syscall|]. intros _. apply quiet_bind; [apply quiet_syscall|]. intros _. apply quiet_syscall. Qed.
Lemma stamp_quiet target fp : quiet (commit_applied_config_stamp me_uid umask new_gid pid target fp).
Proof.
  apply quiet_bind; [apply secret_quiet|]. intros _. apply quiet_bind; [apply quiet_syscall|]. intros _. apply fsync_quiet.
Qed.

Ltac apply_quiet_with known :=
  repeat first
    [ known | apply aquiet_ret | apply aquiet_throw
    | eapply aquiet_ask; intros ? ? ?; first [apply is_available_settles|apply is_unit_installed_settles|apply reload_and_verify_spec|apply is_active_spec]
    | apply aquiet_io; first [apply apply_config_quiet|apply stamp_quiet|apply load_hysteria_quiet|apply AdminUsers.load_users_quiet]
    | apply aquiet_result; first [apply quiet_syscall|apply exists_quiet|apply copy_quiet|apply secret_quiet|apply remove_quiet|apply load_reality_quiet]
    | apply aquiet_bind; [|intros ?] | case_match ].
Ltac apply_quiet := apply_quiet_with fail.

Lemma recover_quiet target : aquiet (recover me_uid umask new_gid target).
Proof. unfold recover, and_also. apply_quiet. Qed.
Lemma note_quiet cfg b : aquiet (note_capability_restart me_uid umask new_gid sha256_hex cfg b).
Proof. unfold note_capability_restart. apply_quiet. Qed.
Lemma write_and_reload_quiet cfg doc strict cr hs :
  aquiet (write_and_reload me_uid umask new_gid pid check sha256_hex ser_pretty ser_compact cfg doc strict cr hs).
Proof.
  unfold write_and_reload, reload_and_commit. apply_quiet_with ltac:(first [apply recover_quiet|apply note_quiet]).
Qed.
Lemma regenerate_quiet cfg hs : aquiet (regenerate_singbox_config cfg hs).
Proof.
  unfold regenerate_singbox_config, render_and_apply_singbox_config, render_and_apply_singbox_config_with, apply_document,
    target_already_matches, applied_stamp_matches, caps_restart_due, peek, and_also, read_file.
  apply_quiet_with ltac:(apply write_and_reload_quiet).
Qed.
Lemma regenerate_frame cfg hs : aframe (own_files cfg) (regenerate_singbox_config cfg hs).
Proof.
  apply aframe_bind; [apply aframe_lift_io; eapply frame_weaken, AdminUsers.load_users_frame; done|]. intros us. apply render_and_apply_frame.
Qed.

(** ** Lemmas: going back *)

Local Notation K p s := (files (st_fs s) !! p).

Lemma sub_layout target ks ks' : (forall p, In p ks' -> In p ks) -> List.NoDup ks' -> layout target ks -> layout target ks'.
Proof. intros Hin Hnd [_ H1 H2 H3 H4]. constructor; auto. Qed.

Lemma restore_keys_paths cfg existed : length existed = length (restore_files cfg) ->
  map fst (restore_keys cfg existed) = map snd (restore_targets cfg) ++ [users_file cfg].
Proof.
  intros Hl. unfold restore_keys. rewrite map_app. simpl map at 2. rewrite fst_combine; [done|]. destruct existed as [|b l]; [discriminate|]. unfold restore_files in Hl. simpl length in *. simpl tl. lia.
Qed.
Lemma restore_keys_layout cfg existed : length existed = length (restore_files cfg) -> layout (singbox_config_file cfg) (map fst (restore_keys cfg existed)).
Proof.
  intros Hl. rewrite restore_keys_paths by done. eapply sub_layout, restore_layout.
  - intros p Hp. apply in_app_or in Hp as [Hp|[<-|[]]]; [by right|by left].
  - apply NoDup_ListNoDup. rewrite (Permutation_app_comm _ [_]). simpl. apply NoDup_ListNoDup. apply (lay_nodup _ _ (restore_layout cfg)).
Qed.
Lemma restore_keys_in cfg existed p ex : In (p, ex) (restore_keys cfg existed) -> In p (restore_files cfg).
Proof. intros Hp. apply in_app_or in Hp as [Hp|[[= <- _]|[]]]; [apply in_combine_l in Hp; by right|by left]. Qed.

Lemma restart_subscription_frame S target b : rframe S (restart_subscription target b).
Proof.
  unfold restart_subscription, unit_controllable, and_then.
  repeat first [ apply rframe_ret | apply ask_available_frame | apply ask_installed_frame | apply ask_subscription_frame
               | apply rframe_bind; [|intros ?] | case_match ].
Qed.

Lemma restart_subscription_total target b s : exists b' s', restart_subscription target b s = (Ok b', s').
Proof.
  unfold restart_subscription, unit_controllable, and_then, rbind, rask, rret. destruct (is_available target s) as [[] s1]; [|eauto].
  destruct (is_unit_installed target s1) as [[] s2]; [|eauto]. destruct (sub_reload_and_verify target s2). eauto.
Qed.

Lemma backup_not_own cfg p : In p (restore_files cfg) -> ~ own_files cfg (rotate_backup_path p).
Proof.
  intros Hp [E|E]; [by apply (restore_not_own cfg p Hp); left|]. apply restore_dir in Hp as (d & Hd & _).
  apply (f_equal dir) in E. simpl in E. rewrite Hd in E. apply (f_equal slen) in E. rewrite !slen_app in E.
  change (slen "/") with 1 in E. pose proof (slen_nonneg d). lia.
Qed.

Lemma fail_restore_spec {A} cfg existed why s (r : result A rotate_error) s' : length existed = length (restore_files cfg) ->
  fail_restore cfg (restore_keys cfg existed) why s = (r, s') ->
  (exists b, r = Err (RestoreFailed why b)) /\ Forall (fun k => undone s s' (fst k) (snd k)) (restore_keys cfg existed).
Proof.
  intros Hl E. pose proof (restore_keys_layout cfg existed Hl) as Hlay. unfold fail_restore, roll_back_restore in E.
  apply rbind_inv in E as [(b & s4 & E4 & E)|(e & E & _)].
  - injection E as <- <-. split; [eauto|].
    apply rbind_inv in E4 as [(b1 & s1 & E1 & E4)|(e & E4 & _)]; [|by apply (roll_back_files_spec (singbox_config_file cfg)) in E4 as ([? ?] & _)].
    apply (roll_back_files_spec (singbox_config_file cfg)) in E1 as (_ & _ & HU & _); [|done].
    assert (Hrest : forall q, ~ own_files cfg q -> K q s4 = K q s1).
    { intros q Hq. eapply (use_frame (own_files cfg)); [exact E4| |done]. apply rframe_bind; [by eapply rframe_embed, regenerate_frame|].
      intros ?. apply rframe_bind; [apply restart_subscription_frame|]. intros ?. apply rframe_ret. }
    apply List.Forall_forall. intros [p ex] Hin. apply (proj1 (List.Forall_forall _ _) HU) in Hin as Hu. apply restore_keys_in in Hin.
    simpl in *. unfold undone in *. by rewrite Hrest by by apply restore_not_own.
  - exfalso. apply rbind_inv in E as [(b1 & s1 & _ & E)|(e' & E & _)]; [|by apply (roll_back_files_spec (singbox_config_file cfg)) in E as ([? ?] & _)].
    apply rbind_inv in E as [(r2 & s2 & _ & E)|(e2 & E & _)]; [|unfold embed in E; by destruct (regenerate_singbox_config cfg h' s1)].
    apply rbind_inv in E as [(b3 & s3 & _ & E)|(e3 & E & _)]; [discriminate|].
    destruct (restart_subscription_total (singbox_config_file cfg) (offline_mutation_allowed h) s2) as (b3 & s3 & E3). by rewrite E3 in E.
Qed.

(** ** Lemmas: the transaction *)

Definition restore_result (cfg : Deployment.DeploymentConfig) (st : gmap (list string) Archive.staged) (us : list Grants.CompatUser) (s : St)
  (r : result (bool * bool) rotate_error) (s' : St) : Prop :=
  match r with
  | Ok _ => file_text (users_file cfg) s' = Some (ser_users (envelope us)) /\
      Forall (fun x => restored_from st (fst x) (snd x) (no_faults (st_faults s)) (st_fs s) (st_fs s')) (restore_targets cfg)
  | Err (RestoreFailed _ _) => calm s -> Forall (fun p => K p s' = K p s) (restore_files cfg)
  | Err _ => untouched (singbox_config_file cfg) (restore_files cfg) s s'
  end.

Lemma Forall2_combine {A B} (P : A -> B -> Prop) l k : Forall2 P l k -> Forall (fun x => P (fst x) (snd x)) (combine l k).
Proof. induction 1; simpl; [apply List.Forall_nil|by apply List.Forall_cons]. Qed.
Lemma keys_backed (P : path -> bool -> Prop) cfg existed : Forall2 P (restore_files cfg) existed ->
  Forall (fun k => P (fst k) (snd k)) (restore_keys cfg existed).
Proof.
  intros HP. unfold restore_files in HP. inversion HP as [|u e ts rest Hu Hts]. subst. unfold restore_keys. simpl tl. simpl hd.
  apply Forall_app. split; [by apply Forall2_combine|]. apply List.Forall_cons; [done|apply List.Forall_nil].
Qed.
Lemma keys_cover cfg existed p : length existed = length (restore_files cfg) -> In p (restore_files cfg) -> exists ex, In (p, ex) (restore_keys cfg existed).
Proof.
  intros Hl Hp. assert (Hin : In p (map fst (restore_keys cfg existed))).
  { rewrite restore_keys_paths by done. apply in_or_app. destruct Hp as [<-|Hp]; [right; by left|by left]. }
  apply in_map_iff in Hin as ([q ex] & <- & Hin). by exists ex.
Qed.

(** A failure in a state [s2] that kept the backups of [s1]. *)
Lemma failed_restore cfg st us existed why s s1 s2 r s' : Forall2 (backed_up s s1) (restore_files cfg) existed ->
  (forall p, In p (restore_files cfg) -> K (rotate_backup_path p) s2 = K (rotate_backup_path p) s1) -> (calm s -> calm s2) ->
  fail_restore cfg (restore_keys cfg existed) why s2 = (r, s') -> restore_result cfg st us s r s'.
Proof.
  intros HB HK HC E. pose proof (Forall2_length _ _ _ HB) as Hl. symmetry in Hl.
  apply fail_restore_spec in E as [[b ->] HU]; [|done]. intros Hs. apply List.Forall_forall. intros p Hp.
  destruct (keys_cover cfg existed p Hl Hp) as [ex Hin]. apply keys_backed in HB.
  apply (proj1 (List.Forall_forall _ _) HB) in Hin as Hb. apply (proj1 (List.Forall_forall _ _) HU) in Hin. simpl in *.
  eapply undo_exact; [exact Hb|by apply HK|exact Hin|done|auto].
Qed.

Lemma restored_from_same st rel p b fs fs1 fs2 fs3 : files fs1 !! p = files fs !! p -> files fs3 !! p = files fs2 !! p ->
  restored_from st rel p b fs1 fs2 -> restored_from st rel p b fs fs3.
Proof. unfold restored_from. by intros -> ->. Qed.
Lemma restored_from_calm st rel p (b b' : bool) fs fs' : (b' = true -> b = true) -> restored_from st rel p b fs fs' -> restored_from st rel p b' fs fs'.
Proof. intros Hb [[H1 H2]|Hr]; [left; auto|by right]. Qed.

Lemma commit_restore_spec cfg st us existed s s1 s2 r s' : Forall2 (backed_up s s1) (restore_files cfg) existed ->
  (forall p, In p (restore_files cfg) -> K (rotate_backup_path p) s2 = K (rotate_backup_path p) s1) -> (calm s -> calm s2) ->
  commit_restore cfg (restore_keys cfg existed) s2 = (r, s') ->
  restore_result cfg st us s r s' \/ (exists ok, r = Ok ok) /\ forall p, In p (restore_files cfg) -> K p s' = K p s2.
Proof.
  intros HB HK HC E. pose proof (Forall2_length _ _ _ HB) as Hl. symmetry in Hl. unfold commit_restore in E.
  apply rbind_inv in E as [(applied & s3 & E3 & E)|(e & E & _)]; [|unfold embed in E; by destruct (regenerate_singbox_config cfg h s2)].
  assert (F3 : forall q, ~ own_files cfg q -> K q s3 = K q s2) by (intros q Hq; by eapply rframe_embed; [|apply regenerate_frame|exact E3|]).
  assert (C3 : calm s2 -> calm s3).
  { unfold embed in E3. destruct (regenerate_singbox_config cfg h s2) as [r3 s3'] eqn:Er. injection E3 as _ <-. by eapply regenerate_quiet. }
  cbv beta in E. destruct applied as [went_live|e].
  2:{ left. eapply failed_restore; [exact HB| | |exact E]; [|auto]. intros p Hp. rewrite F3 by by apply backup_not_own. by apply HK. }
  apply rbind_inv in E as [(ok & s4 & E4 & E)|(e & E & _)].
  2:{ destruct (unit_controllable_total (singbox_config_file cfg) s3) as (? & ? & Et). by rewrite Et in E. }
  assert (F4 : same_files s3 s4) by (eapply read_only; [apply unit_controllable_frame|exact E4]).
  pose proof (unit_controllable_quiet _ _ _ _ E4) as C4. cbv beta in E.
  apply rbind_inv in E as [(up & s5 & E5 & E)|(e & E & _)].
  2:{ destruct ok; [|discriminate]. unfold rask in E. by destruct (sub_reload_and_verify (singbox_config_file cfg) s4). }
  assert (F5 : same_files s4 s5) by (eapply read_only; [|exact E5]; destruct ok; [apply ask_subscription_frame|apply rframe_ret]).
  assert (C5 : calm s4 -> calm s5).
  { destruct ok; [|by injection E5 as _ <-]. unfold rask in E5. destruct (sub_reload_and_verify _ s4) as [b5 s5'] eqn:Es.
    injection E5 as _ <-. by eapply settled_calm, sub_reload_settles. }
  cbv beta in E. destruct up; simpl negb in E; cbv iota in E.
  - right. apply rbind_inv in E as [(u & s6 & E6 & E)|(e & E & _)]; [|by apply remove_all_loaded in E as [_ ?]]. injection E as <- <-.
    split; [eauto|]. intros p Hp. rewrite <- F3 by by apply restore_not_own. rewrite <- F4, <- F5. eapply remove_all_frame; [exact E6|].
    intros Hin. apply in_map_iff in Hin as ([q ex] & Hq & Hin). apply filter_In in Hin as [Hin _]. apply restore_keys_in in Hin.
    by eapply (lay_backup _ _ (restore_layout cfg) q p Hin Hp).
  - left. eapply failed_restore; [exact HB| | |exact E]; [|auto]. intros p Hp. rewrite F5, F4, F3 by by apply backup_not_own. by apply HK.
Qed.

Lemma replace_state_spec cfg st us s r s' : replace_state cfg st us s = (r, s') -> restore_result cfg st us s r s'.
Proof.
  intros E. pose proof (restore_layout cfg) as Hlay. apply rbind_inv in E as [(existed & s1 & E1 & E)|(e & E & ->)].
  2:{ fold (restore_files cfg) in E. apply (prepare_untouched _ _ _ _ _ _ _ _ Hlay) in E as [(e' & ->) HU]. exact HU. }
  fold (restore_files cfg) in E1. eapply prepare_spec in E1 as (B1 & C1 & F1); [|exact Hlay]. cbv beta zeta in E.
  assert (S1 : forall p, In p (restore_files cfg) -> K p s1 = K p s)
    by (intros p Hp; apply F1; intros q Hq; by apply not_eq_sym, (lay_backup _ _ Hlay)).
  apply rbind_inv in E as [(installed & s2 & E2 & E)|(e & E & _)]; [|by apply rfile_inv in E as (? & ? & ? & _ & ? & _)].
  pose proof (rquiet_file _ (install_all_quiet cfg st us) _ _ _ E2) as C2.
  apply rfile_inv in E2 as (r2 & fs & fl & E2 & [= <-] & Hf & _). cbv beta in E.
  assert (HK : forall p, In p (restore_files cfg) -> K (rotate_backup_path p) s2 = K (rotate_backup_path p) s1).
  { intros p Hp. rewrite Hf. eapply install_all_frame; [exact E2|]. by apply backup_untouched. }
  destruct installed as [[]|e].
  2:{ eapply failed_restore; [exact B1|exact HK|auto|exact E]. }
  apply install_all_ok in E2 as [Hu Ht].
  eapply (commit_restore_spec cfg st us) in E as [E|[[ok ->] FK]]; [exact E| |exact B1|exact HK|auto].
  unfold restore_result, file_text. rewrite FK by by left. rewrite Hf. split; [done|].
  apply List.Forall_forall. intros x Hin. apply (proj1 (List.Forall_forall _ _) Ht) in Hin as Hx.
  assert (Hp : In (snd x) (restore_files cfg)) by (right; by apply in_map).
  eapply restored_from_same; [by apply S1|rewrite FK by done; by rewrite Hf|]. eapply restored_from_calm; [|exact Hx].
  intros Hq. unfold calm in C1. destruct (st_faults s); [by rewrite C1|discriminate].
Qed.

(** ** Lemmas: what the checks have seen *)

Lemma rfail_read wrap st rel s a s' : rfail (X := rotate_error) wrap (staged_read st rel) s = (Ok a, s') -> staged_bytes st rel = Some a.
Proof.
  intros E. apply rfail_rfile in E as (r0 & E & Hr). destruct r0; [|discriminate]. injection Hr as <-.
  apply rfile_inv in E as (r1 & fs & fl & E & [= <-] & _). by apply staged_read_ok in E as [? _].
Qed.
Lemma rfail_text wrap st rel s a s' : rfail (X := rotate_error) wrap (staged_text st rel) s = (Ok a, s') -> staged_bytes st rel = Some a.
Proof.
  intros E. apply rfail_rfile in E as (r0 & E & Hr). destruct r0; [|discriminate]. injection Hr as <-.
  apply rfile_inv in E as (r1 & fs & fl & E & [= <-] & _). by apply staged_text_ok in E as [? _].
Qed.
Lemma rfail_exists wrap st rel s b s' : rfail (X := rotate_error) wrap (staged_exists st rel) s = (Ok b, s') -> calm s ->
  b = match st !! rel with Some _ => true | None => false end.
Proof.
  intros E Hc. apply rfail_rfile in E as (r0 & E & Hr). destruct r0 as [b0|]; [|discriminate]. injection Hr as <-.
  apply rfile_inv in E as (r1 & fs & fl & E & [= <-] & _). apply staged_exists_spec in E as (_ & b1 & [= <-] & Hb). auto.
Qed.
Tactic Notation "step_ok" hyp(E) ident(x) ident(s1) ident(Ex) := apply rbind_inv in E as [(x & s1 & Ex & E)|(? & _ & E)]; [|discriminate]; cbv beta in E.

Lemma staged_users_ok st s us s' : staged_users st s = (Ok us, s') ->
  exists bytes, staged_bytes st users_rel = Some bytes /\ parse_users_bytes de_users de_legacy bytes = Ok us.
Proof.
  intros E. unfold staged_users in E. step_ok E there s1 E1. destruct there; [|discriminate]. simpl negb in E. cbv iota in E.
  step_ok E bytes s2 E2. apply rfail_read in E2. injection E as E _. exists bytes. split; [done|].
  destruct (parse_users_bytes de_users de_legacy bytes); [by injection E as ->|discriminate].
Qed.
Lemma check_keyset_ok st s s' : check_keyset st s = (Ok tt, s') ->
  exists private public, staged_bytes st ["reality"; "private.key"] = Some private /\ staged_bytes st ["reality"; "public.key"] = Some public /\
    is_ok (Creds.validate_reality_keypair b64_decode b64_encode mul_base_clamped (trim private) (trim public)) = true.
Proof.
  intros E. unfold check_keyset in E. step_ok E there s1 E1. destruct there; [|discriminate]. simpl negb in E. cbv iota in E.
  step_ok E u s2 E2. step_ok E private s3 E3. step_ok E public s4 E4. apply rfail_text in E3, E4. injection E as E _.
  exists private, public. split; [done|]. split; [done|]. by destruct (Creds.validate_reality_keypair _ _ _ _ _).
Qed.
Lemma cross_node_ok cfg st s s' : refuse_cross_node_restore cfg st s = (Ok tt, s') -> calm s ->
  forall node, st !! ["deployment.toml"] = Some node -> exists text archived, staged_bytes st ["deployment.toml"] = Some text /\
    toml_config text = Some archived /\ Deployment.role archived = Deployment.role cfg /\
    (Deployment.node_id archived = "" \/ Deployment.node_id cfg = "" \/ Deployment.node_id archived = Deployment.node_id cfg).
Proof.
  intros E Hc node Hn. unfold refuse_cross_node_restore in E. step_ok E there s1 E1. apply rfail_exists in E1; [|done]. rewrite Hn in E1. subst there.
  simpl negb in E. cbv iota in E. step_ok E text s2 E2. apply rfail_text in E2. destruct (toml_config text) as [archived|] eqn:Ht; [|discriminate].
  destruct (bool_decide_reflect (Deployment.role archived = Deployment.role cfg)); [|discriminate]. simpl negb in E. cbv iota in E.
  exists text, archived. split; [done|]. split; [done|]. split; [done|].
  destruct (String.eqb_spec (Deployment.node_id archived) ""); [auto|]. destruct (String.eqb_spec (Deployment.node_id cfg) ""); [auto|].
  destruct (String.eqb_spec (Deployment.node_id archived) (Deployment.node_id cfg)); [auto|]. discriminate.
Qed.

Lemma restore_dirs_frame cfg : frame (fun _ => False) (restore_dirs cfg).
Proof. repeat first [apply create_dir_frame|apply frame_bind; [|intros _]]. Qed.
Lemma restore_dirs_quiet cfg : quiet (restore_dirs cfg).
Proof. repeat first [apply create_dir_quiet|apply quiet_bind; [|intros _]]. Qed.

Lemma restore_result_from cfg st us s0 s r s' : untouched (singbox_config_file cfg) (restore_files cfg) s0 s -> (calm s0 -> calm s) ->
  restore_result cfg st us s r s' -> restore_result cfg st us s0 r s'.
Proof.
  intros [HK HT] HC. assert (HK' : forall p, In p (restore_files cfg) -> K p s = K p s0) by (by apply List.Forall_forall).
  destruct r as [ok|e].
  - intros [Hu Ht]. split; [done|]. apply List.Forall_forall. intros x Hin. apply (proj1 (List.Forall_forall _ _) Ht) in Hin as Hx.
    eapply restored_from_same; [apply HK'; right; by apply in_map|reflexivity|]. eapply restored_from_calm; [|exact Hx].
    intros Hq. unfold calm in HC. destruct (st_faults s0); [by rewrite HC|discriminate].
  - assert (HU : untouched (singbox_config_file cfg) (restore_files cfg) s s' -> untouched (singbox_config_file cfg) (restore_files cfg) s0 s').
    { intros [H1 H2]. split; [|by rewrite H2]. apply List.Forall_forall. intros p Hp.
      rewrite (proj1 (List.Forall_forall _ _) H1 p Hp). by apply HK'. }
    destruct e; try exact HU. intros Hr Hs. specialize (Hr (HC Hs)). apply List.Forall_forall. intros p Hp.
    rewrite (proj1 (List.Forall_forall _ _) Hr p Hp). by apply HK'.
Qed.

(** The users and the key pair of the archive, and that its deployment file, if
    it has one, is of this role and node. *)
Definition archived_users (st : gmap (list string) Archive.staged) (us : list Grants.CompatUser) : Prop :=
  exists bytes, staged_bytes st users_rel = Some bytes /\ parse_users_bytes de_users de_legacy bytes = Ok us.
Definition archived_keypair (st : gmap (list string) Archive.staged) : Prop :=
  exists private public, staged_bytes st ["reality"; "private.key"] = Some private /\ staged_bytes st ["reality"; "public.key"] = Some public /\
    is_ok (Creds.validate_reality_keypair b64_decode b64_encode mul_base_clamped (trim private) (trim public)) = true.
Definition same_node (cfg : Deployment.DeploymentConfig) (st : gmap (list string) Archive.staged) : Prop :=
  forall node, st !! ["deployment.toml"] = Some node -> exists text archived, staged_bytes st ["deployment.toml"] = Some text /\
    toml_config text = Some archived /\ Deployment.role archived = Deployment.role cfg /\
    (Deployment.node_id archived = "" \/ Deployment.node_id cfg = "" \/ Deployment.node_id archived = Deployment.node_id cfg).

Lemma cmd_restore_spec cfg archive s r s' : cmd_restore cfg archive s = (r, s') ->
  match r with
  | Ok _ => exists st us, Archive.extract_validated_backup archive = Ok st /\
      (archived_users st us /\ archived_keypair st /\ (calm s -> same_node cfg st)) /\
      file_text (users_file cfg) s' = Some (ser_users (envelope us)) /\
      Forall (fun x => restored_from st (fst x) (snd x) (no_faults (st_faults s)) (st_fs s) (st_fs s')) (restore_targets cfg)
  | Err (RestoreFailed _ _) => calm s -> Forall (fun p => files (st_fs s') !! p = files (st_fs s) !! p) (restore_files cfg)
  | Err _ => untouched (singbox_config_file cfg) (restore_files cfg) s s'
  end.
Proof.
  unfold cmd_restore. intros E. set (target := singbox_config_file cfg) in *. set (ks := restore_files cfg).
  pattern r, s'. match goal with |- ?F r s' => set (Q := F) end.
  assert (HE : forall e s1, early e = true -> untouched target ks s s1 -> Q (Err e) s1) by by intros [] s1.
  assert (U0 : untouched target ks s s) by (split; [by apply List.Forall_forall|done]).
  eapply (preflight (fun _ => False)); [exact E|exact U0|done|apply rframe_lift|by intros ? ? []|apply rquiet_lift| |exact HE|].
  { apply early_lift. intros e. destruct (Archive.extract_validated_backup archive); [discriminate|]. by intros [= <-]. }
  clear E. intros st s0 [= Hst <-] _ _ E. destruct (Archive.extract_validated_backup archive) as [st0|] eqn:Ha; [|discriminate]. injection Hst as ->.
  destruct (staged_users_harmless st) as (A1 & A2 & A3), (check_keyset_harmless st) as (B1 & B2 & B3),
    (cross_node_harmless cfg st) as (D1 & D2 & D3), (tls_pair_harmless st) as (G1 & G2 & G3).
  eapply (preflight (fun _ => False)); [exact E|exact U0|done|exact A1|by intros ? ? []|exact A2|exact A3|exact HE|].
  clear E U0. intros us s1 Eus U1 C1 E. apply staged_users_ok in Eus.
  eapply (preflight (fun _ => False)); [exact E|exact U1|exact C1|exact B1|by intros ? ? []|exact B2|exact B3|exact HE|].
  clear E U1. intros [] s2 Eks U2 C2 E. apply check_keyset_ok in Eks.
  eapply (preflight (fun _ => False)); [exact E|exact U2|exact C2|exact D1|by intros ? ? []|exact D2|exact D3|exact HE|].
  clear E U2. intros [] s3 Ecn U3 C3 E. pose proof (fun Hc => cross_node_ok _ _ _ _ Ecn (C2 Hc)) as Hcn.
  eapply (preflight (fun _ => False)); [exact E|exact U3|exact C3|exact G1|by intros ? ? []|exact G2|exact G3|exact HE|].
  clear E U3. intros [] s4 _ U4 C4 E.
  eapply (preflight (fun _ => False)); [exact E|exact U4|exact C4|apply controllable_frame|by intros ? ? []|apply controllable_quiet|apply early_controllable|exact HE|].
  clear E U4. intros ok s5 _ U5 C5 E. destruct ok; simpl negb in E; cbv iota in E; [|injection E as <- <-; by apply HE].
  eapply (preflight (fun _ => False)); [exact E|exact U5|exact C5|eapply rframe_fail, restore_dirs_frame; done|by intros ? ? []|apply rquiet_fail, restore_dirs_quiet|by apply early_fail|exact HE|].
  clear E U5. intros [] s6 _ U6 C6 E. apply replace_state_spec in E. apply (restore_result_from _ _ _ _ _ _ _ U6 C6) in E.
  destruct r as [out|e]; [|exact E]. exists st, us. split; [done|]. split; [|exact E]. split; [done|]. split; [done|]. exact Hcn.
Qed.

(** C14: A restore is all or nothing.  On success the archive was accepted, its
    users parse and its REALITY keys form one pair; [users.json] is the
    serialisation of exactly those users, and every other file of the manifest
    holds exactly the archived bytes or is as it was.  When moreover no file
    operation of the run failed, the archive's deployment file (if it has one)
    is of this node's role and identity, and exactly the files the archive
    lacks are as they were.  A refusal, whatever file operation fails on the
    way, has changed none of these files nor the configuration.  When
    installing, applying or restarting fails and no file operation of the run
    failed, every one of them is back exactly as it was, owner and mode
    included. *)
Theorem restore_all_or_nothing cfg archive s r s' : cmd_restore cfg archive s = (r, s') ->
  match r with
  | Ok _ => exists st us, Archive.extract_validated_backup archive = Ok st /\ archived_users st us /\ archived_keypair st /\
      file_text (users_file cfg) s' = Some (ser_users (envelope us)) /\
      (forall rel p, In (rel, p) (restore_targets cfg) -> K p s' = K p s \/
         exists text, staged_bytes st rel = Some text /\ file_text p s' = Some text) /\
      (calm s -> same_node cfg st /\ forall rel p, In (rel, p) (restore_targets cfg) ->
         match st !! rel with
         | None => K p s' = K p s
         | Some _ => exists text, staged_bytes st rel = Some text /\ file_text p s' = Some text
         end)
  | Err (RestoreFailed _ _) => calm s -> Forall (fun p => K p s' = K p s) (restore_files cfg)
  | Err _ => untouched (singbox_config_file cfg) (restore_files cfg) s s'
  end.
Proof.
  intros E. apply cmd_restore_spec in E. destruct r as [out|e]; [|exact E]. destruct E as (st & us & Ha & (Hu & Hk & Hn) & Hus & Ht).
  exists st, us. do 4 (split; [done|]). rewrite List.Forall_forall in Ht. split.
  - intros rel p Hin. destruct (Ht _ Hin) as [[H1 _]|H1]; auto.
  - intros Hc. split; [auto|]. intros rel p Hin. apply Ht in Hin as [[H1 H2]|(text & H1 & H2)]; simpl in *.
    + rewrite H2; [done|]. unfold calm in Hc. by rewrite Hc.
    + destruct (st !! rel) eqn:Es; [by exists text|]. unfold staged_bytes in H1. rewrite Es in H1. discriminate.
Qed.

(** ** What a backup stages *)

Local Notation text_of p fs := (option_map content (files fs !! p)).

Lemma copy_if_exists_frame src dst : frame (fun q => q = dst) (copy_if_exists src dst).
Proof.
  unfold copy_if_exists. apply frame_bind; [eapply frame_weaken, exists_frame; done|]. intros [|]; simpl; [|apply frame_ret].
  apply frame_bind; [eapply frame_weaken, create_dir_frame; done|]. intros _. apply copy_frame.
Qed.
Lemma copy_if_exists_ok src dst fs fs' fl' : copy_if_exists src dst fs [] = (Ok tt, fs', fl') -> files fs !! dst = None ->
  fl' = [] /\ text_of dst fs' = text_of src fs.
Proof.
  unfold copy_if_exists. intros E Hd. io_bind E; [|discriminate]. pose proof (exists_quiet _ _ _ _ _ E0) as ->.
  apply exists_inv in E0 as (F0 & b & [= ->] & _ & Hb). specialize (Hb eq_refl). subst b. destruct (files fs !! src) as [f|] eqn:Hf; simpl in E.
  - io_bind E; [|discriminate]. pose proof (create_dir_quiet _ _ _ _ _ _ _ E0) as ->. pose proof (frame_all _ _ _ _ _ _ (create_dir_frame _ _ _) E0) as F1.
    assert (Hf1 : files fs1 !! src = Some f) by by rewrite F1, F0. pose proof (copy_quiet _ _ _ _ _ _ _ _ _ E) as ->. split; [done|].
    destruct (copy_no_fault me_uid umask new_gid src dst f fs1 Hf1) as (fs3 & f3 & E3 & Hf3 & Hc3). rewrite E in E3. injection E3 as ->.
    rewrite Hf3. simpl. by rewrite Hc3.
  - injection E as <- <-. split; [done|]. by rewrite F0, Hd.
Qed.

Lemma copy_all_ok l fs fs' fl' : copy_all l fs [] = (Ok tt, fs', fl') -> List.NoDup (map snd l) ->
  (forall x y, In x l -> In y l -> fst x <> snd y) -> (forall x, In x l -> files fs !! snd x = None) ->
  (forall q, ~ In q (map snd l) -> files fs' !! q = files fs !! q) /\ Forall (fun x => text_of (snd x) fs' = text_of (fst x) fs) l.
Proof.
  revert fs. induction l as [|[src dst] l IH]; cbn [copy_all]; intros fs E Hnd Hdis Hfresh; [injection E as <- _; auto|].
  io_bind E; [|discriminate]. destruct a. pose proof (fun q => copy_if_exists_frame _ _ _ _ _ _ _ q E0) as F0.
  apply copy_if_exists_ok in E0 as [-> Hc]; [|apply (Hfresh (src, dst)); by left]. simpl in Hnd. inversion Hnd as [|? ? Hn Hnd']. subst.
  assert (Hsame : forall x, In x l -> files fs0 !! fst x = files fs !! fst x /\ files fs0 !! snd x = files fs !! snd x).
  { intros x Hx. split; apply F0; [apply (Hdis x (src, dst)); [by right|by left]|]. intros <-. by apply Hn, in_map. }
  apply IH in E as [F1 H1]; [|done|intros x y Hx Hy; apply Hdis; by right|intros x Hx; rewrite (proj2 (Hsame x Hx)); apply Hfresh; by right].
  split.
  - intros q Hq. simpl in Hq. rewrite F1, F0; [done|intros ->; apply Hq; by left|intros Hin; apply Hq; by right].
  - apply List.Forall_cons; simpl; [by rewrite F1|]. apply List.Forall_forall. intros x Hx.
    rewrite (proj1 (List.Forall_forall _ _) H1 x Hx). by rewrite (proj1 (Hsame x Hx)).
Qed.

(** A backup stages exactly the live files, under their manifest names. *)
Theorem backup_stages_live_files cfg config_path d fs fs' fl' :
  let pairs := (config_path, join d ["deployment.toml"]) :: map (fun rel => (manifest_path cfg rel, join d rel)) Archive.BACKUP_MANIFEST in
  stage_backup_contents cfg config_path d fs [] = (Ok tt, fs', fl') ->
  (forall x y, In x pairs -> In y pairs -> fst x <> snd y) -> (forall x, In x pairs -> files fs !! snd x = None) ->
  (forall q, ~ In q (map snd pairs) -> files fs' !! q = files fs !! q) /\
  Forall (fun x => text_of (snd x) fs' = text_of (fst x) fs) pairs.
Proof.
  intros pairs E Hdis Hfresh. eapply copy_all_ok; [exact E| |exact Hdis|exact Hfresh]. apply NoDup_ListNoDup.
  assert (Hname : NoDup (name <$> map snd pairs)) by (apply (proj1 (bool_decide_eq_true _)); vm_compute; reflexivity).
  by apply NoDup_fmap_1 in Hname.
Qed.
End Restore.

(** ** Concrete runs *)

Definition ex_backup : option (list (option Archive.tar_entry)) :=
  Some [Archive.ex_entry "./" Archive.TarDir ""; Archive.ex_entry "./users/users.json" Archive.TarFile (ex_ser (envelope []));
        Archive.ex_entry "./reality/private.key" Archive.TarFile "backupkey"; Archive.ex_entry "./reality/public.key" Archive.TarFile "key";
        Archive.ex_entry "./reality/short_id.txt" Archive.TarFile "0a1c"].
Definition ex_restore (s : St) : result (bool * bool) rotate_error * St :=
  cmd_restore 0 18 (fun _ => 990) "7" (fun _ => true) Deployment.ex_key (fun _ => "key") (fun t => t) (fun l => l) (V := json)
    ex_print ex_print ex_parse ex_ser ex_de ex_legacy (fun _ => None) ex_host ex_host (fun _ => Some 990) ex_node ex_backup s.

(** vpn-subscription does not come back up on the restored keys. *)
Lemma restore_all_or_nothing_witness :
  exists s', ex_restore (ex_rotate_start [] (repeat yes 16 ++ [no])) = (Err (RestoreFailed RestartingSubscription true), s') /\
    Forall (fun p => files (st_fs s') !! p = files ex_rotate_disk !! p) (restore_files ex_node).
Proof.
  destruct (run_result (ex_restore (ex_rotate_start [] (repeat yes 16 ++ [no]))) (Err (RestoreFailed RestartingSubscription true))
    ltac:(vm_compute; reflexivity)) as [s' E].
  exists s'. split; [exact E|]. unfold ex_restore in E. apply restore_all_or_nothing in E. apply E. reflexivity.
Defined.

(** A restore on an exit of a backup taken on a relay is refused; when examining
    the staged deployment file fails, the file counts as absent, the check is
    skipped and the relay's keys are installed. *)
Definition ex_foreign_restore (s : St) : result (bool * bool) rotate_error * St :=
  cmd_restore 0 18 (fun _ => 990) "7" (fun _ => true) Deployment.ex_key (fun _ => "key") (fun t => t) (fun l => l) (V := json)
    ex_print ex_print ex_parse ex_ser ex_de ex_legacy (fun _ => Some ServerPolicy.ex_relay_node) ex_host ex_host (fun _ => Some 990) ex_node
    (option_map (fun l => l ++ [Archive.ex_entry "./deployment.toml" Archive.TarFile "relay"]) ex_backup) s.
Lemma failed_stat_skips_node_check :
  fst (ex_foreign_restore (ex_rotate_start [] [])) = Err (RestoreRefused RoleMismatch) /\
  let run := ex_foreign_restore (ex_rotate_start (repeat Fine 7 ++ [Fails 0]) []) in
  fst run = Ok (true, true) /\ file_text (reality_private_key_file ex_node) (snd run) = Some "backupkey".
Proof. vm_compute. auto. Qed.

(** sing-box goes away between the write of the configuration and its reload:
    the restore succeeds, with the message that it was applied and validated
    against the running server, while the process still runs the old one. *)
Lemma unapplied_restore_succeeds :
  let run := ex_restore (ex_rotate_start [] (repeat yes 6 ++ [no])) in
  fst run = Ok (false, true) /\ st_loaded (snd run) = Some "old" /\
  file_text (reality_private_key_file ex_node) (snd run) = Some "backupkey".
Proof. vm_compute. auto. Qed.
End AdminRestore.
