(* ===== verification/AdminEgress.v ===== *)
(** * apps/admin: egress settings

    systemd_dropin.rs: the plan for the capability drop-in.  main.rs:
    [sync_tls_spoof_capability_dropin], [cmd_tls_spoof_set], [cmd_egress_set],
    [cmd_google_egress_hairpin_set] and [cmd_google_egress_hairpin_clear],
    which edit deployment.toml, apply the candidate and go back when the apply
    fails. *)

From S2P Require Import Prelude Strs Net NetText AddressPolicy Credentials Grants Json Contract Render.
From S2P Require Import Deployment StaticRevision Server ServerPolicy Store ConfigApply TomlEdit AdminApply AdminSteps Archive AdminUsers AdminRevision AdminRotate AdminRestore.
From Stdlib Require Import Ascii.

(** ** The capability drop-in *)

Module Dropin.
Import AdminApply.

Inductive DropinAction := NoAction | Write (content : string) | Remove | LeaveUnmanaged.

Definition is_managed (existing : string) : bool :=
  match lines existing with first :: _ => String.eqb (trim_end first) MANAGED_MARKER | [] => false end.

(** [str::split_whitespace]. *)
Fixpoint words_fuel (fuel : nat) (s : string) : list string :=
  match fuel, trim_start s with
  | O, _ | _, EmptyString => []
  | S fuel, s =>
      let fix word (s : string) : string * string :=
        match s with
        | EmptyString => (EmptyString, EmptyString)
        | String c s' => match ws_prefix s with O => let '(w, rest) := word s' in (String c w, rest) | _ => (EmptyString, s) end
        end in
      let '(w, rest) := word s in w :: words_fuel fuel rest
  end.
Definition split_whitespace (s : string) : list string := words_fuel (S (String.length s)) s.

Definition effective_line (l : string) : string :=
  match split_once "=" l with
  | Some (k, v) => trim k +:+ "=" +:+ join_on " " (split_whitespace v)
  | None => l
  end.
Definition effective (text : string) : list string :=
  map effective_line (List.filter (fun l => negb (str_is_empty l) && negb (starts_with "#" l)) (map trim (lines text))).

Definition plan_tls_spoof_dropin (existing desired : option string) : DropinAction :=
  match existing, desired with
  | None, None => NoAction
  | None, Some want => Write want
  | Some have, Some want =>
      if String.eqb have want then NoAction
      else if is_managed have || bool_decide (effective have = effective want) then Write want
      else LeaveUnmanaged
  | Some have, None => if is_managed have then Remove else LeaveUnmanaged
  end.
End Dropin.

Module AdminEgress.
Import Store ConfigApply AdminApply AdminSteps AdminRotate Dropin.

(** Why a candidate did not become the running configuration. *)
Inductive apply_failure := Unloadable | UsersUnloadable (e : store_error) | NotApplied (e : admin_error).
Inductive egress_error :=
| StatFailed (e : store_error)
| PatchRefused (e : TomlEdit.edit_error)
| BackupLost (e : store_error)
| RestoreWriteFailed (e : store_error)
| ChangeFailed (why : apply_failure) (recovered : bool)
| WrongRole
| CredentialBackupFailed (e : store_error)
| CredentialWriteFailed (e : store_error)
| HairpinPatchRefused (e : TomlEdit.edit_error) (restored : bool)
| HairpinFailed (why : apply_failure) (restored : bool).

(** A step whose error is looked at. *)
Definition attempt {X Y A} (m : rio X A) : rio Y (result A X) := fun s => let '(r, s) := m s in (Ok r, s).

Section Egress.
Context (debug : string -> string).
Context (me_uid umask : Z) (new_gid : string -> Z) (pid ts : string) (check : string -> bool).
Context (b64_decode : string -> option (list Z)) (b64_encode : list Z -> string) (sha256_hex : string -> string)
  (mul_base_clamped : list Z -> list Z).
Context {V : Type} `{JsonOps V, !JsonTree V, !JsonEq V}.
Context (ser_pretty ser_compact : V -> string) (de : string -> option V).
Context (de_users : string -> option UsersFile) (de_legacy : string -> option (list Grants.CompatUser)).
Context (toml_config : string -> option Deployment.DeploymentConfig) (normalized : Deployment.DeploymentConfig -> V).
(** The host while the change is applied and while it is undone. *)
Context (h h' : Host).

Local Notation step := (rio egress_error).
Local Notation render_and_apply_with := (render_and_apply_singbox_config_with me_uid umask new_gid pid check b64_decode b64_encode sha256_hex
  mul_base_clamped ser_pretty ser_compact de).
Local Notation render_and_apply := (render_and_apply_singbox_config me_uid umask new_gid pid check b64_decode b64_encode sha256_hex
  mul_base_clamped ser_pretty ser_compact de).
Local Notation hairpin_toml := (TomlEdit.apply_google_egress_hairpin_toml debug me_uid umask new_gid pid ts b64_decode toml_config normalized).
Local Notation egress_toml := (TomlEdit.apply_exit_egress_toml debug me_uid umask new_gid pid ts b64_decode toml_config normalized).
Local Notation spoof_toml := (TomlEdit.apply_tls_spoof_toml debug me_uid umask new_gid pid ts b64_decode toml_config normalized).

(** An edit of deployment.toml as a step. *)
Definition redit {X A} (m : TomlEdit.eio A) : rio X (result A TomlEdit.edit_error) := fun s =>
  let '(r, fs, fl) := m (st_fs s) (st_faults s) in
  (Ok r, {| st_fs := fs; st_loaded := st_loaded s; st_faults := fl; st_svc := st_svc s |}).

(** [DeploymentConfig::load]. *)
Definition load_deployment (p : path) : rio apply_failure Deployment.DeploymentConfig :=
  rev! text := rfail (fun _ => Unloadable) (read_file p) in
  rlift (match toml_config text with
         | Some cfg => if is_ok (Deployment.validate b64_decode cfg) then Ok cfg else Err Unloadable
         | None => Err Unloadable
         end).

(** The candidate the file now describes, applied. *)
Definition apply_current (p : path) (strict : bool) : rio apply_failure bool :=
  rev! candidate := load_deployment p in
  rev! users := rfail UsersUnloadable (load_users de_users de_legacy (users_file candidate)) in
  raise NotApplied (render_and_apply_with candidate users true strict h).

(** ** [cmd_tls_spoof_set], [cmd_egress_set] *)

Definition reapply (cfg : Deployment.DeploymentConfig) : step bool :=
  rev! users := rfile (load_users de_users de_legacy (users_file cfg)) in
  match users with
  | Err _ => rret false
  | Ok users =>
      rev! applied := embed (render_and_apply cfg users true h') in
      rret (match applied with Ok b => b | Err _ => false end)
  end.

Definition apply_or_restore (cfg : Deployment.DeploymentConfig) (p : path) (mode : Z) (backup : path) (strict : bool) : step bool :=
  rev! outcome := attempt (apply_current p strict) in
  match outcome with
  | Ok applied => rret applied
  | Err why =>
      rev! bytes := rfail BackupLost (read_file backup) in
      rev! _ := rfail RestoreWriteFailed (atomic_write me_uid umask new_gid pid p bytes mode) in
      rev! recovered := reapply cfg in
      rthrow (ChangeFailed why recovered)
  end.

Definition patched {A B} (m : TomlEdit.eio A) (k : A -> step B) : step B :=
  rev! r := redit m in match r with Ok a => k a | Err e => rthrow (PatchRefused e) end.

Definition cmd_tls_spoof_set (cfg : Deployment.DeploymentConfig) (p : path) (section : option Deployment.TlsSpoofSection) : step bool :=
  rev! mode := rfail StatFailed (TomlEdit.same_mode p) in
  patched (spoof_toml p section) (fun backup => apply_or_restore cfg p mode backup true).
Definition cmd_egress_set (cfg : Deployment.DeploymentConfig) (p : path) (policy : option Deployment.Ipv6LiteralPolicy) : step bool :=
  rev! mode := rfail StatFailed (TomlEdit.same_mode p) in
  patched (egress_toml p policy) (fun backup => apply_or_restore cfg p mode backup false).

(** ** [google-egress-hairpin] *)

Definition uuid_tmp (target : path) : path := sibling target ".tmp".
Definition install_google_egress_hairpin_uuid (target : path) (uuid : string) : io unit :=
  do! _ := create_dir_all umask new_gid (dir target) in
  do! _ := write_secret_file me_uid umask new_gid (uuid_tmp target) uuid in
  do! _ := rename (uuid_tmp target) target in
  fsync_parent_dir.

Definition restore_google_egress_hairpin_state (uuid_path : path) (uuid_existed : bool) (config_path toml_backup : path) : step bool :=
  rev! uuid := rfile (roll_back_file uuid_path uuid_existed) in
  rev! toml := rfile (copy me_uid umask new_gid toml_backup config_path) in
  rret (is_ok uuid && is_ok toml).

Definition remove_rotate_backup (p : path) : step unit := rev! _ := rfile (remove_file (rotate_backup_path p)) in rret tt.
Definition drop_backup (b : option path) : step unit :=
  match b with Some b => rev! _ := rfile (remove_file b) in rret tt | None => rret tt end.

(** From the edit of deployment.toml on; [undo] puts the credential back. *)
Definition commit_hairpin (cfg : Deployment.DeploymentConfig) (config_path : path) (section : option Deployment.GoogleEgressHairpinSection)
  (uuid_existed : bool) (undo : step bool) : step unit :=
  let uuid_path := google_egress_hairpin_uuid_file cfg in
  rev! toml := redit (hairpin_toml config_path section) in
  match toml with
  | Err e =>
      rev! restore_ok := undo in
      rev! _ := remove_rotate_backup uuid_path in
      rthrow (HairpinPatchRefused e restore_ok)
  | Ok toml_backup =>
      rev! outcome := attempt (apply_current config_path false) in
      match outcome with
      | Ok _ => remove_rotate_backup uuid_path
      | Err why =>
          rev! restore_ok := restore_google_egress_hairpin_state uuid_path uuid_existed config_path toml_backup in
          rthrow (HairpinFailed why restore_ok)
      end
  end.

Definition undo_set (uuid_path : path) (uuid_existed : bool) : step bool :=
  rev! r := rfile (if uuid_existed then restore_from_rotate_backup uuid_path else remove_file uuid_path) in rret (is_ok r).
Definition undo_clear (uuid_path : path) (uuid_existed : bool) : step bool :=
  if uuid_existed then rev! r := rfile (restore_from_rotate_backup uuid_path) in rret (is_ok r) else rret false.

(** Whether the credential exists, and its backup. *)
Definition back_up_credential (uuid_path : path) : step (bool * option path) :=
  rev! uuid_existed := rfail CredentialBackupFailed (exists_ uuid_path) in
  rev! uuid_backup := rfail CredentialBackupFailed (backup_for_rotate me_uid umask new_gid uuid_path) in
  rret (uuid_existed, uuid_backup).

Definition cmd_google_egress_hairpin_set (cfg : Deployment.DeploymentConfig) (config_path : path)
  (section : Deployment.GoogleEgressHairpinSection) (uuid : string) : step unit :=
  if negb (bool_decide (Deployment.role cfg = Deployment.Exit)) then rthrow WrongRole else
  let uuid_path := google_egress_hairpin_uuid_file cfg in
  rev! before := back_up_credential uuid_path in
  let '(uuid_existed, uuid_backup) := before in
  rev! installed := rfile (install_google_egress_hairpin_uuid uuid_path uuid) in
  match installed with
  | Err e => rev! _ := drop_backup uuid_backup in rthrow (CredentialWriteFailed e)
  | Ok _ => commit_hairpin cfg config_path (Some section) uuid_existed (undo_set uuid_path uuid_existed)
  end.

Definition cmd_google_egress_hairpin_clear (cfg : Deployment.DeploymentConfig) (config_path : path) : step unit :=
  let uuid_path := google_egress_hairpin_uuid_file cfg in
  rev! before := back_up_credential uuid_path in
  let '(uuid_existed, uuid_backup) := before in
  rev! removed := (if (uuid_existed : bool) then rfile (remove_file uuid_path) else rret (Ok tt)) in
  match removed with
  | Err e => rev! _ := drop_backup uuid_backup in rthrow (CredentialWriteFailed e)
  | Ok _ => commit_hairpin cfg config_path None uuid_existed (undo_clear uuid_path uuid_existed)
  end.

(** ** [sync_tls_spoof_capability_dropin] *)

Definition read_to_string (p : path) : io string := do! text := read_file p in if AdminRestore.utf8 text then ret text else throw Io.
Definition daemon_reload (target : path) : St -> bool * St := fun s => answered (run target query s).
(** Written ([Some]) or removed, and the units re-read. *)
Definition update_dropin (p : path) (content : option string) : io unit :=
  match content with
  | Some content =>
      do! _ := create_dir_all umask new_gid (dir p) in
      atomic_write me_uid umask new_gid pid p content 420
  | None => remove_file p
  end.
Definition replace_dropin (target p : path) (content : option string) : step DropinSync :=
  rev! changed := rfile (update_dropin p content) in
  match changed with
  | Err _ => rret DFailed
  | Ok _ =>
      rev! available := rask (is_available target) in
      if negb available then rret DChanged else
      rev! ok := rask (daemon_reload target) in
      rret (if (ok : bool) then DChanged else DFailed)
  end.
(** [dropin]: the path of the file, when there is a unit directory. *)
Definition sync_tls_spoof_capability_dropin (dropin : option path) (cfg : Deployment.DeploymentConfig) : step DropinSync :=
  match dropin with
  | None => rret DSkipped
  | Some p =>
      let target := singbox_config_file cfg in
      rev! existing := rfile (read_to_string p) in
      let existing := match existing with Ok text => Some text | Err _ => None end in
      match plan_tls_spoof_dropin existing (desired_tls_spoof_dropin cfg) with
      | NoAction | LeaveUnmanaged => rret DUnchanged
      | Write content => replace_dropin target p (Some content)
      | Remove => replace_dropin target p None
      end
  end.

(** ** Lemmas: what a step may change *)

Local Notation K p s := (files (st_fs s) !! p).

(** Files outside [S] stay, and a run without faults stays without. *)
Definition tame (S : path -> Prop) {X A} (m : rio X A) : Prop :=
  forall s r s', m s = (r, s') -> (forall q, ~ S q -> K q s' = K q s) /\ (calm s -> calm s').

Lemma tame_ret S {X A} (a : A) : tame S (rret (X := X) a).
Proof. by intros s r s' [= <- <-]. Qed.
Lemma tame_throw S {X A} e : tame S (rthrow (X := X) (A := A) e).
Proof. by intros s r s' [= <- <-]. Qed.
Lemma tame_lift S {X A} (r : result A X) : tame S (rlift r).
Proof. by intros s r0 s' [= <- <-]. Qed.
Lemma tame_bind S {X A B} (m : rio X A) (k : A -> rio X B) : tame S m -> (forall a, tame S (k a)) -> tame S (rbind m k).
Proof.
  intros Hm Hk s r s' E. apply rbind_inv in E as [(a & s1 & E1 & E)|(e & E & _)]; [|by eapply Hm].
  apply Hm in E1 as [F1 C1]. apply Hk in E as [F C]. split; [|auto]. intros q Hq. by rewrite F, F1.
Qed.
Lemma tame_attempt S {X Y A} (m : rio X A) : tame S m -> tame S (attempt (Y := Y) m).
Proof. intros Hm s r s' E. unfold attempt in E. destruct (m s) as [r0 s0] eqn:E0. injection E as <- <-. by eapply Hm. Qed.
Lemma tame_weaken (S S' : path -> Prop) {X A} (m : rio X A) : (forall q, S q -> S' q) -> tame S m -> tame S' m.
Proof. intros HS Hm s r s' E. apply Hm in E as [F C]. split; [|done]. auto. Qed.
Lemma tame_file (S : path -> Prop) {X A} (m : io A) : frame S m -> quiet m -> tame S (rfile (X := X) m).
Proof.
  intros Hf Hq s r s' E. unfold rfile in E. destruct (m (st_fs s) (st_faults s)) as [[r0 fs] fl] eqn:Em. injection E as <- <-.
  split; [intros q HS; by eapply Hf|]. unfold calm. simpl. intros Hc. rewrite Hc in Em. by eapply Hq.
Qed.
Lemma tame_fail (S : path -> Prop) {X A} (wrap : store_error -> X) (m : io A) : frame S m -> quiet m -> tame S (rfail wrap m).
Proof. intros Hf Hq. apply tame_bind; [by apply tame_file|]. intros [a|e]; [apply tame_ret|apply tame_throw]. Qed.
Lemma tame_embed (S : path -> Prop) {X A} (m : aio A) : aframe S m -> AdminRestore.aquiet m -> tame S (embed (X := X) m).
Proof.
  intros Hf Hq s r s' E. unfold embed in E. destruct (m s) as [r0 s0] eqn:Em. injection E as <- <-.
  split; [intros q HS; by eapply Hf|by eapply Hq].
Qed.
Lemma tame_raise (S : path -> Prop) {X A} (wrap : admin_error -> X) (m : aio A) : aframe S m -> AdminRestore.aquiet m -> tame S (raise wrap m).
Proof. intros Hf Hq. apply tame_bind; [by apply tame_embed|]. intros [a|e]; [apply tame_ret|apply tame_throw]. Qed.

Lemma apply_quiet cfg us live strict hs : AdminRestore.aquiet (render_and_apply_with cfg us live strict hs).
Proof.
  unfold render_and_apply_singbox_config_with, apply_document, target_already_matches, applied_stamp_matches, caps_restart_due, peek, and_also, read_file.
  repeat first
    [ apply AdminRestore.write_and_reload_quiet | apply AdminRestore.aquiet_ret | apply AdminRestore.aquiet_throw
    | eapply AdminRestore.aquiet_ask; intros ? ? ?; first [apply is_available_settles|apply is_unit_installed_settles|apply is_active_spec]
    | apply AdminRestore.aquiet_io, load_hysteria_quiet
    | apply AdminRestore.aquiet_result; first [apply quiet_syscall|apply load_reality_quiet]
    | apply AdminRestore.aquiet_bind; [|intros ?] | case_match ].
Qed.
Lemma users_tame S {X} (wrap : store_error -> X) p : tame S (rfail wrap (load_users de_users de_legacy p)).
Proof. apply tame_fail; [eapply frame_weaken, AdminUsers.load_users_frame; done|apply AdminUsers.load_users_quiet]. Qed.
Lemma read_tame S {X} (wrap : store_error -> X) p : tame S (rfail wrap (read_file p)).
Proof. apply tame_fail; [eapply frame_weaken, read_frame; done|apply quiet_syscall]. Qed.

Context `{!JsonLaws V, !JsonViewLaws V, !JsonEqLaws V}.
Hypothesis normalized_object : forall c, StaticRevision.is_object (normalized c).
Hypothesis normalized_state_dir : forall c, jget (normalized c) "state_dir" = Some (jstr (Deployment.state_dir c)).

(** ** Lemmas: edits and applies as steps *)

Local Notation run_edit := (TomlEdit.run_edit debug me_uid umask new_gid pid ts b64_decode toml_config normalized).
Local Notation edited e p s s' b := (TomlEdit.edited ts b64_decode toml_config normalized (TomlEdit.edits e) (TomlEdit.extra_of e) p (st_fs s) (st_fs s') b).
Local Notation toml_bak := (backup_path ts).
Local Notation toml_tmp := (tmp_sibling_path pid).

(** The file of [cfg], and where it lies. *)
Definition loaded_from (p : path) (cfg : Deployment.DeploymentConfig) (s : St) : Prop :=
  exists t, file_text p s = Some t /\ toml_config t = Some cfg.
Definition config_file (p : path) (q : path) : Prop := q = p \/ q = toml_tmp p \/ q = toml_bak p.

Lemma edit_step {X} e p (m : TomlEdit.eio path) s r s1 :
  (forall fs fl, run_edit e p fs fl = TomlEdit.ebind m (fun b => TomlEdit.eret (TomlEdit.Edited b)) fs fl) ->
  redit (X := X) m s = (r, s1) ->
  st_loaded s1 = st_loaded s /\ (calm s -> calm s1) /\ (forall q, ~ config_file p q -> K q s1 = K q s) /\
  exists r0, r = Ok r0 /\ match r0 with Ok b => edited e p s s1 b | Err _ => K p s1 = K p s end.
Proof.
  intros Hrun E. unfold redit in E. destruct (m (st_fs s) (st_faults s)) as [[r0 fs] fl] eqn:Em. injection E as <- <-. simpl.
  assert (Er : run_edit e p (st_fs s) (st_faults s) = (match r0 with Ok b => Ok (TomlEdit.Edited b) | Err x => Err x end, fs, fl)).
  { rewrite Hrun. unfold TomlEdit.ebind. rewrite Em. by destruct r0. }
  split; [done|]. split; [unfold calm; simpl; intros Hc; rewrite Hc in Er; by eapply TomlEdit.run_edit_quiet in Er|].
  pose proof (TomlEdit.run_edit_spec _ _ _ _ _ _ _ _ _ normalized_object _ _ _ _ _ _ _ Er) as [Hw Hr]. split.
  - intros q Hq. apply Hw; intros ->; apply Hq; unfold config_file; auto.
  - exists r0. split; [done|]. by destruct r0.
Qed.

(** An edit keeps the state directory. *)
Lemma edited_state_dir e p cfg s s1 b : loaded_from p cfg s -> ~ In "state_dir" (TomlEdit.edits e cfg) -> edited e p s s1 b ->
  forall t c, file_text p s1 = Some t -> toml_config t = Some c -> Deployment.state_dir c = Deployment.state_dir cfg.
Proof.
  intros (t0 & Ht0 & Hc0) Hin (original & old & patched & new & H1 & H2 & _ & H3 & H4 & _ & Hk & _) t c Ht Hc.
  unfold file_text in *. assert (old = cfg) as -> by congruence. assert (new = c) as -> by congruence.
  specialize (Hk _ Hin). rewrite !normalized_state_dir in Hk. injection Hk as Hk. apply (f_equal jas_str) in Hk. rewrite !jas_str_jstr in Hk. by injection Hk.
Qed.
Lemma edited_ext e p s s1 s2 b : K p s2 = K p s1 -> K (toml_bak p) s2 = K (toml_bak p) s1 -> edited e p s s1 b -> edited e p s s2 b.
Proof.
  intros Hp Hb (o & old & n & new & H1 & H2 & H3 & H4 & H5 & H6 & H7 & H8 & -> & H10). exists o, old, n, new. rewrite Hp, Hb. done.
Qed.

(** What a live apply of the file's candidate has made run. *)
Definition running (p : path) (s s' : St) : Prop :=
  exists t candidate users doc c s1, file_text p s = Some t /\ toml_config t = Some candidate /\ is_ok (Deployment.validate b64_decode candidate) = true /\
    (exists s0, same_files s s0 /\ fst (rfile (X := unit) (load_users de_users de_legacy (users_file candidate)) s0) = Ok (Ok users)) /\
    same_files s s1 /\ rendering b64_decode b64_encode mul_base_clamped candidate users h s1 doc /\
    st_loaded s' = Some c /\ de c = Some doc.

Local Notation stamp_honest := (AdminApply.stamp_honest sha256_hex ser_compact de).
Lemma honest_ext a b s s1 : Deployment.state_dir a = Deployment.state_dir b -> st_loaded s1 = st_loaded s -> (forall q, own_files b q -> K q s1 = K q s) ->
  stamp_honest b s -> stamp_honest a s1.
Proof.
  intros Hd Hl Hk Hh doc c stamp. unfold file_text. assert (Ht : singbox_config_file a = singbox_config_file b) by (unfold singbox_config_file, in_dir; by rewrite Hd).
  rewrite Ht, Hl. rewrite !Hk by (left; done). apply Hh.
Qed.

Hypothesis serde : forall v, de (ser_pretty v) = Some v.

Lemma apply_current_spec {X} cfg p strict s r s' :
  (forall t c, file_text p s = Some t -> toml_config t = Some c -> Deployment.state_dir c = Deployment.state_dir cfg) ->
  attempt (Y := X) (apply_current p strict) s = (r, s') ->
  (forall q, ~ own_files cfg q -> K q s' = K q s) /\ (calm s -> calm s') /\
  exists r0, r = Ok r0 /\ (r0 = Ok true -> stamp_honest cfg s -> running p s s').
Proof.
  intros Hdir E. unfold attempt in E. destruct (apply_current p strict s) as [r0 s0] eqn:E0. injection E as <- <-.
  unfold apply_current, load_deployment in E0.
  assert (Hdone : forall e s1, (forall q, K q s1 = K q s) -> (calm s -> calm s1) -> (Err e, s1) = (r0, s0) ->
    (forall q, ~ own_files cfg q -> K q s0 = K q s) /\ (calm s -> calm s0) /\
    exists r1, Ok (E := X) r0 = Ok r1 /\ (r1 = Ok true -> stamp_honest cfg s -> running p s s0)).
  { intros e s1 F C [= <- <-]. split; [auto|]. split; [auto|]. eexists. split; [reflexivity|]. discriminate. }
  apply rbind_inv in E0 as [(candidate & s2 & E1 & E)|(e & E1 & ->)].
  2:{ assert (Ht : tame (fun _ => False) (rev! text := rfail (fun _ => Unloadable) (read_file p) in
        rlift (match toml_config text with Some c => if is_ok (Deployment.validate b64_decode c) then Ok c else Err Unloadable | None => Err Unloadable end)))
        by (apply tame_bind; [apply read_tame|intros ?; apply tame_lift]).
      apply Ht in E1 as [F C]. eapply Hdone; [auto|exact C|reflexivity]. }
  apply rbind_inv in E1 as [(text & s1 & E1 & E2)|(e & _ & [=])].
  pose proof (read_tame (fun _ => False) (fun _ => Unloadable) p _ _ _ E1) as [F1 C1]. pose proof E1 as L1. apply rfail_inv in L1 as (_ & _ & _ & _ & _ & _ & L1).
  apply read_text_inv in E1 as [_ Ht]. specialize (Ht _ eq_refl). injection E2 as E2 <-.
  destruct (toml_config text) as [c|] eqn:Hc; [|discriminate]. destruct (is_ok (Deployment.validate b64_decode c)) eqn:Hv; [|discriminate]. injection E2 as ->.
  specialize (Hdir _ _ Ht Hc).
  apply rbind_inv in E as [(users & s2 & E1 & E)|(e & E1 & ->)]; pose proof (users_tame (fun _ => False) UsersUnloadable _ _ _ _ E1) as [F2 C2].
  2:{ eapply Hdone; [|intros Hcalm; apply C2, C1, Hcalm|reflexivity]. intros q. rewrite F2, F1; auto. }
  assert (S2 : forall q, K q s2 = K q s) by (intros q; rewrite F2, F1; auto).
  assert (Ha : tame (own_files cfg) (raise NotApplied (render_and_apply_with candidate users true strict h))).
  { eapply tame_weaken, tame_raise, apply_quiet; [|apply render_and_apply_frame]. intros q. by apply AdminRevision.own_same. }
  pose proof (Ha _ _ _ E) as [F3 C3]. split; [intros q Hq; rewrite F3 by done; apply S2|]. split; [auto|]. eexists. split; [reflexivity|]. intros -> Hh.
  apply rbind_inv in E as [(r3 & s3 & E3 & E)|(e & _ & [=])]. destruct r3 as [b|]; [|discriminate]. injection E as -> ->.
  unfold embed in E3. destruct (render_and_apply_with candidate users true strict h s2) as [r4 s4] eqn:E4. injection E3 as -> ->.
  pose proof E1 as L2. apply rfail_inv in L2 as (r5 & fs5 & fl5 & E5 & Hr5 & _ & L2).
  apply render_and_apply_live in E4 as [(doc & c0 & Hren & Hl & Hde) _]; [|done|done|].
  - exists text, candidate, users, doc, c0, s2. repeat (split; [done|]). split.
    + exists s1. split; [intros q; apply F1; auto|]. unfold rfile. rewrite E5. destruct r5; [|discriminate]. by injection Hr5 as <-.
    + split; [intros q; apply S2|done].
  - eapply honest_ext; [exact Hdir| |intros q _; apply S2|exact Hh]. congruence.
Qed.

(** ** Changing a policy *)

Inductive policy := TlsSpoof (section : option Deployment.TlsSpoofSection) | ExitEgress (policy : option Deployment.Ipv6LiteralPolicy).
Definition cmd_policy (c : policy) : Deployment.DeploymentConfig -> path -> step bool :=
  match c with
  | TlsSpoof section => fun cfg p => cmd_tls_spoof_set cfg p section
  | ExitEgress o => fun cfg p => cmd_egress_set cfg p o
  end.
Definition policy_edit (c : policy) : TomlEdit.toml_edit :=
  match c with TlsSpoof section => TomlEdit.SetSpoof section | ExitEgress o => TomlEdit.SetEgress o end.
Definition policy_strict (c : policy) : bool := match c with TlsSpoof _ => true | ExitEgress _ => false end.

Lemma config_outside p cfg q : AdminRevision.apart p cfg -> config_file p q -> ~ own_files cfg q.
Proof. intros Ha Hq. apply (AdminRevision.apart_own p); [done|]. by destruct Hq as [-> |[-> | ->]]. Qed.
Lemma reapply_tame cfg : tame (own_files cfg) (reapply cfg).
Proof.
  unfold reapply. apply tame_bind; [apply tame_file; [eapply frame_weaken, AdminUsers.load_users_frame; done|apply AdminUsers.load_users_quiet]|].
  intros [us|e]; [|apply tame_ret]. apply tame_bind; [apply tame_embed; [apply render_and_apply_frame|apply apply_quiet]|]. intros ?. apply tame_ret.
Qed.
Lemma toml_bak_ne p : toml_bak p <> p /\ toml_bak p <> toml_tmp p.
Proof. apply backup_ne. Qed.

Lemma apply_or_restore_spec cfg p m strict s r s' original : AdminRevision.apart p cfg ->
  (forall t c, file_text p s = Some t -> toml_config t = Some c -> Deployment.state_dir c = Deployment.state_dir cfg) ->
  file_text (toml_bak p) s = Some original -> apply_or_restore cfg p m (toml_bak p) strict s = (r, s') ->
  match r with
  | Ok applied => K p s' = K p s /\ K (toml_bak p) s' = K (toml_bak p) s /\ (applied = true -> stamp_honest cfg s -> running p s s')
  | Err (ChangeFailed _ _) => file_text p s' = Some original
  | Err (BackupLost _) | Err (RestoreWriteFailed _) => K p s' = K p s /\ K (toml_bak p) s' = K (toml_bak p) s
  | Err _ => False
  end.
Proof.
  intros Ha Hdir Hbak E. destruct (toml_bak_ne p) as [Hne1 Hne2].
  assert (Hout : forall q, config_file p q -> ~ own_files cfg q) by (intros q; by apply config_outside).
  apply rbind_inv in E as [(r0 & s1 & E1 & E)|(e & E1 & ->)];
    destruct (apply_current_spec _ _ _ _ _ _ Hdir E1) as (F1 & _ & r1 & Hr & Hrun); [injection Hr as <-|discriminate].
  assert (Hp1 : K p s1 = K p s) by (apply F1, Hout; by left). assert (Hb1 : K (toml_bak p) s1 = K (toml_bak p) s) by (apply F1, Hout; by right; right).
  destruct r0 as [applied|why]; [injection E as <- <-; repeat (split; [done|]); intros ->; auto|].
  apply rbind_inv in E as [(bytes & s2 & E2 & E)|(e & E2 & ->)]; apply rfail_inv in E2 as (r2 & fs2 & fl2 & E2 & Hr2 & Hf2 & _).
  2:{ destruct r2; [discriminate|]. injection Hr2 as ->. rewrite Hf2. rewrite (read_frame _ _ _ _ _ _ p E2), (read_frame _ _ _ _ _ _ (toml_bak p) E2) by auto. done. }
  destruct r2 as [bytes'|]; [|discriminate]. injection Hr2 as <-. apply read_file_ok in E2 as (f & Hf & -> & Hs2).
  assert (Hc : content f = original). { unfold file_text in Hbak. rewrite Hb1 in Hf. rewrite Hf in Hbak. by injection Hbak. }
  apply rbind_inv in E as [(u & s3 & E3 & E)|(e & E3 & ->)]; apply rfail_inv in E3 as (r3 & fs3 & fl3 & E3 & Hr3 & Hf3 & _);
    apply atomic_write_spec in E3 as [F3 R3]; rewrite Hf2, Hs2 in *.
  - destruct r3 as [[]|]; [|discriminate]. destruct R3 as (g & Hg & Hcg & _).
    apply rbind_inv in E as [(b & s4 & E4 & E)|(e & E4 & ->)]; pose proof (reapply_tame _ _ _ _ E4) as [F4 _].
    + injection E as <- <-. unfold file_text. rewrite F4 by (apply Hout; by left). rewrite Hf3, Hg. simpl. by rewrite Hcg, Hc.
    + unfold reapply in E4. apply rbind_inv in E4 as [(us & s5 & _ & E4)|(x & E4 & [= ->])]; [|apply rfile_inv in E4 as (? & ? & ? & _ & [=] & _)].
      destruct us; [|discriminate]. apply rbind_inv in E4 as [(? & ? & _ & [=])|(x & E4 & _)].
      unfold embed in E4. destruct (render_and_apply _ _ _ _ _); discriminate.
  - destruct r3; [discriminate|]. injection Hr3 as ->. rewrite Hf3, R3. split; [done|]. by rewrite F3.
Qed.

(** Changing the exit's IPv6 policy or the TLS spoof is a transaction on
    [deployment.toml], whatever file operation or service call fails.  On
    success the file is the original with exactly that section changed, valid,
    and with the original in the backup; when the change is reported as
    verified, the running sing-box has loaded exactly what that file, the
    stored users and the key files render to.  After a failed apply the file
    has its original text again; when even that write fails, which is its own
    error, the edited file and the backup with the original text are both in
    place.  Every earlier refusal leaves the file untouched. *)
Theorem policy_change_transactional c cfg p s r s' : AdminRevision.apart p cfg -> loaded_from p cfg s -> cmd_policy c cfg p s = (r, s') ->
  match r with
  | Ok applied => edited (policy_edit c) p s s' (toml_bak p) /\
      (applied = true -> stamp_honest cfg s -> exists s0, (forall q, ~ config_file p q -> K q s0 = K q s) /\ running p s0 s')
  | Err (ChangeFailed _ _) => file_text p s' = file_text p s
  | Err (BackupLost _) | Err (RestoreWriteFailed _) => edited (policy_edit c) p s s' (toml_bak p)
  | Err _ => K p s' = K p s
  end.
Proof.
  intros Ha Hload E.
  assert (Hsplit : exists m, (forall fs fl, run_edit (policy_edit c) p fs fl = TomlEdit.ebind m (fun b => TomlEdit.eret (TomlEdit.Edited b)) fs fl) /\
    (rev! mode := rfail StatFailed (TomlEdit.same_mode p) in patched m (fun backup => apply_or_restore cfg p mode backup (policy_strict c))) s = (r, s'))
    by (destruct c; eexists; (split; [|exact E]); reflexivity).
  clear E. destruct Hsplit as (m & Hm & E). assert (Hin : ~ In "state_dir" (TomlEdit.edits (policy_edit c) cfg)) by (destruct c; simpl; intuition discriminate).
  assert (Hmode : frame (fun _ => False) (TomlEdit.same_mode p)) by (apply frame_bind; [by apply frame_read|intros ?; apply frame_ret]).
  apply rbind_inv in E as [(mode & s0 & E0 & E)|(e & E0 & ->)]; apply rfail_inv in E0 as (r0 & fs0 & fl0 & E0 & Hr0 & Hf0 & L0);
    pose proof (files_eq_frame _ _ _ _ _ _ Hmode E0) as S0; rewrite <- Hf0 in S0.
  2:{ destruct r0; [discriminate|]. injection Hr0 as ->. by rewrite S0. }
  unfold patched in E. apply rbind_inv in E as [(r1 & s1 & E1 & E)|(e & E1 & ->)];
    apply (edit_step _ _ _ _ _ _ Hm) in E1 as (L1 & _ & F1 & r2 & Hr & R1); [injection Hr as <-|discriminate].
  destruct r1 as [b|e]; [|injection E as <- <-; by rewrite R1, S0].
  assert (Hload0 : loaded_from p cfg s0) by (unfold loaded_from, file_text in *; by rewrite S0).
  assert (Hed : forall s2, K p s2 = K p s1 -> K (toml_bak p) s2 = K (toml_bak p) s1 -> edited (policy_edit c) p s s2 b).
  { intros s2 H1 H2. eapply edited_ext; [exact H1|exact H2|]. unfold TomlEdit.edited in *. by rewrite <- S0. }
  pose proof (edited_state_dir _ _ _ _ _ _ Hload0 Hin R1) as Hdir.
  pose proof R1 as (original & _ & _ & _ & Ho & _ & _ & _ & _ & _ & _ & _ & -> & Hb). rewrite S0 in Ho.
  apply (apply_or_restore_spec _ _ _ _ _ _ _ original Ha Hdir Hb) in E. destruct r as [applied|e].
  - destruct E as (H1 & H2 & Hrun). split; [by apply Hed|]. intros -> Hh. exists s1. split; [intros q Hq; rewrite F1 by done; by rewrite S0|].
    apply Hrun; [done|]. eapply (honest_ext cfg cfg s); [done|congruence| |exact Hh]. intros q Hq. rewrite F1, S0; [done|].
    intros Hf. by eapply config_outside.
  - destruct e; try done; [destruct E; by apply Hed|destruct E; by apply Hed|]. unfold file_text at 2. by rewrite Ho.
Qed.

(** ** Changing the hairpin *)

Inductive hairpin := SetHairpin (section : Deployment.GoogleEgressHairpinSection) (uuid : string) | ClearHairpin.
Definition cmd_hairpin (c : hairpin) (cfg : Deployment.DeploymentConfig) (p : path) : step unit :=
  match c with
  | SetHairpin section uuid => cmd_google_egress_hairpin_set cfg p section uuid
  | ClearHairpin => cmd_google_egress_hairpin_clear cfg p
  end.

Local Notation credential := google_egress_hairpin_uuid_file.
Definition apart (p : path) (cfg : Deployment.DeploymentConfig) : Prop := AdminRevision.apart p cfg /\ dir p <> dir (credential cfg).









(** ** The capability drop-in *)

(** Why a file may be replaced: it is ours, it already says the same, or it
    could not be read as text. *)
Definition replaceable (cfg : Deployment.DeploymentConfig) (s : St) (have : string) : Prop :=
  is_managed have = true \/ (exists want, desired_tls_spoof_dropin cfg = Some want /\ effective have = effective want) \/
  ~ calm s \/ AdminRestore.utf8 have = false.

Lemma read_to_string_spec {X} p s r s1 : rfile (X := X) (read_to_string p) s = (r, s1) ->
  (forall q, K q s1 = K q s) /\ exists r0, r = Ok r0 /\
  match r0 with
  | Ok t => file_text p s = Some t
  | Err _ => forall have, file_text p s = Some have -> ~ calm s \/ AdminRestore.utf8 have = false
  end.
Proof.
  intros E. apply rfile_inv in E as (r0 & fs & fl & E & -> & Hf & _). unfold read_to_string in E. rewrite Hf.
  unfold file_text. io_bind E.
  - apply read_file_ok in E0 as (f & Hp & -> & Hs). rewrite Hp. destruct (AdminRestore.utf8 (content f)) eqn:Hu; injection E as <- <- _; rewrite Hs;
      (split; [done|]); eexists; (split; [reflexivity|]); simpl; [done|]. intros have [= <-]. by right.
  - subst r0. pose proof (files_eq_frame _ _ _ _ _ _ (read_file_frame p) E0) as Hs. rewrite Hs. split; [done|]. eexists. split; [reflexivity|].
    intros have Hh. left. unfold calm. intros Hc. rewrite Hc in E0. unfold read_file, syscall, on_file in E0. by destruct (K p s).
Qed.

Lemma replace_dropin_spec target p wanted s r s' : replace_dropin target p wanted s = (r, s') ->
  (forall q, q <> p -> q <> toml_tmp p -> K q s' = K q s) /\
  exists o, r = Ok o /\ match o with DChanged => file_text p s' = wanted | DFailed => K p s' = K p s \/ file_text p s' = wanted | _ => False end.
Proof.
  intros E. apply rbind_inv in E as [(r1 & s1 & E1 & E)|(e & E1 & _)]; apply rfile_inv in E1 as (r2 & fs & fl & E1 & Hr & Hf & _); [injection Hr as ->|discriminate].
  assert (Hw : (forall q, q <> p -> q <> toml_tmp p -> K q s1 = K q s) /\ match r2 with Ok _ => file_text p s1 = wanted | Err _ => K p s1 = K p s end).
  { unfold file_text. rewrite Hf. destruct wanted as [want|]; simpl in E1.
    - io_bind E1; pose proof (files_eq_frame _ _ _ _ _ _ (create_dir_frame _ _ _) E0) as F0; [|subst r2; by rewrite F0].
      apply atomic_write_spec in E1 as [F2 R2]. rewrite F0 in F2, R2. split; [done|]. destruct r2; [|done]. destruct R2 as (f & -> & <- & _). done.
    - split; [intros q Hq _; by eapply remove_frame|]. unfold remove_file, syscall, unchanged in E1.
      destruct (st_faults s) as [|[|n] ?]; destruct (K p s) eqn:Hp; injection E1 as <- <- _; simpl; rewrite ?lookup_delete_eq, ?Hp; done. }
  destruct Hw as [F1 R1]. destruct r2 as [[]|e]; [|injection E as <- <-; split; [done|]; exists DFailed; split; [done|by left]].
  apply rbind_inv in E as [(av & s2 & E2 & E)|(e & E2 & _)]; [|unfold rask in E2; destruct (is_available target s1); discriminate].
  assert (S2 : forall q, K q s2 = K q s1) by (intros q; eapply (ask_available_frame (fun _ => False)); [exact E2|auto]).
  assert (Hend : forall o s3, (forall q, K q s3 = K q s1) -> o = DChanged \/ o = DFailed -> (Ok o, s3) = (r, s') ->
    (forall q, q <> p -> q <> toml_tmp p -> K q s' = K q s) /\
    exists o, r = Ok o /\ match o with DChanged => file_text p s' = wanted | DFailed => K p s' = K p s \/ file_text p s' = wanted | _ => False end).
  { intros o s3 S3 Ho [= <- <-]. split; [intros q H1 H2; rewrite S3; by apply F1|]. exists o. split; [done|].
    assert (file_text p s3 = wanted) by (unfold file_text in *; by rewrite S3). destruct Ho as [-> | ->]; auto. }
  destruct av; simpl negb in E; cbv iota in E; [|by eapply (Hend DChanged); [exact S2|left|exact E]].
  apply rbind_inv in E as [(ok & s3 & E3 & E)|(e & E3 & _)]; [|unfold rask in E3; destruct (daemon_reload target s2); discriminate].
  assert (S3 : forall q, K q s3 = K q s1).
  { intros q. rewrite <- S2. unfold rask in E3. destruct (daemon_reload target s2) as [b s4] eqn:E4. injection E3 as _ <-. by apply query_answer in E4 as [-> _]. }
  eapply Hend; [exact S3| |exact E]. destruct ok; auto.
Qed.

(** The capability drop-in follows the configuration and respects the
    operator.  Whatever the run reports: "changed" means that the file holds
    exactly the content the configuration asks for (none when the TLS spoof is
    not configured); "unchanged" and "skipped" leave it alone; a failed update
    left the old file or the wanted one, never a torn one.  A file is replaced
    or removed only when it carries the marker, already grants exactly the same,
    or could not be read as text; and no other file is touched. *)
Theorem dropin_follows_config p cfg s r s' : sync_tls_spoof_capability_dropin (Some p) cfg s = (r, s') ->
  (forall q, q <> p -> q <> toml_tmp p -> K q s' = K q s) /\
  (exists o, r = Ok o /\
    match o with
    | DChanged => file_text p s' = desired_tls_spoof_dropin cfg
    | DFailed => K p s' = K p s \/ file_text p s' = desired_tls_spoof_dropin cfg
    | DUnchanged | DSkipped => K p s' = K p s
    end) /\
  (K p s' = K p s \/ forall have, file_text p s = Some have -> replaceable cfg s have).
Proof.
  intros E. unfold sync_tls_spoof_capability_dropin in E.
  apply rbind_inv in E as [(r1 & s1 & E1 & E)|(e & E1 & _)]; apply read_to_string_spec in E1 as (F1 & r2 & Hr & R1); [injection Hr as <-|discriminate].
  cbv zeta in E. set (existing := match r1 with Ok text => Some text | Err _ => None end) in *.
  destruct (plan_tls_spoof_dropin existing (desired_tls_spoof_dropin cfg)) as [|want| |] eqn:Hplan;
    try (injection E as <- <-; split; [by intros q _ _|]; split; [eexists; split; [reflexivity|]; apply F1|left; apply F1]).
  - assert (Hw : desired_tls_spoof_dropin cfg = Some want /\ forall have, file_text p s = Some have -> replaceable cfg s have).
    { unfold plan_tls_spoof_dropin in Hplan. destruct existing as [have|] eqn:Hex; destruct (desired_tls_spoof_dropin cfg) as [w|] eqn:Hd; try done.
      - destruct (String.eqb have w); [done|]. destruct (is_managed have || _) eqn:Hor; [|done]. injection Hplan as ->. split; [done|].
        destruct r1 as [t|]; [|done]. injection Hex as ->. rewrite R1. intros h0 [= <-]. apply orb_prop in Hor as [Hor|Hor]; [by left|].
        right. left. exists want. split; [done|]. by apply bool_decide_eq_true in Hor.
      - by destruct (is_managed have).
      - injection Hplan as ->. split; [done|]. destruct r1; [done|]. intros have Hh. right. right. by apply R1. }
    destruct Hw as [Hw Hrep]. apply replace_dropin_spec in E as (F2 & o & -> & Ho). split; [intros q H1 H2; rewrite F2 by done; apply F1|].
    split; [|by right]. exists o. split; [done|]. rewrite F1 in Ho. destruct o; try done; [by rewrite Hw|]. rewrite Hw. done.
  - assert (Hw : desired_tls_spoof_dropin cfg = None /\ exists have, file_text p s = Some have /\ is_managed have = true).
    { unfold plan_tls_spoof_dropin in Hplan. destruct existing as [have|] eqn:Hex; destruct (desired_tls_spoof_dropin cfg) as [w|]; try done.
      - destruct (String.eqb have w); [done|]. by destruct (is_managed have || _).
      - destruct (is_managed have) eqn:Hm; [|done]. split; [done|]. exists have. destruct r1; [|done]. by injection Hex as ->. }
    destruct Hw as (Hw & have & Hh & Hm). apply replace_dropin_spec in E as (F2 & o & -> & Ho). split; [intros q H1 H2; rewrite F2 by done; apply F1|].
    rewrite F1 in Ho. split; [exists o; split; [done|]; rewrite Hw; by destruct o|]. right. intros h0 Hh0. left. congruence.
Qed.
End Egress.

(** ** Concrete runs *)

Definition ex_file : path := AdminRevision.ex_config.
Definition ex_section : Deployment.GoogleEgressHairpinSection :=
  {| Deployment.relay_host := "ru1.example.test"; Deployment.relay_port := 443; Deployment.relay_server_name := "www.example.com";
     Deployment.relay_reality_public_key := "AAECAwQFBgcICQoLDA0ODxAREhMUFRYXGBkaGxwdHh8"; Deployment.relay_reality_short_id := "0a1b" |}.
Definition with_egress (d : Deployment.DeploymentConfig) (hairpin : option Deployment.GoogleEgressHairpinSection) (o : option Deployment.EgressSection)
  : Deployment.DeploymentConfig :=
  Deployment.Build_DeploymentConfig (Deployment.schema_version d) (Deployment.node_id d) (Deployment.role d) (Deployment.public_host d)
    (Deployment.subscription_host d) (Deployment.reality d) (Deployment.hysteria2 d) (Deployment.subscription d) (Deployment.udp_probe d)
    (Deployment.state_dir d) (Deployment.singbox_binary d) (Deployment.access_paths d) (Deployment.peer_endpoints d) hairpin o
    (Deployment.google_egress_tls_spoof d) (Deployment.exit_principals d) (Deployment.public_ipv4 d) (Deployment.public_ipv6 d).
(** A reader that knows the original and the two edited texts. *)
Definition ex_read (text : string) : option Deployment.DeploymentConfig :=
  if String.eqb text "old" then Some ex_node
  else if String.eqb text (TomlEdit.set_google_egress_hairpin_toml_text TomlEdit.ex_debug "old" ex_section) then Some (with_egress ex_node (Some ex_section) None)
  else if String.eqb text (TomlEdit.replace_section_text "old" "[egress]" (Some (TomlEdit.egress_text TomlEdit.ex_debug Deployment.RejectAll)))
  then Some (with_egress ex_node None (Some {| Deployment.eg_ipv6_literal := Deployment.RejectAll |})) else None.
Definition ex_json (d : Deployment.DeploymentConfig) : json :=
  JObj [("state_dir", JStr (Deployment.state_dir d));
        ("google_egress_hairpin", JNum (if Deployment.google_egress_hairpin d then 1 else 0)); ("egress", JNum (if Deployment.egress d then 1 else 0))].
Definition ex_credential : path := google_egress_hairpin_uuid_file ex_node.
Definition ex_uuid : string := "11111111-2222-4333-8444-555555555555".
(** [old]: the credential in place, if any; the deployment file is readable by
    everyone. *)
Definition ex_machine (old : option string) (fl : list fault) (l : list svc) : St :=
  {| st_fs := {| files := (match old with Some t => <[ex_credential := plain t]> | None => id end)
                            (<[ex_file := {| content := "old"; mode := 420; uid := 0; gid := 0 |}]> (files ex_disk));
                 dirs := dirs ex_disk |};
     st_loaded := Some "old"; st_faults := fl; st_svc := l |}.
Definition ex_hairpin (c : hairpin) (read : string -> option Deployment.DeploymentConfig) (s : St) : result unit egress_error * St :=
  cmd_hairpin TomlEdit.ex_debug 0 18 (fun _ => 990) "7" "1700000000" (fun _ => true) Deployment.ex_key (fun _ => "key") (fun _ => "00") (fun l => l)
    (V := json) ex_print json_print ex_parse ex_de ex_legacy read ex_json ex_host c ex_node ex_file s.
Definition ex_policy (c : policy) (s : St) : result bool egress_error * St :=
  cmd_policy TomlEdit.ex_debug 0 18 (fun _ => 990) "7" "1700000000" (fun _ => true) Deployment.ex_key (fun _ => "key") (fun _ => "00") (fun l => l)
    (V := json) ex_print json_print ex_parse ex_de ex_legacy ex_read ex_json ex_host ex_host c ex_node ex_file s.

Lemma ex_config_apart : apart ex_file ex_node.
Proof. split; [repeat split|]; discriminate. Qed.
Lemma ex_json_object c : StaticRevision.is_object (ex_json c).
Proof. eexists. reflexivity. Qed.
Lemma ex_json_state_dir c : jget (ex_json c) "state_dir" = Some (jstr (Deployment.state_dir c)).
Proof. reflexivity. Qed.
Lemma ex_loaded old fl l : loaded_from ex_read ex_file ex_node (ex_machine old fl l).
Proof. exists "old". by destruct old. Qed.


(** The reload of the candidate fails: the text is back. *)
Lemma policy_change_transactional_witness :
  exists why s', ex_policy (ExitEgress (Some Deployment.RejectAll)) (ex_machine None [] (repeat yes 5 ++ [no])) = (Err (ChangeFailed why true), s') /\
    file_text ex_file s' = Some "old".
Proof.
  destruct (run_result (ex_policy (ExitEgress (Some Deployment.RejectAll)) (ex_machine None [] (repeat yes 5 ++ [no])))
    (Err (ChangeFailed (NotApplied (ReloadFailed true)) true)) ltac:(vm_compute; reflexivity)) as [s' E].
  exists (NotApplied (ReloadFailed true)), s'. split; [exact E|]. unfold ex_policy in E.
  exact (policy_change_transactional (V := json) _ _ _ _ _ _ _ _ _ _ _ _ _ _ _ _ ex_read ex_json _ _ ex_json_object ex_json_state_dir ex_serde
    _ _ _ _ _ _ (proj1 ex_config_apart) (ex_loaded _ _ _) E).
Defined.

Definition ex_dropin : path := {| dir := "/etc/systemd/system/sing-box.service.d"; name := "tls-spoof.conf" |}.
Definition ex_spoofing : Deployment.DeploymentConfig :=
  Deployment.Build_DeploymentConfig (Deployment.schema_version ex_node) (Deployment.node_id ex_node) (Deployment.role ex_node) (Deployment.public_host ex_node)
    (Deployment.subscription_host ex_node) (Deployment.reality ex_node) (Deployment.hysteria2 ex_node) (Deployment.subscription ex_node) (Deployment.udp_probe ex_node)
    (Deployment.state_dir ex_node) (Deployment.singbox_binary ex_node) (Deployment.access_paths ex_node) (Deployment.peer_endpoints ex_node) None None
    (Some {| Deployment.sp_sni := "www.example.com"; Deployment.sp_method := Deployment.WrongSequence |}) (Deployment.exit_principals ex_node)
    (Deployment.public_ipv4 ex_node) (Deployment.public_ipv6 ex_node).
Definition ex_units (text : string) : St :=
  {| st_fs := {| files := {[ ex_dropin := plain text ]}; dirs := {[ dir ex_dropin := {| d_mode := 493; d_gid := 0 |} ]} |};
     st_loaded := None; st_faults := []; st_svc := [] |}.
Definition ex_sync (cfg : Deployment.DeploymentConfig) (s : St) : result DropinSync egress_error * St :=
  sync_tls_spoof_capability_dropin 0 18 (fun _ => 990) "7" (Some ex_dropin) cfg s.

(** A drop-in of the operator's own is left alone. *)
Lemma dropin_follows_config_witness :
  exists s', ex_sync ex_spoofing (ex_units "[Service]") = (Ok DUnchanged, s') /\ file_text ex_dropin s' = Some "[Service]".
Proof.
  destruct (run_result (ex_sync ex_spoofing (ex_units "[Service]")) (Ok DUnchanged) ltac:(vm_compute; reflexivity)) as [s' E].
  exists s'. split; [exact E|]. unfold ex_sync in E. apply dropin_follows_config in E as (_ & (o & [= <-] & Ho) & _).
  unfold file_text. rewrite Ho. reflexivity.
Defined.

(** What is written is recognised as managed, and so removed again. *)
Lemma written_dropin_is_removed cfg want : desired_tls_spoof_dropin cfg = Some want -> plan_tls_spoof_dropin (Some want) None = Remove.
Proof.
  unfold desired_tls_spoof_dropin. destruct (Deployment.google_egress_tls_spoof cfg); [|discriminate]. intros [= <-].
  assert (H : is_managed (MANAGED_MARKER +:+ AdminApply.nl +:+ dropin_body) = true) by (vm_compute; reflexivity). unfold plan_tls_spoof_dropin. by rewrite H.
Qed.

(** After a rollback that is reported as complete the deployment file, which
    the subscription service reads under its own user, has mode 0600: the copy
    takes the mode of the private backup. *)
Lemma rollback_makes_config_private :
  let s := ex_machine (Some "prev") [] [no] in
  let run := ex_hairpin (SetHairpin ex_section ex_uuid) ex_read s in
  fst run = Err (HairpinFailed (NotApplied ServiceUnavailable) true) /\
  option_map mode (files (st_fs s) !! ex_file) = Some 420 /\ option_map mode (files (st_fs (snd run)) !! ex_file) = Some 384.
Proof. vm_compute. auto. Qed.

(** [Ok] although the process still runs the old configuration: the outcome of
    the apply is not looked at. *)
Lemma hairpin_success_without_reload :
  let run := ex_hairpin (SetHairpin ex_section ex_uuid) ex_read (ex_machine None [] [yes; yes; no]) in
  fst run = Ok tt /\ st_loaded (snd run) = Some "old".
Proof. vm_compute. auto. Qed.

(** [clear] without a credential and with a refused edit has changed nothing
    and reports that the rollback failed. *)
Lemma clear_reports_failed_rollback :
  let s := ex_machine None [] [] in
  let run := ex_hairpin ClearHairpin (fun _ => None) s in
  fst run = Err (HairpinPatchRefused TomlEdit.Unparsable false) /\ st_fs (snd run) = st_fs s.
Proof. vm_compute. auto. Qed.

(** The edit is refused, the credential cannot be moved back, and the only
    copy of the old one is deleted. *)
Lemma failed_restore_deletes_credential :
  let run := ex_hairpin (SetHairpin ex_section ex_uuid) (fun _ => None) (ex_machine (Some "prev") (repeat Fine 19 ++ [Fails 0]) []) in
  fst run = Err (HairpinPatchRefused TomlEdit.Unparsable false) /\
  file_text ex_credential (snd run) = Some ex_uuid /\ file_text (rotate_backup_path ex_credential) (snd run) = None.
Proof. vm_compute. auto. Qed.

(** An operator's drop-in that is not UTF-8 is taken for absent and replaced. *)
Lemma foreign_dropin_overwritten :
  let text := "# caf" +:+ String (ascii_of_nat 233) EmptyString in
  let run := ex_sync ex_spoofing (ex_units text) in
  is_managed text = false /\ fst run = Ok DChanged /\ file_text ex_dropin (snd run) = desired_tls_spoof_dropin ex_spoofing.
Proof. vm_compute. auto. Qed.
End AdminEgress.
