(* ===== verification/AdminPairing.v ===== *)
(** * Pairing a relay with an exit

    compat-config/src/pairing.rs: the bundles, their checks and the route an
    exit bundle describes.  apps/admin/src/pairing.rs: issuing and accepting a
    bundle; main.rs: [refresh_stale_subscription_service].  The JSON form of a
    bundle, standard input and output and the random draws are inputs. *)

From S2P Require Import Prelude Strs Net NetText AddressPolicy Credentials Grants Json Contract Render.
From S2P Require Import Deployment StaticRevision Server ServerPolicy Store ConfigApply TomlEdit AdminApply AdminSteps Archive AdminUsers AdminRevocation AdminRevision AdminRotate AdminRestore AdminEgress.
From Stdlib Require Import Ascii.

(** ** Bundles *)

Module Pairing.
Import Contract.Contract Render Deployment.

Definition EXIT_BUNDLE_SCHEMA : string := "singbox-vpn-exit-pairing/1".
Definition HAIRPIN_BUNDLE_SCHEMA : string := "singbox-vpn-hairpin-pairing/1".

Record PairedNode := {
  pn_node_id : string;
  pn_host : string;
  pn_port : Z;
  pn_server_name : string;
  pn_reality_public_key : string;
  pn_reality_short_id : string }.
Record ExitPairingBundle := { eb_schema : string; eb_exit : PairedNode; eb_vless_flow : EndpointVlessFlow; eb_uuid : string }.
Record HairpinPairingBundle := { hb_schema : string; hb_relay : PairedNode; hb_uuid : string }.

Inductive bundle_error :=
| NotJson | UnsupportedSchemaName (schema : string) | BadBundleNodeId | HostNotDialable | HostNotLowercase | BundlePortZero
| ServerNameEmpty | MalformedKey (e : Creds.cred_error) | MalformedShortId | MalformedUuid.

Section Checks.
Context (b64_decode : string -> option (list Z)).

Definition check_node (node : PairedNode) : result unit bundle_error :=
  if negb (is_ok (validate_node_id (pn_node_id node))) then Err BadBundleNodeId else
  if is_blank (pn_host node) || has_whitespace (pn_host node) || str_any (is_char "/") (pn_host node) then Err HostNotDialable else
  if negb (String.eqb (pn_host node) (to_ascii_lowercase (pn_host node))) then Err HostNotLowercase else
  if pn_port node =? 0 then Err BundlePortZero else
  if is_blank (pn_server_name node) then Err ServerNameEmpty else
  let? _ := map_err MalformedKey (Creds.validate_reality_public_key_shape b64_decode (pn_reality_public_key node)) in
  let sid := pn_reality_short_id node in
  if str_is_empty sid || negb (slen sid mod 2 =? 0) || (16 <? slen sid) || negb (str_all is_ascii_hexdigit sid) then Err MalformedShortId else
  Ok tt.
Definition check_uuid (uuid : string) : result unit bundle_error :=
  if Creds.is_uuid_v4_shaped uuid then Ok tt else Err MalformedUuid.

Context (de_exit : string -> option ExitPairingBundle) (de_hairpin : string -> option HairpinPairingBundle).

Definition parse_exit_bundle (text : string) : result ExitPairingBundle bundle_error :=
  let? b := ok_or (de_exit text) NotJson in
  if negb (String.eqb (eb_schema b) EXIT_BUNDLE_SCHEMA) then Err (UnsupportedSchemaName (eb_schema b)) else
  let? _ := check_node (eb_exit b) in
  let? _ := check_uuid (eb_uuid b) in
  Ok b.
Definition parse_hairpin_bundle (text : string) : result HairpinPairingBundle bundle_error :=
  let? b := ok_or (de_hairpin text) NotJson in
  if negb (String.eqb (hb_schema b) HAIRPIN_BUNDLE_SCHEMA) then Err (UnsupportedSchemaName (hb_schema b)) else
  let? _ := check_node (hb_relay b) in
  let? _ := check_uuid (hb_uuid b) in
  Ok b.
End Checks.

Definition peer_endpoint_from_exit_bundle (endpoint_id tag path : string) (bundle : ExitPairingBundle) : PeerEndpointSection :=
  {| pe_id := endpoint_id; pe_tag := tag; pe_host := pn_host (eb_exit bundle); pe_port := pn_port (eb_exit bundle);
     pe_transport := Grants.VlessReality; pe_server_name := Some (pn_server_name (eb_exit bundle));
     pe_reality_public_key := Some (pn_reality_public_key (eb_exit bundle));
     pe_reality_short_id := Some (pn_reality_short_id (eb_exit bundle)); pe_reality_fingerprint := "chrome";
     pe_obfs_password := None; pe_failure_domain := "exit:" +:+ pn_node_id (eb_exit bundle); pe_region := None; pe_provider := None;
     pe_asn := None; pe_path := path; pe_credential_ref := None; pe_vless_flow := eb_vless_flow bundle; pe_extra := [] |}.
(** ** Lemmas: an accepted bundle *)

Section Accepted.
Context (b64_decode : string -> option (list Z)).

Lemma check_node_ok node : check_node b64_decode node = Ok tt ->
  is_ok (validate_node_id (pn_node_id node)) = true /\
  is_blank (pn_host node) || has_whitespace (pn_host node) || str_any (is_char "/") (pn_host node) = false /\
  pn_host node = to_ascii_lowercase (pn_host node) /\ pn_port node <> 0 /\ is_blank (pn_server_name node) = false /\
  Creds.validate_reality_public_key_shape b64_decode (pn_reality_public_key node) = Ok tt /\
  let sid := pn_reality_short_id node in
  str_is_empty sid || negb (slen sid mod 2 =? 0) || (16 <? slen sid) || negb (str_all is_ascii_hexdigit sid) = false.
Proof.
  unfold check_node. cbv zeta. intros H.
  apply if_err_ok in H as [H1 H]. apply if_err_ok in H as [H2 H]. apply if_err_ok in H as [H3 H]. apply if_err_ok in H as [H4 H].
  apply if_err_ok in H as [H5 H]. apply bind_unit_ok in H as [H6 H]. apply if_err_ok in H as [H7 _].
  apply negb_false_iff in H1, H3. apply String.eqb_eq in H3. apply Z.eqb_neq in H4.
  destruct (Creds.validate_reality_public_key_shape b64_decode (pn_reality_public_key node)) as [[]|]; [|discriminate]. done.
Qed.

Lemma parse_exit_bundle_ok de_exit text b : parse_exit_bundle b64_decode de_exit text = Ok b ->
  de_exit text = Some b /\ eb_schema b = EXIT_BUNDLE_SCHEMA /\ check_node b64_decode (eb_exit b) = Ok tt /\ Creds.is_uuid_v4_shaped (eb_uuid b) = true.
Proof.
  unfold parse_exit_bundle, check_uuid. intros H. apply bind_ok in H as (b0 & Hb & H). apply if_err_ok in H as [Hs H].
  apply bind_unit_ok in H as [Hn H]. apply bind_unit_ok in H as [Hu H]. injection H as ->.
  apply negb_false_iff, String.eqb_eq in Hs. destruct (de_exit text); [|discriminate]. injection Hb as ->.
  destruct (Creds.is_uuid_v4_shaped (eb_uuid b)); done.
Qed.

(** The route of an accepted bundle passes the deployment's own checks. *)
Lemma accepted_route_valid de_exit text b i tag path : parse_exit_bundle b64_decode de_exit text = Ok b ->
  is_blank i = false -> is_blank tag = false -> is_blank path = false -> (eb_vless_flow b = FlowNone -> path <> "direct") ->
  PeerEndpointSection_validate b64_decode (peer_endpoint_from_exit_bundle i tag path b) = Ok tt.
Proof.
  intros H Hi Ht Hp Hd. apply parse_exit_bundle_ok in H as (_ & _ & Hn & _).
  apply check_node_ok in Hn as (_ & H2 & _ & H4 & _ & H6 & H7). unfold PeerEndpointSection_validate, validate_transport.
  cbn [peer_endpoint_from_exit_bundle pe_extra pe_id pe_tag pe_failure_domain pe_path pe_credential_ref pe_host pe_port pe_vless_flow pe_transport
    pe_reality_public_key pe_reality_short_id unwrap_or List.find blank_opt].
  rewrite Hi, Ht, Hp, H2. apply Z.eqb_neq in H4. rewrite H4.
  assert (Hf : is_blank ("exit:" +:+ pn_node_id (eb_exit b)) = false) by reflexivity. rewrite Hf.
  rewrite H6. cbn [map_err]. cbv zeta in H7 |- *. rewrite H7. case_bool_decide as Hfl; [|done].
  cbn [bool_decide negb]. rewrite (proj2 (String.eqb_neq path "direct")) by auto. done.
Qed.
End Accepted.
End Pairing.

Module AdminPairing.
Import Render Store ConfigApply AdminApply AdminSteps AdminRotate AdminEgress Pairing.

Definition valid_label (label : string) : bool :=
  negb (str_is_empty label) && (slen label <=? 31)
  && match label with String c _ => is_ascii_lowercase c || is_ascii_digit c | EmptyString => false end
  && str_all (fun c => is_ascii_lowercase c || is_ascii_digit c || is_char "-" c) label.

Inductive pair_error :=
| NotAnExit | WrongNode | BadLabel | BadFlow | NodeUnreadable (e : store_error) | NoShortId | SinkRefused
| BadUserName (e : refusal) | PairUsersUnloadable (e : store_error) | NameTaken | IdsExhausted (e : refusal) | NotCreated (e : admin_error)
| Undelivered (revoked : bool)
| BundleUnreadable | BundleReadableByOthers | BundleRefused (e : bundle_error)
| NotARelayPath | NoRelayPath | SeveralRelayPaths | NoUser | CredentialExists
| RouteRefused (e : TomlEdit.edit_error) | CandidateUnloadable | RouteBackupLost (e : store_error) | RouteRestoreFailed (e : store_error)
| RouteNotApplied (e : admin_error) | UserLost (e : refusal) | PairUsersUnsaved (e : store_error)
| HairpinNotSet (e : egress_error).

(** Where a bundle goes, and where it comes from. *)
Inductive Sink := File (p : path) | Stdout.
Inductive Source := FromStdin (text : option string) | FromFile (p : path) | FromNowhere.

Section Pair.
Context (debug : string -> string).
Context (me_uid umask : Z) (new_gid : string -> Z) (pid ts : string) (check : string -> bool).
Context (b64_decode : string -> option (list Z)) (b64_encode hex_encode : list Z -> string) (sha256_hex : string -> string)
  (mul_base_clamped : list Z -> list Z).
Context {V : Type} `{JsonOps V, !JsonTree V, !JsonEq V}.
Context (ser_pretty ser_compact : V -> string) (de : string -> option V).
Context (ser_users : UsersFile -> string) (de_users : string -> option UsersFile) (de_legacy : string -> option (list Grants.CompatUser)).
Context (toml_config : string -> option Deployment.DeploymentConfig) (normalized : Deployment.DeploymentConfig -> V).
Context (ser_exit : ExitPairingBundle -> string) (de_exit : string -> option ExitPairingBundle).
Context (ser_hairpin : HairpinPairingBundle -> string) (de_hairpin : string -> option HairpinPairingBundle).
(** Standard output: whether it is a terminal, can be diverted, takes the bundle. *)
Context (terminal diverts takes : bool) (d : AdminUsers.Draws).
(** The host while a change is applied and undone ([h], [h']), and while a
    credential is taken back ([g], [g']). *)
Context (h h' g g' : Host).

Local Notation step := (rio pair_error).
Local Notation publish cfg previous us hs hs' := (apply_users_and_save me_uid umask new_gid pid check b64_decode b64_encode sha256_hex
  mul_base_clamped ser_pretty ser_compact de ser_users cfg previous us hs hs').
Local Notation load cfg := (load_users de_users de_legacy (users_file cfg)).

(** ** The sink *)

Definition prepare_sink (out : option path) : step Sink :=
  match out with
  | Some p => rev! _ := rfail (fun _ => SinkRefused) (create_new me_uid umask new_gid p 384) in rret (File p)
  | None => if terminal then rthrow SinkRefused else if diverts then rret Stdout else rthrow SinkRefused
  end.
(** Whether the bundle went out. *)
Definition deliver (sink : Sink) (text : string) : step bool :=
  match sink with
  | File p =>
      rev! written := rfile (do! _ := write_all p text in do! _ := write_all p TomlEdit.nl in sync_all p) in
      match written with
      | Ok _ => rret true
      | Err _ => rev! _ := rfile (remove_file p) in rret false
      end
  | Stdout => rret takes
  end.
Definition abandon (sink : Sink) : step unit :=
  match sink with File p => rev! _ := rfile (remove_file p) in rret tt | Stdout => rret tt end.

Definition remove_dedicated_user (cfg : Deployment.DeploymentConfig) (uid : string) : step bool :=
  rev! current := rfile (load cfg) in
  match current with
  | Err _ => rret false
  | Ok current =>
      let without := List.filter (fun u => negb (String.eqb (Grants.id u) uid)) current in
      rev! r := embed (publish cfg current without g g') in
      rret (is_ok r)
  end.
Definition deliver_or_revoke (cfg : Deployment.DeploymentConfig) (sink : Sink) (uid text : string) : step string :=
  rev! delivered := deliver sink text in
  if (delivered : bool) then rret text else
  rev! revoked := remove_dedicated_user cfg uid in
  rthrow (Undelivered revoked).

(** ** Issuing *)

Definition node_with (cfg : Deployment.DeploymentConfig) (reality : Server.RealityServerParams) (short_id : string) : PairedNode :=
  {| pn_node_id := Deployment.node_id cfg; pn_host := to_ascii_lowercase (Deployment.public_host cfg);
     pn_port := Deployment.re_listen_port (Deployment.reality cfg); pn_server_name := Deployment.re_handshake_server (Deployment.reality cfg);
     pn_reality_public_key := Server.public_key_hex reality; pn_reality_short_id := short_id |}.
Definition paired_node (cfg : Deployment.DeploymentConfig) : step PairedNode :=
  rev! reality := rfail NodeUnreadable (load_reality_params b64_decode b64_encode mul_base_clamped cfg) in
  match Server.short_ids reality with
  | [] => rthrow NoShortId
  | short_id :: _ => rret (node_with cfg reality short_id)
  end.
(** The node of parameters that have a short id. *)
Definition node_of (cfg : Deployment.DeploymentConfig) (reality : Server.RealityServerParams) : PairedNode :=
  node_with cfg reality (hd EmptyString (Server.short_ids reality)).

Definition create_dedicated_user (cfg : Deployment.DeploymentConfig) (n : string) (configure : Grants.CompatUser -> Grants.CompatUser) : step Grants.CompatUser :=
  rev! _ := rlift (map_err BadUserName (AdminUsers.validate_user_display_name n)) in
  rev! users := rfail PairUsersUnloadable (load cfg) in
  if existsb (fun u => String.eqb (Grants.name u) n) users then rthrow NameTaken else
  rev! uid := rlift (map_err IdsExhausted (AdminUsers.draw_id (AdminUsers.d_ids d) users)) in
  let user := configure (AdminUsers.build_new_operator_user b64_encode hex_encode sha256_hex uid n None (now h) d) in
  rev! _ := raise NotCreated (publish cfg users (users ++ [user]) h h') in
  rret user.

(** From the node's parameters to the delivered text. *)
Definition issue (cfg : Deployment.DeploymentConfig) (out : option path) (n : string) (configure : Grants.CompatUser -> Grants.CompatUser)
  (bundle : PairedNode -> string -> string) : step string :=
  rev! node := paired_node cfg in
  rev! sink := prepare_sink out in
  rev! created := attempt (create_dedicated_user cfg n configure) in
  match created with
  | Err e => rev! _ := abandon sink in rthrow e
  | Ok user => deliver_or_revoke cfg sink (Grants.id user) (bundle node (Grants.u_vless_uuid user))
  end.

Definition parse_flow (flow : string) : option EndpointVlessFlow :=
  if String.eqb flow "vision" then Some FlowVision else if String.eqb flow "none" then Some FlowNone else None.
Definition set_exit_principal (x : bool) (u : Grants.CompatUser) : Grants.CompatUser :=
  {| Grants.id := Grants.id u; Grants.name := Grants.name u; Grants.enabled := Grants.enabled u; Grants.u_vless_uuid := Grants.u_vless_uuid u;
     Grants.u_hysteria2_password := Grants.u_hysteria2_password u; Grants.subscription_token_hash_hex := Grants.subscription_token_hash_hex u;
     Grants.created_at := Grants.created_at u; Grants.expires_at := Grants.expires_at u; Grants.vision_off_experiment := Grants.vision_off_experiment u;
     Grants.google_egress_hairpin := Grants.google_egress_hairpin u; Grants.exit_principal := x; Grants.peer_credentials := Grants.peer_credentials u;
     Grants.is_reserved_probe := Grants.is_reserved_probe u; Grants.credentials := Grants.credentials u |}.
Definition exit_bundle (flow : EndpointVlessFlow) (node : PairedNode) (uuid : string) : ExitPairingBundle :=
  {| eb_schema := EXIT_BUNDLE_SCHEMA; eb_exit := node; eb_vless_flow := flow; eb_uuid := uuid |}.
Definition hairpin_bundle (node : PairedNode) (uuid : string) : HairpinPairingBundle :=
  {| hb_schema := HAIRPIN_BUNDLE_SCHEMA; hb_relay := node; hb_uuid := uuid |}.

Definition issue_exit (cfg : Deployment.DeploymentConfig) (label flow : string) (out : option path) : step string :=
  let as_principal := bool_decide (Deployment.role cfg = Deployment.Relay) in
  if as_principal && negb (Deployment.exit_principals_enabled cfg) then rthrow NotAnExit else
  if negb as_principal && negb (bool_decide (Deployment.role cfg = Deployment.Exit)) then rthrow WrongNode else
  if negb (valid_label label) then rthrow BadLabel else
  match parse_flow flow with
  | None => rthrow BadFlow
  | Some vless_flow =>
      issue cfg out ("peer-" +:+ label)
        (fun u => set_exit_principal as_principal (AdminUsers.set_vision_off (bool_decide (vless_flow = FlowNone)) u))
        (fun node uuid => ser_exit (exit_bundle vless_flow node uuid))
  end.
Definition issue_hairpin (cfg : Deployment.DeploymentConfig) (label : string) (out : option path) : step string :=
  if negb (bool_decide (Deployment.role cfg = Deployment.Relay)) then rthrow WrongNode else
  if negb (valid_label label) then rthrow BadLabel else
  issue cfg out ("hairpin-" +:+ label) (AdminUsers.set_hairpin true) (fun node uuid => ser_hairpin (hairpin_bundle node uuid)).

(** ** Accepting *)

Definition LIMIT : nat := 64 * 1024.
Definition read_bundle (source : Source) : step string :=
  match source with
  | FromStdin (Some text) =>
      let text := String.substring 0 LIMIT text in if AdminRestore.utf8 text then rret text else rthrow BundleUnreadable
  | FromStdin None | FromNowhere => rthrow BundleUnreadable
  | FromFile p =>
      rev! m := rfail (fun _ => BundleUnreadable) (file_mode p) in
      if negb (Z.land m 63 =? 0) then rthrow BundleReadableByOthers else
      rev! text := rfail (fun _ => BundleUnreadable) (read_file p) in
      let text := String.substring 0 LIMIT text in if AdminRestore.utf8 text then rret text else rthrow BundleUnreadable
  end.

Definition relay_paths (cfg : Deployment.DeploymentConfig) : list string :=
  map Deployment.as_id (List.filter (fun p => String.eqb (Deployment.as_kind p) "relay") (Deployment.access_paths cfg)).
Definition choose_path (cfg : Deployment.DeploymentConfig) (path_id : option string) : result string pair_error :=
  match path_id with
  | Some p => if existsb (String.eqb p) (relay_paths cfg) then Ok p else Err NotARelayPath
  | None => match relay_paths cfg with [only] => Ok only | [] => Err NoRelayPath | _ => Err SeveralRelayPaths end
  end.
(** The middle dot of [" · via "]. *)
Definition via : string := String " " (String (ascii_of_nat 194) (String (ascii_of_nat 183) " via ")).
Definition default_tag (bundle : ExitPairingBundle) (cfg : Deployment.DeploymentConfig) : string :=
  pn_node_id (eb_exit bundle) +:+ via +:+ Deployment.node_id cfg.

Record AcceptExitArgs := {
  user_id : string; endpoint_id : string; aa_tag : option string; path_id : option string; source : Source; replace_credential : bool }.

Local Notation peer_toml := (TomlEdit.apply_peer_endpoint_toml debug me_uid umask new_gid pid ts b64_decode toml_config normalized).
Local Notation regenerate cfg hs := (AdminRestore.regenerate_singbox_config me_uid umask new_gid pid check b64_decode b64_encode sha256_hex mul_base_clamped
  ser_pretty ser_compact de de_users de_legacy cfg hs).

(** Step 1: the route, declared and applied. *)
Definition declare_route (cfg : Deployment.DeploymentConfig) (config_path : path) (wanted : Deployment.PeerEndpointSection) : step Deployment.DeploymentConfig :=
  rev! declared := redit (peer_toml config_path wanted) in
  match declared with
  | Err e => rthrow (RouteRefused e)
  | Ok declared =>
      rev! loaded := attempt (load_deployment b64_decode toml_config config_path) in
      match loaded with
      | Err _ => rthrow CandidateUnloadable
      | Ok candidate =>
          match declared with
          | TomlEdit.Edited backup =>
              rev! applied := embed (regenerate candidate h) in
              match applied with
              | Ok _ => rret candidate
              | Err e =>
                  rev! bytes := rfail RouteBackupLost (read_file backup) in
                  rev! _ := rfail RouteRestoreFailed (atomic_write me_uid umask new_gid pid config_path bytes 420) in
                  rev! _ := embed (regenerate cfg h') in
                  rthrow (RouteNotApplied e)
              end
          | _ => rret candidate
          end
      end
  end.

(** ** [refresh_stale_subscription_service] *)

Inductive SubscriptionFreshness := Current | Stale (expected : string) | Unverifiable.
Definition classify_subscription_freshness (live expected : option string) : SubscriptionFreshness :=
  match live, expected with
  | Some live, Some expected => if String.eqb live expected then Current else Stale expected
  | _, _ => Unverifiable
  end.
(** What the running service answers, and the JSON text of its endpoints. *)
Context (live_fingerprint : option string) (endpoints_string : list CompatEndpoint -> option string).
Definition endpoints_fingerprint (endpoints : list CompatEndpoint) : string :=
  Creds.hash_token sha256_hex (unwrap_or (endpoints_string endpoints) EmptyString).
Definition subscription_freshness (cfg : Deployment.DeploymentConfig) : step SubscriptionFreshness :=
  rev! reality := rfile (load_reality_params b64_decode b64_encode mul_base_clamped cfg) in
  match reality with
  | Err _ => rret (classify_subscription_freshness live_fingerprint None)
  | Ok reality =>
      rev! hysteria := rfail NodeUnreadable (load_hysteria_params cfg h) in
      let expected := match Deployment.served_endpoints b64_decode cfg (Server.public_key_hex reality) (hd EmptyString (Server.short_ids reality))
                              (Server.obfs_password hysteria) with
                      | Ok endpoints => Some (endpoints_fingerprint endpoints)
                      | Err _ => None
                      end in
      rret (classify_subscription_freshness live_fingerprint expected)
  end.
Definition restart_stamp (cfg : Deployment.DeploymentConfig) : path :=
  {| dir := Deployment.state_dir cfg; name := "subscription-restarted-for.sha256" |}.
Definition refresh_stale_subscription_service (cfg : Deployment.DeploymentConfig) : step unit :=
  rev! fresh := subscription_freshness cfg in
  match fresh with
  | Stale expected =>
      rev! stamp := rfile (read_file (restart_stamp cfg)) in
      if match stamp with Ok t => String.eqb (trim t) expected | Err _ => false end then rret tt else
      let target := singbox_config_file cfg in
      rev! available := rask (is_available target) in
      if negb available then rret tt else
      rev! installed := rask (is_unit_installed target) in
      if negb installed then rret tt else
      rev! up := rask (sub_reload_and_verify target) in
      if (up : bool) then rev! _ := rfile (write_secret_file me_uid umask new_gid (restart_stamp cfg) expected) in rret tt
      else rret tt
  | _ => rret tt
  end.

(** Step 2: the credential for the user. *)
Definition grant_credential (candidate : Deployment.DeploymentConfig) (uid endpoint uuid : string) : step unit :=
  rev! users := rfail PairUsersUnloadable (load candidate) in
  rev! changed := rlift (map_err UserLost
    (AdminUsers.find_user_mut users uid (AdminUsers.insert_peer endpoint (Grants.PeerVlessReality uuid) false))) in
  rev! _ := rfail PairUsersUnsaved (save_users_atomic me_uid umask new_gid pid ser_users (users_file candidate) changed) in
  refresh_stale_subscription_service candidate.

Definition accept_exit (cfg : Deployment.DeploymentConfig) (config_path : path) (args : AcceptExitArgs) : step unit :=
  if negb (bool_decide (Deployment.role cfg = Deployment.Relay)) then rthrow WrongNode else
  rev! text := read_bundle (source args) in
  rev! bundle := rlift (map_err BundleRefused (parse_exit_bundle b64_decode de_exit text)) in
  rev! p := rlift (choose_path cfg (path_id args)) in
  let wanted := peer_endpoint_from_exit_bundle (endpoint_id args) (unwrap_or (aa_tag args) (default_tag bundle cfg)) p bundle in
  rev! users := rfail PairUsersUnloadable (load cfg) in
  match AdminUsers.find_user users (user_id args) with
  | None => rthrow NoUser
  | Some user =>
      if contains_key (endpoint_id args) (Grants.peer_credentials user) && negb (replace_credential args) then rthrow CredentialExists else
      rev! candidate := declare_route cfg config_path wanted in
      grant_credential candidate (user_id args) (endpoint_id args) (eb_uuid bundle)
  end.

Definition hairpin_section_of (bundle : HairpinPairingBundle) : Deployment.GoogleEgressHairpinSection :=
  {| Deployment.relay_host := pn_host (hb_relay bundle); Deployment.relay_port := pn_port (hb_relay bundle);
     Deployment.relay_server_name := pn_server_name (hb_relay bundle);
     Deployment.relay_reality_public_key := pn_reality_public_key (hb_relay bundle);
     Deployment.relay_reality_short_id := pn_reality_short_id (hb_relay bundle) |}.
Definition accept_hairpin (cfg : Deployment.DeploymentConfig) (config_path : path) (from : Source) : step unit :=
  if negb (bool_decide (Deployment.role cfg = Deployment.Exit)) then rthrow WrongNode else
  rev! text := read_bundle from in
  rev! bundle := rlift (map_err BundleRefused (parse_hairpin_bundle b64_decode de_hairpin text)) in
  rev! r := attempt (cmd_google_egress_hairpin_set debug me_uid umask new_gid pid ts check b64_decode b64_encode sha256_hex mul_base_clamped
                       ser_pretty ser_compact de de_users de_legacy toml_config normalized h cfg config_path (hairpin_section_of bundle) (hb_uuid bundle)) in
  match r with Ok _ => rret tt | Err e => rthrow (HairpinNotSet e) end.
(** ** Lemmas: the route *)

Lemma choose_path_ok cfg o p : choose_path cfg o = Ok p ->
  exists a, In a (Deployment.access_paths cfg) /\ Deployment.as_id a = p /\ Deployment.as_kind a = "relay".
Proof.
  intros E. assert (Hin : In p (relay_paths cfg)).
  { unfold choose_path in E. destruct o as [q|].
    - destruct (existsb (String.eqb q) (relay_paths cfg)) eqn:Ex; [|discriminate]. injection E as ->.
      apply existsb_exists in Ex as (x & Hx & Hq). apply String.eqb_eq in Hq. by subst.
    - destruct (relay_paths cfg) as [|only [|? ?]]; try discriminate. injection E as ->. by left. }
  apply in_map_iff in Hin as (a & Ha & Hin). apply filter_In in Hin as [Hin Hk]. apply String.eqb_eq in Hk. eauto.
Qed.
Lemma path_nonblank cfg a : is_ok (Deployment.validate b64_decode cfg) = true -> In a (Deployment.access_paths cfg) -> is_blank (Deployment.as_id a) = false.
Proof.
  intros Hv Ha. destruct (Deployment.validate b64_decode cfg) as [[]|] eqn:E; [|discriminate]. apply Deployment.validate_ok in E.
  apply (Deployment.dk_paths _ _ E) in Ha. unfold Deployment.AccessPathSection_validate in Ha.
  destruct (List.find _ _); [discriminate|]. destruct (Deployment.as_extra a); [|discriminate]. by destruct (is_blank (Deployment.as_id a)).
Qed.

(** C32: The route a relay declares from an exit's bundle is the exit's own
    REALITY endpoint.  For every bundle the parser accepts that describes the
    exit, every relay path the deployment offers and a non-blank id and tag
    (and not a bundle without flow on a path called "direct"), the section
    passes its own checks, and what clients are given for it is the transport,
    port, server name, public key and short id of the endpoint the exit
    publishes for itself, at the same host in lower case, reached over that
    relay path with the flow of the bundle.  When moreover id and tag are
    neither reserved nor used by another peer, and the path has a first hop
    that is not this endpoint and, if it is the relay itself, a host that may
    be relayed to, the whole deployment with the section added passes every
    check. *)
Theorem accepted_route_is_the_exit relay exit params flow uuid obfs text o i tag p ces :
  Deployment.validate b64_decode relay = Ok tt ->
  parse_exit_bundle b64_decode de_exit text = Ok (exit_bundle flow (node_of exit params) uuid) ->
  choose_path relay o = Ok p -> is_blank i = false -> is_blank tag = false -> (flow = FlowNone -> p <> "direct") ->
  Deployment.served_endpoints b64_decode exit (Server.public_key_hex params) (hd EmptyString (Server.short_ids params)) obfs = Ok ces ->
  let w := peer_endpoint_from_exit_bundle i tag p (exit_bundle flow (node_of exit params) uuid) in
  (exists e own a,
    Deployment.to_compat_endpoint b64_decode w = Ok e /\
    In own ces /\ ce_id own = Deployment.LOCAL_REALITY_ENDPOINT_ID /\
    ce_transport e = ce_transport own /\ ce_host e = to_ascii_lowercase (ce_host own) /\ ce_port e = ce_port own /\
    ce_server_name e = ce_server_name own /\ ce_public_parameters e = ce_public_parameters own /\
    ce_id e = i /\ ce_origin e = Peer /\ ce_vless_flow e = flow /\ ce_path e = Some p /\
    In a (Deployment.access_paths relay) /\ Deployment.as_id a = p /\ Deployment.as_kind a = "relay") /\
  (~ In i (Deployment.LOCAL_ENDPOINT_IDS ++ map Deployment.pe_id (Deployment.peer_endpoints relay)) ->
   ~ In tag (Deployment.RESERVED_ENDPOINT_TAGS ++ map Deployment.pe_tag (Deployment.peer_endpoints relay)) ->
   (forall a, Deployment.relay_path relay p = Some a -> exists v, Deployment.as_via_endpoint_id a = Some v /\ v <> i /\
      (v = Deployment.LOCAL_REALITY_ENDPOINT_ID -> Deployment.validate_relay_target_host (to_ascii_lowercase (Deployment.public_host exit)) = true)) ->
   Deployment.validate b64_decode (Deployment.with_peer relay w) = Ok tt).
Proof.
  intros Hv Hb Hp Hi Ht Hd Hs w. apply choose_path_ok in Hp as (a & Ha & <- & Hk).
  assert (Hv' : is_ok (Deployment.validate b64_decode relay) = true) by by rewrite Hv. pose proof (path_nonblank _ _ Hv' Ha) as Hblank.
  pose proof (accepted_route_valid _ _ _ _ i tag (Deployment.as_id a) Hb Hi Ht Hblank Hd) as Hok. fold w in Hok. split.
  - apply Deployment.served_endpoints_ok in Hs as (peers & -> & _).
    unfold Deployment.to_compat_endpoint. rewrite Hok. eexists. eexists. exists a. split; [reflexivity|]. split.
    { apply in_or_app. left. unfold Deployment.own_endpoints. case_match; [apply filter_In; split|]; [left; reflexivity|reflexivity|left; reflexivity]. }
    done.
  - intros Hfi Hft Hroute. apply Deployment.with_peer_valid; [done|exact Hok|exact Hfi|exact Hft|by exists a|done|].
    unfold Deployment.check_relay_route. destruct (String.eqb _ "direct"); [done|]. change (Deployment.pe_path w) with (Deployment.as_id a).
    destruct (Deployment.relay_path relay (Deployment.as_id a)) as [b|]; [|done]. destruct (Hroute b eq_refl) as (v & -> & Hne & Hloc).
    cbn [ok_or result_bind]. change (Deployment.pe_id w) with i. rewrite (proj2 (String.eqb_neq _ _) Hne).
    change (Deployment.pe_host w) with (to_ascii_lowercase (Deployment.public_host exit)).
    destruct (String.eqb_spec v Deployment.LOCAL_REALITY_ENDPOINT_ID) as [->|]; [by rewrite Hloc|done].
Qed.
(** ** Lemmas: publishing and delivering *)

Local Notation K p s := (files (st_fs s) !! p).
Local Notation stored := (stored_users de_users de_legacy).
Hypothesis serde_users : forall f, de_users (ser_users f) = Some f.

(** The users file of [cfg] read as [us], when a call of the read may fail. *)
Definition read_as (cfg : Deployment.DeploymentConfig) (us : list Grants.CompatUser) (s : St) : Prop :=
  exists fl, fst (fst (load cfg (st_fs s) fl)) = Ok us.



Lemma load_step (wrap : store_error -> pair_error) cfg s r s' : rfail wrap (load cfg) s = (r, s') ->
  same_files s s' /\ (calm s -> calm s') /\
  match r with Ok us => read_as cfg us s /\ (calm s -> stored cfg s = Ok us) | Err e => exists x, e = wrap x end.
Proof.
  intros E. pose proof (users_tame de_users de_legacy (fun _ => False) wrap _ _ _ _ E) as [F C]. split; [intros q; apply F; auto|]. split; [done|].
  apply rfail_inv in E as (r0 & fs & fl & E & -> & Hf & _).
  destruct r0 as [us|e]; simpl; [|eauto]. split; [exists (st_faults s); by rewrite E|].
  unfold calm, stored_users. intros Hc. rewrite Hc in E. by rewrite E.
Qed.





(** Accounts that were read are the stored ones: a failed call of the read
    gives an error or an empty list. *)
Lemma read_as_stored cfg us s : read_as cfg us s -> us <> [] -> stored cfg s = Ok us.
Proof.
  intros [fl Hr] Hne. destruct (load cfg (st_fs s) fl) as [[r fs] fl'] eqn:E. cbn [fst] in Hr. subst r.
  unfold stored_users. rewrite load_no_fault. apply load_ok in E as [E|[E _]]; [done|by rewrite E in Hne].
Qed.






(** ** Issuing *)

Inductive issuing := IssueExit (label flow : string) | IssueHairpin (label : string).
Definition run_issue (c : issuing) (cfg : Deployment.DeploymentConfig) (out : option path) : step string :=
  match c with IssueExit label flow => issue_exit cfg label flow out | IssueHairpin label => issue_hairpin cfg label out end.

(** ** Lemmas: accepting *)

Context `{!JsonLaws V, !JsonViewLaws V, !JsonEqLaws V}.
Hypothesis normalized_object : forall c, StaticRevision.is_object (normalized c).
Hypothesis normalized_state_dir : forall c, jget (normalized c) "state_dir" = Some (jstr (Deployment.state_dir c)).

Local Notation loaded_from := (AdminEgress.loaded_from toml_config).
Local Notation config_file := (AdminEgress.config_file pid ts).
Local Notation added wanted p s s' := (TomlEdit.edited ts b64_decode toml_config normalized (TomlEdit.edits (TomlEdit.AddPeer wanted))
  (TomlEdit.extra_of (TomlEdit.AddPeer wanted)) p (st_fs s) (st_fs s') (backup_path ts p)).

(** The file already has the route. *)
Definition has_route (p : path) (wanted : Deployment.PeerEndpointSection) (s : St) : Prop :=
  exists old e, loaded_from p old s /\ In e (Deployment.peer_endpoints old) /\ Deployment.pe_id e = Deployment.pe_id wanted /\ TomlEdit.same_route e wanted = true.
(** How a declared route got into the file. *)
Definition declared (p : path) (wanted : Deployment.PeerEndpointSection) (s s' : St) : Prop :=
  added wanted p s s' \/ has_route p wanted s /\ K p s' = K p s.

Lemma peer_step {X} p wanted s r s1 : redit (X := X) (peer_toml p wanted) s = (r, s1) ->
  st_loaded s1 = st_loaded s /\ (forall q, ~ config_file p q -> K q s1 = K q s) /\
  exists r0, r = Ok r0 /\
    match r0 with
    | Ok (TomlEdit.Edited b) => b = backup_path ts p /\ added wanted p s s1
    | Ok _ => has_route p wanted s /\ K p s1 = K p s
    | Err _ => K p s1 = K p s
    end.
Proof.
  unfold redit. destruct (peer_toml p wanted (st_fs s) (st_faults s)) as [[r0 fs] fl] eqn:Em. intros [= <- <-]. simpl. split; [done|].
  pose proof (TomlEdit.run_edit_spec debug me_uid umask new_gid pid ts b64_decode toml_config normalized normalized_object (TomlEdit.AddPeer wanted) _ _ _ _ _ _ Em) as [Hw R].
  split; [intros q Hq; apply Hw; intros ->; apply Hq; unfold AdminEgress.config_file; auto|].
  exists r0. split; [done|]. destruct r0 as [o|e]; [|done].
  assert (Hcase : (exists b, o = TomlEdit.Edited b) \/ has_route p wanted s).
  { unfold TomlEdit.apply_peer_endpoint_toml in Em. apply TomlEdit.ebind_inv in Em as [([original old] & fs1 & fl1 & E1 & Em)|(e & _ & [=])].
    unfold TomlEdit.load_original in E1. apply TomlEdit.ebind_inv in E1 as [(t & fs2 & fl2 & E2 & E1)|(e & _ & [=])].
    apply TomlEdit.efile_inv in E2 as (r2 & E2 & Hr2). destruct r2 as [t'|]; [|discriminate]. injection Hr2 as <-.
    apply read_file_ok in E2 as (f & Hf & -> & _). unfold TomlEdit.ebind, TomlEdit.elift, ok_or in E1.
    destruct (toml_config (content f)) as [c|] eqn:Hc; [|discriminate]. destruct (Deployment.validate b64_decode c); [|discriminate]. injection E1 as <- <- _ _.
    destruct (List.find _ (Deployment.peer_endpoints c)) as [e|] eqn:Hfind.
    - right. apply find_some in Hfind as [Hin Hid]. apply String.eqb_eq in Hid. destruct (TomlEdit.same_route e wanted) eqn:Hs; [|discriminate].
      exists c, e. split; [|done]. exists (content f). unfold file_text. by rewrite Hf.
    - left. cbv zeta in Em. apply TomlEdit.ebind_inv in Em as [(new & fs3 & fl3 & _ & Em)|(e & _ & [=])]. destruct (_ || _) in Em; [discriminate|].
      apply TomlEdit.ebind_inv in Em as [(b & fs4 & fl4 & _ & Em)|(e & _ & [=])]. injection Em as <- _ _. eauto. }
  destruct o; [destruct Hcase as [[b [=]]|Hcase]; done|destruct Hcase as [[b [=]]|Hcase]; done|].
  pose proof R as (? & ? & ? & ? & _ & _ & _ & _ & _ & _ & _ & _ & -> & _). done.
Qed.

(** Steps that never stop with an error. *)
Definition settled {A} (m : step A) : Prop := forall s, exists a s', m s = (Ok a, s').
Lemma settled_ret {A} (a : A) : settled (rret a).
Proof. intros s. by eexists _, _. Qed.
Lemma settled_bind {A B} (m : step A) (k : A -> step B) : settled m -> (forall a, settled (k a)) -> settled (rbind m k).
Proof. intros Hm Hk s. destruct (Hm s) as (a & s1 & E). unfold rbind. rewrite E. apply Hk. Qed.
Lemma settled_file {A} (m : io A) : settled (rfile m).
Proof. intros s. destruct (rfile_total (X := pair_error) m s) as (r & s1 & E). eauto. Qed.
Lemma settled_ask f : settled (rask f).
Proof. intros s. unfold rask. destruct (f s). eauto. Qed.
Lemma settled_hysteria (wrap : store_error -> pair_error) cfg hs : settled (rfail wrap (load_hysteria_params cfg hs)).
Proof.
  intros s. unfold rfail, rbind, rfile, load_hysteria_params, bind, try, ret.
  destruct (read_trimmed _ _ _) as [[[x|x] fs1] fl1]; by eexists _, _.
Qed.

Lemma refresh_spec cfg s r s' : refresh_stale_subscription_service cfg s = (r, s') ->
  r = Ok tt /\ forall q, q <> restart_stamp cfg -> K q s' = K q s.
Proof.
  intros E. assert (Hf : rframe (fun q => q = restart_stamp cfg) (refresh_stale_subscription_service cfg)).
  { unfold refresh_stale_subscription_service, subscription_freshness.
    repeat first
      [ apply rframe_ret | apply ask_available_frame | apply ask_installed_frame | apply ask_subscription_frame
      | eapply rframe_file; [|apply load_reality_frame]; done | eapply rframe_fail; [|apply load_hysteria_frame]; done
      | eapply rframe_file; [|apply read_frame]; done | eapply rframe_file; [|apply write_secret_frame]; done
      | apply rframe_bind; [|intros ?] | case_match ]. }
  split; [|intros q Hq; by eapply Hf]. assert (Hn : settled (refresh_stale_subscription_service cfg)).
  { unfold refresh_stale_subscription_service, subscription_freshness.
    repeat first [ apply settled_ret | apply settled_file | apply settled_ask | apply settled_hysteria | apply settled_bind; [|intros ?] | case_match ]. }
  destruct (Hn s) as ([] & s1 & E1). congruence.
Qed.
Lemma load_deployment_spec {X} p s r s' : attempt (Y := X) (load_deployment b64_decode toml_config p) s = (r, s') ->
  same_files s s' /\ exists r0, r = Ok r0 /\ match r0 with Ok c => loaded_from p c s /\ is_ok (Deployment.validate b64_decode c) = true | Err _ => True end.
Proof.
  unfold attempt. destruct (load_deployment b64_decode toml_config p s) as [r0 s0] eqn:E. intros [= <- <-]. unfold load_deployment in E.
  apply rbind_inv in E as [(text & s1 & E1 & E)|(e & E1 & ->)]; apply read_text_inv in E1 as [S1 Ht].
  - injection E as E <-. split; [done|]. eexists. split; [reflexivity|]. destruct r0 as [c|]; [|done].
    destruct (toml_config text) as [c'|] eqn:Hc; [|discriminate]. destruct (is_ok (Deployment.validate b64_decode c')) eqn:Hv; [|discriminate].
    injection E as ->. split; [|done]. exists text. auto.
  - split; [done|]. eexists. split; [reflexivity|]. done.
Qed.
Lemma regenerate_step {X} a cfg hs s r s' : Deployment.state_dir a = Deployment.state_dir cfg -> embed (X := X) (regenerate a hs) s = (r, s') ->
  (forall q, ~ own_files cfg q -> K q s' = K q s) /\ exists r0, r = Ok r0.
Proof.
  intros Hd. unfold embed. destruct (regenerate a hs s) as [r0 s0] eqn:E. intros [= <- <-]. split; [|eauto]. intros q Hq.
  eapply AdminRestore.regenerate_frame; [exact E|]. intros Ho. by apply Hq, (AdminRevision.own_same a).
Qed.

Lemma declare_route_spec cfg p wanted s r s' : AdminRevision.apart p cfg -> loaded_from p cfg s -> declare_route cfg p wanted s = (r, s') ->
  (forall q, ~ config_file p q -> ~ own_files cfg q -> K q s' = K q s) /\
  match r with
  | Ok candidate => loaded_from p candidate s' /\ is_ok (Deployment.validate b64_decode candidate) = true /\
      Deployment.state_dir candidate = Deployment.state_dir cfg /\ declared p wanted s s'
  | Err (RouteNotApplied _) => file_text p s' = file_text p s
  | Err (RouteRefused _) => K p s' = K p s
  | Err CandidateUnloadable | Err (RouteBackupLost _) | Err (RouteRestoreFailed _) => declared p wanted s s'
  | Err _ => False
  end.
Proof.
  intros Ha Hload E. unfold declare_route in E. destruct (toml_bak_ne pid ts p) as [Hb1 Hb2].
  assert (Hown : forall q, config_file p q -> ~ own_files cfg q) by (intros q; by apply AdminEgress.config_outside).
  apply rbind_inv in E as [(dr & s1 & E1 & E)|(e & E1 & _)]; apply peer_step in E1 as (_ & F1 & r1 & Hr & R1); [injection Hr as <-|discriminate].
  destruct dr as [o|e]; [|injection E as <- <-; split; [by auto|done]].
  assert (Hdecl : declared p wanted s s1) by (destruct o; [right; exact R1|right; exact R1|left; apply R1]).
  assert (Hext : forall s2, K p s2 = K p s1 -> K (backup_path ts p) s2 = K (backup_path ts p) s1 -> declared p wanted s s2).
  { intros s2 H1 H2. destruct Hdecl as [Hd|[Hd Hk]]; [left; by eapply AdminEgress.edited_ext|right; by rewrite H1]. }
  assert (Hdir : forall c, loaded_from p c s1 -> Deployment.state_dir c = Deployment.state_dir cfg).
  { intros c (t & Ht & Hc). destruct Hdecl as [Hd|[_ Hk]].
    - eapply (AdminEgress.edited_state_dir ts b64_decode toml_config normalized normalized_state_dir (TomlEdit.AddPeer wanted)); [exact Hload| |exact Hd|exact Ht|exact Hc].
      simpl. intros [?|[]]; discriminate.
    - destruct Hload as (t0 & Ht0 & Hc0). unfold file_text in *. rewrite Hk in Ht. congruence. }
  apply rbind_inv in E as [(ld & s2 & E2 & E)|(e & E2 & _)]; apply load_deployment_spec in E2 as (S2 & r2 & Hr & R2); [injection Hr as <-|discriminate].
  assert (Hs2 : forall q, ~ config_file p q -> K q s2 = K q s) by (intros q Hq; rewrite S2; auto).
  destruct ld as [candidate|e]; [|injection E as <- <-; split; [auto|by apply Hext]]. destruct R2 as [Hl2 Hv2]. specialize (Hdir _ Hl2).
  assert (Hl : forall s3, K p s3 = K p s1 -> loaded_from p candidate s3) by (intros s3 H3; unfold AdminEgress.loaded_from, file_text in *; by rewrite H3).
  assert (Hret : (rret (X := pair_error) candidate s2 = (r, s')) -> (forall q, ~ config_file p q -> ~ own_files cfg q -> K q s' = K q s) /\
    match r with Ok c => loaded_from p c s' /\ is_ok (Deployment.validate b64_decode c) = true /\ Deployment.state_dir c = Deployment.state_dir cfg /\ declared p wanted s s' | Err _ => False end)
    by (intros [= <- <-]; split; [auto|]; split; [by apply Hl|]; split; [done|]; split; [done|]; by apply Hext).
  destruct o as [| |backup]; [apply Hret in E as [? ?]; by destruct r|apply Hret in E as [? ?]; by destruct r|]. clear Hret.
  destruct R1 as [-> Hed].
  apply rbind_inv in E as [(ap & s3 & E3 & E)|(e & E3 & _)]; apply (regenerate_step _ cfg) in E3 as [F3 [r3 Hr]]; try done.
  assert (Hp3 : K p s3 = K p s1) by (rewrite F3 by (apply Hown; by left); apply S2).
  assert (Hb3 : K (backup_path ts p) s3 = K (backup_path ts p) s1) by (rewrite F3 by (apply Hown; by right; right); apply S2).
  assert (Hs3 : forall q, ~ config_file p q -> ~ own_files cfg q -> K q s3 = K q s) by (intros q H1 H2; rewrite F3; auto).
  destruct ap as [live|why]; [injection E as <- <-; split; [done|]; split; [by apply Hl|]; split; [done|]; split; [done|]; by apply Hext|].
  apply rbind_inv in E as [(bytes & s4 & E4 & E)|(e & E4 & ->)]; pose proof E4 as E4'; apply read_text_inv in E4 as [S4 Ht4].
  2:{ apply rfail_inv in E4' as (r4 & _ & _ & _ & Hr4 & _). destruct r4; [discriminate|]. injection Hr4 as ->.
      split; [intros q H1 H2; rewrite S4; auto|]. apply Hext; by rewrite S4. }
  specialize (Ht4 _ eq_refl).
  assert (Horig : file_text p s = Some bytes).
  { destruct Hed as (original & _ & _ & _ & Ho & _ & _ & _ & _ & _ & _ & _ & _ & Hb). unfold file_text in *. rewrite Hb3 in Ht4. congruence. }
  apply rbind_inv in E as [(u & s5 & E5 & E)|(e & E5 & ->)]; apply rfail_rfile in E5 as (r5 & E5 & Hr5);
    apply write_text_spec in E5 as (r5' & [= <-] & F5 & R5); destruct r5; try discriminate.
  - apply rbind_inv in E as [(x & s6 & E6 & E)|(e & E6 & _)]; apply (regenerate_step _ cfg) in E6 as [F6 [r6 Hr6]]; try done. injection E as <- <-.
    split; [|unfold file_text in *; rewrite F6 by (apply Hown; by left); congruence].
    intros q H1 H2. rewrite F6 by done. rewrite F5 by (intros ->; apply H1; unfold AdminEgress.config_file; auto). by rewrite S4; auto.
  - injection Hr5 as ->. split; [|apply Hext; [rewrite R5, S4; exact Hp3|rewrite F5 by done; rewrite S4; exact Hb3]].
    intros q H1 H2. rewrite F5 by (intros ->; apply H1; unfold AdminEgress.config_file; auto). by rewrite S4; auto.
Qed.
Definition bundle_text (from : Source) (text : string) (s : St) : Prop :=
  match from with
  | FromStdin (Some t) => text = String.substring 0 LIMIT t
  | FromFile q => exists f, K q s = Some f /\ Z.land (mode f) 63 = 0 /\ text = String.substring 0 LIMIT (content f)
  | _ => False
  end.
Lemma read_bundle_spec from s r s' : read_bundle from s = (r, s') -> same_files s s' /\
  match r with Ok text => bundle_text from text s | Err e => e = BundleUnreadable \/ e = BundleReadableByOthers end.
Proof.
  unfold read_bundle. destruct from as [[t|]|q|]; [|intros [= <- <-]; split; [done|auto]| |intros [= <- <-]; split; [done|auto]].
  - cbv zeta. destruct (AdminRestore.utf8 _); intros [= <- <-]; split; try done; auto.
  - intros E. apply rbind_inv in E as [(m & s1 & E1 & E)|(e & E1 & ->)].
    2:{ apply rfail_inv in E1 as (r0 & fs & fl & E1 & Hr & Hf & _). destruct r0; [discriminate|]. injection Hr as ->. split; [|auto].
        intros x. rewrite Hf. assert (Hfm : frame (fun _ => False) (file_mode q)) by by apply frame_read. eapply Hfm; [exact E1|auto]. }
    apply rfail_inv in E1 as (r0 & fs & fl & E1 & Hr & Hf & _). destruct r0 as [m'|]; [|discriminate]. injection Hr as <-.
    apply syscall_ok in E1 as [E1 _]. apply on_file_ok in E1 as (f & f' & Hq & Hm & Hfs). injection Hm as <- <-.
    assert (S1 : forall x, K x s1 = K x s) by (intros x; rewrite Hf, Hfs; simpl; destruct (decide (x = q)) as [-> |]; [by rewrite lookup_insert_eq|by rewrite lookup_insert_ne]).
    destruct (Z.land (mode f) 63 =? 0) eqn:Hm; cbn [negb] in E; [|injection E as <- <-; auto]. apply Z.eqb_eq in Hm.
    apply rbind_inv in E as [(t & s2 & E2 & E)|(e & E2 & ->)]; pose proof E2 as E2'; apply read_text_inv in E2 as [S2 Ht].
    2:{ apply rfail_inv in E2' as (r2 & _ & _ & _ & Hr & _). destruct r2; [discriminate|]. injection Hr as ->. split; [intros x; by rewrite S2|auto]. }
    specialize (Ht _ eq_refl). cbv zeta in E. assert (S3 : same_files s s2) by (intros x; by rewrite S2).
    destruct (AdminRestore.utf8 _) in E; injection E as <- <-; (split; [exact S3|]); [|auto].
    exists f. unfold file_text in Ht. rewrite S1, Hq in Ht. injection Ht as <-. done.
Qed.
Lemma found_first us uid l u rest : us = l ++ u :: rest -> Grants.id u = uid -> ~ In uid (map Grants.id l) -> AdminUsers.find_user us uid = Some u.
Proof.
  intros -> <-. induction l as [|x l IH]; intros Hn; unfold AdminUsers.find_user in *; simpl; [by rewrite String.eqb_refl|].
  rewrite (proj2 (String.eqb_neq _ _)) by (intros E; apply Hn; by left). apply IH. intros Hin. apply Hn. by right.
Qed.
Lemma users_aside cfg p q : AdminRevision.apart p cfg -> dir q = dir (users_file cfg) -> ~ config_file p q /\ ~ own_files cfg q /\ q <> restart_stamp cfg.
Proof.
  intros (Ha & Hb & Hc) Hq.
  assert (Hlen : dir q <> Deployment.state_dir cfg).
  { rewrite Hq. intros E. apply (f_equal slen) in E. unfold users_file, in_dir in E. cbn [dir] in E. rewrite !slen_app in E.
    change (slen "/") with 1 in E. change (slen "users") with 5 in E. lia. }
  split; [|split].
  - intros [-> |[-> | ->]]; by apply Ha.
  - intros [E| ->]; [|by apply Hlen]. rewrite Hq in E. apply (inj (String.app (Deployment.state_dir cfg))) in E. discriminate.
  - intros ->. by apply Hlen.
Qed.

(** Step 2 changes the store as asked or not at all. *)
Lemma grant_credential_spec candidate uid endpoint uuid s r s' : grant_credential candidate uid endpoint uuid s = (r, s') ->
  (forall q, dir q <> dir (users_file candidate) -> q <> restart_stamp candidate -> K q s' = K q s) /\
  match r with
  | Ok _ => exists l u rest, stored candidate s = Ok (l ++ u :: rest) /\ Grants.id u = uid /\ ~ In uid (map Grants.id l) /\
      stored candidate s' = Ok (l ++ AdminUsers.set_peers (btree_insert endpoint (Grants.PeerVlessReality uuid) (Grants.peer_credentials u)) u :: rest)
  | Err e => stored candidate s' = stored candidate s /\
      match e with PairUsersUnloadable _ | UserLost _ | PairUsersUnsaved _ => True | _ => False end
  end.
Proof.
  unfold grant_credential. intros E.
  assert (Hu : users_file candidate <> restart_stamp candidate).
  { intros Hu. apply (f_equal (fun q => slen (dir q))) in Hu. unfold users_file, restart_stamp, in_dir in Hu. cbn [dir] in Hu. rewrite !slen_app in Hu.
    change (slen "/") with 1 in Hu. change (slen "users") with 5 in Hu. lia. }
  apply rbind_inv in E as [(us & s1 & E1 & E)|(e & E1 & ->)]; apply load_step in E1 as (S1 & _ & L1);
    pose proof (stored_same de_users de_legacy candidate _ _ (S1 _)) as Hs1.
  2:{ destruct L1 as [x ->]. split; [intros q _ _; apply S1|]. done. }
  destruct L1 as [L1 _].
  apply rbind_inv in E as [(changed & s2 & E2 & E)|(e & E2 & ->)]; injection E2 as E2 <-;
    destruct (AdminUsers.find_user_mut us _ _) as [us'|re] eqn:Hmut; try discriminate; injection E2 as <-.
  2:{ split; [intros q _ _; apply S1|]. done. }
  apply AdminRevocation.find_user_mut_local in Hmut as (l & u & u' & rest & -> & -> & Hid & Hmu & Hnl).
  unfold AdminUsers.insert_peer in Hmu. injection Hmu as <-. apply read_as_stored in L1; [|by destruct l].
  apply rbind_inv in E as [(x & s2 & E2 & E)|(e & E2 & ->)]; apply rfail_rfile in E2 as (r2 & E2 & Hr2);
    apply rfile_inv in E2 as (r2' & fs & fl & E2 & [= <-] & Hf & _); apply save_spec in E2 as [F2 R2]; destruct r2; try discriminate.
  2:{ injection Hr2 as ->. split; [|split; [|done]]; [|rewrite <- Hs1; apply stored_same; by rewrite Hf].
      intros q Hq _. rewrite Hf, F2; [apply S1| |]; intros ->; by apply Hq. }
  apply refresh_spec in E as [-> F3]. split.
  - intros q Hq Hr. rewrite F3 by done. rewrite Hf, F2; [apply S1| |]; intros ->; by apply Hq.
  - exists l, u, rest. do 3 (split; [done|]). destruct R2 as (f & Hff & Hc & _). unfold stored_users. rewrite load_no_fault. unfold loaded. cbn [fst].
    rewrite F3 by done. rewrite Hf, Hff, Hc. unfold parse_users_bytes. by rewrite serde_users.
Qed.

(** Accepting an exit's bundle on a relay is ordered so that it never
    leaves a credential without its route.  On success the bundle came from
    standard input or from a file that group and others cannot read and passed
    every check; [deployment.toml] is valid and has the route of the bundle
    (added with nothing else changed, or already there with the same
    parameters); and the store is the previous one in which exactly the named
    user got the bundle's uuid for that endpoint, replacing an earlier
    credential only on request.  After any error, whatever failed, the store is
    as before; when the relay's configuration could not be applied the file has
    its original text again, and an error before the route leaves it untouched. *)
Theorem accept_exit_transactional cfg p args s r s' : AdminRevision.apart p cfg -> loaded_from p cfg s -> accept_exit cfg p args s = (r, s') ->
  match r with
  | Ok _ => Deployment.role cfg = Deployment.Relay /\ exists text bundle via_path candidate l u rest,
      bundle_text (source args) text s /\ parse_exit_bundle b64_decode de_exit text = Ok bundle /\ choose_path cfg (path_id args) = Ok via_path /\
      declared p (peer_endpoint_from_exit_bundle (endpoint_id args) (unwrap_or (aa_tag args) (default_tag bundle cfg)) via_path bundle) s s' /\
      loaded_from p candidate s' /\ is_ok (Deployment.validate b64_decode candidate) = true /\
      stored cfg s = Ok (l ++ u :: rest) /\ Grants.id u = user_id args /\ ~ In (user_id args) (map Grants.id l) /\
      (contains_key (endpoint_id args) (Grants.peer_credentials u) = true -> replace_credential args = true) /\
      stored cfg s' = Ok (l ++ AdminUsers.set_peers (btree_insert (endpoint_id args) (Grants.PeerVlessReality (eb_uuid bundle)) (Grants.peer_credentials u)) u :: rest)
  | Err e => stored cfg s' = stored cfg s /\
      match e with
      | RouteNotApplied _ => file_text p s' = file_text p s
      | CandidateUnloadable | RouteBackupLost _ | RouteRestoreFailed _ | PairUsersUnloadable _ | UserLost _ | PairUsersUnsaved _ =>
          K p s' = K p s \/ exists wanted, declared p wanted s s'
      | _ => K p s' = K p s
      end
  end.
Proof.
  intros Ha Hload E. unfold accept_exit in E. destruct (users_aside cfg p (users_file cfg) Ha eq_refl) as (Hu1 & Hu2 & Hu3).
  destruct (bool_decide _) eqn:Hrole; cbn [negb] in E; [apply bool_decide_eq_true in Hrole|by injection E as <- <-].
  apply rbind_inv in E as [(text & s1 & E1 & E)|(e & E1 & ->)]; apply read_bundle_spec in E1 as [S1 R1].
  2:{ assert (Hs : stored cfg s' = stored cfg s) by apply stored_same, S1. destruct R1 as [-> | ->]; (split; [exact Hs|apply S1]). }
  assert (Hs1 : stored cfg s1 = stored cfg s) by apply stored_same, S1.
  apply rbind_inv in E as [(bundle & s2 & E2 & E)|(e & E2 & ->)]; injection E2 as E2 <-;
    destruct (parse_exit_bundle b64_decode de_exit text) as [b|be] eqn:Hb; try discriminate.
  2:{ injection E2 as <-. split; [done|]. apply S1. }
  injection E2 as ->.
  apply rbind_inv in E as [(via_path & s2 & E2 & E)|(e & E2 & ->)]; injection E2 as E2 <-.
  2:{ split; [done|]. assert (He : e = NotARelayPath \/ e = NoRelayPath \/ e = SeveralRelayPaths); [|by destruct He as [-> |[-> | ->]]; apply S1].
      revert E2. unfold choose_path. repeat case_match; intros [= <-]; auto. }
  cbv zeta in E. set (wanted := peer_endpoint_from_exit_bundle _ _ _ _) in E.
  apply rbind_inv in E as [(us & s2 & E3 & E)|(e & E3 & ->)]; apply load_step in E3 as (S3 & _ & L3).
  2:{ destruct L3 as [x ->]. split; [by rewrite (stored_same _ _ _ _ _ (S3 _))|]. left. by rewrite S3, S1. }
  destruct L3 as [L3 _]. assert (S13 : forall q, K q s2 = K q s) by (intros q; by rewrite S3, S1).
  assert (Hs2 : stored cfg s2 = stored cfg s) by apply stored_same, S13.
  destruct (AdminUsers.find_user us (user_id args)) as [user|] eqn:Hfind; [|injection E as <- <-; split; [done|]; apply S13].
  destruct (contains_key _ _ && _) eqn:Hguard; [injection E as <- <-; split; [done|]; apply S13|].
  assert (Hload2 : loaded_from p cfg s2) by (unfold AdminEgress.loaded_from, file_text in *; by rewrite S13).
  assert (Hdecl : forall w s3, declared p w s2 s3 -> declared p w s s3).
  { intros w s3 [Hd|[Hd Hk]]; [left|right].
    - unfold TomlEdit.edited in *. by rewrite S13 in Hd.
    - split; [|by rewrite Hk]. unfold has_route, AdminEgress.loaded_from, file_text in *. by rewrite S13 in Hd. }
  apply rbind_inv in E as [(candidate & s3 & E4 & E)|(e & E4 & ->)]; apply (declare_route_spec _ _ _ _ _ _ Ha Hload2) in E4 as [F4 R4];
    pose proof (F4 _ Hu1 Hu2) as Hk4.
  2:{ assert (Hs : stored cfg s' = stored cfg s) by (rewrite <- Hs2; by apply stored_same).
      destruct e; try done; (split; [exact Hs|]); [by rewrite R4|right; eauto|right; eauto|right; eauto|]. rewrite R4. unfold file_text. by rewrite S13. }
  destruct R4 as (Hl4 & Hv4 & Hd4 & Hroute).
  assert (Hst : forall s5, stored candidate s5 = stored cfg s5) by (intros s5; unfold stored_users, users_file, in_dir; by rewrite Hd4).
  apply grant_credential_spec in E as [F5 R5]. rewrite !Hst in R5. rewrite (stored_same _ _ _ _ _ Hk4), Hs2 in R5.
  assert (Hcf : forall q, config_file p q -> K q s' = K q s3).
  { destruct Ha as (Ha & _ & Hc). assert (Hx : users_file candidate = users_file cfg /\ restart_stamp candidate = restart_stamp cfg)
      by (unfold users_file, restart_stamp, in_dir; by rewrite Hd4). destruct Hx as [Hx1 Hx2]. rewrite Hx1, Hx2 in F5.
    intros q Hq. assert (Hd : dir q = dir p) by (by destruct Hq as [-> |[-> | ->]]). apply F5; [congruence|]. intros ->. by apply Hc. }
  assert (Hafter : declared p wanted s s').
  { apply Hdecl. destruct Hroute as [Hd|[Hd Hk]]; [left; eapply AdminEgress.edited_ext; [apply Hcf; by left|apply Hcf; by right; right|exact Hd]|right].
    split; [done|]. rewrite Hcf by (left; done). done. }
  destruct r as [x|e]; [|destruct R5 as [Hs R5]; split; [done|]; destruct e; try done; right; eauto].
  destruct R5 as (l & u & rest & Hs & Hid & Hnl & Hs'). split; [done|]. exists text, bundle, via_path, candidate, l, u, rest.
  split; [done|]. split; [done|]. split; [by destruct (choose_path cfg (path_id args))|]. split; [done|].
  split; [unfold AdminEgress.loaded_from, file_text in *; rewrite Hcf by (left; done); exact Hl4|]. do 4 (split; [done|]). split; [|done].
  apply read_as_stored in L3; [|by intros ->]. rewrite Hs1, Hs in L3. injection L3 as <-.
  rewrite (found_first _ _ _ _ _ eq_refl Hid Hnl) in Hfind. injection Hfind as <-. intros Hc. rewrite Hc in Hguard. by destruct (replace_credential args).
Qed.
End Pair.
(** ** Witnesses *)

Definition ex_params : Server.RealityServerParams :=
  {| Server.private_key_hex := "key"; Server.public_key_hex := "key"; Server.short_ids := ["0a1b"];
     Server.handshake_server := Deployment.re_handshake_server (Deployment.reality ex_node);
     Server.handshake_port := Deployment.re_handshake_port (Deployment.reality ex_node); Server.google_egress_hairpin_uuid := None |}.
Definition ex_bundle : ExitPairingBundle := exit_bundle FlowVision (node_of ex_node ex_params) ex_uuid.
Definition ex_de_exit (t : string) : option ExitPairingBundle := if String.eqb t "bundle" then Some ex_bundle else None.
Definition ex_paired : Deployment.DeploymentConfig := TomlEdit.ex_before.
Definition ex_route : Deployment.PeerEndpointSection := peer_endpoint_from_exit_bundle "exit-1" (default_tag ex_bundle ex_paired) "ru" ex_bundle.

Lemma accepted_route_is_the_exit_witness :
  exists e own, Deployment.to_compat_endpoint Deployment.ex_key ex_route = Ok e /\ ce_id own = "reality-1" /\ ce_port e = ce_port own /\
    ce_public_parameters e = ce_public_parameters own /\ Deployment.validate Deployment.ex_key (Deployment.with_peer ex_paired ex_route) = Ok tt.
Proof.
  destruct (Deployment.served_endpoints Deployment.ex_key ex_node "key" "0a1b" None) as [ces|] eqn:Hs; [|vm_compute in Hs; discriminate].
  destruct (accepted_route_is_the_exit Deployment.ex_key ex_de_exit ex_paired ex_node ex_params FlowVision ex_uuid None "bundle" None "exit-1"
    (default_tag ex_bundle ex_paired) "ru" ces) as [(e & own & a & H1 & _ & H2 & _ & _ & H3 & _ & H4 & _) Hval].
  all: try (vm_compute; reflexivity). all: try discriminate.
  - exact Hs.
  - exists e, own. do 4 (split; [assumption|]). apply Hval.
    + apply (proj1 (Contract.mem_false _ _)). vm_compute. reflexivity.
    + apply (proj1 (Contract.mem_false _ _)). vm_compute. reflexivity.
    + intros b Hb. vm_compute in Hb. injection Hb as <-. eexists. split; [reflexivity|]. split; [discriminate|]. intros _. vm_compute. reflexivity.
Defined.

Definition ex_issue (takes : bool) (out : option path) (s : St) : result string pair_error * St :=
  run_issue 0 18 (fun _ => 990) "7" (fun _ => true) Deployment.ex_key (fun _ => "key") Creds.hex_bytes (fun _ => "00") (fun l => l)
    (V := json) ex_print json_print ex_parse ex_ser ex_de ex_legacy (fun _ => "bundle") (fun _ => "hairpin") false true takes AdminUsers.ex_draws
    ex_host ex_host ex_host ex_host (IssueExit "ru" "vision") ex_node out s.


Definition ex_routes (text : string) : option Deployment.DeploymentConfig :=
  if String.eqb text "old" then Some ex_paired
  else if String.eqb text (TomlEdit.peer_endpoint_text TomlEdit.ex_debug "old" ex_route)
  then Some (Deployment.ex_deployment [Deployment.ex_path "ru" "relay" (Some "reality-1")] [ex_route]) else None.
Definition ex_route_json (d : Deployment.DeploymentConfig) : json :=
  JObj [("state_dir", JStr (Deployment.state_dir d)); ("peer_endpoints", JNum (Z.of_nat (length (Deployment.peer_endpoints d))))].
Lemma ex_route_object c : StaticRevision.is_object (ex_route_json c).
Proof. eexists. reflexivity. Qed.
Lemma ex_route_state_dir c : jget (ex_route_json c) "state_dir" = Some (jstr (Deployment.state_dir c)).
Proof. reflexivity. Qed.
Definition ex_args : AcceptExitArgs :=
  {| user_id := "user_1"; endpoint_id := "exit-1"; aa_tag := None; path_id := None; source := FromStdin (Some "bundle"); replace_credential := false |}.
(** The relay, its deployment file reading [text]. *)
Definition ex_relay_host (text : string) (l : list svc) : St :=
  {| st_fs := {| files := {[ reality_private_key_file ex_paired := plain "key"; reality_public_key_file ex_paired := plain "key";
                             reality_short_id_file ex_paired := plain "0a1b"; singbox_config_file ex_paired := plain "old";
                             users_file ex_paired := plain (ex_ser (envelope ServerPolicy.ex_users));
                             {| dir := "/srv"; name := "deployment.toml" |} := plain text ]};
                 dirs := {[ dir (users_file ex_paired) := {| d_mode := 488; d_gid := 990 |};
                            dir (singbox_config_file ex_paired) := {| d_mode := 488; d_gid := 990 |}; "/srv" := {| d_mode := 493; d_gid := 0 |} ]} |};
     st_loaded := Some "old"; st_faults := []; st_svc := l |}.
Definition ex_accept (s : St) : result unit pair_error * St :=
  accept_exit TomlEdit.ex_debug 0 18 (fun _ => 990) "7" "1700000000" (fun _ => true) Deployment.ex_key (fun _ => "key") (fun _ => "00") (fun l => l)
    (V := json) ex_print json_print ex_parse ex_ser ex_de ex_legacy ex_routes ex_route_json ex_de_exit ex_host ex_host None (fun _ => None)
    ex_paired {| dir := "/srv"; name := "deployment.toml" |} ex_args s.

Lemma ex_srv_apart : AdminRevision.apart {| dir := "/srv"; name := "deployment.toml" |} ex_paired.
Proof. repeat split; discriminate. Qed.
Lemma ex_srv_loaded l : AdminEgress.loaded_from ex_routes {| dir := "/srv"; name := "deployment.toml" |} ex_paired (ex_relay_host "old" l).
Proof. exists "old". split; vm_compute; reflexivity. Qed.

(** The route is declared, applied, and the credential stored. *)
Lemma accept_exit_transactional_witness :
  exists s' u, ex_accept (ex_relay_host "old" []) = (Ok tt, s') /\ Grants.id u = "user_1" /\
    exists l rest, stored_users ex_de ex_legacy ex_paired s' =
      Ok (l ++ AdminUsers.set_peers (btree_insert "exit-1" (Grants.PeerVlessReality ex_uuid) (Grants.peer_credentials u)) u :: rest).
Proof.
  destruct (run_result (ex_accept (ex_relay_host "old" [])) (Ok tt) ltac:(vm_compute; reflexivity)) as [s' E].
  unfold ex_accept in E.
  pose proof (accept_exit_transactional (V := json) _ _ _ _ _ _ _ _ _ _ _ _ _ _ _ _ _ ex_routes ex_route_json _ _ _ _ _ ex_roundtrip ex_route_object
    ex_route_state_dir _ _ _ _ _ _ ex_srv_apart (ex_srv_loaded []) E) as T.
  destruct T as (_ & text & b & v & c & l & u & rest & Ht & Hb & _ & _ & _ & _ & _ & Hid & _ & _ & Hst).
  simpl in Ht. change (String.substring 0 LIMIT "bundle") with "bundle" in Ht. subst text. vm_compute in Hb. injection Hb as <-.
  exists s', u. split; [exact E|]. split; [exact Hid|]. exists l, rest. exact Hst.
Defined.

(** ** A gap *)

(** A run that was interrupted after the edit leaves the route declared; the
    next run then reports success without applying it: the user holds the
    credential while sing-box still runs what it ran before. *)
Lemma declared_route_not_applied :
  let r := ex_accept (ex_relay_host (TomlEdit.peer_endpoint_text TomlEdit.ex_debug "old" ex_route) []) in
  fst r = Ok tt /\ st_loaded (snd r) = Some "old" /\ file_text (singbox_config_file ex_paired) (snd r) = Some "old".
Proof. intros r. split; [|split]; vm_compute; reflexivity. Qed.
(** Examining the store fails for a moment: the bundle is delivered, and the
    other accounts are gone. *)
Lemma issue_after_failed_stat_drops_users :
  let r := ex_issue true None (AdminUsers.ex_with ServerPolicy.ex_users (repeat Fine 4 ++ [Fails 0]) []) in
  is_ok (fst r) = true /\
  option_map (map Grants.name) (match stored_users ex_de ex_legacy ex_node (snd r) with Ok us => Some us | Err _ => None end) = Some ["peer-ru"].
Proof. intros r. split; vm_compute; reflexivity. Qed.
End AdminPairing.
