(* ===== verification/LeaseEndToEnd.v ===== *)
(** * Agent lease pool and vpn-admin reconciler, composed

    The document the agent writes ([LeasePool.vpn_admin_input]) is the input of
    vpn-admin's lease reconciler: what the pool maintains is enough for vpn-admin
    to accept it. *)

From S2P Require Import Prelude Strs Authorization Credentials Grants Json LeasePool AdminReconcile.

Module LeaseEndToEnd.
Import AdminReconcile.

(** [LeaseSlotInput] as decoded from one entry of the agent's document. *)
Definition slot_input (a : LeasePool.AdminSlot) : LeaseSlotInput :=
  {| slot := LeasePool.a_slot a; s_vless_uuid := LeasePool.a_vless_uuid a;
     s_hysteria2_password := LeasePool.a_hysteria2_password a;
     s_expires_at := LeasePool.a_expires_at a;
     s_principal_id := Some (LeasePool.a_principal_id a);
     s_credential_id := Some (LeasePool.a_credential_id a);
     s_class := Some (LeasePool.a_class a); s_valid_from := Some (LeasePool.a_valid_from a);
     s_revoked := LeasePool.a_revoked a |}.

Definition lease_document (st : LeasePool.LeaseState) : list LeaseSlotInput :=
  map slot_input (LeasePool.vpn_admin_input st).

(** The authorization a pool slot stands for. *)
Definition slot_authorization (s : LeasePool.Slot) : Authz.Authorization :=
  {| Authz.principal_id := LeasePool.principal_id s; Authz.credential_id := LeasePool.credential_id s;
     Authz.class := LeasePool.class s; Authz.valid_from := LeasePool.valid_from s;
     Authz.valid_until := LeasePool.valid_until s; Authz.revoked := LeasePool.revoked s;
     Authz.vless_uuid := Some (LeasePool.vless_uuid s);
     Authz.hysteria2_password := Some (LeasePool.hysteria2_password s) |}.

(** A slot as minted (or extended) and reported by the control plane. *)
Record slot_ok (s : LeasePool.Slot) : Prop := {
  so_range : 0 <= LeasePool.slot s < MAX_SLOTS;
  so_native : LeasePool.class s = Authz.Native;
  so_principal : Authz.validate_principal_id (LeasePool.principal_id s) = Ok tt
    /\ starts_with "native_" (LeasePool.principal_id s) = true;
  so_credential : Authz.validate_credential_id (LeasePool.credential_id s) = Ok tt;
  so_window : 0 <= LeasePool.valid_from s < LeasePool.valid_until s
    /\ LeasePool.valid_until s <= LeasePool.valid_from s + Authz.NATIVE_LEASE_SECS
    /\ LeasePool.valid_until s <= 2 ^ 61;
  so_uuid : Authz.valid_vless_uuid (LeasePool.vless_uuid s) = true;
  so_password : Authz.valid_hysteria2_password (LeasePool.hysteria2_password s) = true }.

Lemma slot_ok_item s : slot_ok s -> Authz.item_ok (slot_authorization s).
Proof.
  intros [_ Hn [Hp Hpp] Hc Hw Hu Hpw]. unfold Authz.NATIVE_LEASE_SECS in Hw.
  split; cbn [slot_authorization Authz.principal_id Authz.credential_id Authz.class
    Authz.valid_from Authz.valid_until Authz.revoked Authz.vless_uuid Authz.hysteria2_password]; auto.
  - by rewrite Hn.
  - unfold in_i64, i64_min, i64_max. lia.
  - intros _. rewrite Hn. unfold Authz.NATIVE_LEASE_SECS.
    split; [lia|]. split; [by left|]. split; [by intros ? [= <-]|]. split; [by intros ? [= <-]|lia].
Qed.

Lemma check_slots_agent l : forall seen,
  (forall s, In s l -> slot_ok s) -> List.NoDup (map LeasePool.slot l) ->
  (forall s, In s l -> ~ In (LeasePool.slot s) seen) ->
  check_slots seen (map slot_input (map LeasePool.admin_slot l)) = Ok (map slot_authorization l).
Proof.
  induction l as [|s l IH]; intros seen Hok Hnd Hseen; [done|].
  inversion Hnd as [|? ? Hs Hnd']; subst. cbn [map check_slots].
  destruct (Hok s (or_introl eq_refl)) as [Hr Hn _ _ Hw Hu Hp].
  assert (Hc : check_slot seen (slot_input (LeasePool.admin_slot s)) = Ok (Some (slot_authorization s))).
  { unfold check_slot, metadata_count. cbn [slot_input slot s_vless_uuid s_hysteria2_password s_expires_at
      s_principal_id s_credential_id s_class s_valid_from s_revoked LeasePool.a_slot LeasePool.admin_slot
      LeasePool.a_vless_uuid LeasePool.a_hysteria2_password LeasePool.a_expires_at
      LeasePool.a_principal_id LeasePool.a_credential_id LeasePool.a_class LeasePool.a_valid_from
      LeasePool.a_revoked present].
    unfold MAX_SLOTS in *. replace (4096 <=? LeasePool.slot s) with false by lia.
    replace (existsb _ seen) with false.
    2:{ symmetry. apply existsb_false_iff. intros x Hx. apply Z.eqb_neq. intros <-.
        by apply (Hseen s (or_introl eq_refl)). }
    change (valid_uuid ?u) with (Authz.valid_vless_uuid u).
    change (valid_password ?u) with (Authz.valid_hysteria2_password u). rewrite Hu, Hp.
    replace (LeasePool.valid_until s <=? 0) with false by lia. done. }
  rewrite Hc. cbn [result_bind]. rewrite IH; [done|intros; apply Hok; by right|done|].
  intros x Hx [E|E]; [|by apply (Hseen x (or_intror Hx))].
  apply Hs. change (LeasePool.slot s = LeasePool.slot x) in E. rewrite E. by apply in_map.
Qed.

Lemma distinct_principals_small l p t :
  List.NoDup (map Authz.principal_id l) -> Authz.active_count t (Authz.of_principal l p) <= 2.
Proof.
  intros Hnd. unfold Authz.active_count.
  enough (length (Authz.of_principal l p) <= 1)%nat as H.
  { pose proof (List.filter_length_le (fun a => Authz.is_active_at a t) (Authz.of_principal l p)). lia. }
  unfold Authz.of_principal. induction l as [|a l IH]; [simpl; lia|].
  inversion Hnd as [|? ? Ha Hnd']; subst. simpl. specialize (IH Hnd').
  destruct (String.eqb_spec (Authz.principal_id a) p) as [<-|E]; simpl; [|done].
  destruct (negb (Authz.revoked a)); simpl; [|done].
  fold (Authz.of_principal l (Authz.principal_id a)). by rewrite Authz.of_principal_absent.
Qed.

Lemma agent_set_valid l :
  (forall s, In s l -> slot_ok s) -> List.NoDup (map LeasePool.principal_id l) ->
  List.NoDup (map LeasePool.credential_id l) ->
  Authz.validate (map slot_authorization l) = Ok tt.
Proof.
  intros Hok Hp Hc. apply Authz.validate_snapshot.
  { intros a Ha. apply in_map_iff in Ha as (s & <- & Hs). destruct (Hok s Hs) as [_ _ _ _ Hw _ _].
    unfold Authz.sane, Authz.NATIVE_LEASE_SECS in *. simpl. lia. }
  assert (Hp' : List.NoDup (map Authz.principal_id (map slot_authorization l))) by (by rewrite map_map).
  split.
  - intros a Ha. apply in_map_iff in Ha as (s & <- & Hs). apply slot_ok_item. auto.
  - by rewrite map_map.
  - intros a b Ha Hb Hne Heq. destruct Hne. f_equal. by eapply NoDup_map_inj.
  - intros p t. by apply distinct_principals_small.
Qed.

Lemma dedup_str_nodup l : List.NoDup l -> dedup_str l = l.
Proof.
  induction 1 as [|x l Hx Hnd IH]; [done|]. simpl. rewrite IH.
  destruct (existsb (String.eqb x) l) eqn:E; [|done]. exfalso.
  apply existsb_exists in E as (y & Hy & Heq). apply String.eqb_eq in Heq. by subst.
Qed.

(** Vpn-admin accepts the agent's lease document whenever the pool's slots
    are as the pool mints them (in range, native, valid ids and secrets, a
    window of at most 30 minutes) and the generators did not repeat
    themselves: distinct slot numbers, principals, credential ids and UUIDs,
    none of the UUIDs in use by a user outside the pool. *)
Theorem agent_document_accepted th users st now :
  (forall s, In s (LeasePool.slots st) -> slot_ok s) ->
  (length (LeasePool.slots st) <= 1024)%nat ->
  List.NoDup (map LeasePool.slot (LeasePool.slots st)) ->
  List.NoDup (map LeasePool.principal_id (LeasePool.slots st)) ->
  List.NoDup (map LeasePool.credential_id (LeasePool.slots st)) ->
  List.NoDup (map (fun s => to_ascii_lowercase (LeasePool.vless_uuid s)) (LeasePool.slots st)) ->
  (forall u s, In u users -> is_lease_user u = false -> In s (LeasePool.slots st) ->
     to_ascii_lowercase (Grants.u_vless_uuid u) <> to_ascii_lowercase (LeasePool.vless_uuid s)) ->
  exists next ch, reconcile_leases th users (lease_document st) now = Ok (next, ch)
    /\ forall s, In s (lease_document st) -> native_slot s.
Proof.
  intros Hok Hlen Hs Hp Hc Hu Hcol. unfold lease_document, LeasePool.vpn_admin_input, reconcile_leases.
  rewrite !length_map. unfold MAX_SLOTS. replace (4096 <? _) with false by lia.
  rewrite (check_slots_agent _ []) by (auto; by intros ? ? []). cbn [result_bind].
  rewrite agent_set_valid by done. cbn [map_err result_bind].
  assert (Hb : btree_set (map (fun s => to_ascii_lowercase (s_vless_uuid s))
      (map slot_input (map LeasePool.admin_slot (LeasePool.slots st)))) =
    sort_stable str_leb (map (fun s => to_ascii_lowercase (LeasePool.vless_uuid s)) (LeasePool.slots st))).
  { rewrite !map_map. unfold btree_set. by rewrite dedup_str_nodup. }
  rewrite Hb, sort_stable_length, length_map, Nat.eqb_refl. cbn [negb].
  match goal with |- context [existsb ?f users] => replace (existsb f users) with false end.
  - eexists _, _. split; [done|]. intros s Hin.
    apply in_map_iff in Hin as (a & <- & Hin). apply in_map_iff in Hin as (x & <- & Hx).
    eexists. split; [done|]. simpl. by destruct (Hok x Hx).
  - symmetry. apply existsb_false_iff. intros u Hin. destruct (is_lease_user u) eqn:El; [done|]. simpl.
    apply existsb_false_iff. intros v Hv. apply In_sort_stable, in_map_iff in Hv as (s & <- & Hx).
    apply String.eqb_neq. by apply Hcol.
Qed.

Lemma agent_document_accepted_witness :
  exists next ch, reconcile_leases ex_hash [Grants.ex_user] (lease_document LeasePool.ex_state) 1000100 = Ok (next, ch).
Proof.
  destruct (agent_document_accepted ex_hash [Grants.ex_user] LeasePool.ex_state 1000100)
    as (next & ch & H & _).
  - intros s [<-|[<-|[]]]; (split; [vm_compute; split; congruence|reflexivity|split; reflexivity
      |reflexivity|vm_compute; repeat split; congruence|reflexivity|reflexivity]).
  - vm_compute. repeat constructor.
  - repeat constructor; simpl; intuition discriminate.
  - repeat constructor; vm_compute; intuition discriminate.
  - repeat constructor; vm_compute; intuition discriminate.
  - repeat constructor; vm_compute; intuition discriminate.
  - intros u s [<-|[]] _ [<-|[<-|[]]]; vm_compute; discriminate.
  - exists next, ch. exact H.
Defined.

End LeaseEndToEnd.
