(* ===== verification/ExternalAuth.v ===== *)
(** * apps/provisioning-agent/src/external_authorization.rs

    The agent's durable reconciler for control-plane compatibility
    authorizations: snapshot parsing with per-item quarantine, the adoption
    rule (revisions never go back, a revision's content may only tighten), and
    the tick that orders fetch, persist, apply and acknowledge.

    JSON decoding by derived [Deserialize] implementations, RFC 3339 parsing,
    the clock and the outcomes of file, process and network operations are
    arguments.  Comparing serialized values is comparing the values. *)

From stdpp Require Import relations.
From S2P Require Import Prelude Strs Authorization Json.
From Stdlib Require Import Ascii.

Module ExternalAuth.

Definition MAX_EXTERNAL_AUTHORIZATIONS : Z := 4096.

(** ** Wire types *)

Record WireProtocol := { w_vless_uuid : option string; w_hysteria2_password : option string }.

(** [V2WireAuthorization]. *)
Record V2WireAuthorization := {
  w_principal_id : string; w_credential_id : string; w_class : Authz.CredentialClass;
  w_valid_from : string; w_valid_until : string; w_revoked : bool; w_protocol : WireProtocol }.

(** The legacy item adds a route id to the same fields. *)
Record LegacyWireAuthorization := {
  l_item : V2WireAuthorization; logical_route_id : string }.

Record V2WireSnapshot (V : Type) := {
  schema_version : Z; wire_revision : Z; wire_authorizations : list V }.
Arguments schema_version {V}.
Arguments wire_revision {V}.
Arguments wire_authorizations {V}.

Record ParsedSnapshot := {
  p_desired : Authz.AuthorizationSet;
  p_revision : option Z;
  p_quarantined : list string }.

Record PersistedExternalState := {
  desired : Authz.AuthorizationSet;
  snapshot_revision : option Z;
  applied_snapshot_revision : option Z;
  acknowledged_snapshot_revision : option Z }.

Definition default_state : PersistedExternalState :=
  {| desired := []; snapshot_revision := None; applied_snapshot_revision := None;
     acknowledged_snapshot_revision := None |}.

Inductive ext_error :=
| BadTimestamp | TooMany | InvalidSet (e : Authz.auth_error) | NotCompatibility
| BadItem (e : Authz.auth_error) | BadSchema | UnsupportedVersion | BadRouteId
| StaleRevision | ContentChanged | SchemaDowngrade
| FetchFailed | SaveFailed | ApplyFailed | NotLive | AckFailed | Quarantined (n : Z).

Definition route_char (b : ascii) : bool :=
  is_ascii_alphanumeric b || is_char "_" b || is_char "-" b.

Definition valid_route_id (value : string) : bool :=
  starts_with "route_" value && ((7 <=? slen value) && (slen value <=? 96))
  && str_all route_char value.

Definition quarantine_label (credential_id : string) : string :=
  if starts_with "cred_" credential_id && (slen credential_id <=? 96)
     && str_all route_char credential_id
  then credential_id else "<unidentifiable>".

Definition validate_external_set (d : Authz.AuthorizationSet)
  : result Authz.AuthorizationSet ext_error :=
  if MAX_EXTERNAL_AUTHORIZATIONS <? Z.of_nat (length d) then Err TooMany else
  let? _ := map_err InvalidSet (Authz.validate d) in
  if existsb (fun a => negb (Authz.class_eqb (Authz.class a) Authz.Compatibility)) d
  then Err NotCompatibility else Ok d.

Definition enforce_snapshot_size (size : Z) : result unit ext_error :=
  if MAX_EXTERNAL_AUTHORIZATIONS <? size then Err TooMany else Ok tt.

Section Parsing.
Context {V : Type} `{HJ : JsonOps V}.
Context (parse3339 : string -> option Z).
(** The derived decoders ([deny_unknown_fields]). *)
Context (decode_v2 : V -> option (V2WireSnapshot V)).
Context (decode_v2_item : V -> option V2WireAuthorization).
Context (decode_legacy : V -> option (list LegacyWireAuthorization)).

Definition convert_authorization (i : V2WireAuthorization) : result Authz.Authorization ext_error :=
  let? from := ok_or (parse3339 (w_valid_from i)) BadTimestamp in
  let? until := ok_or (parse3339 (w_valid_until i)) BadTimestamp in
  Ok {| Authz.principal_id := w_principal_id i; Authz.credential_id := w_credential_id i;
        Authz.class := w_class i; Authz.valid_from := from; Authz.valid_until := until;
        Authz.revoked := w_revoked i; Authz.vless_uuid := w_vless_uuid (w_protocol i);
        Authz.hysteria2_password := w_hysteria2_password (w_protocol i) |}.

Definition finish_v2_item (i : V2WireAuthorization) : result Authz.Authorization ext_error :=
  let? a := convert_authorization i in
  let? _ := map_err BadItem (Authz.validate_item a) in
  if negb (Authz.class_eqb (Authz.class a) Authz.Compatibility) then Err NotCompatibility else Ok a.

(** The loop over the raw items: accepted ones and quarantine labels, in order. *)
Fixpoint v2_items (raws : list V) : result (list Authz.Authorization * list string) ext_error :=
  match raws with
  | [] => Ok ([], [])
  | raw :: raws' =>
      let? item := ok_or (decode_v2_item raw) BadSchema in
      let? rest := v2_items raws' in
      let '(auths, quarantined) := rest in
      match finish_v2_item item with
      | Ok a => Ok (a :: auths, quarantined)
      | Err _ => Ok (auths, quarantine_label (w_credential_id item) :: quarantined)
      end
  end.

Fixpoint legacy_items (items : list LegacyWireAuthorization)
  : result (list Authz.Authorization) ext_error :=
  match items with
  | [] => Ok []
  | i :: items' =>
      if negb (valid_route_id (logical_route_id i)) then Err BadRouteId else
      let? a := convert_authorization (l_item i) in
      let? rest := legacy_items items' in
      Ok (a :: rest)
  end.

Definition parse_snapshot (value : V) : result ParsedSnapshot ext_error :=
  match jget value "schema_version" with
  | Some _ =>
      let? wire := ok_or (decode_v2 value) BadSchema in
      if negb (schema_version wire =? 2) then Err UnsupportedVersion else
      let? _ := enforce_snapshot_size (Z.of_nat (length (wire_authorizations wire))) in
      let? r := v2_items (wire_authorizations wire) in
      let? d := validate_external_set (fst r) in
      Ok {| p_desired := d; p_revision := Some (wire_revision wire); p_quarantined := snd r |}
  | None =>
      let? wire := ok_or (decode_legacy value) BadSchema in
      let? _ := enforce_snapshot_size (Z.of_nat (length wire)) in
      let? auths := legacy_items wire in
      let? d := validate_external_set auths in
      Ok {| p_desired := d; p_revision := None; p_quarantined := [] |}
  end.

End Parsing.

(** ** Adoption *)

Definition same (a b : Authz.Authorization) : bool :=
  String.eqb (Authz.principal_id a) (Authz.principal_id b)
  && String.eqb (Authz.credential_id a) (Authz.credential_id b).

Definition with_revoked (a : Authz.Authorization) (r : bool) : Authz.Authorization :=
  {| Authz.principal_id := Authz.principal_id a; Authz.credential_id := Authz.credential_id a;
     Authz.class := Authz.class a; Authz.valid_from := Authz.valid_from a;
     Authz.valid_until := Authz.valid_until a; Authz.revoked := r;
     Authz.vless_uuid := Authz.vless_uuid a; Authz.hysteria2_password := Authz.hysteria2_password a |}.

Definition only_tightens (current next : Authz.AuthorizationSet) (quarantined : list string) : bool :=
  forallb (fun held =>
    existsb (fun incoming => same held incoming) next
    || existsb (fun label => String.eqb label (Authz.credential_id held)) quarantined) current
  && forallb (fun incoming =>
       match List.find (fun held => same held incoming) current with
       | None => false
       | Some held =>
           if Authz.revoked held && negb (Authz.revoked incoming) then false
           else bool_decide (with_revoked incoming (Authz.revoked held) = held)
       end) next.

Definition adopt_snapshot (state : PersistedExternalState) (next : ParsedSnapshot)
  : result (PersistedExternalState * bool) ext_error :=
  let desired_changed := negb (bool_decide (p_desired next = desired state)) in
  let? _ :=
    match snapshot_revision state, p_revision next with
    | Some current, Some incoming =>
        if incoming <? current then Err StaleRevision else
        if (incoming =? current) && desired_changed then
          if negb (only_tightens (desired state) (p_desired next) (p_quarantined next))
          then Err ContentChanged else Ok tt
        else Ok tt
    | Some _, None => Err SchemaDowngrade
    | _, _ => Ok tt
    end in
  if desired_changed || negb (bool_decide (p_revision next = snapshot_revision state)) then
    Ok ({| desired := p_desired next; snapshot_revision := p_revision next;
           applied_snapshot_revision := None; acknowledged_snapshot_revision := None |}, true)
  else Ok (state, false).

(** ** The reconciler *)

Record Reconciler := {
  state : PersistedExternalState;
  applied_active_fingerprint : option (list Authz.Authorization);
  applied_this_process : bool;
  etag : option string;
  quarantined : list string }.

(** The serialized active list; [None] is the empty byte string the process
    starts with, which no serialized list equals. *)
Definition effective_fingerprint (s : Authz.AuthorizationSet) (now : Z) : list Authz.Authorization :=
  Authz.active_at s now.

(** The state file, the set the running data plane was last proven to hold
    ([None]: unknown), the revisions acknowledged, and (for the proofs) every
    set proven live with the revision it was applied under. *)
Record World := {
  disk : option PersistedExternalState;
  live : option Authz.AuthorizationSet;
  acked : list Z;
  proven : list (option Z * Authz.AuthorizationSet) }.

(** [save]: the rename is atomic, but syncing the directory after it can still
    fail. *)
Inductive save_outcome := Saved | NotSaved | SavedThenError.

Inductive fetch_outcome (V : Type) :=
| NotDue | FetchError | NotModified | Fresh (body : V) (etag : option string).
Arguments NotDue {V}.
Arguments FetchError {V}.
Arguments NotModified {V}.
Arguments Fresh {V}.

Record Env (V : Type) := {
  fetch : fetch_outcome V;
  save_adopted : save_outcome;
  now : Z;
  apply_ok : bool;            (** vpn-admin proved the set live *)
  save_applied : save_outcome;
  ack_ok : bool;
  save_acked : save_outcome }.
Arguments fetch {V}.
Arguments save_adopted {V}.
Arguments now {V}.
Arguments apply_ok {V}.
Arguments save_applied {V}.
Arguments ack_ok {V}.
Arguments save_acked {V}.

Definition save (o : save_outcome) (s : PersistedExternalState) (w : World)
  : World * result unit ext_error :=
  let written := {| disk := Some s; live := live w; acked := acked w; proven := proven w |} in
  match o with
  | Saved => (written, Ok tt)
  | NotSaved => (w, Err SaveFailed)
  | SavedThenError => (written, Err SaveFailed)
  end.

(** A fresh process: [None] when the file holds an invalid set. *)
Definition load_state (d : option PersistedExternalState) : result PersistedExternalState ext_error :=
  match d with
  | None => Ok default_state
  | Some s => let? _ := map_err InvalidSet (Authz.validate (desired s)) in Ok s
  end.

Definition open (d : option PersistedExternalState) : result Reconciler ext_error :=
  let? s := load_state d in
  Ok {| state := s; applied_active_fingerprint := None; applied_this_process := false;
        etag := None; quarantined := [] |}.

Section Tick.
Context {V : Type} `{HJ : JsonOps V}.
Context (parse : V -> result ParsedSnapshot ext_error).

(** The fetch block: [Err] is an early return (a failed save), [Ok e] carries
    the fetch error reported at the end of the tick. *)
Definition tick_fetch (env : Env V) (r : Reconciler) (w : World)
  : Reconciler * World * result (option ext_error) ext_error :=
  match fetch env with
  | NotDue => (r, w, Ok None)
  | NotModified => (r, w, Ok None)
  | FetchError => (r, w, Ok (Some FetchFailed))
  | Fresh body tag =>
      let refuse e :=
        ({| state := state r; applied_active_fingerprint := applied_active_fingerprint r;
            applied_this_process := applied_this_process r; etag := None;
            quarantined := quarantined r |}, w, Ok (Some e)) in
      match parse body with
      | Err e => refuse e
      | Ok next =>
          match adopt_snapshot (state r) next with
          | Err e => refuse e
          | Ok (s, changed) =>
              let upd tg :=
                {| state := s; applied_active_fingerprint := applied_active_fingerprint r;
                   applied_this_process := applied_this_process r; etag := tg;
                   quarantined := p_quarantined next |} in
              if changed then
                match save (save_adopted env) s w with
                | (w, Err e) => (upd (etag r), w, Err e)
                | (w, Ok _) => (upd tag, w, Ok None)
                end
              else (upd tag, w, Ok None)
          end
      end
  end.

Definition with_state (r : Reconciler) (s : PersistedExternalState) : Reconciler :=
  {| state := s; applied_active_fingerprint := applied_active_fingerprint r;
     applied_this_process := applied_this_process r; etag := etag r; quarantined := quarantined r |}.

Definition tick_apply (env : Env V) (r : Reconciler) (w : World)
  : Reconciler * World * result unit ext_error :=
  let active := effective_fingerprint (desired (state r)) (now env) in
  let revision_needs_apply :=
    bool_decide (is_Some (snapshot_revision (state r)))
    && negb (bool_decide (applied_snapshot_revision (state r) = snapshot_revision (state r))) in
  if negb (applied_this_process r)
     || negb (bool_decide (Some active = applied_active_fingerprint r)) || revision_needs_apply then
    if negb (apply_ok env) then
      (r, {| disk := disk w; live := None; acked := acked w; proven := proven w |}, Err ApplyFailed)
    else
      let s := {| desired := desired (state r); snapshot_revision := snapshot_revision (state r);
                  applied_snapshot_revision := snapshot_revision (state r);
                  acknowledged_snapshot_revision := acknowledged_snapshot_revision (state r) |} in
      let r := {| state := s; applied_active_fingerprint := Some active; applied_this_process := true;
                  etag := etag r; quarantined := quarantined r |} in
      let w := {| disk := disk w; live := Some (desired s); acked := acked w;
                  proven := (snapshot_revision s, desired s) :: proven w |} in
      let '(w, res) := save (save_applied env) s w in (r, w, res)
  else (r, w, Ok tt).

Definition tick_ack (env : Env V) (r : Reconciler) (w : World)
  : Reconciler * World * result unit ext_error :=
  match snapshot_revision (state r) with
  | Some revision =>
      if bool_decide (applied_snapshot_revision (state r) = Some revision)
         && negb (bool_decide (acknowledged_snapshot_revision (state r) = Some revision))
         && bool_decide (quarantined r = []) then
        let w := {| disk := disk w; live := live w; acked := revision :: acked w; proven := proven w |} in
        if negb (ack_ok env) then (r, w, Err AckFailed) else
        let s := {| desired := desired (state r); snapshot_revision := snapshot_revision (state r);
                    applied_snapshot_revision := applied_snapshot_revision (state r);
                    acknowledged_snapshot_revision := Some revision |} in
        let '(w, res) := save (save_acked env) s w in (with_state r s, w, res)
      else (r, w, Ok tt)
  | None => (r, w, Ok tt)
  end.

Definition tick (env : Env V) (r : Reconciler) (w : World)
  : Reconciler * World * result unit ext_error :=
  let '(r, w, res) := tick_fetch env r w in
  match res with
  | Err e => (r, w, Err e)
  | Ok fetch_error =>
      let '(r, w, res) := tick_apply env r w in
      match res with
      | Err e => (r, w, Err e)
      | Ok _ =>
          let '(r, w, res) := tick_ack env r w in
          match res with
          | Err e => (r, w, Err e)
          | Ok _ =>
              match fetch_error with
              | Some e => (r, w, Err e)
              | None =>
                  if negb (bool_decide (quarantined r = []))
                  then (r, w, Err (Quarantined (Z.of_nat (length (quarantined r)))))
                  else (r, w, Ok tt)
              end
          end
      end
  end.

(** A node's life: ticks and process restarts, from no state file. *)
Inductive node_step : Reconciler * World -> Reconciler * World -> Prop :=
| node_tick env r w r' w' res : tick env r w = (r', w', res) -> node_step (r, w) (r', w')
| node_restart r w r' : open (disk w) = Ok r' -> node_step (r, w) (r', w).

Definition node_init : Reconciler * World :=
  ({| state := default_state; applied_active_fingerprint := None; applied_this_process := false;
      etag := None; quarantined := [] |},
   {| disk := None; live := None; acked := []; proven := [] |}).

End Tick.

(** ** Parsing *)

Lemma class_eqb_compat c : Authz.class_eqb c Authz.Compatibility = true <-> c = Authz.Compatibility.
Proof. by destruct c. Qed.

Lemma validate_external_set_ok d d' : validate_external_set d = Ok d' ->
  d' = d /\ Authz.validate d = Ok tt /\ Z.of_nat (length d) <= MAX_EXTERNAL_AUTHORIZATIONS
  /\ forall a, In a d -> Authz.class a = Authz.Compatibility.
Proof.
  unfold validate_external_set. intros H. destruct (_ <? _) eqn:E; [discriminate|].
  destruct (Authz.validate d) as [[]|]; cbn [map_err result_bind] in H; [|discriminate].
  destruct (existsb _ d) eqn:Ex; [discriminate|]. injection H as <-. split; [done|]. split; [done|].
  split; [lia|]. intros a Ha. rewrite existsb_false_iff in Ex. specialize (Ex a Ha).
  apply negb_false_iff in Ex. by apply class_eqb_compat.
Qed.

Section ParsingLemmas.
Context {V : Type} `{HJ : JsonOps V}.
Context (parse3339 : string -> option Z) (decode_v2 : V -> option (V2WireSnapshot V)).
Context (decode_v2_item : V -> option V2WireAuthorization).
Context (decode_legacy : V -> option (list LegacyWireAuthorization)).

Lemma v2_items_spec raws auths q : v2_items parse3339 decode_v2_item raws = Ok (auths, q) ->
  exists items, map decode_v2_item raws = map Some items
    /\ auths = omap (fun i => match finish_v2_item parse3339 i with Ok a => Some a | Err _ => None end) items
    /\ q = omap (fun i => match finish_v2_item parse3339 i with Ok _ => None
                          | Err _ => Some (quarantine_label (w_credential_id i)) end) items.
Proof.
  revert auths q. induction raws as [|raw raws IH]; intros auths q H; simpl in H.
  - injection H as <- <-. by exists [].
  - destruct (decode_v2_item raw) as [i|] eqn:Ei; cbn [ok_or result_bind] in H; [|discriminate].
    destruct (v2_items parse3339 decode_v2_item raws) as [[a' q']|] eqn:Er; cbn [result_bind] in H; [|discriminate].
    destruct (IH _ _ eq_refl) as (items & Hm & Ha & Hq). exists (i :: items). simpl.
    rewrite Ei, Hm. split; [done|]. cbn.
    destruct (finish_v2_item parse3339 i); simplify_eq; done.
Qed.

Lemma quarantine_label_safe c :
  quarantine_label c = "<unidentifiable>"
  \/ (quarantine_label c = c /\ starts_with "cred_" c = true /\ slen c <= 96).
Proof.
  unfold quarantine_label. destruct (_ && _) eqn:E; [right|by left]. b2p. auto.
Qed.

(** A snapshot the reconciler accepts is a valid authorization set of at
    most 4096 compatibility credentials.  In a versioned snapshot every item
    that fails on its own is left out and labelled, by its own credential id
    when that has the shape of one and by a fixed text otherwise; one item
    that breaks the schema refuses the whole response. *)
Theorem parse_snapshot_sound value s :
  parse_snapshot parse3339 decode_v2 decode_v2_item decode_legacy value = Ok s ->
  Authz.validate (p_desired s) = Ok tt
  /\ Z.of_nat (length (p_desired s)) <= MAX_EXTERNAL_AUTHORIZATIONS
  /\ (forall a, In a (p_desired s) -> Authz.class a = Authz.Compatibility)
  /\ (is_Some (jget value "schema_version") ->
       exists wire items, decode_v2 value = Some wire /\ schema_version wire = 2
         /\ p_revision s = Some (wire_revision wire)
         /\ map decode_v2_item (wire_authorizations wire) = map Some items
         /\ p_desired s = omap (fun i => match finish_v2_item parse3339 i with
                                         | Ok a => Some a | Err _ => None end) items
         /\ (forall l, In l (p_quarantined s) -> exists i, In i items
               /\ is_ok (finish_v2_item parse3339 i) = false
               /\ l = quarantine_label (w_credential_id i)
               /\ (l = "<unidentifiable>" \/ (l = w_credential_id i /\ starts_with "cred_" l = true
                                              /\ slen l <= 96)))).
Proof.
  unfold parse_snapshot. intros H. destruct (jget value "schema_version") as [x|] eqn:Ev.
  - destruct (decode_v2 value) as [wire|] eqn:Ed; cbn [ok_or result_bind] in H; [|discriminate].
    destruct (negb _) eqn:Es; [discriminate|]. apply negb_false_iff, Z.eqb_eq in Es.
    destruct (enforce_snapshot_size _); cbn [result_bind] in H; [|discriminate].
    destruct (v2_items _ _ _) as [[auths q]|] eqn:Ei; cbn [result_bind fst snd] in H; [|discriminate].
    destruct (validate_external_set auths) as [d|] eqn:Eval; cbn [result_bind] in H; [|discriminate].
    apply validate_external_set_ok in Eval as (-> & Hv & Hl & Hc). injection H as <-.
    cbn [p_desired p_revision p_quarantined]. split; [done|]. split; [done|]. split; [done|].
    intros _. apply v2_items_spec in Ei as (items & Hm & Ha & Hq).
    exists wire, items. repeat (split; [done|]). intros l Hin. rewrite Hq in Hin.
    apply In_filter_map in Hin as (i & Hi & Hf).
    exists i. split; [done|]. destruct (finish_v2_item parse3339 i); [discriminate|].
    injection Hf as <-. split; [done|]. split; [done|].
    destruct (quarantine_label_safe (w_credential_id i)) as [?|(He & Hs & Hn)]; [by left|].
    right. rewrite He. auto.
  - destruct (decode_legacy value) as [wire|]; cbn [ok_or result_bind] in H; [|discriminate].
    destruct (enforce_snapshot_size _); cbn [result_bind] in H; [|discriminate].
    destruct (legacy_items _ _) as [auths|]; cbn [result_bind] in H; [|discriminate].
    destruct (validate_external_set auths) as [d|] eqn:Eval; cbn [result_bind] in H; [|discriminate].
    apply validate_external_set_ok in Eval as (-> & Hv & Hl & Hc). injection H as <-.
    cbn [p_desired]. repeat (split; [done|]). intros [? [=]].
Qed.
End ParsingLemmas.

(** ** Adoption *)

Lemma same_eq a b : same a b = true <->
  Authz.principal_id a = Authz.principal_id b /\ Authz.credential_id a = Authz.credential_id b.
Proof. unfold same. by rewrite andb_true_iff, !String.eqb_eq. Qed.

Lemma with_revoked_self a : with_revoked a (Authz.revoked a) = a.
Proof. by destruct a. Qed.

(** A tightening never admits anything the current set does not. *)
Lemma only_tightens_sub cur nxt q a :
  only_tightens cur nxt q = true -> In a nxt -> Authz.revoked a = false -> In a cur.
Proof.
  unfold only_tightens. intros H Ha Hr. apply andb_true_iff in H as [_ H].
  rewrite forallb_forall in H. specialize (H a Ha).
  destruct (List.find _ cur) as [held|] eqn:Ef; [|discriminate].
  apply List.find_some in Ef as [Hin _]. rewrite Hr in H. simpl in H.
  destruct (Authz.revoked held) eqn:Eh; [discriminate|]. simpl in H.
  apply bool_decide_eq_true in H. rewrite <- Hr, with_revoked_self in H. by subst.
Qed.

Definition rev_le (a b : option Z) : Prop :=
  match a, b with
  | None, _ => True
  | Some x, Some y => x <= y
  | Some _, None => False
  end.

Lemma rev_le_refl a : rev_le a a.
Proof. destruct a; simpl; lia. Qed.
Lemma rev_le_trans a b c : rev_le a b -> rev_le b c -> rev_le a c.
Proof. destruct a, b, c; simpl; lia || done. Qed.

Lemma adopt_snapshot_spec st next st' ch : adopt_snapshot st next = Ok (st', ch) ->
  rev_le (snapshot_revision st) (snapshot_revision st')
  /\ (is_Some (snapshot_revision st) -> snapshot_revision st' = snapshot_revision st ->
       desired st' <> desired st ->
       only_tightens (desired st) (desired st') (p_quarantined next) = true)
  /\ (ch = false -> st' = st)
  /\ (ch = true -> desired st' = p_desired next /\ applied_snapshot_revision st' = None
                   /\ acknowledged_snapshot_revision st' = None).
Proof.
  unfold adopt_snapshot. intros H.
  match type of H with result_bind ?r _ = _ => destruct r as [[]|] eqn:Eg end;
    cbn [result_bind] in H; [|discriminate].
  destruct (_ || _) eqn:Ec; injection H as <- <-; cbn [snapshot_revision desired].
  - split; [|split; [|done]].
    + destruct (snapshot_revision st) as [c|]; [|done].
      destruct (p_revision next) as [i|]; [|discriminate]. simpl.
      destruct (i <? c) eqn:E; [discriminate|lia].
    + intros [c Hc] Heq Hd. rewrite Hc in *. rewrite Heq in Eg.
      rewrite Z.ltb_irrefl, Z.eqb_refl in Eg. rewrite (bool_decide_false _ Hd) in Eg. simpl in Eg.
      by destruct (only_tightens _ _ _).
  - split; [apply rev_le_refl|]. split; [by intros _ _ []|done].
Qed.

(** Adopting a snapshot never moves the revision back and never leaves the
    versioned schema, and content that changes under an unchanged revision can
    only take access away: every credential active at any instant afterwards
    was active before, with the same window and secrets.  A change also clears
    the applied and acknowledged marks, so it must be applied and acknowledged
    afresh. *)
Theorem adopt_snapshot_monotone st next st' ch :
  adopt_snapshot st next = Ok (st', ch) ->
  rev_le (snapshot_revision st) (snapshot_revision st')
  /\ (is_Some (snapshot_revision st) -> snapshot_revision st' = snapshot_revision st ->
       forall t a, In a (Authz.active_at (desired st') t) -> In a (Authz.active_at (desired st) t))
  /\ (st' <> st -> desired st' = p_desired next
        /\ applied_snapshot_revision st' = None /\ acknowledged_snapshot_revision st' = None).
Proof.
  intros H. apply adopt_snapshot_spec in H as (H1 & H2 & H3 & H4). split; [done|]. split.
  - intros Hs Hr t a Ha. destruct (decide (desired st' = desired st)) as [E|E]; [by rewrite <- E|].
    apply Authz.In_active_at in Ha as (Hin & Hrev & Hw). apply Authz.In_active_at.
    split; [|done]. by eapply only_tightens_sub; eauto.
  - intros Hne. destruct ch; [auto|]. destruct Hne. auto.
Qed.

(** ** The life of a node *)

Definition disk_revision (w : World) : option Z :=
  match disk w with Some d => snapshot_revision d | None => None end.

(** A state that claims its revision is applied was proven live under it. *)
Definition applied_proven (s : PersistedExternalState) (w : World) : Prop :=
  forall k, snapshot_revision s = Some k -> applied_snapshot_revision s = Some k ->
    In (Some k, desired s) (proven w).

Record node_inv (r : Reconciler) (w : World) : Prop := {
  ni_mem : applied_proven (state r) w;
  ni_disk : forall d, disk w = Some d -> applied_proven d w;
  ni_acked : forall k, In k (acked w) -> exists d, In (Some k, d) (proven w);
  ni_rev : rev_le (disk_revision w) (snapshot_revision (state r)) }.

(** [w'] continues [w]: proofs accumulate and the file's revision does not go back. *)
Definition extends (w w' : World) : Prop :=
  (forall x, In x (proven w) -> In x (proven w'))
  /\ rev_le (disk_revision w) (disk_revision w').

Lemma extends_refl w : extends w w.
Proof. split; [done|apply rev_le_refl]. Qed.
Lemma extends_trans w1 w2 w3 : extends w1 w2 -> extends w2 w3 -> extends w1 w3.
Proof. intros [] []. split; [auto|]. by eapply rev_le_trans. Qed.

(** Saving the current in-memory state keeps everything. *)
Lemma save_inv o r w w' res :
  node_inv r w -> save o (state r) w = (w', res) -> node_inv r w' /\ extends w w'.
Proof.
  intros [H1 H2 H3 H4] E. destruct o; unfold save in E; simplify_eq;
    [|by split; [split|apply extends_refl]|];
    (split; [split; cbn [acked proven disk]; auto|split; [done|done]]);
    [intros d [= <-]; exact H1|apply rev_le_refl|intros d [= <-]; exact H1|apply rev_le_refl].
Qed.

(** Only the persisted state of a reconciler matters to the invariant. *)
Lemma node_inv_state r r' w : state r' = state r -> node_inv r w -> node_inv r' w.
Proof. intros E [H1 H2 H3 H4]. split; rewrite ?E; auto. Qed.

Section NodeLemmas.
Context {V : Type} (parse : V -> result ParsedSnapshot ext_error).

Lemma adopt_inv r w next s ch fp ap tg q :
  node_inv r w -> adopt_snapshot (state r) next = Ok (s, ch) ->
  node_inv {| state := s; applied_active_fingerprint := fp; applied_this_process := ap;
              etag := tg; quarantined := q |} w.
Proof.
  intros [H1 H2 H3 H4] Ha. destruct (adopt_snapshot_spec _ _ _ _ Ha) as (Hr & _ & Hf & Ht).
  split; cbn [state]; [|done|done|by eapply rev_le_trans].
  destruct ch; [|rewrite Hf; done]. intros k _ Hk. destruct (Ht eq_refl) as (_ & Hn & _). congruence.
Qed.

Lemma tick_fetch_inv env r w r' w' res :
  node_inv r w -> tick_fetch parse env r w = (r', w', res) -> node_inv r' w' /\ extends w w'.
Proof.
  intros Hinv E. unfold tick_fetch in E.
  destruct (fetch env) as [| | |body tag]; [by simplify_eq; split; [done|apply extends_refl]..|].
  destruct (parse body) as [next|e].
  2:{ simplify_eq. split; [by eapply node_inv_state; [|done]|apply extends_refl]. }
  destruct (adopt_snapshot (state r) next) as [[s ch]|e] eqn:Ea.
  2:{ simplify_eq. split; [by eapply node_inv_state; [|done]|apply extends_refl]. }
  destruct ch.
  - destruct (save (save_adopted env) s w) as [w1 r1] eqn:Es.
    assert (Hn := adopt_inv r w next s true (applied_active_fingerprint r) (applied_this_process r)
      (etag r) (p_quarantined next) Hinv Ea).
    destruct (save_inv _ _ _ _ _ Hn Es) as [Hn1 Hx].
    destruct r1; simplify_eq; (split; [by eapply node_inv_state; [|exact Hn1]|done]).
  - simplify_eq. split; [by eapply adopt_inv|apply extends_refl].
Qed.

Lemma tick_apply_inv env r w r' w' res :
  node_inv r w -> tick_apply (V := V) env r w = (r', w', res) -> node_inv r' w' /\ extends w w'.
Proof.
  intros Hinv E. unfold tick_apply in E.
  destruct (_ || _); [|by simplify_eq; split; [done|apply extends_refl]].
  destruct (negb (apply_ok env)).
  { simplify_eq. destruct Hinv as [H1 H2 H3 H4]. split; [split; auto|split; [done|apply rev_le_refl]]. }
  match type of E with context [save _ ?s ?w0] =>
    destruct (save (save_applied env) s w0) as [w1 r1] eqn:Es; set (s1 := s) in *; set (w2 := w0) in * end.
  simplify_eq. destruct Hinv as [H1 H2 H3 H4].
  assert (Hn : node_inv {| state := s1; applied_active_fingerprint :=
      Some (effective_fingerprint (desired (state r)) (now env));
      applied_this_process := true; etag := etag r; quarantined := quarantined r |} w2).
  { split; cbn [state].
    - intros k Hk _. left. f_equal. exact Hk.
    - intros d Hd k Hk1 Hk2. right. by apply (H2 d Hd).
    - intros k Hk. destruct (H3 k Hk) as [d Hd]. exists d. by right.
    - done. }
  destruct (save_inv _ _ _ _ _ Hn Es) as [Hn1 Hx]. split; [done|].
  eapply extends_trans; [|exact Hx]. split; [by right|apply rev_le_refl].
Qed.

Lemma tick_ack_inv env r w r' w' res :
  node_inv r w -> tick_ack (V := V) env r w = (r', w', res) -> node_inv r' w' /\ extends w w'.
Proof.
  intros Hinv E. unfold tick_ack in E.
  destruct (snapshot_revision (state r)) as [k|] eqn:Ek; [|by simplify_eq; split; [done|apply extends_refl]].
  destruct (_ && _) eqn:Ec; [|by simplify_eq; split; [done|apply extends_refl]].
  apply andb_true_iff in Ec as [Ec _]. apply andb_true_iff in Ec as [Ea _].
  apply bool_decide_eq_true in Ea. destruct Hinv as [H1 H2 H3 H4].
  assert (Hacked : forall k', In k' (k :: acked w) -> exists d, In (Some k', d) (proven w)).
  { intros k' [<-|Hk']; [|auto]. exists (desired (state r)). by apply H1. }
  destruct (negb (ack_ok env)).
  { simplify_eq. split; [split; auto|split; [done|apply rev_le_refl]]. }
  match type of E with context [save _ ?s ?w0] =>
    destruct (save (save_acked env) s w0) as [w1 r1] eqn:Es; set (s1 := s) in *; set (w2 := w0) in * end.
  simplify_eq.
  assert (Hn : node_inv (with_state r s1) w2).
  { split; cbn [state with_state]; [|done|done|].
    - intros k' Hk Hk'. apply H1; [|done]. cbn in Hk. congruence.
    - cbn. by rewrite <- Ek. }
  destruct (save_inv _ _ _ _ _ Hn Es) as [Hn1 Hx]. split; [done|].
  eapply extends_trans; [|exact Hx]. split; [done|apply rev_le_refl].
Qed.

Lemma ext_tick_inv env r w r' w' res :
  node_inv r w -> tick parse env r w = (r', w', res) -> node_inv r' w' /\ extends w w'.
Proof.
  intros Hinv E. unfold tick in E.
  destruct (tick_fetch parse env r w) as [[r1 w1] res1] eqn:E1.
  destruct (tick_fetch_inv _ _ _ _ _ _ Hinv E1) as [Hi1 Hx1].
  destruct res1 as [fe|]; [|by simplify_eq].
  destruct (tick_apply env r1 w1) as [[r2 w2] res2] eqn:E2.
  destruct (tick_apply_inv _ _ _ _ _ _ Hi1 E2) as [Hi2 Hx2].
  assert (Hx12 := extends_trans _ _ _ Hx1 Hx2).
  destruct res2; [|by simplify_eq].
  destruct (tick_ack env r2 w2) as [[r3 w3] res3] eqn:E3.
  destruct (tick_ack_inv _ _ _ _ _ _ Hi2 E3) as [Hi3 Hx3].
  assert (Hx := extends_trans _ _ _ Hx12 Hx3).
  destruct res3; [|by simplify_eq]. destruct fe; [by simplify_eq|].
  by destruct (negb _); simplify_eq.
Qed.

Lemma node_step_inv r w r' w' :
  node_step parse (r, w) (r', w') -> node_inv r w -> node_inv r' w' /\ extends w w'.
Proof.
  intros H Hinv. inversion H as [env ? ? ? ? res Ht|? ? ? Ho]; subst; [by eapply ext_tick_inv|].
  split; [|apply extends_refl]. destruct Hinv as [H1 H2 H3 H4]. unfold open, load_state in Ho.
  assert (Hs : state r' = match disk w' with Some d => d | None => default_state end).
  { destruct (disk w') as [d|]; cbn [result_bind] in Ho; [|by simplify_eq].
    destruct (Authz.validate (desired d)) as [[]|]; cbn [map_err result_bind] in Ho; by simplify_eq. }
  split; [|done|done|]; rewrite Hs; unfold disk_revision; destruct (disk w') as [d|]; auto.
  - intros k. discriminate.
  - apply rev_le_refl.
  - done.
Qed.

Lemma node_steps_inv x y : rtc (node_step parse) x y -> node_inv x.1 x.2 ->
  node_inv y.1 y.2 /\ extends x.2 y.2.
Proof.
  induction 1 as [x|[r w] [r1 w1] y Hs _ IH]; intros Hi; [split; [done|apply extends_refl]|].
  destruct (node_step_inv _ _ _ _ Hs Hi) as [Hi1 Hx]. destruct (IH Hi1) as [Hi2 Hx2].
  split; [done|]. by eapply extends_trans.
Qed.

Lemma node_init_inv : node_inv node_init.1 node_init.2.
Proof. split; simpl; try done. Qed.

(** C3: over the whole life of a node, ticks and restarts in any order with
    every file, process and network operation succeeding or failing, the agent
    acknowledges a revision only if vpn-admin proved a set live that was
    applied under that revision; and the revision in the state file never goes
    back. *)
Theorem acked_revisions_were_proven r w r' w' :
  rtc (node_step parse) node_init (r, w) -> rtc (node_step parse) (r, w) (r', w') ->
  (forall k, In k (acked w') -> exists d, In (Some k, d) (proven w'))
  /\ rev_le (disk_revision w) (disk_revision w').
Proof.
  intros H1 H2. destruct (node_steps_inv _ _ H1 node_init_inv) as [Hi _].
  destruct (node_steps_inv _ _ H2 Hi) as [Hi' [_ Hx]]. split; [|exact Hx]. apply (ni_acked _ _ Hi').
Qed.

End NodeLemmas.

(** ** Witnesses and the gaps *)

Definition ex_time (s : string) : option Z :=
  if String.eqb s "a" then Some 0 else if String.eqb s "b" then Some 1000
  else if String.eqb s "c" then Some 50 else if String.eqb s "d" then Some 60 else None.
Definition ex_item (cid from until : string) : V2WireAuthorization :=
  {| w_principal_id := "ext_opaque001"; w_credential_id := cid; w_class := Authz.Compatibility;
     w_valid_from := from; w_valid_until := until; w_revoked := false;
     w_protocol := {| w_vless_uuid := Some "00000000-0000-4000-8000-000000000001";
                      w_hysteria2_password := None |} |}.
Definition ex_body : json := JObj [("schema_version", JNum 2)].
Definition ex_decode (items : list (string * V2WireAuthorization)) (v : json)
  : option (V2WireSnapshot json) :=
  Some {| schema_version := 2; wire_revision := 7;
          wire_authorizations := map (fun e => JStr (fst e)) items |}.
Definition ex_decode_item (items : list (string * V2WireAuthorization)) (v : json)
  : option V2WireAuthorization :=
  match v with JStr k => assoc k items | _ => None end.
Definition ex_parse (items : list (string * V2WireAuthorization)) (v : json) :=
  parse_snapshot ex_time (ex_decode items) (ex_decode_item items) (fun _ => None) v.
Definition good_items := [("1", ex_item "cred_opaque001" "a" "b"); ("2", ex_item "cred_opaque002" "c" "d")].
Definition mixed_items := [("1", ex_item "cred_opaque001" "a" "b"); ("2", ex_item "cred_opaque002" "a" "?")].
Definition ex_env (f : fetch_outcome json) (t : Z) (ok : bool) : Env json :=
  {| fetch := f; save_adopted := Saved; now := t; apply_ok := ok; save_applied := Saved;
     ack_ok := true; save_acked := Saved |}.

Lemma parse_snapshot_sound_witness :
  exists s, ex_parse mixed_items ex_body = Ok s /\ p_quarantined s = ["cred_opaque002"]
    /\ Authz.validate (p_desired s) = Ok tt.
Proof.
  destruct (ex_parse mixed_items ex_body) as [s|e] eqn:E; [|vm_compute in E; discriminate].
  exists s. split; [reflexivity|]. split.
  - vm_compute in E. injection E as <-. reflexivity.
  - exact (proj1 (parse_snapshot_sound _ _ _ _ _ _ E)).
Defined.

Definition ex_snapshot (items : list (string * V2WireAuthorization)) : ParsedSnapshot :=
  match ex_parse items ex_body with
  | Ok s => s | Err _ => {| p_desired := []; p_revision := None; p_quarantined := [] |} end.

Lemma adopt_snapshot_monotone_witness :
  exists st' ch, adopt_snapshot default_state (ex_snapshot good_items) = Ok (st', ch)
    /\ rev_le (snapshot_revision default_state) (snapshot_revision st').
Proof.
  destruct (adopt_snapshot default_state (ex_snapshot good_items)) as [[st' ch]|e] eqn:E;
    [|vm_compute in E; discriminate].
  exists st', ch. split; [reflexivity|]. exact (proj1 (adopt_snapshot_monotone _ _ _ _ E)).
Defined.

(** One tick of the example node. *)
Definition ex_tick (items : list (string * V2WireAuthorization)) (e : Env json) (x : Reconciler * World)
  : Reconciler * World := fst (tick (ex_parse items) e (fst x) (snd x)).

Lemma ex_tick_step items e x : node_step (ex_parse items) x (ex_tick items e x).
Proof.
  destruct x as [r w]. unfold ex_tick. simpl.
  destruct (tick (ex_parse items) e r w) as [[r' w'] res] eqn:E. simpl. by econstructor.
Qed.

Lemma acked_revisions_were_proven_witness :
  let x := ex_tick good_items (ex_env (Fresh ex_body None) 10 true) node_init in
  acked (snd x) = [7] /\ exists d, In (Some 7, d) (proven (snd x)).
Proof.
  cbv zeta. split; [vm_compute; reflexivity|].
  destruct (ex_tick good_items (ex_env (Fresh ex_body None) 10 true) node_init) as [r w] eqn:E.
  refine (proj1 (acked_revisions_were_proven (ex_parse good_items) _ _ r w _ _) 7 _).
  - apply rtc_refl.
  - apply rtc_once. rewrite <- E. apply ex_tick_step.
  - replace (acked w) with (acked (snd (r, w))) by reflexivity. rewrite <- E. vm_compute. auto.
Defined.

(** The quarantine list is not persisted.  A snapshot with a credential that
    had to be left out is not acknowledged by the process that fetched it, but
    after a restart a tick without a fetch acknowledges it. *)
Lemma restart_acks_partial_snapshot :
  let x1 := ex_tick mixed_items (ex_env (Fresh ex_body None) 10 true) node_init in
  exists r2, open (disk (snd x1)) = Ok r2 /\ acked (snd x1) = []
    /\ quarantined (fst x1) = ["cred_opaque002"]
    /\ acked (snd (ex_tick mixed_items (ex_env NotDue 20 true) (r2, snd x1))) = [7].
Proof. cbv zeta. eexists. split; [vm_compute; reflexivity|]. vm_compute. auto. Qed.

(** A failed apply leaves the fingerprint of the last proven one in place: once
    the set of active credentials returns to it, the tick succeeds although
    nothing has been proven live since. *)
Lemma failed_apply_forgotten :
  let x1 := ex_tick good_items (ex_env (Fresh ex_body None) 10 true) node_init in
  let x2 := ex_tick good_items (ex_env NotDue 55 false) x1 in
  let t3 := tick (ex_parse good_items) (ex_env NotDue 70 true) (fst x2) (snd x2) in
  live (snd x2) = None /\ snd t3 = Ok tt /\ live (snd (fst t3)) = None.
Proof. vm_compute. auto. Qed.

End ExternalAuth.
