(* ===== verification/OpDedup.v ===== *)
(** * apps/provisioning-agent/src/op_dedup.rs

    The disk-backed log of applied operations: lookup, record with pruning by
    age and by count.  The log file is its decoded list of entries ([None]:
    unreadable); the two clock readings of a record are arguments. *)

From S2P Require Import Prelude.

Module OpDedup.

Definition MAX_ENTRIES : Z := 4096.
Definition RETENTION_SECS : Z := 24 * 60 * 60.

Section Log.
Context {V : Type}.

Inductive Outcome := Complete (v : V) | Fail (message : string).

Record Entry := { job_id : Z; outcome : Outcome; recorded_at_unix : Z }.

Definition lookup (entries : list Entry) (id : Z) : option Outcome :=
  option_map outcome (List.find (fun e => job_id e =? id) entries).

Definition prune (now : Z) (entries : list Entry) : list Entry :=
  let cutoff := saturating_sub now RETENTION_SECS in
  let kept := List.filter (fun e => cutoff <=? recorded_at_unix e) entries in
  if MAX_ENTRIES <? Z.of_nat (length kept) then
    let sorted := sort_by_key recorded_at_unix kept in
    drop (length sorted - Z.to_nat MAX_ENTRIES) sorted
  else kept.

(** [now1] is read when the entry is made, [now2] when it prunes. *)
Definition record (entries : list Entry) (id : Z) (o : Outcome) (now1 now2 : Z) : list Entry :=
  prune now2
    (List.filter (fun e => negb (job_id e =? id)) entries
     ++ [{| job_id := id; outcome := o; recorded_at_unix := now1 |}]).

(** ** Lemmas *)

Lemma prune_In now l e : In e (prune now l) -> In e l.
Proof.
  unfold prune. destruct (_ <? _).
  - intros H. by apply In_drop, In_sort_stable, In_filterb in H as [H _].
  - intros H. by apply In_filterb in H as [H _].
Qed.

Lemma prune_length now l : Z.of_nat (length (prune now l)) <= MAX_ENTRIES.
Proof.
  unfold prune. destruct (_ <? _) eqn:E; [|lia]. rewrite length_drop. unfold MAX_ENTRIES in *. lia.
Qed.

Lemma prune_small now l :
  Z.of_nat (length l) <= MAX_ENTRIES -> (forall e, In e l -> now - RETENTION_SECS <= recorded_at_unix e) ->
  0 <= now -> (forall e, In e l -> 0 <= recorded_at_unix e) -> prune now l = l.
Proof.
  intros Hl Ht Hn Hp. unfold prune.
  assert (Hk : List.filter (fun e => saturating_sub now RETENTION_SECS <=? recorded_at_unix e) l = l).
  { apply forallb_filter_id, forallb_forall. intros e He. specialize (Ht e He). specialize (Hp e He).
    unfold saturating_sub. lia. }
  rewrite Hk. by replace (_ <? _) with false by lia.
Qed.

Lemma lookup_app l1 l2 id :
  lookup (l1 ++ l2) id = match lookup l1 id with Some o => Some o | None => lookup l2 id end.
Proof.
  unfold lookup. induction l1 as [|e l IH]; simpl; [done|]. by destruct (job_id e =? id).
Qed.

Lemma lookup_filter_other l id id' : id' <> id ->
  lookup (List.filter (fun e => negb (job_id e =? id)) l) id' = lookup l id'.
Proof.
  intros Hne. unfold lookup. induction l as [|e l IH]; simpl; [done|].
  destruct (Z.eqb_spec (job_id e) id) as [E|E]; simpl.
  - by replace (job_id e =? id') with false by lia.
  - by destruct (job_id e =? id').
Qed.

Lemma lookup_filter_same l id :
  lookup (List.filter (fun e => negb (job_id e =? id)) l) id = None.
Proof.
  unfold lookup. induction l as [|e l IH]; simpl; [done|].
  destruct (job_id e =? id) eqn:E; simpl; [done|]. by rewrite E.
Qed.

(** Recording when the log has room and nothing has aged out. *)
Lemma record_roomy l id o now1 now2 :
  Z.of_nat (length l) < MAX_ENTRIES -> 0 <= now1 <= now2 -> now2 - RETENTION_SECS <= now1 ->
  (forall e, In e l -> 0 <= recorded_at_unix e /\ now2 - RETENTION_SECS <= recorded_at_unix e) ->
  record l id o now1 now2 =
    List.filter (fun e => negb (job_id e =? id)) l
    ++ [{| job_id := id; outcome := o; recorded_at_unix := now1 |}].
Proof.
  intros Hl Hn Hr He. unfold record. apply prune_small.
  - rewrite length_app. simpl. pose proof (List.filter_length_le (fun e => negb (job_id e =? id)) l). lia.
  - intros e H. apply in_app_iff in H as [H|[<-|[]]]; [|simpl; lia].
    apply In_filterb in H as [H _]. by apply He.
  - lia.
  - intros e H. apply in_app_iff in H as [H|[<-|[]]]; [|simpl; lia].
    apply In_filterb in H as [H _]. by apply He.
Qed.

(** Stable insertion sort of a list whose last element has the largest key
    leaves that element last. *)
Lemma sort_last (l : list Entry) x :
  (forall e, In e l -> recorded_at_unix e <= recorded_at_unix x) ->
  sort_by_key recorded_at_unix (l ++ [x]) = sort_by_key recorded_at_unix l ++ [x].
Proof.
  intros H. unfold sort_by_key. induction l as [|y l IH]; simpl; [done|].
  rewrite IH by (intros; apply H; by right).
  assert (Hy := H y (or_introl eq_refl)). clear IH H.
  induction (sort_stable (key_leb recorded_at_unix) l) as [|z m IHm]; simpl.
  - unfold key_leb. by replace (recorded_at_unix y <=? recorded_at_unix x) with true by lia.
  - destruct (key_leb recorded_at_unix y z); [done|]. by rewrite IHm.
Qed.

(** With a clock that does not run backwards, an outcome is found again
    right after it is recorded, under the id it was recorded for, even when
    the log is full; the log never holds more than 4096 entries, and every other
    entry in it was there before, for a different id. *)
Theorem record_then_lookup l id o now1 now2 :
  0 <= now1 <= now2 -> now2 - now1 <= RETENTION_SECS ->
  (forall e, In e l -> recorded_at_unix e <= now1) ->
  lookup (record l id o now1 now2) id = Some o
  /\ Z.of_nat (length (record l id o now1 now2)) <= MAX_ENTRIES
  /\ (forall e, In e (record l id o now1 now2) ->
        (In e l /\ job_id e <> id) \/ e = {| job_id := id; outcome := o; recorded_at_unix := now1 |}).
Proof.
  intros Hn Hr Hmax. split; [|split; [apply prune_length|]].
  - unfold record. set (rest := List.filter (fun e => negb (job_id e =? id)) l).
    set (x := {| job_id := id; outcome := o; recorded_at_unix := now1 |}).
    unfold prune. rewrite List.filter_app. cbn [List.filter recorded_at_unix x].
    replace (saturating_sub now2 RETENTION_SECS <=? now1) with true by (unfold saturating_sub; lia).
    set (kept := List.filter _ rest).
    assert (Hnone : forall m, (forall e, In e m -> In e rest) -> lookup m id = None).
    { intros m Hm. unfold lookup. rewrite (proj2 (find_none_iff _ _)); [done|]. intros e He.
      apply Hm, In_filterb in He as [_ He]. by apply negb_true_iff in He. }
    assert (Hx : lookup [x] id = Some o) by (unfold lookup; simpl; by rewrite Z.eqb_refl).
    destruct (_ <? _) eqn:E.
    + rewrite sort_last.
      2:{ intros e He. apply In_filterb in He as [He _]. apply In_filterb in He as [He _]. by apply Hmax. }
      rewrite length_app, drop_app_le by (unfold MAX_ENTRIES; simpl; lia).
      rewrite lookup_app, Hx, Hnone; [done|]. intros e He.
      by apply In_drop, In_sort_stable, In_filterb in He as [He _].
    + rewrite lookup_app, Hx, Hnone; [done|]. intros e He. by apply In_filterb in He as [He _].
  - intros e He. unfold record in He. apply prune_In, in_app_iff in He as [He|[<-|[]]]; [left|by right].
    apply In_filterb in He as [He Hid]. apply negb_true_iff in Hid. split; [done|lia].
Qed.

End Log.
Arguments Outcome : clear implicits.
Arguments Entry : clear implicits.

Lemma record_then_lookup_witness :
  lookup (record (V := Z) [] 7 (Complete 1) 100 101) 7 = Some (Complete 1).
Proof.
  refine (proj1 (record_then_lookup [] 7 (Complete 1) 100 101 _ _ _)); [lia|unfold RETENTION_SECS; lia|].
  intros e [].
Defined.

(** [lookup] does not look at the age of an entry: until the next [record]
    prunes it, an outcome older than the retention period is still replayed. *)
Lemma lookup_ignores_retention (id t : Z) (v : Z) :
  lookup [{| job_id := id; outcome := Complete v; recorded_at_unix := t |}] id = Some (Complete v).
Proof. unfold lookup. simpl. by rewrite Z.eqb_refl. Qed.

End OpDedup.
