(* ===== verification/ReportQueue.v ===== *)
(** * apps/provisioning-agent/src/report_queue.rs

    The disk-backed queue of job reports and its delivery task.  The file is
    the decoded list of entries.  Delivery is modelled twice: [run_once], one
    whole iteration of the task's loop, and [qstep], the interleaving of the
    task's file accesses with enqueues from the main loop, which share the file
    without a lock; [run_once_steps] relates them.  Both record the requests
    made. *)

From stdpp Require Import relations.
From S2P Require Import Prelude Strs.

Module ReportQueue.

Definition MAX_PENDING : Z := 4096.
Definition IDLE_POLL_INTERVAL : Z := 5.
Definition MAX_BACKOFF : Z := 30.
Definition MAX_ATTEMPTS : Z := 8.

Section Queue.
Context {V : Type}.

Inductive Outcome := Complete (v : V) | Fail (message : string).

Record Entry := {
  job_id : Z;
  claim_token : string;
  lease_expires_at : string;
  outcome : Outcome;
  attempts : Z }.

Definition new_entry (id : Z) (token lease : string) (o : Outcome) : Entry :=
  {| job_id := id; claim_token := token; lease_expires_at := lease; outcome := o; attempts := 0 |}.

Definition enqueue_complete (id : Z) (token lease : string) (v : V) : Entry :=
  new_entry id token lease (Complete v).
Definition enqueue_fail (id : Z) (token lease message : string) : Entry :=
  new_entry id token lease (Fail message).

(** [enqueue] on the loaded list: at capacity the oldest report is dropped. *)
Definition enqueue (entries : list Entry) (e : Entry) : list Entry :=
  (if MAX_PENDING <=? Z.of_nat (length entries) then tail entries else entries) ++ [e].

(** What the Worker's answer means for a report. *)
Inductive Disposition := Accepted | Terminal | DeliveryError.

Definition bump (e : Entry) : Entry :=
  {| job_id := job_id e; claim_token := claim_token e; lease_expires_at := lease_expires_at e;
     outcome := outcome e; attempts := saturating_add u32_max (attempts e) 1 |}.

(** [OffsetDateTime::parse] of the time crate, and the instants it compares. *)
Context (deadline : string -> option Z).

Definition expired (now : Z) (e : Entry) : bool :=
  match deadline (lease_expires_at e) with Some d => d <=? now | None => true end.

(** One body of the [for] loop: the requests it makes, each with the time its
    lease was compared with, and the entry that stays.  [now] is read for each
    entry, and [answer] is what the Worker says. *)
Definition process (now : Z) (answer : Disposition) (e : Entry) : list (Z * Entry) * option Entry :=
  if expired now e then ([], None) else
  let sent := [(now, e)] in
  match answer with
  | Accepted | Terminal => (sent, None)
  | DeliveryError =>
      let e := bump e in
      if MAX_ATTEMPTS <=? attempts e then (sent, None) else (sent, Some e)
  end.

(** What happens during one iteration of [run]: whether the file can be read
    and written back, and the clock and the answer for the i-th entry. *)
Record IterEnv := { load_ok : bool; clock : nat -> Z; answer : nat -> Disposition; save_ok : bool }.

Fixpoint delivery_pass (env : IterEnv) (i : nat) (entries : list Entry) : list (Z * Entry) * list Entry :=
  match entries with
  | [] => ([], [])
  | e :: entries =>
      let '(sent, kept) := process (clock env i) (answer env i) e in
      let '(sent', remaining) := delivery_pass env (S i) entries in
      (sent ++ sent', match kept with Some e' => e' :: remaining | None => remaining end)
  end.

(** Seconds slept after a pass that left something. *)
Definition backoff (remaining : list Entry) : Z :=
  let max_attempts_after := foldr (fun e m => Z.max (attempts e) m) 0 remaining in
  Z.min (Z.shiftl 1 (Z.min max_attempts_after 5)) MAX_BACKOFF.

(** One iteration of [run]: the file afterwards, the requests made and the
    longest sleep before the next iteration ([None]: it starts at once). *)
Definition run_once (env : IterEnv) (file : list Entry) : list Entry * list (Z * Entry) * option Z :=
  if negb (load_ok env) then (file, [], Some IDLE_POLL_INTERVAL) else
  match file with
  | [] => (file, [], Some IDLE_POLL_INTERVAL)
  | entries =>
      let '(sent, remaining) := delivery_pass env 0 entries in
      (if save_ok env then remaining else file, sent, match remaining with [] => None | _ => Some (backoff remaining) end)
  end.

(** [run], as long as nothing is enqueued: the file and all requests. *)
Fixpoint run (envs : list IterEnv) (file : list Entry) : list Entry * list (Z * Entry) :=
  match envs with
  | [] => (file, [])
  | env :: envs =>
      let '(file, sent, _) := run_once env file in
      let '(file, sent') := run envs file in
      (file, sent ++ sent')
  end.

(** ** Interleaving with the main loop *)

(** The file, the pass in progress (entries still to process and those kept so
    far) and the requests made. *)
Record QState := { file : list Entry; pass : option (list Entry * list Entry); requests : list (Z * Entry) }.

Inductive qstep : QState -> QState -> Prop :=
| q_enqueue f p rs e : attempts e = 0 ->
    qstep {| file := f; pass := p; requests := rs |} {| file := enqueue f e; pass := p; requests := rs |}
| q_load f rs : qstep {| file := f; pass := None; requests := rs |} {| file := f; pass := Some (f, []); requests := rs |}
| q_process f e todo kept rs now answer :
    qstep {| file := f; pass := Some (e :: todo, kept); requests := rs |}
          {| file := f;
             pass := Some (todo, kept ++ option_list (snd (process now answer e)));
             requests := rs ++ fst (process now answer e) |}
| q_save f kept rs : qstep {| file := f; pass := Some ([], kept); requests := rs |} {| file := kept; pass := None; requests := rs |}
| q_save_failed f kept rs : qstep {| file := f; pass := Some ([], kept); requests := rs |} {| file := f; pass := None; requests := rs |}
| q_crash f p rs : qstep {| file := f; pass := p; requests := rs |} {| file := f; pass := None; requests := rs |}.
Definition at_rest (f : list Entry) (rs : list (Z * Entry)) : QState := {| file := f; pass := None; requests := rs |}.

(** ** Lemmas *)

Definition fresh_enough (e : Entry) : Prop := 0 <= attempts e < MAX_ATTEMPTS.
(** The lease parses and ends after the given time. *)
Definition live (now : Z) (e : Entry) : Prop := exists d, deadline (lease_expires_at e) = Some d /\ now < d.

Lemma expired_iff now e : expired now e = false <-> live now e.
Proof.
  unfold expired, live. destruct (deadline _) as [d|]; [rewrite Z.leb_gt|]; split.
  - by exists d.
  - intros (x & Hx & Hlt). by injection Hx as ->.
  - done.
  - by intros (x & Hx & _).
Qed.

(** The whole account of one entry. *)
Lemma process_spec now ans e : fresh_enough e ->
  (live now e /\ fst (process now ans e) = [(now, e)] \/ ~ live now e /\ fst (process now ans e) = []) /\
  (forall e', snd (process now ans e) = Some e' <->
     live now e /\ ans = DeliveryError /\ e' = bump e /\ attempts e' < MAX_ATTEMPTS).
Proof.
  intros Hf. unfold process. setoid_rewrite <- expired_iff. destruct (expired now e); [split; [by right|]; intros e'; split; [done|by intros ([=] & _)]|].
  destruct ans; try (split; [by left|]; intros e'; split; [done|by intros (_ & [=] & _)]).
  destruct (MAX_ATTEMPTS <=? attempts (bump e)) eqn:E; (split; [by left|]; intros e'; simpl); split.
  - done.
  - intros (_ & _ & -> & ?). lia.
  - intros [= <-]. repeat split; lia.
  - by intros (_ & _ & -> & _).
Qed.
Lemma bump_attempts e : fresh_enough e -> attempts (bump e) = attempts e + 1.
Proof. unfold fresh_enough, MAX_ATTEMPTS, bump, saturating_add, u32_max. simpl. lia. Qed.
Lemma process_Some now ans e e' : fresh_enough e -> snd (process now ans e) = Some e' ->
  attempts e' = attempts e + 1 /\ fresh_enough e'.
Proof.
  intros Hf H. apply (process_spec now ans e Hf) in H as (_ & _ & -> & Hlt).
  pose proof (bump_attempts e Hf). unfold fresh_enough in *. lia.
Qed.
Lemma process_sent now ans e t x : fresh_enough e -> In (t, x) (fst (process now ans e)) -> live t x /\ t = now /\ x = e.
Proof. intros Hf. destruct (process_spec now ans e Hf) as [[[Hl ->]|[_ ->]] _]; [|done]. by intros [[= <- <-]|[]]. Qed.

(** Every entry of a pass: sent if and only if live when it is reached, and
    kept with one more attempt if and only if the delivery failed and the
    attempts are not used up. *)
Lemma delivery_pass_spec env l : forall i, Forall fresh_enough l ->
  (forall t x, In (t, x) (fst (delivery_pass env i l)) <->
     exists k, l !! k = Some x /\ t = clock env (i + k) /\ live t x) /\
  (forall e', In e' (snd (delivery_pass env i l)) <->
     exists k e, l !! k = Some e /\ live (clock env (i + k)) e /\ answer env (i + k) = DeliveryError /\
                 e' = bump e /\ attempts e' < MAX_ATTEMPTS).
Proof.
  induction l as [|e l IH]; intros i Hf.
  { split; intros; simpl; (split; [done|]); [by intros (? & ? & _)|by intros (? & ? & ? & _)]. }
  apply Forall_cons in Hf as [He Hf]. destruct (IH (S i) Hf) as [IHs IHk]. clear IH.
  destruct (process_spec (clock env i) (answer env i) e He) as [Hs Hk]. simpl.
  destruct (process (clock env i) (answer env i) e) as [sent kept], (delivery_pass env (S i) l) as [sent' remaining]. simpl in *.
  split.
  - intros t x. rewrite in_app_iff, IHs. split.
    + intros [Hin|(k & Hk' & -> & Hl)]; [|exists (S k); by rewrite <- plus_n_Sm].
      destruct Hs as [[Hl ->]|[_ ->]]; [|done]. destruct Hin as [[= <- <-]|[]]. exists 0%nat. by rewrite Nat.add_0_r.
    + intros ([|k] & Hk' & -> & Hl); [|right; exists k; by rewrite plus_n_Sm].
      injection Hk' as ->. rewrite Nat.add_0_r in *. left. destruct Hs as [[_ ->]|[Hn _]]; [by left|done].
  - intros e'. transitivity (kept = Some e' \/ In e' remaining).
    { destruct kept as [x|]; simpl; [|intuition done]. split; (intros [H|H]; [left; congruence|by right]). }
    rewrite Hk, IHk. split.
    + intros [(H1 & H2 & H3 & H4)|(k & x & H1 & H2)]; [exists 0%nat, e; by rewrite Nat.add_0_r|].
      exists (S k), x. by rewrite <- plus_n_Sm.
    + intros ([|k] & x & H1 & H2); [injection H1 as ->; rewrite Nat.add_0_r in H2; by left|right; exists k, x].
      by rewrite plus_n_Sm.
Qed.

Lemma enqueue_length l e : Z.of_nat (length l) <= MAX_PENDING ->
  Z.of_nat (length (enqueue l e)) <= MAX_PENDING.
Proof.
  unfold enqueue, MAX_PENDING. intros H. rewrite length_app. simpl.
  destruct (_ <=? _) eqn:E; [|lia]. destruct l; simpl in *; lia.
Qed.

(** What holds of every state reached by enqueues and passes. *)
Definition qinv (q : QState) : Prop :=
  Z.of_nat (length (file q)) <= MAX_PENDING /\ Forall fresh_enough (file q)
  /\ match pass q with
     | None => True
     | Some (todo, kept) =>
         Z.of_nat (length todo + length kept) <= MAX_PENDING
         /\ Forall fresh_enough todo /\ Forall fresh_enough kept
     end
  /\ forall t e, In (t, e) (requests q) -> live t e.

Lemma enqueue_fresh l e : Forall fresh_enough l -> attempts e = 0 -> Forall fresh_enough (enqueue l e).
Proof.
  intros Hl He. apply Forall_app. split.
  - destruct (_ <=? _); [|done]. destruct Hl; simpl; [constructor|done].
  - constructor; [|constructor]. unfold fresh_enough, MAX_ATTEMPTS; lia.
Qed.

Lemma qstep_inv q q' : qstep q q' -> qinv q -> qinv q'.
Proof.
  unfold qinv. intros Hs (Hl & Hf & Hp & Hr).
  destruct Hs as [f p rs e He|f rs|f e todo kept rs now ans|f kept rs|f kept rs|f p rs]; simpl in *; try done.
  - split; [by apply enqueue_length|]. by split; [apply enqueue_fresh|].
  - split; [done|]. split; [done|]. split; [|done]. split; [lia|]. by split; [|constructor].
  - destruct Hp as (Hlen & Ht & Hk). apply Forall_cons in Ht as [He Ht].
    split; [done|]. split; [done|]. rewrite length_app. split.
    + destruct (snd (process now ans e)) as [e'|] eqn:E; simpl.
      * destruct (process_Some _ _ _ _ He E) as (_ & Hf'). split; [lia|]. split; [done|].
        apply Forall_app. split; [done|]. by constructor; [|constructor].
      * split; [lia|]. by rewrite app_nil_r.
    + intros t x [Hin|Hin]%in_app_iff; [by apply Hr|]. by apply process_sent in Hin as [].
  - destruct Hp as (Hlen & _ & Hk). by split; [lia|].
Qed.
Lemma reachable_inv q q' : rtc qstep q q' -> qinv q -> qinv q'.
Proof. induction 1 as [|q q1 q2 Hs _ IH]; intros Hi; [done|]. by apply IH, (qstep_inv q). Qed.

(** However enqueues, delivery passes, failed saves and crashes interleave,
    the queue file never holds more than 4096 reports and no report in it has
    used up its eight delivery attempts. *)
Theorem queue_bounded q : rtc qstep (at_rest [] []) q ->
  Z.of_nat (length (file q)) <= MAX_PENDING
  /\ Forall (fun e => 0 <= attempts e < MAX_ATTEMPTS) (file q).
Proof.
  intros H. apply reachable_inv in H as (H1 & H2 & _); [done|].
  split; [unfold MAX_PENDING; simpl; lia|]. by split; [constructor|].
Qed.

(** An iteration is a run of the interleaved steps. *)
Lemma delivery_pass_steps env l : forall i f kept rs,
  rtc qstep {| file := f; pass := Some (l, kept); requests := rs |}
            {| file := f; pass := Some ([], kept ++ snd (delivery_pass env i l)); requests := rs ++ fst (delivery_pass env i l) |}.
Proof.
  induction l as [|e l IH]; intros i f kept rs; simpl; [rewrite !app_nil_r; apply rtc_refl|].
  eapply rtc_l; [apply (q_process f e l kept rs (clock env i) (answer env i))|].
  specialize (IH (S i) f (kept ++ option_list (snd (process (clock env i) (answer env i) e))) (rs ++ fst (process (clock env i) (answer env i) e))).
  destruct (process (clock env i) (answer env i) e) as [sent k], (delivery_pass env (S i) l) as [sent' remaining]. simpl in *.
  rewrite <- !app_assoc in IH. by destruct k.
Qed.
Lemma run_once_steps env f rs : let '(f', sent, _) := run_once env f in rtc qstep (at_rest f rs) (at_rest f' (rs ++ sent)).
Proof.
  unfold run_once. destruct (load_ok env); simpl; [|rewrite app_nil_r; apply rtc_refl].
  destruct f as [|e f]; [rewrite app_nil_r; apply rtc_refl|]. set (l := e :: f).
  pose proof (delivery_pass_steps env l 0 l [] rs) as H. destruct (delivery_pass env 0 l) as [sent remaining]. simpl in H.
  eapply rtc_l; [apply q_load|]. eapply rtc_r; [exact H|]. destruct (save_ok env); [apply q_save|apply q_save_failed].
Qed.
Lemma run_steps envs : forall f rs, rtc qstep (at_rest f rs) (at_rest (fst (run envs f)) (rs ++ snd (run envs f))).
Proof.
  induction envs as [|env envs IH]; intros f rs; simpl; [rewrite app_nil_r; apply rtc_refl|].
  pose proof (run_once_steps env f rs) as H1. destruct (run_once env f) as [[f1 sent] sl].
  specialize (IH f1 (rs ++ sent)). destruct (run envs f1) as [f2 sent']. simpl in *.
  rewrite app_assoc. by etrans.
Qed.

(** ** Without new reports the queue drains *)

Definition completes (env : IterEnv) : bool := load_ok env && save_ok env.

Lemma run_once_attempts env f (k : Z) : Forall fresh_enough f -> Forall (fun e => k <= attempts e) f ->
  let '(f', _, _) := run_once env f in
  Forall fresh_enough f' /\ Forall (fun e => k + (if completes env then 1 else 0) <= attempts e) f'.
Proof.
  intros Hf Hk. unfold run_once, completes. 
  assert (Hsame : Forall fresh_enough f /\ Forall (fun e => k + 0 <= attempts e) f).
  { split; [done|]. eapply Forall_impl; [exact Hk|]. simpl. lia. }
  destruct (load_ok env); [|done]. destruct f as [|e0 f0]; [by split; constructor|]. set (f := e0 :: f0) in *.
  destruct (delivery_pass_spec env f 0 Hf) as [_ Hs]. destruct (delivery_pass env 0 f) as [sent remaining]. cbn [snd negb andb] in *.
  destruct (save_ok env); [|done]. assert (H : Forall (fun e => fresh_enough e /\ k + 1 <= attempts e) remaining).
  { apply List.Forall_forall. intros e' (i & e & He & _ & _ & -> & Hlt)%Hs. apply list_elem_of_lookup_2, list_elem_of_In in He.
    rewrite List.Forall_forall in Hf, Hk. specialize (Hf e He). specialize (Hk e He). simpl in Hk.
    pose proof (bump_attempts e Hf). unfold fresh_enough in *. lia. }
  split; (eapply Forall_impl; [exact H|]); by intros ? [].
Qed.
Lemma run_attempts envs : forall f (k : Z), Forall fresh_enough f -> Forall (fun e => k <= attempts e) f ->
  Forall fresh_enough (fst (run envs f)) /\
  Forall (fun e => k + Z.of_nat (length (List.filter completes envs)) <= attempts e) (fst (run envs f)).
Proof.
  induction envs as [|env envs IH]; intros f k Hf Hk; simpl.
  { split; [done|]. eapply Forall_impl; [exact Hk|]. simpl. lia. }
  pose proof (run_once_attempts env f k Hf Hk) as H1. destruct (run_once env f) as [[f1 sent] sl]. destruct H1 as [H1 H2].
  destruct (IH f1 _ H1 H2) as [H3 H4]. destruct (run envs f1) as [f2 sent']. simpl in *. split; [done|].
  eapply Forall_impl; [exact H4|]. simpl. destruct (completes env); simpl; lia.
Qed.

Lemma backoff_bounds m : 1 <= backoff m <= MAX_BACKOFF.
Proof.
  unfold backoff, MAX_BACKOFF. assert (H0 : 0 <= foldr (fun e k => Z.max (attempts e) k) 0 m) by (induction m; simpl; lia).
  set (k := Z.min _ 5). assert (Hk : 0 <= k <= 5) by (unfold k; lia).
  rewrite Z.shiftl_1_l. pose proof (Z.pow_le_mono_r 2 0 k ltac:(lia) ltac:(lia)). simpl in *. lia.
Qed.

(** C38: The report queue never sends a report whose claim lease has expired, or
    does not parse, at the moment it is considered: of every request made, in
    any interleaving of enqueues, delivery passes, failed saves and crashes.
    While nothing is enqueued, the file is empty once eight iterations have
    read it and saved it, whatever the Worker answers and whatever other
    iterations fail to read or to save.  An iteration that reads the file sends
    exactly the reports still live when it reaches them, and leaves, when it
    can save, exactly those whose delivery failed, with one more attempt
    counted, below eight; it then sleeps for one to thirty seconds if it keeps
    any. *)
Theorem queue_drains envs f :
  Z.of_nat (length f) <= MAX_PENDING -> (forall e, In e f -> 0 <= attempts e < MAX_ATTEMPTS) ->
  (forall q t e, rtc qstep (at_rest f []) q -> In (t, e) (requests q) -> live t e) /\
  (8 <= Z.of_nat (length (List.filter completes envs)) -> fst (run envs f) = []) /\
  (forall t e, In (t, e) (snd (run envs f)) -> live t e) /\
  (forall env f' sent sleep, run_once env f = (f', sent, sleep) -> load_ok env = true ->
     (forall t e, In (t, e) sent <-> exists k, f !! k = Some e /\ t = clock env k /\ live t e) /\
     (if save_ok env
      then (forall e', In e' f' <-> exists k e, f !! k = Some e /\ live (clock env k) e /\
              answer env k = DeliveryError /\ e' = bump e /\ attempts e' < MAX_ATTEMPTS) /\
           (f' <> [] -> exists s, sleep = Some s /\ 1 <= s <= MAX_BACKOFF)
      else f' = f)).
Proof.
  intros Hlen Hf. assert (Hf' : Forall fresh_enough f) by (by apply List.Forall_forall).
  assert (Hsafe : forall q t e, rtc qstep (at_rest f []) q -> In (t, e) (requests q) -> live t e).
  { intros q t e Hq. apply reachable_inv in Hq as (_ & _ & _ & Hr); [apply Hr|]. by split. }
  split; [done|]. split; [|split].
  - intros Hn. destruct (run_attempts envs f 0 Hf') as [H1 H2].
    { eapply Forall_impl; [exact Hf'|]. unfold fresh_enough. simpl. lia. }
    destruct (fst (run envs f)) as [|e m]; [done|]. apply Forall_cons in H1 as [H1 _], H2 as [H2 _].
    unfold fresh_enough, MAX_ATTEMPTS in *. lia.
  - intros t e. apply (Hsafe (at_rest (fst (run envs f)) ([] ++ snd (run envs f)))), run_steps.
  - intros env f' sent sleep Hrun Hload. destruct (delivery_pass_spec env f 0 Hf') as [Hs Hk].
    unfold run_once in Hrun. rewrite Hload in Hrun. simpl in Hrun. destruct f as [|e0 f0].
    { injection Hrun as <- <- <-. split; [apply Hs|]. destruct (save_ok env); [|done]. by split; [apply Hk|]. }
    set (l := e0 :: f0) in *. destruct (delivery_pass env 0 l) as [s remaining]. simpl in Hs, Hk.
    injection Hrun as <- <- <-. split; [apply Hs|]. destruct (save_ok env); [|done]. split; [apply Hk|].
    intros Hne. destruct remaining as [|x r]; [done|]. eexists. split; [done|]. apply backoff_bounds.
Qed.

End Queue.
Arguments Outcome : clear implicits.
Arguments Entry : clear implicits.

(** ** Witnesses and the shared file *)

Definition ex_entry (id : Z) : Entry Z := enqueue_complete id "tok" "lease" 0.

Definition ex_deadline (_ : string) : option Z := Some 100.
Definition ex_iter (now : Z) (ans : Disposition) (saves : bool) : IterEnv :=
  {| load_ok := true; clock := fun _ => now; answer := fun _ => ans; save_ok := saves |}.

Lemma queue_bounded_witness :
  Z.of_nat (length (file (at_rest (enqueue [] (ex_entry 1)) []))) <= MAX_PENDING.
Proof.
  refine (proj1 (queue_bounded ex_deadline _ _)). apply rtc_once. by constructor.
Defined.

(** Eight failed deliveries around an iteration that cannot save; and an
    expired lease, which is dropped without a request. *)
Lemma queue_drains_witness :
  fst (run ex_deadline (repeat (ex_iter 1 DeliveryError true) 4 ++ [ex_iter 1 DeliveryError false] ++ repeat (ex_iter 1 DeliveryError true) 4)
         [ex_entry 1; ex_entry 2]) = []
  /\ forall t e, ~ In (t, e) (snd (run ex_deadline [ex_iter 100 Accepted true] [ex_entry 1])).
Proof.
  split.
  - refine (proj1 (proj2 (queue_drains ex_deadline _ _ _ _)) _); [vm_compute; discriminate| |vm_compute; discriminate].
    intros e [<-|[<-|[]]]; vm_compute; split; congruence.
  - intros t e Hin. assert (Hl : live ex_deadline t e).
    { refine (proj1 (proj2 (proj2 (queue_drains ex_deadline [ex_iter 100 Accepted true] [ex_entry 1] _ _))) t e Hin); [vm_compute; discriminate|].
      intros e' [<-|[]]; vm_compute; split; congruence. }
    vm_compute in Hin. done.
Defined.

(** The delivery task writes back the entries it loaded, not the file: a report
    enqueued while a pass is under way is lost when the pass saves. *)
Lemma enqueue_during_pass_lost :
  exists q rs, rtc (qstep ex_deadline) (at_rest [ex_entry 1] []) q
       /\ file q = [ex_entry 1; ex_entry 2] /\ qstep ex_deadline q (at_rest [] rs)
       /\ rs = [(1, ex_entry 1)].
Proof.
  exists {| file := [ex_entry 1; ex_entry 2]; pass := Some ([], []); requests := [(1, ex_entry 1)] |}, [(1, ex_entry 1)].
  split; [|split; [done|split; [apply q_save|done]]].
  eapply rtc_l; [apply q_load|].
  eapply rtc_l; [apply (q_process ex_deadline _ _ [] [] [] 1 Accepted)|].
  apply rtc_once. by apply (q_enqueue ex_deadline [ex_entry 1] (Some ([], []))).
Qed.

(** While the file cannot be written, an accepted report is sent again by every
    iteration, and no iteration sleeps. *)
Lemma unsaved_pass_repeats_at_once n :
  let env := ex_iter 1 Accepted false in
  snd (run_once ex_deadline env [ex_entry 1]) = None
  /\ run ex_deadline (repeat env n) [ex_entry 1] = ([ex_entry 1], repeat (1, ex_entry 1) n).
Proof. split; [reflexivity|]. induction n as [|n IH]; [done|]. cbn [repeat run]. change (run_once ex_deadline _ _) with ([ex_entry 1], [(1, ex_entry 1)], @None Z). cbv iota beta. by rewrite IH. Qed.

End ReportQueue.
