(* ===== verification/Jobs.v ===== *)
(** * apps/provisioning-agent: dispatch.rs and the job pipeline of main.rs

    A claimed job becomes one vpn-admin invocation (retried at most three
    times); the pipeline around it checks the operation log first, records a
    success in it, and hands the report to the report queue.

    vpn-admin and the Worker are arguments: [vpn_admin args attempt] is what
    running the command line gave (spawn errors and timeouts included). *)

From S2P Require Import Prelude Strs Json OpDedup ReportQueue.

Module Jobs.

Section Jobs.
Context {V : Type} `{HJ : JsonOps V}.
Context (jis_null : V -> bool) (parse3339 : string -> option Z).

Record Job := {
  id : Z;
  job_type : string;
  payload : V;
  claim_token : string;
  lease_expires_at : string }.

Inductive job_error :=
| UnknownJobType (t : string)
| MissingString (key : string)
| MissingU64 (key : string)
| ExpiresNotString
| BadExpires
| FetchFailed
| SpawnFailed        (** could not start, or timed out and was terminated *)
| ExitFailure
| NotJson
| MissingOutput (key : string)
| LeaseUnparsable.

(** [std::process::Output]: exit status and stdout parsed as JSON. *)
Record Output := { success : bool; stdout_json : option V }.

(** ** Payload fields *)

Definition payload_u64 (job : Job) (key : string) : result Z job_error :=
  ok_or (get_u64 (payload job) key) (MissingU64 key).

Definition payload_str (job : Job) (key : string) : result string job_error :=
  ok_or (get_str (payload job) key) (MissingString key).

Definition payload_optional_expires_at_unix (job : Job) : result (option Z) job_error :=
  match jget (payload job) "expires_at" with
  | None => Ok None
  | Some value =>
      if jis_null value then Ok None else
      let? raw := ok_or (jas_str value) ExpiresNotString in
      let? t := ok_or (parse3339 raw) BadExpires in
      Ok (Some t)
  end.

Definition payload_expires_at_unix (job : Job) : result Z job_error :=
  let? o := payload_optional_expires_at_unix job in
  ok_or o (MissingString "expires_at").

(** ** One attempt *)

Section Attempt.
(** Running [vpn-admin --config <cfg> args]; fetching a revision document and
    writing it to a private file, whose path it returns. *)
Context (vpn_admin : list string -> result Output job_error).
Context (fetch_revision : Z -> result string job_error).

Definition require_success (o : Output) : result unit job_error :=
  if negb (success o) then Err ExitFailure else Ok tt.

Definition parse_json_output (o : Output) : result V job_error :=
  let? _ := require_success o in
  ok_or (stdout_json o) NotJson.

Definition out_str (v : V) (key : string) : result string job_error :=
  ok_or (get_str v key) (MissingOutput key).

Definition create_args (user_id : string) (expires_at : option Z) : list string :=
  ["user"; "create"; "--name"; user_id]
  ++ match expires_at with Some t => ["--expires-at"; i64_to_string t] | None => [] end
  ++ ["--json"].

Definition create_user (job : Job) : result V job_error :=
  let? user_id := payload_str job "user_id" in
  let? expires_at := payload_optional_expires_at_unix job in
  let? output := vpn_admin (create_args user_id expires_at) in
  let? parsed := parse_json_output output in
  let? vpn_user_id := out_str parsed "id" in
  let? subscription_url := out_str parsed "subscription_url" in
  let? provisioning_url := out_str parsed "provisioning_url" in
  Ok (jobj [("vpn_user_id", jstr vpn_user_id); ("subscription_url", jstr subscription_url);
            ("provisioning_url", jstr provisioning_url)]).

Definition set_expiry (job : Job) : result V job_error :=
  let? vpn_user_id := payload_str job "vpn_user_id" in
  let? expires_at := payload_expires_at_unix job in
  let? output := vpn_admin ["user"; "set-expiry"; vpn_user_id; "--expires-at"; i64_to_string expires_at] in
  let? _ := require_success output in
  Ok (jobj []).

(** [clear_expiry], [rotate_credentials] and [enable_or_disable] differ in the
    subcommand only. *)
Definition user_command (subcommand : string) (job : Job) : result V job_error :=
  let? vpn_user_id := payload_str job "vpn_user_id" in
  let? output := vpn_admin ["user"; subcommand; vpn_user_id] in
  let? _ := require_success output in
  Ok (jobj []).
Definition clear_expiry (job : Job) : result V job_error := user_command "clear-expiry" job.
Definition rotate_credentials (job : Job) : result V job_error := user_command "rotate-credentials" job.
Definition enable_or_disable (subcommand : string) (job : Job) : result V job_error :=
  user_command subcommand job.

Definition rotate_token (job : Job) : result V job_error :=
  let? vpn_user_id := payload_str job "vpn_user_id" in
  let? output := vpn_admin ["user"; "rotate-token"; vpn_user_id; "--json"] in
  let? parsed := parse_json_output output in
  let? subscription_url := out_str parsed "subscription_url" in
  let? provisioning_url := out_str parsed "provisioning_url" in
  Ok (jobj [("subscription_url", jstr subscription_url); ("provisioning_url", jstr provisioning_url)]).

Definition apply_node_revision (job : Job) : result V job_error :=
  let? revision := payload_u64 job "revision" in
  let? input_path := fetch_revision revision in
  let? output := vpn_admin ["apply-revision"; "--revision"; u64_to_string revision; "--input"; input_path] in
  let? _ := require_success output in
  Ok (jobj [("revision", jint revision)]).

Definition run_job_once (job : Job) : result V job_error :=
  let ty t := String.eqb (job_type job) t in
  if ty "CREATE_USER" then create_user job
  else if ty "SET_EXPIRY" then set_expiry job
  else if ty "CLEAR_EXPIRY" then clear_expiry job
  else if ty "ENABLE_USER" then enable_or_disable "enable" job
  else if ty "DISABLE_USER" then enable_or_disable "disable" job
  else if ty "ROTATE_SUBSCRIPTION_TOKEN" then rotate_token job
  else if ty "ROTATE_CREDENTIALS" then rotate_credentials job
  else if ty "APPLY_NODE_REVISION" then apply_node_revision job
  else Err (UnknownJobType (job_type job)).
End Attempt.

(** ** Retries *)

Definition MAX_ATTEMPTS : nat := 3.

(** What the outside world answers to the attempts of one job. *)
Record Attempts := {
  vpn_admin : nat -> list string -> result Output job_error;
  fetch_revision : nat -> Z -> result string job_error }.

(** Attempts [attempt .. MAX_ATTEMPTS]: the result and the attempts made. *)
Fixpoint run_from (a : Attempts) (job : Job) (left attempt : nat) : result V job_error * nat :=
  match run_job_once (vpn_admin a attempt) (fetch_revision a attempt) job with
  | Ok v => (Ok v, attempt)
  | Err e => match left with
             | O => (Err e, attempt)
             | S left' => run_from a job left' (S attempt)
             end
  end.

Definition run_job (a : Attempts) (job : Job) : result V job_error * nat :=
  run_from a job (MAX_ATTEMPTS - 1) 1.

(** ** The pipeline *)

(** The [Display] text of an error. *)
Context (error_text : job_error -> string).

(** Durable state of the pipeline and, for the proofs, the ids of the jobs
    whose run succeeded, latest first. *)
Record PState := {
  log : list (OpDedup.Entry V);
  queue : list (ReportQueue.Entry V);
  succeeded : list Z }.

(** One delivery: [log_readable]/[log_writable] and [queue_writable] are the
    file operations, [now] the clock at each point that reads it. *)
Record PEnv := {
  attempts : Attempts;
  log_readable : bool;
  log_writable : bool;
  queue_writable : bool;
  now_claim : Z;
  now_record : Z;
  now_prune : Z;
  now_report : Z }.

Definition lease_is_live (job : Job) (now : Z) : result bool job_error :=
  let? d := ok_or (parse3339 (lease_expires_at job)) LeaseUnparsable in
  Ok (now <? d).

Definition enqueue_report (env : PEnv) (s : PState) (e : ReportQueue.Entry V) : PState :=
  if queue_writable env
  then {| log := log s; queue := ReportQueue.enqueue (queue s) e; succeeded := succeeded s |}
  else s.

Definition apply_job (env : PEnv) (s : PState) (job : Job) : PState * result unit job_error :=
  match (if log_readable env then OpDedup.lookup (log s) (id job) else None) with
  | Some (OpDedup.Complete v) =>
      (enqueue_report env s
         (ReportQueue.enqueue_complete (id job) (claim_token job) (lease_expires_at job) v), Ok tt)
  | Some (OpDedup.Fail _) | None =>
      match fst (run_job (attempts env) job) with
      | Ok v =>
          let s := {| log := if log_readable env && log_writable env
                             then OpDedup.record (log s) (id job) (OpDedup.Complete v)
                                    (now_record env) (now_prune env)
                             else log s;
                      queue := queue s; succeeded := id job :: succeeded s |} in
          match lease_is_live job (now_report env) with
          | Err e => (s, Err e)
          | Ok false => (s, Ok tt)
          | Ok true =>
              (enqueue_report env s
                 (ReportQueue.enqueue_complete (id job) (claim_token job) (lease_expires_at job) v), Ok tt)
          end
      | Err e =>
          (enqueue_report env s
             (ReportQueue.enqueue_fail (id job) (claim_token job) (lease_expires_at job) (error_text e)), Ok tt)
      end
  end.

(** [claimed]: what the claim request returned. *)
Definition poll_once (env : PEnv) (s : PState) (claimed : result (option Job) job_error)
  : PState * result bool job_error :=
  match claimed with
  | Err e => (s, Err e)
  | Ok None => (s, Ok false)
  | Ok (Some job) =>
      match lease_is_live job (now_claim env) with
      | Err e => (s, Err e)
      | Ok false => (s, Ok true)
      | Ok true =>
          let '(s, r) := apply_job env s job in
          match r with Err e => (s, Err e) | Ok _ => (s, Ok true) end
      end
  end.

End Jobs.
Arguments Job : clear implicits.
Arguments PState : clear implicits.
Arguments PEnv : clear implicits.
Arguments Attempts : clear implicits.
Arguments Output : clear implicits.

Section JobTheorems.
Context {V : Type} `{HJ : JsonOps V}.
Context (jis_null : V -> bool) (parse3339 : string -> option Z).
Context (error_text : job_error -> string).

(** The outcome of one attempt. *)
Definition attempt_result (a : Attempts V) (job : Job V) (n : nat) : result V job_error :=
  run_job_once jis_null parse3339 (vpn_admin a n) (fetch_revision a n) job.

Lemma run_from_spec a job left : forall attempt r n,
  run_from jis_null parse3339 a job left attempt = (r, n) ->
  (attempt <= n <= attempt + left)%nat /\ r = attempt_result a job n
  /\ (forall k, (attempt <= k < n)%nat -> is_ok (attempt_result a job k) = false)
  /\ (is_ok r = true \/ n = (attempt + left)%nat).
Proof.
  induction left as [|left IH]; intros attempt r n H; simpl in H; fold (attempt_result a job attempt) in H;
    destruct (attempt_result a job attempt) as [v|e] eqn:E.
  1,3: injection H as <- <-; split; [lia|]; split; [done|]; split; [intros; lia|by left].
  - injection H as <- <-. split; [lia|]. split; [done|]. split; [intros; lia|right; lia].
  - apply IH in H as (H1 & H2 & H3 & H4). split; [lia|]. split; [done|]. split.
    + intros k Hk. destruct (Nat.eq_dec k attempt) as [->|]; [by rewrite E|]. apply H3. lia.
    + destruct H4; [by left|right; lia].
Qed.

(** A job is attempted at least once and at most three times; the result
    is that of the last attempt made, every earlier attempt failed, and the
    job is reported as failed only after the third. *)
Theorem run_job_retries a job :
  let '(r, n) := run_job jis_null parse3339 a job in
  (1 <= n <= MAX_ATTEMPTS)%nat /\ r = attempt_result a job n
  /\ (forall k, (1 <= k < n)%nat -> is_ok (attempt_result a job k) = false)
  /\ (is_ok r = false -> n = MAX_ATTEMPTS).
Proof.
  unfold run_job. destruct (run_from _ _ a job _ 1) as [r n] eqn:E.
  apply run_from_spec in E as (H1 & H2 & H3 & H4). unfold MAX_ATTEMPTS in *.
  split; [lia|]. split; [done|]. split; [done|]. intros Hr. destruct H4 as [H4|H4]; [congruence|lia].
Qed.

(** ** Redelivery *)

Fixpoint deliver_all (ds : list (PEnv V * Job V)) (s : PState V) : PState V :=
  match ds with
  | [] => s
  | (env, job) :: ds' => deliver_all ds' (fst (apply_job jis_null parse3339 error_text env s job))
  end.

(** The clock stays within one retention period from [t0]. *)
Definition in_time (t0 : Z) (env : PEnv V) : Prop :=
  t0 <= now_record env <= now_prune env /\ now_prune env <= t0 + OpDedup.RETENTION_SECS.

(** The deliveries of [i] at which the log could not be read or written. *)
Definition log_fails (env : PEnv V) : bool := negb (log_readable env && log_writable env).
Fixpoint failures (i : Z) (ds : list (PEnv V * Job V)) : nat :=
  match ds with
  | [] => O
  | (env, job) :: ds' => ((if log_fails env && (id job =? i)%Z then 1 else 0) + failures i ds')%nat
  end.

(** A success of [i] is in the log. *)
Definition logged (l : list (OpDedup.Entry V)) (i : Z) : bool :=
  match OpDedup.lookup l i with Some (OpDedup.Complete _) => true | _ => false end.
Definition successes (s : PState V) (i : Z) : nat := count_occ Z.eq_dec (succeeded s) i.

Record pinv (t0 : Z) (n : nat) (f : Z -> nat) (s : PState V) : Prop := {
  pi_len : (length (log s) <= n)%nat;
  pi_time : forall e, In e (log s) ->
    t0 <= OpDedup.recorded_at_unix e <= t0 + OpDedup.RETENTION_SECS;
  pi_count : forall i, (successes s i <= f i + (if logged (log s) i then 1 else 0))%nat }.

Lemma enqueue_report_log env s e :
  log (enqueue_report env s e) = log s /\ succeeded (enqueue_report (V := V) env s e) = succeeded s.
Proof. unfold enqueue_report. by destruct (queue_writable env). Qed.

Lemma pinv_report t0 n f s env e : pinv t0 n f s -> pinv t0 n f (enqueue_report env s e).
Proof.
  intros [H1 H2 H3]. destruct (enqueue_report_log env s e) as [El Es].
  split; unfold successes in *; rewrite ?El, ?Es; auto.
Qed.

Lemma pinv_mono t0 n m f g s : (n <= m)%nat -> (forall i, (f i <= g i)%nat) -> pinv t0 n f s -> pinv t0 m g s.
Proof. intros Hnm Hfg [H1 H2 H3]. split; [lia|done|]. intros i. specialize (H3 i). specialize (Hfg i). lia. Qed.

Lemma successes_cons l q i j ss :
  successes {| log := l; queue := q; succeeded := i :: ss |} j = ((if (i =? j)%Z then 1 else 0) + count_occ Z.eq_dec ss j)%nat.
Proof. unfold successes. simpl. destruct (Z.eq_dec i j) as [->|Hn]; [by rewrite Z.eqb_refl|]. by rewrite (proj2 (Z.eqb_neq _ _) Hn). Qed.

(** Recording a success of a job that had none in the log. *)
Lemma pinv_record t0 n f s env i v q :
  0 <= t0 -> in_time t0 env -> Z.of_nat n < OpDedup.MAX_ENTRIES -> pinv t0 n f s -> logged (log s) i = false ->
  pinv t0 (S n) f {| log := OpDedup.record (log s) i (OpDedup.Complete v) (now_record env) (now_prune env);
                     queue := q; succeeded := i :: succeeded s |}.
Proof.
  intros H0 (Ht1 & Ht2) Hn [H1 H2 H3] Hno.
  rewrite OpDedup.record_roomy; [|lia|lia|lia|intros e He; specialize (H2 e He); lia].
  set (rest := List.filter _ (log s)). assert (Hlen : (length rest <= length (log s))%nat)
    by apply List.filter_length_le.
  split; cbn [log].
  - rewrite length_app. simpl. lia.
  - intros e He. apply in_app_iff in He as [He|[<-|[]]]; [|simpl; lia].
    apply In_filterb in He as [He _]. auto.
  - intros j. rewrite successes_cons. specialize (H3 j). unfold successes in H3. destruct (i =? j) eqn:Ej.
    + apply Z.eqb_eq in Ej as <-. rewrite Hno in H3.
      assert (logged (rest ++ [{| OpDedup.job_id := i; OpDedup.recorded_at_unix := now_record env; OpDedup.outcome := OpDedup.Complete v |}]) i = true) as ->; [|lia].
      unfold logged. rewrite OpDedup.lookup_app. unfold rest. rewrite OpDedup.lookup_filter_same.
      unfold OpDedup.lookup. simpl. by rewrite Z.eqb_refl.
    + apply Z.eqb_neq in Ej. unfold logged in *. rewrite OpDedup.lookup_app. unfold rest.
      rewrite OpDedup.lookup_filter_other by congruence. destruct (OpDedup.lookup (log s) j) as [[w|m]|]; [lia..|].
      destruct (match OpDedup.lookup _ j with Some (OpDedup.Complete _) => true | _ => false end); lia.
Qed.

Definition failed_at (env : PEnv V) (job : Job V) (i : Z) : nat := if log_fails env && (id job =? i) then 1 else 0.

Lemma apply_job_inv t0 n f s env job :
  0 <= t0 -> in_time t0 env -> Z.of_nat n < OpDedup.MAX_ENTRIES -> pinv t0 n f s ->
  pinv t0 (S n) (fun i => f i + failed_at env job i)%nat (fst (apply_job jis_null parse3339 error_text env s job)).
Proof.
  intros H0 He Hn Hp. set (g := fun i => (f i + failed_at env job i)%nat).
  assert (Hg : forall i, (f i <= g i)%nat) by (intros i; unfold g; lia).
  assert (Hsame : pinv t0 (S n) g s) by (eapply pinv_mono; [|exact Hg|exact Hp]; lia).
  assert (Hok : forall v, (log_readable env = true -> logged (log s) (id job) = false) ->
    pinv t0 (S n) g {| log := if log_readable env && log_writable env
                              then OpDedup.record (log s) (id job) (OpDedup.Complete v) (now_record env) (now_prune env) else log s;
                       queue := queue s; succeeded := id job :: succeeded s |}).
  { intros v Hno. destruct (log_readable env && log_writable env) eqn:Erw.
    - apply andb_true_iff in Erw as [Hrd _]. eapply pinv_mono; [|exact Hg|by apply pinv_record; [..|apply Hno]]. lia.
    - destruct Hp as [H1 H2 H3]. split; cbn [log]; [lia|done|]. intros j. rewrite successes_cons. specialize (H3 j).
      unfold successes, g, failed_at, log_fails in *. rewrite Erw. simpl negb. cbn [andb]. lia. }
  unfold apply_job.
  destruct (if log_readable env then OpDedup.lookup (log s) (id job) else None) as [[v|m]|] eqn:El; [cbn [fst]; by apply pinv_report| |].
  all: assert (Hno : log_readable env = true -> logged (log s) (id job) = false) by (intros Hrd; rewrite Hrd in El; unfold logged; by rewrite El).
  all: destruct (fst (run_job _ _ (attempts env) job)) as [v|e]; [|cbn [fst]; by apply pinv_report].
  all: specialize (Hok v Hno); destruct (lease_is_live _ _ _) as [[]|]; cbn [fst]; [by apply pinv_report|done|done].
Qed.

Lemma deliver_all_inv t0 ds : forall n f s, 0 <= t0 -> pinv t0 n f s -> (forall env job, In (env, job) ds -> in_time t0 env) ->
  Z.of_nat (n + length ds) <= OpDedup.MAX_ENTRIES ->
  pinv t0 (n + length ds) (fun i => f i + failures i ds)%nat (deliver_all ds s).
Proof.
  induction ds as [|[env job] ds IH]; intros n f s H0 Hp Hh Hl; simpl.
  - eapply pinv_mono; [| |exact Hp]; [lia|]. intros i. lia.
  - simpl in Hl. eapply pinv_mono; [| |apply IH; [done|apply apply_job_inv; [done|apply (Hh env job); by left| |exact Hp]|intros e j Hin; apply (Hh e j); by right|]]; [lia| |lia|lia].
    intros i. simpl. unfold failed_at. lia.
Qed.

(** C20: redelivery runs a job once.  Over any sequence of up to 4096 job
    deliveries within one retention period, however often and in whatever
    order jobs are redelivered, a job id succeeds at most once more often than
    the dedup log could not be read or written while that id was delivered; in
    particular at most once with a working log.  After a success of an id whose
    deliveries all had a working log, a redelivery that can read the log only
    replays the recorded result. *)
Theorem redelivery_runs_once t0 ds :
  0 <= t0 -> (forall env job, In (env, job) ds -> in_time t0 env) ->
  Z.of_nat (length ds) <= OpDedup.MAX_ENTRIES ->
  let s := deliver_all ds {| log := []; queue := []; succeeded := [] |} in
  (forall i, (successes s i <= 1 + failures i ds)%nat)
  /\ (forall env job, In (id job) (succeeded s) -> failures (id job) ds = O -> log_readable env = true ->
       exists v, apply_job jis_null parse3339 error_text env s job =
         (enqueue_report env s (ReportQueue.enqueue_complete (id job) (claim_token job)
                                  (lease_expires_at job) v), Ok tt)).
Proof.
  intros H0 Hh Hl. cbv zeta. set (s := deliver_all _ _).
  assert (Hp : pinv t0 (0 + length ds) (fun i => 0 + failures i ds)%nat s).
  { apply deliver_all_inv; [done| |done|done]. split; simpl; [lia|intros ? []|intros i; unfold successes; simpl; lia]. }
  destruct Hp as [_ _ Hc]. split; [intros i; specialize (Hc i); case_match; lia|].
  intros env job Hin Hf Hrd. specialize (Hc (id job)). rewrite Hf in Hc. apply (count_occ_In Z.eq_dec) in Hin.
  unfold successes in Hc. unfold apply_job. rewrite Hrd. unfold logged in Hc.
  destruct (OpDedup.lookup (log s) (id job)) as [[v|m]|]; [by exists v|lia..].
Qed.

End JobTheorems.

(** ** Witnesses *)

Definition ex_attempts : Attempts json :=
  {| vpn_admin := fun n args => if (n =? 1)%nat then Err SpawnFailed
                                else Ok {| success := true; stdout_json := None |};
     fetch_revision := fun _ _ => Err FetchFailed |}.
Definition ex_job : Job json :=
  {| id := 5; job_type := "DISABLE_USER"; payload := JObj [("vpn_user_id", JStr "user_1")];
     claim_token := "t"; lease_expires_at := "l" |}.
Definition ex_penv : PEnv json :=
  {| attempts := ex_attempts; log_readable := true; log_writable := true; queue_writable := true;
     now_claim := 100; now_record := 100; now_prune := 100; now_report := 100 |}.

Definition ex_unreadable : PEnv json :=
  {| attempts := ex_attempts; log_readable := false; log_writable := true; queue_writable := true;
     now_claim := 100; now_record := 100; now_prune := 100; now_report := 100 |}.
Definition ex_deliver (ds : list (PEnv json * Job json)) : PState json :=
  deliver_all (fun _ => false) (fun _ => Some 200) (fun _ => "e") ds {| log := []; queue := []; succeeded := [] |}.

(** Three deliveries, at the first of which the log cannot be read: the job runs
    at the first and the second. *)
Lemma redelivery_runs_once_witness :
  let ds := [(ex_unreadable, ex_job); (ex_penv, ex_job); (ex_penv, ex_job)] in
  (forall i, (successes (ex_deliver ds) i <= 1 + failures i ds)%nat) /\ succeeded (ex_deliver ds) = [5; 5] /\ failures 5 ds = 1%nat.
Proof.
  intros ds. split; [|vm_compute; auto].
  refine (proj1 (redelivery_runs_once _ _ _ 100 ds _ _ _)).
  - lia.
  - intros env job [[= <- <-]|[[= <- <-]|[[= <- <-]|[]]]]; vm_compute; repeat split; congruence.
  - vm_compute. discriminate.
Defined.

End Jobs.
