(* ===== verification/ProtocolProbe.v ===== *)
(** * apps/provisioning-agent/src/protocol_probe.rs

    The protocol prober: parsing a peer's share links, pinning their
    destinations with the guard of ssrf_guard.rs, the measurement of one
    endpoint, failure streaks and the loop of rounds.  The URL parser of the
    url crate, name resolution, the probe traffic, [openssl] and the answers
    of vpn-admin and of the control plane are inputs. *)

From S2P Require Import Prelude Strs Net NetText AddressPolicy Json Credentials Grants Contract Render AdminUsers.
From Stdlib Require Import Ascii.

Module ProtocolProbe.
Import SsrfGuard.

Definition SAMPLES : nat := 3.

Inductive Protocol := PReality | PHy2.
#[export] Instance Protocol_eq : EqDecision Protocol.
Proof. solve_decision. Defined.

Inductive Endpoint :=
| EReality (host : string) (port : Z) (uuid : string) (flow : option string) (sni fingerprint public_key short_id : string)
| EHysteria2 (host : string) (port : Z) (password sni : string) (obfs : option (string * string)).

Definition protocol (ep : Endpoint) : Protocol := match ep with EReality _ _ _ _ _ _ _ _ => PReality | EHysteria2 _ _ _ _ _ => PHy2 end.
Definition with_host (ep : Endpoint) (new_host : string) : Endpoint :=
  match ep with
  | EReality _ port uuid flow sni fp pbk sid => EReality new_host port uuid flow sni fp pbk sid
  | EHysteria2 _ port password sni obfs => EHysteria2 new_host port password sni obfs
  end.
Definition host_port (ep : Endpoint) : string * Z :=
  match ep with EReality host port _ _ _ _ _ _ | EHysteria2 host port _ _ _ => (host, port) end.

(** ** Share links *)

(** [u8::from_str_radix(_, 16)] on two bytes: a sign is allowed. *)
Definition radix16_digit (c : ascii) : option Z :=
  let b := byte_val c in
  if is_ascii_digit c then Some (b - 48)
  else if in_range 65 70 c then Some (b - 55) else if in_range 97 102 c then Some (b - 87) else None.
Definition from_str_radix16 (x y : ascii) : option Z :=
  match radix16_digit y with
  | None => None
  | Some lo => if is_char "+" x then Some lo else match radix16_digit x with Some hi => Some (hi * 16 + lo) | None => None end
  end.
Fixpoint percent_decode_bytes (s : string) : list Z :=
  match s with
  | EmptyString => []
  | String c s' =>
      match s' with
      | String x (String y s'') =>
          match (if is_char "%" c then from_str_radix16 x y else None) with
          | Some b => b :: percent_decode_bytes s''
          | None => byte_val c :: percent_decode_bytes s'
          end
      | _ => byte_val c :: percent_decode_bytes s'
      end
  end.

(** [String::from_utf8_lossy]: how many bytes the next character or broken
    sequence takes, and whether it is a character. *)
Definition cont (lo hi b : Z) : bool := (lo <=? b) && (b <=? hi).
Definition second_range (b : Z) : Z * Z :=
  if b =? 224 then (160, 191) else if b =? 237 then (128, 159) else if b =? 240 then (144, 191) else if b =? 244 then (128, 143) else (128, 191).
Definition utf8_step (l : list Z) : nat * bool :=
  match l with
  | [] => (0%nat, true)
  | b :: rest =>
      if b <? 128 then (1%nat, true) else
      let width := if cont 194 223 b then 2%nat else if cont 224 239 b then 3%nat else if cont 240 244 b then 4%nat else 1%nat in
      let '(lo, hi) := second_range b in
      match width, rest with
      | 2%nat, x :: _ => if cont 128 191 x then (2%nat, true) else (1%nat, false)
      | 3%nat, x :: rest => if cont lo hi x then match rest with y :: _ => if cont 128 191 y then (3%nat, true) else (2%nat, false) | [] => (2%nat, false) end
                            else (1%nat, false)
      | 4%nat, x :: rest =>
          if cont lo hi x then
            match rest with
            | y :: rest => if cont 128 191 y then match rest with z :: _ => if cont 128 191 z then (4%nat, true) else (3%nat, false) | [] => (3%nat, false) end
                           else (2%nat, false)
            | [] => (2%nat, false)
            end
          else (1%nat, false)
      | _, _ => (1%nat, false)
      end
  end.
Definition text_of_bytes (l : list Z) : string := String.string_of_list_ascii (map (fun b => ascii_of_N (Z.to_N b)) l).
Fixpoint from_utf8_lossy (fuel : nat) (l : list Z) : string :=
  match fuel, l with
  | S fuel, _ :: _ =>
      let '(n, good) := utf8_step l in
      text_of_bytes (if good then firstn n l else [239; 191; 189]) +:+ from_utf8_lossy fuel (skipn n l)
  | _, _ => EmptyString
  end.
Definition percent_decode (s : string) : string := let bytes := percent_decode_bytes s in from_utf8_lossy (length bytes) bytes.

(** What the url crate says of a link. *)
Record Url := { u_scheme : string; u_username : string; u_host : option string; u_port : option Z; u_query : list (string * string) }.
Inductive parse_error := Unparseable | NoHost | NotReality | NoPublicKey | UnsupportedScheme.

(** [trim_start_matches('['), trim_end_matches(']')]. *)
Fixpoint trim_open (s : string) : string := match s with String c s' => if is_char "[" c then trim_open s' else s | EmptyString => s end.
Fixpoint trim_close (s : string) : string :=
  match s with
  | String c s' => match trim_close s' with EmptyString => if is_char "]" c then EmptyString else String c EmptyString | t => String c t end
  | EmptyString => EmptyString
  end.
(** The [HashMap] collected from the pairs: the last value of a key. *)
Definition param (k : string) (q : list (string * string)) : option string := assoc k (rev q).

Section Parse.
Context (url_parse : string -> option Url).

Definition Endpoint_parse (uri : string) : result Endpoint parse_error :=
  let? url := ok_or (url_parse uri) Unparseable in
  let? host := ok_or (u_host url) NoHost in
  let host := trim_close (trim_open host) in
  let port := Render.unwrap_or (u_port url) 443 in
  let q := u_query url in
  let user := percent_decode (u_username url) in
  if String.eqb (u_scheme url) "vless" then
    if negb (bool_decide (param "security" q = Some "reality")) then Err NotReality else
    let? pbk := ok_or (param "pbk" q) NoPublicKey in
    Ok (EReality host port user (match param "flow" q with Some f => if str_is_empty f then None else Some f | None => None end)
          (Render.unwrap_or (param "sni" q) EmptyString) (Render.unwrap_or (param "fp" q) "chrome") pbk (Render.unwrap_or (param "sid" q) EmptyString))
  else if String.eqb (u_scheme url) "hysteria2" || String.eqb (u_scheme url) "hy2" then
    Ok (EHysteria2 host port user (Render.unwrap_or (param "sni" q) EmptyString)
          (match param "obfs" q, param "obfs-password" q with
           | Some kind, Some pw => if str_is_empty kind then None else Some (kind, pw)
           | _, _ => None
           end))
  else Err UnsupportedScheme.
End Parse.

Section Client.
Context {V : Type} `{JsonOps V, !JsonTree V}.

Definition outbound (ep : Endpoint) (tls_insecure : bool) : V :=
  match ep with
  | EReality host port uuid flow sni fingerprint public_key short_id =>
      let ob := jobj
        [("type", jstr "vless"); ("tag", jstr "probe"); ("server", jstr host); ("server_port", jint port); ("uuid", jstr uuid);
         ("tls", jobj [("enabled", jbool true); ("server_name", jstr sni);
                       ("utls", jobj [("enabled", jbool true); ("fingerprint", jstr fingerprint)]);
                       ("reality", jobj [("enabled", jbool true); ("public_key", jstr public_key); ("short_id", jstr short_id)])])] in
      match flow with Some f => jset ob "flow" (jstr f) | None => ob end
  | EHysteria2 host port password sni obfs =>
      let ob := jobj
        [("type", jstr "hysteria2"); ("tag", jstr "probe"); ("server", jstr host); ("server_port", jint port); ("password", jstr password);
         ("tls", jobj [("enabled", jbool true); ("server_name", jstr sni); ("insecure", jbool tls_insecure)])] in
      match obfs with Some (kind, pw) => jset ob "obfs" (jobj [("type", jstr kind); ("password", jstr pw)]) | None => ob end
  end.
Definition client_config (ep : Endpoint) (port : Z) (tls_insecure : bool) : V :=
  jobj [("log", jobj [("level", jstr "error")]);
        ("inbounds", jarr [jobj [("type", jstr "mixed"); ("tag", jstr "in"); ("listen", jstr "127.0.0.1"); ("listen_port", jint port)]]);
        ("outbounds", jarr [outbound ep tls_insecure]);
        ("route", jobj [("final", jstr "probe")])].
End Client.

(** ** Targets and results *)

Record ProbeTarget := { pt_node_id : string; pt_expected_ipv4 : option string; pt_reality_uri : option string; pt_hysteria2_uri : option string }.

Record Dimensions := {
  tcp_connect : option bool; handshake : bool; https_ipv4 : bool; dns : bool; ipv6 : string;
  egress_ipv4 : option string; egress_ipv6 : option string; egress_ip_match : option bool }.
Record ProbeResult := {
  target_node_id : string; vantage : string; pr_protocol : Protocol; pr_ok : bool; dims : Dimensions; latency_ms : option Z; loss_pct : Z;
  failure_streak : Z; pr_status : string; reason_code : option string; pr_error : option string }.

Record ProtocolProbeConfig := {
  probe_user_name : string; publish_self : bool; fetch_targets : bool; self_probe : bool; self_probe_host : string;
  has_cert_path : bool; tls_insecure_for_tests : bool; static_targets : list ProbeTarget }.
Definition default_probe_config : ProtocolProbeConfig :=
  {| probe_user_name := AdminUsers.PROBE_USER_NAME; publish_self := true; fetch_targets := true; self_probe := true; self_probe_host := "127.0.0.1";
     has_cert_path := true; tls_insecure_for_tests := false; static_targets := [] |}.

(** *** One endpoint *)

(** What the traffic of one probe gives: the TCP connect, the client's start
    and readiness, the two HTTP clients, the body and time of each trace
    request, the status of the DNS request and the body of the IPv6 one. *)
Record Observed := {
  o_tcp : bool; o_started : bool; o_ready : bool; o_http : bool; o_sample : nat -> option (string * Z); o_dns : option Z; o_v6 : option string }.

Definition trace_ip (body : string) : option string :=
  match option_map trim (find_map (strip_prefix "ip=") (lines body)) with
  | Some s => if negb (str_is_empty s) && (slen s <=? 64) then Some s else None
  | None => None
  end.

(** The three requests: their times, and the first address one of them named. *)
Fixpoint take_samples (l : list (option (string * Z))) (times : list Z) (egress : option string) : list Z * option string :=
  match l with
  | [] => (times, egress)
  | Some (body, ms) :: l => take_samples l (times ++ [ms]) (match egress with Some _ => egress | None => trace_ip body end)
  | None :: l => take_samples l times egress
  end.

Definition no_dimensions (tcp : option bool) : Dimensions :=
  {| tcp_connect := tcp; handshake := false; https_ipv4 := false; dns := false; ipv6 := "unknown"; egress_ipv4 := None; egress_ipv6 := None;
     egress_ip_match := None |}.
Definition failed_result (node vantage : string) (ep : Endpoint) (dims : Dimensions) (why : string) : ProbeResult :=
  {| target_node_id := node; vantage := vantage; pr_protocol := protocol ep; pr_ok := false; dims := dims; latency_ms := None; loss_pct := 100;
     failure_streak := 0; pr_status := "pending"; reason_code := None; pr_error := Some why |}.

Definition probe_endpoint (node vantage : string) (ep : Endpoint) (expected_ipv4 : option string) (o : Observed) : ProbeResult :=
  let reality := bool_decide (protocol ep = PReality) in
  let tcp := if reality then Some (o_tcp o) else None in
  let failed := failed_result node vantage ep (no_dimensions tcp) in
  if reality && negb (o_tcp o) then failed "tcp_unreachable" else
  if negb (o_started o) then failed "client_start_failed" else
  if negb (o_ready o) then failed "client_not_ready" else
  if negb (o_http o) then failed "client_build_failed" else
  let '(latencies, egress) := take_samples (map (o_sample o) (seq 0 SAMPLES)) [] None in
  let https := negb (bool_decide (latencies = [])) in
  let loss := Z.of_nat (SAMPLES - length latencies) * 100 / Z.of_nat SAMPLES in
  let latency := sort_stable Z.leb latencies !! Nat.div (length latencies) 2 in
  let dns_ok := bool_decide (o_dns o = Some 204) in
  let '(v6, egress6) :=
    match o_v6 o with
    | Some body => let ip := trim body in ("egress", if str_any (is_char ":") ip && (slen ip <=? 64) then Some ip else None)
    | None => (if https && dns_ok then "blocked" else "unknown", None)
    end in
  let shake := https || dns_ok || String.eqb v6 "egress" in
  let ok := shake && https in
  {| target_node_id := node; vantage := vantage; pr_protocol := protocol ep; pr_ok := ok;
     dims := {| tcp_connect := tcp; handshake := shake; https_ipv4 := https; dns := dns_ok; ipv6 := v6; egress_ipv4 := egress; egress_ipv6 := egress6;
                egress_ip_match := match expected_ipv4, egress with Some e, Some seen => Some (String.eqb e seen) | _, _ => None end |};
     latency_ms := latency; loss_pct := loss; failure_streak := 0; pr_status := "pending"; reason_code := None;
     pr_error := if ok then None else if negb shake then Some "handshake_failed" else Some "no_ipv4_egress" |}.

(** *** One target *)

Section Target.
Context (url_parse : string -> option Url).
(** The system resolver. *)
Context (to_socket_addrs : string -> Z -> option (list (IpAddr * Z))).
(** The traffic of a probe of an endpoint. *)
Context (observe_endpoint : Endpoint -> Observed).

(** The endpoint that is dialled for a link, if any. *)
Definition pinned (uri : string) (host_override : option string) : option Endpoint :=
  match Endpoint_parse url_parse uri with
  | Err _ => None
  | Ok ep =>
      let ep := match host_override with Some h => with_host ep h | None => ep end in
      let '(host, port) := host_port ep in
      match resolve_and_validate parse_ip to_socket_addrs host port with
      | Ok resolved => Some (with_host ep (show_ip (rt_ip resolved)))
      | Err _ => None
      end
  end.
Definition links_of (t : ProbeTarget) : list string := omap id [pt_reality_uri t; pt_hysteria2_uri t].
Definition probe_target (t : ProbeTarget) (vantage : string) (host_override : option string) : list ProbeResult :=
  let expected := if String.eqb vantage "peer" then pt_expected_ipv4 t else None in
  map (fun ep => probe_endpoint (pt_node_id t) vantage ep expected (observe_endpoint ep)) (omap (fun uri => pinned uri host_override) (links_of t)).
End Target.

(** *** Failure streaks *)

Notation ProbeKey := (string * string * Protocol)%type.
#[export] Instance Protocol_countable : Countable Protocol.
Proof. apply (inj_countable' (fun p => match p with PReality => true | PHy2 => false end) (fun b : bool => if b then PReality else PHy2)). by intros []. Defined.
Notation FailureStreaks := (gmap ProbeKey (Z * Z)).

Definition U32_MAX : Z := 4294967295.
Definition observe (self : FailureStreaks) (round : Z) (key : ProbeKey) (ok : bool) : Z * FailureStreaks :=
  let previous := self !! key in
  let consecutive := match previous with Some (_, seen) => (seen <? 18446744073709551615) && (seen + 1 =? round) | None => false end in
  let streak := if ok then 0
                else if consecutive then match previous with Some (streak, _) => Z.min (streak + 1) U32_MAX | None => 1 end
                else 1 in
  (streak, <[key := (streak, round)]> self).
Definition finish_round (self : FailureStreaks) (round : Z) : FailureStreaks := filter (fun kv => kv.2.2 = round) self.

Definition hysteretic_status (ok : bool) (failure_streak : Z) : string :=
  if ok then "healthy" else if failure_streak <? 2 then "degraded" else "failed".

Definition key_of (r : ProbeResult) : ProbeKey := (target_node_id r, vantage r, pr_protocol r).
Definition scored (r : ProbeResult) (streak : Z) : ProbeResult :=
  {| target_node_id := target_node_id r; vantage := vantage r; pr_protocol := pr_protocol r; pr_ok := pr_ok r; dims := dims r;
     latency_ms := latency_ms r; loss_pct := loss_pct r; failure_streak := streak; pr_status := hysteretic_status (pr_ok r) streak;
     reason_code := pr_error r; pr_error := pr_error r |}.
Fixpoint score (round : Z) (results : list ProbeResult) (self : FailureStreaks) : list ProbeResult * FailureStreaks :=
  match results with
  | [] => ([], self)
  | r :: rest =>
      let '(streak, self) := observe self round (key_of r) (pr_ok r) in
      let '(done, self) := score round rest self in (scored r streak :: done, self)
  end.

(** ** Rounds *)

(** The first target of each node. *)
Fixpoint dedup_seen (seen : list string) (targets : list ProbeTarget) : list ProbeTarget :=
  match targets with
  | [] => []
  | t :: rest => if Contract.mem (pt_node_id t) seen then dedup_seen seen rest else t :: dedup_seen (pt_node_id t :: seen) rest
  end.
Definition deduplicate_targets (targets : list ProbeTarget) : list ProbeTarget := dedup_seen [] targets.

(** [user create-probe --json] and [user links]: the id, then the output. *)
Inductive ensure_error := NotReservedName | CreateFailed | LinksFailed | NoUsableUri.
Fixpoint scan_links (l : list string) (reality hysteria2 : option string) : option string * option string :=
  match l with
  | [] => (reality, hysteria2)
  | line :: l =>
      if starts_with "vless://" line && negb (is_ok (ok_or reality tt)) then scan_links l (Some line) hysteria2
      else if (starts_with "hysteria2://" line || starts_with "hy2://" line) && negb (is_ok (ok_or hysteria2 tt)) then scan_links l reality (Some line)
      else scan_links l reality hysteria2
  end.
Definition ensure_probe_user (node_id : string) (pcfg : ProtocolProbeConfig) (created : option string) (links : string -> option string)
  : result ProbeTarget ensure_error :=
  if negb (String.eqb (probe_user_name pcfg) AdminUsers.PROBE_USER_NAME) then Err NotReservedName else
  let? id := ok_or created CreateFailed in
  let? text := ok_or (links id) LinksFailed in
  let '(reality, hysteria2) := scan_links (map trim (lines text)) None None in
  match reality, hysteria2 with
  | None, None => Err NoUsableUri
  | _, _ => Ok {| pt_node_id := node_id; pt_expected_ipv4 := None; pt_reality_uri := reality; pt_hysteria2_uri := hysteria2 |}
  end.

(** [parse_openssl_date] (time crate) gives [not_after]. *)
Definition days_until (not_after now : Z) : Z := (not_after - now) / 86400.
Definition certificate_status (cert_days : option Z) : string :=
  match cert_days with
  | Some days => if days <? 0 then "expired" else if days <? 14 then "expiring" else "healthy"
  | None => "unknown"
  end.

Record ProbeReport := {
  round : Z; rep_tls_insecure : bool; cert_days_remaining : option Z; rep_certificate_status : string; results : list ProbeResult }.
Definition summary_of (r : ProbeResult) : string :=
  target_node_id r +:+ "/" +:+ vantage r +:+ "/" +:+ (match pr_protocol r with PReality => "Reality" | PHy2 => "Hysteria2" end) +:+ "="
  +:+ (if pr_ok r then "ok" else Render.unwrap_or (pr_error r) "fail").
Definition summarize (report : ProbeReport) : string := join_on " " (map summary_of (results report)).

(** What one round meets: vpn-admin, the control plane, the network, the
    certificate's end. *)
Record World := {
  w_created : option string; w_links : string -> option string; w_published : bool; w_fetched : option (list ProbeTarget);
  w_resolve : string -> Z -> option (list (IpAddr * Z)); w_observe : Endpoint -> Observed;
  w_not_after : option Z; w_now : Z }.
Record LoopState := { ls_streaks : FailureStreaks; ls_own : option ProbeTarget; ls_published : bool; ls_round : Z; ls_slot : option ProbeReport }.
Definition loop_start : LoopState := {| ls_streaks := ∅; ls_own := None; ls_published := false; ls_round := 0; ls_slot := None |}.

Section Loop.
Context (url_parse : string -> option Url) (node_id : string) (pcfg : ProtocolProbeConfig).

Definition peer_targets (w : World) : list ProbeTarget :=
  deduplicate_targets (List.filter (fun t => negb (String.eqb (pt_node_id t) node_id))
    (static_targets pcfg ++ (if fetch_targets pcfg then Render.unwrap_or (w_fetched w) [] else []))).
Definition measured (w : World) (own : option ProbeTarget) : list ProbeResult :=
  let target := probe_target url_parse (w_resolve w) (w_observe w) in
  flat_map (fun t => target t "peer" None) (peer_targets w)
  ++ match own with Some t => if self_probe pcfg then target t "self" (Some (self_probe_host pcfg)) else [] | None => [] end.

Definition probe_round (w : World) (st : LoopState) : ProbeReport * LoopState :=
  let own := match ls_own st with
             | Some t => Some t
             | None => if publish_self pcfg then match ensure_probe_user node_id pcfg (w_created w) (w_links w) with Ok t => Some t | Err _ => None end else None
             end in
  let published := if ls_round st mod 30 =? 0 then false else ls_published st in
  let published := match published, own with false, Some _ => w_published w | _, _ => published end in
  let '(res, streaks) := score (ls_round st) (measured w own) (ls_streaks st) in
  let cert := if has_cert_path pcfg then option_map (fun t => days_until t (w_now w)) (w_not_after w) else None in
  let report := {| round := ls_round st + 1; rep_tls_insecure := tls_insecure_for_tests pcfg; cert_days_remaining := cert;
                   rep_certificate_status := certificate_status cert; results := res |} in
  (report, {| ls_streaks := finish_round streaks (ls_round st); ls_own := own; ls_published := published; ls_round := ls_round st + 1;
              ls_slot := Some report |}).
Fixpoint run_loop (ws : list World) (st : LoopState) : list ProbeReport * LoopState :=
  match ws with
  | [] => ([], st)
  | w :: ws => let '(rep, st) := probe_round w st in let '(reps, st) := run_loop ws st in (rep :: reps, st)
  end.
End Loop.

(** A report is attached to one heartbeat. *)
Definition take_report (st : LoopState) : option ProbeReport * LoopState :=
  (ls_slot st, {| ls_streaks := ls_streaks st; ls_own := ls_own st; ls_published := ls_published st; ls_round := ls_round st; ls_slot := None |}).

(** ** Lemmas: streaks *)

Definition outcome_of (k : ProbeKey) (l : list ProbeResult) : option bool :=
  option_map pr_ok (List.find (fun r => bool_decide (key_of r = k)) l).
(** The rounds, latest first, up to which the endpoint has failed without a
    break. *)
Fixpoint consecutive_failures (k : ProbeKey) (past : list (list ProbeResult)) : Z :=
  match past with
  | [] => 0
  | l :: past => match outcome_of k l with Some false => 1 + consecutive_failures k past | _ => 0 end
  end.
Definition streak_after (past : list (list ProbeResult)) (r : ProbeResult) : Z :=
  if pr_ok r then 0 else Z.min (1 + consecutive_failures (key_of r) past) U32_MAX.
(** What the table holds for a key before the round after [past]. *)
Definition entry_after (past : list (list ProbeResult)) (k : ProbeKey) : option (Z * Z) :=
  match past with
  | [] => None
  | l :: _ => match outcome_of k l with Some _ => Some (Z.min (consecutive_failures k past) U32_MAX, Z.of_nat (length past) - 1) | None => None end
  end.

Lemma consecutive_nonneg k past : 0 <= consecutive_failures k past.
Proof. induction past as [|l past IH]; simpl; [lia|]. destruct (outcome_of k l) as [[]|]; lia. Qed.

Lemma observe_spec self past k ok : self !! k = entry_after past k -> Z.of_nat (length past) < 2 ^ 64 ->
  observe self (Z.of_nat (length past)) k ok =
    let streak := if ok then 0 else Z.min (1 + consecutive_failures k past) U32_MAX in (streak, <[k := (streak, Z.of_nat (length past))]> self).
Proof.
  intros He Hb. change (2 ^ 64) with 18446744073709551616 in Hb. unfold observe. rewrite He. destruct ok; [done|]. unfold entry_after. destruct past as [|l past]; [done|]. cbn [consecutive_failures].
  destruct (outcome_of k l) as [[]|] eqn:Eo; [| |done].
  - rewrite (proj2 (Z.ltb_lt _ _)), (proj2 (Z.eqb_eq _ _)) by (cbn [length] in *; lia). done.
  - rewrite (proj2 (Z.ltb_lt _ _)), (proj2 (Z.eqb_eq _ _)) by (cbn [length] in *; lia). cbn [andb].
    pose proof (consecutive_nonneg k past). assert (Hm : Z.min (Z.min (1 + consecutive_failures k past) U32_MAX + 1) U32_MAX = Z.min (1 + (1 + consecutive_failures k past)) U32_MAX)
      by (unfold U32_MAX; lia). cbv zeta. by rewrite Hm.
Qed.

Lemma outcome_cons k r l : outcome_of k (r :: l) = if bool_decide (key_of r = k) then Some (pr_ok r) else outcome_of k l.
Proof. unfold outcome_of. cbn [List.find]. by case_bool_decide. Qed.
Lemma outcome_absent k l : ~ In k (map key_of l) -> outcome_of k l = None.
Proof.
  induction l as [|r l IH]; intros Hn; [done|]. rewrite outcome_cons, bool_decide_eq_false_2; [apply IH|]; intros H; apply Hn; [by right|by left].
Qed.
Lemma outcome_in k l : In k (map key_of l) -> exists b, outcome_of k l = Some b.
Proof.
  induction l as [|r l IH]; [done|]. rewrite outcome_cons. intros [<- |Hin]; [rewrite bool_decide_eq_true_2 by done; eauto|]. case_bool_decide; eauto.
Qed.
Lemma outcome_of_In r l : List.NoDup (map key_of l) -> In r l -> outcome_of (key_of r) l = Some (pr_ok r).
Proof.
  induction l as [|x l IH]; intros Hn; [done|]. apply List.NoDup_cons_iff in Hn as [Hx Hn]. rewrite outcome_cons. intros [-> |Hin].
  - by rewrite bool_decide_eq_true_2.
  - rewrite bool_decide_eq_false_2; [by apply IH|]. intros E. apply Hx. rewrite E. by apply in_map.
Qed.
Lemma outcome_scored k f l : outcome_of k (map (fun r => scored r (f r)) l) = outcome_of k l.
Proof. induction l as [|r l IH]; [done|]. cbn [map]. rewrite !outcome_cons, IH. done. Qed.
Lemma keys_scored f l : map key_of (map (fun r => scored r (f r)) l) = map key_of l.
Proof. rewrite map_map. by apply map_ext. Qed.

Lemma score_spec past rs self : List.NoDup (map key_of rs) -> Z.of_nat (length past) < 2 ^ 64 ->
  (forall k, In k (map key_of rs) -> self !! k = entry_after past k) ->
  exists self', score (Z.of_nat (length past)) rs self = (map (fun r => scored r (streak_after past r)) rs, self') /\
    forall k, self' !! k = match outcome_of k rs with
                           | Some ok => Some (if ok then 0 else Z.min (1 + consecutive_failures k past) U32_MAX, Z.of_nat (length past))
                           | None => self !! k
                           end.
Proof.
  revert self. induction rs as [|r rs IH]; intros self Hn Hb He; [by eexists|].
  cbn [map] in Hn. apply List.NoDup_cons_iff in Hn as [Hr Hn]. cbn [score].
  rewrite (observe_spec _ past) by (try done; apply He; by left). cbv zeta.
  destruct (IH (<[key_of r := (if pr_ok r then 0 else Z.min (1 + consecutive_failures (key_of r) past) U32_MAX, Z.of_nat (length past))]> self) Hn Hb) as (self' & -> & Hs).
  { intros k Hk. rewrite lookup_insert_ne by (intros <-; done). apply He. by right. }
  eexists. split; [reflexivity|]. intros k. rewrite Hs, outcome_cons. case_bool_decide as Hk.
  - subst k. rewrite outcome_absent by done. by rewrite lookup_insert_eq.
  - destruct (outcome_of k rs); [done|]. by rewrite lookup_insert_ne.
Qed.

(** ** Rounds *)

Section LoopLemmas.
Context (url_parse : string -> option Url) (node_id : string) (pcfg : ProtocolProbeConfig).
Local Notation round := (probe_round url_parse node_id pcfg).
Local Notation run := (run_loop url_parse node_id pcfg).
Local Notation measure := (measured url_parse node_id pcfg).

Definition remembers (past : list (list ProbeResult)) (st : LoopState) : Prop :=
  ls_round st = Z.of_nat (length past) /\ forall k, ls_streaks st !! k = entry_after past k.

Lemma round_spec past w st rep st' : remembers past st -> round w st = (rep, st') -> List.NoDup (map key_of (results rep)) ->
  Z.of_nat (length past) < 2 ^ 64 ->
  exists raw own, raw = measure w own /\ results rep = map (fun r => scored r (streak_after past r)) raw /\ remembers (results rep :: past) st'.
Proof.
  intros [Hr He] E Hn Hb. unfold probe_round in E. set (own := match ls_own st with Some t => Some t | None => _ end) in E. rewrite Hr in E.
  assert (Hkeys : map key_of (results rep) = map key_of (measure w own)).
  { destruct (score _ _ _) as [res str] eqn:Es in E. injection E as <- <-. cbn [results]. clear - Es. revert res str Es. generalize (ls_streaks st).
    induction (measure w own) as [|r l IH]; intros s0 res str; cbn [score]; [by intros [= <- <-]|].
    destruct (observe _ _ _ _) as [x s1]. destruct (score _ l s1) as [res' s2] eqn:E2. intros [= <- <-]. cbn [map]. f_equal. by eapply IH. }
  rewrite Hkeys in Hn. destruct (score_spec past (measure w own) (ls_streaks st) Hn Hb) as (self' & Es & Hs); [intros k _; apply He|].
  rewrite Es in E. injection E as <- <-. exists (measure w own), own. split; [done|]. split; [done|]. cbn [results]. split; [cbn [ls_round length]; lia|].
  intros k. cbn [ls_streaks]. unfold finish_round. apply option_eq. intros [a seen]. rewrite map_lookup_filter_Some. cbn [snd]. rewrite Hs.
  cbn [entry_after consecutive_failures length]. rewrite outcome_scored.
  replace (Z.of_nat (S (length past)) - 1) with (Z.of_nat (length past)) by lia.
  destruct (outcome_of k (measure w own)) as [[]|]; [by naive_solver|by naive_solver|].
  rewrite He. split; [|done]. intros [Hk ->]. exfalso. unfold entry_after in Hk. destruct past as [|l past]; [done|].
  destruct (outcome_of k l); [|done]. injection Hk as _ Hk. cbn [length] in Hk. lia.
Qed.

Lemma probe_run_spec past ws st reps st' : remembers past st -> run ws st = (reps, st') -> Forall (fun rep => List.NoDup (map key_of (results rep))) reps ->
  Z.of_nat (length past) + Z.of_nat (length ws) <= 2 ^ 64 ->
  forall n rep, nth_error reps n = Some rep ->
    exists raw, results rep = map (fun r => scored r (streak_after (map results (rev (firstn n reps)) ++ past) r)) raw.
Proof.
  revert past st reps st'. induction ws as [|w ws IH]; intros past st reps st' Hm E Hn Hb n rep Hrep; cbn [run_loop] in E.
  - injection E as <- <-. by destruct n.
  - destruct (round w st) as [rep0 st1] eqn:E1. destruct (run ws st1) as [reps0 st2] eqn:E2. injection E as <- <-. apply Forall_cons in Hn as [Hn0 Hn].
    cbn [length] in Hb. destruct (round_spec _ _ _ _ _ Hm E1 Hn0 ltac:(lia)) as (raw & own & _ & Hres & Hm').
    destruct n as [|n]; [injection Hrep as <-; by exists raw|]. cbn [nth_error] in Hrep.
    destruct (IH (results rep0 :: past) _ _ _ Hm' E2 Hn ltac:(cbn [length]; lia) n rep Hrep) as [raw' Hr]. exists raw'. rewrite Hr. cbn [firstn rev].
    rewrite map_app, <- app_assoc. done.
Qed.

(** C34: The reported health is hysteretic exactly as documented.  In every
    round of every run of the prober, whatever targets come and go and
    whatever the network does, the streak of a result is the number of rounds
    in a row, this one included, in which the same endpoint was probed and
    failed (saturating at the width of the counter); and its status is
    "healthy" when the probe succeeded, "failed" when it failed and had failed
    in the round just before, and "degraded" otherwise, so that an absence or
    one success always starts over. *)
Theorem probe_status_hysteretic ws reps st' n rep r : run ws loop_start = (reps, st') ->
  Forall (fun rep => List.NoDup (map key_of (results rep))) reps -> Z.of_nat (length ws) <= 2 ^ 64 ->
  nth_error reps n = Some rep -> In r (results rep) ->
  let past := map results (rev (firstn n reps)) in
  failure_streak r = (if pr_ok r then 0 else Z.min (1 + consecutive_failures (key_of r) past) U32_MAX) /\
  pr_status r = (if pr_ok r then "healthy" else if bool_decide (outcome_of (key_of r) (hd [] past) = Some false) then "failed" else "degraded").
Proof.
  intros E Hn Hb Hrep Hr past.
  destruct (probe_run_spec [] ws loop_start reps st' ltac:(split; [done|intros k; apply lookup_empty]) E Hn ltac:(simpl; lia) n rep Hrep) as [raw Hres].
  rewrite app_nil_r in Hres. fold past in Hres. rewrite Hres in Hr. apply in_map_iff in Hr as (x & <- & _). cbn [failure_streak pr_status pr_ok scored].
  change (key_of (scored x (streak_after past x))) with (key_of x). unfold streak_after. destruct (pr_ok x); [done|]. split; [done|]. unfold hysteretic_status.
  pose proof (consecutive_nonneg (key_of x) (tl past)) as Hnn. destruct past as [|l q]; [done|]. cbn [hd tl consecutive_failures] in *.
  destruct (outcome_of (key_of x) l) as [[]|]; [done| |done].
  rewrite bool_decide_eq_true_2 by done. rewrite (proj2 (Z.ltb_ge _ _)) by (unfold U32_MAX; lia). done.
Qed.

(** *** Which endpoints are dialled *)

Lemma probe_endpoint_key n v ep e o : key_of (probe_endpoint n v ep e o) = (n, v, protocol ep).
Proof.
  unfold probe_endpoint, failed_result. cbv zeta. repeat (case_match; [reflexivity|]).
  destruct (take_samples _ _ _). destruct (match o_v6 o with Some _ => _ | None => _ end). reflexivity.
Qed.
Lemma with_host_spec ep h : host_port (with_host ep h) = (h, snd (host_port ep)) /\ protocol (with_host ep h) = protocol ep.
Proof. by destruct ep. Qed.

(** The links of a target have the scheme of their field. *)
Definition typed (t : ProbeTarget) : Prop :=
  (forall u ep, pt_reality_uri t = Some u -> Endpoint_parse url_parse u = Ok ep -> protocol ep = PReality) /\
  (forall u ep, pt_hysteria2_uri t = Some u -> Endpoint_parse url_parse u = Ok ep -> protocol ep = PHy2).

Lemma pinned_spec resolve uri o ep : pinned url_parse resolve uri o = Some ep ->
  exists ep0 ip, Endpoint_parse url_parse uri = Ok ep0 /\ classify_denied ip = None /\ ep = with_host ep0 (show_ip ip) /\
    exists t, resolve_and_validate parse_ip resolve (match o with Some h => h | None => fst (host_port ep0) end) (snd (host_port ep0)) = Ok t /\ rt_ip t = ip.
Proof.
  unfold pinned. destruct (Endpoint_parse url_parse uri) as [ep0|]; [|done].
  assert (Hh : host_port (match o with Some h => with_host ep0 h | None => ep0 end) =
    (match o with Some h => h | None => fst (host_port ep0) end, snd (host_port ep0))) by (destruct o; by destruct ep0).
  rewrite Hh. destruct (resolve_and_validate _ _ _ _) as [tg|] eqn:Er; [|done]. intros [= <-]. exists ep0, (rt_ip tg). split; [done|].
  split; [|split; [by destruct o, ep0|eauto]].
  by apply resolve_and_validate_pins_permitted in Er as (_ & _ & ? & _).
Qed.

Lemma probe_target_keys resolve ob t v o :
  map key_of (probe_target url_parse resolve ob t v o) = map (fun ep => (pt_node_id t, v, protocol ep)) (omap (fun u => pinned url_parse resolve u o) (links_of t)).
Proof. unfold probe_target. rewrite map_map. apply map_ext. intros ep. apply probe_endpoint_key. Qed.
Lemma target_keys_distinct resolve ob t v o : typed t -> List.NoDup (map key_of (probe_target url_parse resolve ob t v o)).
Proof.
  intros [H1 H2]. rewrite probe_target_keys. unfold links_of.
  destruct (pt_reality_uri t) as [u1|], (pt_hysteria2_uri t) as [u2|]; simpl; repeat case_match; simpl; repeat constructor; simpl; auto.
  intros [E|[]]. injection E as E.
  match goal with Ha : pinned _ _ u1 _ = Some _, Hb : pinned _ _ u2 _ = Some _ |- _ =>
    apply pinned_spec in Ha as (a & ? & Ha & _ & -> & _); apply pinned_spec in Hb as (b & ? & Hb & _ & -> & _);
    pose proof (H1 u1 a eq_refl Ha) as P1; pose proof (H2 u2 b eq_refl Hb) as P2 end.
  rewrite !(proj2 (with_host_spec _ _)) in E. congruence.
Qed.
Lemma dedup_seen_spec seen l : List.NoDup (map pt_node_id (dedup_seen seen l)) /\ forall t, In t (dedup_seen seen l) -> In t l /\ ~ In (pt_node_id t) seen.
Proof.
  revert seen. induction l as [|t l IH]; intros seen; cbn [dedup_seen]; [split; [constructor|done]|].
  destruct (Contract.mem (pt_node_id t) seen) eqn:Em.
  - destruct (IH seen) as [Hn Hin]. split; [done|]. intros x Hx. apply Hin in Hx as [? ?]. split; [by right|done].
  - destruct (IH (pt_node_id t :: seen)) as [Hn Hin]. split.
    + cbn [map]. constructor; [|done]. intros Hx. apply in_map_iff in Hx as (x & Hx & Hi). apply Hin in Hi as [_ Hi]. apply Hi. by left.
    + intros x [<- |Hx]; [|apply Hin in Hx as [? Hs]; split; [by right|]; intros ?; apply Hs; by right].
      split; [by left|]. intros Hs. apply Contract.mem_In in Hs. congruence.
Qed.

Lemma measured_keys_distinct w own : (forall t, In t (peer_targets node_id pcfg w) \/ own = Some t -> typed t) -> List.NoDup (map key_of (measure w own)).
Proof.
  intros Ht. unfold measured. rewrite map_app.
  assert (Hv : forall t v o k, In k (map key_of (probe_target url_parse (w_resolve w) (w_observe w) t v o)) -> fst k = (pt_node_id t, v)).
  { intros t v o k. rewrite probe_target_keys. intros Hk. by apply in_map_iff in Hk as (ep & <- & _). }
  apply List.NoDup_app.
  - assert (Hd : List.NoDup (map pt_node_id (peer_targets node_id pcfg w))) by apply dedup_seen_spec.
    assert (Hty : forall t, In t (peer_targets node_id pcfg w) -> typed t) by auto. clear Ht. revert Hd Hty.
    induction (peer_targets node_id pcfg w) as [|t l IH]; intros Hd Hty; [constructor|]. cbn [map flat_map] in *. apply List.NoDup_cons_iff in Hd as [Hx Hd].
    rewrite map_app. apply List.NoDup_app; [apply target_keys_distinct; apply Hty; by left|apply IH; auto using in_cons|].
    intros k Hk Hk'. apply Hv in Hk. apply in_map_iff in Hk' as (r & <- & Hr). apply in_flat_map in Hr as (t' & Ht' & Hr).
    apply (in_map key_of) in Hr. apply Hv in Hr. rewrite Hk in Hr. injection Hr as Hr. apply Hx. rewrite Hr. by apply in_map.
  - destruct own as [t|]; [|constructor]. destruct (self_probe pcfg); [|constructor]. apply target_keys_distinct. auto.
  - intros k Hk Hk'. apply in_map_iff in Hk as (r & <- & Hr). apply in_flat_map in Hr as (t' & Ht' & Hr). apply (in_map key_of) in Hr. apply Hv in Hr.
    destruct own as [t|]; [|done]. destruct (self_probe pcfg); [|done]. apply Hv in Hk'. rewrite Hr in Hk'. discriminate.
Qed.

Lemma scored_from n rs self res self' r : score n rs self = (res, self') -> In r res -> exists x streak, In x rs /\ r = scored x streak.
Proof.
  revert self res self'. induction rs as [|x rs IH]; intros self res self'; cbn [score]; [by intros [= <- <-]|].
  destruct (observe _ _ _ _) as [k s1]. destruct (score n rs s1) as [res0 s2] eqn:E. intros [= <- <-] [<- |Hr]; [exists x, k; split; [by left|done]|].
  destruct (IH _ _ _ E Hr) as (y & j & Hy & ->). exists y, j. split; [by right|done].
Qed.
(** Every reported result is a measurement of one of the rounds, scored. *)
Lemma reported_was_measured ws st reps st' rep r : run ws st = (reps, st') -> In rep reps -> In r (results rep) ->
  exists w own x streak, In w ws /\ In x (measure w own) /\ r = scored x streak.
Proof.
  revert st reps st'. induction ws as [|w ws IH]; intros st reps st'; cbn [run_loop]; [by intros [= <- <-]|].
  destruct (round w st) as [rep0 st1] eqn:E1. destruct (run ws st1) as [reps0 st2] eqn:E2. intros [= <- <-] [<- |Hin] Hr.
  - unfold probe_round in E1. cbv zeta in E1. destruct (score _ _ _) as [res str] eqn:Es. injection E1 as <- <-. cbn [results] in Hr.
    destruct (scored_from _ _ _ _ _ _ Es Hr) as (x & k & Hx & ->). eexists w, _, x, k. split; [by left|]. split; [exact Hx|done].
  - destruct (IH _ _ _ E2 Hin Hr) as (w' & own & x & k & Hw & Hx & ->). exists w', own, x, k. split; [by right|]. done.
Qed.
Lemma measured_inv w own x : In x (measure w own) -> exists t v o uri ep, In uri (links_of t) /\
  pinned url_parse (w_resolve w) uri o = Some ep /\ x = probe_endpoint (pt_node_id t) v ep (if String.eqb v "peer" then pt_expected_ipv4 t else None) (w_observe w ep) /\
  (v = "peer" /\ o = None /\ pt_node_id t <> node_id \/ v = "self" /\ o = Some (self_probe_host pcfg)).
Proof.
  assert (Hp : forall t v o, In x (probe_target url_parse (w_resolve w) (w_observe w) t v o) -> exists uri ep, In uri (links_of t) /\
    pinned url_parse (w_resolve w) uri o = Some ep /\ x = probe_endpoint (pt_node_id t) v ep (if String.eqb v "peer" then pt_expected_ipv4 t else None) (w_observe w ep)).
  { intros t v o Hx. apply in_map_iff in Hx as (ep & <- & Hx). apply In_filter_map in Hx as (uri & Hu & He). eauto. }
  unfold measured. intros Hx. apply in_app_iff in Hx as [Hx|Hx].
  - apply in_flat_map in Hx as (t & Ht & Hx). apply Hp in Hx as (uri & ep & H1 & H2 & H3). exists t, "peer", None, uri, ep. split; [done|]. split; [done|]. split; [done|].
    left. split; [done|]. split; [done|]. apply dedup_seen_spec in Ht as [Ht _]. apply filter_In in Ht as [_ Ht]. by apply negb_true_iff, String.eqb_neq in Ht.
  - destruct own as [t|]; [|done]. destruct (self_probe pcfg); [|done]. apply Hp in Hx as (uri & ep & H1 & H2 & H3). exists t, "self", (Some (self_probe_host pcfg)), uri, ep. auto 10.
Qed.

Section Dial.
Context {V : Type} `{JsonOps V, !JsonTree V, !JsonLaws V, !JsonTreeLaws V, !JsonViewLaws V}.

Lemma outbound_server ep b : jget (outbound (V := V) ep b) "server" = Some (jstr (fst (host_port ep))).
Proof.
  destruct ep as [host port uuid flow sni fp pbk sid|host port pw sni obfs]; cbn [outbound host_port fst].
  - set (kvs := [("type", _); _; _; _; _; _]). assert (Hn : List.NoDup (map fst kvs)) by (repeat constructor; simpl; intuition discriminate).
    destruct (jcase_obj kvs Hn) as (l & Hl & _). destruct flow; [rewrite (view_jset _ _ _ _ _ Hl); simpl|]; by rewrite jget_obj.
  - set (kvs := [("type", _); _; _; _; _; _]). assert (Hn : List.NoDup (map fst kvs)) by (repeat constructor; simpl; intuition discriminate).
    destruct (jcase_obj kvs Hn) as (l & Hl & _). destruct obfs as [[kind opw]|]; [rewrite (view_jset _ _ _ _ _ Hl); simpl|]; by rewrite jget_obj.
Qed.

(** C35: The prober dials permitted addresses only.  Whatever targets the
    operator and the control plane name, whatever the resolver answers in
    whichever round, every reported measurement was taken against an endpoint
    whose host is the text of one address that the guard permits, and that
    text is the server the probe's client is configured with, so no second
    resolution takes place; a measurement of a peer is never one of the node
    itself. *)
Theorem probes_dial_permitted_addresses ws st reps st' rep r : run ws st = (reps, st') -> In rep reps -> In r (results rep) ->
  exists w t ep port ip expected, In w ws /\ target_node_id r = pt_node_id t /\ pr_protocol r = protocol ep /\ host_port ep = (show_ip ip, port) /\
    classify_denied ip = None /\ jget (outbound (V := V) ep (tls_insecure_for_tests pcfg)) "server" = Some (jstr (show_ip ip)) /\
    (vantage r = "peer" /\ pt_node_id t <> node_id \/ vantage r = "self") /\
    dims r = dims (probe_endpoint (pt_node_id t) (vantage r) ep expected (w_observe w ep)) /\
    pr_ok r = pr_ok (probe_endpoint (pt_node_id t) (vantage r) ep expected (w_observe w ep)).
Proof.
  intros E Hin Hr. destruct (reported_was_measured _ _ _ _ _ _ E Hin Hr) as (w & own & x & k & Hw & Hx & ->).
  destruct (measured_inv _ _ _ Hx) as (t & v & o & uri & ep & _ & Hp & -> & Hv). set (e := if String.eqb v "peer" then _ else _) in *.
  pose proof (probe_endpoint_key (pt_node_id t) v ep e (w_observe w ep)) as Hk. unfold key_of in Hk. injection Hk as K1 K2 K3.
  apply pinned_spec in Hp as (ep0 & ip & _ & Hd & -> & _). destruct (with_host_spec ep0 (show_ip ip)) as [Hh _].
  exists w, t, (with_host ep0 (show_ip ip)), (snd (host_port ep0)), ip, e. cbn [scored target_node_id pr_protocol vantage dims pr_ok].
  split; [done|]. split; [done|]. split; [done|]. split; [done|]. split; [done|]. split; [by rewrite outbound_server, Hh|].
  rewrite K2. split; [|done]. destruct Hv as [(-> & _ & Hn)|[-> _]]; auto.
Qed.
End Dial.

(** *** A gap *)

(** With the default [self_probe_host] the guard refuses the loopback address
    in every round, so the documented fallback, probing the node's own
    listeners over loopback, never yields a result. *)
Lemma loopback_self_probe_never_runs ws st reps st' rep r : self_probe_host pcfg = self_probe_host default_probe_config ->
  run ws st = (reps, st') -> In rep reps -> In r (results rep) -> vantage r = "peer".
Proof.
  intros Hh E Hin Hr. destruct (reported_was_measured _ _ _ _ _ _ E Hin Hr) as (w & own & x & k & Hw & Hx & ->).
  destruct (measured_inv _ _ _ Hx) as (t & v & o & uri & ep & _ & Hp & -> & Hv).
  pose proof (probe_endpoint_key (pt_node_id t) v ep (if String.eqb v "peer" then pt_expected_ipv4 t else None) (w_observe w ep)) as Hk.
  unfold key_of in Hk. injection Hk as _ K2 _. cbn [scored vantage]. rewrite K2. destruct Hv as [(-> & _)|(-> & ->)]; [done|]. exfalso.
  apply pinned_spec in Hp as (ep0 & ip & _ & _ & _ & tg & Hr0 & _). rewrite Hh in Hr0. discriminate Hr0.
Qed.
End LoopLemmas.

(** ** Witnesses *)

Definition ex_url (uri : string) : option Url :=
  if String.eqb uri "vless://u@peer:443" then
    Some {| u_scheme := "vless"; u_username := "u%2B1"; u_host := Some "peer.example"; u_port := Some 443;
            u_query := [("security", "reality"); ("pbk", "k"); ("sid", "0a"); ("flow", "")] |}
  else None.
Definition ex_peer_target : ProbeTarget :=
  {| pt_node_id := "de-1"; pt_expected_ipv4 := None; pt_reality_uri := Some "vless://u@peer:443"; pt_hysteria2_uri := None |}.
Definition ex_pcfg : ProtocolProbeConfig :=
  {| probe_user_name := AdminUsers.PROBE_USER_NAME; publish_self := false; fetch_targets := true; self_probe := true; self_probe_host := "127.0.0.1";
     has_cert_path := false; tls_insecure_for_tests := false; static_targets := [] |}.
(** A round in which the peer is reachable or not. *)
Definition ex_world (up : bool) : World :=
  {| w_created := None; w_links := fun _ => None; w_published := true; w_fetched := Some [ex_peer_target];
     w_resolve := fun _ p => Some [(V4 (ipv4 9 9 9 9), p)];
     w_observe := fun _ => {| o_tcp := true; o_started := true; o_ready := true; o_http := true;
                              o_sample := fun _ => if up then Some ("ip=9.9.9.9", 20) else None; o_dns := None; o_v6 := None |};
     w_not_after := None; w_now := 0 |}.
Definition ex_rounds : list ProbeReport * LoopState := run_loop ex_url "ru-1" ex_pcfg [ex_world true; ex_world false; ex_world false] loop_start.

(** One failure degrades, the next one fails. *)
Lemma probe_status_hysteretic_witness :
  exists rep r, nth_error (fst ex_rounds) 2 = Some rep /\ In r (results rep) /\ pr_status r = "failed".
Proof.
  destruct ex_rounds as [reps st'] eqn:E. assert (Hl : map (fun rep => map key_of (results rep)) reps = repeat [("de-1", "peer", PReality)] 3).
  { change reps with (fst (reps, st')). rewrite <- E. vm_compute. reflexivity. }
  destruct (nth_error reps 2) as [rep|] eqn:Hn; [|apply (f_equal (map (@length _))) in Hl; apply nth_error_None in Hn; apply (f_equal length) in Hl; rewrite !length_map in Hl; simpl in Hl; lia].
  assert (Hd : Forall (fun rep => List.NoDup (map key_of (results rep))) reps).
  { apply List.Forall_forall. intros x Hx. apply (in_map (fun rep => map key_of (results rep))) in Hx. rewrite Hl in Hx. apply repeat_spec in Hx. rewrite Hx.
    repeat constructor. intros []. }
  assert (Hr : exists r, results rep = [r] /\ pr_ok r = false /\
    bool_decide (outcome_of (key_of r) (hd [] (map results (rev (firstn 2 reps)))) = Some false) = true).
  { change reps with (fst (reps, st')) in Hn |- *. rewrite <- E in Hn |- *. vm_compute in Hn. injection Hn as <-. eexists. split; [reflexivity|]. split; vm_compute; reflexivity. }
  destruct Hr as (r & Hr & Hok & Hprev). exists rep, r. split; [exact Hn|]. split; [rewrite Hr; by left|].
  destruct (probe_status_hysteretic ex_url "ru-1" ex_pcfg _ reps st' 2 rep r E Hd ltac:(vm_compute; discriminate) Hn ltac:(rewrite Hr; by left)) as [_ Hs].
  rewrite Hok in Hs. cbv zeta in Hs. rewrite Hprev in Hs. exact Hs.
Defined.

Lemma probes_dial_permitted_addresses_witness :
  exists rep r, In rep (fst ex_rounds) /\ In r (results rep) /\ exists ip, classify_denied ip = None /\ pr_ok r = true.
Proof.
  destruct ex_rounds as [reps st'] eqn:E.
  assert (Hr : exists rep r, In rep reps /\ In r (results rep) /\ pr_ok r = true).
  { change reps with (fst (reps, st')). rewrite <- E. eexists _, _. vm_compute. split; [left; reflexivity|]. split; [left; reflexivity|reflexivity]. }
  destruct Hr as (rep & r & H1 & H2 & H3). exists rep, r. split; [exact H1|]. split; [exact H2|].
  destruct (probes_dial_permitted_addresses ex_url "ru-1" ex_pcfg (V := json) _ _ _ _ _ _ E H1 H2) as (w & t & ep & port & ip & e & _ & _ & _ & _ & Hd & _).
  exists ip. auto.
Defined.
End ProtocolProbe.
