(* ===== verification/Pacing.v ===== *)
(** * apps/provisioning-agent: pacing.rs and events.rs

    The control-plane gate (backoff with jitter, [Retry-After] as a floor) and
    the event channel that decides which network steps are due.

    Durations and instants are nanoseconds in [Z].  Scaling a [Duration] by an
    [f64] is an argument: [scale d] stands for what [d.mul_f64(0.5 * jitter)]
    (or the like) returned, and [scale_ok] is what the standard library
    documents of it for a factor in [0, 1/2], rounding included. *)

From S2P Require Import Prelude Strs.
From Stdlib Require Import Ascii.

Module Pacing.

Definition NS : Z := 1000000000.
Definition secs (s : Z) : Z := s * NS.
Definition MAX_RETRY_AFTER : Z := secs 3600.
Definition DURATION_MAX : Z := u64_max * NS + (NS - 1).

(** ** Retry-After *)

(** [str::parse::<u64>]: an optional plus sign, then digits, below 2^64. *)
Fixpoint digits_val (acc : Z) (s : string) : option Z :=
  match s with
  | EmptyString => Some acc
  | String c s' => if is_ascii_digit c then digits_val (acc * 10 + (byte_val c - 48)) s' else None
  end.
Definition parse_u64 (s : string) : option Z :=
  let s := match s with String "+" s' => s' | _ => s end in
  if str_is_empty s then None else
  match digits_val 0 s with
  | Some n => if n <=? u64_max then Some n else None
  | None => None
  end.

(** [raw] is the trimmed header value, [date] the RFC 2822 parser (an instant
    in nanoseconds). *)
Definition parse_retry_after_at (date : string -> option Z) (raw : option string) (now : Z) : option Z :=
  match raw with
  | None => None
  | Some raw =>
      match parse_u64 raw with
      | Some seconds => Some (Z.min (secs seconds) MAX_RETRY_AFTER)
      | None =>
          match date raw with
          | None => None
          | Some when =>
              let delta := when - now in
              if delta <? 0 then None else
              let s := delta / NS + (if 0 <? delta mod NS then 1 else 0) in
              Some (Z.min (secs s) MAX_RETRY_AFTER)
          end
      end
  end.

(** ** Backoff *)

Record Backoff := { base : Z; cap : Z; failures : Z }.

Definition backoff_new (b c : Z) : Backoff := {| base := b; cap := c; failures := 0 |}.
Definition reset (b : Backoff) : Backoff := {| base := base b; cap := cap b; failures := 0 |}.

(** [checked_mul(1 << exponent).unwrap_or(cap).min(cap)] *)
Definition step (b : Backoff) : Z :=
  let m := base b * 2 ^ (Z.min (failures b) 20) in
  Z.min (if m <=? DURATION_MAX then m else cap b) (cap b).

Definition next_delay (scale : Z -> Z) (b : Backoff) : Backoff * Z :=
  ({| base := base b; cap := cap b; failures := saturating_add u32_max (failures b) 1 |},
   step b / 2 + scale (step b)).

(** ** The gate *)

Record GateState := {
  backoff : Backoff;
  blocked_until : option Z;
  server_minimum_until : option Z;
  consecutive_failures : Z }.

Definition gate_new (b c : Z) : GateState :=
  {| backoff := backoff_new b c; blocked_until := None; server_minimum_until := None;
     consecutive_failures := 0 |}.

(** [Err] carries the remaining wait. *)
Definition check_at (g : GateState) (now : Z) : result unit Z :=
  match blocked_until g with
  | Some until => if now <? until then Err (until - now) else Ok tt
  | None => Ok tt
  end.

Definition record_success (g : GateState) (now : Z) : GateState :=
  {| backoff := reset (backoff g);
     blocked_until := match server_minimum_until g with
                      | Some until => if now <? until then Some until else None
                      | None => None
                      end;
     server_minimum_until := server_minimum_until g; consecutive_failures := 0 |}.

Definition max_opt (o : option Z) (z : Z) : Z :=
  match o with Some x => Z.max x z | None => z end.

Definition record_failure_at (scale : Z -> Z) (g : GateState) (now : Z) (retry_after : option Z)
  : GateState :=
  let '(b, own) := next_delay scale (backoff g) in
  let delay := match retry_after with Some server => Z.max server own | None => own end in
  let until := now + delay in
  {| backoff := b;
     blocked_until := Some (max_opt (blocked_until g) until);
     server_minimum_until :=
       match retry_after with
       | Some server => Some (max_opt (server_minimum_until g) (now + server))
       | None => server_minimum_until g
       end;
     consecutive_failures := saturating_add u32_max (consecutive_failures g) 1 |}.

(** ** Wakeups and the schedule *)

Record Wakeups := {
  jobs : bool; authorizations : bool; leases : bool; healthy : bool;
  notified : bool  (** the permit of [Notify] *) }.

Definition mark_one (w : Wakeups) (channel : string) : Wakeups :=
  {| jobs := jobs w || String.eqb channel "jobs";
     authorizations := authorizations w || String.eqb channel "authorizations";
     leases := leases w || String.eqb channel "leases"; healthy := healthy w;
     notified := notified w |}.
Definition mark (w : Wakeups) (channels : list string) : Wakeups :=
  let w := fold_left mark_one channels w in
  {| jobs := jobs w; authorizations := authorizations w; leases := leases w; healthy := healthy w;
     notified := true |}.
Definition set_healthy (w : Wakeups) (h : bool) : Wakeups :=
  {| jobs := jobs w; authorizations := authorizations w; leases := leases w; healthy := h;
     notified := notified w || (healthy w && negb h) |}.

Record Due := { claim : bool; due_authorizations : bool; due_leases : bool }.

Record Schedule := {
  reconcile : Z; next_claim : Z; next_authorizations : Z; next_leases : Z }.

Definition schedule_new (r now : Z) : Schedule :=
  {| reconcile := r; next_claim := now; next_authorizations := now; next_leases := now |}.

(** The three [take_*] swaps and the decision. *)
Definition due (s : Schedule) (now : Z) (w : Wakeups) : Schedule * Wakeups * Due :=
  let primary := healthy w in
  let c := negb primary || jobs w || (next_claim s <=? now) in
  let a := negb primary || authorizations w || (next_authorizations s <=? now) in
  let l := negb primary || leases w || (next_leases s <=? now) in
  ({| reconcile := reconcile s;
      next_claim := if c then now + reconcile s else next_claim s;
      next_authorizations := if a then now + reconcile s else next_authorizations s;
      next_leases := if l then now + reconcile s else next_leases s |},
   {| jobs := false; authorizations := false; leases := false; healthy := healthy w;
      notified := notified w |},
   {| claim := c; due_authorizations := a; due_leases := l |}).

Definition claim_again_now (s : Schedule) (now : Z) : Schedule :=
  {| reconcile := reconcile s; next_claim := now; next_authorizations := next_authorizations s;
     next_leases := next_leases s |}.
Definition retry_claim (s : Schedule) (now : Z) : Schedule := claim_again_now s now.
Definition retry_authorizations (s : Schedule) (now : Z) : Schedule :=
  {| reconcile := reconcile s; next_claim := next_claim s; next_authorizations := now;
     next_leases := next_leases s |}.
Definition retry_leases (s : Schedule) (now : Z) : Schedule :=
  {| reconcile := reconcile s; next_claim := next_claim s;
     next_authorizations := next_authorizations s; next_leases := now |}.

(** ** The event loop *)

Record Timing := {
  unavailable_sleep : Z; superseded_floor : Z; error_base : Z; error_cap : Z;
  min_event_interval : Z }.

Definition production : Timing :=
  {| unavailable_sleep := secs 600; superseded_floor := secs 5; error_base := secs 2;
     error_cap := secs 60; min_event_interval := secs 1 |}.

(** [minimum + minimum.mul_f64(0.25 * unit)]; [scale] is the product. *)
Definition superseded_delay (scale : Z -> Z) (retry_after : option Z) (floor : Z) : Z :=
  let minimum := Z.max (match retry_after with Some r => r | None => 0 end) floor in
  minimum + scale minimum.

Inductive EventsOutcome :=
| Event (reason : string) (changed : list string) (cursor : string)
| Unavailable
| Superseded (retry_after : option Z)
| GatedError (remaining : Z)
| OtherError.

Record LoopState := { cursor : option string; loop_backoff : Backoff; wake : Wakeups }.

(** One iteration: [elapsed] is the time the request took, [jit d] what
    [jittered(d)] returned, [scale] the products of the two backoffs; the
    second component is the total sleep. *)
Definition loop_step (t : Timing) (jit scale : Z -> Z) (elapsed : Z) (s : LoopState) (o : EventsOutcome)
  : LoopState * Z :=
  match o with
  | Event reason changed next =>
      let w := set_healthy (wake s) true in
      ({| cursor := if negb (str_is_empty next) then Some next else cursor s;
          loop_backoff := reset (loop_backoff s);
          wake := if negb (String.eqb reason "timeout") && negb (bool_decide (changed = []))
                  then mark w changed else w |},
       if elapsed <? min_event_interval t then min_event_interval t - elapsed else 0)
  | Unavailable =>
      ({| cursor := None; loop_backoff := loop_backoff s; wake := set_healthy (wake s) false |},
       jit (unavailable_sleep t))
  | Superseded retry_after =>
      ({| cursor := cursor s; loop_backoff := loop_backoff s; wake := set_healthy (wake s) false |},
       superseded_delay scale retry_after (superseded_floor t))
  | GatedError remaining =>
      ({| cursor := cursor s; loop_backoff := loop_backoff s; wake := set_healthy (wake s) false |},
       remaining + 50000000)
  | OtherError =>
      let '(b, d) := next_delay scale (loop_backoff s) in
      ({| cursor := cursor s; loop_backoff := b; wake := set_healthy (wake s) false |}, d)
  end.

(** ** Backoff lemmas *)

(** Scaling by a factor between 0 and one half, rounded. *)
Definition scale_ok (scale : Z -> Z) : Prop := forall d, 0 <= d -> 0 <= scale d <= d / 2 + 1.

Definition backoff_wf (b : Backoff) : Prop :=
  0 < base b <= cap b /\ cap b <= DURATION_MAX /\ 0 <= failures b.

Lemma step_eq b : backoff_wf b -> step b = Z.min (base b * 2 ^ Z.min (failures b) 20) (cap b).
Proof. unfold backoff_wf, step. intros (_ & Hc & _). destruct (_ <=? DURATION_MAX) eqn:E; b2p; lia. Qed.

Lemma step_bounds b : backoff_wf b -> 0 < step b <= cap b.
Proof.
  intros Hw. rewrite step_eq by done. destruct Hw as (Hb & _ & Hf).
  assert (Hp : 1 <= 2 ^ Z.min (failures b) 20).
  { pose proof (Z.pow_le_mono_r 2 0 (Z.min (failures b) 20) ltac:(lia) ltac:(lia)). simpl in *. lia. }
  nia.
Qed.

Lemma next_delay_spec scale b : scale_ok scale -> backoff_wf b ->
  let '(b', d) := next_delay scale b in
  backoff_wf b' /\ step b / 2 <= d <= step b + 1 /\ base b' = base b /\ cap b' = cap b.
Proof.
  intros Hs Hw. pose proof (step_bounds b Hw) as Hst. unfold next_delay.
  pose proof (Hs (step b) ltac:(lia)). unfold backoff_wf, saturating_add, u32_max in *. simpl.
  pose proof (Z.div_mod (step b) 2 ltac:(lia)). pose proof (Z.mod_pos_bound (step b) 2 ltac:(lia)).
  repeat split; lia.
Qed.

(** The delay after the n-th consecutive failure is at least half of
    [min(cap, base * 2^min(n,20))] and at most that plus one nanosecond of
    rounding, whatever the jitter; the step never overflows, never exceeds the
    cap and never shrinks as failures accumulate; a success resets it. *)
Theorem backoff_delay_bounds scale b :
  scale_ok scale -> backoff_wf b ->
  let '(b', d) := next_delay scale b in
  step b = Z.min (base b * 2 ^ Z.min (failures b) 20) (cap b)
  /\ step b / 2 <= d <= cap b + 1
  /\ step b <= step b'
  /\ step (reset b') = base b.
Proof.
  intros Hs Hw. pose proof (next_delay_spec scale b Hs Hw) as Hd.
  destruct (next_delay scale b) as [b' d] eqn:E. destruct Hd as (Hw' & Hd & Hb & Hc).
  pose proof (step_bounds b Hw) as Hst.
  split; [by apply step_eq|]. split; [lia|].
  unfold next_delay in E. injection E as <- <-. split.
  - rewrite !step_eq by done. cbn [base cap failures]. destruct Hw as (Hb0 & _ & Hf).
    assert (2 ^ Z.min (failures b) 20 <= 2 ^ Z.min (saturating_add u32_max (failures b) 1) 20).
    { apply Z.pow_le_mono_r; [lia|]. unfold saturating_add, u32_max. lia. }
    nia.
  - rewrite step_eq; unfold reset; cbn [base cap failures].
    + destruct Hw as (Hb0 & _). change (2 ^ Z.min 0 20) with 1. lia.
    + destruct Hw as (? & ? & ?). by split; [|split].
Qed.

(** ** Gate lemmas *)

Inductive gate_op := Success | Failure (retry_after : option Z) (scale : Z -> Z).

Definition gate_apply (g : GateState) (now : Z) (o : gate_op) : GateState :=
  match o with
  | Success => record_success g now
  | Failure ra scale => record_failure_at scale g now ra
  end.

(** Operations on the gate in clock order; [c] is the clock afterwards. *)
Inductive gate_run (g0 : GateState) (c0 : Z) : GateState -> Z -> Prop :=
| run_nil : gate_run g0 c0 g0 c0
| run_op g c now o : gate_run g0 c0 g c -> c <= now ->
    (forall ra scale, o = Failure ra scale -> scale_ok scale
       /\ match ra with Some r => 0 <= r <= MAX_RETRY_AFTER | None => True end) ->
    gate_run g0 c0 (gate_apply g now o) now.

(** The server's minimum is either over or still enforced. *)
Definition gate_inv (m c : Z) (g : GateState) : Prop :=
  (exists s, server_minimum_until g = Some s /\ m <= s)
  /\ (forall s, server_minimum_until g = Some s -> s <= c \/ exists b, blocked_until g = Some b /\ s <= b).

Lemma gate_apply_inv m c g now o : gate_inv m c g -> c <= now -> gate_inv m now (gate_apply g now o).
Proof.
  intros [(s & Hs & Hm) Hb] Hc. destruct o as [|ra scale]; simpl.
  - split; cbn [server_minimum_until blocked_until record_success]; [by exists s|].
    intros s' Hs'. rewrite Hs'. destruct (now <? s') eqn:E; [right; exists s'; split; [done|lia]|left; lia].
  - unfold record_failure_at. destruct (next_delay scale (backoff g)) as [b own].
    split; cbn [server_minimum_until blocked_until].
    + destruct ra as [r|]; [|by exists s]. rewrite Hs. simpl. eexists. split; [done|]. lia.
    + intros s' Hs'. specialize (Hb s Hs). rewrite Hs in Hs'.
      assert (Hcase : s' = s \/ exists r, ra = Some r /\ s' = Z.max s (now + r)).
      { destruct ra as [r|]; [right; exists r; split; [done|]|left]; simpl in Hs'; congruence. }
      destruct Hcase as [->|(r & -> & ->)].
      * destruct Hb as [Hb|(x & Hx & Hle)]; [left; lia|right]. rewrite Hx. eexists. split; [done|].
        simpl. lia.
      * destruct (Z.le_gt_cases s (now + Z.max r own)) as [Hle|Hgt].
        -- right. eexists. split; [done|]. destruct (blocked_until g); simpl; lia.
        -- destruct Hb as [Hb|(x & Hx & Hle)]; [|right; rewrite Hx; eexists; split; [done|simpl; lia]].
           destruct (Z.le_gt_cases (now + r) s); [left; lia|right].
           eexists. split; [done|]. destruct (blocked_until g); simpl; lia.
Qed.

Lemma failure_inv scale g now r c : 
  (forall s, server_minimum_until g = Some s -> s <= c \/ exists b, blocked_until g = Some b /\ s <= b) ->
  c <= now -> gate_inv (now + r) now (record_failure_at scale g now (Some r)).
Proof.
  intros Hb Hc. unfold record_failure_at. destruct (next_delay scale (backoff g)) as [b own].
  split; cbn [server_minimum_until blocked_until].
  - eexists. split; [done|]. destruct (server_minimum_until g); simpl; lia.
  - intros s' [= <-]. destruct (server_minimum_until g) as [s|] eqn:Hs; simpl.
    + destruct (Hb s eq_refl) as [H|(x & Hx & Hle)].
      * destruct (Z.le_gt_cases s (now + r)).
        -- right. eexists. split; [done|]. destruct (blocked_until g); simpl; lia.
        -- left. lia.
      * right. rewrite Hx. eexists. split; [done|]. simpl. lia.
    + right. eexists. split; [done|]. destruct (blocked_until g); simpl; lia.
Qed.

Definition minimum_enforced (c : Z) (g : GateState) : Prop :=
  forall s, server_minimum_until g = Some s -> s <= c \/ exists b, blocked_until g = Some b /\ s <= b.

Lemma minimum_enforced_step c g now o :
  minimum_enforced c g -> c <= now -> minimum_enforced now (gate_apply g now o).
Proof.
  intros Hb Hc. destruct o as [|[r|] scale]; simpl.
  - intros s Hs. cbn [record_success server_minimum_until blocked_until] in *. rewrite Hs.
    destruct (now <? s) eqn:E; [right; exists s; split; [done|lia]|left; lia].
  - exact (proj2 (failure_inv scale g now r c Hb Hc)).
  - intros s. unfold record_failure_at. destruct (next_delay scale (backoff g)) as [b own].
    cbn [server_minimum_until blocked_until]. intros Hs.
    destruct (Hb s Hs) as [H|(x & Hx & Hle)]; [left; lia|right].
    rewrite Hx. eexists. split; [done|]. simpl. lia.
Qed.

Lemma gate_run_enforced b k g c : gate_run (gate_new b k) 0 g c -> minimum_enforced c g.
Proof.
  induction 1 as [|g1 c1 now o Hrun IH Hle Ho]; [by intros s|]. by eapply minimum_enforced_step.
Qed.

(** A server's [Retry-After] is a floor that nothing lowers.  In a gate
    with any history, after a failure at [t0] that carried it, whatever
    successes and failures other calls record afterwards, every check before
    [t0 + r] finds the gate closed, so nothing is sent. *)
Theorem retry_after_is_floor base cap_ scale g c t0 r g' c' t :
  gate_run (gate_new base cap_) 0 g c -> c <= t0 ->
  gate_run (record_failure_at scale g t0 (Some r)) t0 g' c' ->
  c' <= t -> t < t0 + r -> exists w, check_at g' t = Err w /\ 0 < w.
Proof.
  intros Hg Hc Hrun Ht Hlt. apply gate_run_enforced in Hg.
  assert (Hi : gate_inv (t0 + r) c' g').
  { induction Hrun as [|g1 c1 now o Hrun IH Hle Ho]; [by eapply failure_inv|].
    eapply gate_apply_inv; [|done]. apply IH; lia. }
  destruct Hi as [(s & Hs & Hm) Hb]. destruct (Hb s Hs) as [H|(b & Hbu & Hle)]; [lia|].
  unfold check_at. rewrite Hbu. replace (t <? b) with true by lia. eexists. split; [done|lia].
Qed.

(** No wait outlasts the longest of the cap and the accepted [Retry-After]. *)
Definition bounded_inv (k c : Z) (g : GateState) : Prop :=
  backoff_wf (backoff g) /\ cap (backoff g) + 1 <= k
  /\ (forall b, blocked_until g = Some b -> b <= c + k)
  /\ (forall s, server_minimum_until g = Some s -> s <= c + k).

Lemma gate_apply_bounded k c g now o :
  MAX_RETRY_AFTER <= k -> bounded_inv k c g -> c <= now ->
  (forall ra scale, o = Failure ra scale -> scale_ok scale
     /\ match ra with Some r => 0 <= r <= MAX_RETRY_AFTER | None => True end) ->
  bounded_inv k now (gate_apply g now o).
Proof.
  intros Hk (Hw & Hcap & Hb & Hs) Hc Ho. destruct o as [|ra scale]; simpl.
  - split; [by destruct Hw as (? & ? & ?); split; [|split]|]. split; [done|].
    split; cbn [record_success blocked_until server_minimum_until].
    + intros b Hbu. destruct (server_minimum_until g) as [s|]; [|discriminate].
      destruct (now <? s); [|discriminate]. specialize (Hs s eq_refl). simplify_eq. lia.
    + intros s Hsm. specialize (Hs s Hsm). lia.
  - destruct (Ho ra scale eq_refl) as [Hsc Hra]. unfold record_failure_at.
    pose proof (next_delay_spec scale (backoff g) Hsc Hw) as Hd.
    destruct (next_delay scale (backoff g)) as [b' own]. destruct Hd as (Hw' & Hd & Hb' & Hc').
    pose proof (step_bounds _ Hw). split; [done|]. cbn [backoff]. split; [lia|].
    split; cbn [blocked_until server_minimum_until].
    + intros b [= <-]. destruct (blocked_until g) as [x|]; simpl; [specialize (Hb x eq_refl)|];
        destruct ra as [r|]; lia.
    + intros s Hsm. destruct ra as [r|].
      * injection Hsm as <-. destruct (server_minimum_until g) as [x|]; simpl; [specialize (Hs x eq_refl)|]; lia.
      * specialize (Hs s Hsm). lia.
Qed.

(** C39: the gate always reopens: with [Retry-After] values clamped to an hour,
    after any sequence of successes and failures the gate is open at every
    instant later than the last recorded one by the longer of one hour and the
    backoff cap (plus rounding). *)
Theorem gate_reopens base cap_ g c t :
  0 < base <= cap_ -> cap_ <= DURATION_MAX -> 
  gate_run (gate_new base cap_) 0 g c -> c + Z.max MAX_RETRY_AFTER (cap_ + 1) <= t ->
  check_at g t = Ok tt.
Proof.
  intros Hb Hm Hrun Ht. set (k := Z.max MAX_RETRY_AFTER (cap_ + 1)) in *.
  assert (Hi : bounded_inv k c g).
  { clear Ht. induction Hrun as [|g1 c1 now o Hrun IH Hle Ho].
    - split; [split; [done|split; [done|simpl; lia]]|]. split; [simpl; lia|]. by split.
    - eapply gate_apply_bounded; [lia|exact IH|done|done]. }
  destruct Hi as (_ & _ & Hbl & _). unfold check_at. destruct (blocked_until g) as [b|]; [|done].
  specialize (Hbl b eq_refl). by replace (t <? b) with false by lia.
Qed.

(** ** The schedule *)

Inductive wake_op := Mark (channels : list string) | Healthy (h : bool).
Definition wake_apply (w : Wakeups) (o : wake_op) : Wakeups :=
  match o with Mark cs => mark w cs | Healthy h => set_healthy w h end.

Lemma mark_fold_jobs cs : forall w, jobs (fold_left mark_one cs w) = jobs w || existsb (String.eqb "jobs") cs.
Proof.
  induction cs as [|c cs IH]; intros w; simpl; [by rewrite orb_false_r|].
  rewrite IH. cbn [mark_one jobs]. by rewrite <- orb_assoc, (String.eqb_sym c).
Qed.
Lemma mark_fold_auth cs : forall w,
  authorizations (fold_left mark_one cs w) = authorizations w || existsb (String.eqb "authorizations") cs.
Proof.
  induction cs as [|c cs IH]; intros w; simpl; [by rewrite orb_false_r|].
  rewrite IH. cbn [mark_one authorizations]. by rewrite <- orb_assoc, (String.eqb_sym c).
Qed.
Lemma mark_fold_leases cs : forall w,
  leases (fold_left mark_one cs w) = leases w || existsb (String.eqb "leases") cs.
Proof.
  induction cs as [|c cs IH]; intros w; simpl; [by rewrite orb_false_r|].
  rewrite IH. cbn [mark_one leases]. by rewrite <- orb_assoc, (String.eqb_sym c).
Qed.

(** A raised flag stays up until the main loop takes it. *)
Lemma wake_flags_kept ops w :
  (jobs w = true -> jobs (fold_left wake_apply ops w) = true)
  /\ (authorizations w = true -> authorizations (fold_left wake_apply ops w) = true)
  /\ (leases w = true -> leases (fold_left wake_apply ops w) = true).
Proof.
  revert w. induction ops as [|o ops IH]; intros w; [done|]. cbn [fold_left].
  destruct (IH (wake_apply w o)) as (H1 & H2 & H3). destruct o as [cs|h]; cbn [wake_apply mark set_healthy
    jobs authorizations leases] in *; rewrite ?mark_fold_jobs, ?mark_fold_auth, ?mark_fold_leases in *.
  - repeat split; intros E; [apply H1|apply H2|apply H3]; by rewrite E.
  - auto.
Qed.

(** No event is lost and no channel goes unserved.  A change event for a
    channel, followed by any further events and health changes, makes the next
    decision run that channel's step, and the flag is consumed exactly once;
    while the event channel is not healthy every step runs on every iteration;
    and a step runs whenever the reconcile interval since its last run has
    passed, event or no event. *)
Theorem events_not_lost s w cs ops now s' w' d :
  due s now (fold_left wake_apply ops (mark w cs)) = (s', w', d) ->
  (In "jobs" cs -> claim d = true) /\ (In "authorizations" cs -> due_authorizations d = true)
  /\ (In "leases" cs -> due_leases d = true)
  /\ jobs w' = false /\ authorizations w' = false /\ leases w' = false
  /\ (healthy w' = false -> d = {| claim := true; due_authorizations := true; due_leases := true |})
  /\ (claim d = true -> next_claim s' = now + reconcile s)
  /\ (claim d = false -> now < next_claim s /\ next_claim s' = next_claim s)
  /\ (due_authorizations d = false -> now < next_authorizations s)
  /\ (due_leases d = false -> now < next_leases s).
Proof.
  set (w1 := fold_left wake_apply ops (mark w cs)). intros H. unfold due in H. injection H as <- <- <-.
  destruct (wake_flags_kept ops (mark w cs)) as (K1 & K2 & K3). fold w1 in K1, K2, K3.
  assert (Hin : forall x, In x cs -> existsb (String.eqb x) cs = true).
  { intros x Hx. apply existsb_exists. exists x. split; [done|apply String.eqb_refl]. }
  cbn [claim due_authorizations due_leases jobs authorizations leases healthy next_claim].
  split; [intros Hc; rewrite K1; [by rewrite orb_true_r|]|].
  { unfold mark. cbn [jobs]. rewrite mark_fold_jobs, Hin by done. apply orb_true_r. }
  split; [intros Hc; rewrite K2; [by rewrite orb_true_r|]|].
  { unfold mark. cbn [authorizations]. rewrite mark_fold_auth, Hin by done. apply orb_true_r. }
  split; [intros Hc; rewrite K3; [by rewrite orb_true_r|]|].
  { unfold mark. cbn [leases]. rewrite mark_fold_leases, Hin by done. apply orb_true_r. }
  repeat (split; [done|]). split; [by intros ->|].
  split; [by intros ->|]. split; [intros E; rewrite E; apply orb_false_iff in E as [_ E]; split; [lia|done]|].
  split; intros E; apply orb_false_iff in E as [_ E]; lia.
Qed.

(** The event loop never sleeps less than the server asked: after a
    superseded connection at least the [Retry-After] and the floor, after a
    closed gate at least the remaining wait, and between two events at least
    the configured interval; and the channel counts as healthy exactly after
    an answered request, losing health waking the main loop. *)
Theorem event_loop_sleeps t jit scale elapsed s o s' d :
  scale_ok scale -> backoff_wf (loop_backoff s) -> 0 <= superseded_floor t ->
  loop_step t jit scale elapsed s o = (s', d) ->
  (healthy (wake s') = match o with Event _ _ _ => true | _ => false end)
  /\ (healthy (wake s) = true -> healthy (wake s') = false -> notified (wake s') = true)
  /\ match o with
     | Event _ _ _ => min_event_interval t <= elapsed + d \/ min_event_interval t <= elapsed
     | Superseded ra => superseded_floor t <= d /\ match ra with Some r => r <= d | None => True end
     | GatedError remaining => remaining < d
     | OtherError => step (loop_backoff s) / 2 <= d <= cap (loop_backoff s) + 1
                     /\ backoff_wf (loop_backoff s')
     | Unavailable => d = jit (unavailable_sleep t)
     end.
Proof.
  intros Hs Hw Hf H. destruct o as [reason changed next| |ra|remaining|]; cbn [loop_step] in H.
  - injection H as <- <-. cbn [wake]. split; [|split].
    + destruct (_ && _); [|done]. cbn [mark healthy].
      clear. assert (Hh : forall cs w, healthy (fold_left mark_one cs w) = healthy w).
      { induction cs as [|c cs IH]; intros w; [done|]. cbn [fold_left]. by rewrite IH. }
      by rewrite Hh.
    + intros _ E. exfalso. revert E. destruct (_ && _); [|done]. cbn [mark healthy].
      assert (Hh : forall cs w, healthy (fold_left mark_one cs w) = healthy w).
      { induction cs as [|c cs IH]; intros w; [done|]. cbn [fold_left]. by rewrite IH. }
      by rewrite Hh.
    + destruct (elapsed <? min_event_interval t) eqn:E; [left|right]; lia.
  - injection H as <- <-. cbn [wake set_healthy healthy notified]. split; [done|]. split; [|done].
    intros -> _. by rewrite orb_true_r.
  - injection H as <- <-. cbn [wake set_healthy healthy notified]. split; [done|]. split.
    + intros -> _. by rewrite orb_true_r.
    + unfold superseded_delay. set (m := Z.max _ _).
      assert (0 <= m) by lia. pose proof (Hs m ltac:(lia)).
      split; [lia|]. destruct ra; [lia|done].
  - injection H as <- <-. cbn [wake set_healthy healthy notified]. split; [done|]. split; [|lia].
    intros -> _. by rewrite orb_true_r.
  - pose proof (next_delay_spec scale (loop_backoff s) Hs Hw) as Hd.
    pose proof (step_bounds _ Hw).
    destruct (next_delay scale (loop_backoff s)) as [b d']. injection H as <- <-.
    cbn [wake set_healthy healthy notified loop_backoff]. split; [done|]. split.
    + intros -> _. by rewrite orb_true_r.
    + destruct Hd as (? & ? & _).
      split; [lia|done].
Qed.

(** A [Retry-After] header is honoured up to one hour, never for less time
    than it names below that: seconds as given, a date rounded up to the next
    whole second, a past date ignored. *)
Theorem retry_after_honoured date raw now d :
  parse_retry_after_at date (Some raw) now = Some d ->
  d <= MAX_RETRY_AFTER
  /\ match parse_u64 raw with
     | Some s => d = Z.min (secs s) MAX_RETRY_AFTER
     | None => exists t, date raw = Some t /\ now <= t
                 /\ (d < MAX_RETRY_AFTER -> t <= now + d < t + NS)
     end.
Proof.
  unfold parse_retry_after_at. destruct (parse_u64 raw) as [s|].
  - intros [= <-]. split; [lia|done].
  - destruct (date raw) as [t|]; [|done]. destruct (t - now <? 0) eqn:E; [done|].
    intros [= <-]. split; [lia|]. exists t. split; [done|]. b2p. split; [lia|]. unfold secs, NS in *.
    pose proof (Z.div_mod (t - now) 1000000000 ltac:(lia)).
    pose proof (Z.mod_pos_bound (t - now) 1000000000 ltac:(lia)).
    destruct (0 <? (t - now) mod 1000000000) eqn:Em; b2p; intros Hlt;
      rewrite Z.min_l by (destruct (Z.min_spec ((( t - now) / 1000000000 + 1) * 1000000000) MAX_RETRY_AFTER); lia); lia.
Qed.

(** ** Witnesses *)

Definition ex_scale (d : Z) : Z := d / 4.
Lemma ex_scale_ok : scale_ok ex_scale.
Proof.
  intros d Hd. unfold ex_scale. pose proof (Z.div_mod d 4 ltac:(lia)). pose proof (Z.mod_pos_bound d 4 ltac:(lia)).
  pose proof (Z.div_mod d 2 ltac:(lia)). pose proof (Z.mod_pos_bound d 2 ltac:(lia)). lia.
Qed.
Definition ex_backoff : Backoff := backoff_new (secs 2) (secs 60).
Lemma ex_backoff_wf : backoff_wf ex_backoff.
Proof. vm_compute. repeat split; congruence. Qed.

Lemma backoff_delay_bounds_witness :
  let '(b', d) := next_delay ex_scale ex_backoff in step ex_backoff / 2 <= d <= secs 60 + 1.
Proof.
  pose proof (backoff_delay_bounds ex_scale ex_backoff ex_scale_ok ex_backoff_wf) as H.
  destruct (next_delay ex_scale ex_backoff) as [b' d]. exact (proj1 (proj2 H)).
Defined.

Lemma retry_after_is_floor_witness :
  exists w, check_at (record_success (record_failure_at ex_scale (gate_new (secs 2) (secs 60)) 10
                       (Some (secs 30))) 20) 100 = Err w /\ 0 < w.
Proof.
  refine (retry_after_is_floor (secs 2) (secs 60) ex_scale (gate_new (secs 2) (secs 60)) 0 10 (secs 30)
    _ 20 100 _ _ _ _ _); [apply run_nil|lia| |lia|vm_compute; reflexivity].
  apply (run_op _ _ _ 10 20 Success); [apply run_nil|lia|]. intros ra sc E. discriminate E.
Defined.

Lemma gate_reopens_witness :
  check_at (record_failure_at ex_scale (gate_new (secs 2) (secs 60)) 10 (Some (secs 30))) (secs 3601) = Ok tt.
Proof.
  refine (gate_reopens (secs 2) (secs 60) _ 10 (secs 3601) _ _ _ _).
  - vm_compute. split; congruence.
  - vm_compute. congruence.
  - apply (run_op _ _ _ 0 10 (Failure (Some (secs 30)) ex_scale)); [apply run_nil|lia|].
    intros ra sc [= <- <-]. split; [apply ex_scale_ok|]. vm_compute. split; congruence.
  - vm_compute. congruence.
Defined.

Definition ex_wake : Wakeups :=
  {| jobs := false; authorizations := false; leases := false; healthy := true; notified := false |}.

Lemma events_not_lost_witness :
  exists s' w' d, due (schedule_new 100 50) 10 (fold_left wake_apply [Healthy true] (mark ex_wake ["jobs"]))
    = (s', w', d) /\ claim d = true /\ due_leases d = false.
Proof.
  destruct (due (schedule_new 100 50) 10 (fold_left wake_apply [Healthy true] (mark ex_wake ["jobs"])))
    as [[s' w'] d] eqn:E.
  exists s', w', d. split; [reflexivity|]. split.
  - refine (proj1 (events_not_lost _ _ ["jobs"] [Healthy true] _ _ _ _ E) _). simpl. auto.
  - vm_compute in E. injection E as <- <- <-. reflexivity.
Defined.

Lemma event_loop_sleeps_witness :
  secs 30 <= snd (loop_step production (fun d => d) ex_scale 0
    {| cursor := None; loop_backoff := ex_backoff; wake := ex_wake |} (Superseded (Some (secs 30)))).
Proof.
  destruct (loop_step production (fun d => d) ex_scale 0
    {| cursor := None; loop_backoff := ex_backoff; wake := ex_wake |} (Superseded (Some (secs 30))))
    as [s' d] eqn:E.
  refine (proj2 (proj2 (proj2 (event_loop_sleeps production (fun d => d) ex_scale 0
    {| cursor := None; loop_backoff := ex_backoff; wake := ex_wake |} (Superseded (Some (secs 30))) s' d
    ex_scale_ok ex_backoff_wf _ E)))).
  vm_compute. congruence.
Defined.

Lemma retry_after_honoured_witness :
  parse_retry_after_at (fun _ => None) (Some "9999999") 0 = Some MAX_RETRY_AFTER
  /\ MAX_RETRY_AFTER <= MAX_RETRY_AFTER.
Proof.
  split; [vm_compute; reflexivity|].
  refine (proj1 (retry_after_honoured (fun _ => None) "9999999" 0 MAX_RETRY_AFTER _)). vm_compute. reflexivity.
Defined.

End Pacing.
