(* ===== verification/WorkerClient.v ===== *)
(** * apps/provisioning-agent: worker_client.rs

    The HTTP client of the control plane: one request and one reading of the
    answer per call, the shared gate around the polling calls, and the tasks of
    the agent that use it concurrently.  An exchange is an argument: what the
    send returned, when its outcome was recorded and what the jitter of that
    moment was.  [serde] decoders of response bodies are parameters. *)

From S2P Require Import Prelude Strs Json ReportQueue Jobs Pacing.
From Stdlib Require Import Ascii.

Module WorkerClient.
Import Pacing.

Inductive api_error :=
| Gated (remaining : Z)
| SendFailed
| Status (what : string) (status : Z) (retry_after : option Z)
| BadBody
| NoReason
| NoConfig
| ReportRefused (status : Z).

Inductive ReportDisposition := Accepted | Terminal.
Inductive AuthorizationsFetch (V : Type) := NotModified | Fresh (body : V) (etag : option string).
Arguments NotModified {V}.
Arguments Fresh {V}.

Definition is_success (status : Z) : bool := (200 <=? status) && (status <=? 299).
Definition is_server_error (status : Z) : bool := (500 <=? status) && (status <=? 599).
Definition NOT_MODIFIED : Z := 304.

Section Client.
Context {V : Type} `{HJ : JsonOps V}.
Context (jis_null : V -> bool) (date : string -> option Z).
Context (decode_claim : V -> option (option (Jobs.Job V))).
(** [EventsBody]: reason, changed, cursor. *)
Context (decode_events : V -> option (string * list string * string)).
Context (base_url api_key : string).

(** [retry_header]: the trimmed [Retry-After]; [body]: the body as JSON. *)
Record Response := { status : Z; retry_header : option string; etag_header : option string; body : option V }.
(** [answer = None]: the request failed.  [wall] is the wall clock. *)
Record Exchange := { answer : option Response; done_at : Z; wall : Z; scale : Z -> Z }.

Definition parse_retry_after (x : Exchange) (res : Response) : option Z := parse_retry_after_at date (retry_header res) (wall x).

(** ** Through the gate *)

Definition polling_finish (what : string) (g : GateState) (x : Exchange) : GateState * result Response api_error :=
  match answer x with
  | None => (record_failure_at (scale x) g (done_at x) None, Err SendFailed)
  | Some res =>
      if is_success (status res) || (status res =? NOT_MODIFIED) then (record_success g (done_at x), Ok res) else
      let retry_after := parse_retry_after x res in
      (record_failure_at (scale x) g (done_at x) retry_after, Err (Status what (status res) retry_after))
  end.
Definition polling (what : string) (g : GateState) (now : Z) (x : Exchange) : GateState * result Response api_error :=
  match check_at g now with
  | Err remaining => (g, Err (Gated remaining))
  | Ok _ => polling_finish what g x
  end.

Definition observe (g : GateState) (x : Exchange) (res : Response) : GateState :=
  if is_success (status res) then record_success g (done_at x)
  else if (status res =? 429) || is_server_error (status res) then record_failure_at (scale x) g (done_at x) (parse_retry_after x res)
  else g.

(** ** The calls *)

Definition json (res : Response) : result V api_error := ok_or (body res) BadBody.

Definition claim (g : GateState) (now : Z) (x : Exchange) : GateState * result (option (Jobs.Job V)) api_error :=
  let '(g, r) := polling "POST /api/agent/claim" g now x in
  (g, let? res := r in let? v := json res in ok_or (decode_claim v) BadBody).

(** [complete] and [fail] read the answer alike. *)
Definition report (g : GateState) (x : Exchange) : GateState * result ReportDisposition api_error :=
  match answer x with
  | None => (g, Err SendFailed)
  | Some res =>
      (observe g x res,
       if is_success (status res) then Ok Accepted
       else if existsb (Z.eqb (status res)) [401; 403; 404; 409; 410] then Ok Terminal
       else Err (ReportRefused (status res)))
  end.
Definition complete (g : GateState) (x : Exchange) : GateState * result ReportDisposition api_error := report g x.
Definition fail (g : GateState) (x : Exchange) : GateState * result ReportDisposition api_error := report g x.

Definition unit_reply (r : result Response api_error) : result unit api_error := let? _ := r in Ok tt.
Definition heartbeat (g : GateState) (now : Z) (x : Exchange) : GateState * result unit api_error :=
  let '(g, r) := polling "POST /api/agent/heartbeat" g now x in (g, unit_reply r).
Definition report_traffic (g : GateState) (now : Z) (x : Exchange) : GateState * result unit api_error :=
  let '(g, r) := polling "POST /api/agent/traffic" g now x in (g, unit_reply r).
Definition ack_external_authorizations (g : GateState) (now : Z) (x : Exchange) : GateState * result unit api_error :=
  let '(g, r) := polling "POST /api/agent/authorizations acknowledgement" g now x in (g, unit_reply r).

Definition fetch_revision_config (g : GateState) (x : Exchange) : GateState * result V api_error :=
  match answer x with
  | None => (g, Err SendFailed)
  | Some res =>
      (observe g x res,
       if negb (is_success (status res)) then Err (ReportRefused (status res)) else
       let? v := json res in
       match jget v "config" with
       | Some config => if jis_null config then Err NoConfig else Ok config
       | None => Err NoConfig
       end)
  end.

Definition sync_leases (g : GateState) (now : Z) (x : Exchange) : GateState * result V api_error :=
  let '(g, r) := polling "POST /api/agent/leases/sync" g now x in (g, let? res := r in json res).

Definition fetch_authorizations_conditional (g : GateState) (now : Z) (x : Exchange)
  : GateState * result (AuthorizationsFetch V) api_error :=
  let '(g, r) := polling "GET /api/agent/authorizations" g now x in
  (g, let? res := r in
      if status res =? NOT_MODIFIED then Ok NotModified else
      let? v := json res in Ok (Fresh v (etag_header res))).

Definition wait_events_finish (g : GateState) (x : Exchange) : GateState * result EventsOutcome api_error :=
  match answer x with
  | None => (record_failure_at (scale x) g (done_at x) None, Err SendFailed)
  | Some res =>
      if is_success (status res) then
        match body res with
        | None => (g, Err BadBody)
        | Some v =>
            match decode_events v with
            | None => (g, Err BadBody)
            | Some (reason, changed, cursor) =>
                if str_is_empty reason then (g, Err NoReason)
                else (record_success g (done_at x), Ok (Event reason changed cursor))
            end
        end
      else if existsb (Z.eqb (status res)) [501; 404; 405] then (g, Ok Unavailable)
      else if status res =? 409 then (g, Ok (Superseded (parse_retry_after x res)))
      else let retry_after := parse_retry_after x res in
           (record_failure_at (scale x) g (done_at x) retry_after, Err (Status "GET /api/agent/events" (status res) retry_after))
  end.
Definition wait_events (g : GateState) (now : Z) (x : Exchange) : GateState * result EventsOutcome api_error :=
  match check_at g now with
  | Err remaining => (g, Err (Gated remaining))
  | Ok _ => wait_events_finish g x
  end.

(** What the event loop makes of it. *)
Definition loop_outcome (r : result EventsOutcome api_error) : EventsOutcome :=
  match r with
  | Ok o => o
  | Err (Gated remaining) => GatedError remaining
  | Err _ => OtherError
  end.

(** What the report queue makes of a report. *)
Definition queue_disposition (r : result ReportDisposition api_error) : ReportQueue.Disposition :=
  match r with
  | Ok Accepted => ReportQueue.Accepted
  | Ok Terminal => ReportQueue.Terminal
  | Err _ => ReportQueue.DeliveryError
  end.

(** ** The requests *)

Inductive Call :=
| Claim
| Complete (job_id : Z) (claim_token : string) (res : V)
| FailJob (job_id : Z) (claim_token error : string)
| Heartbeat (payload : V)
| FetchRevision (revision : Z)
| ReportTraffic (bytes_up bytes_down connections_open : Z) (sampled_at : string)
| SyncLeases (payload : V)
| FetchAuthorizations (etag : option string)
| WaitEvents (cursor : option string) (wait_secs : Z)
| AckAuthorizations (snapshot_revision : Z)
| PublishCredential (reality_uri hysteria2_uri : option string)
| FetchTargets.

Record Request := {
  post : bool; url : string; query : list (string * string); bearer : string; if_none_match : option string; payload : option V }.

Definition request (p : bool) (path : string) (q : list (string * string)) (inm : option string) (body : option V) : Request :=
  {| post := p; url := base_url +:+ path; query := q; bearer := api_key; if_none_match := inm; payload := body |}.
Definition jopt (o : option string) : V := match o with Some s => jstr s | None => jnull end.

Definition request_of (c : Call) : Request :=
  match c with
  | Claim => request true "/api/agent/claim" [] None None
  | Complete id token res =>
      request true ("/api/agent/jobs/" +:+ i64_to_string id +:+ "/complete") [] None (Some (jobj [("claim_token", jstr token); ("result", res)]))
  | FailJob id token error =>
      request true ("/api/agent/jobs/" +:+ i64_to_string id +:+ "/fail") [] None (Some (jobj [("claim_token", jstr token); ("error", jstr error)]))
  | Heartbeat payload => request true "/api/agent/heartbeat" [] None (Some payload)
  | FetchRevision revision => request false ("/api/agent/revision/" +:+ u64_to_string revision) [] None None
  | ReportTraffic up down open at_ =>
      request true "/api/agent/traffic" [] None
        (Some (jobj [("bytes_up", jint up); ("bytes_down", jint down); ("connections_open", jint open); ("sampled_at", jstr at_)]))
  | SyncLeases payload => request true "/api/agent/leases/sync" [] None (Some payload)
  | FetchAuthorizations etag => request false "/api/agent/authorizations" [("schema", "2")] etag None
  | WaitEvents cursor wait =>
      request false "/api/agent/events" (("wait", u64_to_string wait) :: match cursor with Some c => [("cursor", c)] | None => [] end) None None
  | AckAuthorizations revision =>
      request true "/api/agent/authorizations" [("schema", "2")] None
        (Some (jobj [("schema_version", jint 2); ("snapshot_revision", jint revision)]))
  | PublishCredential r h => request true "/api/agent/probe-credential" [] None (Some (jobj [("reality_uri", jopt r); ("hysteria2_uri", jopt h)]))
  | FetchTargets => request false "/api/agent/probe-targets" [] None None
  end.

(** ** The tasks of the agent

    main.rs spawns the event loop, the report queue and the prober; the rest
    runs in the main loop.  Each task awaits one call at a time. *)

Inductive Task := MainLoop | EventLoop | ReportLoop | ProbeLoop.
Definition task_of (c : Call) : Task :=
  match c with
  | Complete _ _ _ | FailJob _ _ _ => ReportLoop
  | WaitEvents _ _ => EventLoop
  | PublishCredential _ _ | FetchTargets => ProbeLoop
  | _ => MainLoop
  end.
(** The calls that ask the gate first. *)
Definition gated (c : Call) : bool :=
  match c with Complete _ _ _ | FailJob _ _ _ | FetchRevision _ | PublishCredential _ _ | FetchTargets => false | _ => true end.

(** The gate after the answer to a call. *)
Definition finish_gate (c : Call) (g : GateState) (x : Exchange) : GateState :=
  match c with
  | Complete _ _ _ | FailJob _ _ _ => fst (report g x)
  | FetchRevision _ => fst (fetch_revision_config g x)
  | WaitEvents _ _ => fst (wait_events_finish g x)
  | PublishCredential _ _ | FetchTargets => g
  | Claim | Heartbeat _ | ReportTraffic _ _ _ _ | SyncLeases _ | FetchAuthorizations _ | AckAuthorizations _ => fst (polling_finish EmptyString g x)
  end.

(** What it recorded there. *)
Definition feed (c : Call) (x : Exchange) : option gate_op :=
  let failure ra := Some (Failure ra (scale x)) in
  match answer x with
  | None => if gated c then failure None else None
  | Some res =>
      let ra := parse_retry_after x res in
      match task_of c with
      | ProbeLoop => None
      | EventLoop =>
          if is_success (status res)
          then match body res with
               | Some v => match decode_events v with Some (reason, _, _) => if str_is_empty reason then None else Some Success | None => None end
               | None => None
               end
          else if existsb (Z.eqb (status res)) [501; 404; 405; 409] then None else failure ra
      | _ =>
          if gated c then (if is_success (status res) || (status res =? NOT_MODIFIED) then Some Success else failure ra)
          else if is_success (status res) then Some Success
          else if (status res =? 429) || is_server_error (status res) then failure ra else None
      end
  end.

Record CState := { gate : GateState; clock : Z; in_flight : list Call }.
Inductive label := Sent (now : Z) (c : Call) | Refused (now : Z) (c : Call) | Done (now : Z) (c : Call) (o : option gate_op).

(** Calls of the tasks, in the order in which they reach the gate. *)
Inductive cstep : CState -> label -> CState -> Prop :=
| c_send s c now : clock s <= now -> Forall (fun d => task_of d <> task_of c) (in_flight s) ->
    (gated c = true -> check_at (gate s) now = Ok tt) ->
    cstep s (Sent now c) {| gate := gate s; clock := now; in_flight := c :: in_flight s |}
| c_refuse s c now w : clock s <= now -> Forall (fun d => task_of d <> task_of c) (in_flight s) ->
    gated c = true -> check_at (gate s) now = Err w ->
    cstep s (Refused now c) {| gate := gate s; clock := now; in_flight := in_flight s |}
| c_done s pre c suf x : in_flight s = pre ++ c :: suf -> clock s <= done_at x -> scale_ok (scale x) ->
    cstep s (Done (done_at x) c (feed c x)) {| gate := finish_gate c (gate s) x; clock := done_at x; in_flight := pre ++ suf |}.

Inductive crun : CState -> list label -> CState -> Prop :=
| crun_nil s : crun s [] s
| crun_cons s l s' tr s'' : cstep s l s' -> crun s' tr s'' -> crun s (l :: tr) s''.

Definition c_init (base cap start : Z) : CState := {| gate := gate_new base cap; clock := start; in_flight := [] |}.

(** ** The gate follows what is fed *)

Lemma finish_gate_feeds c g x :
  finish_gate c g x = match feed c x with Some o => gate_apply g (done_at x) o | None => g end.
Proof.
  assert (Hp : forall what, fst (polling_finish what g x) =
    match (match answer x with
           | None => Some (Failure None (scale x))
           | Some res => if is_success (status res) || (status res =? NOT_MODIFIED) then Some Success
                         else Some (Failure (parse_retry_after x res) (scale x)) end)
    with Some o => gate_apply g (done_at x) o | None => g end).
  { intros what. unfold polling_finish. destruct (answer x) as [res|]; [|done]. by destruct (_ || _). }
  assert (Hr : forall res, observe g x res =
    match (if is_success (status res) then Some Success
           else if (status res =? 429) || is_server_error (status res) then Some (Failure (parse_retry_after x res) (scale x)) else None)
    with Some o => gate_apply g (done_at x) o | None => g end).
  { intros res. unfold observe. destruct (is_success _); [done|]. by destruct (_ || _). }
  destruct c; unfold feed; cbn [finish_gate gated task_of]; try (rewrite Hp; by destruct (answer x));
    try (unfold report, fetch_revision_config; destruct (answer x) as [rsp|]; [apply Hr|done]); try (by destruct (answer x)).
  unfold wait_events_finish. destruct (answer x) as [res|]; [|done].
  destruct (is_success (status res)).
  - destruct (body res) as [v|]; [|done]. destruct (decode_events v) as [[[reason ch] cur]|]; [|done]. by destruct (str_is_empty reason).
  - cbn [existsb]. destruct (status res =? 501), (status res =? 404), (status res =? 405), (status res =? 409); done.
Qed.

Lemma cstep_clock s l s' : cstep s l s' -> clock s <= clock s'.
Proof. by destruct 1. Qed.

(** The time of a label. *)
Definition label_time (l : label) : Z := match l with Sent t _ | Refused t _ | Done t _ _ => t end.
Lemma cstep_time s l s' : cstep s l s' -> clock s' = label_time l.
Proof. by destruct 1. Qed.

(** A step changes the gate by what its label says. *)
Definition label_op (l : label) : option gate_op := match l with Done _ _ o => o | _ => None end.
Lemma cstep_gate s l s' : cstep s l s' ->
  gate s' = match label_op l with Some o => gate_apply (gate s) (clock s') o | None => gate s end.
Proof. destruct 1; simpl; [done|done|]. by rewrite finish_gate_feeds. Qed.

Lemma crun_app s tr s1 tr' s2 : crun s tr s1 -> crun s1 tr' s2 -> crun s (tr ++ tr') s2.
Proof. induction 1; [done|]. intros H2. simpl. econstructor; eauto. Qed.
Lemma crun_split tr : forall tr' s s2, crun s (tr ++ tr') s2 -> exists s1, crun s tr s1 /\ crun s1 tr' s2.
Proof.
  induction tr as [|l tr IH]; intros tr' s s2 H; [exists s; split; [constructor|done]|].
  simpl in H. inversion H as [|? ? s1 ? ? Hs Hr]; subst. destruct (IH _ _ _ Hr) as (s3 & H1 & H2).
  exists s3. split; [by econstructor|done].
Qed.
Lemma crun_clock s tr s' : crun s tr s' -> clock s <= clock s'.
Proof. induction 1 as [|s l s1 tr s2 Hs _ IH]; [lia|]. apply cstep_clock in Hs. lia. Qed.

(** A sent request found the gate open. *)
Lemma sent_open s now c s' b : cstep s (Sent now c) s' -> gated c = true -> blocked_until (gate s) = Some b -> b <= now.
Proof.
  intros Hs Hg Hb. inversion Hs as [? ? ? Hc Hf Hok| |]; subst. specialize (Hok Hg). unfold check_at in Hok.
  rewrite Hb in Hok. destruct (now <? b) eqn:E; [discriminate|]. lia.
Qed.

(** ** The server's minimum *)

Lemma gate_inv_later m c g now : gate_inv m c g -> c <= now -> gate_inv m now g.
Proof.
  intros [H1 H2] Hc. split; [done|]. intros s Hs. destruct (H2 s Hs) as [H|H]; [left; lia|by right].
Qed.

Lemma cstep_gate_inv m s l s' : cstep s l s' -> gate_inv m (clock s) (gate s) -> gate_inv m (clock s') (gate s').
Proof.
  intros Hs Hi. pose proof (cstep_clock _ _ _ Hs) as Hc. rewrite (cstep_gate _ _ _ Hs).
  destruct (label_op l); [by eapply gate_apply_inv|by eapply gate_inv_later].
Qed.

Lemma cstep_enforced s l s' : cstep s l s' -> minimum_enforced (clock s) (gate s) -> minimum_enforced (clock s') (gate s').
Proof.
  intros Hs Hi. pose proof (cstep_clock _ _ _ Hs) as Hc. rewrite (cstep_gate _ _ _ Hs).
  destruct (label_op l); [by eapply minimum_enforced_step|]. intros x Hx. destruct (Hi x Hx) as [H|H]; [left; lia|by right].
Qed.
Lemma crun_enforced s tr s' : crun s tr s' -> minimum_enforced (clock s) (gate s) -> minimum_enforced (clock s') (gate s').
Proof. induction 1; [done|]. intros Hi. eauto using cstep_enforced. Qed.

(** The sends of a run after a minimum was set. *)
Lemma minimum_floor m s tr s' : crun s tr s' -> gate_inv m (clock s) (gate s) ->
  forall u c, In (Sent u c) tr -> gated c = true -> m <= u.
Proof.
  induction 1 as [|s l s1 tr s2 Hs Hr IH]; intros Hi u c Hin Hg; [done|].
  destruct Hin as [->|Hin]; [|eapply IH; eauto using cstep_gate_inv].
  pose proof (cstep_clock _ _ _ Hs) as Hc. pose proof (cstep_time _ _ _ Hs) as Ht. simpl in Ht.
  destruct Hi as [(x & Hx & Hm) He]. destruct (He x Hx) as [H|(b & Hb & Hle)]; [lia|].
  pose proof (sent_open _ _ _ _ _ Hs Hg Hb). lia.
Qed.

(** A Retry-After of the control plane holds for every task.  Whatever the
    agent did before, and however the calls of the main loop, the event loop,
    the report queue and the prober interleave afterwards, successes of calls
    already in flight included: after an answer that carried a Retry-After of
    [r] was recorded at [t], no call that goes through the gate leaves the node
    before [t + r]. *)
Theorem server_minimum_respected base cap start tr0 s t c r sc s1 tr s2 :
  crun (c_init base cap start) tr0 s -> cstep s (Done t c (Some (Failure (Some r) sc))) s1 -> crun s1 tr s2 ->
  forall u c', In (Sent u c') tr -> gated c' = true -> t + r <= u.
Proof.
  intros H0 Hd Hr. eapply minimum_floor; [exact Hr|].
  assert (He : minimum_enforced (clock s) (gate s)) by (eapply crun_enforced; [exact H0|by intros x]).
  rewrite (cstep_gate _ _ _ Hd). simpl. rewrite <- (cstep_time _ _ _ Hd : clock s1 = t).
  eapply failure_inv; [exact He|]. by eapply cstep_clock.
Qed.

(** ** The rate during an outage *)

(** Every answer to a call through the gate is recorded as a failure, and no
    call at all, job reports included, is recorded as a success. *)
Definition failing (l : label) : Prop :=
  match l with
  | Done _ c None => gated c = false
  | Done _ _ (Some Success) => False
  | _ => True
  end.
Definition gated_send (l : label) : option Z := match l with Sent u c => if gated c then Some u else None | _ => None end.
Definition sends (tr : list label) : list Z := omap gated_send tr.

Definition spacing (s : CState) : Z := step (backoff (gate s)) / 2.

(** The backoff only grows while nothing succeeds. *)
Record outage_inv (d : Z) (s : CState) : Prop := { oi_wf : backoff_wf (backoff (gate s)); oi_step : d <= spacing s }.

Lemma failure_outage d s l s' : cstep s l s' -> failing l -> outage_inv d s ->
  outage_inv d s' /\
  (forall b, blocked_until (gate s) = Some b -> exists b', blocked_until (gate s') = Some b' /\ b <= b') /\
  (forall c o, l = Done (label_time l) c o -> gated c = true -> exists b', blocked_until (gate s') = Some b' /\ clock s' + d <= b').
Proof.
  intros Hs Hf [Hw Hd]. pose proof (cstep_gate _ _ _ Hs) as Hg.
  destruct (label_op l) as [[|ra sc]|] eqn:El.
  - destruct l as [| |? ? [[]|]]; simpl in *; done.
  - assert (Hsc : scale_ok sc).
    { inversion Hs; subst; simpl in El; try discriminate. match goal with H : scale_ok _ |- _ => revert H end.
      revert El. clear. unfold feed. intros El Hx.
      repeat match type of El with context [match ?e with _ => _ end] => destruct e end; try discriminate; by injection El as <- <-. }
    pose proof (next_delay_spec sc _ Hsc Hw) as Hn. pose proof (backoff_delay_bounds sc _ Hsc Hw) as Hb.
    unfold spacing in *. cbn [gate_apply] in Hg. unfold record_failure_at in Hg. destruct (next_delay sc (backoff (gate s))) as [b own].
    destruct Hn as (Hw' & Hown & _), Hb as (_ & _ & Hmono & _). split; [|split].
    + split; unfold spacing; rewrite Hg; cbn [backoff]; [done|].
      assert (step (backoff (gate s)) / 2 <= step b / 2) by (apply Z.div_le_mono; lia). lia.
    + intros b0 Hb0. rewrite Hg. cbn [blocked_until]. eexists. split; [done|]. rewrite Hb0. simpl. lia.
    + intros c o _ _. rewrite Hg. cbn [blocked_until]. eexists. split; [done|].
      destruct (blocked_until (gate s)); simpl; destruct ra; lia.
  - split; [split; unfold spacing; by rewrite Hg|]. split; [intros b Hb; exists b; rewrite Hg; split; [done|lia]|].
    intros c o El' Hgc. rewrite El' in El, Hf. simpl in El. subst o. simpl in Hf. congruence.
Qed.

(** A wait that began stays, and holds back every later send. *)
Lemma blocked_floor d m s tr s' : crun s tr s' -> Forall failing tr -> outage_inv d s ->
  (exists b, blocked_until (gate s) = Some b /\ m <= b) ->
  forall u c, In (Sent u c) tr -> gated c = true -> m <= u.
Proof.
  induction 1 as [|s l s1 tr s2 Hs Hr IH]; intros Hf Ho (b & Hb & Hm) u c Hin Hg; [done|].
  inversion Hf as [|? ? Hl Hf']; subst. destruct (failure_outage _ _ _ _ Hs Hl Ho) as (Ho' & Hk & _).
  destruct Hin as [->|Hin]; [pose proof (sent_open _ _ _ _ _ Hs Hg Hb); lia|].
  destruct (Hk b Hb) as (b' & Hb' & Hle). eapply IH; eauto. exists b'. split; [done|lia].
Qed.

Lemma crun_outage d s tr s' : crun s tr s' -> Forall failing tr -> outage_inv d s -> outage_inv d s'.
Proof.
  induction 1 as [|s l s1 tr s2 Hs Hr IH]; intros Hf Ho; [done|]. inversion Hf as [|? ? Hl Hf']; subst.
  apply IH; [done|]. by eapply failure_outage.
Qed.

(** A call in flight stays so until it is answered. *)
Lemma still_in_flight s tr s' c : crun s tr s' -> In c (in_flight s) ->
  In c (in_flight s') \/ exists tr1 t o tr2, tr = tr1 ++ Done t c o :: tr2.
Proof.
  induction 1 as [|s l s1 tr s2 Hs Hr IH]; intros Hin; [by left|].
  assert (Hn : In c (in_flight s1) \/ exists t o, l = Done t c o).
  { inversion Hs as [| |? pre c0 suf x Hfl Hc Hsc]; subst; simpl; [tauto|tauto|].
    rewrite Hfl in Hin. apply in_app_or in Hin as [H|[->|H]]; [left; apply in_or_app; auto|right; eauto|left; apply in_or_app; auto]. }
  destruct Hn as [Hn|(t & o & ->)]; [|right; exists [], t, o, tr; done].
  destruct (IH Hn) as [H|(tr1 & t & o & tr2 & ->)]; [by left|right; exists (l :: tr1), t, o, tr2; done].
Qed.

Lemma gated_tasks c : gated c = true -> task_of c = MainLoop \/ task_of c = EventLoop.
Proof. destruct c; simpl; auto; discriminate. Qed.

(** Between two calls of one task the first is answered, and a failure keeps
    the second back. *)
Lemma pair_spaced d s a c1 tr b c2 s' :
  crun s (Sent a c1 :: tr ++ [Sent b c2]) s' -> Forall failing tr -> outage_inv d s ->
  gated c1 = true -> gated c2 = true -> task_of c1 = task_of c2 -> a + d <= b.
Proof.
  intros Hr Hf Ho H1 H2 Ht. inversion Hr as [|? ? s1 ? ? Hs Hr1]; subst.
  destruct (failure_outage _ _ _ _ Hs (I : failing (Sent a c1)) Ho) as (Ho1 & _).
  destruct (crun_split _ _ _ _ Hr1) as (s2 & Hr2 & Hl). inversion Hl as [|? ? s3 ? ? Hs3 _]; subst.
  assert (Hin : In c1 (in_flight s1)) by (inversion Hs; subst; by left).
  destruct (still_in_flight _ _ _ _ Hr2 Hin) as [Hin2|(tr1 & t & o & tr2 & ->)].
  { exfalso. inversion Hs3 as [? ? ? _ Hfl _| |]; subst. rewrite List.Forall_forall in Hfl. by apply (Hfl c1). }
  apply Forall_app in Hf as [Hf1 Hf2]. inversion Hf2 as [|? ? Hfd Hf3]; subst.
  rewrite <- app_assoc in Hr1. destruct (crun_split _ _ _ _ Hr1) as (s4 & Hr4 & Hr5).
  inversion Hr5 as [|? ? s5 ? ? Hs5 Hr6]; subst. pose proof (crun_outage _ _ _ _ Hr4 Hf1 Ho1) as Ho4.
  destruct (failure_outage _ _ _ _ Hs5 Hfd Ho4) as (Ho5 & _ & Hb). destruct (Hb c1 o eq_refl H1) as (b' & Hb' & Hle).
  pose proof (crun_clock _ _ _ Hr4). pose proof (cstep_clock _ _ _ Hs5). pose proof (cstep_time _ _ _ Hs) as Hta. simpl in Hta.
  assert (clock s5 + d <= b); [|lia].
  eapply (blocked_floor d); [exact Hr6| |exact Ho5|eauto|apply in_or_app; right; by left|done].
  apply Forall_app. split; [done|]. by constructor.
Qed.

Lemma three_spaced d s a c1 tr1 m c2 tr2 b c3 s' :
  crun s (Sent a c1 :: tr1 ++ Sent m c2 :: tr2 ++ [Sent b c3]) s' -> Forall failing tr1 -> Forall failing tr2 -> outage_inv d s ->
  gated c1 = true -> gated c2 = true -> gated c3 = true -> a + d <= b.
Proof.
  intros Hr Hf1 Hf2 Ho H1 H2 H3.
  assert (Hmid : exists s1, crun s1 (Sent m c2 :: tr2 ++ [Sent b c3]) s' /\ outage_inv d s1 /\ a <= clock s1).
  { change (crun s ((Sent a c1 :: tr1) ++ Sent m c2 :: tr2 ++ [Sent b c3]) s') in Hr.
    destruct (crun_split _ _ _ _ Hr) as (s1 & Ha & Hb). exists s1. split; [done|]. split.
    - eapply crun_outage; [exact Ha| |done]. by constructor.
    - inversion Ha as [|? ? s0 ? ? Hs Hr0]; subst. apply crun_clock in Hr0. apply cstep_time in Hs. simpl in Hs. lia. }
  destruct Hmid as (s1 & Hr1 & Ho1 & Ha).
  assert (Hm : a <= m /\ m <= b).
  { inversion Hr1 as [|? ? s2 ? ? Hs Hr2]; subst. destruct (crun_split _ _ _ _ Hr2) as (s3 & Hr3 & Hl).
    inversion Hl as [|? ? s4 ? ? Hs4 _]; subst. apply crun_clock in Hr3.
    pose proof (cstep_clock _ _ _ Hs). pose proof (cstep_time _ _ _ Hs) as E. pose proof (cstep_clock _ _ _ Hs4). pose proof (cstep_time _ _ _ Hs4) as E4.
    simpl in *. lia. }
  assert (Hcase : task_of c1 = task_of c3 \/ task_of c1 = task_of c2 \/ task_of c2 = task_of c3).
  { destruct (gated_tasks c1 H1) as [-> | ->], (gated_tasks c2 H2) as [-> | ->], (gated_tasks c3 H3) as [-> | ->]; auto. }
  destruct Hcase as [Ht|[Ht|Ht]].
  - eapply (pair_spaced d s a c1 (tr1 ++ Sent m c2 :: tr2) b c3); eauto.
    + rewrite <- app_assoc. exact Hr.
    + apply Forall_app. split; [done|]. by constructor.
  - replace (tr1 ++ Sent m c2 :: tr2 ++ [Sent b c3]) with ((tr1 ++ [Sent m c2]) ++ tr2 ++ [Sent b c3]) in Hr by (by rewrite <- app_assoc).
    change (crun s ((Sent a c1 :: tr1 ++ [Sent m c2]) ++ tr2 ++ [Sent b c3]) s') in Hr.
    destruct (crun_split _ _ _ _ Hr) as (s2 & Hr2 & _). pose proof (pair_spaced _ _ _ _ _ _ _ _ Hr2 Hf1 Ho H1 H2 Ht). lia.
  - pose proof (pair_spaced _ _ _ _ _ _ _ _ Hr1 Hf2 Ho1 H2 H3 Ht). lia.
Qed.

(** The place of a send in a trace. *)
Lemma sends_split tr : forall i u, nth_error (sends tr) i = Some u ->
  exists tr1 c tr2, tr = tr1 ++ Sent u c :: tr2 /\ gated c = true /\ length (sends tr1) = i.
Proof.
  unfold sends. induction tr as [|l tr IH]; intros i u H; [by destruct i|]. cbn in H.
  destruct (gated_send l) as [v|] eqn:El.
  - destruct i as [|i]; simpl in H.
    + injection H as ->. destruct l as [now c| |]; simpl in El; try discriminate. destruct (gated c) eqn:Eg; [|discriminate].
      injection El as ->. exists [], c, tr. done.
    + destruct (IH _ _ H) as (tr1 & c & tr2 & -> & Hc & Hl). exists (l :: tr1), c, tr2. cbn. rewrite El. simpl. by rewrite Hl.
  - destruct (IH _ _ H) as (tr1 & c & tr2 & -> & Hc & Hl). exists (l :: tr1), c, tr2. cbn. by rewrite El.
Qed.
Lemma sends_app a b : sends (a ++ b) = sends a ++ sends b.
Proof. unfold sends. induction a as [|l a IH]; [done|]. cbn. rewrite IH. by destruct (gated_send l). Qed.

Lemma sends_at tr1 u c tr2 : gated c = true -> sends (tr1 ++ Sent u c :: tr2) = sends tr1 ++ u :: sends tr2.
Proof. intros Hc. rewrite sends_app. f_equal. unfold sends. cbn. by rewrite Hc. Qed.

Lemma two_later d s tr s' i a b :
  crun s tr s' -> Forall failing tr -> outage_inv d s ->
  nth_error (sends tr) i = Some a -> nth_error (sends tr) (S (S i)) = Some b -> a + d <= b.
Proof.
  intros Hr Hf Ho Ha Hb. destruct (sends_split _ _ _ Ha) as (tr1 & c1 & tr2 & -> & H1 & Hl1).
  rewrite sends_at, nth_error_app2, Hl1 in Hb by (done || lia). replace (S (S i) - i)%nat with 2%nat in Hb by lia. cbn [nth_error] in Hb.
  destruct (nth_error (sends tr2) 0) as [m|] eqn:Em; [|apply nth_error_None in Em; destruct (sends tr2); [done|simpl in Em; lia]].
  destruct (sends_split _ _ _ Em) as (tr3 & c2 & tr4 & -> & H2 & Hl2).
  assert (Hb' : nth_error (sends tr4) 0 = Some b).
  { rewrite sends_at in Hb by done. destruct (sends tr3); [exact Hb|discriminate Hl2]. }
  destruct (sends_split _ _ _ Hb') as (tr5 & c3 & tr6 & -> & H3 & _).
  apply Forall_app in Hf as [Hf1 Hf]. inversion Hf as [|? ? _ Hf2]; subst. apply Forall_app in Hf2 as [Hf3 Hf4].
  inversion Hf4 as [|? ? _ Hf5]; subst. apply Forall_app in Hf5 as [Hf6 _].
  destruct (crun_split _ _ _ _ Hr) as (s1 & Hr1 & Hr2).
  replace (Sent a c1 :: tr3 ++ Sent m c2 :: tr5 ++ Sent b c3 :: tr6) with ((Sent a c1 :: tr3 ++ Sent m c2 :: tr5 ++ [Sent b c3]) ++ tr6) in Hr2
    by (simpl; rewrite <- !app_assoc; simpl; by rewrite <- app_assoc).
  destruct (crun_split _ _ _ _ Hr2) as (s2 & Hr3 & _).
  eapply three_spaced; [exact Hr3|..]; try done. by eapply crun_outage.
Qed.

(** C29: A failing control plane is not hammered.  While every answer to a
    call through the gate counts as a failure (the answers by which the event
    channel is found unsupported or taken, and malformed ones, do not) and no
    call of the node, ungated job reports included, records a success, then
    however the tasks interleave and whatever Retry-After values and jitters
    occur, of any [2 k + 1] consecutive gated requests of the node the last
    leaves at least [k] times half the current backoff step after the first. *)
Theorem outage_rate_bounded s tr s' :
  backoff_wf (backoff (gate s)) -> crun s tr s' -> Forall failing tr ->
  forall k i a b, nth_error (sends tr) i = Some a -> nth_error (sends tr) (i + 2 * k) = Some b ->
  a + Z.of_nat k * spacing s <= b.
Proof.
  intros Hw Hr Hf k. assert (Ho : outage_inv (spacing s) s) by (split; [done|lia]).
  induction k as [|k IH]; intros i a b Ha Hb.
  - rewrite Nat.mul_0_r, Nat.add_0_r in Hb. rewrite Ha in Hb. injection Hb as ->. lia.
  - destruct (nth_error (sends tr) (i + 2 * k)) as [m|] eqn:Em.
    + pose proof (IH _ _ _ Ha Em). replace (i + 2 * S k)%nat with (S (S (i + 2 * k))) in Hb by lia.
      pose proof (two_later _ _ _ _ _ _ _ Hr Hf Ho Em Hb). lia.
    + apply nth_error_None in Em. assert (Hlt : (i + 2 * S k < length (sends tr))%nat) by (apply nth_error_Some; congruence). lia.
Qed.

(** ** The event loop on top of the client *)

(** An iteration of the event loop that asks at [now]; the result is when it
    asks again. *)
Definition event_iteration (t : Timing) (jit lscale : Z -> Z) (s : LoopState) (g : GateState) (now : Z) (x : Exchange)
  : LoopState * GateState * Z :=
  let '(g, r) := wait_events g now x in
  let answered := match r with Err (Gated _) => now | _ => done_at x end in
  let '(s, sleep) := loop_step t jit lscale (answered - now) s (loop_outcome r) in
  (s, g, answered + sleep).

Lemma base_le_step b : backoff_wf b -> base b <= step b.
Proof.
  intros Hw. rewrite step_eq by done. destruct Hw as ([Hb Hc] & _ & Hf).
  pose proof (Z.pow_le_mono_r 2 0 (Z.min (failures b) 20) ltac:(lia) ltac:(lia)) as Hp. change (2 ^ 0) with 1 in Hp. nia.
Qed.

(** The event channel is asked at most once a second whatever is answered,
    instant answers of a broken intermediary included; an iteration that found
    the gate closed sends nothing, hands the main loop back to polling and
    comes back only after the wait is over. *)
Theorem event_requests_spaced jit lscale s g now x s' g' next :
  (forall d, 0 <= d -> d * 3 / 4 - 1 <= jit d) -> scale_ok lscale -> now <= done_at x ->
  backoff_wf (loop_backoff s) -> base (loop_backoff s) = error_base production ->
  event_iteration production jit lscale s g now x = (s', g', next) ->
  (check_at g now = Ok tt -> now + secs 1 <= next) /\
  (forall w, check_at g now = Err w -> g' = g /\ now + w < next /\ healthy (wake s') = false).
Proof.
  intros Hj Hsc Hx Hw Hb H. unfold event_iteration, wait_events in H. destruct (check_at g now) as [[]|w] eqn:Ec.
  - split; [intros _|done]. destruct (wait_events_finish g x) as [g1 r] eqn:Er.
    assert (Ha : (match r with Err (Gated _) => now | _ => done_at x end) = done_at x /\
                 match loop_outcome r with GatedError _ => False | _ => True end).
    { unfold wait_events_finish in Er. repeat match type of Er with (match ?e with _ => _ end) = _ => destruct e end; by injection Er as <- <-. }
    destruct Ha as [Ea Ho]. cbv zeta in H. rewrite Ea in H. destruct (loop_step _ _ _ _ _ _) as [s1 d] eqn:El. injection H as <- <- <-.
    assert (Hm : 0 <= superseded_floor production) by (vm_compute; discriminate).
    destruct (event_loop_sleeps _ _ _ _ _ _ _ _ Hsc Hw Hm El) as (_ & _ & Hd).
    destruct (loop_outcome r) as [re ch cu| |ra| |]; [| | |done|].
    + cbn [loop_step] in El. injection El as <- <-. change (min_event_interval production) with (secs 1) in *.
      destruct (done_at x - now <? secs 1) eqn:E; b2p; lia.
    + subst d. assert (Hq := Hj (unavailable_sleep production) ltac:(vm_compute; discriminate)).
      change (unavailable_sleep production * 3 / 4 - 1) with (secs 450 - 1) in Hq. unfold secs, NS in *. lia.
    + destruct Hd as [Hd _]. change (superseded_floor production) with (secs 5) in Hd. unfold secs, NS in *. lia.
    + destruct Hd as [[Hd _] _]. pose proof (base_le_step _ Hw) as Hbs. rewrite Hb in Hbs. change (error_base production) with (secs 2) in Hbs.
      assert (secs 1 <= step (loop_backoff s) / 2) by (apply Z.div_le_lower_bound; unfold secs, NS in *; lia). lia.
  - split; [done|]. intros w' [= <-]. cbn [loop_outcome loop_step] in H. injection H as <- <- <-. cbn. split; [done|]. split; [lia|done].
Qed.
End Client.

(** ** Witnesses *)

Definition ex_exchange (t : Z) (retry : option string) : Exchange (V := Json.json) :=
  {| answer := Some {| status := 503; retry_header := retry; etag_header := None; body := None |}; done_at := t; wall := 0; scale := ex_scale |}.
Definition ex_null (v : Json.json) : bool := match v with JNull => true | _ => false end.
Definition no_date (s : string) : option Z := None.
Definition no_events (v : Json.json) : option (string * list string * string) := None.

Definition ex_start : CState (V := Json.json) := c_init (secs 2) (secs 60) 0.

(** One step of a run: a request sent, and an answer of 503. *)
Ltac ex_send c t :=
  eapply crun_cons; [apply (c_send ex_null no_date no_events _ c t); [vm_compute; discriminate|repeat constructor; discriminate|intros _; vm_compute; reflexivity]|].
Ltac ex_answer pre c suf t retry :=
  eapply crun_cons; [apply (c_done ex_null no_date no_events _ pre c suf (ex_exchange t retry)); [reflexivity|vm_compute; discriminate|apply ex_scale_ok]|].

Lemma outage_rate_bounded_witness :
  exists tr s', crun ex_null no_date no_events ex_start tr s' /\ sends tr = [0; 0; secs 100] /\ 0 + Z.of_nat 1 * spacing ex_start <= secs 100.
Proof.
  assert (H : exists tr s', crun ex_null no_date no_events ex_start tr s' /\ sends tr = [0; 0; secs 100] /\ Forall failing tr).
  { do 2 eexists. split; [|split].
    - ex_send (Claim (V := Json.json)) 0. ex_send (WaitEvents (V := Json.json) None 25) 0.
      ex_answer [WaitEvents (V := Json.json) None 25] (Claim (V := Json.json)) (@nil (Call (V := Json.json))) 1 (@None string).
      ex_answer (@nil (Call (V := Json.json))) (WaitEvents (V := Json.json) None 25) (@nil (Call (V := Json.json))) 2 (@None string).
      ex_send (Claim (V := Json.json)) (secs 100). apply crun_nil.
    - reflexivity.
    - repeat constructor. }
  destruct H as (tr & s' & Hr & Hs & Hf). exists tr, s'. split; [exact Hr|]. split; [exact Hs|].
  apply (outage_rate_bounded ex_null no_date no_events ex_start tr s') with (i := 0%nat); [|exact Hr|exact Hf|rewrite Hs; reflexivity|rewrite Hs; reflexivity].
  vm_compute. repeat split; congruence.
Defined.

(** A claim answered with a Retry-After of half a minute. *)
Lemma ex_refused :
  exists s s1, crun ex_null no_date no_events ex_start [Sent 0 Claim] s /\
    cstep ex_null no_date no_events s (Done 1 Claim (Some (Failure (Some (secs 30)) ex_scale))) s1 /\
    clock s1 = 1 /\ in_flight s1 = [] /\ gate s1 = record_failure_at ex_scale (gate_new (secs 2) (secs 60)) 1 (Some (secs 30)).
Proof.
  do 2 eexists. split; [ex_send (Claim (V := Json.json)) 0; apply crun_nil|].
  split; [apply (c_done ex_null no_date no_events _ [] Claim [] (ex_exchange 1 (Some "30"))); [reflexivity|vm_compute; discriminate|apply ex_scale_ok]|].
  repeat split.
Qed.

Lemma server_minimum_respected_witness :
  exists s1 tr s2, crun ex_null no_date no_events s1 tr s2 /\ In (Sent (secs 100) Claim) tr /\ 1 + secs 30 <= secs 100.
Proof.
  destruct ex_refused as (s & s1 & Hr & Hd & Hc & Hf & Hg). exists s1, [Sent (secs 100) Claim].
  assert (H : exists s2, crun ex_null no_date no_events s1 [Sent (secs 100) Claim] s2).
  { eexists. eapply crun_cons; [|apply crun_nil]. apply c_send; [rewrite Hc; vm_compute; discriminate|rewrite Hf; constructor|].
    intros _. rewrite Hg. vm_compute. reflexivity. }
  destruct H as (s2 & Hr2). exists s2. split; [exact Hr2|]. split; [by left|].
  refine (server_minimum_respected ex_null no_date no_events (secs 2) (secs 60) 0 _ s 1 Claim (secs 30) ex_scale s1 _ s2 Hr Hd Hr2 (secs 100) Claim _ _);
    [by left|reflexivity].
Defined.

(** The prober has a client of its own: while the control plane's Retry-After
    closes the gate, it keeps asking for targets. *)
Lemma prober_ignores_gate :
  exists s s' w, cstep ex_null no_date no_events s (Sent 2 FetchTargets) s' /\ check_at (gate s) 2 = Err w /\
    gate s = record_failure_at ex_scale (gate_new (secs 2) (secs 60)) 1 (Some (secs 30)).
Proof.
  destruct ex_refused as (s & s1 & Hr & Hd & Hc & Hf & Hg). exists s1. do 2 eexists.
  split; [apply c_send; [rewrite Hc; lia|rewrite Hf; constructor|discriminate]|]. split; [rewrite Hg; reflexivity|exact Hg].
Qed.

(** At the ceiling of a minute the gate can reopen after half of it: the jitter
    is taken off the step, not added to it. *)
Lemma capped_wait_is_half_the_cap :
  let no_jitter (d : Z) := 0 in
  let g := Nat.iter 10 (fun g => record_failure_at no_jitter g 0 None) (gate_new (secs 2) (secs 60)) in
  step (backoff g) = secs 60 /\ check_at (record_failure_at no_jitter g 0 None) (secs 30) = Ok tt.
Proof. vm_compute. done. Qed.
End WorkerClient.
