(* ===== verification/AgentLoop.v ===== *)
(** * apps/provisioning-agent: the main loop of main.rs

    One iteration of [main]'s loop composed from the components it drives: the
    schedule and the wake-ups of the event task, the lease pool, the external
    reconciler and the job pipeline; health_probe.rs and stats.rs, whose
    readings the heartbeat and the traffic report carry.  The answers of the
    control plane, of vpn-admin and of the file system are inputs of an
    iteration, as in the components.  The heartbeat's other measurements
    (telemetry.rs) are not modelled. *)

From S2P Require Import Prelude Strs Authorization Json LeasePool ExternalAuth OpDedup ReportQueue Jobs Pacing WorkerClient.

(** ** Readings of the local Clash API *)

Module LocalProbes.
Section Probes.
Context {V : Type} `{HJ : JsonOps V}.

Inductive probe_error := Unreachable | BadStatus (status : Z) | BadBody.

(** [answer]: what the request to the Clash API gave. *)
Definition run_probe (answer : option (WorkerClient.Response (V := V))) : result Z probe_error :=
  match answer with
  | None => Err Unreachable
  | Some res =>
      if negb (WorkerClient.is_success (WorkerClient.status res)) then Err (BadStatus (WorkerClient.status res)) else
      let? v := ok_or (WorkerClient.body res) BadBody in
      ok_or (get_u64 v "delay") BadBody
  end.
Definition probe_data_plane (clash_api_url : option string) (answer : option (WorkerClient.Response (V := V))) : option bool * option Z :=
  match clash_api_url with
  | None => (None, None)
  | Some _ => match run_probe answer with Ok delay => (Some true, Some delay) | Err _ => (Some false, None) end
  end.

Record TrafficSample := { bytes_up : Z; bytes_down : Z; connections_open : Z }.
Definition read_traffic (answer : option (WorkerClient.Response (V := V))) : result TrafficSample probe_error :=
  match answer with
  | None => Err Unreachable
  | Some res =>
      if negb (WorkerClient.is_success (WorkerClient.status res)) then Err (BadStatus (WorkerClient.status res)) else
      let? v := ok_or (WorkerClient.body res) BadBody in
      let? up := ok_or (get_u64 v "uploadTotal") BadBody in
      let? down := ok_or (get_u64 v "downloadTotal") BadBody in
      let? open := match jget v "connections" with None => Ok [] | Some c => ok_or (jas_array c) BadBody end in
      Ok {| bytes_up := up; bytes_down := down; connections_open := Z.min (Z.of_nat (length open)) u32_max |}
  end.
End Probes.
End LocalProbes.

Module AgentLoop.
Import Pacing.

Definition TRAFFIC_INTERVAL : Z := secs 15.
Definition poll_interval (poll_interval_secs : Z) : Z := secs (clamp 1 60 poll_interval_secs).
Definition heartbeat_interval (heartbeat_interval_secs : Z) : Z := secs (clamp 10 60 heartbeat_interval_secs).
Definition reconcile_interval (reconcile_interval_secs : Z) : Z := secs (clamp 15 600 reconcile_interval_secs).

Section Loop.
Context {V : Type} `{HJ : JsonOps V}.
Context (jis_null : V -> bool) (format3339 : Z -> option string) (parse3339 : string -> option Z).
Context (error_text : Jobs.job_error -> string) (parse : V -> result ExternalAuth.ParsedSnapshot ExternalAuth.ext_error).
Context (lease_cfg : LeasePool.Config) (poll_secs heartbeat_secs : Z).

Record Agent := {
  schedule : Schedule;
  wakeups : Wakeups;
  next_heartbeat : Z;
  next_traffic : Z;
  lease_pool : option LeasePool.Pool;
  lease_world : LeasePool.World;
  external : option ExternalAuth.Reconciler;
  external_world : ExternalAuth.World;
  pipeline : Jobs.PState V }.

(** What one iteration meets: [wake_ops] is what the event task did since the
    previous decision, the [_end] fields are the instants read after a step. *)
Record Iteration := {
  wake_ops : list wake_op;
  start : Z;
  heartbeat_end : Z;
  traffic_end : Z;
  lease_env : LeasePool.Env (V := V);
  lease_end : Z;
  external_env : ExternalAuth.Env V;
  external_end : Z;
  claimed : result (option (Jobs.Job V)) Jobs.job_error;
  job_env : Jobs.PEnv V;
  claim_end : Z }.

(** A network step of an iteration: whether it was due, whether it ended
    without anything left to do, when. *)
Record Step := { was_due : bool; settled : bool; ended : Z }.
Record Ran := {
  began : Z; heartbeat_sent : bool; traffic_read : bool; leases_step : Step; authorizations_step : Step; claim_step : Step;
  sleep_at_most : Z }.

Definition decision (a : Agent) (i : Iteration) : Schedule * Wakeups * Due :=
  due (schedule a) (start i) (fold_left wake_apply (wake_ops i) (wakeups a)).

Definition with_sync_due (d : bool) (e : LeasePool.Env (V := V)) : LeasePool.Env :=
  {| LeasePool.now1 := LeasePool.now1 e; LeasePool.draw := LeasePool.draw e; LeasePool.save_planned := LeasePool.save_planned e;
     LeasePool.apply_reply := LeasePool.apply_reply e; LeasePool.save_applied := LeasePool.save_applied e;
     LeasePool.sync_due := d; LeasePool.sync_reply := LeasePool.sync_reply e; LeasePool.now2 := LeasePool.now2 e;
     LeasePool.save_synced := LeasePool.save_synced e |}.
Definition with_fetch_due (d : bool) (e : ExternalAuth.Env V) : ExternalAuth.Env V :=
  {| ExternalAuth.fetch := if d then ExternalAuth.fetch e else ExternalAuth.NotDue; ExternalAuth.save_adopted := ExternalAuth.save_adopted e;
     ExternalAuth.now := ExternalAuth.now e; ExternalAuth.apply_ok := ExternalAuth.apply_ok e;
     ExternalAuth.save_applied := ExternalAuth.save_applied e; ExternalAuth.ack_ok := ExternalAuth.ack_ok e;
     ExternalAuth.save_acked := ExternalAuth.save_acked e |}.

Definition lease_step (a : Agent) (i : Iteration) (d : bool) : option LeasePool.Pool * LeasePool.World * bool :=
  match lease_pool a with
  | None => (None, lease_world a, true)
  | Some p => let '(p, w, r) := LeasePool.tick format3339 parse3339 lease_cfg (with_sync_due d (lease_env i)) p (lease_world a) in (Some p, w, is_ok r)
  end.
Definition external_step (a : Agent) (i : Iteration) (d : bool) : option ExternalAuth.Reconciler * ExternalAuth.World * bool :=
  match external a with
  | None => (None, external_world a, true)
  | Some r => let '(r, w, res) := ExternalAuth.tick parse (with_fetch_due d (external_env i)) r (external_world a) in (Some r, w, is_ok res)
  end.
Definition claim_jobs (a : Agent) (i : Iteration) (d : bool) : Jobs.PState V * result bool Jobs.job_error :=
  if d then Jobs.poll_once jis_null parse3339 error_text (job_env i) (pipeline a) (claimed i) else (pipeline a, Ok false).

(** The loop body.  [continue] skips the wait; otherwise a permit of [Notify]
    ends it at once and is used up. *)
Definition iterate (a : Agent) (i : Iteration) : Agent * Ran :=
  let '(sched, wake, d) := decision a i in
  let heartbeat := next_heartbeat a <=? start i in
  let traffic := next_traffic a <=? start i in
  let '(pool, lw, lease_ok) := lease_step a i (due_leases d) in
  let sched := if lease_ok then sched else retry_leases sched (lease_end i) in
  let '(ext, ew, ext_ok) := external_step a i (due_authorizations d) in
  let sched := if ext_ok then sched else retry_authorizations sched (external_end i) in
  let '(jobs_, polled) := claim_jobs a i (claim d) in
  let sched := match polled with
               | Ok true => claim_again_now sched (claim_end i)
               | Ok false => sched
               | Err _ => retry_claim sched (claim_end i)
               end in
  let again := match polled with Ok true => true | _ => false end in
  ({| schedule := sched;
      wakeups := if again then wake
                 else {| jobs := jobs wake; authorizations := authorizations wake; leases := leases wake; healthy := healthy wake; notified := false |};
      next_heartbeat := if heartbeat then heartbeat_end i + heartbeat_interval heartbeat_secs else next_heartbeat a;
      next_traffic := if traffic then traffic_end i + TRAFFIC_INTERVAL else next_traffic a;
      lease_pool := pool; lease_world := lw; external := ext; external_world := ew; pipeline := jobs_ |},
   {| began := start i; heartbeat_sent := heartbeat; traffic_read := traffic;
      leases_step := {| was_due := due_leases d; settled := lease_ok; ended := lease_end i |};
      authorizations_step := {| was_due := due_authorizations d; settled := ext_ok; ended := external_end i |};
      claim_step := {| was_due := claim d; settled := match polled with Ok false => true | _ => false end; ended := claim_end i |};
      sleep_at_most := if again then 0 else if notified wake then 0 else poll_interval poll_secs |}).

(** Iterations in a row, and what they ran, the latest first. *)
Fixpoint run (a : Agent) (hist : list Ran) (its : list Iteration) : Agent * list Ran :=
  match its with
  | [] => (a, hist)
  | i :: its => let '(a, ran) := iterate a i in run a (ran :: hist) its
  end.

(** The state [main] enters the loop with. *)
Definition agent_new (reconcile_secs now : Z) (pool : option LeasePool.Pool) (lw : LeasePool.World)
  (ext : option ExternalAuth.Reconciler) (ew : ExternalAuth.World) (p : Jobs.PState V) : Agent :=
  {| schedule := schedule_new (reconcile_interval reconcile_secs) now;
     wakeups := {| jobs := false; authorizations := false; leases := false; healthy := false; notified := false |};
     next_heartbeat := now; next_traffic := now; lease_pool := pool; lease_world := lw; external := ext; external_world := ew; pipeline := p |}.

(** ** What makes a network step due *)

(** The last iteration in which a step was due, or failed without being due. *)
Definition last_step (f : Ran -> Step) (hist : list Ran) : option (Z * Step) :=
  option_map (fun r => (began r, f r)) (List.find (fun r => was_due (f r) || negb (settled (f r))) hist).
Definition step_due (unhealthy marked : bool) (last : option (Z * Step)) (reconcile now : Z) : bool :=
  unhealthy || marked ||
  match last with
  | None => true
  | Some (t, s) => if settled s then t + reconcile <=? now else true
  end.
Definition marked (channel : string) (ops : list wake_op) : bool :=
  existsb (fun o => match o with Mark cs => existsb (String.eqb channel) cs | Healthy _ => false end) ops.

(** Iterations follow each other on the monotonic clock. *)
Definition in_time (now : Z) (i : Iteration) : Prop :=
  now <= start i /\ start i <= lease_end i /\ lease_end i <= external_end i /\ external_end i <= claim_end i.
Fixpoint in_order (now : Z) (its : list Iteration) : Prop :=
  match its with [] => True | i :: its => in_time now i /\ in_order (claim_end i) its end.

Lemma wake_fold_flags ops : forall w,
  let w' := fold_left wake_apply ops w in
  jobs w' = jobs w || marked "jobs" ops /\ authorizations w' = authorizations w || marked "authorizations" ops /\
  leases w' = leases w || marked "leases" ops.
Proof.
  induction ops as [|o ops IH]; intros w; cbn zeta; [by rewrite !orb_false_r|]. cbn [fold_left].
  destruct (IH (wake_apply w o)) as (-> & -> & ->). destruct o as [cs|h]; cbn [wake_apply marked existsb].
  - unfold mark. cbn [jobs authorizations leases]. rewrite mark_fold_jobs, mark_fold_auth, mark_fold_leases.
    by rewrite !orb_assoc.
  - done.
Qed.

(** What the schedule says of a step, from what was run. *)
Definition next_of (t0 r : Z) (last : option (Z * Step)) : Z :=
  match last with None => t0 | Some (t, s) => if settled s then t + r else ended s end.
Definition late (now : Z) (last : option (Z * Step)) : Prop :=
  match last with Some (_, s) => ended s <= now | None => True end.

Record loop_inv (t0 r now : Z) (a : Agent) (hist : list Ran) : Prop := {
  li_reconcile : reconcile (schedule a) = r;
  li_claim : next_claim (schedule a) = next_of t0 r (last_step claim_step hist);
  li_auth : next_authorizations (schedule a) = next_of t0 r (last_step authorizations_step hist);
  li_leases : next_leases (schedule a) = next_of t0 r (last_step leases_step hist);
  li_late : late now (last_step claim_step hist) /\ late now (last_step authorizations_step hist) /\ late now (last_step leases_step hist);
  li_flags : jobs (wakeups a) = false /\ authorizations (wakeups a) = false /\ leases (wakeups a) = false }.

Lemma last_step_cons f r hist :
  last_step f (r :: hist) = if was_due (f r) || negb (settled (f r)) then Some (began r, f r) else last_step f hist.
Proof. unfold last_step. simpl. by destruct (_ || _). Qed.
Lemma late_mono now now' last : late now last -> now <= now' -> late now' last.
Proof. destruct last as [[t s]|]; simpl; lia. Qed.

(** One channel of the schedule through an iteration. *)
Lemma next_of_cons t0 r f (rn : Ran) hist nxt upd :
  nxt = next_of t0 r (last_step f hist) ->
  upd = (if settled (f rn) then (if was_due (f rn) then began rn + r else nxt) else ended (f rn)) ->
  upd = next_of t0 r (last_step f (rn :: hist)).
Proof. intros -> ->. rewrite last_step_cons. by destruct (was_due (f rn)) eqn:E1, (settled (f rn)) eqn:E2; simpl; rewrite ?E2. Qed.
Lemma late_cons now now' f rn hist : late now (last_step f hist) -> now <= now' -> ended (f rn) <= now' -> late now' (last_step f (rn :: hist)).
Proof. intros H Hn He. rewrite last_step_cons. destruct (_ || _); [exact He|]. by eapply late_mono. Qed.

Lemma iterate_inv t0 r now a hist i a' ran :
  loop_inv t0 r now a hist -> in_time now i -> iterate a i = (a', ran) -> loop_inv t0 r (claim_end i) a' (ran :: hist).
Proof.
  intros [Hr Hc Ha Hl (L1 & L2 & L3) _] (T1 & T2 & T3 & T4) H. unfold iterate, decision, due in H.
  destruct (lease_step a i _) as [[pool lw] lok]. destruct (external_step a i _) as [[ext ew] eok].
  destruct (claim_jobs a i _) as [js polled] eqn:Ej. injection H as <- <-.
  split; cbn [schedule wakeups].
  - destruct lok, eok, polled as [[]|]; exact Hr.
  - eapply next_of_cons; [exact Hc|]. cbn [claim_step settled was_due ended began]. rewrite Hr. destruct lok, eok, polled as [[]|]; reflexivity.
  - eapply next_of_cons; [exact Ha|]. cbn [authorizations_step settled was_due ended began]. rewrite Hr. destruct lok, eok, polled as [[]|]; reflexivity.
  - eapply next_of_cons; [exact Hl|]. cbn [leases_step settled was_due ended began]. rewrite Hr. destruct lok, eok, polled as [[]|]; reflexivity.
  - repeat split; (eapply late_cons; [eassumption|lia|cbn; lia]).
  - destruct polled as [[]|]; done.
Qed.

Lemma run_loop_inv its : forall t0 r now a hist a' hist',
  loop_inv t0 r now a hist -> in_order now its -> run a hist its = (a', hist') ->
  exists now', loop_inv t0 r now' a' hist' /\ (forall i, in_order now (its ++ [i]) -> in_time now' i).
Proof.
  induction its as [|i its IH]; intros t0 r now a hist a' hist' Hi Ho H; simpl in H.
  - injection H as <- <-. exists now. split; [done|]. by intros i [Hin _].
  - destruct (iterate a i) as [a1 ran] eqn:E. destruct Ho as [Hin Ho].
    destruct (IH _ _ _ _ _ _ _ (iterate_inv _ _ _ _ _ _ _ _ Hi Hin E) Ho H) as (now' & Hi' & Hn).
    exists now'. split; [done|]. intros j [_ Hj]. by apply Hn.
Qed.

(** The decision of one channel. *)
Lemma channel_due t0 r now w0 nxt last mk unhealthy :
  nxt = next_of t0 r last -> late now last -> t0 <= now ->
  unhealthy || (w0 || mk) || (nxt <=? now) = step_due unhealthy (w0 || mk) last r now.
Proof.
  intros -> Hl Ht. unfold step_due, next_of. destruct last as [[t s]|]; simpl in *.
  - destruct (settled s); [done|]. by replace (ended s <=? now) with true by lia.
  - by replace (t0 <=? now) with true by lia.
Qed.

(** C28: Over the whole life of the main loop, whatever the steps returned and
    whatever the event task did meanwhile: a network step (claim, authorization
    fetch, lease sync) is due in an iteration exactly when the event channel is
    not healthy, or an event for it arrived since the previous decision, or it
    never ran, or its last run left something to do (an error, a job that was
    processed), or the reconcile interval has passed since its last run; and the
    wait before the next iteration never exceeds the poll interval. *)
Theorem network_steps_scheduled_exactly reconcile_secs now pool lw ext ew p its i a hist sched wake d :
  run (agent_new reconcile_secs now pool lw ext ew p) [] its = (a, hist) -> in_order now (its ++ [i]) ->
  decision a i = (sched, wake, d) ->
  let unhealthy := negb (healthy wake) in
  let r := reconcile_interval reconcile_secs in
  claim d = step_due unhealthy (marked "jobs" (wake_ops i)) (last_step claim_step hist) r (start i) /\
  due_authorizations d = step_due unhealthy (marked "authorizations" (wake_ops i)) (last_step authorizations_step hist) r (start i) /\
  due_leases d = step_due unhealthy (marked "leases" (wake_ops i)) (last_step leases_step hist) r (start i) /\
  0 <= sleep_at_most (snd (iterate a i)) <= secs 60.
Proof.
  intros Hrun Ho Hd. cbn zeta.
  assert (Hi0 : loop_inv now (reconcile_interval reconcile_secs) now (agent_new reconcile_secs now pool lw ext ew p) []) by (by split).
  assert (Ho' : in_order now its /\ now <= start i).
  { clear -Ho. revert now Ho. induction its as [|j its IH]; intros now Ho; simpl in *; [destruct Ho as [(H & _) _]; split; [done|lia]|].
    destruct Ho as [(H1 & H2 & H3 & H4) Ho]. destruct (IH _ Ho) as [Ha Hb]. split; [split; [by repeat split|done]|lia]. }
  destruct (run_loop_inv _ _ _ _ _ _ _ _ Hi0 (proj1 Ho') Hrun) as (now' & [Hr Hc Ha Hl (L1 & L2 & L3) (F1 & F2 & F3)] & Hn).
  destruct (Hn i Ho) as (T1 & _). destruct (wake_fold_flags (wake_ops i) (wakeups a)) as (W1 & W2 & W3).
  unfold decision, due in Hd. injection Hd as <- <- <-. cbn [claim due_authorizations due_leases healthy].
  rewrite W1, W2, W3, F1, F2, F3. split; [|split; [|split]];
    [rewrite (channel_due now (reconcile_interval reconcile_secs) (start i) _ _ (last_step claim_step hist))
    |rewrite (channel_due now (reconcile_interval reconcile_secs) (start i) _ _ (last_step authorizations_step hist))
    |rewrite (channel_due now (reconcile_interval reconcile_secs) (start i) _ _ (last_step leases_step hist))|];
    try done; try (by eapply late_mono); try tauto.
  unfold iterate. destruct (decision a i) as [[? w] ?]. destruct (lease_step _ _ _) as [[? ?] ?], (external_step _ _ _) as [[? ?] ?], (claim_jobs _ _ _) as [? [[]|]];
    cbn [snd sleep_at_most]; try (unfold secs, NS; lia); destruct (notified w); unfold poll_interval, secs, NS;
    pose proof (clamp_bounds 1 60 poll_secs ltac:(lia)); lia.
Qed.

(** ** Expiry without the control plane *)

(** Slot numbers of a table. *)
Definition table_ok (st : LeasePool.LeaseState) : Prop :=
  List.NoDup (map LeasePool.slot (LeasePool.slots st)) /\ forall s, In s (LeasePool.slots st) -> 0 <= LeasePool.slot s.

Lemma table_ok_numbers st st' : map LeasePool.slot (LeasePool.slots st') = map LeasePool.slot (LeasePool.slots st) -> table_ok st -> table_ok st'.
Proof.
  intros E [H1 H2]. split; [by rewrite E|]. intros s Hs. apply (in_map LeasePool.slot) in Hs. rewrite E in Hs.
  apply in_map_iff in Hs as (x & <- & Hx). by apply H2.
Qed.

Lemma table_ok_plan draw st size rotate now lifetime grid st' b :
  0 <= size -> table_ok st -> LeasePool.plan draw st size rotate now lifetime grid = (st', b) -> table_ok st'.
Proof.
  intros Hsz [H1 H2] Hp. destruct (LeasePool.plan_exact _ _ _ _ _ _ _ _ _ H1 H2 Hsz Hp) as (E & _). split.
  - rewrite E. apply LeasePool.range_u32_NoDup.
  - intros s Hs. apply (in_map LeasePool.slot) in Hs. rewrite E in Hs. apply LeasePool.range_u32_In in Hs. lia.
Qed.

Lemma table_ok_sync e p w p' w' r :
  LeasePool.tick_sync format3339 parse3339 lease_cfg e p w = (p', w', r) -> table_ok (LeasePool.state p) -> table_ok (LeasePool.state p').
Proof.
  unfold LeasePool.tick_sync. intros H Ht. destruct (LeasePool.sync_body _ _ _ _ _) as [bd|]; [|by simplify_eq].
  destruct (LeasePool.sync_reply e) as [resp|]; [|by simplify_eq].
  destruct (LeasePool.absorb_sync_response _ _ _) as [[st v]|] eqn:Ea; [|by simplify_eq].
  destruct (LeasePool.adopt_extensions _ _ _ _ _) as [st2 n] eqn:Ex.
  assert (Hst : table_ok st2).
  { apply LeasePool.absorb_credentials in Ea as (_ & _ & Em). eapply table_ok_numbers; [|exact Ht]. rewrite <- Em.
    unfold LeasePool.adopt_extensions in Ex. injection Ex as <- <-. cbn [LeasePool.slots]. rewrite !map_map. apply map_ext. intros s.
    unfold LeasePool.adopt_one. by repeat case_scrut. }
  destruct (bool_decide _); [|destruct (LeasePool.save _ _ _) as [w2 r2]]; by simplify_eq.
Qed.

(** After the local half of a tick no slot of the table is expired. *)
Lemma tick_local_table e p w p' w' r :
  0 <= LeasePool.lease_pool_size lease_cfg -> LeasePool.sane_time (LeasePool.now1 e) -> table_ok (LeasePool.state p) ->
  LeasePool.tick_local lease_cfg e p w = (p', w', r) ->
  table_ok (LeasePool.state p') /\ Forall (fun s => LeasePool.now1 e < LeasePool.valid_until s) (LeasePool.slots (LeasePool.state p')).
Proof.
  intros Hsz Hn Ht H. unfold LeasePool.tick_local in H. set (rot := LeasePool.slots_to_rotate _ _ _ _) in H.
  set (st0 := {| LeasePool.slots := _; LeasePool.applied := _; LeasePool.last_rotation_at := _ |}) in H.
  assert (Ht0 : table_ok st0) by exact Ht.
  destruct (LeasePool.plan _ st0 _ _ _ _ _) as [st ch] eqn:Ep.
  assert (Hst : table_ok st /\ Forall (fun s => LeasePool.now1 e < LeasePool.valid_until s) (LeasePool.slots st)).
  { split; [by eapply table_ok_plan|]. destruct Ht0 as [N1 N2].
    destruct (LeasePool.plan_exact _ _ _ _ _ _ _ _ _ N1 N2 Hsz Ep) as (_ & Hpl & _).
    apply List.Forall_forall. intros s Hs. rewrite (Hpl s Hs). unfold LeasePool.planned.
    pose proof (fun f n g => LeasePool.mint_window f n g (LeasePool.now1 e) (LeasePool.rotation_batch_interval_secs lease_cfg)
      (LeasePool.lease_slot_lifetime_secs lease_cfg) Hn) as Hm. cbn zeta in Hm. unfold LeasePool.DEFAULT_MIN_REMAINING_SECS in Hm.
    destruct (LeasePool.lookup_slot (LeasePool.slots st0) (LeasePool.slot s)) as [x|] eqn:Ex.
    - apply LeasePool.lookup_slot_Some in Ex as [Hx Hxs]. destruct (existsb _ rot) eqn:Er.
      + destruct (Hm (LeasePool.draw e (LeasePool.slot s)) (LeasePool.slot x) (LeasePool.wrap_u64 (LeasePool.generation x + 1))) as (_ & _ & _ & Hv).
        unfold LeasePool.rotate_slot. cbn [LeasePool.with_principal LeasePool.valid_until]. lia.
      + destruct (Z.le_gt_cases (LeasePool.valid_until x) (LeasePool.now1 e)) as [Hle|Hgt]; [exfalso|lia].
        assert (Hin : In (LeasePool.slot x) rot).
        { eapply LeasePool.In_slots_to_rotate_forced; [exact Hx|by apply LeasePool.candidate_expired|done]. }
        rewrite <- not_true_iff_false in Er. apply Er, existsb_exists. exists (LeasePool.slot x). split; [done|]. rewrite Hxs. apply Z.eqb_refl.
    - destruct (Hm (LeasePool.draw e (LeasePool.slot s)) (LeasePool.slot s) 1) as (_ & _ & _ & Hv). lia. }
  assert (Hp' : LeasePool.slots (LeasePool.state p') = LeasePool.slots st).
  { destruct (if ch then _ else _) as [w1 r1]; destruct r1; [|by simplify_eq]. destruct (_ || _); [|by simplify_eq].
    destruct (LeasePool.apply e (LeasePool.set_state p st) w1) as [[p2 w2] r2] eqn:Ea. assert (p' = p2) as -> by (destruct r2; by simplify_eq).
    unfold LeasePool.apply in Ea. destruct (LeasePool.apply_reply e); [|by simplify_eq]. destruct (negb _); [by simplify_eq|].
    destruct (LeasePool.save _ _ _) as [w3 r3]. by simplify_eq. }
  rewrite Hp'. split; [|apply Hst]. eapply table_ok_numbers; [|apply (proj1 Hst)]. by rewrite Hp'.
Qed.

(** The file operations and vpn-admin work; nothing is said of the control
    plane. *)
Definition local_works (e : LeasePool.Env (V := V)) : Prop :=
  LeasePool.save_planned e = true /\ LeasePool.save_applied e = true /\
  exists parsed, LeasePool.apply_reply e = Some parsed /\ get_bool parsed "live" = Some true.

Lemma tick_local_succeeds e p w p' w' r : local_works e -> LeasePool.tick_local lease_cfg e p w = (p', w', r) -> is_ok r = true.
Proof.
  intros (H1 & H2 & parsed & H3 & H4) H. unfold LeasePool.tick_local in H. destruct (LeasePool.plan _ _ _ _ _ _ _) as [st ch].
  assert (Hs : forall x, LeasePool.save (LeasePool.save_planned e) st x = ({| LeasePool.disk := Some st; LeasePool.live := LeasePool.live x; LeasePool.sent := LeasePool.sent x |}, Ok tt))
    by (intros x; unfold LeasePool.save; by rewrite H1).
  assert (Ha : forall q x, exists q' x', LeasePool.apply e q x = (q', x', Ok tt)).
  { intros q x. unfold LeasePool.apply, LeasePool.save. rewrite H2, H3, H4. cbn. eauto. }
  destruct (if ch then _ else _) as [w1 r1] eqn:Es. assert (r1 = Ok tt) as -> by (destruct ch; rewrite ?Hs in Es; by simplify_eq).
  destruct (_ || _); [|by simplify_eq]. destruct (Ha (LeasePool.set_state p st) w1) as (q' & x' & E). rewrite E in H. by simplify_eq.
Qed.

(** The agent's lease pool between iterations. *)
Definition leases_ok (a : Agent) : Prop :=
  match lease_pool a with Some p => LeasePool.pool_inv p (lease_world a) /\ table_ok (LeasePool.state p) | None => True end.

Lemma lease_tick_table e p w p' w' r :
  0 <= LeasePool.lease_pool_size lease_cfg -> LeasePool.sane_time (LeasePool.now1 e) -> table_ok (LeasePool.state p) ->
  LeasePool.tick format3339 parse3339 lease_cfg e p w = (p', w', r) -> table_ok (LeasePool.state p').
Proof.
  intros Hsz Hn Ht H. unfold LeasePool.tick in H. destruct (LeasePool.tick_local lease_cfg e p w) as [[p1 w1] r1] eqn:El.
  destruct (tick_local_table _ _ _ _ _ _ Hsz Hn Ht El) as [Ht1 _]. destruct r1; [|by simplify_eq].
  destruct (_ && _); [by simplify_eq|]. destruct (negb _); [by simplify_eq|]. by eapply table_ok_sync.
Qed.

Lemma iterate_leases a i :
  0 <= LeasePool.lease_pool_size lease_cfg -> LeasePool.sane_time (LeasePool.now1 (lease_env i)) ->
  leases_ok a -> leases_ok (fst (iterate a i)).
Proof.
  intros Hsz Hn Hok. unfold iterate. destruct (decision a i) as [[sc wk] d]. unfold lease_step.
  unfold leases_ok in Hok. destruct (lease_pool a) as [p|] eqn:Ep.
  - destruct (LeasePool.tick _ _ _ _ _ _) as [[p1 w1] r1] eqn:Et. destruct (external_step _ _ _) as [[? ?] ?], (claim_jobs _ _ _) as [? ?].
    unfold leases_ok. cbn [fst lease_pool lease_world]. destruct Hok as [Hi Ht]. split; [by eapply LeasePool.tick_inv|].
    eapply lease_tick_table; [exact Hsz| |exact Ht|exact Et]. exact Hn.
  - destruct (external_step _ _ _) as [[? ?] ?], (claim_jobs _ _ _) as [? ?]. done.
Qed.

Lemma run_leases its : forall a hist a' hist',
  0 <= LeasePool.lease_pool_size lease_cfg -> (forall i, In i its -> LeasePool.sane_time (LeasePool.now1 (lease_env i))) ->
  leases_ok a -> run a hist its = (a', hist') -> leases_ok a'.
Proof.
  induction its as [|i its IH]; intros a hist a' hist' Hsz Hn Hok H; simpl in H; [by injection H as <- <-|].
  pose proof (iterate_leases a i Hsz (Hn i (or_introl eq_refl)) Hok) as H1. destruct (iterate a i) as [a1 rn]. eapply IH; [exact Hsz| |exact H1|exact H].
  intros j Hj. apply Hn. by right.
Qed.

(** C27: Lease expiry does not depend on the control plane.  Whatever happened
    since the process started, an iteration in which the local operations work
    (the state file can be written, vpn-admin applies and proves the set live)
    leaves the running sing-box with no lease slot whose validity has ended at
    the time of the tick, whatever the control plane answered or whether it was
    asked at all. *)
Theorem leases_expire_without_control_plane reconcile_secs now pool lw ext ew ps its i a hist p :
  LeasePool.applied_this_process pool = false -> table_ok (LeasePool.state pool) -> 0 <= LeasePool.lease_pool_size lease_cfg ->
  run (agent_new reconcile_secs now (Some pool) lw ext ew ps) [] its = (a, hist) -> lease_pool a = Some p ->
  (forall j, In j (i :: its) -> LeasePool.sane_time (LeasePool.now1 (lease_env j))) -> local_works (lease_env i) ->
  exists l, LeasePool.live (lease_world (fst (iterate a i))) = Some l /\
    Forall (fun s => LeasePool.now1 (lease_env i) < LeasePool.a_expires_at s) l.
Proof.
  intros Hp Ht Hsz Hrun Hpool Hn Hw.
  assert (Hok : leases_ok a).
  { eapply run_leases; [exact Hsz| | |exact Hrun]; [intros j Hj; apply Hn; by right|]. split; [|exact Ht]. intros _ Hq. cbn in Hq. congruence. }
  unfold leases_ok in Hok. rewrite Hpool in Hok. destruct Hok as [Hinv Htab].
  unfold iterate. destruct (decision a i) as [[sc wk] d]. unfold lease_step. rewrite Hpool.
  set (e := with_sync_due (due_leases d) (lease_env i)).
  destruct (LeasePool.tick _ _ _ e p (lease_world a)) as [[p1 w1] r1] eqn:Et.
  destruct (external_step _ _ _) as [[? ?] ?], (claim_jobs _ _ _) as [? ?]. cbn [fst lease_world].
  unfold LeasePool.tick in Et. destruct (LeasePool.tick_local lease_cfg e p (lease_world a)) as [[p2 w2] r2] eqn:El.
  pose proof (tick_local_succeeds e _ _ _ _ _ Hw El) as Hr2.
  destruct (LeasePool.tick_local_inv _ _ _ _ _ _ _ El Hinv) as (Hinv2 & Hap & _). destruct (Hap Hr2) as [Ha1 Ha2].
  destruct (Hinv2 Ha1 Ha2) as [_ (l & Hl & Hm)].
  destruct (tick_local_table e p _ _ _ _ Hsz (Hn i (or_introl eq_refl)) Htab El) as [_ Hf].
  assert (Hlive : LeasePool.live w1 = LeasePool.live w2).
  { destruct r2; [|done]. destruct (_ && _); [by simplify_eq|]. destruct (negb _); [by simplify_eq|].
    by eapply LeasePool.tick_sync_inv in Et as (_ & Et & _). }
  exists l. rewrite Hlive. split; [done|]. apply List.Forall_forall. intros x Hx.
  apply (in_map LeasePool.credential_of) in Hx. rewrite Hm in Hx. unfold LeasePool.vpn_admin_input in Hx. rewrite map_map in Hx.
  apply in_map_iff in Hx as (s & Es & Hs). rewrite List.Forall_forall in Hf. specialize (Hf s Hs).
  injection Es as _ _ _ _ _ _ Ee. rewrite <- Ee. exact Hf.
Qed.
End Loop.

(** ** Witnesses *)

Definition ex_iteration (t : Z) (ops : list wake_op) : Iteration (V := json) :=
  {| wake_ops := ops; start := t; heartbeat_end := t; traffic_end := t; lease_env := LeasePool.ex_env true true; lease_end := t;
     external_env := ExternalAuth.ex_env ExternalAuth.FetchError t true; external_end := t;
     claimed := Ok None; job_env := Jobs.ex_penv; claim_end := t |}.
Definition ex_agent : Agent (V := json) :=
  agent_new 60 0 (Some LeasePool.ex_pool) LeasePool.ex_world None (snd (ExternalAuth.node_init)) {| Jobs.log := []; Jobs.queue := []; Jobs.succeeded := [] |}.
Notation ex_loop f := (f WorkerClient.ex_null LeasePool.ex_format LeasePool.ex_parse (fun _ => EmptyString) (ExternalAuth.ex_parse []) LeasePool.ex_cfg 3 60) (only parsing).

(** With a healthy channel, an idle claim is not repeated until an event
    arrives. *)
Lemma network_steps_scheduled_exactly_witness :
  exists a hist sched wake d, ex_loop run ex_agent [] [ex_iteration 0 [Healthy true]] = (a, hist) /\
    decision a (ex_iteration (secs 3) [Mark ["jobs"]]) = (sched, wake, d) /\
    claim d = step_due false true (last_step claim_step hist) (secs 60) (secs 3) /\
    due_leases d = step_due false false (last_step leases_step hist) (secs 60) (secs 3).
Proof.
  destruct (ex_loop run ex_agent [] [ex_iteration 0 [Healthy true]]) as [a hist] eqn:E.
  destruct (decision a (ex_iteration (secs 3) [Mark ["jobs"]])) as [[sched wake] d] eqn:Ed.
  exists a, hist, sched, wake, d. split; [reflexivity|]. split; [exact Ed|].
  assert (O : in_order (V := json) 0 ([ex_iteration 0 [Healthy true]] ++ [ex_iteration (secs 3) [Mark ["jobs"]]])) by (vm_compute; intuition discriminate).
  pose proof (ex_loop network_steps_scheduled_exactly 60 0 _ _ _ _ _ [ex_iteration 0 [Healthy true]] _ _ _ _ _ _ E O Ed) as H.
  assert (Hw : healthy wake = true) by (vm_compute in E; injection E as <- <-; vm_compute in Ed; injection Ed as <- <- <-; reflexivity).
  rewrite Hw in H. split; [exact (proj1 H)|exact (proj1 (proj2 (proj2 H)))].
Defined.

Lemma leases_expire_without_control_plane_witness :
  exists l, LeasePool.live (lease_world (fst (ex_loop iterate ex_agent (ex_iteration 0 [])))) = Some l /\
    Forall (fun s => LeasePool.now1 (LeasePool.ex_env true true) < LeasePool.a_expires_at s) l.
Proof.
  refine (ex_loop leases_expire_without_control_plane 60 0 LeasePool.ex_pool LeasePool.ex_world None _ _ [] (ex_iteration 0 []) ex_agent [] LeasePool.ex_pool _ _ _ _ _ _ _).
  - reflexivity.
  - split; [vm_compute; constructor|intros s []].
  - vm_compute. discriminate.
  - reflexivity.
  - reflexivity.
  - intros j [<-|[]]. vm_compute. split; discriminate.
  - vm_compute. repeat split. eexists. split; reflexivity.
Defined.
End AgentLoop.
