(* ===== verification/AdminDoctor.v ===== *)
(** * apps/admin: what doctor and its report decide

    main.rs: [redact_secrets] and the pure classifiers behind the checks:
    listening sockets against the expected public surface, the IPv6 and egress
    posture, the verdict over both protocol self-tests.  release_identity.rs:
    which release is installed.  A message is the case that produces it; the
    outputs of [ss], [sshd] and the other tools are inputs. *)

From S2P Require Import Prelude Strs Net NetText Json Credentials Grants Contract Render Deployment Server ServerPolicy ServerDoctor Pacing.
From Stdlib Require Import Ascii.

(** ** [redact_secrets] *)

Module Redact.

Definition is_token_byte (b : ascii) : bool := is_ascii_alphanumeric b || is_char "-" b || is_char "_" b.
Definition looks_like_uuid (tok : string) : bool :=
  let parts := split_on "-" tok in
  (length parts =? 5)%nat && forallb (fun '(len, p) => (slen p =? len) && str_all is_ascii_hexdigit p) (combine [8; 4; 4; 4; 12] parts).
Definition is_ascii_alphabetic (b : ascii) : bool := in_range 65 90 b || in_range 97 122 b.
Definition looks_like_secret_token (tok : string) : bool :=
  if slen tok <? 24 then false else
  if str_all is_ascii_hexdigit tok then true else
  str_all is_token_byte tok && str_any is_ascii_alphabetic tok && str_any (fun b => is_ascii_digit b || is_char "-" b || is_char "_" b) tok.
Definition secret (tok : string) : bool := looks_like_uuid tok || looks_like_secret_token tok.

(** The end of a run of token bytes. *)
Definition flush (tok : string) : string := if secret tok then "<redacted>" else tok.
Fixpoint redact_from (tok s : string) : string :=
  match s with
  | EmptyString => flush tok
  | String c s => if is_token_byte c then redact_from (tok +:+ String c EmptyString) s else flush tok +:+ String c (redact_from EmptyString s)
  end.
Definition redact_secrets (text : string) : string := redact_from EmptyString text.

(** *** Lemmas *)

(** The maximal runs of token bytes. *)
Definition run_of (tok : string) : list string := if str_is_empty tok then [] else [tok].
Fixpoint tokens_from (tok s : string) : list string :=
  match s with
  | EmptyString => run_of tok
  | String c s => if is_token_byte c then tokens_from (tok +:+ String c EmptyString) s else run_of tok ++ tokens_from EmptyString s
  end.
Definition tokens (text : string) : list string := tokens_from EmptyString text.
Definition shown (tok : string) : string := if secret tok then "redacted" else tok.

Lemma app_one s c t : (s +:+ String c EmptyString) +:+ t = s +:+ String c t.
Proof. by rewrite str_app_assoc. Qed.
Lemma tokens_run tok t : str_all is_token_byte t = true -> tokens_from tok t = run_of (tok +:+ t).
Proof.
  revert tok. induction t as [|c t IH]; intros tok Ht; cbn [tokens_from]; [by rewrite str_app_nil_r|].
  rewrite str_all_cons in Ht. apply andb_true_iff in Ht as [-> Ht]. by rewrite IH, app_one.
Qed.
Lemma tokens_break tok t c s : str_all is_token_byte t = true -> is_token_byte c = false ->
  tokens_from tok (t +:+ String c s) = run_of (tok +:+ t) ++ tokens s.
Proof.
  revert tok. induction t as [|x t IH]; intros tok Ht Hc; [change (EmptyString +:+ String c s) with (String c s); cbn [tokens_from]; by rewrite Hc, str_app_nil_r|].
  rewrite str_all_cons in Ht. apply andb_true_iff in Ht as [Hx Ht]. change (String x t +:+ String c s) with (String x (t +:+ String c s)).
  cbn [tokens_from]. by rewrite Hx, IH, app_one.
Qed.
Lemma secret_nonempty tok : secret tok = true -> tok <> EmptyString.
Proof. by intros H ->. Qed.

(** A run of token bytes, shown, and what follows. *)
Lemma flushed_tokens tok : str_all is_token_byte tok = true -> tokens (flush tok) = map shown (run_of tok).
Proof.
  intros Ht. unfold flush, run_of, shown, tokens. destruct (secret tok) eqn:Es.
  - pose proof (secret_nonempty _ Es) as Hn. unfold str_is_empty. apply String.eqb_neq in Hn. rewrite Hn. simpl. by rewrite Es.
  - rewrite tokens_run by done. unfold run_of. change (EmptyString +:+ tok) with tok. destruct (str_is_empty tok); [done|]. simpl. by rewrite Es.
Qed.
Lemma flushed_break tok c s : str_all is_token_byte tok = true -> is_token_byte c = false ->
  tokens (flush tok +:+ String c s) = map shown (run_of tok) ++ tokens s.
Proof.
  intros Ht Hc. unfold flush, run_of, shown. destruct (secret tok) eqn:Es.
  - pose proof (secret_nonempty _ Es) as Hn. unfold str_is_empty. apply String.eqb_neq in Hn. rewrite Hn. simpl map. rewrite Es.
    change ("<redacted>" +:+ String c s) with (String "<" ("redacted" +:+ String ">" (String c s))). unfold tokens at 1. cbn [tokens_from].
    change (is_token_byte "<") with false. cbv iota. rewrite tokens_break by reflexivity. cbn [run_of str_is_empty app]. unfold tokens at 1. cbn [tokens_from].
    rewrite Hc. reflexivity.
  - unfold tokens at 1. rewrite tokens_break by done. unfold run_of. change (EmptyString +:+ tok) with tok. destruct (str_is_empty tok); [done|]. simpl. by rewrite Es.
Qed.

Lemma redact_tokens tok s : str_all is_token_byte tok = true -> tokens (redact_from tok s) = map shown (tokens_from tok s).
Proof.
  revert tok. induction s as [|c s IH]; intros tok Ht; cbn [redact_from tokens_from]; [by apply flushed_tokens|].
  destruct (is_token_byte c) eqn:Hc.
  - apply IH. rewrite str_all_app, Ht, str_all_cons, Hc. done.
  - rewrite flushed_break by done. rewrite map_app. f_equal. by apply IH.
Qed.
Lemma redact_same tok s : Forall (fun t => secret t = false) (tokens_from tok s) -> redact_from tok s = tok +:+ s.
Proof.
  revert tok. induction s as [|c s IH]; intros tok Hf; cbn [redact_from tokens_from] in *.
  - rewrite str_app_nil_r. unfold flush, run_of, str_is_empty in *. destruct (String.eqb tok EmptyString) eqn:E; [by apply String.eqb_eq in E as ->|].
    apply Forall_cons in Hf as [-> _]. done.
  - destruct (is_token_byte c); [rewrite IH by done; apply app_one|]. apply Forall_app in Hf as [H1 H2]. rewrite IH by done.
    unfold flush, run_of, str_is_empty in *. destruct (String.eqb tok EmptyString) eqn:E; [by apply String.eqb_eq in E as ->|].
    apply Forall_cons in H1 as [-> _]. done.
Qed.
Lemma shown_not_secret t : secret (shown t) = false.
Proof. unfold shown. destruct (secret t) eqn:E; [reflexivity|done]. Qed.
Lemma redacted_clean text : Forall (fun t => secret t = false) (tokens (redact_secrets text)).
Proof. unfold redact_secrets. rewrite redact_tokens by done. apply List.Forall_map, List.Forall_forall. intros t _. apply shown_not_secret. Qed.

(** *** What a redaction is

    Words and credential shapes by the codes of their characters. *)

Definition digit (c : ascii) : Prop := 48 <= byte_val c <= 57.
Definition letter (c : ascii) : Prop := 65 <= byte_val c <= 90 \/ 97 <= byte_val c <= 122.
Definition hex_digit (c : ascii) : Prop := digit c \/ 65 <= byte_val c <= 70 \/ 97 <= byte_val c <= 102.
Definition separator (c : ascii) : Prop := c = "-"%char \/ c = "_"%char.
Definition word_char (c : ascii) : Prop := letter c \/ digit c \/ separator c.

(** Five groups of hexadecimal digits joined by dashes. *)
Definition uuid_shaped (t : string) : Prop :=
  exists g, t = join_on "-" g /\ map slen g = [8; 4; 4; 4; 12] /\ Forall (fun w => Forall hex_digit (bytes_of w)) g.
Definition secret_shaped (t : string) : Prop :=
  uuid_shaped t \/
  24 <= slen t /\
  (Forall hex_digit (bytes_of t) \/
   Forall word_char (bytes_of t) /\ Exists letter (bytes_of t) /\ Exists (fun c => digit c \/ separator c) (bytes_of t)).

(** The same text, with each maximal run of word characters either kept or,
    when it has the shape of a credential, replaced. *)
Definition at_boundary (s : string) : Prop := match s with EmptyString => True | String c _ => ~ word_char c end.
Inductive redaction : string -> string -> Prop :=
| redaction_end : redaction EmptyString EmptyString
| redaction_between c s s' : ~ word_char c -> redaction s s' -> redaction (String c s) (String c s')
| redaction_kept t s s' : Forall word_char (bytes_of t) -> at_boundary s -> ~ secret_shaped t -> redaction s s' -> redaction (t +:+ s) (t +:+ s')
| redaction_hidden t s s' : Forall word_char (bytes_of t) -> at_boundary s -> secret_shaped t -> redaction s s' -> redaction (t +:+ s) ("<redacted>" +:+ s').
Definition replaced (t t' : string) : Prop := secret_shaped t /\ t' = "redacted" \/ ~ secret_shaped t /\ t' = t.

Lemma str_all_Forall f (P : ascii -> Prop) s : (forall c, f c = true <-> P c) -> str_all f s = true <-> Forall P (bytes_of s).
Proof. intros Hf. unfold str_all. rewrite forallb_forall, List.Forall_forall. by setoid_rewrite Hf. Qed.
Lemma str_any_Exists f (P : ascii -> Prop) s : (forall c, f c = true <-> P c) -> str_any f s = true <-> Exists P (bytes_of s).
Proof. intros Hf. unfold str_any. rewrite existsb_exists, List.Exists_exists. by setoid_rewrite Hf. Qed.
Ltac char_class := intros c;
  unfold hex_digit, letter, digit, is_ascii_alphanumeric, is_ascii_hexdigit, is_ascii_alphabetic, is_ascii_lowercase, is_ascii_uppercase, is_ascii_digit, in_range;
  rewrite ?orb_true_iff, ?andb_true_iff, ?Z.leb_le; lia.
Lemma digit_iff : forall c, is_ascii_digit c = true <-> digit c.
Proof. char_class. Qed.
Lemma letter_iff : forall c, is_ascii_alphabetic c = true <-> letter c.
Proof. char_class. Qed.
Lemma hex_iff : forall c, is_ascii_hexdigit c = true <-> hex_digit c.
Proof. char_class. Qed.
Lemma separator_iff c : (is_char "-" c || is_char "_" c) = true <-> separator c.
Proof. unfold is_char, separator. rewrite orb_true_iff, !Ascii.eqb_eq. intuition. Qed.
Lemma mark_iff : forall c, is_ascii_digit c || is_char "-" c || is_char "_" c = true <-> digit c \/ separator c.
Proof. intros c. by rewrite <- orb_assoc, orb_true_iff, digit_iff, separator_iff. Qed.
Lemma word_iff : forall c, is_token_byte c = true <-> word_char c.
Proof.
  intros c. unfold is_token_byte, word_char. rewrite <- orb_assoc, orb_true_iff, separator_iff. 
  assert (is_ascii_alphanumeric c = true <-> letter c \/ digit c) by (revert c; char_class). intuition.
Qed.

Lemma uuid_iff t : looks_like_uuid t = true <-> uuid_shaped t.
Proof.
  unfold looks_like_uuid, uuid_shaped. setoid_rewrite <- (fun w => str_all_Forall is_ascii_hexdigit hex_digit w hex_iff). split.
  - intros H. exists (split_on "-" t). rewrite join_split. split; [done|]. apply andb_true_iff in H as [Hl Ha]. apply Nat.eqb_eq in Hl.
    destruct (split_on "-" t) as [|a [|b [|c [|d [|e [|]]]]]]; try discriminate Hl. simpl in Ha. rewrite !andb_true_iff, !Z.eqb_eq in Ha. simpl.
    destruct Ha as ((-> & ?) & (-> & ?) & (-> & ?) & (-> & ?) & (-> & ?) & _). split; [done|]. by repeat constructor.
  - intros (g & -> & Hl & Hf). rewrite Creds.split_on_join_hex; [|by intros ->|done].
    destruct g as [|a [|b [|c [|d [|e [|]]]]]]; try discriminate Hl. injection Hl as Ha Hb Hc Hd He. rewrite !Forall_cons in Hf.
    destruct Hf as (F1 & F2 & F3 & F4 & F5 & _). simpl. by rewrite Ha, Hb, Hc, Hd, He, F1, F2, F3, F4, F5.
Qed.
Lemma secret_iff t : secret t = true <-> secret_shaped t.
Proof.
  unfold secret, secret_shaped, looks_like_secret_token. rewrite orb_true_iff, uuid_iff.
  rewrite <- (str_all_Forall _ _ t hex_iff), <- (str_all_Forall _ _ t word_iff), <- (str_any_Exists _ _ t letter_iff), <- (str_any_Exists _ _ t mark_iff).
  destruct (slen t <? 24) eqn:El; [apply Z.ltb_lt in El; intuition (done || lia)|apply Z.ltb_ge in El].
  destruct (str_all is_ascii_hexdigit t); [intuition|]. rewrite !andb_true_iff. intuition done.
Qed.
Lemma shows_secret_iff t : secret t = false <-> ~ secret_shaped t.
Proof. rewrite <- secret_iff. destruct (secret t); intuition done. Qed.
Lemma replaced_shown t : replaced t (shown t).
Proof. unfold replaced, shown. rewrite <- secret_iff. destruct (secret t); [by left|by right]. Qed.

Lemma redaction_flush t s s' : str_all is_token_byte t = true -> at_boundary s -> redaction s s' -> redaction (t +:+ s) (flush t +:+ s').
Proof.
  rewrite (str_all_Forall _ _ t word_iff). intros Ht Hs Hr. unfold flush. destruct (secret t) eqn:E.
  - apply redaction_hidden; [done..|by apply secret_iff|done].
  - apply redaction_kept; [done..|by apply shows_secret_iff|done].
Qed.
Lemma redact_from_spec tok s : str_all is_token_byte tok = true -> redaction (tok +:+ s) (redact_from tok s).
Proof.
  revert tok. induction s as [|c s IH]; intros tok Ht; cbn [redact_from].
  - rewrite <- (str_app_nil_r (flush tok)). by apply redaction_flush; [|done|constructor].
  - destruct (is_token_byte c) eqn:Hc.
    + rewrite <- app_one. apply IH. by rewrite str_all_app, Ht, str_all_cons, Hc.
    + assert (~ word_char c) by (rewrite <- word_iff; congruence). apply redaction_flush; [done..|]. constructor; [done|]. by apply (IH EmptyString).
Qed.

(** C36: The report's log tail shows no credential-shaped word.  The redacted
    text is the original, character for character, except that each word
    (maximal run of letters, digits, '-' and '_') that is a uuid, 24 or more
    hexadecimal digits, or 24 or more characters with a letter and with a digit
    or separator among them, is replaced by the placeholder: each word of the
    result is the word of the original in the same place or the placeholder's.
    So none of those shapes is left, redacting again changes nothing, and a
    text without them is kept to the byte.  Words of other shapes are shown
    ([letters_only_key_shown]). *)
Theorem redaction_exact text :
  redaction text (redact_secrets text) /\
  Forall2 replaced (tokens text) (tokens (redact_secrets text)) /\
  Forall (fun t => ~ secret_shaped t) (tokens (redact_secrets text)) /\
  redact_secrets (redact_secrets text) = redact_secrets text /\
  (Forall (fun t => ~ secret_shaped t) (tokens text) -> redact_secrets text = text).
Proof.
  split; [by apply (redact_from_spec EmptyString)|]. split; [|split; [|split]].
  - unfold redact_secrets. rewrite redact_tokens by done. apply Forall2_fmap_r, Forall_Forall2_diag, List.Forall_forall. intros t _. apply replaced_shown.
  - eapply Forall_impl; [apply redacted_clean|]. intros t. apply shows_secret_iff.
  - apply (redact_same EmptyString), redacted_clean.
  - intros H. apply (redact_same EmptyString). eapply Forall_impl; [exact H|]. intros t. apply shows_secret_iff.
Qed.

(** A base64url key of letters alone is not recognised, whatever its length. *)
Lemma letters_only_key_shown :
  let key := "qwertyuiopasdfghjklzxcvbnmQWERTYUIOPASDFGHJ" in slen key = 43 /\ redact_secrets key = key.
Proof. split; vm_compute; reflexivity. Qed.
End Redact.

(** ** The public surface *)

Module Surface.
Import Deployment.

Inductive CheckStatus := COk | Info | Warn | Fail.
#[export] Instance CheckStatus_eq : EqDecision CheckStatus.
Proof. solve_decision. Defined.

Record ListenSocket := { udp : bool; addr : string; port : Z; process : option string }.

(** [str::parse::<u16>]. *)
Definition parse_u16 (s : string) : option Z :=
  match Pacing.parse_u64 s with Some n => if n <=? 65535 then Some n else None | None => None end.

Definition is_loopback (l : ListenSocket) : bool :=
  match parse_ip (hd (addr l) (split_on "%" (addr l))) with
  | Some (V4 a) => v4_is_loopback a
  | Some (V6 a) => v6_is_loopback a
  | None => false
  end.

(** [str::split_whitespace]. *)
Fixpoint words_fuel (fuel : nat) (s : string) : list string :=
  match fuel, trim_start_fuel (String.length s) s with
  | O, _ | _, EmptyString => []
  | S fuel, s =>
      let fix word (s : string) : string * string :=
        match s with
        | EmptyString => (EmptyString, EmptyString)
        | String c s' => match ws_prefix s with O => let '(w, rest) := word s' in (String c w, rest) | _ => (EmptyString, s) end
        end in
      let '(w, rest) := word s in w :: words_fuel fuel rest
  end.
Definition split_whitespace (s : string) : list string := words_fuel (S (String.length s)) s.

(** [str::rsplit_once(':')]. *)
Fixpoint rsplit_once (d : ascii) (s : string) : option (string * string) :=
  match s with
  | EmptyString => None
  | String c s =>
      match rsplit_once d s with
      | Some (a, b) => Some (String c a, b)
      | None => if Ascii.eqb c d then Some (EmptyString, s) else None
      end
  end.
Fixpoint trim_open (s : string) : string := match s with String c s' => if is_char "[" c then trim_open s' else s | EmptyString => s end.
Fixpoint trim_close (s : string) : string :=
  match s with
  | String c s' => match trim_close s' with EmptyString => if is_char "]" c then EmptyString else String c EmptyString | t => String c t end
  | EmptyString => EmptyString
  end.
(** What follows the first occurrence of a separator. *)
Fixpoint after_first (sep s : string) : option string :=
  match strip_prefix sep s with
  | Some rest => Some rest
  | None => match s with EmptyString => None | String _ s' => after_first sep s' end
  end.
(** Up to the second occurrence of the separator, then up to a quote. *)
Fixpoint until_sep (sep s : string) : string :=
  match s with
  | EmptyString => EmptyString
  | String c s' => if starts_with sep s then EmptyString else String c (until_sep sep s')
  end.
Definition quote_char : ascii := ascii_of_nat 34.
Definition users_sep : string := "users:((" +:+ String quote_char EmptyString.
Definition process_of (line : string) : option string :=
  option_map (fun rest => hd EmptyString (split_on quote_char (until_sep users_sep rest))) (after_first users_sep line).

Definition parse_ss_line (udp : bool) (line : string) : option ListenSocket :=
  let line := trim line in
  match split_whitespace line with
  | _ :: _ :: _ :: local :: _ =>
      match rsplit_once ":" local with
      | Some (a, p) =>
          match parse_u16 p with
          | Some port => Some {| udp := udp; addr := trim_close (trim_open a); port := port; process := process_of line |}
          | None => None
          end
      | None => None
      end
  | _ => None
  end.
Definition parse_ss_listen_output (text : string) (udp : bool) : list ListenSocket := omap (parse_ss_line udp) (lines text).

Definition eq_ignore_ascii_case (a b : string) : bool := String.eqb (to_ascii_lowercase a) (to_ascii_lowercase b).
Definition parse_sshd_port_directive (text : string) : option Z :=
  find_map (fun l => match split_whitespace l with
                     | first :: rest => if eq_ignore_ascii_case first "port" then match rest with p :: _ => parse_u16 p | [] => None end else None
                     | [] => None
                     end) (lines text).
(** [sshd -T] and sshd_config, then a live listener. *)
Definition detect_ssh_port (sshd_t sshd_config : option string) (listeners : list ListenSocket) : option Z :=
  let from o := match o with Some text => parse_sshd_port_directive text | None => None end in
  match from sshd_t with
  | Some p => Some p
  | None => match from sshd_config with
            | Some p => Some p
            | None => option_map port (List.find (fun l => negb (udp l) && bool_decide (process l = Some "sshd")) listeners)
            end
  end.

Definition is_singbox_vpn_process (n : string) : bool := String.eqb n "sing-box" || starts_with "vpn-subscript" n.

Record ExpectedPort := { ep_udp : bool; ep_port : Z; ep_label : string; ep_owners : list string }.
Definition expected_singbox_vpn_ports (cfg : DeploymentConfig) : list ExpectedPort :=
  [{| ep_udp := false; ep_port := re_listen_port (reality cfg); ep_label := "VLESS+REALITY"; ep_owners := ["sing-box"] |};
   {| ep_udp := true; ep_port := hy_listen_port (hysteria2 cfg); ep_label := "Hysteria2"; ep_owners := ["sing-box"] |};
   {| ep_udp := false; ep_port := su_public_port (subscription cfg); ep_label := "nginx subscription HTTPS"; ep_owners := ["nginx"] |}].

Definition parse_ephemeral_range (text : string) : option (Z * Z) :=
  match split_whitespace text with
  | a :: b :: _ => match parse_u16 a, parse_u16 b with Some lo, Some hi => if lo <=? hi then Some (lo, hi) else None | _, _ => None end
  | _ => None
  end.
Definition local_ephemeral_port_range (proc : option string) : Z * Z :=
  Render.unwrap_or (match proc with Some t => parse_ephemeral_range t | None => None end) (32768, 60999).

Section Declared.
Context {V : Type} `{JsonOps V}.
Definition declared_ports (ib : V) : list (bool * Z) :=
  match match jget ib "listen_port" with Some v => jas_u64 v | None => None end with
  | Some p =>
      if negb (p <=? 65535) then [] else
      let kind := Render.unwrap_or (match jget ib "type" with Some v => jas_str v | None => None end) EmptyString in
      if existsb (String.eqb kind) ["hysteria"; "hysteria2"; "tuic"; "naive"] then [(true, p)]
      else if existsb (String.eqb kind) ["vless"; "vmess"; "trojan"; "http"] then [(false, p)]
      else [(false, p); (true, p)]
  | None => []
  end.
(** As a set: only membership is asked. *)
Definition declared_inbounds (config : V) : list (bool * Z) :=
  flat_map declared_ports (Render.unwrap_or (match jget config "inbounds" with Some v => jas_array v | None => None end) []).
Definition read_declared_inbounds (config : option V) : option (list (bool * Z)) :=
  match config with
  | Some v => match match jget v "inbounds" with Some a => jas_array a | None => None end with Some _ => Some (declared_inbounds v) | None => None end
  | None => None
  end.
End Declared.

(** What is found for a socket. *)
Inductive finding :=
| BackendLoopback | BackendExposed | SshListener | ExpectedListener | PortConflict | FlowSocket | UntoldSocket | InternalExposed | DhcpClient | UnexpectedListener.
Definition status_of (f : finding) : CheckStatus :=
  match f with
  | BackendLoopback | SshListener | ExpectedListener => COk
  | FlowSocket | DhcpClient => Info
  | UntoldSocket | UnexpectedListener => Warn
  | BackendExposed | PortConflict | InternalExposed => Fail
  end.

Section Classify.
Context (ssh_port : option Z) (expected : list ExpectedPort) (subscription_backend_port : Z) (ephemeral : Z * Z) (declared : option (list (bool * Z))).

Definition owner_ok (exp : ExpectedPort) (l : ListenSocket) : bool :=
  match process l with Some o => existsb (fun p => starts_with p o) (ep_owners exp) | None => true end.
Definition in_ephemeral (p : Z) : bool := (fst ephemeral <=? p) && (p <=? snd ephemeral).
Definition declares_udp (d : list (bool * Z)) (p : Z) : bool := existsb (fun '(u, q) => u && (q =? p)) d.

Definition classify_socket (l : ListenSocket) : option finding :=
  if negb (udp l) && (port l =? subscription_backend_port) then Some (if is_loopback l then BackendLoopback else BackendExposed) else
  if negb (udp l) && bool_decide (Some (port l) = ssh_port) then Some SshListener else
  match List.find (fun e => Bool.eqb (ep_udp e) (udp l) && (ep_port e =? port l)) expected with
  | Some exp => Some (if owner_ok exp l then ExpectedListener else PortConflict)
  | None =>
      if is_loopback l then None else
      let other := if udp l && (port l =? 68) && bool_decide (process l = Some "systemd-network") && str_any (is_char "%") (addr l)
                   then DhcpClient else UnexpectedListener in
      match process l with
      | Some name =>
          if is_singbox_vpn_process name then
            Some (if udp l && in_ephemeral (port l) then
                    match declared with
                    | Some d => if declares_udp d (port l) then InternalExposed else FlowSocket
                    | None => UntoldSocket
                    end
                  else InternalExposed)
          else Some other
      | None => Some other
      end
  end.
Definition classify_public_surface_in (listeners : list ListenSocket) : list finding := omap classify_socket listeners.
End Classify.

(** [check_expected_public_surface]: the failures it adds ([None]: [ss] did
    not run). *)
Definition surface_failures (ssh_port : option Z) (cfg : DeploymentConfig) (ephemeral : Z * Z) (declared : option (list (bool * Z)))
  (listeners : option (list ListenSocket)) : Z :=
  match listeners with
  | None => 0
  | Some ls => Z.of_nat (length (List.filter (fun f => bool_decide (status_of f = Fail))
                 (classify_public_surface_in ssh_port (expected_singbox_vpn_ports cfg) (su_listen_port (subscription cfg)) ephemeral declared ls)))
  end.

(** ** Other classifiers *)

Definition classify_host_ipv6 (has_global : bool) (gateway neighbour_state : option string) : CheckStatus :=
  if negb has_global then Info else
  match gateway with
  | None => Warn
  | Some _ => match neighbour_state with Some state => if eq_ignore_ascii_case state "FAILED" then Warn else COk | None => COk end
  end.
Definition classify_egress_isolation_table (listing : option string) : CheckStatus :=
  match listing with
  | None => Info
  | Some text => if str_contains "skuid !=" text then Fail else if str_contains "meta skuid" text then COk else Warn
  end.

Inductive Ipv6Posture := NoAaaa | AaaaEgressOk | AaaaEgressBroken | AaaaEgressUnknown.
Definition classify_ipv6_posture (has_aaaa : bool) (probe : option bool) : Ipv6Posture :=
  if negb has_aaaa then NoAaaa else
  match probe with Some true => AaaaEgressOk | Some false => AaaaEgressBroken | None => AaaaEgressUnknown end.
Definition ipv6_posture_report (posture : Ipv6Posture) : CheckStatus * bool :=
  match posture with NoAaaa => (Info, false) | AaaaEgressOk => (COk, false) | AaaaEgressBroken => (Fail, true) | AaaaEgressUnknown => (Warn, false) end.

Inductive ProtocolCheckResult := NotRun | Passed | Failed | Inconclusive | Partial.
Definition combine_protocol_results (reality hysteria2 : ProtocolCheckResult) : ProtocolCheckResult :=
  match reality, hysteria2 with
  | Failed, _ | _, Failed => Failed
  | Passed, Passed => Passed
  | Passed, _ | _, Passed => Partial
  | Inconclusive, _ | _, Inconclusive => Inconclusive
  | NotRun, NotRun => NotRun
  | Partial, _ | _, Partial => Partial
  end.

Inductive Hysteria2SelfTestOutcome := TestPass | RejectedAuthentication | RejectedCertificate | Unreachable | TestInconclusive.
Definition classify_hysteria2_selftest (relay_ok : bool) (client_stderr : string) : Hysteria2SelfTestOutcome :=
  if relay_ok then TestPass else
  let text := to_ascii_lowercase client_stderr in
  if str_contains "authentication failed" text then RejectedAuthentication else
  if str_contains "x509:" text || str_contains "tls: failed to verify" text then RejectedCertificate else
  if str_contains "no recent network activity" text || str_contains "connection refused" text || str_contains "network is unreachable" text
     || str_contains "timeout" text || str_contains "deadline exceeded" text then Unreachable else
  TestInconclusive.
Definition pick_selftest_user (users : list Grants.CompatUser) (now : Z) : option Grants.CompatUser :=
  match List.find (fun u => Grants.is_active u now && Grants.is_reserved_probe u) users with
  | Some u => Some u
  | None => List.find (fun u => Grants.is_active u now) users
  end.

(** ** The public surface against the rendered configuration *)

Section Exact.
Context {V : Type} {JO : JsonOps V} {JL : JsonLaws V} {JT : JsonTree V} {JTL : JsonTreeLaws V} {JE : JsonEq V} {JEL : JsonEqLaws V}.
Import Server ServerDoctor.

Definition u16_port (p : Z) : Prop := 0 <= p <= 65535.
Lemma port_in_u64 p : u16_port p -> in_u64 p = true /\ (p <=? 65535) = true.
Proof. unfold u16_port, in_u64, u64_max. lia. Qed.

(** The rendered document declares one TCP and one UDP port. *)
Lemma rendered_declares b64 d users r h now doc :
  render_server_config_for_deployment (V := V) b64 d users r h now = Ok doc ->
  u16_port (re_listen_port (reality d)) -> u16_port (hy_listen_port (hysteria2 d)) ->
  read_declared_inbounds (Some doc) = Some [(false, re_listen_port (reality d)); (true, hy_listen_port (hysteria2 d))].
Proof.
  intros Hok Hr Hh. apply rendered_inbounds in Hok. unfold inbounds_of, get_array in Hok.
  unfold read_declared_inbounds, declared_inbounds. destruct (jget doc "inbounds") as [v|]; [|done]. rewrite Hok. simpl. f_equal.
  apply port_in_u64 in Hr as [Hr Hr'], Hh as [Hh Hh'].
  unfold declared_ports. rewrite !hysteria_inbound_member by (simpl; intuition discriminate).
  unfold vless_inbound. rewrite !jget_obj by lit_nodup. simpl. rewrite !jas_u64_jint, !jas_str_jstr by done. simpl.
  by rewrite Hr', Hh'.
Qed.

(** The listeners a healthy node may have. *)
Definition backend (d : DeploymentConfig) (l : ListenSocket) : Prop := udp l = false /\ port l = su_listen_port (subscription d).
Definition ssh (ssh_port : option Z) (l : ListenSocket) : Prop := udp l = false /\ Some (port l) = ssh_port.
(** The prefix of the names of the processes that serve an advertised port. *)
Definition served_by (d : DeploymentConfig) (l : ListenSocket) (owner : string) : Prop :=
  udp l = false /\ port l = re_listen_port (reality d) /\ owner = "sing-box" \/
  udp l = true /\ port l = hy_listen_port (hysteria2 d) /\ owner = "sing-box" \/
  udp l = false /\ port l = su_public_port (subscription d) /\ port l <> re_listen_port (reality d) /\ owner = "nginx".
Definition own_process (l : ListenSocket) : Prop :=
  exists name, process l = Some name /\ (name = "sing-box" \/ starts_with "vpn-subscript" name = true).
Definition ephemeral_udp (eph : Z * Z) (l : ListenSocket) : Prop := udp l = true /\ fst eph <= port l <= snd eph.
(** The backend on loopback; the SSH port exempt, whoever serves it; an
    advertised port by its own process where the process is known; no other
    public listener of the node but UDP flows. *)
Definition acceptable (d : DeploymentConfig) (ssh_port : option Z) (eph : Z * Z) (l : ListenSocket) : Prop :=
  (backend d l -> is_loopback l = true) /\
  (~ backend d l -> ~ ssh ssh_port l ->
   (forall owner name, served_by d l owner -> process l = Some name -> starts_with owner name = true) /\
   ((forall owner, ~ served_by d l owner) -> own_process l -> is_loopback l = true \/ ephemeral_udp eph l)).

Definition expects (d : DeploymentConfig) (l : ListenSocket) : option ExpectedPort :=
  List.find (fun e => Bool.eqb (ep_udp e) (udp l) && (ep_port e =? port l)) (expected_singbox_vpn_ports d).
Lemma expects_served d l :
  match expects d l with
  | Some e => (exists o, served_by d l o) /\
      (owner_ok e l = true <-> forall owner name, served_by d l owner -> process l = Some name -> starts_with owner name = true)
  | None => forall owner, ~ served_by d l owner
  end.
Proof.
  unfold expects, expected_singbox_vpn_ports, owner_ok, served_by. simpl.
  destruct (udp l); simpl;
    repeat match goal with |- context [Z.eqb ?x ?y] => destruct (Z.eqb_spec x y); simpl end;
    try (intros o; intuition congruence); (split; [eexists; intuition eauto|]);
    destruct (process l) as [name|]; rewrite ?orb_false_r; split; try done.
  all: try (intros _ o n _ Hn; discriminate Hn).
  all: try (intros H o x Ho [= <-]; destruct Ho as [(? & ? & ->)|[(? & ? & ->)|(? & ? & ? & ->)]]; congruence).
  all: intros H; eapply H; [|done]; intuition eauto.
Qed.
Lemma own_process_iff l : own_process l <-> exists name, process l = Some name /\ is_singbox_vpn_process name = true.
Proof. unfold own_process, is_singbox_vpn_process. by setoid_rewrite orb_true_iff; setoid_rewrite String.eqb_eq. Qed.

Lemma undeclared_unless_expected d l :
  expects d l = None -> udp l = true ->
  declares_udp [(false, re_listen_port (reality d)); (true, hy_listen_port (hysteria2 d))] (port l) = false.
Proof.
  intros He Hu. unfold expects in He. eapply List.find_none in He; [|right; left; reflexivity].
  simpl in *. rewrite Hu in He. simpl in He. by rewrite He.
Qed.

Lemma classify_fail_iff d ssh_port eph l :
  let declared := Some [(false, re_listen_port (reality d)); (true, hy_listen_port (hysteria2 d))] in
  (forall f, classify_socket ssh_port (expected_singbox_vpn_ports d) (su_listen_port (subscription d)) eph declared l = Some f ->
             status_of f <> Fail) <-> acceptable d ssh_port eph l.
Proof.
  cbn zeta. unfold classify_socket, acceptable, backend, ssh. fold (expects d l).
  pose proof (undeclared_unless_expected d l) as Hund.
  destruct (negb (udp l) && (port l =? su_listen_port (subscription d))) eqn:Eb.
  { apply andb_true_iff in Eb as [Eu Ep]. apply negb_true_iff in Eu. apply Z.eqb_eq in Ep.
    destruct (is_loopback l); split; try done.
    - intros _. split; [done|]. intros Hn. by destruct Hn.
    - by intros _ f [= <-].
    - intros Hf. by destruct (Hf _ eq_refl).
    - intros [Hb _]. by specialize (Hb (conj Eu Ep)). }
  assert (Hb : ~ (udp l = false /\ port l = su_listen_port (subscription d))).
  { intros [Hu Hp]. rewrite Hu, Hp, Z.eqb_refl in Eb. done. }
  destruct (negb (udp l) && bool_decide (Some (port l) = ssh_port)) eqn:Es.
  { apply andb_true_iff in Es as [Eu Ep]. apply negb_true_iff in Eu. apply bool_decide_eq_true in Ep.
    split; [|by intros _ f [= <-]]. intros _. split; [done|]. intros _ Hn. by destruct Hn. }
  assert (Hs : ~ (udp l = false /\ Some (port l) = ssh_port)).
  { intros [Hu Hp]. rewrite Hu, (bool_decide_eq_true_2 _ Hp) in Es. done. }
  pose proof (expects_served d l) as Hx. destruct (expects d l) as [e|] eqn:Ee.
  - destruct Hx as [[o Ho] Hx]. split.
    + intros Hf. split; [done|]. intros _ _. split; [|by intros Hn; destruct (Hn o)]. apply Hx.
      destruct (owner_ok e l); [done|]. by destruct (Hf _ eq_refl).
    + intros [_ Ha] f [= <-]. destruct (Ha Hb Hs) as [Hok _]. apply Hx in Hok. by rewrite Hok.
  - specialize (Hund eq_refl). split.
    + intros Hf. split; [done|]. intros _ _. split; [intros o n Ho; by destruct (Hx o)|]. intros _ Hown.
      apply own_process_iff in Hown as (name & Hp & Hn). rewrite Hp, Hn in Hf.
      destruct (is_loopback l); [by left|right]. unfold ephemeral_udp, in_ephemeral in *.
      destruct (udp l && ((fst eph <=? port l) && (port l <=? snd eph))) eqn:Eu; [|by destruct (Hf _ eq_refl)].
      apply andb_true_iff in Eu as [-> Eu]. apply andb_true_iff in Eu. split; [done|]. lia.
    + intros [_ Ha] f. destruct (Ha Hb Hs) as [_ Ho]. specialize (Ho Hx). rewrite own_process_iff in Ho.
      destruct (is_loopback l) eqn:El; [done|].
      destruct (process l) as [name|] eqn:Hp; [destruct (is_singbox_vpn_process name) eqn:Hn|];
        [|intros [= <-]; by destruct (_ && str_any _ _)..].
      destruct Ho as [?|[Hu Hr]]; [by exists name|done|]. unfold in_ephemeral.
      assert ((fst eph <=? port l) && (port l <=? snd eph) = true) as -> by lia.
      rewrite Hu, (Hund Hu). by intros [= <-].
Qed.

(** C37: On a node whose configuration was rendered from its deployment, doctor
    counts no failure of the public surface exactly when every listening
    socket is acceptable.  A TCP socket on the subscription backend's port is
    acceptable on loopback only.  Any other TCP socket on the SSH port is
    exempt, whoever serves it and whatever else is expected there
    ([ssh_port_hides_conflict]).  Otherwise a socket on an advertised port is
    not served by a known process of another name, and no process of the node
    is on another public port except UDP sockets in the ephemeral range; such
    a socket is never a declared inbound, so outbound flows never fail the
    check. *)
Theorem surface_check_exact b64 d users r h now doc ssh_port eph listeners :
  render_server_config_for_deployment (V := V) b64 d users r h now = Ok doc ->
  u16_port (re_listen_port (reality d)) -> u16_port (hy_listen_port (hysteria2 d)) ->
  surface_failures ssh_port d eph (read_declared_inbounds (Some doc)) (Some listeners) = 0 <->
  forall l, In l listeners -> acceptable d ssh_port eph l.
Proof.
  intros Hok Hr Hh. rewrite (rendered_declares b64 d users r h now doc) by done. unfold surface_failures.
  set (fs := classify_public_surface_in _ _ _ _ _ _).
  transitivity (forall f, In f fs -> status_of f <> Fail).
  - split.
    + intros H0 f Hf Hfail. assert (Hin : In f (List.filter (fun f => bool_decide (status_of f = Fail)) fs)).
      { apply In_filterb. split; [done|]. by apply bool_decide_eq_true. }
      destruct (List.filter _ fs); [done|]. simpl in H0. lia.
    + intros Hf. rewrite filter_none; [done|]. apply List.Forall_forall. intros f Hin. apply bool_decide_eq_false. by apply Hf.
  - split.
    + intros Hf l Hl. apply classify_fail_iff. intros f Hc. apply Hf. apply In_filter_map. by exists l.
    + intros Ha f Hf. apply In_filter_map in Hf as (l & Hl & Hc). by eapply classify_fail_iff; [apply Ha|].
Qed.
End Exact.

Definition ex_flow : ListenSocket := {| udp := true; addr := "::"; port := 40000; process := Some "sing-box" |}.
Definition ex_stray : ListenSocket := {| udp := false; addr := "0.0.0.0"; port := 9090; process := Some "sing-box" |}.
Lemma surface_check_exact_witness :
  exists doc, ServerPolicy.ServerPolicy.ex_render ServerPolicy.ServerPolicy.ex_relay_node ServerPolicy.ServerPolicy.ex_users = Ok doc /\
    acceptable ServerPolicy.ServerPolicy.ex_relay_node (Some 22) (32768, 60999) ex_flow /\
    ~ (forall l, In l [ex_flow; ex_stray] -> acceptable ServerPolicy.ServerPolicy.ex_relay_node (Some 22) (32768, 60999) l).
Proof.
  destruct (ServerPolicy.ServerPolicy.ex_render ServerPolicy.ServerPolicy.ex_relay_node ServerPolicy.ServerPolicy.ex_users) as [doc|e] eqn:E;
    [|vm_compute in E; discriminate E].
  assert (P : u16_port (re_listen_port (reality ServerPolicy.ServerPolicy.ex_relay_node)) /\ u16_port (hy_listen_port (hysteria2 ServerPolicy.ServerPolicy.ex_relay_node)))
    by (vm_compute; intuition discriminate).
  destruct P as [P1 P2]. pose proof (fun ls => surface_check_exact (V := json) _ _ _ _ _ _ _ (Some 22) (32768, 60999) ls E P1 P2) as H.
  vm_compute in E. injection E as <-. eexists. split; [reflexivity|]. split.
  - apply (H [ex_flow]); [vm_compute; reflexivity|by left].
  - intros Ha. apply H in Ha. vm_compute in Ha. discriminate Ha.
Defined.

(** With sshd on the port REALITY is configured for, REALITY cannot be served
    there and the surface check counts no failure. *)
Lemma ssh_port_hides_conflict :
  let d := ServerPolicy.ServerPolicy.ex_relay_node in
  let sshd := {| udp := false; addr := "0.0.0.0"; port := re_listen_port (reality d); process := Some "sshd" |} in
  let failures ssh_port := surface_failures ssh_port d (32768, 60999) None (Some [sshd]) in
  failures (Some 22) = 1 /\ failures (Some (port sshd)) = 0.
Proof. split; vm_compute; reflexivity. Qed.
End Surface.

(** ** release_identity.rs *)

Module ReleaseIdentity.
Import Surface.

Inductive Verdict := VOk | VInfo | VWarn.
Inductive ReleaseClass := Stable | ReleaseCandidate | Development.
#[export] Instance ReleaseClass_eq : EqDecision ReleaseClass.
Proof. solve_decision. Defined.

(** Up to the first ['-'] or ['+']. *)
Fixpoint core_part (s : string) : string :=
  match s with
  | EmptyString => EmptyString
  | String c s' => if is_char "-" c || is_char "+" c then EmptyString else String c (core_part s')
  end.
Definition release_core (tag : string) : option string :=
  match strip_prefix "v" tag with
  | None => None
  | Some rest =>
      let core := core_part rest in
      let parts := split_on "." core in
      if (length parts =? 3)%nat && forallb (fun p => negb (str_is_empty p) && str_all is_ascii_digit p) parts then Some core else None
  end.
Definition classify (tag : string) : ReleaseClass :=
  match release_core tag with
  | Some _ => if str_any (is_char "-") tag then ReleaseCandidate else Stable
  | None => Development
  end.

Definition RECORDED : list (string * string) :=
  [("vpn-admin", "vpn_admin_sha256"); ("vpn", "vpn_sha256"); ("vpn-subscription-svc", "subscription_sha256")].

Inductive problem := OtherRelease | RunningNotRecorded | MissingFile (file : string) | DiffersFrom (file : string).
(** The message that is reported. *)
Inductive identity :=
| NoManifest | NotJson | UpdateInProgress
| Inconsistent (class : ReleaseClass) (problems : list problem)
| Unrecorded (class : ReleaseClass) (files : list string)
| Recorded (class : ReleaseClass) (matched : nat).
Definition verdict (i : identity) : Verdict :=
  match i with
  | NoManifest | NotJson | Inconsistent _ _ => VWarn
  | UpdateInProgress | Unrecorded _ _ => VInfo
  | Recorded _ _ => VOk
  end.

Section Evaluate.
Context {V : Type} `{HJ : JsonOps V}.
(** [running_core]: the version of this build; [hash_of]: the installed
    executables; [running]: the executable of this process. *)
Context (running_core : string) (hash_of : string -> option string) (running : option string).

(** [manifest[key].as_str().filter(|h| !h.is_empty())]. *)
Definition recorded_str (manifest : V) (key : string) : option string :=
  match get_str manifest key with Some h => if str_is_empty h then None else Some h | None => None end.
Definition or_else {A} (a b : option A) : option A := match a with Some x => Some x | None => b end.
Definition recorded_admin (manifest : V) : option string := recorded_str manifest "vpn_admin_sha256".
Definition recorded_vpn (manifest : V) : option string := or_else (recorded_str manifest "vpn_sha256") (recorded_admin manifest).
Definition recorded_for (manifest : V) (file key : string) : option string :=
  or_else (recorded_str manifest key) (if String.eqb file "vpn" then recorded_vpn manifest else None).

(** One turn of the loop over [RECORDED]: problems, unrecorded, matched. *)
Definition check_file (manifest : V) (fk : string * string) : list problem * list string * nat :=
  let '(file, key) := fk in
  match recorded_for manifest file key, hash_of file with
  | _, None => ([MissingFile file], [], 0%nat)
  | None, Some _ => ([], [file], 0%nat)
  | Some want, Some have => if eq_ignore_ascii_case want have then ([], [], 1%nat) else ([DiffersFrom file], [], 0%nat)
  end.

Definition release_problems (manifest : V) : list problem :=
  let tag := Render.unwrap_or (get_str manifest "singbox_vpn_version") EmptyString in
  (if negb (bool_decide (classify tag = Development))
   then match release_core tag with Some core => if negb (String.eqb core running_core) then [OtherRelease] else [] | None => [] end
   else []) ++
  match recorded_admin manifest, running with
  | Some recorded, Some running_sha =>
      let is_vpn := match recorded_vpn manifest with Some h => eq_ignore_ascii_case h running_sha | None => false end in
      if negb (eq_ignore_ascii_case recorded running_sha) && negb is_vpn then [RunningNotRecorded] else []
  | _, _ => []
  end.

Definition evaluate (manifest_text : option (option V)) (update_in_progress : bool) : identity :=
  match manifest_text with
  | None => NoManifest
  | Some None => NotJson
  | Some (Some manifest) =>
      let class := classify (Render.unwrap_or (get_str manifest "singbox_vpn_version") EmptyString) in
      if update_in_progress then UpdateInProgress else
      let files := map (check_file manifest) RECORDED in
      let problems := release_problems manifest ++ flat_map (fun r => fst (fst r)) files in
      let unrecorded := flat_map (fun r => snd (fst r)) files in
      let matched := list_sum (map snd files) in
      match problems, unrecorded with
      | _ :: _, _ => Inconsistent class problems
      | [], _ :: _ => Unrecorded class unrecorded
      | [], [] => Recorded class matched
      end
  end.

(** ** What a match means *)

Definition same_hash (a : option string) (b : option string) : Prop :=
  exists x y, a = Some x /\ b = Some y /\ eq_ignore_ascii_case x y = true.

Lemma check_file_clean manifest file key : fst (check_file manifest (file, key)) = ([], []) <-> same_hash (recorded_for manifest file key) (hash_of file).
Proof.
  unfold check_file, same_hash. destruct (recorded_for manifest file key) as [w|], (hash_of file) as [h|]; try (split; [done|]; by intros (? & ? & ? & ? & _)).
  destruct (eq_ignore_ascii_case w h) eqn:E; split; try done; [eauto|]. intros (x & y & [= <-] & [= <-] & E'). congruence.
Qed.
Lemma check_file_count manifest fk : fst (check_file manifest fk) = ([], []) -> snd (check_file manifest fk) = 1%nat.
Proof.
  destruct fk as [file key]. unfold check_file. destruct (recorded_for manifest file key) as [w|], (hash_of file) as [h|]; try done.
  by destruct (eq_ignore_ascii_case w h).
Qed.

(** Doctor reports a recorded release as matching exactly when there is a
    readable manifest and no update under way, the recorded tag is no release
    tag or names the version of this build, the three installed executables
    have the recorded hashes (for vpn, when it has none of its own, that of
    vpn-admin), and the running executable, when its hash could be computed,
    is one of the two; the count reported is then three. *)
Theorem identity_ok_iff manifest_text pending :
  verdict (evaluate manifest_text pending) = VOk <->
  pending = false /\ exists m, manifest_text = Some (Some m) /\
    let tag := Render.unwrap_or (get_str m "singbox_vpn_version") EmptyString in
    (forall core, release_core tag = Some core -> core = running_core) /\
    same_hash (recorded_admin m) (hash_of "vpn-admin") /\ same_hash (recorded_vpn m) (hash_of "vpn") /\
    same_hash (recorded_str m "subscription_sha256") (hash_of "vpn-subscription-svc") /\
    (forall sha, running = Some sha -> same_hash (recorded_admin m) running \/ same_hash (recorded_vpn m) running) /\
    evaluate manifest_text pending = Recorded (classify tag) 3.
Proof.
  unfold evaluate. destruct manifest_text as [[m|]|]; [|split; [done|by intros (_ & m & [=] & _)]..]. cbn zeta.
  destruct pending; [by split; [|intros [? _]]|]. set (tag := Render.unwrap_or _ _).
  assert (Ha : recorded_for m "vpn-admin" "vpn_admin_sha256" = recorded_admin m) by (unfold recorded_for, recorded_admin; simpl; by destruct (recorded_str m _)).
  assert (Hv : recorded_for m "vpn" "vpn_sha256" = recorded_vpn m) by (unfold recorded_for, recorded_vpn; simpl; by destruct (recorded_str m "vpn_sha256")).
  assert (Hs : recorded_for m "vpn-subscription-svc" "subscription_sha256" = recorded_str m "subscription_sha256") by (unfold recorded_for; simpl; by destruct (recorded_str m _)).
  assert (Hp : release_problems m = [] <-> (forall core, release_core tag = Some core -> core = running_core) /\
    (recorded_admin m <> None -> forall sha, running = Some sha -> same_hash (recorded_admin m) running \/ same_hash (recorded_vpn m) running)).
  { unfold release_problems. fold tag. unfold classify, same_hash. split.
    - intros H. apply app_eq_nil in H as [H1 H2]. split.
      + intros core Hc. rewrite Hc in H1. rewrite bool_decide_false in H1 by (by destruct (str_any _ tag)). simpl in H1.
        destruct (String.eqb core running_core) eqn:E; [by apply String.eqb_eq|done].
      + intros Hra sha Hsha. rewrite Hsha in *. destruct (recorded_admin m) as [ra|]; [|done].
        destruct (eq_ignore_ascii_case ra sha) eqn:E; [left; eauto|]. right. destruct (recorded_vpn m) as [rv|]; [|done].
        destruct (eq_ignore_ascii_case rv sha) eqn:E2; [eauto|done].
    - intros [H1 H2]. assert (forall a b : list problem, a = [] -> b = [] -> a ++ b = []) as Happ by (by intros ? ? -> ->). apply Happ.
      + destruct (release_core tag) as [core|]; [|by rewrite bool_decide_true]. rewrite (H1 core eq_refl), String.eqb_refl. simpl.
        by destruct (negb _).
      + destruct (recorded_admin m) as [ra|]; [|done]. destruct running as [sha|]; [|done].
        destruct (H2 ltac:(done) sha eq_refl) as [(x & y & [= ->] & [= ->] & ->)|(x & y & E & [= ->] & E2)]; [done|]. rewrite E, E2. by rewrite andb_false_r. }
  cbn [map RECORDED flat_map list_sum fold_right].
  pose proof (check_file_clean m "vpn-admin" "vpn_admin_sha256") as C1. pose proof (check_file_clean m "vpn" "vpn_sha256") as C2.
  pose proof (check_file_clean m "vpn-subscription-svc" "subscription_sha256") as C3.
  rewrite Ha in C1. rewrite Hv in C2. rewrite Hs in C3.
  pose proof (check_file_count m ("vpn-admin", "vpn_admin_sha256")) as N1. pose proof (check_file_count m ("vpn", "vpn_sha256")) as N2.
  pose proof (check_file_count m ("vpn-subscription-svc", "subscription_sha256")) as N3.
  destruct (check_file m ("vpn-admin", _)) as [[p1 u1] n1], (check_file m ("vpn", _)) as [[p2 u2] n2], (check_file m ("vpn-subscription-svc", _)) as [[p3 u3] n3].
  cbn [fst snd] in *. split.
  - intros H. destruct (release_problems m ++ _) eqn:Ep; [|done]. destruct (u1 ++ _) eqn:Eu; [|done].
    apply app_eq_nil in Ep as [Er Ep]. apply app_eq_nil in Ep as [-> Ep]. apply app_eq_nil in Ep as [-> Ep]. apply app_eq_nil in Ep as [-> _].
    apply app_eq_nil in Eu as [-> Eu]. apply app_eq_nil in Eu as [-> Eu]. apply app_eq_nil in Eu as [-> _].
    apply Hp in Er as [R1 R2]. split; [done|]. exists m. split; [done|]. split; [exact R1|].
    split; [by apply C1|]. split; [by apply C2|]. split; [by apply C3|]. split.
    + apply R2. destruct (proj1 C1 eq_refl) as (x & _ & E & _). congruence.
    + by rewrite N1, N2, N3.
  - intros (_ & m' & [= <-] & H1 & H2 & H3 & H4 & H5 & H6). by rewrite H6.
Qed.
End Evaluate.

(** A running executable that cannot be read counts as matching: the message
    of the verdict says that the running vpn-admin matches. *)
Lemma unreadable_running_executable_matches :
  let m := jobj (V := json) [("singbox_vpn_version", jstr "v1.2.1"); ("vpn_admin_sha256", jstr "aa"); ("subscription_sha256", jstr "bb")] in
  evaluate "1.2.1" (fun f => Some (if String.eqb f "vpn-subscription-svc" then "bb" else "aa")) None (Some (Some m)) false = Recorded Stable 3.
Proof. vm_compute. reflexivity. Qed.
End ReleaseIdentity.
