(* ===== verification/RateLimit.v ===== *)
(** * services/subscription/src/lib.rs: the rate limiter

    Token buckets keyed by peer address, in binary64 arithmetic: [f64] is
    [spec_float], the Standard Library's executable model of IEEE 754, at the
    precision and exponent range of binary64.  Instants are nanoseconds of a
    monotonic clock.  The map of buckets is an association list with distinct
    keys; [hash_order] is the order in which the hash map is iterated. *)

From S2P Require Import Prelude Net.
From Stdlib Require Import SpecFloat.

Module RateLimit.

(** ** [f64] *)

Definition f64 : Type := spec_float.
Definition prec : Z := 53.
Definition emax : Z := 1024.
Definition f64_of_int (z : Z) : f64 := binary_normalize prec emax z 0 false.
Definition fadd (a b : f64) : f64 := SFadd prec emax a b.
Definition fsub (a b : f64) : f64 := SFsub prec emax a b.
Definition fmul (a b : f64) : f64 := SFmul prec emax a b.
Definition fdiv (a b : f64) : f64 := SFdiv prec emax a b.
Definition is_nan (a : f64) : bool := match a with S754_nan => true | _ => false end.
Definition fmin (a b : f64) : f64 := if is_nan a then b else if is_nan b then a else if SFltb b a then b else a.
Definition fmax (a b : f64) : f64 := if is_nan a then b else if is_nan b then a else if SFltb a b then b else a.
Definition f64_one : f64 := f64_of_int 1.
(** [f64::MIN_POSITIVE] = 2^-1022. *)
Definition F64_MIN_POSITIVE : f64 := binary_normalize prec emax 1 (-1022) false.

(** [Duration::as_secs_f64] of a duration in nanoseconds. *)
Definition NANOS_PER_SEC : Z := 1000000000.
Definition as_secs_f64 (nanos : Z) : f64 :=
  fadd (f64_of_int (nanos / NANOS_PER_SEC)) (fdiv (f64_of_int (nanos mod NANOS_PER_SEC)) (f64_of_int NANOS_PER_SEC)).
(** [Instant::duration_since] saturates at zero. *)
Definition duration_since (now earlier : Z) : Z := Z.max 0 (now - earlier).

(** ** The limiter *)

Record bucket := { b_tokens : f64; b_last : Z }.

Record RateLimiter := {
  buckets : list (IpAddr * bucket);
  capacity : f64;
  refill_per_sec : f64 }.

Definition new (capacity refill_per_sec : f64) : RateLimiter :=
  {| buckets := []; capacity := capacity; refill_per_sec := refill_per_sec |}.

Definition get (l : list (IpAddr * bucket)) (ip : IpAddr) : option bucket :=
  option_map snd (List.find (fun e => bool_decide (fst e = ip)) l).
Definition remove (l : list (IpAddr * bucket)) (ip : IpAddr) : list (IpAddr * bucket) :=
  List.filter (fun e => negb (bool_decide (fst e = ip))) l.
Definition insert (l : list (IpAddr * bucket)) (ip : IpAddr) (b : bucket) : list (IpAddr * bucket) :=
  (ip, b) :: remove l ip.

Definition bucket_count (self : RateLimiter) : Z := Z.of_nat (length (buckets self)).

Definition MAX_BUCKETS : Z := 8192.
Definition TRIM_TO : Z := MAX_BUCKETS / 2.

Section Limiter.
Context (hash_order : list (IpAddr * bucket) -> list (IpAddr * bucket)).

Definition newest_first (a b : IpAddr * Z) : bool := snd b <=? snd a.

Definition evict_full_buckets (capacity refill : f64) (l : list (IpAddr * bucket)) (now : Z)
  : list (IpAddr * bucket) :=
  if (Z.of_nat (length l) <=? MAX_BUCKETS) then l else
  let idle_for := fmax (fdiv capacity (fmax refill F64_MIN_POSITIVE)) f64_one in
  let l := List.filter (fun '(_, b) =>
             SFltb (b_tokens b) capacity || SFltb (as_secs_f64 (duration_since now (b_last b))) idle_for) l in
  if (Z.of_nat (length l) <=? TRIM_TO) then l else
  let seen := sort_stable newest_first (map (fun '(ip, b) => (ip, b_last b)) (hash_order l)) in
  let keep := map fst (take (Z.to_nat TRIM_TO) seen) in
  List.filter (fun '(ip, _) => bool_decide (ip ∈ keep)) l.

Definition allow (self : RateLimiter) (now : Z) (ip : IpAddr) : bool * RateLimiter :=
  let b := match get (buckets self) ip with
           | Some b => b
           | None => {| b_tokens := capacity self; b_last := now |}
           end in
  let elapsed := as_secs_f64 (duration_since now (b_last b)) in
  let tokens := fmin (fadd (b_tokens b) (fmul elapsed (refill_per_sec self))) (capacity self) in
  let '(allowed, tokens) := if SFleb f64_one tokens then (true, fsub tokens f64_one) else (false, tokens) in
  let l := insert (buckets self) ip {| b_tokens := tokens; b_last := now |} in
  (allowed, {| buckets := evict_full_buckets (capacity self) (refill_per_sec self) l now;
               capacity := capacity self; refill_per_sec := refill_per_sec self |}).

(** A sequence of requests: instants and peers. *)
Fixpoint serve (self : RateLimiter) (reqs : list (Z * IpAddr)) : list bool * RateLimiter :=
  match reqs with
  | [] => ([], self)
  | (now, ip) :: reqs' =>
      let '(a, self) := allow self now ip in
      let '(rest, self) := serve self reqs' in
      (a :: rest, self)
  end.

(** ** The map stays bounded *)

Definition limiter_inv (self : RateLimiter) : Prop :=
  List.NoDup (map fst (buckets self)) /\ bucket_count self <= MAX_BUCKETS.

Lemma remove_keys l ip x : In x (map fst (remove l ip)) <-> In x (map fst l) /\ x <> ip.
Proof.
  unfold remove. rewrite !in_map_iff. split.
  - intros ([y b] & <- & Hin). apply In_filterb in Hin as [Hin Hk]. simpl in *.
    apply negb_true_iff, bool_decide_eq_false in Hk. split; [by exists (y, b)|done].
  - intros (([y b] & <- & Hin) & Hk). exists (y, b). split; [done|]. apply In_filterb. split; [done|].
    apply negb_true_iff, bool_decide_eq_false. done.
Qed.

Lemma filter_keys_nodup (f : IpAddr * bucket -> bool) l :
  List.NoDup (map fst l) -> List.NoDup (map fst (List.filter f l)).
Proof.
  induction l as [|e l IH]; simpl; [done|]. intros Hn. inversion Hn; subst.
  destruct (f e); simpl; [|by apply IH]. constructor; [|by apply IH].
  intros Hin. apply in_map_iff in Hin as (e' & He & Hin). apply In_filterb in Hin as [Hin _].
  by apply in_map with (f := fst) in Hin; rewrite He in Hin.
Qed.

Lemma insert_nodup l ip b : List.NoDup (map fst l) -> List.NoDup (map fst (insert l ip b)).
Proof.
  intros Hn. simpl. constructor; [|by apply filter_keys_nodup]. intros Hin. by apply remove_keys in Hin as [_ ?].
Qed.

Lemma insert_length l ip b : (length (insert l ip b) <= S (length l))%nat.
Proof. simpl. pose proof (List.filter_length_le (fun e => negb (bool_decide (fst e = ip))) l). unfold remove. lia. Qed.

Lemma evict_nodup c r l now :
  List.NoDup (map fst l) -> List.NoDup (map fst (evict_full_buckets c r l now)).
Proof. intros Hn. unfold evict_full_buckets. repeat case_if; repeat apply filter_keys_nodup; done. Qed.

(** The last pass keeps at most as many buckets as it has keys to keep. *)
Lemma evict_bound c r l now :
  List.NoDup (map fst l) -> Z.of_nat (length (evict_full_buckets c r l now)) <= MAX_BUCKETS.
Proof.
  intros Hn. unfold evict_full_buckets.
  destruct (Z.of_nat (length l) <=? MAX_BUCKETS) eqn:E1; b2p; [done|].
  set (l1 := List.filter _ l). destruct (Z.of_nat (length l1) <=? TRIM_TO) eqn:E2; b2p; [change TRIM_TO with 4096 in *; unfold MAX_BUCKETS; lia|].
  set (keep := map fst _). assert (Hk : (length keep <= Z.to_nat TRIM_TO)%nat) by (unfold keep; rewrite length_map; apply firstn_le_length).
  set (l2 := List.filter _ l1). transitivity (Z.of_nat (length keep)); [|change TRIM_TO with 4096 in *; unfold MAX_BUCKETS; lia].
  apply Nat2Z.inj_le. rewrite <- (length_map fst l2). apply NoDup_incl_length; [repeat apply filter_keys_nodup; done|].
  intros x Hin. apply in_map_iff in Hin as ([y b] & <- & Hin). apply In_filterb in Hin as [_ Hin].
  apply bool_decide_eq_true, list_elem_of_In in Hin. done.
Qed.

Lemma allow_inv self now ip : limiter_inv self -> limiter_inv (snd (allow self now ip)).
Proof.
  intros [Hn _]. unfold allow. case_if; (split; [apply evict_nodup|apply evict_bound]; by apply insert_nodup).
Qed.

(** The limiter's memory is bounded.  Whatever addresses and instants a
    client can make the requests arrive from, after any sequence of requests
    from a fresh limiter there are at most 8192 buckets, one per address, and
    one verdict per request. *)
Theorem limiter_bounded c r reqs :
  limiter_inv (snd (serve (new c r) reqs)) /\ length (fst (serve (new c r) reqs)) = length reqs.
Proof.
  assert (H : forall self, limiter_inv self ->
    limiter_inv (snd (serve self reqs)) /\ length (fst (serve self reqs)) = length reqs).
  { induction reqs as [|[now ip] reqs IH]; intros self Hi; simpl; [done|].
    pose proof (allow_inv self now ip Hi) as Ha. destruct (allow self now ip) as [a self1]. simpl in Ha.
    destruct (IH self1 Ha) as [IHi IHl]. destruct (serve self1 reqs) as [rest self2]. simpl in *.
    split; [done|]. by rewrite IHl. }
  apply H. split; [constructor|by vm_compute].
Qed.
End Limiter.

(** ** The shipped parameters *)

Definition shipped : RateLimiter := new (f64_of_int 1000) (f64_of_int 250).
Definition proxy : IpAddr := V4 (ipv4 127 0 0 1).

(** With the parameters the service ships with, a burst from one source
    at one instant gets exactly 1000 requests through; the drained bucket
    yields the next token after 4 ms and not before, and 250 of them per
    second. *)
Theorem shipped_burst_and_recovery :
  let burst := map (fun _ : nat => (0, proxy)) (seq 0 1000) in
  let drained := snd (serve id shipped burst) in
  forallb (fun b => b) (fst (serve id shipped burst)) = true /\
  fst (allow id drained 0 proxy) = false /\ fst (allow id drained 3999999 proxy) = false /\
  fst (allow id drained 4000000 proxy) = true /\
  length (List.filter (fun b => b)
    (fst (serve id drained (map (fun _ : nat => (1000000000, proxy)) (seq 0 300))))) = 250%nat.
Proof. vm_compute. repeat split. Qed.

End RateLimit.
