(* ===== verification/Subscription.v ===== *)
(** * services/subscription/src/lib.rs: the HTTP handlers

    [GET /sub/{token}] and [GET /v1/provision/{token}], from the rate limiter
    to the response.  The only state a handler changes is the limiter; users
    are read from the store on every request.  Arguments: SHA-256, base64, the
    JSON printers and the two printers of derived [Serialize] code. *)

From S2P Require Import Prelude Strs Net Credentials Grants Json Contract Render Provisioning Store RateLimit.
From S2P Require Import Pacing.
From Stdlib Require Import Ascii.

Module Subscription.
Import Contract Render Provisioning.

(** ** Responses *)

Definition OK : Z := 200.
Definition BAD_REQUEST : Z := 400.
Definition NOT_FOUND : Z := 404.
Definition TOO_MANY_REQUESTS : Z := 429.
Definition INTERNAL_SERVER_ERROR : Z := 500.
Definition SERVICE_UNAVAILABLE : Z := 503.

Record Response := { status : Z; headers : list (string * string); body : string }.

Definition respond (s : Z) (b : string) : Response := {| status := s; headers := []; body := b |}.
Definition respond_as (s : Z) (content_type b : string) : Response :=
  {| status := s; headers := [("content-type", content_type)]; body := b |}.

(** [HeaderMap::insert] replaces any previous value. *)
Definition set_header (k v : string) (r : Response) : Response :=
  {| status := status r; headers := (k, v) :: List.filter (fun h => negb (String.eqb (fst h) k)) (headers r);
     body := body r |}.

Record SubQuery := {
  q_format : option string; q_profile : option string; q_compat : option string; q_encoding : option string }.
Record ProvisionQuery := { q_schema_version : option string; q_diagnostic : option string }.

Record UnsupportedSchemaVersionBody := { u_requested : Z; u_supported : list Z }.

Section Service.
Context {V : Type} `{JsonOps V, !JsonTree V}.
Context (sha256_hex base64_encode : string -> string).
(** [Value]'s [Display] and [to_string_pretty], [to_string_pretty] on a
    document and on the unsupported-version body, [to_string] on endpoints. *)
Context (to_string : V -> string) (value_pretty : V -> option string)
  (doc_pretty : ProvisioningDocument V -> option string)
  (unsupported_pretty : UnsupportedSchemaVersionBody -> option string)
  (endpoints_string : list CompatEndpoint -> option string).
Context (server_version : string).
Context (hash_order : list (IpAddr * RateLimit.bucket) -> list (IpAddr * RateLimit.bucket)).

Record AppState := {
  users_file : Store.path;
  endpoints : list CompatEndpoint;
  access_paths : list AccessPath;
  profile_title : string }.

(** What a request meets: the store (already parsed or failing), the clocks,
    the peer address. *)
Record Request := {
  rq_ip : IpAddr;
  rq_instant : Z;
  rq_now_unix : Z;
  rq_users : result (list Grants.CompatUser) Store.store_error }.

(** Every user is compared; the last match wins. *)
Definition find_user_by_token (users : list Grants.CompatUser) (token : string) (now_unix : Z)
  : option Grants.CompatUser :=
  let presented_hash := Creds.hash_token sha256_hex token in
  foldl (fun found u =>
    if Creds.token_hash_eq presented_hash (Grants.subscription_token_hash_hex u) && Grants.is_active u now_unix
    then Some u else found) None users.

Definition no_selectable_route_response : Response :=
  respond_as SERVICE_UNAVAILABLE "application/json"
    (to_string (jobj [("error", jstr "no_selectable_route");
                      ("message", jstr "no exit route is available for this subscription yet")])).

Definition user_has_relayed_route (user : Grants.CompatUser) (eps : list CompatEndpoint) : bool :=
  existsb (fun ep =>
    match ce_path ep with Some p => negb (String.eqb p "direct") | None => false end
    && existsb (fun e => String.eqb (fst e) (unwrap_or (ce_credential_ref ep) (ce_id ep)))
         (Grants.peer_credentials user)) eps.

Definition relay_needs_pinned_profile_response : Response :=
  respond_as BAD_REQUEST "application/json"
    (to_string (jobj [("error", jstr "relay_route_needs_pinned_profile");
                      ("message", jstr "this subscription is a relay chain; share links cannot express it and would skip the entry node. Use ?format=singbox&compat=hiddify-pinned")])).

Definition render_error : Response := respond INTERNAL_SERVER_ERROR "render error".
Definition not_found : Response := respond NOT_FOUND "not found".
Definition rate_limited : Response := respond TOO_MANY_REQUESTS "rate limited".
Definition internal_error : Response := respond INTERNAL_SERVER_ERROR "internal error".

(** The [format=singbox] arm. *)
Definition serve_singbox (state : AppState) (user : Grants.CompatUser) (profile : SelectionProfile)
  (mode : CompatibilityMode) : Response :=
  match access_paths state with
  | [] =>
      match render_singbox_client_subscription_with_options user (endpoints state) profile mode with
      | Ok doc => match value_pretty doc with
                  | Some b => respond_as OK "application/json" b
                  | None => render_error
                  end
      | Err _ => render_error
      end
  | _ =>
      let diag := match mode with TcpOnly => DiagTcpOnly | ModeVisionOff => DiagVisionOff | _ => DiagNone end in
      match provisioning_document_with_mode_and_access_paths_and_options to_string server_version user
              (endpoints state) diag (access_paths state) profile mode with
      | Ok doc => match singbox_config doc with
                  | Some config => match value_pretty config with
                                   | Some b => respond_as OK "application/json" b
                                   | None => render_error
                                   end
                  | None => render_error
                  end
      | Err NoSelectableRoute => no_selectable_route_response
      | Err _ => render_error
      end
  end.

(** The modes share links cannot express, with the message each is refused with. *)
Definition share_link_refusal (mode : CompatibilityMode) : option string :=
  match mode with
  | HiddifyPinned => Some "compat=hiddify-pinned is only supported with format=singbox — share-link syntax cannot express a hidden detour outbound or a single-route profile"
  | QuicReject => Some "compat=quic-reject is only supported with format=singbox — it is a route.rules entry, which share-link syntax cannot express"
  | YouTubeDirect => Some "compat=youtube-direct is only supported with format=singbox — it is a route.rules entry, which share-link syntax cannot express"
  | TcpOnly => Some "compat=tcp-only is only supported with format=singbox — the uri/hiddify share-link format cannot reliably enforce a TCP-only VLESS outbound"
  | _ => None
  end.

Definition serve_share_links (state : AppState) (user : Grants.CompatUser) (mode : CompatibilityMode)
  (want_base64 : bool) : Response :=
  match share_link_refusal mode with
  | Some msg => respond BAD_REQUEST msg
  | None =>
      if user_has_relayed_route user (endpoints state) then relay_needs_pinned_profile_response else
      let share_endpoints := share_link_endpoints (endpoints state) (access_paths state) in
      let rendered := if bool_decide (mode = ModeVisionOff)
                      then render_vision_off_uri_list user share_endpoints
                      else render_uri_list user share_endpoints in
      match rendered with
      | Ok b =>
          if str_is_empty b then no_selectable_route_response else
          respond_as OK "text/plain; charset=utf-8"
            (if want_base64 then to_base64_subscription base64_encode b else b)
      | Err _ => render_error
      end
  end.

(** What follows a successful token lookup. *)
Definition serve_user (state : AppState) (user : Grants.CompatUser) (query : SubQuery) : Response :=
  let format := unwrap_or (q_format query) "singbox" in
  let profile := unwrap_or (match q_profile query with Some s => SelectionProfile_parse s | None => None end)
                   Reliability in
  let compat := match q_compat query with None => Some Normal | Some s => CompatibilityMode_parse s end in
  match compat with
  | None => respond BAD_REQUEST "unknown compat value"
  | Some mode =>
      let encoding := match q_encoding query with
                      | None => Some false
                      | Some s => if String.eqb s "base64" then Some true else None
                      end in
      match encoding with
      | None => respond BAD_REQUEST "unknown encoding value"
      | Some want_base64 =>
          if want_base64 && String.eqb format "singbox"
          then respond BAD_REQUEST "encoding=base64 is only supported with format=uri/hiddify" else
          if String.eqb format "singbox" then serve_singbox state user profile mode else
          if String.eqb format "uri" || String.eqb format "hiddify"
          then serve_share_links state user mode want_base64 else
          respond BAD_REQUEST "unknown format"
      end
  end.

(** Token bounds, store and lookup, the same on both routes. *)
Definition authenticate (rq : Request) (token : string) : result Grants.CompatUser Response :=
  if str_is_empty token || (128 <? slen token) then Err not_found else
  match rq_users rq with
  | Err _ => Err internal_error
  | Ok users => ok_or (find_user_by_token users token (rq_now_unix rq)) not_found
  end.

Definition get_subscription (state : AppState) (lim : RateLimit.RateLimiter) (rq : Request)
  (token : string) (query : SubQuery) : Response * RateLimit.RateLimiter :=
  let '(allowed, lim) := RateLimit.allow hash_order lim (rq_instant rq) (rq_ip rq) in
  if negb allowed then (rate_limited, lim) else
  match authenticate rq token with
  | Err r => (r, lim)
  | Ok user => (serve_user state user query, lim)
  end.

(** [str::parse::<u32>]. *)
Definition parse_u32 (s : string) : option Z :=
  match Pacing.parse_u64 s with
  | Some n => if n <=? u32_max then Some n else None
  | None => None
  end.

Definition unsupported_schema_version_response (requested : Z) : Response :=
  respond_as BAD_REQUEST "application/json"
    (unwrap_or (unsupported_pretty {| u_requested := requested; u_supported := SUPPORTED_SCHEMA_VERSIONS |}) "{}").

Definition invalid_schema_version_response (requested : string) : Response :=
  respond_as BAD_REQUEST "application/json"
    (to_string (jobj [("error", jstr "invalid_schema_version"); ("requested", jstr requested);
       ("supported", jarr (map jint SUPPORTED_SCHEMA_VERSIONS));
       ("message", jstr "schema_version must be an integer; the server will not guess which version was meant")])).

Definition unknown_diagnostic_response (requested : string) : Response :=
  respond_as BAD_REQUEST "application/json"
    (to_string (jobj [("error", jstr "unknown_diagnostic"); ("requested", jstr requested);
       ("supported", jarr [jstr "tcp-only"; jstr "vision-off"]);
       ("message", jstr "unknown diagnostic profile; omit the parameter for the production profile")])).

(** Version and diagnostic negotiation, before authentication. *)
Definition negotiate (query : ProvisionQuery) : result DiagnosticMode Response :=
  let? _ := match q_schema_version query with
            | None => Ok tt
            | Some requested =>
                match parse_u32 requested with
                | Some v => if is_supported_schema_version v then Ok tt
                            else Err (unsupported_schema_version_response v)
                | None => Err (invalid_schema_version_response requested)
                end
            end in
  match q_diagnostic query with
  | None => Ok DiagNone
  | Some s => ok_or (DiagnosticMode_parse s) (unknown_diagnostic_response s)
  end.

Definition serve_document (state : AppState) (user : Grants.CompatUser) (diagnostic : DiagnosticMode) : Response :=
  match provisioning_document_with_mode_and_access_paths to_string server_version user
          (endpoints state) diagnostic (access_paths state) with
  | Err NoSelectableRoute => no_selectable_route_response
  | Err _ => render_error
  | Ok doc =>
      match to_json to_string doc_pretty doc with
      | Ok b => respond_as OK "application/json" b
      | Err _ => render_error
      end
  end.

Definition get_provision (state : AppState) (lim : RateLimit.RateLimiter) (rq : Request)
  (token : string) (query : ProvisionQuery) : Response * RateLimit.RateLimiter :=
  let '(allowed, lim) := RateLimit.allow hash_order lim (rq_instant rq) (rq_ip rq) in
  if negb allowed then (rate_limited, lim) else
  match negotiate query with
  | Err r => (r, lim)
  | Ok diagnostic =>
      match authenticate rq token with
      | Err r => (r, lim)
      | Ok user => (serve_document state user diagnostic, lim)
      end
  end.

(** [trim_start_matches('v')]. *)
Fixpoint trim_start_v (s : string) : string :=
  match s with String c s' => if is_char "v" c then trim_start_v s' else s | EmptyString => s end.

Definition get_provision_unsupported_version (version : string) : Response :=
  match parse_u32 (trim_start_v version) with
  | Some v => if is_supported_schema_version v then not_found else unsupported_schema_version_response v
  | None => not_found
  end.

(** ** Middleware and routes *)

Definition no_store_headers (r : Response) : Response :=
  set_header "x-robots-tag" "noindex, nofollow, noarchive"
    (set_header "x-content-type-options" "nosniff"
       (set_header "pragma" "no-cache" (set_header "cache-control" "no-store" r))).

(** [HeaderValue::from_str] refuses control characters other than tab. *)
Definition header_value_ok (s : string) : bool :=
  str_all (fun c => (in_range 32 255 c && negb (in_range 127 127 c)) || in_range 9 9 c) s.

Definition profile_title_header (state : AppState) (r : Response) : Response :=
  if status r =? OK then
    let value := profile_title_header_value base64_encode (profile_title state) in
    if header_value_ok value then set_header "profile-title" value r else r
  else r.

Definition state_fingerprint (state : AppState) : Response :=
  let fingerprint := Creds.hash_token sha256_hex (unwrap_or (endpoints_string (endpoints state)) EmptyString) in
  respond_as OK "application/json" (to_string (jobj [("endpoints_fingerprint_sha256", jstr fingerprint)])).

Inductive Route :=
| Sub (token : string) (query : SubQuery)
| ProvisionV1 (token : string) (query : ProvisionQuery)
| ProvisionOther (version token : string)
| Healthz
| Fingerprint.

Definition handle (state : AppState) (lim : RateLimit.RateLimiter) (rq : Request) (route : Route)
  : Response * RateLimit.RateLimiter :=
  match route with
  | Sub token query =>
      let '(r, lim) := get_subscription state lim rq token query in
      (profile_title_header state (no_store_headers r), lim)
  | ProvisionV1 token query =>
      let '(r, lim) := get_provision state lim rq token query in (no_store_headers r, lim)
  | ProvisionOther version _ => (no_store_headers (get_provision_unsupported_version version), lim)
  | Healthz => (respond OK "ok", lim)
  | Fingerprint => (state_fingerprint state, lim)
  end.

(** ** Lemmas *)

Lemma find_user_spec users token now :
  match find_user_by_token users token now with
  | Some u => In u users /\ Grants.is_active u now = true /\
      Creds.token_hash_eq (Creds.hash_token sha256_hex token) (Grants.subscription_token_hash_hex u) = true
  | None => forall u, In u users -> Grants.is_active u now = true ->
      Creds.token_hash_eq (Creds.hash_token sha256_hex token) (Grants.subscription_token_hash_hex u) = false
  end.
Proof.
  unfold find_user_by_token. set (f := fun found u => _).
  assert (Hg : forall l acc, match foldl f acc l with
    | Some u => (In u l /\ Grants.is_active u now = true /\
        Creds.token_hash_eq (Creds.hash_token sha256_hex token) (Grants.subscription_token_hash_hex u) = true)
        \/ acc = Some u
    | None => acc = None /\ forall u, In u l -> Grants.is_active u now = true ->
        Creds.token_hash_eq (Creds.hash_token sha256_hex token) (Grants.subscription_token_hash_hex u) = false
    end).
  { induction l as [|x l IH]; intros acc; simpl; [destruct acc; [by right|by split]|].
    specialize (IH (f acc x)). destruct (foldl f (f acc x) l) as [u|].
    - destruct IH as [(?&?&?)|E]; [by auto|]. unfold f in E. destruct (_ && _) eqn:Ec in E; [|by right].
      injection E as <-. b2p. auto.
    - destruct IH as [E IH]. unfold f in E. destruct (_ && _) eqn:Ec in E; [discriminate|]. split; [done|].
      intros u [<-|Hin] Ha; [|by apply IH]. rewrite Ha, andb_true_r in Ec. done. }
  specialize (Hg users None). destruct (foldl f None users); [by destruct Hg as [?|[=]]|apply Hg].
Qed.

Lemma authenticate_ok rq token user :
  authenticate rq token = Ok user ->
  exists users, rq_users rq = Ok users /\ In user users /\ Grants.is_active user (rq_now_unix rq) = true /\
    Creds.token_hash_eq (Creds.hash_token sha256_hex token) (Grants.subscription_token_hash_hex user) = true /\
    slen token <= 128.
Proof.
  unfold authenticate. intros Ha. apply if_err_ok in Ha as [Hl Ha].
  destruct (rq_users rq) as [users|] eqn:Eu; [|discriminate]. apply ok_or_ok in Ha. b2p.
  pose proof (find_user_spec users token (rq_now_unix rq)) as Hf. rewrite Ha in Hf. destruct Hf as (?&?&?).
  exists users. auto.
Qed.

(** A token that belongs to nobody active. *)
Definition token_dead (rq : Request) (token : string) : Prop :=
  exists users, rq_users rq = Ok users /\ forall u, In u users -> Grants.is_active u (rq_now_unix rq) = true ->
    Creds.token_hash_eq (Creds.hash_token sha256_hex token) (Grants.subscription_token_hash_hex u) = false.

Lemma authenticate_dead rq token : token_dead rq token -> authenticate rq token = Err not_found.
Proof.
  intros (users & Hu & Hd). unfold authenticate. rewrite Hu. case_if; [done|].
  pose proof (find_user_spec users token (rq_now_unix rq)) as Hf.
  destruct (find_user_by_token users token (rq_now_unix rq)) as [u|]; [|done].
  destruct Hf as (Hin & Ha & Ht). by rewrite (Hd u Hin Ha) in Ht.
Qed.

(** C21: tokens cannot be probed.  A token that matches nobody, a disabled
    user, an expired one or one not yet started gives, on both routes, a
    response that does not depend on the token or on the users: the limiter's
    refusal, a negotiation error of the query alone, or one fixed 404.  The
    limiter's next state does not depend on the token either. *)
Theorem dead_tokens_indistinguishable state lim rq token :
  token_dead rq token ->
  let '(allowed, lim') := RateLimit.allow hash_order lim (rq_instant rq) (rq_ip rq) in
  (forall query, handle state lim rq (Sub token query)
     = (no_store_headers (if allowed then not_found else rate_limited), lim')) /\
  (forall query, handle state lim rq (ProvisionV1 token query)
     = (no_store_headers (if allowed then match negotiate query with Ok _ => not_found | Err r => r end
                          else rate_limited), lim')).
Proof.
  intros Hd. apply authenticate_dead in Hd. unfold handle, get_subscription, get_provision.
  destruct (RateLimit.allow hash_order lim (rq_instant rq) (rq_ip rq)) as [[] lim']; simpl; [|done].
  rewrite Hd. split; [done|]. intros query. by destruct (negotiate query).
Qed.

Lemma negotiate_err_status query r : negotiate query = Err r -> status r = BAD_REQUEST.
Proof.
  unfold negotiate. destruct (q_schema_version query) as [s|]; simpl.
  - destruct (parse_u32 s) as [v|]; simpl; [|by intros [= <-]].
    destruct (is_supported_schema_version v); simpl; [|by intros [= <-]].
    destruct (q_diagnostic query) as [d|]; [|done]. destruct (DiagnosticMode_parse d); simpl; [done|by intros [= <-]].
  - destruct (q_diagnostic query) as [d|]; [|done]. destruct (DiagnosticMode_parse d); simpl; [done|by intros [= <-]].
Qed.

Lemma authenticate_err_status rq token r : authenticate rq token = Err r -> status r <> OK.
Proof.
  unfold authenticate. case_if; [by intros [= <-]|]. destruct (rq_users rq); [|by intros [= <-]].
  destruct (find_user_by_token _ _ _); simpl; [done|by intros [= <-]].
Qed.

(** C6: credentials go to their holder only.  A 200 on a credential route was
    let through by the limiter, is rendered for a user of the store whose
    token hash is the hash of the presented token and who is active at that
    moment, and is never cacheable. *)
Theorem credentials_served_to_holder_only state lim rq route r lim' :
  handle state lim rq route = (r, lim') -> status r = OK ->
  match route with
  | Sub token _ | ProvisionV1 token _ =>
      fst (RateLimit.allow hash_order lim (rq_instant rq) (rq_ip rq)) = true /\
      In ("cache-control", "no-store") (headers r) /\
      exists users user, rq_users rq = Ok users /\ In user users /\
        Grants.is_active user (rq_now_unix rq) = true /\
        Grants.subscription_token_hash_hex user = sha256_hex token /\
        body r = match route with
                 | Sub _ query => body (serve_user state user query)
                 | ProvisionV1 _ query => match negotiate query with
                                          | Ok d => body (serve_document state user d) | Err e => body e end
                 | _ => EmptyString
                 end
  | ProvisionOther _ _ => False
  | Healthz | Fingerprint => lim' = lim
  end.
Proof.
  assert (Hhash : forall token u, Creds.token_hash_eq (Creds.hash_token sha256_hex token)
    (Grants.subscription_token_hash_hex u) = true -> Grants.subscription_token_hash_hex u = sha256_hex token).
  { intros token u. unfold Creds.token_hash_eq, Creds.hash_token. case_if; [done|]. intros E. b2p. done. }
  destruct route as [token query|token query|version token| |]; unfold handle.
  - unfold get_subscription.
    destruct (RateLimit.allow hash_order lim (rq_instant rq) (rq_ip rq)) as [[] lim1]; simpl; [|by intros [= <- <-]].
    destruct (authenticate rq token) as [user|e] eqn:Ea.
    + apply authenticate_ok in Ea as (users & ? & ? & ? & ? & ?). intros [= <- <-] Hs. split; [done|]. split.
      * unfold profile_title_header. case_if; [|simpl; auto]. case_if; simpl; auto 10.
      * exists users, user. repeat (split; [by auto|]). unfold profile_title_header. by repeat case_if.
    + intros [= <- <-]. apply authenticate_err_status in Ea. unfold profile_title_header.
      simpl. destruct (status e =? OK) eqn:Es; b2p; done.
  - unfold get_provision.
    destruct (RateLimit.allow hash_order lim (rq_instant rq) (rq_ip rq)) as [[] lim1]; simpl; [|by intros [= <- <-]].
    destruct (negotiate query) as [d|e] eqn:En.
    2: { intros [= <- <-]. apply negotiate_err_status in En. simpl. rewrite En. discriminate. }
    destruct (authenticate rq token) as [user|e] eqn:Ea.
    + apply authenticate_ok in Ea as (users & ? & ? & ? & ? & ?). intros [= <- <-] Hs. split; [done|].
      split; [simpl; auto 10|]. exists users, user. repeat (split; [by auto|]). done.
    + intros [= <- <-]. apply authenticate_err_status in Ea. done.
  - intros [= <- <-]. unfold get_provision_unsupported_version. simpl.
    destruct (parse_u32 _); [destruct (is_supported_schema_version _)|]; done.
  - by intros [= <- <-].
  - by intros [= <- <-].
Qed.

(** *** Share links *)

Lemma relayed_route_false user eps :
  user_has_relayed_route user eps = false <->
  forall ep p, In ep eps -> ce_path ep = Some p -> p <> "direct" ->
    Grants.peer_credential user (unwrap_or (ce_credential_ref ep) (ce_id ep)) = None.
Proof.
  unfold user_has_relayed_route. rewrite existsb_false_iff. unfold Grants.peer_credential.
  assert (Hc : forall i (l : list (string * Grants.PeerCredential)),
    existsb (fun e => String.eqb (fst e) i) l = false <->
    option_map snd (List.find (fun e => String.eqb (fst e) i) l) = None).
  { intros i l. induction l as [|e l IH]; simpl; [done|]. by destruct (String.eqb (fst e) i). }
  split.
  - intros Hx ep p Hin Hp Hd. specialize (Hx ep Hin). rewrite Hp in Hx. apply String.eqb_neq in Hd.
    rewrite Hd in Hx. by apply Hc.
  - intros Hx ep Hin. destruct (ce_path ep) as [p|] eqn:Ep; [|done].
    destruct (String.eqb p "direct") eqn:Ed; [done|]. simpl. apply Hc, (Hx ep p); [done..|]. by apply String.eqb_neq.
Qed.

(** Share links are never a way around a relay.  When a share-link format
    is answered with 200, the user holds no credential for any relayed route,
    and the body (before base64, when that was asked for) is one link per
    endpoint the user can use, in order, among exactly the direct endpoints
    that are not the first hop of a relay. *)
Theorem share_links_never_skip_the_relay state user query f :
  q_format query = Some f -> f = "uri" \/ f = "hiddify" ->
  status (serve_user state user query) = OK ->
  (forall ep p, In ep (endpoints state) -> ce_path ep = Some p -> p <> "direct" ->
     Grants.peer_credential user (unwrap_or (ce_credential_ref ep) (ce_id ep)) = None) /\
  exists vo lines,
    body (serve_user state user query) =
      (if bool_decide (q_encoding query = Some "base64") then base64_encode (join_on "010" lines)
       else join_on "010" lines) /\
    lines <> [] /\
    Forall2 (fun ep uri => share_link user vo ep = Ok (Some uri))
      (List.filter (has_credential user) (share_link_endpoints (endpoints state) (access_paths state))) lines /\
    forall ep, In ep (share_link_endpoints (endpoints state) (access_paths state)) <->
      In ep (endpoints state) /\ (ce_path ep = None \/ ce_path ep = Some "direct") /\
      forall p, In p (access_paths state) -> ap_kind p = KRelay -> ap_via_endpoint_id p <> Some (ce_id ep).
Proof.
  intros Hf Hff. unfold serve_user. rewrite Hf. simpl unwrap_or.
  assert (Hs : String.eqb f "singbox" = false) by (destruct Hff as [-> | ->]; done).
  assert (Hu : String.eqb f "uri" || String.eqb f "hiddify" = true) by (destruct Hff as [-> | ->]; done).
  destruct (match q_compat query with None => _ | Some s => _ end) as [mode|]; [|done].
  assert (He : exists e, (match q_encoding query with None => Some false | Some s => if String.eqb s "base64" then Some true else None end) = e
    /\ (forall w, e = Some w -> w = bool_decide (q_encoding query = Some "base64"))).
  { eexists. split; [done|]. destruct (q_encoding query) as [s|]; [|by intros w [= <-]].
    destruct (String.eqb s "base64") eqn:Es; [|done]. b2p. subst. intros w [= <-]. by rewrite bool_decide_true. }
  destruct He as ([want|] & -> & Hw); [|done]. specialize (Hw want eq_refl). rewrite Hs, Hu, andb_false_r. subst want.
  unfold serve_share_links. destruct (share_link_refusal mode); [done|].
  destruct (user_has_relayed_route user (endpoints state)) eqn:Er; [done|].
  rewrite relayed_route_false in Er. set (vo := bool_decide (mode = ModeVisionOff)).
  assert (Hrd : (if vo then render_vision_off_uri_list user (share_link_endpoints (endpoints state) (access_paths state))
    else render_uri_list user (share_link_endpoints (endpoints state) (access_paths state)))
    = render_share_links user (share_link_endpoints (endpoints state) (access_paths state)) vo)
    by (by destruct vo).
  rewrite Hrd. destruct (render_share_links user _ vo) as [b|] eqn:El; [|done]. simpl.
  destruct (str_is_empty b) eqn:Ee; [done|]. intros _. split; [exact Er|].
  apply render_share_links_spec in El as (lines & -> & Hl).
  exists vo, lines. split; [done|]. split; [intros ->; done|]. split; [done|]. intros ep. apply share_link_endpoints_spec.
Qed.

(** *** Both routes hand out the same configuration *)

Lemma subscription_document_endpoints user mode diag l eps :
  mode = Normal /\ diag = DiagNone \/ mode = TcpOnly /\ diag = DiagTcpOnly ->
  subscription_endpoints user mode l = Ok eps -> document_endpoints user diag l = Ok eps.
Proof.
  intros Hm. revert eps. induction l as [|ep l IH]; simpl; intros eps Hok; [done|].
  assert (Hsk : bool_decide (mode = TcpOnly) = bool_decide (diag = DiagTcpOnly)) by (destruct Hm as [[-> ->]|[-> ->]]; done).
  assert (Hv : bool_decide (mode = ModeVisionOff) = false /\ bool_decide (diag = DiagVisionOff) = false)
    by (destruct Hm as [[-> ->]|[-> ->]]; done).
  destruct Hv as [Hv1 Hv2]. rewrite Hsk, Hv1 in Hok. rewrite Hv2. simpl in *. case_if; [auto|].
  apply bind_ok in Hok as (b & Hb & Hok). apply bind_ok in Hok as (rest & Hr & Hok). injection Hok as <-.
  unfold contract_endpoint in Hb. apply bind_ok in Hb as (o & Ho & Hb). apply ok_or_ok in Hb as ->.
  rewrite Ho. simpl. by rewrite (IH _ Hr).
Qed.

(** The legacy and the first-party route describe the same deployment.
    Without access paths, whenever the native subscription renders in the
    normal or the TCP-only mode, the provisioning document assembled for the
    same user and mode embeds exactly that configuration. *)
Theorem subscription_config_is_embedded_config user ces mode diag cfg :
  mode = Normal /\ diag = DiagNone \/ mode = TcpOnly /\ diag = DiagTcpOnly ->
  render_singbox_client_subscription_with_options (V := V) user ces Reliability mode = Ok cfg ->
  exists doc, assemble_document server_version user ces diag [] Reliability mode = Ok doc /\
    singbox_config doc = Some cfg.
Proof.
  intros Hm Hok. apply bind_ok in Hok as (eps & He & Hr).
  pose proof (subscription_document_endpoints _ _ _ _ _ Hm He) as Hd.
  unfold assemble_document. rewrite Hd. simpl.
  assert (Hs : selectable_of [] eps = eps) by (apply filter_true; done). rewrite Hs.
  rewrite andb_false_r. unfold render_singbox_config_from_contract in Hr. rewrite Hr. simpl.
  assert (Hp : bool_decide (mode = HiddifyPinned) = false) by (destruct Hm as [[-> _]|[-> _]]; done).
  unfold restore_application_udp_on_relayed_vless. rewrite Hp. simpl. eexists. split; [done|]. done.
Qed.

(** A user without a credential for one peer listener: the document omits that
    listener, the native subscription fails as a whole. *)
Lemma missing_peer_credential_breaks_subscription user ces ep mode profile :
  In ep ces -> ce_origin ep = Peer -> ce_transport ep = Grants.VlessReality ->
  Grants.peer_credential user (unwrap_or (ce_credential_ref ep) (ce_id ep)) = None ->
  is_ok (render_singbox_client_subscription_with_options (V := V) user ces profile mode) = false /\
  forall flow tag, contract_endpoint_opt user ep flow tag = Ok None.
Proof.
  intros Hin Hp Ht Hc. assert (Ho : forall flow tag, contract_endpoint_opt user ep flow tag = Ok None).
  { intros flow tag. unfold contract_endpoint_opt, resolve_credential. by rewrite Hp, Hc. }
  split; [|done]. unfold render_singbox_client_subscription_with_options.
  assert (Hn : is_ok (subscription_endpoints user mode ces) = false); [|by destruct (subscription_endpoints user mode ces)].
  induction ces as [|x l IH]; [done|]. simpl.
  destruct Hin as [->|Hin].
  - rewrite Ht, andb_false_r. unfold contract_endpoint at 1. by rewrite Ho.
  - specialize (IH Hin). case_if; [done|]. destruct (contract_endpoint _ _ _ _); [|done]. simpl.
    by destruct (subscription_endpoints user mode l).
Qed.
End Service.

(** ** Examples *)

(** A direct node with one listener, and a user whose token is "secret". *)
Definition ex_sha (t : string) : string := if String.eqb t "secret" then "7f" else "00".
Definition ex_state : AppState :=
  {| users_file := {| Store.dir := "/etc/vpn-compat"; Store.name := "users.json" |}; endpoints := [ex_hop]; access_paths := []; profile_title := "VPN" |}.
Definition ex_request : Request :=
  {| rq_ip := V4 {| o0 := 10; o1 := 0; o2 := 0; o3 := 1 |}; rq_instant := 0; rq_now_unix := 1700000000; rq_users := Ok [ex_user] |}.
Definition ex_query (f : string) : SubQuery :=
  {| q_format := Some f; q_profile := None; q_compat := None; q_encoding := None |}.
Definition ex_handle (rq : Request) (route : Route) : Response * RateLimit.RateLimiter :=
  handle (V := json) ex_sha hex_encode json_print (fun v => Some (json_print v)) (fun _ => Some "{}")
    (fun _ => Some "{}") (fun _ => Some "[]") "1.0.0" (fun l => l) ex_state RateLimit.shipped rq route.

Lemma dead_tokens_indistinguishable_witness :
  token_dead ex_sha ex_request "guess" /\
  fst (ex_handle ex_request (Sub "guess" (ex_query "uri"))) = no_store_headers not_found.
Proof.
  assert (Hd : token_dead ex_sha ex_request "guess").
  { exists [ex_user]. split; [reflexivity|]. intros u [<-|[]] _. reflexivity. }
  split; [exact Hd|].
  pose proof (dead_tokens_indistinguishable (V := json) ex_sha hex_encode json_print (fun v => Some (json_print v))
    (fun _ => Some "{}") (fun _ => Some "{}") (fun _ => Some "[]") "1.0.0" (fun l => l)
    ex_state RateLimit.shipped ex_request "guess" Hd) as Hx.
  destruct (RateLimit.allow (fun l => l) RateLimit.shipped (rq_instant ex_request) (rq_ip ex_request)) as [allowed lim'] eqn:E.
  assert (Ha : allowed = true) by (vm_compute in E; congruence).
  unfold ex_handle. rewrite (proj1 Hx (ex_query "uri")), Ha. reflexivity.
Defined.

Lemma credentials_served_to_holder_only_witness :
  status (fst (ex_handle ex_request (Sub "secret" (ex_query "uri")))) = OK /\
  exists users user, rq_users ex_request = Ok users /\ In user users /\
    Grants.subscription_token_hash_hex user = ex_sha "secret".
Proof.
  assert (Hs : status (fst (ex_handle ex_request (Sub "secret" (ex_query "uri")))) = OK) by (vm_compute; reflexivity).
  split; [exact Hs|].
  destruct (credentials_served_to_holder_only (V := json) ex_sha hex_encode json_print (fun v => Some (json_print v))
    (fun _ => Some "{}") (fun _ => Some "{}") (fun _ => Some "[]") "1.0.0" (fun l => l)
    ex_state RateLimit.shipped ex_request (Sub "secret" (ex_query "uri")) _ _ (surjective_pairing _) Hs)
    as (_ & _ & users & user & Hu & Hin & _ & Ht & _).
  exists users, user. split; [exact Hu|]. split; [exact Hin|exact Ht].
Defined.

Lemma share_links_never_skip_the_relay_witness :
  exists vo lines, lines <> [] /\
    Forall2 (fun ep uri => share_link ex_user vo ep = Ok (Some uri))
      (List.filter (has_credential ex_user) (share_link_endpoints [ex_hop] [])) lines.
Proof.
  destruct (share_links_never_skip_the_relay (V := json) hex_encode json_print (fun v => Some (json_print v)) "1.0.0"
    ex_state ex_user (ex_query "uri") "uri" eq_refl (or_introl eq_refl))
    as (_ & vo & lines & _ & Hn & Hl & _).
  - vm_compute. reflexivity.
  - exists vo, lines. split; [exact Hn|exact Hl].
Defined.

Lemma subscription_config_is_embedded_config_witness :
  exists doc, assemble_document (V := json) "1.0.0" ex_user [ex_hop] DiagNone [] Reliability Normal = Ok doc.
Proof.
  destruct (subscription_config_is_embedded_config (V := json) "1.0.0" ex_user [ex_hop] Normal DiagNone
    (match render_singbox_client_subscription_with_options (V := json) ex_user [ex_hop] Reliability Normal with
     | Ok c => c | Err _ => JNull end)) as (doc & Hd & _).
  - left. split; reflexivity.
  - vm_compute. reflexivity.
  - exists doc. exact Hd.
Defined.
End Subscription.
